(* ===== verification/_CoqProject ===== *)
-Q . S2P
Prelude.v
Text.v
Float64.v
Frontmatter.v
SourceIdentity.v
Supersession.v
References.v
Resolver.v
ResolverFacts.v
FrontmatterBlock.v
FrontmatterWriters.v
FrontmatterLines.v
FrontmatterWritersFacts.v
Types.v
Dependency.v
DependencyFacts.v
TrustPolicy.v
Calibration.v
TrustVerdicts.v
TrustGate.v
Scope.v
Tables.v
SupersessionRecords.v
SupersessionRecordsFacts.v
Urls.v
Lineage.v
LineageFacts.v
Manifest.v
Generations.v
GenerationsFacts.v
CurrentState.v
CurrentStateFacts.v
SecurityPolicy.v
UnknownTerms.v
TrustedSearch.v
Retriever.v
RetrieverFacts.v
Federation.v
FederationPool.v
FederationFacts.v
Intervals.v
FactEvents.v
SegmentTree.v
SuccessorIndex.v
FactProjection.v
FactProjectionFacts.v
Outbox.v
OutboxFacts.v
FactLedger.v
FactLedgerFacts.v
LedgerConsistency.v
ProvenanceController.v
ControllerFacts.v
ControllerDelivery.v
FactListing.v
Anchors.v
AnchorsFacts.v
Chunker.v
ChunkerFacts.v
CodePiecesFacts.v
Context.v
ContextFacts.v
DerivedBlock.v
DerivedBlockFacts.v
ProofObligations.v
ProofObligationsFacts.v
