(* ===== verification/Prelude.v ===== *)
(** * RE-call: a verification library

    RE-call is a memory for agents: memos with frontmatter are indexed, a search answers from
    them, and what it answers is gated. A memo may supersede another, expire, depend on other
    sources, or state a fact that a controller records in a ledger. This library models the
    parts of [src/recall] that decide what may be served and what is recorded, as Gallina
    functions that evaluate, and proves what they promise.

    ** The parts

    - Texts and values. [Prelude] (lists, insertion-ordered dictionaries, the [result] of a call
      that returns or raises, tactics and the hint database [recall]); [Text] (the [str]
      operations); [Float64] (binary64 arithmetic, rounding to nearest even); [Types]
      (types.py); [Tables] (the rows of the chunk table and of the audit ledger, and the scan over
      both); [Urls] ([urlsplit] as the manifests use it).
    - Memos. [Frontmatter] (frontmatter.py: dates, validity windows, references, authority,
      dependencies); [FrontmatterBlock] (which fences make a block, and what it declares);
      [FrontmatterWriters] (the byte-level edits of a block), with [FrontmatterLines] (a document
      as terminated lines, UTF-8) and [FrontmatterWritersFacts] (what is read back after an
      edit).
    - Supersession. [SourceIdentity] (source_identity.py, uploads.py); [References]
      (supersession.py, [ReferenceIndex]); [Supersession] (the walk to the valid successor);
      [Resolver], [ResolverFacts] (the one pass that makes the graph from the rows);
      [SupersessionRecords], [SupersessionRecordsFacts] (supersession_records.py and the records
      of supersession.py: the relations stored beside the rows, and the merge of both).
    - Dependencies. [Dependency], [DependencyFacts] (dependency_invalidation.py).
    - The gate. [TrustPolicy] (trust_policy.py); [Calibration] (calibration.py, guards.py);
      [TrustVerdicts], [TrustGate] (trust_verdicts.py, trust_gate.py); [Scope] (scope.py);
      [SecurityPolicy] (security_policy.py); [UnknownTerms] (unknown_terms.py); [TrustedSearch]
      (trust.py: the flow of one search, over the parts above).
    - Retrieval. [Retriever], [RetrieverFacts] (retriever.py, scope_prior.py and the rerankers of
      rerank.py: the legs of a query, their fusion, the expansions, [search] and [search_fused]).
    - Federation. [Federation] (federation.py: the configuration of the corpora, the merge of
      their certified answers, [federated_search]); [FederationPool] (the pool of worker threads
      as a step relation, its schedule, the text of a configuration); [FederationFacts] (what a
      federated answer serves).
    - The provenance kernel. [Intervals], [FactEvents] (fact_events.py); [SegmentTree],
      [SuccessorIndex], [FactProjection], [FactProjectionFacts] (fact_projection.py: which
      recorded facts are in force when); [Outbox], [OutboxFacts] (fact_ledger.py: delivery);
      [FactLedger], [FactLedgerFacts], [LedgerConsistency] (fact_ledger.py and
      provenance_controller.py: the ledger and its permits); [ProvenanceController],
      [ControllerFacts], [ControllerDelivery], [FactListing] (provenance_controller.py: judging
      one fact and delivering it, and the listing of current facts).
    - Current state. [CurrentState], [CurrentStateFacts] (current_state.py: the state of every
      source at an instant, which are current, and why the others are not).
    - Generations. [Lineage], [LineageFacts] (lineage.py: the value objects of a build, their
      JSON and digests); [Manifest] (manifest.py: reading the objects a manifest names, confined
      to its root); [Generations], [GenerationsFacts] (generations.py and generation_types.py: a
      generation from its opening to its promotion, rollback, collection and erasure).
    - Chunks. [Anchors], [AnchorsFacts] (anchors.py: the symbols of a Python file and their
      hashes); [Chunker], [ChunkerFacts] (index.py: a text into chunks within a cap);
      [CodePiecesFacts] (index.py: a source file into anchored pieces); [Context],
      [ContextFacts] (context.py: where chunks lie, and the text embedded for each).
    - Derived blocks. [DerivedBlock], [DerivedBlockFacts] (derived_block.py: the block a machine
      writes at the end of a memo).
    - Proofs of answers. [ProofObligations], [ProofObligationsFacts] (proof_obligations.py: the
      assessment of a provider, judged against a bundle of evidence).

    ** How they interact

    A search ([TrustedSearch]) asks the gate whether the calibration in force answers for the
    corpus, asks the security policy for the scope, retrieves, and evaluates each hit with the
    graph of [Resolver] and the windows of [Frontmatter]. The controller
    ([ProvenanceController]) reads cards made of such answers, projects the ledger
    ([FactProjection]), refuses a claim that contradicts a fact in force unless a card supersedes
    it, appends ([FactLedger]) and delivers ([Outbox]). Components meet through classes: the
    [UriReader] of [SourceIdentity], the outbox of [Outbox] and its [DeliveryLaws], the
    [FactLedger] class of [ProvenanceController]; the in-memory implementations are instances.
    A federated search runs one search per corpus, each with its own deadline and gate, and merges
    only what those gates served. The projection of [CurrentState] joins the graph of [Resolver],
    the closure of [Dependency] and the windows of [Frontmatter] for every source at once; the
    gate asks of one chunk what the projection asks of all the chunks of a source.
    The lifecycle ([Generations]) runs over one database made of the rows of [Tables]: a
    generation is created on a pipeline and a manifest of [Lineage], and a promotion or an erasure
    writes the records that [SupersessionRecords] plans. The objects of a manifest are read
    through the class [ObjectReader], whose laws the readers of [Manifest] discharge. The chunks of a Python file ([Chunker]) carry the keys that
    [Anchors] looks a symbol up by, and the chunks of a text are mapped back to it ([Context]). A
    machine's block ([DerivedBlock]) is cut off before a body is chunked, and carries a digest of
    [Lineage].

    ** What the theorems show

    - Safety of the gate: a search that is refused has retrieved nothing (in [enforce] mode the
      gate itself has read the dependency projection, once), an answer was gated, a hit marked
      servable passed every check, names are withheld, what a scope admits is what the rules open.
    - Retrieval: what a search returns was retrieved by a leg, carries a cosine of the query and
      heads the fused order; the expansions only add, within their bounds.
    - Federation: every served hit was certified by the gate of its corpus, the merge is the
      ordered union of the answers and loses none, an error is raised exactly when no corpus
      answered, and the pool never runs more legs than it has workers nor loses one.
    - Current state: the state the projection gives each source is the one the graph, the windows
      and the dependency closure define; a current source rests on nothing withdrawn; where the
      projection is stricter than the gate, and that elsewhere both name the same successor.
    - Supersession: the successor named is a valid member of the chain; the one pass builds
      exactly the graph its rows declare; references never choose between two candidates.
    - Dependencies: a source is invalidated exactly when a chain of its dependencies reaches a
      cause; memoisation does not change the answer.
    - Projection: the segment trees compute what scanning all successors would; a fact is hidden
      exactly where a counted successor's window covers the instant.
    - Ledger and controller: the invariant of the ledger is kept by every operation, a permit is
      spent once, an identical request is answered once, an applied claim leaves nothing in
      contradiction with it; the controller appends only what its cards support; an allowed
      answer was delivered.
    - Generations: the invariant of the lifecycle is kept by every operation that returns; at
      most one generation is active; a promotion replaces exactly the active one and a rollback
      undoes it; a collection removes exactly what nothing keeps; what an erasure does to
      every table is given exactly, and which claims of a forgotten memo still stand. A build's objects are read back from their JSON, and their digests do not
      depend on the order of keys. Stored relations decide as the rows do where they agree.
      A manifest is read only inside its root.
    - Chunks: no chunk exceeds the cap or is blank, no visible character is lost, an overlap
      cannot stop a split from advancing; a symbol names one definition, the innermost owns a
      line, and a Python file's pieces hold each line once, under the key of its symbol; a chunk is
      found where its words stand, under the headings open there, always so when no paragraph was
      split by force; what is embedded holds the whole chunk, within the budget of tokens.
    - Derived blocks: what is printed is read back, verifies and prints alike; the human part of a
      body is the same whether or not a block was written after it.
    - Proofs: a run says sufficient only when every required slot is quoted word for word from a
      trusted bundle, asks twice at most, and repairs only what was missing.
    - Frontmatter: a date that is set is read back, the rest of the memo with it, a repeated key
      included where no item follows the declarations that go; elsewhere the key above adopts the
      item. A withdrawal that leaves a comment at the head of a block loses the block.

    ** Bounds and fuel

    Recursion is structural wherever the code iterates over a list. [Supersession] walks a chain
    with two more than the number of claimed documents as fuel, and the exactness theorems hold of
    that fuel: a longer walk has met a document twice. [Dependency]
    looks for cycles with one more than the number of nodes, the stack holding none twice, and
    invalidates within the depth limit of the code. [SegmentTree] climbs with the number of the node as fuel, which each step
    halves, and descends with the size of the tree. [unwrap] takes
    the length of the text, each round removing two characters. The schedule of [FederationPool]
    takes one round for each leg, and each round finishes one. A forced split takes the length of
    its block as fuel, and every piece advances by a character at least. Python integers are [Z]; floats
    are binary64; instants are microseconds from the year 1.

    ** What is assumed and what is not modelled

    Texts hold code points up to U+00FF; in that range NFC is the identity. [sha256],
    [json.dumps], [json.loads] and [isoformat] are arguments; the theorems that need it assume
    that the digest does not collide on the values at hand or that the text of a mapping is made
    of the texts of its values. What the database, the embedder and the cross-encoder return are
    arguments, and so are the retriever and its expansions in [TrustedSearch]. Numbers in JSON are finite. Logs, metrics and the wording of messages
    are left out, as are the recursion limit, threads and the erasure lock. Events carry no
    policy or controller version and no redaction. In the control plane the clock, the identifiers
    drawn, the database's collation (that of C), the calibration resolved for a generation, its
    semantic graph and the dependency markers are arguments, and so are the decoding of a URL and
    the resolution of a path; transactions are serial. In the chunker the interpreter's parser is
    an argument, whose theorems assume that it places definitions in order and inside one another,
    as a parser does; no text holds a byte order mark. The tokenizer of a passage, and the provider
    and the retriever of a proof, which may answer differently each time, are arguments.

    Not modelled: in generations.py the work inside a build (chunking and embedding the objects,
    the semantic graph and its rebuilding), stated facts and the retractions that follow a
    collection; in index.py the walk over files, pruning and fingerprints; the SQL ledgers and
    stores, the federation endpoint of the MCP server, extraction, reasoning, the command line,
    the dashboard, the desktop application and the services around the library. They are queries
    of a database, calls of a model or of an operating system, or wrappers of the parts above. *)
From stdpp Require Export base gmap strings list sorting fin_maps relations.
From Stdlib Require Export ZArith.
From Stdlib Require OrderedTypeEx.

#[global] Set Default Goal Selector "!".

(** ** Automation

    A closed decidable fact, by evaluation. *)
Ltac by_decide := apply (bool_decide_unpack _); vm_compute; exact I.

(** Boolean hypotheses as propositions. *)
Ltac split_bool :=
  repeat match goal with
  | H : _ && _ = true |- _ => apply andb_true_iff in H as [? ?]
  | H : _ || _ = false |- _ => apply orb_false_iff in H as [? ?]
  | H : negb _ = true |- _ => apply negb_true_iff in H
  | H : negb _ = false |- _ => apply negb_false_iff in H
  | H : bool_decide _ = true |- _ => apply bool_decide_eq_true in H
  | H : bool_decide _ = false |- _ => apply bool_decide_eq_false in H
  end.

(** Facts about the lists and dictionaries the model shares; the lemmas below join it. *)
Create HintDb recall.

(** ** Relations *)

Lemma tc_last {A} (R : A -> A -> Prop) x y : tc R x y -> exists z, R z y.
Proof. induction 1; eauto. Qed.

(** ** Exceptions and the error monad *)

(** The exceptions the modelled code raises; a message is kept only where a
    caller reads it. *)
Inductive exn : Type :=
| ValueError (msg : string)
| TypeError (msg : string)
| KeyError (key : string)
| LookupError (msg : string)
| PermissionError (msg : string)
| IndexError
| RuntimeError (msg : string).

#[global] Instance exn_eq_dec : EqDecision exn.
Proof. solve_decision. Defined.

(** A call either returns or raises. *)
Inductive result (A : Type) : Type :=
| Ok (a : A)
| Raise (e : exn).
Arguments Ok {A} a.
Arguments Raise {A} e.

#[global] Instance result_eq_dec `{EqDecision A} : EqDecision (result A).
Proof. solve_decision. Defined.

#[global] Instance result_ret : MRet result := fun A a => Ok a.
#[global] Instance result_bind : MBind result := fun A B f m =>
  match m with Ok a => f a | Raise e => Raise e end.
#[global] Instance result_fmap : FMap result := fun A B f m =>
  match m with Ok a => Ok (f a) | Raise e => Raise e end.

Definition is_ok {A} (r : result A) : bool :=
  match r with Ok _ => true | Raise _ => false end.

Lemma bind_ok {A B} (f : A -> result B) (m : result A) (b : B) :
  (m ≫= f) = Ok b <-> exists a, m = Ok a /\ f a = Ok b.
Proof.
  destruct m as [a|e]; simpl; split.
  - eauto.
  - intros (a' & [= ->] & ?); done.
  - discriminate.
  - intros (a' & ? & _); discriminate.
Qed.

(** Map a raising function over a list, left to right, stopping at the first
    exception (a Python [for] loop whose body may raise). *)
Fixpoint result_mapM {A B} (f : A -> result B) (l : list A) : result (list B) :=
  match l with
  | [] => Ok []
  | x :: l' => y ← f x; ys ← result_mapM f l'; Ok (y :: ys)
  end.

Lemma result_mapM_ok {A B} (f : A -> result B) (l : list A) (k : list B) :
  result_mapM f l = Ok k <-> Forall2 (fun x y => f x = Ok y) l k.
Proof.
  revert k; induction l as [|x l IH]; intros k; simpl.
  - split; [intros [= <-]; constructor|]. intros H; inversion H; done.
  - rewrite bind_ok. setoid_rewrite bind_ok. split.
    + intros (y & Hy & ys & Hys & [= <-]). constructor; [done|]. by apply IH.
    + intros H; inversion H as [|? y ? ys Hy Hys]; subst.
      exists y; split; [done|]. exists ys; split; [by apply IH|done].
Qed.

(** A loop that threads a state and may raise: [for x in l: b = f(b, x)]. *)
Fixpoint result_foldl {A B} (f : B -> A -> result B) (b : B) (l : list A) : result B :=
  match l with
  | [] => Ok b
  | x :: l' => b' ← f b x; result_foldl f b' l'
  end.

Lemma result_foldl_snoc {A B} (f : B -> A -> result B) b l x :
  result_foldl f b (l ++ [x]) = (b' ← result_foldl f b l; f b' x).
Proof.
  revert b. induction l as [|y l IH]; intros b; cbn.
  - by destruct (f b x).
  - destruct (f b y) as [b1|e]; cbn; [apply IH|done].
Qed.

(** A loop invariant indexed by the elements already read. *)
Lemma result_foldl_inv {A B} (f : B -> A -> result B) (P : list A -> B -> Prop) b l r :
  P [] b ->
  (forall pre x b b', P pre b -> x ∈ l -> f b x = Ok b' -> P (pre ++ [x]) b') ->
  result_foldl f b l = Ok r -> P l r.
Proof.
  intros H0 Hstep.
  assert (Hgen : forall rest pre b, (forall x, x ∈ rest -> x ∈ l) -> P pre b ->
            result_foldl f b rest = Ok r -> P (pre ++ rest) r).
  { induction rest as [|x rest IH]; intros pre b0 Hin HP; simpl.
    - intros [= ->]. by rewrite app_nil_r.
    - rewrite bind_ok. intros (b1 & Hb1 & Hr). rewrite cons_middle, (assoc_L (++)).
      eapply IH; [|by eapply Hstep; [|apply Hin; left|]|exact Hr].
      intros y Hy. apply Hin. by right. }
  by apply (Hgen l [] b).
Qed.

(** A loop whose body never raises from a state satisfying [P] does not raise. *)
Lemma result_foldl_total {A B} (f : B -> A -> result B) (P : B -> Prop) b l :
  P b -> (forall x b, P b -> x ∈ l -> exists b', f b x = Ok b' /\ P b') ->
  exists r, result_foldl f b l = Ok r /\ P r.
Proof.
  revert b; induction l as [|x l IH]; intros b HP Hstep; simpl; [by exists b|].
  destruct (Hstep x b HP) as (b' & -> & HP'); [by left|]. simpl. apply IH; [done|].
  intros y b0 HP0 Hy. apply Hstep; [done|]. by right.
Qed.

(** The same, for a loop that threads an option through [foldl]. *)
Lemma foldl_option_none {A B} (f : B -> A -> option B) l :
  foldl (fun acc x => b ← acc; f b x) None l = None.
Proof. by induction l. Qed.

Lemma foldl_option_inv {A B} (f : B -> A -> option B) (P : list A -> B -> Prop) b l r :
  P [] b ->
  (forall pre x b b', P pre b -> x ∈ l -> f b x = Some b' -> P (pre ++ [x]) b') ->
  foldl (fun acc x => b ← acc; f b x) (Some b) l = Some r -> P l r.
Proof.
  intros H0 Hstep.
  assert (Hgen : forall rest pre b, (forall x, x ∈ rest -> x ∈ l) -> P pre b ->
            foldl (fun acc x => b ← acc; f b x) (Some b) rest = Some r -> P (pre ++ rest) r).
  { induction rest as [|x rest IH]; intros pre b0 Hin HP; simpl.
    - intros [= ->]. by rewrite app_nil_r.
    - destruct (f b0 x) as [b1|] eqn:Hb1; [|by rewrite foldl_option_none].
      intros Hr. rewrite cons_middle, (assoc_L (++)).
      eapply IH; [|by eapply Hstep; [|apply Hin; left|]|exact Hr].
      intros y Hy. apply Hin. by right. }
  by apply (Hgen l [] b).
Qed.

Lemma foldl_option_total {A B} (f : B -> A -> option B) b l :
  (forall x b, x ∈ l -> is_Some (f b x)) -> is_Some (foldl (fun acc x => b ← acc; f b x) (Some b) l).
Proof.
  revert b; induction l as [|x l IH]; intros b Hf; simpl; [by eexists|].
  destruct (Hf x b) as [b' ->]; [by left|]. apply IH. intros y b0 Hy. apply Hf. by right.
Qed.

(** ** Instants

    A Python [datetime] is naive or aware.  Instants count microseconds from
    0001-01-01T00:00 UTC; an aware value is kept as its UTC instant (the only
    part of it a comparison reads), a naive one as its wall clock. *)
Inductive datetime : Type :=
| Naive (us : Z)
| Aware (us : Z).

#[global] Instance datetime_eq_dec : EqDecision datetime.
Proof. solve_decision. Defined.

(** The instant a datetime stands for once it has been read as UTC. *)
Definition instant (d : datetime) : Z :=
  match d with Naive us | Aware us => us end.

Definition is_naive (d : datetime) : bool :=
  match d with Naive _ => true | Aware _ => false end.

(** [a < b]: Python raises between a naive and an aware value. *)
Definition datetime_lt (a b : datetime) : result bool :=
  match a, b with
  | Naive x, Naive y | Aware x, Aware y => Ok (bool_decide (x < y)%Z)
  | _, _ => Raise (TypeError "can't compare offset-naive and offset-aware datetimes")
  end.

(** [datetime.min] and [datetime.max], as UTC. *)
Definition day_us : Z := 86400000000.
Definition EARLIEST : Z := 0.
Definition LATEST : Z := 3652059 * day_us - 1.

(** ** Insertion-ordered dictionaries

    A Python [dict] iterates in insertion order; where the code depends on
    that order the model keeps it. *)
Section odict.
Context {K V : Type} `{EqDecision K}.

Fixpoint odict_get (k : K) (d : list (K * V)) : option V :=
  match d with
  | [] => None
  | (k', v) :: d' => if decide (k = k') then Some v else odict_get k d'
  end.

(** [d[k] = v]: an existing key keeps its place. *)
Fixpoint odict_set (k : K) (v : V) (d : list (K * V)) : list (K * V) :=
  match d with
  | [] => [(k, v)]
  | (k', v') :: d' =>
      if decide (k = k') then (k, v) :: d' else (k', v') :: odict_set k v d'
  end.

Fixpoint odict_del (k : K) (d : list (K * V)) : list (K * V) :=
  match d with
  | [] => []
  | (k', v') :: d' =>
      if decide (k = k') then odict_del k d' else (k', v') :: odict_del k d'
  end.

Lemma odict_get_set k k' v d :
  odict_get k (odict_set k' v d) = if decide (k = k') then Some v else odict_get k d.
Proof.
  induction d as [|[k1 v1] d IH]; simpl; repeat case_decide; simpl;
    repeat case_decide; subst; congruence.
Qed.

Lemma odict_get_set_eq k v d : odict_get k (odict_set k v d) = Some v.
Proof. rewrite odict_get_set. by case_decide. Qed.

Lemma odict_get_set_ne k k' v d :
  k <> k' -> odict_get k (odict_set k' v d) = odict_get k d.
Proof. intros. rewrite odict_get_set. by case_decide. Qed.

Lemma odict_get_del k k' d :
  odict_get k (odict_del k' d) = if decide (k = k') then None else odict_get k d.
Proof.
  induction d as [|[k1 v1] d IH]; simpl; repeat case_decide; simpl;
    repeat case_decide; subst; congruence.
Qed.

Lemma odict_get_in k v d : odict_get k d = Some v -> (k, v) ∈ d.
Proof.
  induction d as [|[k1 v1] d IH]; simpl; [done|]. case_decide; subst.
  - intros [= ->]. by left.
  - intros. right. auto.
Qed.

Lemma odict_set_fst k v d :
  forall k', k' ∈ (odict_set k v d).*1 <-> k' = k \/ k' ∈ d.*1.
Proof.
  induction d as [|[k1 v1] d IH]; intros k'; simpl.
  - by rewrite elem_of_cons.
  - case_decide; subst; simpl; rewrite !elem_of_cons; [tauto|]. rewrite IH. tauto.
Qed.

Lemma odict_set_nodup k v d : NoDup d.*1 -> NoDup (odict_set k v d).*1.
Proof.
  induction d as [|[k1 v1] d IH]; simpl; intros Hnd.
  - constructor; [apply not_elem_of_nil|constructor].
  - inversion_clear Hnd. case_decide; subst; simpl; constructor; auto.
    rewrite odict_set_fst. naive_solver.
Qed.
Lemma odict_get_some k v d : NoDup d.*1 -> odict_get k d = Some v <-> (k, v) ∈ d.
Proof.
  split; [apply odict_get_in|].
  induction d as [|[k1 v1] d IH]; simpl in *; [by intros ?%not_elem_of_nil|].
  inversion_clear H as [|? ? Hk Hnd]. intros [[= -> ->]|Hin]%elem_of_cons.
  - by rewrite decide_True.
  - case_decide as Hkk; [|auto]. subst. destruct Hk. apply list_elem_of_fmap. by exists (k1, v).
Qed.


Lemma odict_set_elem k v d k' v' : (k', v') ∈ odict_set k v d -> (k', v') = (k, v) \/ (k', v') ∈ d.
Proof.
  induction d as [|[k1 v1] d IH]; simpl; [intros ?%list_elem_of_singleton; auto|].
  case_decide; rewrite !elem_of_cons; naive_solver.
Qed.

Lemma odict_get_keys k d : is_Some (odict_get k d) <-> k ∈ d.*1.
Proof.
  induction d as [|[k' v] d IH]; simpl.
  - rewrite elem_of_nil. split; [by intros []|done].
  - rewrite elem_of_cons. case_decide; [split; [by left|by eexists]|]. rewrite IH. tauto.
Qed.

Lemma odict_set_new k v d : odict_get k d = None -> odict_set k v d = d ++ [(k, v)].
Proof.
  induction d as [|[k' v'] d IH]; simpl; [done|]. case_decide; [done|]. intros ?. by rewrite IH.
Qed.

Lemma odict_set_same k v d : odict_get k d = Some v -> odict_set k v d = d.
Proof.
  induction d as [|[k' v'] d IH]; simpl; [done|]. case_decide; [by intros [= ->]; subst|]. intros ?. by rewrite IH.
Qed.
End odict.

(** [d.setdefault(k, []).append(v)]. *)
Definition odict_push {V} (k : string) (v : V) (d : list (string * list V)) :
    list (string * list V) :=
  odict_set k (default [] (odict_get k d) ++ [v]) d.

Section odict_push.
Context {V : Type}.

Lemma odict_push_nodup k (v : V) d : NoDup d.*1 -> NoDup (odict_push k v d).*1.
Proof. apply odict_set_nodup. Qed.

Lemma elem_of_odict_push k (v : V) d k' v' :
  v' ∈ default [] (odict_get k' (odict_push k v d)) <->
  v' ∈ default [] (odict_get k' d) \/ (k' = k /\ v' = v).
Proof.
  unfold odict_push. rewrite odict_get_set. case_decide; subst; simpl.
  - rewrite elem_of_app, list_elem_of_singleton. tauto.
  - tauto.
Qed.
End odict_push.

Lemma odict_get_map {V} (f : string -> V) (l : list string) k :
  odict_get k (map (fun n => (n, f n)) l) = if decide (k ∈ l) then Some (f k) else None.
Proof.
  induction l as [|x l IH]; cbn [map odict_get].
  { case_decide as Hk; [by apply not_elem_of_nil in Hk|done]. }
  destruct (decide (k = x)) as [->|Hx]; [by rewrite decide_True by by left|].
  rewrite IH. apply decide_ext. rewrite elem_of_cons. tauto.
Qed.

(** ** Sorting and deduplication as the code uses them *)

(** Python compares [str] values by code point, lexicographically. *)
Definition string_le (a b : string) : Prop := String.leb a b = true.

#[global] Instance string_le_dec : RelDecision string_le.
Proof. intros a b. unfold string_le. apply _. Defined.

#[global] Instance string_le_total : Total string_le.
Proof. intros a b. unfold string_le. apply String.leb_total. Qed.

(** [a < b] on strings: a strict total order. *)
Definition string_ltb (a b : string) : bool := negb (String.leb b a).

Lemma string_ltb_lt a b : string_ltb a b = true <-> OrderedTypeEx.String_as_OT.lt a b.
Proof.
  rewrite <-OrderedTypeEx.String_as_OT.cmp_lt. unfold string_ltb, String.leb, OrderedTypeEx.String_as_OT.cmp.
  rewrite (String.compare_antisym b a). by destruct (String.compare a b).
Qed.

Lemma string_ltb_trans a b c : string_ltb a b = true -> string_ltb b c = true -> string_ltb a c = true.
Proof. rewrite !string_ltb_lt. apply OrderedTypeEx.String_as_OT.lt_trans. Qed.

Lemma string_ltb_total a b : a <> b -> string_ltb a b = false -> string_ltb b a = true.
Proof.
  unfold string_ltb. intros Hne Hab%negb_false_iff. destruct (String.leb a b) eqn:Hba; [|done].
  by destruct Hne; apply String.leb_antisym.
Qed.

Lemma string_ltb_irrefl a : string_ltb a a = false.
Proof. unfold string_ltb. by destruct (String.leb_total a a) as [-> | ->]. Qed.

(** [sorted(xs)] for strings, and [sorted(set(xs))]. *)
Definition sorted_strings (l : list string) : list string := merge_sort string_le l.
Definition sorted_set (l : list string) : list string := sorted_strings (remove_dups l).

Lemma sorted_strings_perm l : sorted_strings l ≡ₚ l.
Proof. apply merge_sort_Permutation. Qed.

Lemma elem_of_sorted_strings x l : x ∈ sorted_strings l <-> x ∈ l.
Proof. by rewrite sorted_strings_perm. Qed.

Lemma elem_of_sorted_set x l : x ∈ sorted_set l <-> x ∈ l.
Proof. unfold sorted_set. by rewrite elem_of_sorted_strings, elem_of_remove_dups. Qed.

Lemma NoDup_sorted_set l : NoDup (sorted_set l).
Proof. unfold sorted_set. rewrite sorted_strings_perm. apply NoDup_remove_dups. Qed.

Section filters.
Context {A : Type} (P : A -> Prop) `{!forall x, Decision (P x)}.

Lemma list_filter_all l : Forall P l -> filter P l = l.
Proof. induction 1 as [|x l Hx _ IH]; [done|]. by rewrite filter_cons, decide_True, IH. Qed.

Lemma list_filter_none l : Forall (fun x => ~ P x) l -> filter P l = [].
Proof. induction 1 as [|x l Hx _ IH]; [done|]. by rewrite filter_cons, decide_False. Qed.
End filters.

(** A dictionary filled in order keeps the last value of each key. *)
Section last_by.
Context {K V : Type} `{EqDecision K} (key_of : V -> K).

Definition last_by (l : list V) : list (K * V) := foldl (fun d v => odict_set (key_of v) v d) [] l.

Lemma last_by_snoc l v : last_by (l ++ [v]) = odict_set (key_of v) v (last_by l).
Proof. unfold last_by. by rewrite foldl_app. Qed.

Lemma last_by_get l k : odict_get k (last_by l) = last (filter (fun v => key_of v = k) l).
Proof.
  induction l as [|v l IH] using rev_ind; [done|].
  rewrite last_by_snoc, odict_get_set, filter_app, filter_cons, filter_nil.
  destruct (decide (k = key_of v)) as [->|Hk].
  - rewrite decide_True by done. by rewrite last_snoc.
  - rewrite decide_False by done. by rewrite app_nil_r.
Qed.

Lemma last_by_elem l k v : (k, v) ∈ last_by l -> v ∈ l /\ key_of v = k.
Proof.
  induction l as [|x l IH] using rev_ind; [by intros ?%not_elem_of_nil|].
  rewrite last_by_snoc, elem_of_app. intros [[= -> ->]|?]%odict_set_elem; [|naive_solver].
  split; [|done]. right. by left.
Qed.

Lemma last_by_nodup l : NoDup (last_by l).*1.
Proof. induction l as [|x l IH] using rev_ind; [constructor|]. rewrite last_by_snoc. by apply odict_set_nodup. Qed.

Lemma last_by_keys l : key_of <$> (last_by l).*2 = (last_by l).*1.
Proof.
  rewrite <-list_fmap_compose. apply list_fmap_ext. intros i [k v] Hi. cbn. symmetry.
  by apply list_elem_of_lookup_2, last_by_elem in Hi as [_ <-].
Qed.

Lemma last_by_complete l v : v ∈ l -> key_of v ∈ (last_by l).*1.
Proof.
  intros Hv. apply odict_get_keys. rewrite last_by_get. destruct (last _) eqn:Hl; [by eexists|].
  apply last_None in Hl. exfalso. apply (not_elem_of_nil v). rewrite <-Hl. by apply list_elem_of_filter.
Qed.

(** Over distinct keys, a lookup gives the element itself. *)
Lemma last_by_distinct l v : NoDup (key_of <$> l) -> v ∈ l -> odict_get (key_of v) (last_by l) = Some v.
Proof.
  intros Hnd Hv. apply list_elem_of_split in Hv as (l1 & l2 & ->). rewrite last_by_get, filter_app, filter_cons, decide_True by done.
  assert (H2 : filter (fun x => key_of x = key_of v) l2 = []).
  { apply list_filter_none, Forall_forall. intros x Hx Heq. rewrite fmap_app, fmap_cons in Hnd. apply NoDup_app in Hnd as (_ & _ & Hnd).
    inversion_clear Hnd as [|? ? Hnot]. apply Hnot. rewrite <-Heq. by apply list_elem_of_fmap_2. }
  rewrite H2. by rewrite last_snoc.
Qed.
End last_by.

(** Python's [sort] is stable: equal keys keep their order. *)
Section stable_sort.
Context {A : Type} (leb : A -> A -> bool).

Fixpoint insert_stable (x : A) (l : list A) : list A :=
  match l with
  | [] => [x]
  | y :: l' => if leb x y then x :: l else y :: insert_stable x l'
  end.

Definition stable_sort (l : list A) : list A := foldr insert_stable [] l.

Lemma insert_stable_perm x l : insert_stable x l ≡ₚ x :: l.
Proof.
  induction l as [|y l IH]; simpl; [done|]. destruct (leb x y); [done|].
  rewrite IH. apply Permutation_swap.
Qed.

Lemma stable_sort_perm l : stable_sort l ≡ₚ l.
Proof. induction l as [|x l IH]; simpl; [done|]. by rewrite insert_stable_perm, IH. Qed.

Definition leb_le (x y : A) : Prop := leb x y = true.

Context (leb_total : forall x y, leb x y = true \/ leb y x = true).

Lemma insert_stable_sorted x l : Sorted leb_le l -> Sorted leb_le (insert_stable x l).
Proof.
  induction 1 as [|y l Hs IH Hhd]; simpl; [by repeat constructor|].
  destruct (leb x y) eqn:Hxy; [by repeat constructor|].
  constructor; [done|]. assert (Hyx : leb_le y x) by (destruct (leb_total x y); [congruence|done]).
  destruct l as [|z l]; simpl; [by constructor|]. inversion_clear Hhd.
  destruct (leb x z); by constructor.
Qed.

Lemma stable_sort_sorted l : Sorted leb_le (stable_sort l).
Proof. induction l as [|x l IH]; simpl; [constructor|]. by apply insert_stable_sorted. Qed.

(** Elements of one key class keep their order. *)
Lemma filter_insert_stable (P : A -> Prop) `{!forall x, Decision (P x)} x l :
  (forall y, P x -> P y -> leb x y = true) ->
  filter P (insert_stable x l) = filter P (x :: l).
Proof.
  intros HP. induction l as [|y l IH]; simpl; [done|]. destruct (leb x y) eqn:Hxy; [done|].
  rewrite filter_cons, IH. rewrite !filter_cons. repeat case_decide; try done.
  rewrite HP in Hxy; done.
Qed.

Lemma stable_sort_stable (P : A -> Prop) `{!forall x, Decision (P x)} l :
  (forall x y, P x -> P y -> leb x y = true) -> filter P (stable_sort l) = filter P l.
Proof.
  intros HP. induction l as [|x l IH]; simpl; [done|].
  rewrite filter_insert_stable by auto. by rewrite !filter_cons, IH.
Qed.
End stable_sort.

(** A sorted list is left as it is. *)
Lemma insert_first {A} (leb : A -> A -> bool) x l : Forall (fun y => leb x y = true) l -> insert_stable leb x l = x :: l.
Proof. destruct 1 as [|y l Hy]; cbn; [done|]. by rewrite Hy. Qed.

Lemma sort_sorted {A} (leb : A -> A -> bool) l : StronglySorted (fun a b => leb a b = true) l -> stable_sort leb l = l.
Proof.
  induction 1 as [|x l _ IH Hx]; [done|]. change (insert_stable leb x (stable_sort leb l) = x :: l).
  rewrite IH. by apply insert_first.
Qed.

(** A stable sort keeps what is selected in the order it is sorted to alone. *)
Lemma select_sorted {A} (leb : A -> A -> bool) (P : A -> Prop) `{!forall x, Decision (P x)} l :
  (forall a b, leb a b = true \/ leb b a = true) -> (forall a b c, leb a b = true -> leb b c = true -> leb a c = true) ->
  filter P (stable_sort leb l) = stable_sort leb (filter P l).
Proof.
  intros Htot Htr. induction l as [|x l IH]; [done|]. change (stable_sort leb (x :: l)) with (insert_stable leb x (stable_sort leb l)).
  assert (Hs : StronglySorted (leb_le leb) (stable_sort leb l)) by (apply Sorted_StronglySorted; [exact Htr|by apply stable_sort_sorted]).
  rewrite filter_cons. case_decide as Hx; [change (stable_sort leb (x :: filter P l)) with (insert_stable leb x (stable_sort leb (filter P l)))|];
    rewrite <-IH; clear IH; induction Hs as [|y k Hk IH Hy]; cbn [insert_stable].
  - by rewrite filter_cons, decide_True.
  - destruct (leb x y) eqn:Hxy.
    + rewrite filter_cons, decide_True by done. symmetry. apply insert_first. apply Forall_forall; intros z [_ Hz]%list_elem_of_filter; revert z Hz; apply Forall_forall.
      constructor; [done|]. eapply Forall_impl; [exact Hy|]. intros z Hz. by apply (Htr x y z).
    + rewrite !filter_cons, IH. case_decide; [|done]. cbn [insert_stable]. by rewrite Hxy.
  - by rewrite filter_cons, decide_False.
  - destruct (leb x y); rewrite !filter_cons; [by rewrite decide_False|]. by rewrite IH.
Qed.

(** The orders [sort] compares keys with: [<] of numbers and strings, and tuples of them. *)
Record weak_order {A} (lt : A -> A -> bool) : Prop := {
  wo_asym : forall a b, lt a b = true -> lt b a = false;
  wo_cotrans : forall a b c, lt a c = true -> lt a b = true \/ lt b c = true
}.

Definition comparable_keys {A} (lt : A -> A -> bool) : Prop := forall a b, a <> b -> lt a b = true \/ lt b a = true.

Lemma string_ltb_weak : weak_order string_ltb /\ comparable_keys string_ltb.
Proof.
  assert (Ht : comparable_keys string_ltb).
  { intros a b Hne. destruct (string_ltb a b) eqn:Hab; [by left|right]. by apply string_ltb_total. }
  split; [|done]. split.
  - intros a b Hab. destruct (string_ltb b a) eqn:Hba; [|done].
    rewrite <-(string_ltb_irrefl a). symmetry. by eapply string_ltb_trans.
  - intros a b c Hac. destruct (decide (a = b)) as [->|Hne]; [by right|].
    destruct (Ht a b Hne) as [|Hba]; [by left|]. right. by eapply string_ltb_trans.
Qed.

Lemma Z_ltb_weak : weak_order Z.ltb /\ comparable_keys Z.ltb.
Proof. split; [split|]; unfold comparable_keys; intros *; rewrite ?Z.ltb_lt, ?Z.ltb_ge; lia. Qed.

(** Tuples are compared by their first difference. *)
Lemma lex_weak {A B} `{EqDecision B} (f : A -> B) (lt1 : B -> B -> bool) (lt2 : A -> A -> bool) :
  weak_order lt1 /\ comparable_keys lt1 -> weak_order lt2 ->
  weak_order (fun a b => if decide (f a = f b) then lt2 a b else lt1 (f a) (f b)).
Proof.
  intros [[Ha1 Hc1] Ht1] [Ha2 Hc2]. split.
  - intros a b. repeat case_decide; try congruence; auto.
  - intros a b c. destruct (decide (f a = f c)) as [Hac|Hac].
    + intros Hlt. destruct (decide (f a = f b)) as [Hab|Hab].
      * rewrite decide_True by congruence. by apply Hc2.
      * rewrite decide_False by congruence. rewrite <-Hac. by apply Ht1.
    + intros Hlt. repeat case_decide; try congruence.
      * right. congruence.
      * left. congruence.
      * by apply Hc1.
Qed.

Lemma weak_order_map {A B} (f : A -> B) (lt : B -> B -> bool) : weak_order lt -> weak_order (fun a b => lt (f a) (f b)).
Proof. intros [Ha Hc]. split; [intros a b; apply Ha|intros a b c; apply Hc]. Qed.

(** [sorted] puts no element after one it is below. *)
Lemma stable_sort_weak {A} (lt : A -> A -> bool) l :
  weak_order lt -> StronglySorted (fun a b => lt b a = false) (stable_sort (fun a b => negb (lt b a)) l).
Proof.
  intros [Ha Hc].
  assert (Hs : StronglySorted (leb_le (fun a b => negb (lt b a))) (stable_sort (fun a b => negb (lt b a)) l)).
  { apply Sorted_StronglySorted.
    - intros a b c Hab%negb_true_iff Hbc%negb_true_iff. apply negb_true_iff. destruct (lt c a) eqn:Hca; [|done].
      destruct (Hc c b a Hca); congruence.
    - apply stable_sort_sorted. intros a b. destruct (lt b a) eqn:Hba; [right|by left]. by rewrite (Ha b a). }
  induction Hs as [|x k Hk IH Hx]; constructor; [done|]. eapply Forall_impl; [exact Hx|].
  intros y Hy. by apply negb_true_iff.
Qed.

(** First-occurrence deduplication: [list(dict.fromkeys(l))], and a loop that
    appends what it has not seen. *)
Definition dedup {A} `{EqDecision A} (l : list A) : list A :=
  foldl (fun acc x => if decide (x ∈ acc) then acc else acc ++ [x]) [] l.

Section dedup.
Context {A : Type} `{EqDecision A}.

Lemma dedup_from_spec (l acc : list A) :
  NoDup acc ->
  let r := foldl (fun acc x => if decide (x ∈ acc) then acc else acc ++ [x]) acc l in
  NoDup r /\ (forall x, x ∈ r <-> x ∈ acc \/ x ∈ l).
Proof.
  revert acc; induction l as [|y l IH]; intros acc Hnd; simpl.
  - split; [done|]. intros x. rewrite elem_of_nil. tauto.
  - case_decide as Hy.
    + destruct (IH acc Hnd) as [? Hin]. split; [done|]. intros x.
      rewrite Hin, elem_of_cons. split; [tauto|]. intros [?|[->|?]]; auto.
    + destruct (IH (acc ++ [y])) as [? Hin].
      { apply NoDup_app. split; [done|]. split; [|apply NoDup_singleton].
        intros x Hx ->%list_elem_of_singleton. done. }
      split; [done|]. intros x.
      rewrite Hin, elem_of_cons, elem_of_app, list_elem_of_singleton. tauto.
Qed.

Lemma elem_of_dedup (x : A) l : x ∈ dedup l <-> x ∈ l.
Proof.
  unfold dedup. destruct (dedup_from_spec l []) as [_ ->]; [constructor|].
  rewrite elem_of_nil. tauto.
Qed.

Lemma NoDup_dedup (l : list A) : NoDup (dedup l).
Proof. unfold dedup. apply dedup_from_spec. constructor. Qed.
End dedup.

(** Grouping by a key in order: [d.setdefault(key(x), []).append(val(x))]. *)
Definition group_by {A B} (key : A -> string) (val : A -> B) (l : list A) : gmap string (list B) :=
  foldl (fun m x => <[ key x := default [] (m !! key x) ++ [val x] ]> m) ∅ l.

Lemma group_by_lookup {A B} (key : A -> string) (val : A -> B) (l : list A) (k : string) :
  default [] (group_by key val l !! k) = val <$> filter (fun x => key x = k) l.
Proof.
  unfold group_by.
  assert (Hgen : forall m : gmap string (list B), default [] (foldl (fun m x =>
            <[ key x := default [] (m !! key x) ++ [val x] ]> m) m l !! k) =
            default [] (m !! k) ++ (val <$> filter (fun x => key x = k) l)).
  { induction l as [|x l IH]; intros m; simpl; [by rewrite app_nil_r|].
    rewrite IH, lookup_insert, filter_cons. repeat case_decide; simplify_eq; simpl.
    - by rewrite <-(assoc_L (++)).
    - done. }
  by rewrite Hgen, lookup_empty.
Qed.

(** ** The shared hints and notations *)

#[export] Hint Resolve NoDup_dedup NoDup_sorted_set odict_set_nodup odict_push_nodup : recall.
#[export] Hint Rewrite @elem_of_dedup @elem_of_sorted_set @elem_of_sorted_strings @elem_of_odict_push
  @odict_get_set_eq @list_elem_of_singleton @elem_of_app @elem_of_cons @elem_of_nil : recall.

(** Membership in what the code builds, spelled out. *)
Ltac membership := autorewrite with recall in *.

Declare Scope recall_scope.
Delimit Scope recall_scope with recall.
Notation "d .[ k ]" := (odict_get k d) (at level 2, left associativity, format "d .[ k ]") : recall_scope.
Notation "d .[ k := v ]" := (odict_set k v d) (at level 2, left associativity, format "d .[ k  :=  v ]") : recall_scope.
