(* ===== verification/Text.v ===== *)
(** * Text: the Python [str] operations the code uses

    A [string] is read as a sequence of code points below 256.  On that range
    every string is already in NFC, [str.lower] and [str.casefold] are the maps
    written here (only U+00DF folds to two characters; U+00B5, whose fold lies
    outside the range and which nothing else in it folds to, is kept), and
    [str.strip] removes exactly the characters of [is_space].  Paths are POSIX
    paths. *)
From S2P Require Import Prelude.
From Stdlib Require Export Ascii.

Local Open Scope nat_scope.

Definition chars (s : string) : list ascii := String.list_ascii_of_string s.
Definition unchars (l : list ascii) : string := String.string_of_list_ascii l.

Lemma unchars_chars s : unchars (chars s) = s.
Proof. apply String.string_of_list_ascii_of_string. Qed.

Lemma chars_unchars l : chars (unchars l) = l.
Proof. apply String.list_ascii_of_string_of_list_ascii. Qed.

Definition code (c : ascii) : nat := Ascii.nat_of_ascii c.

(** [str.isspace] on one character. *)
Definition is_space (c : ascii) : bool :=
  let n := code c in
  ((9 <=? n) && (n <=? 13)) || ((28 <=? n) && (n <=? 32)) || (n =? 133) || (n =? 160).

Fixpoint drop_while (f : ascii -> bool) (l : list ascii) : list ascii :=
  match l with
  | [] => []
  | c :: l' => if f c then drop_while f l' else l
  end.

Definition strip_chars (l : list ascii) : list ascii :=
  reverse (drop_while is_space (reverse (drop_while is_space l))).

(** [s.strip()]. *)
Definition strip (s : string) : string := unchars (strip_chars (chars s)).

(** [str.lower] on one character: A to Z, and U+00C0 to U+00DE but U+00D7. *)
Definition lower_char (c : ascii) : ascii :=
  let n := code c in
  if ((65 <=? n) && (n <=? 90)) || ((192 <=? n) && (n <=? 222) && negb (n =? 215))
  then Ascii.ascii_of_nat (n + 32) else c.

Definition lower (s : string) : string := unchars (map lower_char (chars s)).

Definition casefold_char (c : ascii) : list ascii :=
  if code c =? 223 then ["s"; "s"]%char else [lower_char c].

(** [s.casefold()]. *)
Definition casefold (s : string) : string := unchars (chars s ≫= casefold_char).

(** [unicodedata.normalize("NFC", s)]. *)
Definition nfc (s : string) : string := s.

Fixpoint list_prefix (p l : list ascii) : bool :=
  match p, l with
  | [], _ => true
  | _, [] => false
  | x :: p', y :: l' => bool_decide (x = y) && list_prefix p' l'
  end.

Definition starts_with (s p : string) : bool := list_prefix (chars p) (chars s).
Definition ends_with (s p : string) : bool :=
  list_prefix (reverse (chars p)) (reverse (chars s)).

(** [s[n:]] and [s[:-n]]. *)
Definition drop_first (n : nat) (s : string) : string := unchars (drop n (chars s)).
Definition drop_last (n : nat) (s : string) : string :=
  unchars (take (length (chars s) - n) (chars s)).

(** [s.replace(a, b)] for one-character [a] and [b]. *)
Definition replace_char (a b : ascii) (s : string) : string :=
  unchars (map (fun c => if decide (c = a) then b else c) (chars s)).

(** [s.split(sep)] for a one-character separator: never empty. *)
Fixpoint split_chars (sep : ascii) (l : list ascii) : list (list ascii) :=
  match l with
  | [] => [[]]
  | c :: l' =>
      if decide (c = sep) then [] :: split_chars sep l'
      else match split_chars sep l' with
           | [] => [[c]]
           | w :: ws => (c :: w) :: ws
           end
  end.

Definition split_on (sep : ascii) (s : string) : list string :=
  map unchars (split_chars sep (chars s)).

Definition contains_char (c : ascii) (s : string) : bool := bool_decide (c ∈ chars s).

(** [s.rsplit("/", 1)[-1]]: the last path segment. *)
Definition last_segment (s : string) : string := default "" (last (split_on "/" s)).

Definition join (sep : string) (l : list string) : string := String.concat sep l.

(** [posixpath.normpath]. *)
Definition normpath_step (absolute : bool) (comps : list string) (comp : string) : list string :=
  if decide (comp = "" \/ comp = ".") then comps
  else if decide (comp <> ".." \/ (absolute = false /\ comps = []) \/ last comps = Some "..")
  then comps ++ [comp]
  else take (length comps - 1) comps.

Definition normpath (path : string) : string :=
  if decide (path = "") then "."
  else
    let slashes :=
      if starts_with path "//" && negb (starts_with path "///") then "//"
      else if starts_with path "/" then "/" else "" in
    let comps := foldl (normpath_step (bool_decide (slashes <> ""))) [] (split_on "/" path) in
    let out := slashes +:+ join "/" comps in
    if decide (out = "") then "." else out.

(** [int(s)] in base 10: blanks around, one sign, single underscores between digits; [None]
    is the [ValueError], also of a literal over the interpreter's 4300 digits. *)
Definition int_digit (c : ascii) : option Z :=
  if (48 <=? code c) && (code c <=? 57) then Some (Z.of_nat (code c - 48)) else None.

Fixpoint int_digits (acc : Z) (after_digit : bool) (l : list ascii) : option Z :=
  match l with
  | [] => if after_digit then Some acc else None
  | c :: l' =>
      match int_digit c with
      | Some d => int_digits (acc * 10 + d) true l'
      | None => if bool_decide (c = "_"%char) && after_digit then int_digits acc false l' else None
      end
  end.

Definition unsigned_int (l : list ascii) : option Z :=
  if decide (4300 < length (filter (fun c => is_Some (int_digit c)) l))%nat then None else int_digits 0 false l.

Definition py_int (s : string) : option Z :=
  match strip_chars (chars s) with
  | "-"%char :: l => Z.opp <$> unsigned_int l
  | "+"%char :: l => unsigned_int l
  | l => unsigned_int l
  end.

Definition dquote : ascii := Ascii.ascii_of_nat 34.

Example strip_ex : strip "  [a b] " = "[a b]". Proof. reflexivity. Qed.
Example normpath_ex1 : normpath "/root/memory/../docs//./x.md" = "/root/docs/x.md".
Proof. reflexivity. Qed.
Example normpath_ex2 : normpath "../a/../../b" = "../../b". Proof. reflexivity. Qed.
Example normpath_ex3 : normpath "//srv/../x" = "//x". Proof. reflexivity. Qed.
Example normpath_ex4 : normpath "/../a" = "/a". Proof. reflexivity. Qed.

Lemma length_chars_app a b : length (chars (a +:+ b)) = (length (chars a) + length (chars b))%nat.
Proof. induction a as [|c a IH]; simpl; [done|]. by rewrite IH. Qed.

Lemma chars_app a b : chars (a +:+ b) = chars a ++ chars b.
Proof. induction a as [|c a IH]; simpl; [done|]. by rewrite IH. Qed.

Lemma list_prefix_spec p l : list_prefix p l = true <-> exists r, l = p ++ r.
Proof.
  revert l; induction p as [|x p IH]; intros l; simpl; [split; eauto|].
  destruct l as [|y l].
  - split; [done|]. by intros (r & ?).
  - rewrite andb_true_iff, bool_decide_eq_true, IH. split.
    + intros [-> (r & ->)]. eauto.
    + intros (r & [= -> ->]). eauto.
Qed.

Lemma split_chars_not_nil sep l : split_chars sep l <> [].
Proof.
  induction l as [|c l IH]; simpl; [done|]. case_decide; [done|]. by destruct (split_chars sep l).
Qed.

Lemma split_chars_no_sep sep l w : w ∈ split_chars sep l -> sep ∉ w.
Proof.
  revert w; induction l as [|c l IH]; intros w; simpl.
  - intros ->%list_elem_of_singleton. apply not_elem_of_nil.
  - case_decide as Hc.
    + intros [->|Hw]%elem_of_cons; [apply not_elem_of_nil|auto].
    + destruct (split_chars sep l) as [|w' ws].
      * intros ->%list_elem_of_singleton. rewrite list_elem_of_singleton. congruence.
      * intros [->|Hw]%elem_of_cons.
        -- rewrite elem_of_cons. intros [?|?]; [congruence|]. by apply (IH w'); [left|].
        -- apply IH. by right.
Qed.

Lemma last_segment_no_slash s : contains_char "/" (last_segment s) = false.
Proof.
  unfold last_segment, contains_char, split_on.
  apply bool_decide_eq_false. rewrite fmap_last.
  destruct (last (split_chars "/" (chars s))) as [w|] eqn:Hl; simpl; [|apply not_elem_of_nil].
  rewrite chars_unchars. eapply split_chars_no_sep. by apply last_Some_elem_of.
Qed.

Lemma ends_with_spec s p : ends_with s p = true <-> exists r, s = r +:+ p.
Proof.
  unfold ends_with. rewrite list_prefix_spec. split.
  - intros (r & Hr). exists (unchars (reverse r)). rewrite <-(unchars_chars s).
    apply (f_equal reverse) in Hr. rewrite reverse_involutive, reverse_app, reverse_involutive in Hr. rewrite Hr.
    rewrite <-(unchars_chars (unchars (reverse r) +:+ p)). by rewrite chars_app, chars_unchars.
  - intros (r & ->). exists (reverse (chars r)). by rewrite chars_app, reverse_app.
Qed.

Lemma string_app_inj_r (a b p : string) : a +:+ p = b +:+ p -> a = b.
Proof.
  intros H. apply (f_equal chars) in H. rewrite !chars_app in H. apply app_inv_tail in H.
  rewrite <-(unchars_chars a), <-(unchars_chars b). by rewrite H.
Qed.

(** ** Dropping a prefix *)

Lemma drop_while_skip f (a b : list ascii) : Forall (fun c => f c = true) a -> drop_while f (a ++ b) = drop_while f b.
Proof. induction 1 as [|c a Hc Ha IH]; simpl; [done|]. by rewrite Hc. Qed.

Lemma drop_while_idemp f (l : list ascii) : drop_while f (drop_while f l) = drop_while f l.
Proof. induction l as [|c l IH]; simpl; [done|]. destruct (f c) eqn:Hc; [done|]. simpl. by rewrite Hc. Qed.

Lemma drop_while_split f (l : list ascii) : exists a, l = a ++ drop_while f l /\ Forall (fun c => f c = true) a.
Proof.
  induction l as [|c l (a & Hl & Ha)]; simpl; [by exists []|]. destruct (f c) eqn:Hc; [|by exists []].
  exists (c :: a). split; [simpl; by f_equal|by constructor].
Qed.
Example py_int_ex : map py_int [" -1_0 "; "+7"; "007"; "1__0"; "_1"; "1_"; ""; "- 1"; "1.0"] =
  [Some (-10); Some 7; Some 7; None; None; None; None; None; None]%Z.
Proof. reflexivity. Qed.
