(* ===== verification/Float64.v ===== *)
(** * Binary64: Python [float] values and their comparisons

    A [float] is an IEEE 754 binary64 datum, with NaN, the infinities and both
    zeros; arithmetic rounds to nearest even. *)
From S2P Require Import Prelude.
From Stdlib Require Export SpecFloat.

Local Open Scope Z_scope.

Abbreviation float := spec_float.

Definition prec : Z := 53.
Definition emax : Z := 1024.

#[export] Instance float_eq_dec : EqDecision float.
Proof. solve_decision. Defined.

(** [math.isfinite]. *)
Definition isfinite (x : float) : bool :=
  match x with S754_zero _ | S754_finite _ _ _ => true | _ => false end.

Definition isnan (x : float) : bool := match x with S754_nan => true | _ => false end.

Definition flt (x y : float) : bool := SFltb x y.
Definition fle (x y : float) : bool := SFleb x y.
Definition fge (x y : float) : bool := SFleb y x.
Definition fgt (x y : float) : bool := SFltb y x.

Definition fadd (x y : float) : float := SFadd prec emax x y.
Definition fsub (x y : float) : float := SFsub prec emax x y.
Definition fmul (x y : float) : float := SFmul prec emax x y.
Definition fdiv (x y : float) : float := SFdiv prec emax x y.
Definition fopp (x : float) : float := SFopp x.

(** The nearest binary64 to an integer, and to a decimal [n / 10^k]. *)
Definition float_of_Z (z : Z) : float := binary_normalize prec emax z 0 false.
Definition float_of_decimal (n : Z) (k : nat) : float :=
  fdiv (float_of_Z n) (float_of_Z (10 ^ Z.of_nat k)).

(** Python's [max(a, b)] and [min(a, b)]: the first argument unless the second
    compares strictly beyond it (so a NaN in second place is never taken). *)
Definition fmax (a b : float) : float := if fgt b a then b else a.
Definition fmin (a b : float) : float := if flt b a then b else a.

Definition zero : float := S754_zero false.
Definition one : float := float_of_Z 1.
Definition half : float := float_of_decimal 5 1.

Lemma SFcompare_swap x y :
  isnan x = false -> isnan y = false ->
  exists c, SFcompare x y = Some c /\ SFcompare y x = Some (CompOpp c).
Proof.
  destruct x as [sx|sx| |sx mx ex], y as [sy|sy| |sy my ey]; simpl; try done; intros _ _;
    try (destruct sx); try (destruct sy); simpl; eauto.
  all: rewrite (Z.compare_antisym ex ey); destruct (Z.compare_spec ex ey); simpl; eauto.
  all: change (Pos.compare_cont Eq) with Pos.compare; rewrite (Pos.compare_antisym mx my);
    eexists; split; [reflexivity|]; by destruct (mx ?= my)%positive.
Qed.

Lemma isfinite_not_nan x : isfinite x = true -> isnan x = false.
Proof. by destruct x. Qed.

(** On non-NaN values the comparison is total: not below means at least. *)
Lemma flt_false_fge x y :
  isnan x = false -> isnan y = false -> flt x y = false <-> fge x y = true.
Proof.
  intros Hx Hy. unfold flt, fge, SFltb, SFleb.
  destruct (SFcompare_swap x y Hx Hy) as (c & -> & ->). by destruct c.
Qed.

Lemma nan_not_fge x y : isnan x = true \/ isnan y = true -> fge x y = false.
Proof. unfold fge, SFleb. destruct x, y; simpl; naive_solver. Qed.

(** *** Rounding never makes a NaN *)

Lemma shr_1_nonneg r : 0 <= shr_m r -> 0 <= shr_m (shr_1 r).
Proof. destruct r as [[|[p|p|]|[p|p|]] ? ?]; simpl; lia. Qed.

Lemma iter_shr_nonneg n r : 0 <= shr_m r -> 0 <= shr_m (SpecFloat.iter_pos shr_1 n r).
Proof.
  revert r; induction n as [n IH|n IH|]; intros r Hr; simpl.
  - apply IH, IH, shr_1_nonneg, Hr.
  - apply IH, IH, Hr.
  - by apply shr_1_nonneg.
Qed.

Lemma shr_fexp_nonneg m e l : 0 <= m -> 0 <= shr_m (shr_fexp prec emax m e l).1.
Proof.
  intros Hm. unfold shr_fexp, shr.
  assert (Hr : 0 <= shr_m (shr_record_of_loc m l)) by (destruct l as [|[]]; simpl; lia).
  destruct (_ - e); simpl; [done| |done]. by apply iter_shr_nonneg.
Qed.

Lemma round_aux_not_nan sx m e l : 0 <= m -> isnan (binary_round_aux prec emax sx m e l) = false.
Proof.
  intros Hm. unfold binary_round_aux.
  pose proof (shr_fexp_nonneg m e l Hm) as H1. destruct (shr_fexp prec emax m e l) as [r1 e1]. simpl in H1.
  set (m2 := round_nearest_even _ _).
  assert (Hm2 : 0 <= m2) by (unfold m2, round_nearest_even; repeat case_match; lia).
  pose proof (shr_fexp_nonneg m2 e1 loc_Exact Hm2) as H2.
  destruct (shr_fexp prec emax m2 e1 loc_Exact) as [r2 e2]. simpl in H2.
  destruct (shr_m r2) as [|p|p]; [done|by destruct (e2 <=? emax - prec)|lia].
Qed.

Lemma float_of_Z_not_nan z : isnan (float_of_Z z) = false.
Proof.
  unfold float_of_Z, binary_normalize. destruct z as [|p|p]; [done|..]; unfold binary_round;
    destruct (shl_align p 0 _) as [m e]; by apply round_aux_not_nan.
Qed.

Lemma fdiv_not_nan x sy my ey : isnan x = false -> isnan (fdiv x (S754_finite sy my ey)) = false.
Proof.
  unfold fdiv, SFdiv. destruct x as [sx|sx| |sx mx ex]; simpl; try done. intros _.
  unfold SFdiv_core_binary. cbn zeta.
  match goal with |- context [Z.div_eucl ?a ?b] =>
    assert (Hq : 0 <= a / b); [|unfold Z.div in Hq; destruct (Z.div_eucl a b) as [q r]; by apply round_aux_not_nan]
  end.
  apply Z.div_pos; [|lia]. destruct (_ - _ - Z.min _ _); [lia|apply Z.shiftl_nonneg; lia|lia].
Qed.

Lemma fdiv_zero sx my ey : fdiv (S754_zero sx) (S754_finite false my ey) = S754_zero sx.
Proof. unfold fdiv, SFdiv. by rewrite xorb_false_r. Qed.

(** [x - x] is zero. *)
Lemma fsub_diag s m e : fsub (S754_finite s m e) (S754_finite s m e) = zero.
Proof.
  unfold fsub, SFsub. rewrite Z.min_id, Z.sub_diag. reflexivity.
Qed.

Example threshold_ex : flt (float_of_decimal 49 2) half = true. Proof. vm_compute. reflexivity. Qed.
