(* ===== verification/Frontmatter.v ===== *)
(** * Frontmatter: what a memo's metadata declares (src/recall/frontmatter.py)

    The metadata values, the validity window, the [supersedes] references, the
    authored authority tier and the exact dependencies.  Reading a date is
    [datetime.strptime(value, "%Y-%m-%d")]: its regular expression and the
    calendar check are written out. *)
From S2P Require Import Prelude Text Float64.

(** A metadata value: what JSON and a database row can hold. *)
Inductive value : Type :=
| VNone
| VBool (b : bool)
| VInt (z : Z)
| VFloat (f : float)
| VStr (s : string)
| VTime (d : datetime)
| VList (l : list value)
| VDict (l : list (string * value)).

Abbreviation metadata := (list (string * value)).

(** [v == 1] in Python. *)
Definition equals_one (v : value) : bool :=
  match v with
  | VInt z => (z =? 1)%Z
  | VBool b => b
  | VFloat f => SFeqb f one
  | _ => false
  end.

Definition meta_get (k : string) (m : metadata) : value := default VNone (odict_get k m).

Definition as_str (v : value) : option string := match v with VStr s => Some s | _ => None end.

(** Python truthiness. *)
Definition truthy (v : value) : bool :=
  match v with
  | VNone => false
  | VBool b => b
  | VInt z => negb (z =? 0)%Z
  | VFloat f => match f with S754_zero _ => false | _ => true end
  | VStr s => negb (bool_decide (s = ""))
  | VTime _ => true
  | VList l => match l with [] => false | _ => true end
  | VDict l => match l with [] => false | _ => true end
  end.

(** ** The calendar *)

Definition is_leap (y : Z) : bool :=
  ((y mod 4 =? 0) && negb (y mod 100 =? 0) || (y mod 400 =? 0))%Z.

Definition days_in_month (y m : Z) : Z :=
  if decide (m = 2)%Z then (if is_leap y then 29 else 28)%Z
  else if decide (m = 4 \/ m = 6 \/ m = 9 \/ m = 11)%Z then 30%Z else 31%Z.

(** Days before January 1st of year [y], and before month [m] in it. *)
Definition days_before_year (y : Z) : Z :=
  let n := (y - 1)%Z in (n * 365 + n / 4 - n / 100 + n / 400)%Z.

Definition days_before_month (y m : Z) : Z :=
  foldl (fun acc k => acc + days_in_month y (Z.of_nat k))%Z 0%Z (seq 1 (Z.to_nat (m - 1))).

(** [date.toordinal() - 1]: days since 0001-01-01. *)
Definition day_number (y m d : Z) : Z :=
  (days_before_year y + days_before_month y m + (d - 1))%Z.

Definition valid_date (y m d : Z) : bool :=
  ((1 <=? y) && (y <=? 9999) && (1 <=? m) && (m <=? 12) && (1 <=? d) && (d <=? days_in_month y m))%Z.

(** ** [strptime(value, "%Y-%m-%d")] *)

Definition digit (c : ascii) : option Z :=
  let n := code c in if ((48 <=? n) && (n <=? 57))%nat then Some (Z.of_nat (n - 48)) else None.

(** [%Y]: four digits. *)
Definition read_year (w : list ascii) : option Z :=
  match w with
  | [a; b; c; d] =>
      a ← digit a; b ← digit b; c ← digit c; d ← digit d;
      Some (a * 1000 + b * 100 + c * 10 + d)%Z
  | _ => None
  end.

(** [%m]: 10 to 12, 01 to 09, or 1 to 9. *)
Definition read_month (w : list ascii) : option Z :=
  match w with
  | [a] => m ← digit a; if decide (1 <= m)%Z then Some m else None
  | [a; b] => a ← digit a; b ← digit b;
      let m := (a * 10 + b)%Z in if decide (1 <= m <= 12)%Z then Some m else None
  | _ => None
  end.

(** [%d]: 30 or 31, 10 to 29, 01 to 09, 1 to 9, or a space and 1 to 9. *)
Definition read_day (w : list ascii) : option Z :=
  match w with
  | [a] => d ← digit a; if decide (1 <= d)%Z then Some d else None
  | [a; b] =>
      if decide (a = " "%char) then d ← digit b; if decide (1 <= d)%Z then Some d else None
      else a ← digit a; b ← digit b;
           let d := (a * 10 + b)%Z in if decide (1 <= d <= 31)%Z then Some d else None
  | _ => None
  end.

(** The date as days since 0001-01-01, or None when [strptime] raises. *)
Definition read_date (s : string) : option Z :=
  match split_chars "-" (chars s) with
  | [y; m; d] =>
      y ← read_year y; m ← read_month m; d ← read_day d;
      if valid_date y m d then Some (day_number y m d) else None
  | _ => None
  end.

(** [_parse_date]: midnight UTC.  [str] of anything but a string never has the
    shape of a date. *)
Definition parse_date (v : value) : result Z :=
  match v with
  | VStr s =>
      match read_date s with
      | Some days => Ok (days * day_us)%Z
      | None => Raise (ValueError "bad date")
      end
  | _ => Raise (ValueError "bad date")
  end.

(** [validity_bounds], on the two raw bounds. *)
Definition validity_bounds_of (valid_from valid_until : value) : result (option Z * option Z) :=
  start ← (if truthy valid_from then Some <$> parse_date valid_from else Ok None);
  end_ ← (if truthy valid_until
          then (fun d => Some (d + day_us - 1)%Z) <$> parse_date valid_until else Ok None);
  match start, end_ with
  | Some s, Some e => if decide (s > e)%Z then Raise (ValueError "empty validity window")
                      else Ok (start, end_)
  | _, _ => Ok (start, end_)
  end.

Definition validity_bounds (meta : metadata) : result (option Z * option Z) :=
  validity_bounds_of (meta_get "valid_from" meta) (meta_get "valid_until" meta).

Example date_ex1 : read_date "0001-01-01" = Some 0%Z. Proof. reflexivity. Qed.
Example date_ex2 : read_date "1970-01-01" = Some 719162%Z. Proof. reflexivity. Qed.
Example date_ex3 : read_date "2024-2-29" = Some 738944%Z. Proof. reflexivity. Qed.
Example date_ex4 : read_date "2023-02-29" = None. Proof. reflexivity. Qed.
Example date_ex5 : read_date "9999-12-31" = Some 3652058%Z. Proof. reflexivity. Qed.

(** ** References *)

(** [_unquote]. *)
Definition unquote_value (s : string) : string :=
  match chars s with
  | a :: rest =>
      match reverse rest with
      | b :: inner =>
          if decide (a = b /\ (a = "'"%char \/ a = dquote))
          then strip (unchars (reverse inner)) else s
      | [] => s
      end
  | [] => s
  end.

(** [_flow_items]. *)
Definition flow_items (s : string) : option (list string) :=
  let v := strip s in
  if starts_with v "[" && ends_with v "]" && (2 <=? length (chars v))%nat && negb (starts_with v "[[")
  then
    let inner := unchars (reverse (tail (reverse (tail (chars v))))) in
    if negb (bool_decide (strip inner = "")) && negb (contains_char "," inner) then None
    else Some (map (fun i => unquote_value (strip i))
                 (filter (fun i => strip i <> "") (split_on "," inner)))
  else None.

(** [_reference_items]. *)
Definition reference_items (s : string) : list string :=
  match flow_items s with
  | Some items => items
  | None => let single := unquote_value (strip s) in if decide (single = "") then [] else [single]
  end.

(** [supersedes_targets]. *)
Definition supersedes_targets (v : value) : list string :=
  match v with
  | VStr s => if decide (strip s = "") then [] else reference_items s
  | VList l => filter (fun s => s <> "") (map strip (omap as_str l))
  | _ => []
  end.

(** [chunk_supersedes_targets] (src/recall/supersession.py): a compiled record
    declares record ids, not file references. *)
Definition chunk_supersedes_targets (meta : metadata) : list string :=
  if decide (as_str (meta_get "record_type" meta) = Some "compiled") then []
  else supersedes_targets (meta_get "supersedes" meta).

Example targets_ex1 : supersedes_targets (VStr "[a.md, 'b.md']") = ["a.md"; "b.md"]. Proof. reflexivity. Qed.
Example targets_ex2 : supersedes_targets (VStr "[[name]]") = ["[[name]]"]. Proof. reflexivity. Qed.
Example targets_ex3 : supersedes_targets (VStr "[name]") = ["[name]"]. Proof. reflexivity. Qed.
Example targets_ex4 : supersedes_targets (VStr "[]") = []. Proof. reflexivity. Qed.

(** ** Authority and dependencies *)

Inductive Authority := Policy | UserConfirmedDecision | ToolObservation | ModelInference | UnknownAuthority.

#[export] Instance Authority_eq_dec : EqDecision Authority.
Proof. solve_decision. Defined.

Definition authority_name (a : Authority) : string :=
  match a with
  | Policy => "policy"
  | UserConfirmedDecision => "user_confirmed_decision"
  | ToolObservation => "tool_observation"
  | ModelInference => "model_inference"
  | UnknownAuthority => "unknown"
  end.

(** The tiers an author may write. *)
Definition authored_authority (s : string) : option Authority :=
  List.find (fun a => bool_decide (authority_name a = s))
    [Policy; UserConfirmedDecision; ToolObservation; ModelInference].

(** [_recall_graph_metadata]. *)
Definition recall_graph_metadata (meta : metadata) : result (option metadata) :=
  match meta_get "recall_graph" meta with
  | VNone => Ok None
  | VDict g =>
      match odict_get "__parse_error__" g with
      | Some _ => Raise (ValueError "recall_graph parse error")
      | None => Ok (Some g)
      end
  | _ => Raise (ValueError "recall_graph must be a JSON object")
  end.

(** [authority_from_metadata]. *)
Definition authority_from_metadata (meta : metadata) : result Authority :=
  graph ← recall_graph_metadata meta;
  match graph ≫= odict_get "authority" with
  | None => Ok UnknownAuthority
  | Some v =>
      match as_str v ≫= authored_authority with
      | Some a => Ok a
      | None => Raise (ValueError "recall_graph.authority")
      end
  end.

(** [dependencies_from_metadata]. *)
Definition dependencies_from_metadata (meta : metadata) : result (list string) :=
  graph ← recall_graph_metadata meta;
  match graph ≫= odict_get "depends_on" with
  | None => Ok []
  | Some (VList l) =>
      values ← result_mapM (fun item =>
        match item with
        | VStr s => if decide (strip s = "") then Raise (ValueError "recall_graph.depends_on entry")
                    else Ok (strip s)
        | _ => Raise (ValueError "recall_graph.depends_on entry")
        end) l;
      Ok (sorted_set values)
  | Some _ => Raise (ValueError "recall_graph.depends_on")
  end.

(** ** Lemmas on the calendar *)

Local Open Scope Z_scope.

Definition leap_days (y : Z) : Z := if is_leap y then 1 else 0.

Lemma is_leap_spec y :
  is_leap y = true <-> (y mod 4 = 0 /\ y mod 100 <> 0) \/ y mod 400 = 0.
Proof.
  unfold is_leap. rewrite orb_true_iff, andb_true_iff, negb_true_iff, !Z.eqb_eq, Z.eqb_neq. done.
Qed.

Lemma days_before_year_step y : days_before_year (y + 1) = days_before_year y + 365 + leap_days y.
Proof.
  unfold days_before_year, leap_days. replace (y + 1 - 1) with y by lia.
  pose proof (is_leap_spec y) as Hl. destruct (is_leap y).
  - assert ((y mod 4 = 0 /\ y mod 100 <> 0) \/ y mod 400 = 0) as H by (apply Hl; done).
    clear Hl. Z.div_mod_to_equations; lia.
  - assert (~ ((y mod 4 = 0 /\ y mod 100 <> 0) \/ y mod 400 = 0)) as H by (intros H%Hl; done).
    clear Hl. Z.div_mod_to_equations; lia.
Qed.

Lemma days_before_year_mono y y' : y <= y' -> days_before_year y <= days_before_year y'.
Proof. unfold days_before_year. intros. Z.div_mod_to_equations; lia. Qed.

Lemma valid_date_spec y m d :
  valid_date y m d = true <-> 1 <= y <= 9999 /\ 1 <= m <= 12 /\ 1 <= d <= days_in_month y m.
Proof. unfold valid_date. rewrite !andb_true_iff, !Z.leb_le. lia. Qed.

Lemma days_in_month_bounds y m : 28 <= days_in_month y m <= 31.
Proof. unfold days_in_month. repeat case_decide; destruct (is_leap y); lia. Qed.

Lemma days_before_month_step y m :
  1 <= m -> days_before_month y (m + 1) = days_before_month y m + days_in_month y m.
Proof.
  intros Hm. unfold days_before_month.
  replace (Z.to_nat (m + 1 - 1)) with (S (Z.to_nat (m - 1))) by lia.
  rewrite seq_S, foldl_app. simpl. do 2 f_equal. lia.
Qed.

Lemma days_before_month_mono y m k :
  1 <= m -> 0 <= k -> days_before_month y m <= days_before_month y (m + k).
Proof.
  intros Hm. revert k. apply natlike_ind; [by rewrite Z.add_0_r|]. intros k Hk IH.
  replace (m + Z.succ k) with (m + k + 1) by lia. rewrite days_before_month_step by lia.
  pose proof (days_in_month_bounds y (m + k)). lia.
Qed.

Lemma days_before_month_le y m m' :
  1 <= m -> m < m' -> days_before_month y m + days_in_month y m <= days_before_month y m'.
Proof.
  intros Hm Hlt. rewrite <-days_before_month_step by done.
  replace m' with (m + 1 + (m' - (m + 1))) by lia. apply days_before_month_mono; lia.
Qed.

Lemma days_before_month_year y : days_before_month y 13 = 365 + leap_days y.
Proof.
  unfold leap_days, days_before_month, days_in_month. simpl. by destruct (is_leap y).
Qed.

Lemma days_before_month_1 y : days_before_month y 1 = 0.
Proof. done. Qed.

(** A valid date lies inside its month, its year and the supported range. *)
Lemma day_number_bounds y m d :
  valid_date y m d = true ->
  days_before_year y + days_before_month y m <= day_number y m d
    < days_before_year y + days_before_month y m + days_in_month y m /\
  days_before_year y <= day_number y m d < days_before_year (y + 1) /\
  0 <= day_number y m d <= 3652058.
Proof.
  intros (Hy & Hm & Hd)%valid_date_spec. unfold day_number.
  pose proof (days_before_month_le y m 13 ltac:(lia) ltac:(lia)) as Hle.
  rewrite days_before_month_year in Hle.
  pose proof (days_before_month_mono y 1 (m - 1) ltac:(lia) ltac:(lia)) as H1.
  replace (1 + (m - 1)) with m in H1 by lia. rewrite days_before_month_1 in H1.
  pose proof (days_before_year_step y).
  pose proof (days_before_year_mono 1 y ltac:(lia)) as Hy1.
  pose proof (days_before_year_mono (y + 1) 10000 ltac:(lia)) as Hy2.
  replace (days_before_year 10000) with 3652059 in Hy2 by done.
  replace (days_before_year 1) with 0 in Hy1 by done. lia.
Qed.

(** Calendar order. *)
Definition date_lt (a b : Z * Z * Z) : Prop :=
  let '(y, m, d) := a in let '(y', m', d') := b in
  y < y' \/ (y = y' /\ (m < m' \/ (m = m' /\ d < d'))).

Lemma day_number_mono y m d y' m' d' :
  valid_date y m d = true -> valid_date y' m' d' = true ->
  date_lt (y, m, d) (y', m', d') -> day_number y m d < day_number y' m' d'.
Proof.
  intros H H' Hlt. pose proof (day_number_bounds y m d H) as (Hb & Hyb & _).
  pose proof (day_number_bounds y' m' d' H') as (Hb' & Hyb' & _).
  apply valid_date_spec in H as (? & ? & ?). apply valid_date_spec in H' as (? & ? & ?).
  destruct Hlt as [Hy|[-> [Hm|[-> Hd]]]].
  - pose proof (days_before_year_mono (y + 1) y' ltac:(lia)). lia.
  - pose proof (days_before_month_le y' m m' ltac:(lia) Hm). lia.
  - unfold day_number. lia.
Qed.

Lemma read_date_some s days :
  read_date s = Some days ->
  exists y m d, valid_date y m d = true /\ days = day_number y m d.
Proof.
  unfold read_date. destruct (split_chars "-" (chars s)) as [|? [|? [|? [|]]]]; try done.
  intros (y & _ & (m & _ & (d & _ & H)%bind_Some)%bind_Some)%bind_Some.
  destruct (valid_date y m d) eqn:Hv; simplify_eq. eauto.
Qed.

Lemma parse_date_bounds v us :
  parse_date v = Ok us -> EARLIEST <= us /\ us + day_us - 1 <= LATEST.
Proof.
  destruct v; simpl; try done. destruct (read_date s) as [days|] eqn:Hr; [|done].
  intros [= <-]. apply read_date_some in Hr as (y & m & d & Hv & ->).
  pose proof (day_number_bounds y m d Hv) as (_ & _ & Hb).
  unfold EARLIEST, LATEST, day_us in *. lia.
Qed.

Lemma parse_date_mod v us : parse_date v = Ok us -> us mod day_us = 0.
Proof.
  unfold parse_date. destruct v; try done. destruct (read_date s); [|done].
  intros [= <-]. by apply Z.mod_mul.
Qed.

Lemma parse_date_raises v e : parse_date v = Raise e -> exists msg, e = ValueError msg.
Proof.
  unfold parse_date. destruct v; try (intros [= <-]; by eexists).
  destruct (read_date s); [done|]. intros [= <-]. by eexists.
Qed.

Lemma day_us_pos : 0 < day_us.
Proof. done. Qed.

Lemma end_of_day us : us mod day_us = 0 -> (us + day_us - 1) mod day_us = day_us - 1.
Proof.
  intros Hus. pose proof day_us_pos. pose proof (Z.div_mod us day_us ltac:(lia)) as Hd.
  symmetry. apply (Z.mod_unique_pos _ _ (us / day_us)); lia.
Qed.

(** One raw bound: absent, or the date it names shifted by [shift]. *)
Definition bound_of (shift : Z) (v : value) : result (option Z) :=
  if truthy v then (fun d => Some (d + shift)) <$> parse_date v else Ok None.

Lemma bound_of_ok shift v b :
  0 <= shift < day_us -> bound_of shift v = Ok b ->
  (b = None <-> truthy v = false) /\
  (forall x, b = Some x -> (exists d, d mod day_us = 0 /\ x = d + shift) /\ EARLIEST <= x <= LATEST).
Proof.
  intros Hs. unfold bound_of. destruct (truthy v); [|by intros [= <-]].
  destruct (parse_date v) as [d|] eqn:Hp; [|done]. intros [= <-].
  pose proof (parse_date_bounds v d Hp). pose proof (parse_date_mod v d Hp).
  split; [done|]. intros x [= <-]. split; [eauto|lia].
Qed.

Lemma bound_of_raises shift v e : bound_of shift v = Raise e -> exists msg, e = ValueError msg.
Proof.
  unfold bound_of. destruct (truthy v); [|done].
  destruct (parse_date v) as [d|] eqn:Hp; [done|]. intros [= <-]. by eapply parse_date_raises.
Qed.

Lemma validity_bounds_of_unfold vf vu :
  validity_bounds_of vf vu =
  (start ← bound_of 0 vf; end_ ← bound_of (day_us - 1) vu;
   match start, end_ with
   | Some s, Some e => if decide (s > e) then Raise (ValueError "empty validity window")
                       else Ok (start, end_)
   | _, _ => Ok (start, end_)
   end).
Proof.
  unfold validity_bounds_of, bound_of.
  destruct (truthy vf), (truthy vu), (parse_date vf) as [d|], (parse_date vu) as [d'|];
    cbn [mbind result_bind fmap result_fmap]; rewrite ?Z.add_0_r, ?Z.add_sub_assoc; done.
Qed.

(** ** Properties *)

(** Days count as calendars do.  Two valid dates compare as their
    (year, month, day) triples, they are equal exactly when their day numbers are,
    and every valid date lies in the supported range 0001-01-01 to 9999-12-31. *)
Theorem day_number_calendar_order y m d y' m' d' :
  valid_date y m d = true -> valid_date y' m' d' = true ->
  (day_number y m d < day_number y' m' d' <-> date_lt (y, m, d) (y', m', d')) /\
  (day_number y m d = day_number y' m' d' <-> (y, m, d) = (y', m', d')) /\
  0 <= day_number y m d <= 3652058.
Proof.
  intros H H'.
  pose proof (day_number_mono _ _ _ _ _ _ H H') as Hlt.
  pose proof (day_number_mono _ _ _ _ _ _ H' H) as Hgt.
  assert (Htri : date_lt (y, m, d) (y', m', d') \/ (y, m, d) = (y', m', d') \/
                 date_lt (y', m', d') (y, m, d)).
  { simpl. destruct (Z.lt_total y y') as [?|[->|?]]; [lia| |lia].
    destruct (Z.lt_total m m') as [?|[->|?]]; [lia| |lia].
    destruct (Z.lt_total d d') as [?|[->|?]]; [lia| |lia]. by right; left. }
  split_and!; [| |by apply day_number_bounds..].
  - split; [|done]. intros. destruct Htri as [?|[[= <- <- <-]|?%Hgt]]; [done|lia|lia].
  - split; [|by intros [= -> -> ->]]. intros.
    destruct Htri as [?%Hlt|[?|?%Hgt]]; [lia|done|lia].
Qed.

Lemma day_number_calendar_order_witness :
  valid_date 2024 2 29 = true /\ valid_date 2024 3 1 = true /\
  (day_number 2024 2 29 < day_number 2024 3 1 <-> date_lt (2024, 2, 29) (2024, 3, 1)).
Proof.
  assert (H : valid_date 2024 2 29 = true) by reflexivity.
  assert (H' : valid_date 2024 3 1 = true) by reflexivity.
  split; [exact H|]. split; [exact H'|]. apply (day_number_calendar_order 2024 2 29 2024 3 1 H H').
Defined.

(** A window that is read is a real one.  When [validity_bounds] answers, a
    bound is open exactly when its key is absent or empty, the start is a midnight
    and the end the last microsecond of a day, both in range, and the start is not
    after the end; a malformed bound or an inverted window is refused with
    [ValueError], never read as an open window. *)
Theorem validity_bounds_sound meta :
  match validity_bounds meta with
  | Raise e => exists msg, e = ValueError msg
  | Ok (start, end_) =>
      (start = None <-> truthy (meta_get "valid_from" meta) = false) /\
      (end_ = None <-> truthy (meta_get "valid_until" meta) = false) /\
      (forall s, start = Some s -> s mod day_us = 0 /\ EARLIEST <= s <= LATEST) /\
      (forall e, end_ = Some e -> e mod day_us = day_us - 1 /\ EARLIEST <= e <= LATEST) /\
      (forall s e, start = Some s -> end_ = Some e -> s <= e)
  end.
Proof.
  unfold validity_bounds. rewrite validity_bounds_of_unfold.
  destruct (bound_of 0 _) as [start|e] eqn:Hs; cbn [mbind result_bind];
    [|by apply bound_of_raises in Hs].
  destruct (bound_of (day_us - 1) _) as [end_|e] eqn:He; cbn [mbind result_bind];
    [|by apply bound_of_raises in He].
  pose proof day_us_pos.
  apply bound_of_ok in Hs as [Hs0 Hs1]; [|lia]. apply bound_of_ok in He as [He0 He1]; [|lia].
  assert (Hs2 : forall s, start = Some s -> s mod day_us = 0 /\ EARLIEST <= s <= LATEST).
  { intros s Hx. destruct (Hs1 s Hx) as ((d & Hd & ->) & ?). split; [by rewrite Z.add_0_r|done]. }
  assert (He2 : forall e, end_ = Some e -> e mod day_us = day_us - 1 /\ EARLIEST <= e <= LATEST).
  { intros e Hx. destruct (He1 e Hx) as ((d & Hd & ->) & ?).
    rewrite Z.add_sub_assoc. split; [by apply end_of_day|lia]. }
  assert (Hok : (forall s e, start = Some s -> end_ = Some e -> s <= e) ->
    (start = None <-> truthy (meta_get "valid_from" meta) = false) /\
    (end_ = None <-> truthy (meta_get "valid_until" meta) = false) /\
    (forall s, start = Some s -> s mod day_us = 0 /\ EARLIEST <= s <= LATEST) /\
    (forall e, end_ = Some e -> e mod day_us = day_us - 1 /\ EARLIEST <= e <= LATEST) /\
    (forall s e, start = Some s -> end_ = Some e -> s <= e)) by tauto.
  destruct start as [s|]; [|by apply Hok]. destruct end_ as [e|]; [|by apply Hok].
  case_decide; [by eexists|]. apply Hok. intros ? ? [= <-] [= <-]. lia.
Qed.
