(* ===== verification/SourceIdentity.v ===== *)
(** * Source identity: one document whatever spelling a row carries it under
    (src/recall/source_identity.py and the location reader of src/recall/uploads.py)

    What a URI source names is read by [urllib] and by the file system
    ([Path.resolve] follows symbolic links), so the class [UriReader] stands for
    them; plain paths are read by the definitions below. *)
From S2P Require Import Prelude Text.

Local Open Scope nat_scope.

Fixpoint has_infix (p l : list ascii) : bool :=
  list_prefix p l || match l with [] => false | _ :: l' => has_infix p l' end.

(** ["://" in source]. *)
Definition is_uri (source : string) : bool := has_infix (chars "://") (chars source).

(** What the platform answers for a source that is a URI: its location as one
    comparable string, the raw path [urlsplit] reads in it, and [unquote]. *)
Class UriReader := {
  uri_location : string -> string;
  uri_path : string -> string;
  unquote : string -> string
}.

(** [PurePosixPath(s).parts] and [.as_posix()]. *)
Definition path_root (s : string) : string :=
  if starts_with s "//" && negb (starts_with s "///") then "//"
  else if starts_with s "/" then "/" else "".

Definition path_names (s : string) : list string :=
  filter (fun c => c <> "" /\ c <> ".") (split_on "/" s).

Definition path_parts (s : string) : list string :=
  (if decide (path_root s = "") then [] else [path_root s]) ++ path_names s.

Definition as_posix (s : string) : string :=
  let out := path_root s +:+ join "/" (path_names s) in
  if decide (out = "") then "." else out.

Section identity.
Context `{UriReader}.

(** [_fold]. *)
Definition fold_path (path : string) : string := if decide (path = "") then path else normpath path.

(** [_location] / [source_location]. *)
Definition source_location (source : string) : string :=
  if is_uri source then uri_location source else fold_path (as_posix source).

(** [_runs_through_uploads]. *)
Fixpoint runs_through_uploads (parts : list string) (folded : string) : bool :=
  match parts with
  | a :: ((b :: _) as rest) =>
      (bool_decide (casefold a = "uploads") && bool_decide (casefold b = folded))
      || runs_through_uploads rest folded
  | _ => false
  end.

(** [in_upload_staging]. *)
Definition in_upload_staging (source tenant : string) : bool :=
  runs_through_uploads (path_parts (source_location source)) (casefold tenant).

(** [root_of]. *)
Definition root_of (source : option string) (file : string) : option string :=
  match source with
  | None => None
  | Some s =>
      if decide (s = "") then None
      else
        let posix_source := replace_char "\" "/" s in
        let posix_file := replace_char "\" "/" file in
        if decide (posix_source = posix_file) then Some ""
        else if ends_with posix_source ("/" +:+ posix_file)
        then Some (drop_last (length (chars posix_file)) posix_source)
        else Some posix_source
  end.

Record SourceIdentity := { si_root : option string; si_file : string }.

(** [source_identity]. *)
Definition source_identity (source : option string) (file : string) : SourceIdentity :=
  let posix_file := replace_char "\" "/" file in
  let file' :=
    match source with
    | Some s =>
        if negb (bool_decide (s = "")) && is_uri s &&
           (bool_decide (uri_path s = posix_file) || ends_with (uri_path s) ("/" +:+ posix_file))
        then unquote file else file
    | None => file
    end in
  let root :=
    match source with
    | Some s => if decide (s = "") then None else root_of (Some (source_location s)) file'
    | None => None
    end in
  {| si_root := nfc <$> root; si_file := nfc (replace_char "\" "/" file') |}.

(** The root a row's document was indexed under. *)
Definition source_root (source : option string) (file : string) : option string :=
  si_root (source_identity source file).
End identity.

(** A reader for a corpus without URIs: it is never asked. *)
#[export] Instance no_uris : UriReader :=
  {| uri_location := fun s => s; uri_path := fun s => s; unquote := fun s => s |}.

Example root_ex : source_root (Some "/r1/docs/../mem/a.md") "a.md" = Some "/r1/mem/".
Proof. vm_compute. reflexivity. Qed.
Example staged_ex : in_upload_staging "/idx/Uploads/acme/x/a.md" "ACME" = true.
Proof. vm_compute. reflexivity. Qed.
