(* ===== verification/Supersession.v ===== *)
(** * Supersession: which successor hides a memo (src/recall/supersession.py)

    The resolved graph of [supersedes:] claims and the walk that names the
    successor hiding a memo: the window rule, the claims live at a replay
    instant, the primary chain, and the breadth-first fan-in search used when no
    member of the primary chain is valid. *)
From S2P Require Import Prelude.

Local Open Scope Z_scope.

(** [EdgeCandidates]: a superseded key, and every document claiming it in scan
    order, each with when the claim was first written. *)
Abbreviation EdgeCandidates := (gmap string (list (string * option datetime))).

(** [Window]: tz-aware UTC bounds, either one open. *)
Abbreviation Window := (option Z * option Z)%type.

(** [window_contains]; an unknown window holds at every instant. *)
Definition window_contains (window : option Window) (moment : datetime) : bool :=
  match window with
  | None => true
  | Some (start, end_) =>
      let m := instant moment in
      match start with None => true | Some s => bool_decide (s <= m) end &&
      match end_ with None => true | Some e => bool_decide (m <= e) end
  end.

(** ** The claims live at one step *)

(** A claim asserted by the replay instant; an undated one always is. *)
Definition asserted_by (known_as_of : option datetime) (when : option datetime) : bool :=
  match known_as_of, when with
  | Some k, Some w => bool_decide (instant w <= instant k)
  | _, _ => true
  end.

(** One turn of the loop that picks the claim asserted last: an undated claim
    loses to any dated one, ties go to the later scan position. *)
Definition latest_step (acc : option string * option datetime)
    (claim : string * option datetime) : option string * option datetime :=
  let '(primary, best_when) := acc in
  let '(f, when) := claim in
  match primary, best_when with
  | None, _ => (Some f, when)
  | Some _, None => (Some f, when)
  | Some _, Some b =>
      match when with
      | Some w => if bool_decide (instant b <= instant w) then (Some f, when) else acc
      | None => acc
      end
  end.

(** [_live_claims]: the claim a chain follows from [cur], and every live
    claimant, the primary first. *)
Definition live_claims (cur : string) (supersession : gmap string string)
    (edge_candidates : option EdgeCandidates) (known_as_of : option datetime) :
    option string * list string :=
  let primary :=
    match known_as_of, edge_candidates with
    | Some _, Some candidates =>
        match candidates !! cur with
        | None => supersession !! cur
        | Some claims =>
            (foldl latest_step (None, None)
               (filter (fun c => c.1 <> cur /\ asserted_by known_as_of c.2 = true) claims)).1
        end
    | _, _ => supersession !! cur
    end in
  let primary := if decide (primary = Some cur) then None else primary in
  let every := match primary with Some p => [p] | None => [] end in
  let every :=
    match edge_candidates with
    | None => every
    | Some candidates =>
        foldl (fun acc c =>
                 if decide (c.1 = cur \/ c.1 ∈ acc) then acc
                 else if asserted_by known_as_of c.2 then acc ++ [c.1] else acc)
              every (default [] (candidates !! cur))
    end in
  (primary, every).

(** ** The walk

    [sup], [ec], [known], [now] and [windows] are the arguments every step of
    one resolution shares. *)
Section walk.
Context (sup : gmap string string) (ec : option EdgeCandidates) (known : option datetime).
Context (now : option datetime) (windows : option (gmap string Window)).

Definition live (cur : string) : option string * list string := live_claims cur sup ec known.
#[local] Arguments live : simpl never.

(** [valid]: the window rule. *)
Definition valid (member : string) : bool :=
  match now, windows with
  | Some n, Some w => window_contains (w !! member) n
  | _, _ => true
  end.

(** The primary chain: the members in order, and whether it came back round. *)
Fixpoint follow (fuel : nat) (seen : gset string) (cur : string) : option (list string * bool) :=
  match fuel with
  | O => None
  | S fuel' =>
      match (live cur).1 with
      | None => Some ([], false)
      | Some nxt =>
          if decide (nxt ∈ seen) then Some ([], true)
          else '(chain, cycle) ← follow fuel' ({[ nxt ]} ∪ seen) nxt;
               Some (nxt :: chain, cycle)
      end
  end.

(** The indices of the chain in the order they are tried. *)
Definition chain_order (cycle : bool) (n : nat) : list nat :=
  if cycle then seq 0 n else reverse (seq 0 n).

Definition pick (chain : list string) (cycle : bool) : option nat :=
  List.find (fun i => match chain !! i with Some m => valid m | None => false end)
    (chain_order cycle (length chain)).

(** The state of the breadth-first search. *)
Record bfs := Bfs {
  visited : gset string;
  parents : gmap string string;
  best : option string;
  best_depth : Z
}.

Definition visit_claimant (depth : Z) (node : string)
    (acc : bfs * list string) (claimant : string) : bfs * list string :=
  let '(st, following) := acc in
  if decide (claimant ∈ visited st) then acc
  else
    let better := bool_decide (best_depth st < depth) && valid claimant in
    (Bfs ({[ claimant ]} ∪ visited st) (<[ claimant := node ]> (parents st))
         (if better then Some claimant else best st)
         (if better then depth else best_depth st),
     following ++ [claimant]).

Definition visit_node (depth : Z) (acc : bfs * list string) (node : string) : bfs * list string :=
  foldl (visit_claimant depth node) acc (live node).2.

Fixpoint search (fuel : nat) (depth : Z) (frontier : list string) (st : bfs) : option bfs :=
  match frontier with
  | [] => Some st
  | _ =>
      match fuel with
      | O => None
      | S fuel' =>
          let '(st', following) := foldl (visit_node (depth + 1)) (st, []) frontier in
          search fuel' (depth + 1) following st'
      end
  end.

(** The path back from [cur]: [path.append(parents[path[-1]])] until the
    parent is [file]. *)
Fixpoint climb (fuel : nat) (ps : gmap string string) (file cur : string) : option (list string) :=
  match fuel with
  | O => None
  | S fuel' =>
      let p := default file (ps !! cur) in
      if decide (p = file) then Some [cur] else path ← climb fuel' ps file p; Some (cur :: path)
  end.

(** Every document that claims something: the only ones a walk can meet. *)
Definition claimants : gset string :=
  list_to_set ((map_to_list sup).*2) ∪
  match ec with
  | None => ∅
  | Some m => list_to_set ((map_to_list m ≫= fun kv => (kv.2).*1))
  end.

Definition walk_fuel : nat := S (S (size claimants)).

(** [successor_path]. *)
Definition successor_path_opt (file : string) : option (list string) :=
  '(chain, cycle) ← follow walk_fuel {[ file ]} file;
  match pick chain cycle with
  | Some i => Some (take (S i) chain)
  | None =>
      st ← search walk_fuel 0 [file] (Bfs {[ file ]} ∅ None (-1));
      match best st with
      | None => Some []
      | Some b => path ← climb walk_fuel (parents st) file b; Some (rev path)
      end
  end.

Definition successor_path (file : string) : list string :=
  default [] (successor_path_opt file).

(** [resolve_successor]. *)
Definition resolve_successor (file : string) : option string := last (successor_path file).

(** [SupersessionGraph.on_cycle]: following the first live claimant of each step. *)
Fixpoint on_cycle_loop (fuel : nat) (seen : gset string) (cur : string) : option bool :=
  match fuel with
  | O => None
  | S fuel' =>
      match (live cur).2 with
      | [] => Some false
      | nxt :: _ => if decide (nxt ∈ seen) then Some true
                    else on_cycle_loop fuel' ({[ nxt ]} ∪ seen) nxt
      end
  end.

Definition on_cycle (file : string) : bool :=
  default false (on_cycle_loop walk_fuel {[ file ]} file).

(** ** What a step follows *)

(** [b] is the first live claimant of [a]. *)
Definition first_claimant (a b : string) : Prop := head (live a).2 = Some b.

(** [b] is a live claim on [a]. *)
Definition claims_on (a b : string) : Prop := b ∈ (live a).2.

(** [m] is a document of [file]'s chain, however far. *)
Definition in_chain (file m : string) : Prop := m <> file /\ tc claims_on file m.

Lemma latest_fold_elem (claims : list (string * option datetime)) acc c :
  (foldl latest_step acc claims).1 = Some c ->
  acc.1 = Some c \/ exists w, (c, w) ∈ claims.
Proof.
  revert acc; induction claims as [|[f w] claims IH]; intros acc; simpl; [by left|].
  intros [Hacc|(w' & ?)]%IH; [|right; exists w'; by right].
  destruct acc as [[p|] [b|]]; simpl in Hacc;
    repeat (case_match; simpl in *; simplify_eq); simpl in *; simplify_eq; eauto;
    right; eexists; by left.
Qed.

Lemma every_fold cur c claims acc :
  c ∈ foldl (fun acc (c : string * option datetime) =>
               if decide (c.1 = cur \/ c.1 ∈ acc) then acc
               else if asserted_by known c.2 then acc ++ [c.1] else acc) acc claims <->
  c ∈ acc \/ (c <> cur /\ exists w, (c, w) ∈ claims /\ asserted_by known w = true).
Proof.
  revert acc; induction claims as [|[f w] claims IH]; intros acc; simpl.
  { split; [by left|]. intros [?|(_ & w & []%not_elem_of_nil & _)]; done. }
  rewrite IH; clear IH. setoid_rewrite elem_of_cons. split.
  - intros [Hc|(Hne & w' & Hin & Ha)]; [|right; eauto 6].
    case_decide as Hd; [by left|]. destruct (asserted_by known w) eqn:Ha; [|by left].
    apply elem_of_app in Hc as [Hc|Hc%list_elem_of_singleton]; [by left|subst].
    right. split; [intros ->; tauto|]. exists w; auto.
  - intros [Hc|(Hne & w' & [Heq|Hin] & Ha)]; [|simplify_eq|right; eauto].
    + left. case_decide; [done|]. case_match; [apply elem_of_app; by left|done].
    + left. case_decide as Hd; [tauto|]. rewrite Ha. apply elem_of_app.
      right. by apply list_elem_of_singleton.
Qed.

(** The claimants of a step are exactly the primary claim and the listed
    claims asserted by the replay instant, the document itself left out. *)
Lemma elem_of_every cur c :
  c ∈ (live cur).2 <->
  (live cur).1 = Some c \/
  (c <> cur /\ exists m claims w,
      ec = Some m /\ m !! cur = Some claims /\ (c, w) ∈ claims /\ asserted_by known w = true).
Proof.
  unfold live, live_claims; simpl.
  set (prim := if decide _ then _ else _).
  assert (Hbase : forall x, x ∈ (match prim with Some p => [p] | None => [] end) <-> prim = Some x).
  { intros x. destruct prim as [p|]; [rewrite list_elem_of_singleton|rewrite elem_of_nil];
      naive_solver. }
  destruct ec as [m|]; [|rewrite Hbase; naive_solver].
  destruct (m !! cur) as [claims|] eqn:E; simpl.
  - rewrite every_fold, Hbase. split; intros [?|(? & H)]; auto; right; split; auto.
    + destruct H as (w & ? & ?). by exists m, claims, w.
    + destruct H as (m' & claims' & w & ? & ? & ? & ?). simplify_eq. by exists w.
  - rewrite Hbase. split; [by left|]. intros [?|(? & m' & claims' & w & ? & ? & ?)]; [done|].
    simplify_eq.
Qed.

Lemma primary_not_self cur : (live cur).1 <> Some cur.
Proof. unfold live, live_claims; simpl. case_decide; congruence. Qed.

Lemma claims_on_irrefl cur : ~ claims_on cur cur.
Proof.
  unfold claims_on. rewrite elem_of_every. pose proof (primary_not_self cur). naive_solver.
Qed.

Lemma primary_claims_on cur p : (live cur).1 = Some p -> claims_on cur p.
Proof. intros H. apply elem_of_every. by left. Qed.

Lemma primary_claimant cur p : (live cur).1 = Some p -> p ∈ claimants.
Proof.
  unfold live, live_claims, claimants; simpl. case_decide as Hd; [done|]. clear Hd.
  assert (Hsup : sup !! cur = Some p -> p ∈ (list_to_set ((map_to_list sup).*2) : gset string)).
  { intros Hs. apply elem_of_list_to_set, list_elem_of_fmap.
    exists (cur, p). split; [done|]. by apply elem_of_map_to_list. }
  intros Hp. apply elem_of_union. destruct known as [k|], ec as [m|]; auto.
  destruct (m !! cur) as [claims|] eqn:Em; [right|auto].
  apply latest_fold_elem in Hp as [Hp|(w & Hw%list_elem_of_filter)]; [done|].
  apply elem_of_list_to_set, list_elem_of_bind. exists (cur, claims).
  split; [|by apply elem_of_map_to_list].
  apply list_elem_of_fmap. exists (p, w). tauto.
Qed.

Lemma claims_on_claimant a b : claims_on a b -> b ∈ claimants.
Proof.
  unfold claims_on. rewrite elem_of_every. intros [Hp|(_ & m & claims & w & Hec & Hm & Hin & _)].
  - by eapply primary_claimant.
  - unfold claimants. rewrite Hec. apply elem_of_union_r, elem_of_list_to_set, list_elem_of_bind.
    exists (a, claims). split; [|by apply elem_of_map_to_list].
    apply list_elem_of_fmap. by exists (b, w).
Qed.

(** ** The primary chain *)

Lemma follow_total fuel seen cur :
  (size (claimants ∖ seen) < fuel)%nat -> is_Some (follow fuel seen cur).
Proof.
  revert seen cur; induction fuel as [|fuel IH]; intros seen cur Hsz; [lia|]; cbn [follow].
  destruct ((live cur).1) as [nxt|] eqn:Hn; [|by eexists]. case_decide as Hs; [by eexists|].
  destruct (IH ({[ nxt ]} ∪ seen) nxt) as [[chain cycle] Hf].
  - apply primary_claimant in Hn. apply Nat.lt_le_trans with (size (claimants ∖ seen)); [|lia].
    apply subset_size. set_solver.
  - rewrite Hf. by eexists.
Qed.

Lemma follow_spec fuel seen cur chain cycle :
  cur ∈ seen ->
  follow fuel seen cur = Some (chain, cycle) ->
  forall i m, chain !! i = Some m ->
    m ∉ seen /\ exists p, (cur :: chain) !! i = Some p /\ claims_on p m.
Proof.
  revert seen cur chain cycle; induction fuel as [|fuel IH]; intros seen cur chain cycle Hcur;
    cbn [follow]; [done|].
  destruct ((live cur).1) as [nxt|] eqn:Hn; [|by intros [= <- <-] [|?] ?].
  case_decide as Hs; [by intros [= <- <-] [|?] ?|].
  destruct (follow fuel ({[ nxt ]} ∪ seen) nxt) as [[ch cy]|] eqn:Hf; simpl; [|done].
  intros [= <- <-] [|i] m; simpl; intros Hm.
  - simplify_eq. split; [done|]. exists cur. split; [done|]. by apply primary_claims_on.
  - destruct (IH ({[ nxt ]} ∪ seen) nxt ch cy (ltac:(set_solver)) Hf i m Hm) as (Hns & p & Hp & Hc).
    split; [set_solver|]. eauto.
Qed.

(** ** The cycle test *)

Lemma on_cycle_total fuel seen cur :
  (size (claimants ∖ seen) < fuel)%nat -> is_Some (on_cycle_loop fuel seen cur).
Proof.
  revert seen cur; induction fuel as [|fuel IH]; intros seen cur Hsz; [lia|]; cbn [on_cycle_loop].
  destruct (live cur).2 as [|nxt l] eqn:Hn; [by eexists|]. case_decide as Hs; [by eexists|].
  apply IH. assert (Hc : nxt ∈ claimants).
  { apply (claims_on_claimant cur). unfold claims_on. rewrite Hn. by left. }
  apply Nat.lt_le_trans with (size (claimants ∖ seen)); [|lia].
  apply subset_size. set_solver.
Qed.

Lemma on_cycle_sound fuel seen cur file b :
  on_cycle_loop fuel seen cur = Some b ->
  rtc first_claimant file cur -> (forall y, y ∈ seen -> rtc first_claimant y cur) ->
  (forall y, y ∈ seen -> rtc first_claimant file y) ->
  if b then exists x, rtc first_claimant file x /\ tc first_claimant x x
  else exists x, rtc first_claimant file x /\ forall y, ~ first_claimant x y.
Proof.
  revert seen cur; induction fuel as [|fuel IH]; intros seen cur; cbn [on_cycle_loop]; [done|].
  destruct (live cur).2 as [|nxt l] eqn:Hn; intros Hc Hcur Hto Hfrom.
  - simplify_eq. exists cur. split; [done|]. intros y. unfold first_claimant. by rewrite Hn.
  - assert (Hstep : first_claimant cur nxt) by (unfold first_claimant; by rewrite Hn).
    assert (Hnxt : rtc first_claimant file nxt) by by eapply rtc_r.
    case_decide as Hs.
    + simplify_eq. exists nxt. split; [done|]. eapply tc_rtc_l; [exact (Hto nxt Hs)|by apply tc_once].
    + apply (IH _ _ Hc Hnxt); intros y [->%elem_of_singleton|Hy]%elem_of_union; auto; [done|].
      by eapply rtc_r; [apply Hto|].
Qed.

Lemma first_claimant_det a b c : first_claimant a b -> first_claimant a c -> b = c.
Proof. unfold first_claimant. congruence. Qed.

Lemma cycle_next x y :
  rtc first_claimant x y -> tc first_claimant x x -> exists z, first_claimant y z.
Proof.
  induction 1 as [x|x w y Hs Hw IH]; intros Hxx.
  - inversion Hxx; eauto.
  - apply IH. inversion Hxx as [? ? Hs'|? m ? Hs' Hm]; subst.
    + by rewrite (first_claimant_det x w x) in * by done.
    + rewrite (first_claimant_det x m w) in * by done. by eapply tc_r.
Qed.

(** From a document that reaches a cycle there is always a next claimant. *)
Lemma cycle_no_end file x y :
  rtc first_claimant file x -> tc first_claimant x x -> rtc first_claimant file y ->
  exists z, first_claimant y z.
Proof.
  induction 1 as [file|file w x Hs Hw IH]; intros Hxx Hy; [by eapply cycle_next|].
  inversion Hy as [|? w' ? Hs' Hy']; subst; [eauto|].
  rewrite (first_claimant_det file w' w) in * by done. auto.
Qed.

(** Consecutive members of a path are linked by live claims. *)
Fixpoint linked (from : string) (path : list string) : Prop :=
  match path with
  | [] => True
  | m :: rest => claims_on from m /\ linked m rest
  end.

Lemma linked_of_lookup from path :
  (forall i m, path !! i = Some m -> exists p, (from :: path) !! i = Some p /\ claims_on p m) ->
  linked from path.
Proof.
  revert from; induction path as [|m path IH]; intros from H; simpl; [done|].
  split.
  - destruct (H 0%nat m eq_refl) as (p & [= ->] & ?). done.
  - apply IH. intros i m' Hm. apply (H (S i) m' Hm).
Qed.

Lemma linked_take from path n : linked from path -> linked from (take n path).
Proof.
  revert from n; induction path as [|m path IH]; intros from [|n]; simpl; try done.
  intros [? ?]; auto.
Qed.

Lemma linked_tc from path m : linked from path -> m ∈ path -> tc claims_on from m.
Proof.
  revert from; induction path as [|x path IH]; intros from; simpl.
  - by intros _ ?%not_elem_of_nil.
  - intros [Hx Hl] [->|Hm]%elem_of_cons; [by apply tc_once|].
    eapply tc_l; eauto.
Qed.

Lemma linked_snoc from path x y :
  linked from (path ++ [x]) -> claims_on x y -> linked from ((path ++ [x]) ++ [y]).
Proof.
  revert from; induction path as [|m path IH]; intros from; simpl; [naive_solver|].
  intros [? ?] ?. split; [done|]. by apply IH.
Qed.

(** [chain] follows the primary claim at each step. *)
Fixpoint primaries (from : string) (chain : list string) : Prop :=
  match chain with
  | [] => True
  | m :: rest => (live from).1 = Some m /\ primaries m rest
  end.

(** Where a followed chain stops: at a document nobody claims, or at one whose
    primary claim comes back to the chain. *)
Definition chain_end (file : string) (chain : list string) (cycle : bool) : Prop :=
  let stop := default file (last chain) in
  if cycle then exists r, (live stop).1 = Some r /\ r ∈ file :: chain
  else (live stop).1 = None.

Lemma default_last_cons {A} (d x : A) l : default d (last (x :: l)) = default x (last l).
Proof. rewrite last_cons. by destruct (last l). Qed.

Lemma follow_primaries fuel seen cur chain cycle :
  cur ∈ seen -> follow fuel seen cur = Some (chain, cycle) ->
  primaries cur chain /\
  (let stop := default cur (last chain) in
   if cycle then exists r, (live stop).1 = Some r /\ (r ∈ seen \/ r ∈ chain)
   else (live stop).1 = None).
Proof.
  revert seen cur chain cycle; induction fuel as [|fuel IH]; intros seen cur chain cycle Hcur;
    cbn [follow]; [done|].
  destruct ((live cur).1) as [nxt|] eqn:Hn; [|by intros [= <- <-]].
  case_decide as Hs; [intros [= <- <-]; split; [done|]; exists nxt; auto|].
  destruct (follow fuel ({[ nxt ]} ∪ seen) nxt) as [[ch cy]|] eqn:Hf; simpl; [|done].
  intros [= <- <-].
  destruct (IH ({[ nxt ]} ∪ seen) nxt ch cy (ltac:(set_solver)) Hf) as [Hp He].
  split; [done|]. rewrite default_last_cons. destruct cy; [|done].
  destruct He as (r & Hr & Hin). exists r. split; [done|]. set_solver.
Qed.

Lemma follow_nodup fuel seen cur chain cycle :
  follow fuel seen cur = Some (chain, cycle) ->
  NoDup chain /\ (forall m, m ∈ chain -> m ∉ seen).
Proof.
  revert seen cur chain; induction fuel as [|fuel IH]; intros seen cur chain;
    cbn [follow]; [done|].
  assert (Hnil : NoDup (@nil string) /\ forall m, m ∈ @nil string -> m ∉ seen).
  { split; [constructor|]. by intros m ?%not_elem_of_nil. }
  destruct ((live cur).1) as [nxt|] eqn:Hn; [|by intros [= <- _]].
  case_decide as Hs; [by intros [= <- _]|].
  destruct (follow fuel ({[ nxt ]} ∪ seen) nxt) as [[ch cy]|] eqn:Hf; simpl; [|done].
  intros [= <- <-]. destruct (IH _ _ _ Hf) as [Hnd Hns]. split.
  - constructor; [|done]. intros Hin%Hns. apply Hin. set_solver.
  - intros m [->|Hm]%elem_of_cons; [done|]. specialize (Hns m Hm). set_solver.
Qed.

Lemma follow_nodup_start fuel file chain cycle :
  follow fuel {[ file ]} file = Some (chain, cycle) -> NoDup (file :: chain).
Proof.
  intros [Hnd Hns]%follow_nodup. constructor; [|done].
  intros Hin%Hns. apply Hin. by apply elem_of_singleton.
Qed.

Lemma find_first (f : nat -> bool) (l : list nat) i pos :
  l !! pos = Some i -> f i = true ->
  (forall p j, (p < pos)%nat -> l !! p = Some j -> f j = false) ->
  List.find f l = Some i.
Proof.
  revert pos; induction l as [|x l IH]; intros [|pos]; simpl; try done.
  - intros [= ->] Hf _. by rewrite Hf.
  - intros Hl Hf Hb. rewrite (Hb 0%nat x) by (done || lia).
    apply (IH pos Hl Hf). intros p j Hp Hj. apply (Hb (S p) j); [lia|done].
Qed.

Lemma lookup_seq_0 n p : (p < n)%nat -> seq 0 n !! p = Some p.
Proof. intros Hp. apply lookup_seq. split; [lia|done]. Qed.

(** The member tried first among the valid ones is the one picked. *)
Lemma pick_first (chain : list string) (cycle : bool) (i : nat) (m : string) :
  chain !! i = Some m -> valid m = true ->
  (forall j m', (if cycle then j < i else i < j)%nat -> chain !! j = Some m' -> valid m' = false) ->
  pick chain cycle = Some i.
Proof.
  intros Hi Hv Hbefore. pose proof (lookup_lt_Some _ _ _ Hi) as Hlt.
  assert (Hf : forall j, (if cycle then j < i else i < j)%nat ->
            match chain !! j with Some m' => valid m' | None => false end = false).
  { intros j Hj. destruct (chain !! j) as [m'|] eqn:Hm; [by apply (Hbefore j)|done]. }
  unfold pick, chain_order. destruct cycle.
  - apply find_first with i; [by apply lookup_seq_0|by rewrite Hi|].
    intros p j Hp Hj. apply Hf. apply lookup_seq in Hj. lia.
  - apply find_first with (length chain - S i)%nat; [|by rewrite Hi|].
    + rewrite reverse_lookup; rewrite length_seq; [|lia]. rewrite lookup_seq_0 by lia. f_equal. lia.
    + intros p j Hp Hj. apply Hf. apply reverse_lookup_Some in Hj as [Hj Hlj].
      rewrite length_seq in Hj, Hlj. apply lookup_seq in Hj. lia.
Qed.

Lemma pick_spec chain cycle i :
  pick chain cycle = Some i -> exists m, chain !! i = Some m /\ valid m = true.
Proof.
  unfold pick. intros [_ H]%List.find_some. destruct (chain !! i) as [m|]; [eauto|done].
Qed.

Lemma pick_none chain cycle m : pick chain cycle = None -> m ∈ chain -> valid m = false.
Proof.
  unfold pick, chain_order. intros Hf [i Hi]%list_elem_of_lookup.
  apply (List.find_none _ _) with (x := i) in Hf.
  - by rewrite Hi in Hf.
  - pose proof (lookup_lt_Some _ _ _ Hi) as Hlt.
    assert (In i (seq 0 (length chain))) by (apply in_seq; lia).
    destruct cycle; [done|].
    by apply list_elem_of_In, elem_of_reverse, list_elem_of_In.
Qed.

(** ** The breadth-first search

    [anc ps file n v]: climbing [n] parents from [v] along live claims
    reaches [file]. *)
Inductive anc (ps : gmap string string) (file : string) : nat -> string -> Prop :=
| anc_one v : ps !! v = Some file -> claims_on file v -> anc ps file 1 v
| anc_more n v p :
    ps !! v = Some p -> p <> file -> claims_on p v -> anc ps file n p -> anc ps file (S n) v.

Lemma anc_insert ps file n v c p :
  ps !! c = None -> anc ps file n v -> anc (<[ c := p ]> ps) file n v.
Proof.
  intros Hc. induction 1 as [v Hv Hs|n v q Hv Hq Hs Ha IH].
  - apply anc_one; [|done]. rewrite lookup_insert_ne; congruence.
  - apply anc_more with q; auto. rewrite lookup_insert_ne; congruence.
Qed.

Lemma anc_tc ps file n v : anc ps file n v -> tc claims_on file v.
Proof. induction 1; [by apply tc_once|]. eapply tc_r; eauto. Qed.

Lemma climb_spec ps file n v fuel :
  anc ps file n v -> (n <= fuel)%nat ->
  exists path, climb fuel ps file v = Some path /\ head path = Some v /\ linked file (rev path).
Proof.
  intros Ha; revert fuel.
  induction Ha as [v Hv Hs|n v p Hv Hne Hs Ha IH]; intros [|fuel] Hle;
    try (inversion Ha; lia); try lia; simpl; rewrite Hv; simpl.
  - rewrite decide_True by done. exists [v]. simpl. auto.
  - rewrite decide_False by done. destruct (IH fuel) as (path & -> & Hh & Hl); [lia|].
    exists (v :: path). split; [done|]. split; [done|].
    destruct path as [|x path]; simpl in Hh; simplify_eq. by apply linked_snoc.
Qed.

(** What the search maintains: every visited document but [file] climbs back
    to it, only [todo] and [next] may have unvisited claimants, and [best] is a
    valid visited document whenever there is one. *)
Record search_inv (file : string) (todo next : list string) (st : bfs) : Prop := {
  inv_file : file ∈ visited st;
  inv_bound : visited st ⊆ {[ file ]} ∪ claimants;
  inv_dom : dom (parents st) ⊆ visited st;
  inv_queue : forall v, v ∈ todo \/ v ∈ next -> v ∈ visited st;
  inv_anc : forall v, v ∈ visited st -> v <> file ->
    exists n, anc (parents st) file n v /\ (n < size (visited st))%nat;
  inv_closed : forall v w, v ∈ visited st -> v ∉ todo -> v ∉ next ->
    claims_on v w -> w ∈ visited st;
  inv_best : match best st with
             | None => best_depth st = -1 /\
                       forall v, v ∈ visited st -> v <> file -> valid v = false
             | Some b => b ∈ visited st /\ b <> file /\ valid b = true
             end
}.

Lemma visit_claimant_inv file todo next st depth node c :
  0 <= depth -> search_inv file todo next st -> node ∈ visited st -> claims_on node c ->
  let '(st', next') := visit_claimant depth node (st, next) c in
  search_inv file todo next' st' /\ visited st' = {[ c ]} ∪ visited st.
Proof.
  intros Hd [If Ib Id Iq Ia Ic Ibest] Hnode Hstep. unfold visit_claimant.
  case_decide as Hc; [split; [by constructor|set_solver]|].
  assert (Hcf : c <> file) by (intros ->; done).
  assert (Hpc : parents st !! c = None) by (apply not_elem_of_dom; set_solver).
  assert (Hsz : size ({[ c ]} ∪ visited st) = S (size (visited st))).
  { rewrite size_union by set_solver. by rewrite size_singleton. }
  split; [|done]. constructor; cbn [visited parents best best_depth].
  - set_solver.
  - apply claims_on_claimant in Hstep. set_solver.
  - rewrite dom_insert_L. set_solver.
  - intros v [Hv|[Hv| ->%list_elem_of_singleton]%elem_of_app]; [| |set_solver];
      apply elem_of_union_r, Iq; auto.
  - intros v [->%elem_of_singleton|Hv]%elem_of_union Hvf; rewrite Hsz.
    + destruct (decide (node = file)) as [->|Hnf].
      * exists 1%nat. split; [apply anc_one; [by rewrite lookup_insert_eq|done]|].
        assert (size (visited st) <> 0%nat); [|lia]. intros ?%size_empty_inv. set_solver.
      * destruct (Ia node Hnode Hnf) as (n & Ha & Hn). exists (S n). split; [|lia].
        eapply anc_more; eauto; [by rewrite lookup_insert_eq|by apply anc_insert].
    + destruct (Ia v Hv Hvf) as (n & Ha & Hn). exists n. split; [by apply anc_insert|lia].
  - intros v w [->%elem_of_singleton|Hv]%elem_of_union Ht Hn Hw; [set_solver|].
    apply elem_of_union_r. apply (Ic v w); auto. set_solver.
  - destruct (bool_decide (best_depth st < depth) && valid c) eqn:Hb.
    + apply andb_prop in Hb as [_ Hvc]. split_and!; [|done|done].
      by apply elem_of_union_l, elem_of_singleton.
    + destruct (best st) as [b|].
      * destruct Ibest as (? & ? & ?). split_and!; auto. by apply elem_of_union_r.
      * destruct Ibest as [Hbd Hall]. split; [done|].
        intros v [->%elem_of_singleton|Hv]%elem_of_union Hvf; [|auto].
        apply andb_false_iff in Hb as [Hb|Hb]; [|done].
        apply bool_decide_eq_false in Hb. lia.
Qed.

Lemma visit_claimants_inv file todo depth node cs next st :
  0 <= depth -> search_inv file todo next st -> node ∈ visited st ->
  Forall (claims_on node) cs ->
  let '(st', next') := foldl (visit_claimant depth node) (st, next) cs in
  search_inv file todo next' st' /\ visited st ⊆ visited st' /\
  (forall c, c ∈ cs -> c ∈ visited st').
Proof.
  intros Hd; revert next st; induction cs as [|c cs IH]; intros next st Hinv Hnode Hcs.
  { simpl. split_and!; [done|done|]. by intros c ?%not_elem_of_nil. }
  apply Forall_cons in Hcs as [Hc Hcs]. cbn [foldl].
  pose proof (visit_claimant_inv file todo next st depth node c Hd Hinv Hnode Hc) as Hv.
  destruct (visit_claimant depth node (st, next) c) as [st1 next1]. destruct Hv as [Hinv1 Hvis1].
  assert (Hnode1 : node ∈ visited st1) by (rewrite Hvis1; by apply elem_of_union_r).
  specialize (IH next1 st1 Hinv1 Hnode1 Hcs).
  destruct (foldl _ _ cs) as [st' next']. destruct IH as (Hinv' & Hsub & Hin).
  split_and!; [done|rewrite Hvis1 in Hsub; set_solver|].
  intros x [->|Hx]%elem_of_cons; [|auto]. apply Hsub. rewrite Hvis1. set_solver.
Qed.

Lemma visit_node_inv file todo depth node next st :
  0 <= depth -> search_inv file (node :: todo) next st ->
  let '(st', next') := visit_node depth (st, next) node in
  search_inv file todo next' st' /\ visited st ⊆ visited st'.
Proof.
  intros Hd Hinv. unfold visit_node.
  assert (Hnode : node ∈ visited st) by (apply (inv_queue _ _ _ _ Hinv); left; by left).
  pose proof (visit_claimants_inv file (node :: todo) depth node (live node).2 next st
                Hd Hinv Hnode) as Hv.
  destruct (foldl _ _ _) as [st' next'].
  destruct Hv as (Hinv' & Hsub & Hall); [by apply Forall_forall|].
  split; [|done]. destruct Hinv' as [If Ib Id Iq Ia Ic Ibest]. constructor; auto.
  - intros v [Hv|Hv]; apply Iq; [left; by right|by right].
  - intros v w Hv Ht Hn Hw. destruct (decide (v = node)) as [->|Hvn]; [by apply Hall|].
    apply (Ic v w); auto. intros [->|?]%elem_of_cons; done.
Qed.

Lemma visit_level_inv file depth todo next st :
  0 <= depth -> search_inv file todo next st ->
  let '(st', next') := foldl (visit_node depth) (st, next) todo in
  search_inv file [] next' st' /\ visited st ⊆ visited st'.
Proof.
  intros Hd; revert next st; induction todo as [|node todo IH]; intros next st Hinv; [done|].
  cbn [foldl]. pose proof (visit_node_inv file todo depth node next st Hd Hinv) as Hv.
  destruct (visit_node depth (st, next) node) as [st1 next1]. destruct Hv as [Hinv1 Hsub1].
  specialize (IH next1 st1 Hinv1). destruct (foldl _ _ todo) as [st' next'].
  destruct IH as [? ?]. split; [done|]. by transitivity (visited st1).
Qed.

(** Every queued document was just visited for the first time. *)
Definition grows (acc acc' : bfs * list string) : Prop :=
  (size (visited acc'.1) + length acc.2 = size (visited acc.1) + length acc'.2)%nat.

Lemma foldl_grows {A} (f : bfs * list string -> A -> bfs * list string) l acc :
  (forall a x, grows a (f a x)) -> grows acc (foldl f acc l).
Proof.
  intros Hf; revert acc; induction l as [|x l IH]; intros acc; simpl; unfold grows in *; [lia|].
  specialize (Hf acc x). specialize (IH (f acc x)). lia.
Qed.

Lemma visit_level_grows depth todo acc : grows acc (foldl (visit_node depth) acc todo).
Proof.
  apply foldl_grows; intros a node. unfold visit_node. apply foldl_grows; intros [st next] c.
  unfold grows, visit_claimant; simpl. case_decide; [done|]; simpl.
  rewrite length_app, size_union, size_singleton by set_solver; simpl. lia.
Qed.

Lemma search_spec file fuel depth frontier st :
  0 <= depth -> search_inv file [] frontier st ->
  (size (({[ file ]} ∪ claimants) ∖ visited st) < fuel)%nat ->
  exists st', search fuel depth frontier st = Some st' /\ search_inv file [] [] st'.
Proof.
  revert depth frontier st; induction fuel as [|fuel IH]; intros depth frontier st Hd Hinv Hsz;
    [lia|]. destruct frontier as [|x frontier]; [by exists st|]. cbn [search].
  assert (Hinv' : search_inv file (x :: frontier) [] st).
  { destruct Hinv as [If Ib Id Iq Ia Ic Ibest]. constructor; auto.
    - intros v [Hv|[]%not_elem_of_nil]. apply Iq. by right.
    - intros v w Hv Ht _ Hw. apply (Ic v w); auto. apply not_elem_of_nil. }
  pose proof (visit_level_inv file (depth + 1) (x :: frontier) [] st ltac:(lia) Hinv') as Hv.
  pose proof (visit_level_grows (depth + 1) (x :: frontier) (st, [])) as Hg.
  destruct (foldl _ _ (x :: frontier)) as [st' following]. destruct Hv as [Hinv1 Hsub].
  unfold grows in Hg; simpl in Hg. destruct following as [|y following].
  - exists st'. split; [by destruct fuel|done].
  - apply IH; [lia|done|]. simpl in Hg.
    pose proof (inv_bound _ _ _ _ Hinv1) as Hb.
    pose proof (inv_bound _ _ _ _ Hinv) as Hb0.
    rewrite size_difference in Hsz |- * by done.
    pose proof (subseteq_size _ _ Hb). pose proof (subseteq_size _ _ Hb0). lia.
Qed.

Lemma search_inv_init file :
  search_inv file [] [file] (Bfs {[ file ]} ∅ None (-1)).
Proof.
  constructor; cbn [visited parents best best_depth].
  - by apply elem_of_singleton.
  - apply union_subseteq_l.
  - set_solver.
  - intros v [[]%not_elem_of_nil| ->%list_elem_of_singleton]. by apply elem_of_singleton.
  - intros v ->%elem_of_singleton. done.
  - intros v w ->%elem_of_singleton _ []. by apply list_elem_of_singleton.
  - split; [done|]. by intros v ->%elem_of_singleton.
Qed.

(** At the end of the search everything in the chain has been visited. *)
Lemma search_complete file st x m :
  search_inv file [] [] st -> x ∈ visited st -> tc claims_on x m -> m ∈ visited st.
Proof.
  intros Hinv Hx Hm. induction Hm as [x y Hxy|x y z Hxy _ IH]; [|apply IH];
    apply (inv_closed _ _ _ _ Hinv x y); auto using not_elem_of_nil.
Qed.

(** ** The walk as a whole *)

Lemma successor_path_opt_spec file :
  exists path, successor_path_opt file = Some path /\
    ((path = [] /\ forall m, in_chain file m -> valid m = false) \/
     (exists s, last path = Some s /\ linked file path /\ in_chain file s /\ valid s = true)).
Proof.
  unfold successor_path_opt.
  assert (Hfile : file ∈ ({[ file ]} : gset string)) by by apply elem_of_singleton.
  destruct (follow_total walk_fuel {[ file ]} file) as [[chain cycle] Hf].
  { unfold walk_fuel.
    assert (claimants ∖ {[ file ]} ⊆ claimants) as Hs%subseteq_size by set_solver. lia. }
  rewrite Hf; cbn [mbind option_bind]. pose proof (follow_spec _ _ _ _ _ Hfile Hf) as Hspec.
  assert (Hlink : linked file chain).
  { apply linked_of_lookup. intros i m Hm. by apply (Hspec i m). }
  destruct (pick chain cycle) as [i|] eqn:Hp.
  - eexists; split; [done|]. right. apply pick_spec in Hp as (s & Hs & Hvs). exists s.
    split_and!; [by rewrite (take_S_r _ _ s), last_snoc|by apply linked_take| |done].
    destruct (Hspec i s Hs) as [Hns _]. split; [intros ->; by apply Hns|].
    eapply linked_tc; [done|]. by eapply list_elem_of_lookup_2.
  - destruct (search_spec file walk_fuel 0 [file] (Bfs {[ file ]} ∅ None (-1))) as (st & -> & Hinv).
    { lia. } { apply search_inv_init. }
    { unfold walk_fuel; cbn [visited].
      assert (({[ file ]} ∪ claimants) ∖ {[ file ]} ⊆ claimants) as Hs%subseteq_size
        by set_solver. lia. }
    cbn [mbind option_bind]. pose proof (inv_best _ _ _ _ Hinv) as Hb.
    destruct (best st) as [b|].
    + destruct Hb as (Hbv & Hbf & Hvb).
      destruct (inv_anc _ _ _ _ Hinv b Hbv Hbf) as (n & Ha & Hn).
      destruct (climb_spec _ _ _ _ walk_fuel Ha) as (path & -> & Hh & Hl).
      { pose proof (subseteq_size _ _ (inv_bound _ _ _ _ Hinv)) as Hsz.
        pose proof (size_union_alt ({[ file ]} : gset string) claimants) as Hu.
        assert (claimants ∖ {[ file ]} ⊆ claimants) as Hs%subseteq_size by set_solver.
        rewrite size_singleton in Hu. unfold walk_fuel. lia. }
      exists (rev path). split; [done|]. right. exists b. split_and!; [|done| |done].
      * destruct path as [|x path]; simpl in Hh; simplify_eq. simpl. by rewrite last_snoc.
      * split; [done|]. by eapply anc_tc.
    + exists []. split; [done|]. left. split; [done|]. intros m Hm.
      apply Hb; [|by destruct Hm]. destruct Hm as [_ Hm].
      eapply search_complete; eauto. apply (inv_file _ _ _ _ Hinv).
Qed.

Lemma successor_path_spec file :
  (successor_path file = [] /\ forall m, in_chain file m -> valid m = false) \/
  (exists s, last (successor_path file) = Some s /\ linked file (successor_path file) /\
             in_chain file s /\ valid s = true).
Proof.
  unfold successor_path. destruct (successor_path_opt_spec file) as (path & -> & H). done.
Qed.

Lemma resolve_successor_sound file s :
  resolve_successor file = Some s -> in_chain file s /\ valid s = true.
Proof.
  unfold resolve_successor.
  destruct (successor_path_spec file) as [[-> _]|(t & -> & _ & ? & ?)]; [done|].
  by intros [= <-].
Qed.

Lemma resolve_successor_none_iff file :
  resolve_successor file = None <-> forall m, in_chain file m -> valid m = false.
Proof.
  unfold resolve_successor.
  destruct (successor_path_spec file) as [[-> Hall]|(t & -> & _ & Hin & Hv)]; [done|].
  split; [done|]. intros Hall. rewrite Hall in Hv; done.
Qed.
End walk.

(** ** The claim asserted last *)

Lemma latest_step_dates acc claim t :
  (acc.1 <> None /\ acc.2 = Some t) \/ claim.2 = Some t ->
  exists t', (latest_step acc claim).2 = Some t' /\ instant t <= instant t'.
Proof.
  destruct acc as [p b], claim as [f w]; simpl.
  destruct p as [p|], b as [b|], w as [w|]; try case_bool_decide;
    simpl; intros [[? ?]|?]; simplify_eq; eauto with lia.
Qed.

Lemma latest_step_some acc claim : (latest_step acc claim).1 <> None.
Proof.
  destruct acc as [[p|] [b|]], claim as [f [w|]]; simpl; try case_bool_decide; done.
Qed.

Lemma latest_fold_dates claims acc g t :
  (acc.1 <> None /\ acc.2 = Some t) \/ (g, Some t) ∈ claims ->
  exists t', (foldl latest_step acc claims).2 = Some t' /\ instant t <= instant t'.
Proof.
  revert acc t; induction claims as [|c claims IH]; intros acc t; simpl.
  - intros [[? ?]|[]%not_elem_of_nil]. eauto with lia.
  - rewrite elem_of_cons. intros H.
    assert (Hc : ((acc.1 <> None /\ acc.2 = Some t) \/ c.2 = Some t) \/ (g, Some t) ∈ claims).
    { destruct H as [?|[Heq|?]]; [by left; left| |by right]. left; right. by subst c. }
    destruct Hc as [Hc|Hc]; [|eauto].
    apply latest_step_dates in Hc as (t1 & H1 & Hle1).
    destruct (IH (latest_step acc c) t1) as (t' & ? & ?); [left; split; auto using latest_step_some|].
    exists t'. split; [done|lia].
Qed.

Lemma latest_fold_member claims acc f w :
  foldl latest_step acc claims = (Some f, w) -> acc = (Some f, w) \/ (f, w) ∈ claims.
Proof.
  revert acc; induction claims as [|[g v] claims IH]; intros acc; simpl; [by left|].
  intros [Hacc|?]%IH; [|right; by right].
  destruct acc as [[p|] [b|]]; simpl in Hacc;
    repeat (case_match; simpl in *); simplify_eq; auto; right; by left.
Qed.

(** ** Properties *)

(** C5: the supersession walk is exact.  What [resolve_successor] names is a
    document of the memo's chain (reachable through live claims, never the memo
    itself) whose own window holds at [now]; and it names nothing exactly when no
    document of the chain is valid then.  So a memo with a valid successor is
    never served as current, whatever the shape of the claims (chains, fan-in,
    cycles, self-claims). *)
Theorem resolve_successor_exact sup ec known now windows file :
  (resolve_successor sup ec known now windows file = None <->
   forall m, in_chain sup ec known file m -> valid now windows m = false) /\
  (forall s, resolve_successor sup ec known now windows file = Some s ->
     in_chain sup ec known file s /\ valid now windows s = true).
Proof.
  split; [apply resolve_successor_none_iff|apply resolve_successor_sound].
Qed.

(** The walk terminates.  Every loop of [successor_path] (the primary chain,
    the breadth-first search and the climb back along [parents]) finishes within
    one turn per claimant plus two, cycles included, and the path it answers is
    linked claim by claim from the memo. *)
Theorem successor_path_terminates sup ec known now windows file :
  exists path, successor_path_opt sup ec known now windows file = Some path /\
    linked sup ec known file path.
Proof.
  destruct (successor_path_opt_spec sup ec known now windows file)
    as (path & Hp & [[-> _]|(s & _ & Hl & _)]); eauto.
  by exists [].
Qed.

(** Point-in-time replay.  With a replay instant, every claim a step follows
    was asserted by that instant (or is undated); and the claim the chain follows
    is one of them, asserted no earlier than any other dated one. *)
Theorem replay_follows_asserted_claims sup m k cur claims :
  m !! cur = Some claims ->
  (forall c, claims_on sup (Some m) (Some k) cur c ->
     c <> cur /\
     exists w, (c, w) ∈ claims /\ (forall t, w = Some t -> instant t <= instant k)) /\
  (forall p, (live sup (Some m) (Some k) cur).1 = Some p ->
     exists w, (p, w) ∈ claims /\
       forall g t, g <> cur -> (g, Some t) ∈ claims -> instant t <= instant k ->
         exists t', w = Some t' /\ instant t <= instant t').
Proof.
  intros Hm.
  assert (Hprim : forall p, (live sup (Some m) (Some k) cur).1 = Some p ->
    exists w, ((p, w) ∈ claims /\ p <> cur /\ asserted_by (Some k) w = true) /\
      forall g t, g <> cur -> (g, Some t) ∈ claims -> instant t <= instant k ->
         exists t', w = Some t' /\ instant t <= instant t').
  { unfold live, live_claims; cbn [fst]. intros p. case_decide as Hd; [done|]. rewrite Hm.
    destruct (foldl _ _ _) as [p' w] eqn:Hf; cbn [fst]. intros ->. exists w. split.
    - apply latest_fold_member in Hf as [Hf|Hf]; [done|].
      apply list_elem_of_filter in Hf. cbn [fst snd] in Hf. tauto.
    - intros g t Hg Hin Hle.
      destruct (latest_fold_dates (filter (fun c => c.1 <> cur /\ asserted_by (Some k) c.2 = true) claims)
                  (None, None) g t) as (t' & Ht' & Hle').
      + right. apply list_elem_of_filter. cbn [fst snd asserted_by].
        split_and!; [done|by apply bool_decide_eq_true|done].
      + rewrite Hf in Ht'. simpl in Ht'. eauto. }
  split.
  - intros c [Hp|(Hne & m' & claims' & w & [= <-] & Hm' & Hin & Ha)]%elem_of_every.
    + destruct (Hprim c Hp) as (w & (Hin & Hne & Ha) & _). split; [done|]. exists w.
      split; [done|]. intros t ->. simpl in Ha. by apply bool_decide_eq_true in Ha.
    + split; [done|]. simplify_eq. exists w. split; [done|]. intros t ->.
      simpl in Ha. by apply bool_decide_eq_true in Ha.
  - intros p Hp. destruct (Hprim p Hp) as (w & (? & _) & ?). eauto.
Qed.

(** The chain a -> b -> c of the source's own example: [b] was asserted before
    the instant, [c] after it. *)
Definition replay_example : EdgeCandidates :=
  {[ "a" := [("b", Some (Aware 10)); ("d", Some (Aware 4))]; "b" := [("c", Some (Aware 30))] ]}.

Lemma replay_follows_asserted_claims_witness :
  replay_example !! "a" = Some [("b", Some (Aware 10)); ("d", Some (Aware 4))] /\
  resolve_successor ∅ (Some replay_example) (Some (Aware 20)) None None "a" = Some "b" /\
  exists w, ("b", w) ∈ [("b", Some (Aware 10)); ("d", Some (Aware 4))] /\
    forall g t, g <> "a" -> (g, Some t) ∈ [("b", Some (Aware 10)); ("d", Some (Aware 4))] ->
      instant t <= instant (Aware 20) -> exists t', w = Some t' /\ instant t <= instant t'.
Proof.
  assert (H : replay_example !! "a" = Some [("b", Some (Aware 10)); ("d", Some (Aware 4))])
    by (vm_compute; reflexivity).
  split; [exact H|]. split; [vm_compute; reflexivity|].
  apply (proj2 (replay_follows_asserted_claims ∅ replay_example (Aware 20) "a" _ H) "b").
  vm_compute; reflexivity.
Defined.

(** The chain's deepest valid member is the one named.  The chain followed is
    the primary claim at each step, without repetition, to a document nobody
    claims or to one whose primary claim comes back round; when some member is
    valid at [now], the one named is the last valid member of a chain that ends,
    and the first valid member of one that comes back round (a cycle has no
    deepest member).  With no window known every member is valid, so this is the
    chain's terminal successor, or a cycle member's direct successor. *)
Theorem deepest_valid_member_hides sup ec known now windows file :
  exists chain cycle,
    primaries sup ec known file chain /\ NoDup (file :: chain) /\
    chain_end sup ec known file chain cycle /\
    forall i m, chain !! i = Some m -> valid now windows m = true ->
      (forall j m', (if cycle then j < i else i < j)%nat -> chain !! j = Some m' ->
                    valid now windows m' = false) ->
      resolve_successor sup ec known now windows file = Some m.
Proof.
  destruct (follow_total sup ec known (walk_fuel sup ec) {[ file ]} file) as [[chain cycle] Hf].
  { unfold walk_fuel.
    assert (claimants sup ec ∖ {[ file ]} ⊆ claimants sup ec) as Hs%subseteq_size by set_solver.
    lia. }
  assert (Hfile : file ∈ ({[ file ]} : gset string)) by by apply elem_of_singleton.
  destruct (follow_primaries _ _ _ _ _ _ _ _ Hfile Hf) as [Hp He].
  exists chain, cycle. split_and!; [done| |..].
  - by eapply follow_nodup_start.
  - unfold chain_end. destruct cycle; [|done]. destruct He as (r & ? & Hr). exists r. split; [done|].
    rewrite elem_of_cons. rewrite elem_of_singleton in Hr. done.
  - intros i m Hi Hv Hbefore. unfold resolve_successor, successor_path, successor_path_opt.
    rewrite Hf; cbn [mbind option_bind]. rewrite (pick_first now windows chain cycle i m) by done.
    simpl. by rewrite (take_S_r _ _ m), last_snoc.
Qed.

(** The cycle test is exact.  [on_cycle] ends within one turn per claimant, and
    answers true exactly when following the first live claimant of each step from
    the memo reaches a document that leads back to itself. *)
Theorem on_cycle_exact sup ec known file :
  is_Some (on_cycle_loop sup ec known (walk_fuel sup ec) {[ file ]} file) /\
  (on_cycle sup ec known file = true <->
   exists x, rtc (first_claimant sup ec known) file x /\ tc (first_claimant sup ec known) x x).
Proof.
  destruct (on_cycle_total sup ec known (walk_fuel sup ec) {[ file ]} file) as [b Hb].
  { unfold walk_fuel.
    assert (claimants sup ec ∖ {[ file ]} ⊆ claimants sup ec) as Hs%subseteq_size by set_solver. lia. }
  split; [by eexists|]. unfold on_cycle. rewrite Hb. simpl.
  apply (on_cycle_sound _ _ _ _ _ _ file) in Hb; [|done|by intros y ->%elem_of_singleton..].
  destruct b; [by split|]. split; [done|]. destruct Hb as (e & He & Hend).
  intros (x & Hx & Hxx). destruct (cycle_no_end sup ec known file x e Hx Hxx He) as [z Hz].
  by destruct (Hend z).
Qed.
