(* ===== verification/References.v ===== *)
(** * References: the file a [supersedes:] reference names
    (src/recall/supersession.py, [reference_path_key] and [ReferenceIndex])

    References are written by people; files are keyed by root and path.  The
    index matches one to the other and never guesses between two candidates. *)
From S2P Require Import Prelude Text SourceIdentity.

Local Open Scope nat_scope.

(** [_DOCUMENT_EXTENSIONS], longest first. *)
Definition DOCUMENT_EXTENSIONS : list string := [".markdown"; ".mdx"; ".md"].

(** [_fold]. *)
Definition fold_name (value : string) : string := casefold (nfc value).

(** [_strip_document_extension]. *)
Fixpoint strip_extension (extensions : list string) (value : string) : string :=
  match extensions with
  | [] => value
  | e :: rest =>
      if ends_with (lower value) e && (length (chars e) <? length (chars value))
      then drop_last (length (chars e)) value
      else strip_extension rest value
  end.

Definition strip_document_extension (value : string) : string :=
  strip_extension DOCUMENT_EXTENSIONS value.

(** [while len(v) >= 2 and v[0] == "[" and v[-1] == "]": v = v[1:-1].strip()]. *)
Fixpoint unwrap (fuel : nat) (v : list ascii) : list ascii :=
  match fuel with
  | O => v
  | S fuel' =>
      match v with
      | "["%char :: rest =>
          match reverse rest with
          | "]"%char :: inner => unwrap fuel' (strip_chars (reverse inner))
          | _ => v
          end
      | _ => v
      end
  end.

(** [while v.startswith("./"): v = v[2:]]. *)
Fixpoint drop_dot_slash (l : list ascii) : list ascii :=
  match l with
  | "."%char :: "/"%char :: rest => drop_dot_slash rest
  | _ => l
  end.

(** [reference_path_key]. *)
Definition reference_path_key (value : string) : string :=
  let v := chars (strip value) in
  let v := unwrap (length v) v in
  let v := chars (replace_char "\" "/" (unchars v)) in
  let v := drop_while (fun c => bool_decide (c = "/"%char)) (drop_dot_slash v) in
  let normalised := if decide (v = []) then "" else normpath (unchars v) in
  fold_name (strip_document_extension (if decide (normalised <> ".") then normalised else "")).

(** [reference_stem_key]. *)
Definition reference_stem_key (value : string) : string := last_segment (reference_path_key value).

(** [_dangling_key]. *)
Definition dangling_key (reference : string) : string := last_segment (replace_char "\" "/" reference).

Example key_ex1 : reference_path_key "[[a/Notes]]" = "a/notes". Proof. vm_compute; reflexivity. Qed.
Example key_ex2 : reference_path_key "a\notes.md" = "a/notes". Proof. vm_compute; reflexivity. Qed.
Example key_ex3 : reference_path_key "./a/notes.MD" = "a/notes". Proof. vm_compute; reflexivity. Qed.
Example key_ex4 : reference_path_key " [ .md ] " = ".md". Proof. vm_compute; reflexivity. Qed.

Inductive match_kind := Resolved | Ambiguous | Dangling | SelfClaim.

#[export] Instance match_kind_eq_dec : EqDecision match_kind.
Proof. solve_decision. Defined.

(** A node: its root-relative file, its root and the first source seen. *)
Record node := Node { node_file : string; node_root : option string; node_source : option string }.

Record ReferenceIndex := {
  ri_collided : gset string;
  ri_nodes : list (string * node);
  ri_ghosts : gset string;
  ri_staged : gset string;
  ri_by_path : gmap string (list string);
  ri_by_stem : gmap string (list string)
}.

Section index.
Context `{UriReader}.

(** [self.key], with the collided set as an argument: the constructor calls it
    before the record exists. *)
Definition key_in (collided : gset string) (file : string) (source : option string) : string :=
  match source with
  | Some s => if decide (file ∈ collided /\ s <> "") then s else file
  | None => file
  end.

Definition key (idx : ReferenceIndex) (file : string) (source : option string) : string :=
  key_in (ri_collided idx) file source.

(** The roots each file is held under, unknown roots left out. *)
Definition roots_of (pairs : list (string * option string)) (file : string) : list string :=
  dedup (omap (fun p => if decide (p.1 = file) then source_root p.2 p.1 else None) pairs).

Definition collided_files (pairs : list (string * option string)) : gset string :=
  list_to_set (filter (fun f => 1 < length (roots_of pairs f)) (pairs.*1)).

(** [self.nodes]: the first pair seen under a key describes it. *)
Definition index_nodes (collided : gset string) (pairs : list (string * option string)) :
    list (string * node) :=
  foldl (fun nodes p =>
           let k := key_in collided p.1 p.2 in
           match odict_get k nodes with
           | Some _ => nodes
           | None => nodes ++ [(k, Node p.1 (source_root p.2 p.1) p.2)]
           end) [] pairs.

(** [ReferenceIndex.__init__]. *)
Definition make_index (files ghosts staged : list (string * option string)) : ReferenceIndex :=
  let ghost_pairs := dedup ghosts in
  let pairs := dedup (files ++ ghost_pairs) in
  let collided := collided_files pairs in
  let nodes := index_nodes collided pairs in
  let keys l := list_to_set (map (fun p => key_in collided p.1 p.2) l) in
  {| ri_collided := collided;
     ri_nodes := nodes;
     ri_ghosts := keys ghost_pairs;
     ri_staged := keys staged;
     ri_by_path := group_by (fun n => reference_path_key (node_file n.2)) fst nodes;
     ri_by_stem := group_by (fun n => last_segment (reference_path_key (node_file n.2))) fst nodes |}.

Definition file_of (idx : ReferenceIndex) (k : string) : option string :=
  node_file <$> odict_get k (ri_nodes idx).
Definition root_of_key (idx : ReferenceIndex) (k : string) : option string :=
  odict_get k (ri_nodes idx) ≫= node_root.

(** [_indexed_first]. *)
Definition indexed_first (idx : ReferenceIndex) (keys : list string) : list string :=
  if decide (ri_ghosts idx = ∅) then keys
  else
    let indexed := filter (fun k => k ∉ ri_ghosts idx) keys in
    if decide (length indexed = length keys) then keys
    else
      let honest := filter (fun k => k ∉ ri_staged idx) indexed in
      let ghosts := filter (fun k => k ∈ ri_ghosts idx) keys in
      if decide (honest = []) then ghosts
      else honest ++ filter (fun k => file_of idx k ∈ map (file_of idx) honest) ghosts.

(** [_pick]. *)
Definition pick_candidate (idx : ReferenceIndex) (others : list string)
    (claimant_root : option string) : match_kind * list string :=
  if decide (length others = 1) then (Resolved, others)
  else if decide (length (dedup (map (file_of idx) others)) = 1) then
    let same_root := filter (fun k => root_of_key idx k = claimant_root) others in
    if decide (length same_root = 1) then (Resolved, same_root) else (Ambiguous, others)
  else (Ambiguous, others).

(** [match]. *)
Definition match_reference (idx : ReferenceIndex) (reference claimant : string) :
    match_kind * list string :=
  let claimant_file := file_of idx claimant in
  let claimant_root := root_of_key idx claimant in
  let path := reference_path_key reference in
  let by_stem :=
    let stem := last_segment path in
    if decide (stem = "") then (Dangling, [])
    else
      let found := default [] (ri_by_stem idx !! stem) in
      let others := indexed_first idx (filter (fun k => k <> claimant) found) in
      if decide (others <> []) then pick_candidate idx others claimant_root
      else if decide (found <> [] /\ Some path = (reference_path_key <$> claimant_file))
      then (SelfClaim, []) else (Dangling, []) in
  if contains_char "/" path then
    let found := default [] (ri_by_path idx !! path) in
    let others := indexed_first idx (filter (fun k => k <> claimant) found) in
    if decide (others <> []) then pick_candidate idx others claimant_root
    else if decide (found <> []) then (SelfClaim, []) else by_stem
  else by_stem.

(** [resolve_reference]: the same rule over a folder of memo files. *)
Definition resolve_reference (reference : string) (files : list string) (claimant : string) :
    match_kind * list string :=
  match_reference (make_index (map (fun f => (f, None)) files) [] []) reference claimant.
End index.

(** ** Lemmas *)

Section index_lemmas.
Context `{UriReader}.

Lemma make_index_by_path files ghosts staged p k :
  let idx := make_index files ghosts staged in
  k ∈ default [] (ri_by_path idx !! p) <->
  exists n, (k, n) ∈ ri_nodes idx /\ reference_path_key (node_file n) = p.
Proof.
  simpl. rewrite group_by_lookup, list_elem_of_fmap. setoid_rewrite list_elem_of_filter.
  split; [intros ([k' n] & -> & ? & ?); eauto|intros (n & ? & ?); by exists (k, n)].
Qed.

Lemma make_index_by_stem files ghosts staged p k :
  let idx := make_index files ghosts staged in
  k ∈ default [] (ri_by_stem idx !! p) <->
  exists n, (k, n) ∈ ri_nodes idx /\ reference_stem_key (node_file n) = p.
Proof.
  simpl. rewrite group_by_lookup, list_elem_of_fmap. setoid_rewrite list_elem_of_filter.
  split; [intros ([k' n] & -> & ? & ?); eauto|intros (n & ? & ?); by exists (k, n)].
Qed.

Lemma elem_of_indexed_first idx keys k : k ∈ indexed_first idx keys -> k ∈ keys.
Proof.
  unfold indexed_first. repeat case_decide; try done.
  - rewrite list_elem_of_filter. tauto.
  - rewrite elem_of_app, !list_elem_of_filter. tauto.
Qed.

(** An upload never displaces a removed memo's ghost. *)
Lemma indexed_first_no_upload idx keys g k :
  g ∈ keys -> g ∈ ri_ghosts idx -> k ∈ indexed_first idx keys ->
  k ∈ ri_staged idx -> k ∈ ri_ghosts idx.
Proof.
  intros Hg Hgg. unfold indexed_first.
  case_decide as He; [rewrite He in Hgg; by apply not_elem_of_empty in Hgg|].
  case_decide as Hlen.
  - exfalso. assert (Hlt : length (filter (fun k => k ∉ ri_ghosts idx) keys) < length keys); [|lia].
    apply length_filter_lt with g; [done|]. intros Hn. by apply Hn.
  - case_decide; [rewrite list_elem_of_filter; tauto|].
    rewrite elem_of_app, !list_elem_of_filter. tauto.
Qed.

Lemma indexed_first_not_nil idx keys g :
  g ∈ keys -> g ∈ ri_ghosts idx -> indexed_first idx keys <> [].
Proof.
  intros Hg Hgg. unfold indexed_first. repeat case_decide.
  - intros ->. by apply not_elem_of_nil in Hg.
  - intros ->. by apply not_elem_of_nil in Hg.
  - intros He. assert (Hin : g ∈ filter (fun k => k ∈ ri_ghosts idx) keys)
      by by rewrite list_elem_of_filter.
    rewrite He in Hin. by apply not_elem_of_nil in Hin.
  - destruct (filter (fun k => k ∉ ri_staged idx) _); done.
Qed.

Lemma pick_candidate_spec idx others root kind found :
  others <> [] -> pick_candidate idx others root = (kind, found) ->
  (kind = Resolved /\ (exists k, found = [k] /\ k ∈ others /\
     forall k', k' ∈ others -> k' = k \/
       (file_of idx k' = file_of idx k /\ root_of_key idx k = root /\
        (root_of_key idx k' <> root \/ k' = k)))) \/
  (kind = Ambiguous /\ found = others /\ 1 < length others).
Proof.
  intros Hne. unfold pick_candidate. case_decide as Hlen; [|case_decide as Hfile; [case_decide as Hroot|]];
    intros [= <- <-].
  - left. split; [done|]. destruct others as [|k [|]]; try done. exists k.
    split_and!; [done|by left|]. intros k' ->%list_elem_of_singleton. by left.
  - left. split; [done|].
    set (same := filter (fun k => root_of_key idx k = root) others) in *.
    assert (Hin : forall x, x ∈ same <-> root_of_key idx x = root /\ x ∈ others).
    { intros x. unfold same. by rewrite list_elem_of_filter. }
    destruct same as [|k [|]]; try done. exists k.
    assert (Hk : root_of_key idx k = root /\ k ∈ others) by (apply Hin; by left).
    split_and!; [done|tauto|]. intros k' Hk'. right. split_and!; [|tauto|].
    + assert (Hd : forall x, x ∈ others -> file_of idx x ∈ dedup (map (file_of idx) others)).
      { intros x Hx. rewrite elem_of_dedup. by apply list_elem_of_fmap_2. }
      destruct (dedup (map (file_of idx) others)) as [|f [|]]; try done.
      pose proof (Hd k' Hk') as H1%list_elem_of_singleton.
      pose proof (Hd k (proj2 Hk)) as H2%list_elem_of_singleton. congruence.
    + destruct (decide (root_of_key idx k' = root)) as [Hr|Hr]; [right|by left].
      apply list_elem_of_singleton, Hin. done.
  - right. split_and!; [done|done|]. destruct others as [|a [|b l]]; simpl in *; try done; lia.
  - right. split_and!; [done|done|]. destruct others as [|a [|b l]]; simpl in *; try done; lia.
Qed.

(** The two levels of candidates: the same folded path, for a reference that
    names a folder, and the same folded stem. *)
Definition path_candidate (idx : ReferenceIndex) (reference claimant k : string) : Prop :=
  contains_char "/" (reference_path_key reference) = true /\ k <> claimant /\
  exists n, (k, n) ∈ ri_nodes idx /\
    reference_path_key (node_file n) = reference_path_key reference.

Definition stem_candidate (idx : ReferenceIndex) (reference claimant k : string) : Prop :=
  k <> claimant /\ exists n, (k, n) ∈ ri_nodes idx /\
    reference_stem_key (node_file n) = reference_stem_key reference.

Definition path_keys (idx : ReferenceIndex) (reference claimant : string) : list string :=
  filter (fun k => k <> claimant) (default [] (ri_by_path idx !! reference_path_key reference)).
Definition stem_keys (idx : ReferenceIndex) (reference claimant : string) : list string :=
  filter (fun k => k <> claimant) (default [] (ri_by_stem idx !! reference_stem_key reference)).

Lemma elem_of_path_keys files ghosts staged reference claimant k :
  let idx := make_index files ghosts staged in
  contains_char "/" (reference_path_key reference) = true ->
  k ∈ path_keys idx reference claimant <-> path_candidate idx reference claimant k.
Proof.
  intros idx Hc. unfold path_keys, path_candidate.
  rewrite list_elem_of_filter. unfold idx. rewrite make_index_by_path. tauto.
Qed.

Lemma elem_of_stem_keys files ghosts staged reference claimant k :
  let idx := make_index files ghosts staged in
  k ∈ stem_keys idx reference claimant <-> stem_candidate idx reference claimant k.
Proof.
  intros idx. unfold stem_keys, stem_candidate.
  rewrite list_elem_of_filter. unfold idx. rewrite make_index_by_stem. tauto.
Qed.

(** An answer that comes from one level of candidates. *)
Definition from_level (idx : ReferenceIndex) (reference claimant : string)
    (answer : match_kind * list string) : Prop :=
  exists keys, indexed_first idx keys <> [] /\
    pick_candidate idx (indexed_first idx keys) (root_of_key idx claimant) = answer /\
    ((contains_char "/" (reference_path_key reference) = true /\
      keys = path_keys idx reference claimant) \/
     (keys = stem_keys idx reference claimant /\
      (contains_char "/" (reference_path_key reference) = true ->
       indexed_first idx (path_keys idx reference claimant) = []))).

Lemma match_stem_cases idx reference claimant (P : Prop) `{Decision P} :
  (contains_char "/" (reference_path_key reference) = true ->
   indexed_first idx (path_keys idx reference claimant) = []) ->
  let answer :=
    if decide (reference_stem_key reference = "") then (Dangling, [])
    else if decide (indexed_first idx (stem_keys idx reference claimant) <> [])
    then pick_candidate idx (indexed_first idx (stem_keys idx reference claimant))
           (root_of_key idx claimant)
    else if decide P then (SelfClaim, []) else (Dangling, []) in
  from_level idx reference claimant answer \/
  answer = (SelfClaim, []) \/ answer = (Dangling, []).
Proof.
  intros Hnone. cbn zeta. case_decide; [by right; right|].
  case_decide as Hne; [left|right; case_decide; [by left|by right]].
  eexists. split; [exact Hne|]. split; [done|]. right. split; [done|exact Hnone].
Qed.

Lemma match_reference_cases idx reference claimant :
  from_level idx reference claimant (match_reference idx reference claimant) \/
  match_reference idx reference claimant = (SelfClaim, []) \/
  match_reference idx reference claimant = (Dangling, []).
Proof.
  unfold match_reference. fold (reference_stem_key reference).
  fold (path_keys idx reference claimant). fold (stem_keys idx reference claimant).
  destruct (contains_char "/" (reference_path_key reference)) eqn:Hc.
  - case_decide as Hne.
    + left. eexists. split; [exact Hne|]. split; [done|]. by left.
    + case_decide; [by right; left|]. apply match_stem_cases. intros _.
      done.
  - apply match_stem_cases. by rewrite Hc.
Qed.

(** The claimant is never its own candidate. *)
Lemma match_found_ne idx reference claimant k :
  k ∈ (match_reference idx reference claimant).2 -> k <> claimant.
Proof.
  intros Hk. destruct (match_reference_cases idx reference claimant) as [(keys & Hne & Hp & Hkeys)|[He|He]];
    [|rewrite He in Hk; by apply not_elem_of_nil in Hk..].
  destruct (match_reference idx reference claimant) as [kind found]. simpl in Hk.
  assert (Hin : k ∈ indexed_first idx keys).
  { apply pick_candidate_spec in Hp as [(-> & k' & -> & Hk' & _)|(-> & -> & Hlen)]; [|done|done].
    by apply list_elem_of_singleton in Hk as ->. }
  apply elem_of_indexed_first in Hin. unfold path_keys, stem_keys in Hkeys.
  destruct Hkeys as [[_ ->]|[-> _]]; apply list_elem_of_filter in Hin; tauto.
Qed.

(** A resolved reference names exactly one document, not the claimant. *)
Lemma match_resolved idx reference claimant found :
  match_reference idx reference claimant = (Resolved, found) ->
  exists k, found = [k] /\ k <> claimant.
Proof.
  intros Hm. pose proof (match_found_ne idx reference claimant) as Hne. rewrite Hm in Hne.
  destruct (match_reference_cases idx reference claimant) as [(keys & Hn & Hp & _)|[He|He]];
    [|congruence..].
  rewrite Hm in Hp. apply pick_candidate_spec in Hp as [(_ & k & -> & _)|(? & _)]; [|done|done].
  exists k. split; [done|]. apply Hne. by left.
Qed.
End index_lemmas.

(** ** Properties *)

(** A reference is resolved, never guessed.  [match] answers one candidate, or
    says the reference is ambiguous (naming at least two candidates), dangling or
    a self-claim (naming none).  The claimant is never its own candidate, and
    every candidate carries the reference's folded path (only for a reference that
    names a folder) or its folded stem. *)
Theorem match_reference_candidates `{UriReader} files ghosts staged reference claimant :
  let idx := make_index files ghosts staged in
  let '(kind, found) := match_reference idx reference claimant in
  match kind with
  | Resolved => exists k, found = [k]
  | Ambiguous => 1 < length found
  | Dangling | SelfClaim => found = []
  end /\
  forall k, k ∈ found ->
    path_candidate idx reference claimant k \/ stem_candidate idx reference claimant k.
Proof.
  intros idx. destruct (match_reference idx reference claimant) as [kind found] eqn:Hm.
  destruct (match_reference_cases idx reference claimant) as [(keys & Hne & Hp & Hk)|[He|He]];
    rewrite Hm in *; [|simplify_eq..].
  - assert (Hcand : forall k, k ∈ indexed_first idx keys ->
        path_candidate idx reference claimant k \/ stem_candidate idx reference claimant k).
    { intros k Hin%elem_of_indexed_first. destruct Hk as [[Hc ->]|[-> _]].
      - left. by apply elem_of_path_keys.
      - right. by apply elem_of_stem_keys in Hin. }
    apply pick_candidate_spec in Hp as [(-> & k & -> & Hk' & _)|(-> & -> & Hlen)]; [|auto|done].
    split; [eauto|]. intros k' ->%list_elem_of_singleton. auto.
  - split; [done|]. by intros k ?%not_elem_of_nil.
  - split; [done|]. by intros k ?%not_elem_of_nil.
Qed.

(** A removed memo keeps its name against uploads.  When a removed memo's ghost
    is among the documents a folder reference names, nothing in the answer is a
    staged upload (unless it is the removed memo's own key): an upload named like a
    forgotten memo cannot take a claim over. *)
Theorem upload_never_displaces_ghost `{UriReader} files ghosts staged reference claimant g k :
  let idx := make_index files ghosts staged in
  g ∈ ri_ghosts idx -> path_candidate idx reference claimant g ->
  k ∈ (match_reference idx reference claimant).2 ->
  k ∈ ri_ghosts idx \/ k ∉ ri_staged idx.
Proof.
  intros idx Hg Hcand Hk.
  destruct (decide (k ∈ ri_staged idx)) as [Hst|]; [left|by right].
  destruct (match_reference_cases idx reference claimant) as [(keys & Hne & Hp & Hkeys)|[He|He]];
    [|rewrite He in Hk; by apply not_elem_of_nil in Hk..].
  assert (Hgk : g ∈ path_keys idx reference claimant).
  { apply elem_of_path_keys; [|done]. by destruct Hcand. }
  assert (Hkeys' : keys = path_keys idx reference claimant).
  { destruct Hkeys as [[_ ->]|[_ Hnil]]; [done|].
    assert (Hnn : indexed_first idx (path_keys idx reference claimant) <> []).
    { apply indexed_first_not_nil with g; done. }
    rewrite Hnil in Hnn; [done|]. by destruct Hcand. }
  subst keys. apply (indexed_first_no_upload idx _ g k Hgk Hg); [|done].
  destruct (match_reference idx reference claimant) as [kind found]. simpl in Hk.
  apply pick_candidate_spec in Hp as [(-> & k' & -> & Hk' & _)|(-> & -> & Hlen)]; [|done|done].
  by apply list_elem_of_singleton in Hk as ->.
Qed.

Definition upload_pair : string * option string := ("mem/a.md", Some "/idx/uploads/t/mem/a.md").
Definition ghost_pair : string * option string := ("mem/a.md", Some "/r/mem/a.md").

Lemma upload_never_displaces_ghost_witness :
  let idx := make_index [("mem/b.md", Some "/r/mem/b.md"); upload_pair] [ghost_pair] [upload_pair] in
  match_reference idx "mem/a.md" "mem/b.md" = (Resolved, ["/r/mem/a.md"]) /\
  ("/r/mem/a.md" ∈ ri_ghosts idx \/ "/r/mem/a.md" ∉ ri_staged idx).
Proof.
  intros idx.
  assert (Hm : match_reference idx "mem/a.md" "mem/b.md" = (Resolved, ["/r/mem/a.md"]))
    by (vm_compute; reflexivity).
  split; [exact Hm|].
  apply (upload_never_displaces_ghost [("mem/b.md", Some "/r/mem/b.md"); upload_pair]
           [ghost_pair] [upload_pair] "mem/a.md" "mem/b.md" "/r/mem/a.md" "/r/mem/a.md").
  - by_decide.
  - split; [vm_compute; reflexivity|]. split; [discriminate|].
    exists (Node "mem/a.md" (Some "/r/") (Some "/r/mem/a.md")).
    split; [|vm_compute; reflexivity].
    apply list_elem_of_lookup. exists 2. vm_compute. reflexivity.
  - fold idx. rewrite Hm. by left.
Defined.
