(* ===== verification/Resolver.v ===== *)
(** * Resolver: one pass from scan rows to the supersession graph
    (src/recall/supersession.py, [_resolve_rows] and what it is made of)

    Every store and every reader resolves [supersedes:] claims through this pass:
    rows are read, references matched ([References]), claims collected per target
    with their dates, the memos removed by a forget stand in as ghosts, and the
    memos withdrawn as mistakes are spliced out. *)
From S2P Require Import Prelude Text Float64 Frontmatter SourceIdentity References Supersession.

Local Open Scope Z_scope.

(** [SupersessionRow]: at least (file, supersedes, first_indexed); then the source,
    and the two raw bounds. *)
Record SupersessionRow := Row {
  row_file : value; row_supersedes : value; row_first : value; row_more : list value
}.

(** [parse_window]: None is unknown. *)
Definition parse_window (valid_from valid_until : value) : option Window :=
  match validity_bounds_of valid_from valid_until with
  | Ok w => Some w
  | Raise _ => None
  end.

Record RowParts := Parts {
  rp_file : option string; rp_supersedes : option string; rp_first : option datetime;
  rp_source : option string; rp_from : value; rp_until : value; rp_has_window : bool
}.

Definition as_time (v : value) : option datetime := match v with VTime d => Some d | _ => None end.

(** [_row_parts]. *)
Definition row_parts (row : SupersessionRow) : RowParts :=
  let more := row_more row in
  let has_window := bool_decide (3 <= length more)%nat in
  {| rp_file := as_str (row_file row);
     rp_supersedes := as_str (row_supersedes row);
     rp_first := as_time (row_first row);
     rp_source := (more !! 0%nat) ≫= as_str;
     rp_from := if has_window then default VNone (more !! 1%nat) else VNone;
     rp_until := if has_window then default VNone (more !! 2%nat) else VNone;
     rp_has_window := has_window |}.

Definition with_supersedes (p : RowParts) (target : string) : RowParts :=
  {| rp_file := rp_file p; rp_supersedes := Some target; rp_first := rp_first p;
     rp_source := rp_source p; rp_from := rp_from p; rp_until := rp_until p;
     rp_has_window := rp_has_window p |}.

(** A Python [str | None] used as a condition. *)
Definition text_of (o : option string) : option string :=
  match o with Some s => if decide (s = "") then None else Some s | None => None end.

(** [_claim_rows]. *)
Definition claim_rows (rows : list SupersessionRow) : list RowParts :=
  map row_parts rows ≫= fun parts =>
    let targets := match text_of (rp_supersedes parts) with
                   | Some s => supersedes_targets (VStr s)
                   | None => []
                   end in
    if decide (1 < length targets)%nat then map (with_supersedes parts) targets else [parts].

(** [RecordClaim] and [SupersessionRecord]. *)
Record RecordClaim := Claim {
  rc_target : string; rc_first : option datetime; rc_from : value; rc_until : value
}.

Definition FORGOTTEN_RECORD : string := "supersession_forgotten".
Definition WITHDRAWN_RECORD : string := "supersession_withdrawn".

Record SupersessionRecord := Record_ {
  sr_kind : string; sr_file : string; sr_source : string; sr_claims : list RecordClaim
}.

(** [records_from_rows]: one record per source that claims something. *)
Definition record_step (acc : list (string * string) * list (string * list RecordClaim))
    (p : RowParts) : list (string * string) * list (string * list RecordClaim) :=
  let '(files, claims) := acc in
  match text_of (rp_file p), text_of (rp_source p) with
  | Some file, Some source =>
      let files := match odict_get source files with Some _ => files | None => odict_set source file files end in
      match text_of (rp_supersedes p) with
      | Some s => (files, odict_push source (Claim s (rp_first p) (rp_from p) (rp_until p)) claims)
      | None => (files, claims)
      end
  | _, _ => acc
  end.

Definition records_from_rows (kind : string) (rows : list SupersessionRow) : list SupersessionRecord :=
  let '(files, claims) := foldl record_step ([], []) (map row_parts rows) in
  map (fun source => Record_ kind (default "" (odict_get source files)) source
                       (default [] (odict_get source claims)))
    (sorted_strings (claims.*1)).

Section resolver.
Context `{UriReader}.

Abbreviation pair := (string * option string)%type.

(** [_standing_records]: the records whose memo is not indexed. *)
Definition root_key (source : option string) (file : string) : option string :=
  match text_of source with Some s => source_root (Some s) file | None => None end.

Definition held_under (pairs : list pair) (root : option string) : list string :=
  map (fun p => nfc p.1) (filter (fun p => root_key p.2 p.1 = root) pairs).

Definition stands (sources : list string) (pairs staged : list pair) (r : SupersessionRecord) : bool :=
  let elsewhere := map (fun p => nfc p.1) (filter (fun p => p ∉ staged) pairs) in
  if decide (nfc (sr_source r) ∈ map nfc sources) then false
  else
    let name := nfc (sr_file r) in
    let held := held_under pairs (root_key (Some (sr_source r)) (sr_file r)) in
    if decide (held <> []) then negb (bool_decide (name ∈ held))
    else negb (bool_decide (name ∈ elsewhere)).

Definition standing_records (records : list SupersessionRecord) (sources : list string)
    (pairs staged : list pair) : list SupersessionRecord :=
  filter (fun r => stands sources pairs staged r = true) records.

(** The rows a standing record stands in with. *)
Definition ghost_rows (r : SupersessionRecord) : list RowParts :=
  match sr_claims r with
  | [] => [Parts (Some (sr_file r)) None None (Some (sr_source r)) VNone VNone false]
  | claims =>
      map (fun c => Parts (Some (sr_file r)) (Some (rc_target c)) (rc_first c) (Some (sr_source r))
                      (rc_from c) (rc_until c) (bool_decide (sr_kind r = FORGOTTEN_RECORD))) claims
  end.

(** ** The pass *)

Record pass := Pass {
  windows : gmap string Window;
  unknown : gset string;
  winner : gmap string string;
  unresolved : gset string;
  ambiguous_claims : gmap string (list string);
  order : gmap string (list string);
  when_ : gmap (string * string) (option datetime);
  withdrawn_targets : list (string * list string);
  withdrawn_ambiguous : list (string * list (string * list string))
}.

Definition empty_pass : pass := Pass ∅ ∅ ∅ ∅ ∅ ∅ ∅ [] [].

(** The claimant's window, or the mark that it is unknown. *)
Definition note_window (claimant : string) (p : RowParts) (st : pass) : pass :=
  if rp_has_window p then
    match parse_window (rp_from p) (rp_until p) with
    | Some w =>
        if decide (default w (windows st !! claimant) = w)
        then Pass (<[ claimant := w ]> (windows st)) (unknown st) (winner st) (unresolved st)
               (ambiguous_claims st) (order st) (when_ st) (withdrawn_targets st) (withdrawn_ambiguous st)
        else Pass (windows st) ({[ claimant ]} ∪ unknown st) (winner st) (unresolved st)
               (ambiguous_claims st) (order st) (when_ st) (withdrawn_targets st) (withdrawn_ambiguous st)
    | None => Pass (windows st) ({[ claimant ]} ∪ unknown st) (winner st) (unresolved st)
                (ambiguous_claims st) (order st) (when_ st) (withdrawn_targets st) (withdrawn_ambiguous st)
    end
  else st.

(** [slot.remove(x)]: the first occurrence. *)
Fixpoint remove_first (x : string) (l : list string) : list string :=
  match l with
  | [] => []
  | y :: l' => if decide (x = y) then l' else y :: remove_first x l'
  end.

Definition append_new (l : list string) (x : string) : list string :=
  if decide (x ∈ l) then l else l ++ [x].

(** The date of a claim seen again: [min] of the two, or unknown if either is. *)
Definition merge_date (prev : option (option datetime)) (first : option datetime) :
    result (option datetime) :=
  match prev, first with
  | None, _ => Ok first
  | Some (Some p), Some f => b ← datetime_lt f p; Ok (Some (if b : bool then f else p))
  | Some _, _ => Ok None
  end.

(** A claim on [key]: it wins so far, and is the last of its target's claimants. *)
Definition record_claim (key claimant : string) (first : option datetime) (st : pass) : result pass :=
  date ← merge_date (when_ st !! (key, claimant)) first;
  Ok (Pass (windows st) (unknown st) (<[ key := claimant ]> (winner st)) (unresolved st)
    (ambiguous_claims st)
    (<[ key := remove_first claimant (default [] (order st !! key)) ++ [claimant] ]> (order st))
    (<[ (key, claimant) := date ]> (when_ st))
    (withdrawn_targets st) (withdrawn_ambiguous st)).

Definition push_withdrawn_target (claimant target : string) (st : pass) : pass :=
  Pass (windows st) (unknown st) (winner st) (unresolved st) (ambiguous_claims st) (order st)
    (when_ st) (odict_push claimant target (withdrawn_targets st)) (withdrawn_ambiguous st).

Definition push_withdrawn_ambiguous (claimant reference : string) (found : list string) (st : pass) : pass :=
  Pass (windows st) (unknown st) (winner st) (unresolved st) (ambiguous_claims st) (order st)
    (when_ st) (withdrawn_targets st) (odict_push claimant (reference, found) (withdrawn_ambiguous st)).

(** An ambiguous claim: its candidates are unresolved, its reference is kept. *)
Definition note_ambiguous (claimant reference : string) (found : list string) (st : pass) : pass :=
  Pass (windows st) (unknown st) (winner st) (list_to_set found ∪ unresolved st)
    (<[ claimant := append_new (default [] (ambiguous_claims st !! claimant)) reference ]>
       (ambiguous_claims st))
    (order st) (when_ st) (withdrawn_targets st) (withdrawn_ambiguous st).

(** The body of the row loop. *)
Definition row_step (idx : ReferenceIndex) (withdrawn : gset string) (st : pass) (p : RowParts) :
    result pass :=
  match text_of (rp_file p), text_of (rp_supersedes p) with
  | Some file, Some supersedes =>
      let claimant := key idx file (rp_source p) in
      let st := note_window claimant p st in
      match match_reference idx supersedes claimant with
      | (SelfClaim, _) => Ok st
      | (kind, found) =>
          if decide (claimant ∈ withdrawn) then
            Ok match kind with
               | Resolved => push_withdrawn_target claimant (default "" (head found)) st
               | Ambiguous => push_withdrawn_ambiguous claimant supersedes found st
               | _ => let dangling := dangling_key supersedes in
                      if decide (dangling <> claimant)
                      then push_withdrawn_target claimant dangling st else st
               end
          else
            match kind with
            | Ambiguous => Ok (note_ambiguous claimant supersedes found st)
            | Resolved => record_claim (default "" (head found)) claimant (rp_first p) st
            | _ => let k := dangling_key supersedes in
                   if decide (k = claimant) then Ok st else record_claim k claimant (rp_first p) st
            end
      end
  | _, _ => Ok st
  end.

(** ** Withdrawn memos *)

(** The non-withdrawn targets reached from [stack] through withdrawn ones, in the
    order the loop of [_splice_withdrawn] meets them; the stack's top is first. *)
Fixpoint splice_targets (fuel : nat) (withdrawn : gset string)
    (targets : list (string * list string)) (seen : gset string) (stack : list string) :
    option (list string) :=
  match stack with
  | [] => Some []
  | target :: rest =>
      match fuel with
      | O => None
      | S fuel' =>
          if decide (target ∈ seen) then splice_targets fuel' withdrawn targets seen rest
          else if decide (target ∈ withdrawn)
          then splice_targets fuel' withdrawn targets ({[ target ]} ∪ seen)
                 (default [] (odict_get target targets) ++ rest)
          else cons target <$> splice_targets fuel' withdrawn targets ({[ target ]} ∪ seen) rest
      end
  end.

Definition total_targets (targets : list (string * list string)) : nat :=
  sum_list_with (fun kv => length kv.2) targets.

(** One claimant of the withdrawn [key] takes over its claim on [target]. *)
Definition adopt (key target : string)
    (acc : list string * gmap (string * string) (option datetime)) (claimant : string) :
    list string * gmap (string * string) (option datetime) :=
  let '(slot, when) := acc in
  if decide (claimant = target \/ claimant ∈ slot) then acc
  else (slot ++ [claimant],
        <[ (target, claimant) := default None (when !! (key, claimant)) ]> when).

Definition adopt_all (key : string) (claimants : list string)
    (acc : gmap string string * gmap string (list string) * gmap (string * string) (option datetime))
    (target : string) :=
  let '(winner, order, when) := acc in
  let '(slot, when) := foldl (adopt key target) (default [] (order !! target), when) claimants in
  match last slot with
  | Some w => (<[ target := w ]> winner, <[ target := slot ]> order, when)
  | None => (winner, delete target order, when)
  end.

(** What the claims on the withdrawn [key] move to. *)
Definition resolved_targets (withdrawn : gset string) (targets : list (string * list string))
    (key : string) : list string :=
  default [] (splice_targets (S (2 * total_targets targets)) withdrawn targets
                {[ key ]} (default [] (odict_get key targets))).

(** The body of [_splice_withdrawn]'s loop over [sorted(withdrawn)]. *)
Definition splice_step (withdrawn : gset string) (targets : list (string * list string))
    (acc : gmap string string * gmap string (list string) * gmap (string * string) (option datetime))
    (key : string) :=
  let '(winner, order, when) := acc in
  let claimants := default [] (order !! key) in
  let winner := delete key winner in
  let order := delete key order in
  if decide (claimants = []) then (winner, order, when)
  else
    let resolved := resolved_targets withdrawn targets key in
    foldl (adopt_all key claimants) (winner, order, when) resolved.

Definition splice_withdrawn (withdrawn : gset string) (targets : list (string * list string))
    (acc : gmap string string * gmap string (list string) * gmap (string * string) (option datetime)) :=
  foldl (splice_step withdrawn targets) acc (sorted_strings (elements withdrawn)).

(** The withdrawn memos claiming each target. *)
Definition withdrawn_claimants (targets : list (string * list string)) : list (string * list string) :=
  foldl (fun acc kv => foldl (fun acc target => odict_push target kv.1 acc) acc kv.2) [] targets.

(** The live claimants of a withdrawn memo, met by walking back up the withdrawn
    ones; the stack's top is first. *)
Fixpoint walk_back (fuel : nat) (order : gmap string (list string))
    (back : list (string * list string)) (seen : gset string) (stack live : list string) :
    option (list string) :=
  match stack with
  | [] => Some live
  | memo :: rest =>
      match fuel with
      | O => None
      | S fuel' =>
          let live := foldl append_new live (default [] (order !! memo)) in
          let '(seen, stack) :=
            foldl (fun acc w => let '(seen, stack) := acc in
                     if decide (w ∈ (seen : gset string)) then acc else ({[ w ]} ∪ seen, w :: stack))
              (seen, rest) (default [] (odict_get memo back)) in
          walk_back fuel' order back seen stack live
      end
  end.

Definition claimants_of (order : gmap string (list string)) (targets : list (string * list string))
    (key : string) : list string :=
  let back := withdrawn_claimants targets in
  default [] (walk_back (S (S (length targets))) order back {[ key ]} [key] []).

(** The withdrawn memo's claimants take over its ambiguous claims. *)
Definition inherit_ambiguous (claims : list (string * list string)) (st : pass) (claimant : string) : pass :=
  foldl (fun st c => note_ambiguous claimant c.1 c.2 st) st claims.

(** The rows the pass reads, ghosts first, and what it reads them with. *)
Record reading := Reading {
  rd_index : ReferenceIndex;
  rd_parsed : list RowParts;
  rd_withdrawn : gset string
}.

Definition read_rows (rows : list SupersessionRow) (records : list SupersessionRecord)
    (tenant : option string) : reading :=
  let parsed := claim_rows rows in
  let pairs := omap (fun p => (fun f => (f, rp_source p)) <$> text_of (rp_file p)) parsed in
  let staged := match records, tenant with
                | _ :: _, Some t =>
                    filter (fun p => match text_of p.2 with
                                     | Some s => in_upload_staging s t
                                     | None => false
                                     end = true) pairs
                | _, _ => []
                end in
  let live_sources := omap (fun p => text_of (rp_source p)) parsed in
  let standing := standing_records records live_sources pairs staged in
  let idx := make_index pairs (map (fun r => (sr_file r, Some (sr_source r))) standing) staged in
  Reading idx ((standing ≫= ghost_rows) ++ parsed)
    (list_to_set (map (fun r => key idx (sr_file r) (Some (sr_source r)))
                    (filter (fun r => sr_kind r = WITHDRAWN_RECORD) standing))).

(** The pass over the rows, before withdrawn memos are spliced. *)
Definition collect (rd : reading) : result pass :=
  result_foldl (row_step (rd_index rd) (rd_withdrawn rd)) empty_pass (rd_parsed rd).

(** Splicing, then the ambiguous claims the withdrawn memos leave behind. *)
Definition finish (rd : reading) (st : pass) : pass :=
  let inherited := map (fun kc => (kc.2, claimants_of (order st) (withdrawn_targets st) kc.1))
                     (withdrawn_ambiguous st) in
  let '(winner', order', when') :=
    splice_withdrawn (rd_withdrawn rd) (withdrawn_targets st) (winner st, order st, when_ st) in
  let st := Pass (windows st) (unknown st) winner' (unresolved st) (ambiguous_claims st) order'
              when' (withdrawn_targets st) (withdrawn_ambiguous st) in
  foldl (fun st (ic : list (string * list string) * list string) =>
           foldl (inherit_ambiguous ic.1) st ic.2) st inherited.

Record SupersessionGraph := Graph {
  g_edges : gmap string string;
  g_unresolved : gset string;
  g_candidates : EdgeCandidates;
  g_windows : gmap string Window;
  g_collided : gset string;
  g_ambiguous_claims : gmap string (list string);
  g_references : option ReferenceIndex
}.

Definition candidates_of (st : pass) : EdgeCandidates :=
  map_imap (fun target claimants =>
    Some (map (fun f => (f, default None (when_ st !! (target, f)))) claimants)) (order st).

(** [_resolve_rows]. *)
Definition resolve_rows (rows : list SupersessionRow) (records : list SupersessionRecord)
    (tenant : option string) : result SupersessionGraph :=
  let rd := read_rows rows records tenant in
  st ← collect rd;
  let st := finish rd st in
  Ok {| g_edges := winner st;
     g_unresolved := unresolved st;
     g_candidates := candidates_of st;
     g_windows := filter (fun kw => kw.1 ∉ unknown st /\ kw.2 <> (None, None)) (windows st);
     g_collided := ri_collided (rd_index rd);
     g_ambiguous_claims := ambiguous_claims st;
     g_references := Some (rd_index rd) |}.

Definition resolve_supersession_graph := resolve_rows.

(** [SupersessionGraph.key]. *)
Definition graph_key (g : SupersessionGraph) (file : string) (source : option string) : string :=
  key_in (g_collided g) file source.

(** [SupersessionGraph.from_parts]. *)
Definition from_parts (edges : gmap string string) (unres : gset string)
    (candidates : option EdgeCandidates) (wins : option (gmap string Window)) : SupersessionGraph :=
  {| g_edges := edges; g_unresolved := unres; g_candidates := default ∅ candidates;
     g_windows := default ∅ wins; g_collided := ∅; g_ambiguous_claims := ∅; g_references := None |}.

(** [SupersessionGraph.successor]. *)
Definition graph_successor (g : SupersessionGraph) (k : string) (now known : option datetime) :
    option string :=
  resolve_successor (g_edges g) (Some (g_candidates g)) known now (Some (g_windows g)) k.

Definition place_by_suffix (k : string) (collided : gset string) : option string :=
  let posix := replace_char "\" "/" k in
  if existsb (fun name => ends_with posix ("/" +:+ replace_char "\" "/" name)) (elements collided)
  then None else Some k.

(** [SupersessionGraph.successor_path]. *)
Definition graph_successor_path (g : SupersessionGraph) (k : string) (now known : option datetime) :
    list string :=
  successor_path (g_edges g) (Some (g_candidates g)) known now (Some (g_windows g)) k.

(** [SupersessionGraph.on_cycle]. *)
Definition graph_on_cycle (g : SupersessionGraph) (k : string) (known : option datetime) : bool :=
  on_cycle (g_edges g) (Some (g_candidates g)) known k.

(** [as_supersession_graph], of a graph. *)
Definition as_supersession_graph (g : SupersessionGraph) (unres : gset string)
    (candidates : option EdgeCandidates) : SupersessionGraph :=
  if decide (unres = ∅ /\ candidates = None) then g
  else {| g_edges := g_edges g; g_unresolved := g_unresolved g ∪ unres;
          g_candidates := default (g_candidates g) candidates; g_windows := g_windows g;
          g_collided := g_collided g; g_ambiguous_claims := g_ambiguous_claims g;
          g_references := g_references g |}.

(** [place_graph_key]. *)
Definition place_graph_key (k : string) (file_of_source : list (string * string)) (collided : gset string) :
    option string :=
  match odict_get k file_of_source with
  | Some mapped => if decide (mapped ∈ collided) then Some mapped else place_by_suffix k collided
  | None => place_by_suffix k collided
  end.

(** [SupersessionGraph.live_claimants]. *)
Definition live_claimants (g : SupersessionGraph) (k : string) (now known : option datetime) :
    list string :=
  let every := (live_claims k (g_edges g) (Some (g_candidates g)) known).2 in
  match now with
  | None => every
  | Some n => filter (fun f => window_contains (g_windows g !! f) n = true) every
  end.

(** [resolve_supersession] and [resolve_supersession_candidates]: projections of
    the one pass. *)
Definition resolve_supersession (rows : list (option string * option string)) :
    result (gmap string string * gset string) :=
  let v o := match o with Some s => VStr s | None => VNone end in
  g ← resolve_rows (map (fun r => Row (v r.1) (v r.2) VNone []) rows) [] None;
  Ok (g_edges g, g_unresolved g).

Definition resolve_supersession_candidates (rows : list SupersessionRow) :
    result (gmap string string * gset string * EdgeCandidates) :=
  g ← resolve_rows rows [] None; Ok (g_edges g, g_unresolved g, g_candidates g).

(** ** What a row claims *)

(** The claim a row records: the key it hides and the claimant. *)
Definition row_claim (idx : ReferenceIndex) (withdrawn : gset string) (p : RowParts) :
    option (string * string) :=
  match text_of (rp_file p), text_of (rp_supersedes p) with
  | Some file, Some supersedes =>
      let claimant := key idx file (rp_source p) in
      if decide (claimant ∈ withdrawn) then None
      else match match_reference idx supersedes claimant with
           | (Resolved, found) => Some (default "" (head found), claimant)
           | (Dangling, _) => let k := dangling_key supersedes in
                              if decide (k = claimant) then None else Some (k, claimant)
           | _ => None
           end
  | _, _ => None
  end.

(** The dates of the rows that claim [k] for [c], in scan order. *)
Definition claim_dates (idx : ReferenceIndex) (withdrawn : gset string) (rows : list RowParts)
    (k c : string) : list (option datetime) :=
  rp_first <$> filter (fun p => row_claim idx withdrawn p = Some (k, c)) rows.

(** [c] claims [k], in an [order] map. *)
Definition claims_in (order : gmap string (list string)) (k c : string) : Prop :=
  exists l, order !! k = Some l /\ c ∈ l.

(** A withdrawn memo passes the claims made on it to what it [claimed], through
    other withdrawn memos in turn. *)
Inductive passes (withdrawn : gset string) (claimed : string -> string -> Prop) :
    string -> string -> Prop :=
| passes_direct w t : claimed w t -> passes withdrawn claimed w t
| passes_through w v t :
    claimed w v -> v ∈ withdrawn -> passes withdrawn claimed v t ->
    passes withdrawn claimed w t.

(** What the void claim of a withdrawn memo's row names. *)
Definition void_claim (idx : ReferenceIndex) (withdrawn : gset string) (p : RowParts) :
    option (string * string) :=
  match text_of (rp_file p), text_of (rp_supersedes p) with
  | Some file, Some supersedes =>
      let claimant := key idx file (rp_source p) in
      if decide (claimant ∈ withdrawn) then
        match match_reference idx supersedes claimant with
        | (Resolved, found) => Some (claimant, default "" (head found))
        | (Dangling, _) => let k := dangling_key supersedes in
                           if decide (k = claimant) then None else Some (claimant, k)
        | _ => None
        end
      else None
  | _, _ => None
  end.

(** The ambiguous claim of a row: its claimant, its reference and the candidates. *)
Definition ambiguous_row (idx : ReferenceIndex) (p : RowParts) : option (string * (string * list string)) :=
  match text_of (rp_file p), text_of (rp_supersedes p) with
  | Some file, Some supersedes =>
      let claimant := key idx file (rp_source p) in
      match match_reference idx supersedes claimant with
      | (Ambiguous, found) => Some (claimant, (supersedes, found))
      | _ => None
      end
  | _, _ => None
  end.

(** The three maps agree: the winner of a key is its last claimant, every key has
    a claimant and none twice or on itself, and every claim has its date. *)
Record consistent (winner : gmap string string) (order : gmap string (list string))
    (when : gmap (string * string) (option datetime)) : Prop := {
  con_winner : forall k, winner !! k = order !! k ≫= last;
  con_slot : forall k l, order !! k = Some l -> l <> [] /\ NoDup l /\ k ∉ l;
  con_dated : forall k c, claims_in order k c -> is_Some (when !! (k, c))
}.

(** The date a claim is given: unknown when one of its rows has none, otherwise
    the earliest of them. *)
Definition dated_by (dates : list (option datetime)) (d : option datetime) : Prop :=
  match d with
  | None => None ∈ dates
  | Some m => None ∉ dates /\ Some m ∈ dates /\
              forall x, Some x ∈ dates -> is_naive x = is_naive m /\ instant m <= instant x
  end.
End resolver.
