(* ===== verification/ResolverFacts.v ===== *)
(** * ResolverFacts: what the resolution pass builds
    (src/recall/supersession.py, [_resolve_rows])

    The row loop as an invariant over the rows read, the walk through withdrawn
    memos as a reachability, the splice, and then the properties of the graph. *)
From S2P Require Import Prelude Text Float64 Frontmatter SourceIdentity References Supersession Resolver.

Local Open Scope Z_scope.

(** ** Lemmas: the row loop *)

Lemma elem_of_remove_first x y l : NoDup l -> x ∈ remove_first y l <-> x ∈ l /\ x <> y.
Proof.
  induction 1 as [|z l Hz Hnd IH]; simpl; [rewrite elem_of_nil; tauto|].
  case_decide as Hyz; subst.
  - rewrite elem_of_cons. split; [|tauto]. intros Hx. split; [by right|]. by intros ->.
  - rewrite !elem_of_cons, IH. split; [|tauto]. intros [->|[? ?]]; [|tauto].
    split; [by left|congruence].
Qed.

Lemma NoDup_remove_first y l : NoDup l -> NoDup (remove_first y l).
Proof.
  induction 1 as [|z l Hz Hnd IH]; simpl; [constructor|].
  case_decide; [done|]. constructor; [|done]. rewrite elem_of_remove_first; tauto.
Qed.

Lemma NoDup_append_last y l : NoDup l -> NoDup (remove_first y l ++ [y]).
Proof.
  intros Hnd. apply NoDup_app. split; [by apply NoDup_remove_first|].
  split; [|apply NoDup_singleton]. intros x Hx%elem_of_remove_first; [|done].
  rewrite list_elem_of_singleton. tauto.
Qed.

Section resolver_lemmas.
Context `{UriReader}.

Lemma row_claim_spec idx W p k c :
  row_claim idx W p = Some (k, c) -> c ∉ W /\ k <> c.
Proof.
  unfold row_claim. destruct (text_of (rp_file p)); [|done].
  destruct (text_of (rp_supersedes p)) as [s'|]; [|done]. cbn zeta. case_decide; [done|].
  destruct (match_reference idx s' _) as [[] found] eqn:Hm; try done.
  - apply match_resolved in Hm as (k' & -> & Hne). simpl. by intros [= <- <-].
  - case_decide; [done|]. by intros [= <- <-].
Qed.

(** What a row changes: the claim it records, or nothing but the windows, the
    ambiguous claims and the withdrawn ones. *)
Lemma row_step_claims idx W st p st' :
  row_step idx W st p = Ok st' ->
  match row_claim idx W p with
  | Some (k, c) =>
      exists d, merge_date (when_ st !! (k, c)) (rp_first p) = Ok d /\
        winner st' = <[ k := c ]> (winner st) /\
        order st' = <[ k := remove_first c (default [] (order st !! k)) ++ [c] ]> (order st) /\
        when_ st' = <[ (k, c) := d ]> (when_ st)
  | None => winner st' = winner st /\ order st' = order st /\ when_ st' = when_ st
  end.
Proof.
  unfold row_step, row_claim.
  destruct (text_of (rp_file p)) as [file|]; [|by intros [= <-]].
  destruct (text_of (rp_supersedes p)) as [s|]; [|by intros [= <-]]. cbn zeta.
  set (c := key idx file (rp_source p)). set (st1 := note_window c p st).
  assert (Hst1 : winner st1 = winner st /\ order st1 = order st /\ when_ st1 = when_ st).
  { unfold st1, note_window. repeat (case_match || case_decide); done. }
  clearbody st1. destruct Hst1 as (Hw & Ho & Hd).
  destruct (match_reference idx s c) as [[] found]; simpl;
    repeat case_decide; unfold record_claim; rewrite ?bind_ok;
    try (intros [= <-]; simpl; done).
  all: intros (d & Hm & [= <-]); exists d; rewrite <-Hd, <-Ho, <-Hw; done.
Qed.

(** What a row changes beside the claims. *)
Lemma row_step_rest idx W st p st' :
  row_step idx W st p = Ok st' ->
  withdrawn_targets st' = match void_claim idx W p with
                          | Some (w, t) => odict_push w t (withdrawn_targets st)
                          | None => withdrawn_targets st
                          end /\
  match ambiguous_row idx p with
  | Some (w, c) =>
      if decide (w ∈ W)
      then withdrawn_ambiguous st' = odict_push w c (withdrawn_ambiguous st) /\ unresolved st' = unresolved st
      else withdrawn_ambiguous st' = withdrawn_ambiguous st /\ unresolved st' = list_to_set c.2 ∪ unresolved st
  | None => withdrawn_ambiguous st' = withdrawn_ambiguous st /\ unresolved st' = unresolved st
  end.
Proof.
  unfold row_step, void_claim, ambiguous_row.
  destruct (text_of (rp_file p)) as [file|]; [|by intros [= <-]].
  destruct (text_of (rp_supersedes p)) as [s|]; [|by intros [= <-]]. cbn zeta.
  set (c := key idx file (rp_source p)). set (st1 := note_window c p st).
  assert (Hst1 : withdrawn_targets st1 = withdrawn_targets st /\
    withdrawn_ambiguous st1 = withdrawn_ambiguous st /\ unresolved st1 = unresolved st).
  { unfold st1, note_window. repeat (case_match || case_decide); done. }
  clearbody st1. destruct Hst1 as (Hw & Ho & Hd).
  destruct (match_reference idx s c) as [[] found]; simpl; rewrite <-Hw, <-Ho, <-Hd;
    repeat case_decide; unfold record_claim; rewrite ?bind_ok; try done;
    try (intros [= <-]; simpl; done).
  all: intros (d & Hm & [= <-]); done.
Qed.

Lemma claims_in_insert o k l k' c :
  claims_in (<[ k := l ]> o) k' c <-> (k = k' /\ c ∈ l) \/ (k <> k' /\ claims_in o k' c).
Proof.
  unfold claims_in. destruct (decide (k = k')) as [->|Hne].
  - rewrite lookup_insert_eq. split; [intros (? & [= <-] & ?); auto|].
    intros [[_ ?]|[? _]]; [eauto|done].
  - rewrite lookup_insert_ne by done. split; [auto|]. intros [[? _]|[_ ?]]; [done|done].
Qed.

Lemma claims_in_default o k c : claims_in o k c <-> c ∈ default [] (o !! k).
Proof.
  unfold claims_in. destruct (o !! k) as [l|]; simpl.
  - split; [by intros (? & [= <-] & ?)|eauto].
  - rewrite elem_of_nil. split; [by intros (? & ? & _)|done].
Qed.

#[global] Instance claims_in_dec o k c : Decision (claims_in o k c).
Proof. refine (cast_if (decide (c ∈ default [] (o !! k)))); by rewrite claims_in_default. Defined.

Lemma con_nodup w o d k : consistent w o d -> NoDup (default [] (o !! k)).
Proof.
  intros Hc. destruct (o !! k) eqn:Hk; [|constructor]. simpl. by eapply (con_slot _ _ _ Hc).
Qed.

Lemma consistent_record w o d k c v :
  consistent w o d -> k <> c ->
  consistent (<[ k := c ]> w) (<[ k := remove_first c (default [] (o !! k)) ++ [c] ]> o)
    (<[ (k, c) := v ]> d).
Proof.
  intros Hc Hne. pose proof (con_nodup _ _ _ k Hc) as Hnd. split.
  - intros k'. destruct (decide (k = k')) as [->|Hk].
    + by rewrite !lookup_insert_eq; simpl; rewrite last_snoc.
    + rewrite !lookup_insert_ne by done. apply (con_winner _ _ _ Hc).
  - intros k' l. destruct (decide (k = k')) as [->|Hk].
    + rewrite lookup_insert_eq. intros [= <-]. split_and!.
      * by destruct (remove_first _ _).
      * by apply NoDup_append_last.
      * rewrite elem_of_app, elem_of_remove_first, list_elem_of_singleton by done.
        intros [[Hin _]|?]; [|done]. apply claims_in_default in Hin as (l & Hl & Hin).
        by apply (con_slot _ _ _ Hc) in Hl as (_ & _ & ?).
    + rewrite lookup_insert_ne by done. apply (con_slot _ _ _ Hc).
  - intros k' c' Hin. destruct (decide ((k, c) = (k', c'))) as [E|HE].
    + rewrite E, lookup_insert_eq. eauto.
    + rewrite lookup_insert_ne by done. apply (con_dated _ _ _ Hc).
      apply claims_in_insert in Hin as [[-> Hin]|[_ ?]]; [|done].
      rewrite elem_of_app, elem_of_remove_first, list_elem_of_singleton in Hin by done.
      apply claims_in_default. destruct Hin as [[? _]|?]; [done|congruence].
Qed.

Lemma merge_date_dated dates prev first d :
  match prev with Some p => dated_by dates p | None => dates = [] end ->
  merge_date prev first = Ok d -> dated_by (dates ++ [first]) d.
Proof.
  assert (Hin : forall x, x ∈ dates ++ [first] <-> x ∈ dates \/ x = first).
  { intros x. by rewrite elem_of_app, list_elem_of_singleton. }
  destruct prev as [[p|]|]; [destruct first as [f|]|..]; simpl.
  - intros (Hn & Hp & Hmin). rewrite bind_ok. intros (b & Hb & [= <-]).
    assert (Hkind : is_naive f = is_naive p /\ b = bool_decide (instant f < instant p)).
    { destruct f, p; simpl in *; by simplify_eq. }
    destruct Hkind as [Hkind ->].
    case_bool_decide as Hlt; simpl; setoid_rewrite Hin;
      (split; [by intros [?|?]|]); (split; [auto|]); intros x [Hx|[= ->]];
      try (destruct (Hmin x Hx)); split; congruence || lia.
  - intros _ [= <-]. simpl. rewrite Hin. auto.
  - intros Hn [= <-]. simpl. rewrite Hin. auto.
  - intros -> [= <-]. simpl. destruct first as [f|]; simpl; [|by left].
    split; [|split]; [| |intros x]; rewrite list_elem_of_singleton; [done|done|].
    intros [= ->]. split; [done|lia].
Qed.

(** What the row loop has built from the rows it has read. *)
Record collected (idx : ReferenceIndex) (W : gset string) (rows : list RowParts) (st : pass) : Prop := {
  col_consistent : consistent (winner st) (order st) (when_ st);
  col_claims : forall k c, claims_in (order st) k c <-> claim_dates idx W rows k c <> [];
  col_dates : forall k c,
    match when_ st !! (k, c) with
    | Some d => dated_by (claim_dates idx W rows k c) d
    | None => claim_dates idx W rows k c = []
    end
}.

Lemma claim_dates_app idx W rows p k c :
  claim_dates idx W (rows ++ [p]) k c =
  claim_dates idx W rows k c ++ (if decide (row_claim idx W p = Some (k, c)) then [rp_first p] else []).
Proof.
  unfold claim_dates. rewrite filter_app, fmap_app, filter_cons, filter_nil.
  by case_decide.
Qed.

Lemma collected_step idx W rows p st st' :
  collected idx W rows st -> row_step idx W st p = Ok st' -> collected idx W (rows ++ [p]) st'.
Proof.
  intros [Hcon Hcl Hd] Hstep%row_step_claims.
  destruct (row_claim idx W p) as [[k c]|] eqn:Hrow.
  - destruct Hstep as (d & Hm & Hw & Ho & Hw'). apply row_claim_spec in Hrow as Hne.
    destruct Hne as [_ Hne].
    split; rewrite ?Hw, ?Ho, ?Hw'; [by apply consistent_record|..]; intros k' c';
      rewrite claim_dates_app, Hrow.
    + rewrite claims_in_insert, elem_of_app, elem_of_remove_first, list_elem_of_singleton,
        <-claims_in_default by by eapply con_nodup.
      case_decide; simplify_eq.
      * split; [by destruct (claim_dates _ _ _ _ _)|tauto].
      * rewrite app_nil_r, <-Hcl. destruct (decide (k = k')) as [->|]; [|tauto].
        split; [intros [[_ [[? _]| ->]]|[? _]]; done|]. intros Hc'. left. split; [done|].
        left. split; [done|congruence].
    + destruct (decide ((k, c) = (k', c'))) as [E|HE].
      * rewrite E, lookup_insert_eq, decide_True by done. simplify_eq.
        by eapply merge_date_dated; [apply Hd|].
      * rewrite lookup_insert_ne, decide_False, app_nil_r by congruence. apply Hd.
  - destruct Hstep as (Hw & Ho & Hw').
    split; rewrite ?Hw, ?Ho, ?Hw'; [done|..]; intros k' c';
      rewrite claim_dates_app, Hrow, decide_False, app_nil_r by done; [apply Hcl|apply Hd].
Qed.

(** The void and the ambiguous claims the row loop has met. *)
Record collected_rest (idx : ReferenceIndex) (W : gset string) (rows : list RowParts) (st : pass) : Prop := {
  col_void_nodup : NoDup (withdrawn_targets st).*1;
  col_void : forall w t, t ∈ default [] (odict_get w (withdrawn_targets st)) <->
    exists p, p ∈ rows /\ void_claim idx W p = Some (w, t);
  col_amb_nodup : NoDup (withdrawn_ambiguous st).*1;
  col_amb : forall w c, c ∈ default [] (odict_get w (withdrawn_ambiguous st)) <->
    w ∈ W /\ exists p, p ∈ rows /\ ambiguous_row idx p = Some (w, c);
  col_unresolved : forall x, x ∈ unresolved st <->
    exists p w c, p ∈ rows /\ ambiguous_row idx p = Some (w, c) /\ w ∉ W /\ x ∈ c.2
}.

Lemma exists_snoc {A} (P : A -> Prop) l (x : A) :
  (exists p, p ∈ l ++ [x] /\ P p) <-> (exists p, p ∈ l /\ P p) \/ P x.
Proof.
  setoid_rewrite elem_of_app. setoid_rewrite list_elem_of_singleton. naive_solver.
Qed.

Lemma collected_rest_step idx W rows p st st' :
  collected_rest idx W rows st -> row_step idx W st p = Ok st' ->
  collected_rest idx W (rows ++ [p]) st'.
Proof.
  intros [Hn Hv Hna Ha Hu] [Hvoid Hamb]%row_step_rest.
  assert (HU : forall x, (exists q w c, q ∈ rows ++ [p] /\ ambiguous_row idx q = Some (w, c) /\ w ∉ W /\ x ∈ c.2) <->
     x ∈ unresolved st \/ exists w c, ambiguous_row idx p = Some (w, c) /\ w ∉ W /\ x ∈ c.2).
  { intros x. rewrite Hu.
    pose proof (exists_snoc (fun q => exists w c, ambiguous_row idx q = Some (w, c) /\ w ∉ W /\ x ∈ c.2) rows p) as He.
    naive_solver. }
  split.
  - rewrite Hvoid. destruct (void_claim idx W p) as [[]|]; [by apply odict_push_nodup|done].
  - intros w t. rewrite exists_snoc, <-Hv, Hvoid. destruct (void_claim idx W p) as [[w0 t0]|].
    + rewrite elem_of_odict_push. split; (intros [?|?]; [by left|right]); [by destruct_and?; subst|by simplify_eq].
    + split; [by left|]. by intros [?|?].
  - destruct (ambiguous_row idx p) as [[w c]|]; [case_decide|]; destruct Hamb as [-> _]; try done.
    by apply odict_push_nodup.
  - intros w c. rewrite exists_snoc. pose proof (Ha w c) as Hwc.
    destruct (ambiguous_row idx p) as [[w0 c0]|]; [case_decide|]; destruct Hamb as [-> _].
    + rewrite elem_of_odict_push, Hwc. split; [|intros [? [?|?]]; [by left|right; by simplify_eq]].
      intros [[? ?]|[-> ->]]; auto.
    + rewrite Hwc. split; [tauto|]. intros [? [?|?]]; [done|by simplify_eq].
    + rewrite Hwc. split; [tauto|]. by intros [? [?|?]].
  - intros x. rewrite HU. clear HU. destruct (ambiguous_row idx p) as [[w c]|]; [case_decide|]; destruct Hamb as [_ ->].
    + split; [by left|]. intros [?|(? & ? & [= <- <-] & ? & _)]; done.
    + rewrite elem_of_union, elem_of_list_to_set. split; [intros [?|?]; eauto 10|].
      intros [?|(? & ? & [= <- <-] & _ & ?)]; auto.
    + split; [by left|]. intros [?|(? & ? & ? & _)]; done.
Qed.

Lemma collect_rest rd st :
  collect rd = Ok st -> collected_rest (rd_index rd) (rd_withdrawn rd) (rd_parsed rd) st.
Proof.
  unfold collect. apply result_foldl_inv.
  - split; cbn [withdrawn_targets withdrawn_ambiguous unresolved empty_pass odict_get default fmap list_fmap];
      [apply NoDup_nil_2| |apply NoDup_nil_2|..]; intros; setoid_rewrite elem_of_nil;
      [naive_solver..|]. rewrite elem_of_empty. naive_solver.
  - intros pre x b b' Hc _. by apply collected_rest_step.
Qed.

Lemma collect_collected rd st :
  collect rd = Ok st -> collected (rd_index rd) (rd_withdrawn rd) (rd_parsed rd) st.
Proof.
  unfold collect. apply result_foldl_inv.
  - split; [split|..].
    + intros k. simpl. by rewrite !lookup_empty.
    + intros k l. simpl. by rewrite lookup_empty.
    + intros k c (l & Hl & _). simpl in Hl. by rewrite lookup_empty in Hl.
    + intros k c. unfold claim_dates. simpl. split; [|done]. intros (l & Hl & _). simpl in Hl. by rewrite lookup_empty in Hl.
    + intros k c. simpl. by rewrite lookup_empty.
  - intros pre x b b' Hc _. by apply collected_step.
Qed.

(** *** The walk through withdrawn targets *)

Definition targets_in (T : list (string * list string)) (w t : string) : Prop :=
  t ∈ default [] (odict_get w T).

(** What the walk may still push: the targets of the memos not met yet. *)
Definition pending (T : list (string * list string)) (seen : gset string) : nat :=
  sum_list_with (fun kv => if decide (kv.1 ∈ seen) then 0%nat else length kv.2) T.

Lemma pending_visit T seen t :
  t ∉ seen -> (pending T ({[ t ]} ∪ seen) + length (default [] (odict_get t T)) <= pending T seen)%nat.
Proof.
  intros Ht.
  assert (Hmono : forall T', (pending T' ({[ t ]} ∪ seen) <= pending T' seen)%nat).
  { induction T' as [|[k l] T' IH]; unfold pending; simpl; [lia|]. fold (pending T').
    unfold pending in IH. repeat case_decide; try lia. set_solver. }
  assert (Hcons : forall k l T' s, pending ((k, l) :: T') s =
            ((if decide (k ∈ s) then 0 else length l) + pending T' s)%nat) by done.
  induction T as [|[k l] T IH]; [unfold pending; simpl; lia|].
  rewrite !Hcons. simpl. destruct (decide (t = k)) as [<-|Hk]; simpl.
  - specialize (Hmono T). rewrite decide_True, decide_False by set_solver. lia.
  - repeat case_decide; try lia. set_solver.
Qed.

Lemma pending_total T seen : (pending T seen <= total_targets T)%nat.
Proof.
  unfold pending, total_targets. induction T as [|[k l] T IH]; simpl; [lia|]. case_decide; lia.
Qed.

(** The walk ends: each pop takes from a stock that only a first visit refills. *)
Lemma splice_targets_total W T fuel seen stack :
  (length stack + pending T seen <= fuel)%nat ->
  is_Some (splice_targets fuel W T seen stack).
Proof.
  revert seen stack; induction fuel as [|fuel IH]; intros seen [|t rest] Hf; simpl in *; try (eexists; done).
  - lia.
  - case_decide as Hs; [apply IH; lia|]. pose proof (pending_visit T seen t Hs).
    case_decide as HW.
    + apply IH. rewrite length_app. lia.
    + destruct (IH ({[ t ]} ∪ seen) rest) as [r ->]; [lia|]. apply mk_is_Some with (t :: r). reflexivity.
Qed.

(** What the walk returns: a set [F] closed under withdrawn targets, less what was
    seen before and the withdrawn memos themselves. *)
Lemma splice_targets_spec W T fuel seen stack r :
  splice_targets fuel W T seen stack = Some r ->
  (forall w t, w ∈ seen -> w ∈ W -> t ∈ default [] (odict_get w T) -> t ∈ seen \/ t ∈ stack) ->
  exists F : gset string, seen ⊆ F /\ (forall t, t ∈ stack -> t ∈ F) /\
    (forall w t, w ∈ F -> w ∈ W -> t ∈ default [] (odict_get w T) -> t ∈ F) /\
    (forall t, t ∈ F -> t ∈ seen \/ exists s, s ∈ stack /\ (s = t \/ (s ∈ W /\ passes W (targets_in T) s t))) /\
    NoDup r /\ (forall t, t ∈ r <-> t ∈ F /\ t ∉ seen /\ t ∉ W).
Proof.
  revert seen stack r; induction fuel as [|fuel IH]; intros seen [|t0 rest] r; simpl; try done.
  1,2: intros [= <-] Hcl; exists seen; split_and!; [done|by intros ? ?%not_elem_of_nil| | |constructor|].
  1,4: intros w t Hw HW Ht; destruct (Hcl w t Hw HW Ht) as [?|?%not_elem_of_nil]; done.
  1,3: auto.
  1,2: intros t; rewrite elem_of_nil; tauto.
  case_decide as Hs; [|case_decide as HW]; intros Hr Hcl.
  - destruct (IH _ _ _ Hr) as (F & Hsub & Hst & Hclo & Hsnd & Hnd & Hin).
    { intros w t Hw Hww Ht. destruct (Hcl w t Hw Hww Ht) as [?|[->|?]%elem_of_cons]; auto. }
    exists F. split_and!; try done.
    + intros t [->|?]%elem_of_cons; [by apply Hsub|auto].
    + intros t Ht. destruct (Hsnd t Ht) as [?|(s & ? & ?)]; [by left|right].
      exists s. split; [by right|done].
  - destruct (IH _ _ _ Hr) as (F & Hsub & Hst & Hclo & Hsnd & Hnd & Hin).
    { intros w t [->%elem_of_singleton|Hw]%elem_of_union Hww Ht.
      - right. apply elem_of_app. by left.
      - destruct (Hcl w t Hw Hww Ht) as [?|[->|?]%elem_of_cons]; [left; set_solver..|].
        right. apply elem_of_app. by right. }
    exists F. split_and!; try done.
    + set_solver.
    + intros t [->|?]%elem_of_cons; [set_solver|]. apply Hst, elem_of_app. by right.
    + intros t Ht. destruct (Hsnd t Ht) as [[->%elem_of_singleton|?]%elem_of_union|(s & Hs' & Hst')].
      * right. exists t0. split; [by left|by left].
      * by left.
      * right. apply elem_of_app in Hs' as [Hs'|Hs'].
        -- exists t0. split; [by left|right]. split; [done|].
           destruct Hst' as [->|[? ?]]; [by apply passes_direct|by eapply passes_through].
        -- exists s. split; [by right|done].
    + intros t. rewrite Hin. split; [intros (? & Hn & ?)|intros (? & Hn & ?)]; split_and!; try done; [set_solver|].
      intros [->%elem_of_singleton|?]%elem_of_union; done.
  - apply fmap_Some in Hr as (r' & Hr & ->).
    destruct (IH _ _ _ Hr) as (F & Hsub & Hst & Hclo & Hsnd & Hnd & Hin).
    { intros w t [->%elem_of_singleton|Hw]%elem_of_union Hww Ht; [done|].
      destruct (Hcl w t Hw Hww Ht) as [?|[->|?]%elem_of_cons]; [left; set_solver..|by right]. }
    exists F. split_and!; try done.
    + set_solver.
    + intros t [->|?]%elem_of_cons; [set_solver|auto].
    + intros t Ht. destruct (Hsnd t Ht) as [[->%elem_of_singleton|?]%elem_of_union|(s & Hs' & Hst')].
      * right. exists t0. split; [by left|by left].
      * by left.
      * right. exists s. split; [by right|done].
    + constructor; [|done]. rewrite Hin. set_solver.
    + intros t. rewrite elem_of_cons, Hin. split.
      * intros [->|(? & Hn & ?)]; [split_and!; [set_solver|done|done]|split_and!; [done|set_solver|done]].
      * intros (HF & Hn & HWt). destruct (decide (t = t0)) as [->|]; [by left|right].
        split_and!; [done|set_solver|done].
Qed.

Lemma resolved_targets_spec W T key :
  key ∈ W ->
  NoDup (resolved_targets W T key) /\
  forall t, t ∈ resolved_targets W T key <-> t ∉ W /\ passes W (targets_in T) key t.
Proof.
  intros HW. unfold resolved_targets.
  destruct (splice_targets_total W T (S (2 * total_targets T)) {[ key ]} (default [] (odict_get key T)))
    as [r Hr].
  { pose proof (pending_visit T ∅ key ltac:(set_solver)) as Hp.
    pose proof (pending_total T ∅). rewrite (right_id_L ∅ (∪)) in Hp. lia. }
  rewrite Hr. simpl. apply splice_targets_spec in Hr as (F & Hsub & Hst & Hclo & Hsnd & Hnd & Hin).
  2:{ intros w t ->%elem_of_singleton _ Ht. by right. }
  split; [done|]. intros t. rewrite Hin. split.
  - intros (HF & Hn & HWt). split; [done|]. destruct (Hsnd t HF) as [?|(s & Hs & [->|[? ?]])]; [done|..].
    + by apply passes_direct.
    + by eapply passes_through.
  - intros (HWt & Hp). split_and!; [|by intros ->%elem_of_singleton|done].
    assert (HkF : key ∈ F) by set_solver. clear -Hp HkF HW Hclo.
    induction Hp as [w t Ht|w v t Hv HvW Hp IH]; [by eapply Hclo|].
    apply IH; [done|by eapply Hclo].
Qed.

(** *** Moving the claims *)

Lemma adopt_spec key target claimants slot when slot' when' :
  key <> target -> NoDup slot -> target ∉ slot ->
  foldl (adopt key target) (slot, when) claimants = (slot', when') ->
  NoDup slot' /\ target ∉ slot' /\
  (forall c, c ∈ slot' <-> c ∈ slot \/ (c ∈ claimants /\ c <> target)) /\
  (forall k c, when' !! (k, c) =
     if decide (k = target /\ c ∈ slot' /\ c ∉ slot)
     then Some (default None (when !! (key, c))) else when !! (k, c)).
Proof.
  intros Hkt. revert slot when; induction claimants as [|a claimants IH]; intros slot when Hnd Ht; simpl.
  - intros [= <- <-]. split_and!; try done.
    + intros c. rewrite elem_of_nil. tauto.
    + intros k c. rewrite decide_False by tauto. done.
  - case_decide as Ha; intros Hf.
    + destruct (IH _ _ Hnd Ht Hf) as (? & ? & Hin & Hw). split_and!; try done.
      intros c. rewrite Hin, elem_of_cons. split; [tauto|]. intros [?|[[->|?] ?]]; [by left| |by right].
      left. tauto.
    + assert (Hat : a <> target) by tauto. assert (Has : a ∉ slot) by tauto. apply IH in Hf as (? & ? & Hin & Hw).
      2:{ apply NoDup_app. split_and!; [done| |apply NoDup_singleton].
          by intros x Hx ->%list_elem_of_singleton. }
      2:{ intros [?|?%list_elem_of_singleton]%elem_of_app; [done|congruence]. }
      split_and!; try done.
      * intros c. rewrite Hin, elem_of_app, list_elem_of_singleton, elem_of_cons.
        split; [|tauto]. intros [[?| ->]|?]; tauto.
      * intros k c. rewrite Hw.
        assert (Hsl : forall x, x ∈ slot ++ [a] <-> x ∈ slot \/ x = a).
        { intros x. by rewrite elem_of_app, list_elem_of_singleton. }
        assert (Ha' : a ∈ slot') by (rewrite Hin, Hsl; tauto).
        destruct (decide (k = target)) as [->|Hk].
        2:{ rewrite !decide_False by tauto. rewrite lookup_insert_ne; [done|congruence]. }
        destruct (decide (c = a)) as [->|Hc].
        { rewrite decide_False by (rewrite Hsl; tauto). rewrite lookup_insert_eq.
          by rewrite decide_True. }
        rewrite !lookup_insert_ne by congruence.
        apply decide_ext. rewrite Hsl. tauto.
Qed.

(** One target takes over the claims on [key]. *)
Lemma adopt_all_spec key target claimants w o d w' o' d' :
  key <> target -> consistent w o d -> (forall c, c ∈ claimants -> is_Some (d !! (key, c))) ->
  adopt_all key claimants (w, o, d) target = (w', o', d') ->
  consistent w' o' d' /\
  (forall k c, claims_in o' k c <->
     claims_in o k c \/ (k = target /\ c ∈ claimants /\ c <> target)) /\
  (forall k c, d' !! (k, c) =
     if decide (k = target /\ ~ claims_in o k c /\ c ∈ claimants /\ c <> target)
     then Some (default None (d !! (key, c))) else d !! (k, c)).
Proof.
  intros Hkt Hcon Hdk. unfold adopt_all.
  destruct (foldl _ _ _) as [slot' when'] eqn:Hf.
  apply adopt_spec in Hf as (Hnd & Ht & Hin & Hd); [|done|by eapply con_nodup|].
  2:{ rewrite <-claims_in_default. intros (l & Hl & Hin). by apply (con_slot _ _ _ Hcon) in Hl as (_ & _ & ?). }
  setoid_rewrite <-claims_in_default in Hin.
  assert (Hd' : forall k c, when' !! (k, c) =
     if decide (k = target /\ ~ claims_in o k c /\ c ∈ claimants /\ c <> target)
     then Some (default None (d !! (key, c))) else d !! (k, c)).
  { intros k c. rewrite Hd. apply decide_ext. rewrite Hin, <-claims_in_default.
    split; [intros (-> & [?|?] & ?); tauto|intros (-> & ?); tauto]. }
  assert (Hdated : forall k c, (k = target /\ c ∈ slot') \/ claims_in o k c -> is_Some (when' !! (k, c))).
  { intros k c Hkc. rewrite Hd'. case_decide as Hk; [eauto|].
    apply (con_dated _ _ _ Hcon). destruct Hkc as [[-> Hc]|?]; [|done].
    apply Hin in Hc as [?|?]; [done|]. destruct (decide (c ∈ default [] (o !! target))) as [Hx|Hx];
      rewrite <-claims_in_default in Hx; [done|tauto]. }
  destruct (last slot') as [x|] eqn:Hl; intros [= <- <- <-].
  - split_and!; [split|..]; [| | | |done].
    + intros k. destruct (decide (target = k)) as [<-|]; [by rewrite !lookup_insert_eq|].
      rewrite !lookup_insert_ne by done. apply (con_winner _ _ _ Hcon).
    + intros k l. destruct (decide (target = k)) as [<-|].
      * rewrite lookup_insert_eq. intros [= <-]. split_and!; [by intros ->|done|done].
      * rewrite lookup_insert_ne by done. apply (con_slot _ _ _ Hcon).
    + intros k c Hk. apply Hdated. apply claims_in_insert in Hk as [[-> ?]|[_ ?]]; auto.
    + intros k c. rewrite claims_in_insert, Hin.
      destruct (decide (target = k)) as [<-|]; [tauto|]. split; [tauto|]. intros [?|[-> ?]]; tauto.
  - apply last_None in Hl as ->.
    assert (Ho : o !! target = None).
    { destruct (o !! target) as [l|] eqn:E; [|done]. destruct l as [|c l].
      - by apply (con_slot _ _ _ Hcon) in E as [? _].
      - exfalso. apply (not_elem_of_nil c), Hin. left. exists (c :: l). split; [done|by left]. }
    assert (Hdel : delete target o = o) by by apply delete_id.
    rewrite Hdel. split_and!; [split|..]; [| | | |done].
    + apply (con_winner _ _ _ Hcon).
    + apply (con_slot _ _ _ Hcon).
    + intros k c Hk. apply Hdated. by right.
    + intros k c. split; [by left|]. intros [?|(-> & Hc)]; [done|].
      exfalso. apply (not_elem_of_nil c), Hin. by right.
Qed.

Lemma adopt_targets_spec key claimants ts w o d w' o' d' :
  key ∉ ts -> NoDup ts -> consistent w o d ->
  (forall c, c ∈ claimants -> is_Some (d !! (key, c))) ->
  foldl (adopt_all key claimants) (w, o, d) ts = (w', o', d') ->
  consistent w' o' d' /\
  (forall k c, claims_in o' k c <->
     claims_in o k c \/ (k ∈ ts /\ c ∈ claimants /\ c <> k)) /\
  (forall k c, d' !! (k, c) =
     if decide (k ∈ ts /\ ~ claims_in o k c /\ c ∈ claimants /\ c <> k)
     then Some (default None (d !! (key, c))) else d !! (k, c)).
Proof.
  revert w o d; induction ts as [|t ts IH]; intros w o d Hk Hnd Hcon Hdk; cbn [foldl].
  - intros [= <- <- <-]. split_and!; [done|..].
    + intros k c. rewrite elem_of_nil. tauto.
    + intros k c. rewrite decide_False; [done|]. rewrite elem_of_nil. tauto.
  - destruct (adopt_all key claimants (w, o, d) t) as [[w1 o1] d1] eqn:H1. intros Hf.
    rewrite not_elem_of_cons in Hk. destruct Hk as [Hkt Hk]. inversion_clear Hnd as [|? ? Ht Hnd'].
    apply adopt_all_spec in H1 as (Hc1 & Ho1 & Hd1); [|done..].
    assert (Hkd : forall c, d1 !! (key, c) = d !! (key, c)).
    { intros c. rewrite Hd1, decide_False; [done|tauto]. }
    apply IH in Hf as (Hc' & Ho' & Hd'); [|done|done|done|by intros; rewrite Hkd; auto].
    split_and!; [done|..]; intros k c.
    + rewrite Ho', Ho1, elem_of_cons. split; [|intros [?|([->|?] & ? & ?)]; tauto].
      intros [[?|(-> & ? & ?)]|?]; tauto.
    + rewrite Hd', Hkd, Hd1. pose proof (Ho1 k c) as Hok. pose proof (elem_of_cons ts k t) as Hts.
      destruct (decide (k = t)) as [->|Hne].
      * rewrite (decide_False (P := t ∈ ts /\ _)) by tauto. apply decide_ext. tauto.
      * rewrite (decide_False (P := k = t /\ _)) by tauto. apply decide_ext. tauto.
Qed.

(** *** One withdrawn memo spliced *)

Lemma splice_step_spec W T key w o d w' o' d' :
  key ∈ W -> consistent w o d -> splice_step W T (w, o, d) key = (w', o', d') ->
  consistent w' o' d' /\
  (forall k c, claims_in o' k c <->
     k <> key /\ (claims_in o k c \/ (claims_in o key c /\ k ∉ W /\ passes W (targets_in T) key k /\ c <> k))) /\
  (forall k c, d' !! (k, c) =
     if decide (k ∈ resolved_targets W T key /\ ~ claims_in o k c /\ claims_in o key c /\ c <> k)
     then d !! (key, c) else d !! (k, c)).
Proof.
  intros HW Hcon. unfold splice_step.
  destruct (resolved_targets_spec W T key HW) as [Hnd Hres].
  assert (Hdel : consistent (delete key w) (delete key o) d).
  { split.
    - intros k. destruct (decide (key = k)) as [<-|]; [by rewrite !lookup_delete_eq|].
      rewrite !lookup_delete_ne by done. apply (con_winner _ _ _ Hcon).
    - intros k l [_ Hl]%lookup_delete_Some. by apply (con_slot _ _ _ Hcon).
    - intros k c (l & [_ Hl]%lookup_delete_Some & Hin). apply (con_dated _ _ _ Hcon). by exists l. }
  assert (Hdc : forall k c, claims_in (delete key o) k c <-> k <> key /\ claims_in o k c).
  { intros k c. unfold claims_in. destruct (decide (key = k)) as [<-|].
    - rewrite lookup_delete_eq. split; [by intros (? & ? & _)|tauto].
    - rewrite lookup_delete_ne by done. naive_solver. }
  assert (Hkk : forall c, c ∈ default [] (o !! key) <-> claims_in o key c)
    by (intros c; by rewrite claims_in_default).
  case_decide as Hnil.
  - intros [= <- <- <-]. split_and!; [done|..]; intros k c.
    + rewrite Hdc, <-Hkk, Hnil, elem_of_nil. tauto.
    + rewrite decide_False; [done|]. rewrite <-Hkk, Hnil, elem_of_nil. tauto.
  - intros Hf. apply adopt_targets_spec in Hf as (Hc' & Ho' & Hd'); [|by rewrite Hres; tauto|done|done|].
    2:{ intros c Hc. by apply (con_dated _ _ _ Hcon), Hkk. }
    split_and!; [done|..]; intros k c.
    + rewrite Ho', Hdc, Hres, Hkk. destruct (decide (k = key)) as [->|]; tauto.
    + rewrite Hd'. pose proof (Hkk c) as Hkc. pose proof (Hdc k c) as Hdkc. pose proof (Hres k) as Hrk.
      destruct (decide (k ∈ resolved_targets W T key /\ ~ claims_in o k c /\ claims_in o key c /\ c <> k))
        as [Hy|Hn].
      * rewrite decide_True by tauto.
        assert (Hck : claims_in o key c) by tauto.
        by destruct (con_dated _ _ _ Hcon key c Hck) as [v ->].
      * rewrite decide_False; [done|]. intros (Ha & Hb & ?). apply Hn. split; [done|].
        assert (k <> key) by (intros ->; tauto). tauto.
Qed.

(** *** The whole splice *)

(** After splicing the memos [done], from the claims [o0] dated by [d0]. *)
Record spliced (W : gset string) (T : list (string * list string))
    (o0 : gmap string (list string)) (d0 : gmap (string * string) (option datetime))
    (finished : list string)
    (acc : gmap string string * gmap string (list string) * gmap (string * string) (option datetime)) : Prop := {
  spl_consistent : consistent acc.1.1 acc.1.2 acc.2;
  spl_claims : forall k c, claims_in acc.1.2 k c <-> k ∉ finished /\
    (claims_in o0 k c \/
     exists w, w ∈ finished /\ claims_in o0 w c /\ k ∉ W /\ passes W (targets_in T) w k /\ c <> k);
  spl_own : forall k c, claims_in o0 k c -> acc.2 !! (k, c) = d0 !! (k, c);
  spl_moved : forall k c, claims_in acc.1.2 k c -> ~ claims_in o0 k c ->
    exists w, w ∈ finished /\ claims_in o0 w c /\ passes W (targets_in T) w k /\ acc.2 !! (k, c) = d0 !! (w, c)
}.

Lemma spliced_step W T o0 d0 finished acc key :
  key ∈ W -> key ∉ finished -> (forall x, x ∈ finished -> x ∈ W) -> spliced W T o0 d0 finished acc ->
  spliced W T o0 d0 (finished ++ [key]) (splice_step W T acc key).
Proof.
  intros HW Hkf HfW [Hcon Hcl Hown Hmv]. destruct acc as [[w o] d]; cbn [fst snd] in *.
  destruct (splice_step W T (w, o, d) key) as [[w' o'] d'] eqn:Hs.
  apply splice_step_spec in Hs as (Hc' & Ho' & Hd'); [|done..].
  assert (Hkey : forall c, claims_in o key c <-> claims_in o0 key c).
  { intros c. rewrite Hcl. split; [intros (_ & [?|(? & _ & _ & ? & _)]); done|auto]. }
  assert (Hfin : forall k, k ∈ finished ++ [key] <-> k ∈ finished \/ k = key)
    by (intros k; by rewrite elem_of_app, list_elem_of_singleton).
  split; cbn [fst snd]; [done|..].
  - intros k c. rewrite Ho', Hkey, Hcl. setoid_rewrite Hfin. split.
    + intros (Hk & [(Hkf' & [?|(x & ? & ?)])|?]).
      * tauto.
      * split; [tauto|]. right. exists x. tauto.
      * split; [intros [?%HfW|?]; tauto|]. right. exists key. tauto.
    + intros (Hk & [?|(x & [?| ->] & ?)]); [tauto| |tauto].
      split; [tauto|]. left. split; [tauto|]. right. exists x. tauto.
  - intros k c Hkc. rewrite Hd'. case_decide as Hy; [|by apply Hown].
    destruct Hy as (Hr & Hn & _). apply resolved_targets_spec in Hr as [HkW _]; [|done].
    exfalso. apply Hn, Hcl. split; [|by left]. by intros ?%HfW.
  - intros k c Hkc Hn. setoid_rewrite Hfin. rewrite Hd'.
    apply Ho' in Hkc as [Hk Hkc]. case_decide as Hy.
    + exists key. destruct Hy as (Hr & _ & Hc & _). apply resolved_targets_spec in Hr; [|done].
      rewrite <-Hown by by apply Hkey. split_and!; [by right|by apply Hkey|tauto|done].
    + assert (Hkc' : claims_in o k c).
      { destruct (decide (claims_in o k c)); [done|]. exfalso. apply Hy.
        destruct Hkc as [?|?]; [done|]. rewrite (proj2 (resolved_targets_spec W T key HW)). tauto. }
      destruct (Hmv k c Hkc' Hn) as (x & ? & ? & ? & ?). exists x. tauto.
Qed.

Lemma splice_withdrawn_spec W T w o d :
  consistent w o d ->
  spliced W T o d (elements W) (splice_withdrawn W T (w, o, d)).
Proof.
  intros Hcon. unfold splice_withdrawn.
  assert (Hgen : forall rest finished acc, NoDup (finished ++ rest) ->
            (forall x, x ∈ finished ++ rest -> x ∈ W) -> spliced W T o d finished acc ->
            spliced W T o d (finished ++ rest) (foldl (splice_step W T) acc rest)).
  { induction rest as [|key rest IH]; intros finished acc Hnd HW Hs; cbn [foldl].
    - by rewrite app_nil_r.
    - rewrite cons_middle, (assoc_L (++)) in *. apply IH; [done|done|].
      apply NoDup_app in Hnd as (Hnd & _ & _). apply NoDup_app in Hnd as (_ & Hdis & _).
      apply spliced_step; [apply HW; set_solver| |set_solver|done].
      intros Hin. apply (Hdis key Hin). by left. }
  assert (Hperm : sorted_strings (elements W) ≡ₚ elements W) by apply sorted_strings_perm.
  destruct (Hgen (sorted_strings (elements W)) [] (w, o, d)) as [H1 H2 H3 H4].
  - simpl. rewrite Hperm. apply NoDup_elements.
  - intros x. simpl. by rewrite Hperm, elem_of_elements.
  - split; cbn [fst snd]; [done|..|done|done].
    intros k c. setoid_rewrite elem_of_nil. split; [tauto|]. intros (_ & [?|(? & ? & _)]); done.
  - split; [done|..].
    + intros k c. rewrite H2. simpl. setoid_rewrite Hperm. done.
    + done.
    + intros k c Hk Hn. destruct (H4 k c Hk Hn) as (x & Hx & ?). exists x.
      simpl in Hx. by rewrite Hperm in Hx.
Qed.

(** *** The walk back to the live claimants *)

Lemma withdrawn_claimants_spec (T : list (string * list string)) t w :
  w ∈ default [] (odict_get t (withdrawn_claimants T)) <-> exists l, (w, l) ∈ T /\ t ∈ l.
Proof.
  unfold withdrawn_claimants.
  assert (Hinner : forall x l acc, w ∈ default [] (odict_get t
            (foldl (fun acc target => odict_push target x acc) acc l)) <->
            w ∈ default [] (odict_get t acc) \/ (w = x /\ t ∈ l)).
  { intros x l; induction l as [|a l IH]; intros acc; simpl.
    - rewrite elem_of_nil. tauto.
    - rewrite IH, elem_of_odict_push, elem_of_cons. tauto. }
  assert (Hgen : forall T acc, w ∈ default [] (odict_get t
            (foldl (fun acc kv => foldl (fun acc target => odict_push target kv.1 acc) acc kv.2) acc T)) <->
            w ∈ default [] (odict_get t acc) \/ exists l, (w, l) ∈ T /\ t ∈ l).
  { clear T. intros T; induction T as [|[x l] T IH]; intros acc; simpl.
    - setoid_rewrite elem_of_nil. naive_solver.
    - rewrite IH, Hinner. setoid_rewrite elem_of_cons. naive_solver. }
  rewrite Hgen. simpl. rewrite elem_of_nil. tauto.
Qed.

Definition push_unseen (ws : list string) (seen : gset string) (stack : list string) :
    gset string * list string :=
  foldl (fun acc w => let '(seen, stack) := acc in
           if decide (w ∈ (seen : gset string)) then acc else ({[ w ]} ∪ seen, w :: stack))
    (seen, stack) ws.

(** How many of the [universe] have not been met. *)
Definition unmet (universe : list string) (seen : gset string) : nat :=
  length (filter (fun w => w ∉ seen) universe).

Lemma unmet_visit universe seen w :
  w ∈ universe -> w ∉ seen -> (S (unmet universe ({[ w ]} ∪ seen)) <= unmet universe seen)%nat.
Proof.
  unfold unmet. intros Hw Hs.
  assert (Hf : filter (fun x => x ∉ {[ w ]} ∪ seen) universe =
               filter (fun x => x <> w) (filter (fun x => x ∉ seen) universe)).
  { rewrite list_filter_filter. apply list_filter_iff. intros x. set_solver. }
  rewrite Hf. apply length_filter_lt with w; [by apply list_elem_of_filter|]. by intros Hn.
Qed.

Lemma push_unseen_spec ws seen stack seen' stack' :
  push_unseen ws seen stack = (seen', stack') ->
  (forall x, x ∈ seen' <-> x ∈ seen \/ x ∈ ws) /\
  (forall x, x ∈ stack' <-> x ∈ stack \/ (x ∈ ws /\ x ∉ seen)) /\
  (forall universe, (forall x, x ∈ ws -> x ∈ universe) ->
     (length stack' + unmet universe seen' <= length stack + unmet universe seen)%nat).
Proof.
  unfold push_unseen. revert seen stack; induction ws as [|w ws IH]; intros seen stack; cbn [foldl].
  - intros [= <- <-]. split_and!; [| |done]; intros x; rewrite elem_of_nil; tauto.
  - case_decide as Hw; intros Hf; destruct (IH _ _ Hf) as (H1 & H2 & H3).
    + split_and!.
      * intros x. rewrite H1, elem_of_cons. split; [tauto|]. intros [?|[->|?]]; auto.
      * intros x. rewrite H2, elem_of_cons. split; [tauto|]. intros [?|[[->|?] ?]]; tauto.
      * intros u Hu. apply H3. intros x Hx. apply Hu. by right.
    + split_and!.
      * intros x. rewrite H1, elem_of_union, elem_of_singleton, elem_of_cons. tauto.
      * intros x. rewrite H2, elem_of_union, elem_of_singleton, !elem_of_cons.
        split; [intros [[->|?]|[? Hn]]; [tauto|tauto|]; right; split; [tauto|]; tauto|].
        intros [?|[[->|?] ?]]; [tauto|tauto|]. destruct (decide (x = w)); tauto.
      * intros u Hu. assert (Hwu : w ∈ u) by (apply Hu; by left).
        pose proof (unmet_visit u seen w Hwu Hw). simpl in H3.
        specialize (H3 u ltac:(intros x Hx; apply Hu; by right)). lia.
Qed.

Section walk_back.
Context (o : gmap string (list string)) (back : list (string * list string)).
Let bk (m w : string) : Prop := w ∈ default [] (odict_get m back).

Lemma walk_back_unfold fuel seen memo rest lv :
  walk_back (S fuel) o back seen (memo :: rest) lv =
  let '(seen', stack') := push_unseen (default [] (odict_get memo back)) seen rest in
  walk_back fuel o back seen' stack' (foldl append_new lv (default [] (o !! memo))).
Proof. reflexivity. Qed.

Lemma elem_of_append_new l acc x : x ∈ foldl append_new acc l <-> x ∈ acc \/ x ∈ l.
Proof.
  revert acc; induction l as [|y l IH]; intros acc; simpl; [rewrite elem_of_nil; tauto|].
  rewrite IH, elem_of_cons. unfold append_new. case_decide.
  - split; [tauto|]. intros [?|[->|?]]; auto.
  - rewrite elem_of_app, list_elem_of_singleton. tauto.
Qed.

Lemma walk_back_total universe fuel seen stack lv :
  (forall m w, bk m w -> w ∈ universe) ->
  (length stack + unmet universe seen <= fuel)%nat ->
  is_Some (walk_back fuel o back seen stack lv).
Proof.
  intros Hu. revert seen stack lv; induction fuel as [|fuel IH]; intros seen [|m rest] lv Hf;
    [by eexists|simpl in Hf; lia|by eexists|].
  rewrite walk_back_unfold. destruct (push_unseen _ _ _) as [seen' stack'] eqn:Hp.
  apply push_unseen_spec in Hp as (_ & _ & Hlen). apply IH.
  specialize (Hlen universe (Hu m)). simpl in Hf. lia.
Qed.

Lemma walk_back_spec fuel seen stack lv r :
  walk_back fuel o back seen stack lv = Some r ->
  (forall m, m ∈ stack -> m ∈ seen) ->
  (forall m, m ∈ seen -> m ∈ stack \/
     ((forall c, claims_in o m c -> c ∈ lv) /\ forall w, bk m w -> w ∈ seen)) ->
  exists F : gset string, seen ⊆ F /\
    (forall m, m ∈ F -> forall w, bk m w -> w ∈ F) /\
    (forall m, m ∈ F -> m ∈ seen \/ exists s, s ∈ stack /\ tc bk s m) /\
    (forall c, c ∈ r <-> c ∈ lv \/ exists m, m ∈ F /\ claims_in o m c).
Proof.
  revert seen stack lv; induction fuel as [|fuel IH]; intros seen [|m0 rest] lv; try done.
  1,2: intros [= <-] _ Hcl; exists seen; split_and!; [done| |by left|].
  1,3: intros m Hm; destruct (Hcl m Hm) as [?%not_elem_of_nil|[_ ?]]; done.
  1,2: intros c; split; [by left|]; intros [?|(m & Hm & Hc)]; [done|];
    destruct (Hcl m Hm) as [?%not_elem_of_nil|[? _]]; auto; done.
  rewrite walk_back_unfold. destruct (push_unseen _ _ _) as [seen' stack'] eqn:Hp.
  apply push_unseen_spec in Hp as (Hseen & Hstack & _). intros Hr Hst Hcl.
  destruct (IH _ _ _ Hr) as (F & Hsub & Hclo & Hsnd & Hin).
  { intros m. rewrite Hstack, Hseen. intros [?|[? _]]; [|by right]. left. apply Hst. by right. }
  { intros m. rewrite Hstack, Hseen. setoid_rewrite Hseen. setoid_rewrite elem_of_append_new.
    setoid_rewrite <-claims_in_default.
    intros Hm. destruct (decide (m ∈ seen)) as [Hms|Hms].
    - destruct (Hcl m Hms) as [[->|?]%elem_of_cons|[? ?]]; [|by left; left|].
      + right. split; [tauto|]. intros w Hw. by right.
      + right. split; [auto|]. intros w Hw. left. auto.
    - left. right. tauto. }
  exists F. split_and!; [|done|..].
  - intros x Hx. apply Hsub, Hseen. by left.
  - intros m Hm. destruct (Hsnd m Hm) as [Hs|(s & Hs & Htc)].
    + apply Hseen in Hs as [?|?]; [by left|]. right. exists m0. split; [by left|]. by apply tc_once.
    + apply Hstack in Hs as [?|[? _]]; right.
      * exists s. split; [by right|done].
      * exists m0. split; [by left|]. eapply tc_l; [|done]. done.
  - intros c. rewrite Hin, elem_of_append_new, <-claims_in_default. split.
    + intros [[?|?]|?]; [by left| |by right]. right. exists m0. split; [|done].
      apply Hsub, Hseen. left. apply Hst. by left.
    + tauto.
Qed.
End walk_back.

Lemma passes_snoc W R a b c : passes W R a b -> b ∈ W -> R b c -> passes W R a c.
Proof.
  induction 1 as [w t Ht|w v t Hv HvW Hp IH]; intros HW HR.
  - apply passes_through with t; [done|done|]. by apply passes_direct.
  - apply passes_through with v; auto.
Qed.

(** The live claimants a withdrawn memo's ambiguous claims fall to. *)
Lemma claimants_of_spec W o T key c :
  NoDup T.*1 -> (forall w t, targets_in T w t -> w ∈ W) ->
  c ∈ claimants_of o T key <->
  exists m, (m = key \/ passes W (targets_in T) m key) /\ claims_in o m c.
Proof.
  intros Hnd HTW. unfold claimants_of. set (back := withdrawn_claimants T).
  assert (Hbk : forall m w, w ∈ default [] (odict_get m back) <-> targets_in T w m).
  { intros m w. unfold back. rewrite withdrawn_claimants_spec. unfold targets_in.
    split; [intros (l & Hl%odict_get_some & ?); [by rewrite Hl|done]|].
    destruct (odict_get w T) as [l|] eqn:Hl; simpl; [|by intros ?%not_elem_of_nil].
    intros Hm. exists l. by apply odict_get_some in Hl. }
  destruct (walk_back_total o back T.*1 (S (S (length T))) {[ key ]} [key] []) as [r Hr].
  { intros m w Hw%Hbk. unfold targets_in in Hw. destruct (odict_get w T) as [l|] eqn:Hl; [|by apply not_elem_of_nil in Hw].
    apply odict_get_in in Hl. apply list_elem_of_fmap. by exists (w, l). }
  { unfold unmet. simpl. pose proof (length_filter (fun w => w ∉ ({[ key ]} : gset string)) T.*1).
    rewrite length_fmap in *. lia. }
  rewrite Hr. simpl.
  apply walk_back_spec in Hr as (F & Hsub & Hclo & Hsnd & Hin).
  2:{ intros m ->%list_elem_of_singleton. set_solver. }
  2:{ intros m ->%elem_of_singleton. left. by left. }
  rewrite Hin, elem_of_nil.
  assert (HF : forall m, m ∈ F <-> m = key \/ passes W (targets_in T) m key); [|naive_solver].
  intros m. split.
  - intros Hm. destruct (Hsnd m Hm) as [?%elem_of_singleton|(s & ->%list_elem_of_singleton & Htc)]; [by left|right].
    clear -Htc Hbk HTW. induction Htc as [k m Hkm|k x m Hx _ IH]; [by apply passes_direct, Hbk|].
    apply Hbk in Hx. by apply passes_snoc with x; [|apply HTW with k|].
  - intros [->|Hp]; [set_solver|].
    assert (Hkey : key ∈ F) by set_solver. clear -Hp Hkey Hclo Hbk. induction Hp as [w t Ht|w v t Hv HvW Hp IH].
    + apply Hclo with t; [done|]. by apply Hbk.
    + apply Hclo with v; [auto|]. by apply Hbk.
Qed.

(** *** The end of the pass *)

Lemma inherit_ambiguous_spec claims st c :
  let st' := inherit_ambiguous claims st c in
  winner st' = winner st /\ order st' = order st /\ when_ st' = when_ st /\
  (forall x, x ∈ unresolved st' <-> x ∈ unresolved st \/ exists cl, cl ∈ claims /\ x ∈ cl.2).
Proof.
  unfold inherit_ambiguous. revert st; induction claims as [|cl claims IH]; intros st; cbn [foldl].
  - split_and!; try done. intros x. setoid_rewrite elem_of_nil. naive_solver.
  - destruct (IH (note_ambiguous c cl.1 cl.2 st)) as (-> & -> & -> & Hu). split_and!; try done.
    intros x. rewrite Hu. cbn [unresolved note_ambiguous]. rewrite elem_of_union, elem_of_list_to_set.
    setoid_rewrite elem_of_cons. naive_solver.
Qed.

Lemma inherit_all_spec (ic : list (list (string * list string) * list string)) st :
  let st' := foldl (fun st ic => foldl (inherit_ambiguous ic.1) st ic.2) st ic in
  winner st' = winner st /\ order st' = order st /\ when_ st' = when_ st /\
  (forall x, x ∈ unresolved st' <-> x ∈ unresolved st \/
     exists i cl c, i ∈ ic /\ cl ∈ i.1 /\ c ∈ i.2 /\ x ∈ cl.2).
Proof.
  assert (Hone : forall claims cs st, let st' := foldl (inherit_ambiguous claims) st cs in
    winner st' = winner st /\ order st' = order st /\ when_ st' = when_ st /\
    (forall x, x ∈ unresolved st' <-> x ∈ unresolved st \/ exists cl c, cl ∈ claims /\ c ∈ cs /\ x ∈ cl.2)).
  { intros claims cs; induction cs as [|c cs IH]; intros st0; cbn [foldl].
    - split_and!; try done. intros x. setoid_rewrite elem_of_nil. naive_solver.
    - destruct (inherit_ambiguous_spec claims st0 c) as (H1 & H2 & H3 & H4).
      destruct (IH (inherit_ambiguous claims st0 c)) as (-> & -> & -> & Hu). split_and!; try done.
      intros x. rewrite Hu, H4. setoid_rewrite elem_of_cons. naive_solver. }
  revert st; induction ic as [|i ic IH]; intros st; cbn [foldl].
  - split_and!; try done. intros x. setoid_rewrite elem_of_nil. naive_solver.
  - destruct (Hone i.1 i.2 st) as (H1 & H2 & H3 & H4).
    destruct (IH (foldl (inherit_ambiguous i.1) st i.2)) as (-> & -> & -> & Hu). split_and!; try done.
    intros x. rewrite Hu, H4. setoid_rewrite elem_of_cons. naive_solver.
Qed.

(** The rows' claims, the void ones and the ambiguous ones of one reading. *)
Definition row_claims (rd : reading) (k c : string) : Prop :=
  claim_dates (rd_index rd) (rd_withdrawn rd) (rd_parsed rd) k c <> [].
Definition void_claims (rd : reading) (w t : string) : Prop :=
  exists p, p ∈ rd_parsed rd /\ void_claim (rd_index rd) (rd_withdrawn rd) p = Some (w, t).
Definition handed_down (rd : reading) : string -> string -> Prop :=
  passes (rd_withdrawn rd) (void_claims rd).

Lemma passes_iff W (R R' : string -> string -> Prop) a b :
  (forall x y, R x y <-> R' x y) -> passes W R a b <-> passes W R' a b.
Proof.
  intros HR. split; induction 1 as [w t Ht|w v t Hv HvW Hp IH];
    solve [apply passes_direct, HR, Ht | apply passes_through with v; [apply HR, Hv|done|done]].
Qed.

Lemma void_claim_withdrawn idx W p w t : void_claim idx W p = Some (w, t) -> w ∈ W.
Proof. unfold void_claim. repeat (case_match || case_decide); naive_solver. Qed.

Lemma finish_spec rd st :
  collect rd = Ok st ->
  let st' := finish rd st in
  spliced (rd_withdrawn rd) (withdrawn_targets st) (order st) (when_ st) (elements (rd_withdrawn rd))
    (winner st', order st', when_ st') /\
  (forall x, x ∈ unresolved st' <-> x ∈ unresolved st \/
     exists w cl c, cl ∈ default [] (odict_get w (withdrawn_ambiguous st)) /\
       c ∈ claimants_of (order st) (withdrawn_targets st) w /\ x ∈ cl.2).
Proof.
  intros Hst. pose proof (collect_collected rd st Hst) as [Hcon _ _].
  pose proof (splice_withdrawn_spec (rd_withdrawn rd) (withdrawn_targets st) _ _ _ Hcon) as Hsp.
  unfold finish. destruct (splice_withdrawn _ _ _) as [[w' o'] d'].
  match goal with |- context [foldl ?f ?s0 (map ?g ?l)] =>
    pose proof (inherit_all_spec (map g l) s0) as (H1 & H2 & H3 & H4) end.
  cbn zeta. rewrite H1, H2, H3. split; [done|]. intros x. rewrite H4. cbn [unresolved].
  apply or_iff_compat_l. pose proof (col_amb_nodup _ _ _ _ (collect_rest rd st Hst)) as Hnd. split.
  - intros (i & cl & c & Hi & ?). apply list_elem_of_fmap in Hi as ([w cs] & -> & Hin).
    exists w, cl, c. apply odict_get_some in Hin; [|done]. by rewrite Hin.
  - intros (w & cl & c & Hcl & Hc & Hx).
    destruct (odict_get w (withdrawn_ambiguous st)) as [cs|] eqn:Hw; [|by apply not_elem_of_nil in Hcl].
    apply odict_get_some in Hw; [|done]. exists (cs, claimants_of (order st) (withdrawn_targets st) w), cl, c.
    split_and!; try done. apply list_elem_of_fmap. by exists (w, cs).
Qed.
End resolver_lemmas.

(** *** Dates a store writes *)

Definition not_naive (d : option datetime) : Prop :=
  match d with Some t => is_naive t = false | None => True end.

Lemma merge_date_aware prev first :
  not_naive first -> match prev with Some p => not_naive p | None => True end ->
  exists d, merge_date prev first = Ok d /\ not_naive d.
Proof.
  destruct prev as [[[p|p]|]|], first as [[f|f]|]; simpl; try done; intros _ _; eexists; (split; [reflexivity|]);
    try done. by case_bool_decide.
Qed.

Lemma claim_rows_first (rows : list SupersessionRow) p :
  p ∈ claim_rows rows -> exists r, r ∈ rows /\ rp_first p = as_time (row_first r).
Proof.
  unfold claim_rows. intros (parts & Hp & Hin)%list_elem_of_bind.
  apply list_elem_of_fmap in Hin as (r & -> & Hr). exists r. split; [done|]. revert Hp.
  cbn zeta. case_decide.
  - intros (t & -> & _)%list_elem_of_fmap. reflexivity.
  - intros ->%list_elem_of_singleton. reflexivity.
Qed.

Lemma row_step_total `{UriReader} idx W st p :
  not_naive (rp_first p) -> (forall kc d, when_ st !! kc = Some d -> not_naive d) ->
  exists st', row_step idx W st p = Ok st'.
Proof.
  intros Hp Hst. unfold row_step.
  destruct (text_of (rp_file p)) as [file|]; [|by eexists].
  destruct (text_of (rp_supersedes p)) as [s|]; [|by eexists]. cbn zeta.
  set (c := key idx file (rp_source p)).
  assert (Hrec : forall k, exists st', record_claim k c (rp_first p) (note_window c p st) = Ok st').
  { intros k. unfold record_claim.
    assert (Hw : when_ (note_window c p st) = when_ st)
      by (unfold note_window; repeat (case_match || case_decide); done).
    rewrite Hw. destruct (merge_date_aware (when_ st !! (k, c)) (rp_first p)) as (d & -> & _); [done| |by eexists].
    destruct (when_ st !! (k, c)) eqn:E; [by eapply Hst|done]. }
  destruct (match_reference idx s c) as [[] found]; repeat case_decide; eauto.
Qed.

(** ** Properties *)

Section resolver_theorems.
Context `{UriReader}.

Lemma resolve_rows_ok rows records tenant g :
  resolve_rows rows records tenant = Ok g ->
  let rd := read_rows rows records tenant in
  exists st, collect rd = Ok st /\ g_edges g = winner (finish rd st) /\
    g_unresolved g = unresolved (finish rd st) /\ g_candidates g = candidates_of (finish rd st).
Proof.
  unfold resolve_rows. rewrite bind_ok. intros (st & Hst & [= <-]). by exists st.
Qed.

Lemma candidates_lookup st k :
  candidates_of st !! k =
  map (fun f => (f, default None (when_ st !! (k, f)))) <$> order st !! k.
Proof. unfold candidates_of. rewrite map_lookup_imap. by destruct (order st !! k). Qed.

Lemma candidates_fst st k : (default [] (candidates_of st !! k)).*1 = default [] (order st !! k).
Proof.
  rewrite candidates_lookup. destruct (order st !! k) as [l|]; simpl; [|done].
  rewrite <-list_fmap_compose. apply list_fmap_id.
Qed.

Lemma candidates_claims st k c :
  c ∈ (default [] (candidates_of st !! k)).*1 <-> claims_in (order st) k c.
Proof. by rewrite candidates_fst, claims_in_default. Qed.

Lemma collected_row_claims rd st k c :
  collect rd = Ok st -> claims_in (order st) k c <-> row_claims rd k c.
Proof. intros Hst. apply (col_claims _ _ _ _ (collect_collected rd st Hst)). Qed.

Lemma row_claims_not_withdrawn rd k c : row_claims rd k c -> c ∉ rd_withdrawn rd.
Proof.
  unfold row_claims, claim_dates. destruct (filter _ (rd_parsed rd)) as [|p l] eqn:Hf; [done|]. intros _.
  assert (Hp : p ∈ filter (fun p => row_claim (rd_index rd) (rd_withdrawn rd) p = Some (k, c)) (rd_parsed rd))
    by (rewrite Hf; by left).
  apply list_elem_of_filter in Hp as [Hp%row_claim_spec _]. tauto.
Qed.

Lemma handed_down_iff rd st w k :
  collect rd = Ok st ->
  passes (rd_withdrawn rd) (targets_in (withdrawn_targets st)) w k <-> handed_down rd w k.
Proof. intros Hst. apply passes_iff. intros x y. apply (col_void _ _ _ _ (collect_rest rd st Hst)). Qed.

(** The claims the finished pass holds. *)
Lemma finish_claims rd st k c :
  collect rd = Ok st ->
  claims_in (order (finish rd st)) k c <->
  k ∉ rd_withdrawn rd /\
  (row_claims rd k c \/
   exists w, w ∈ rd_withdrawn rd /\ row_claims rd w c /\ handed_down rd w k /\ c <> k).
Proof.
  intros Hst. destruct (finish_spec rd st Hst) as [[_ Hcl _ _] _]. cbn [fst snd] in Hcl.
  rewrite Hcl, elem_of_elements, collected_row_claims by done.
  split; intros (HW & [?|(w & Hw & Hc & Hrest)]); (split; [done|]); [by left|right|by left|right]; exists w;
    rewrite elem_of_elements, collected_row_claims, handed_down_iff in * by done.
  - tauto.
  - tauto.
Qed.

End resolver_theorems.

(** C11: the graph holds exactly the claims the corpus makes.  A document is a
    claimant of [k] if and only if [k] is not withdrawn and either a row of the
    document (or of a removed memo standing in) claims [k], or it claims a
    withdrawn memo that passes its claims on to [k], through other withdrawn memos
    in turn; never on itself. *)
Theorem resolved_claims_exact `{UriReader} rows records tenant g k c :
  resolve_rows rows records tenant = Ok g ->
  let rd := read_rows rows records tenant in
  c ∈ (default [] (g_candidates g !! k)).*1 <->
  k ∉ rd_withdrawn rd /\
  (row_claims rd k c \/
   exists w, w ∈ rd_withdrawn rd /\ row_claims rd w c /\ handed_down rd w k /\ c <> k).
Proof.
  intros (st & Hst & _ & _ & ->)%resolve_rows_ok rd.
  rewrite candidates_claims. apply finish_claims, Hst.
Qed.

(** The graph is consistent.  Each hidden key's primary successor is the last
    of its claimants; no key has an empty list of claimants, claims itself or is
    claimed twice by one document; and no withdrawn memo is hidden or hides. *)
Theorem graph_consistent `{UriReader} rows records tenant g k :
  resolve_rows rows records tenant = Ok g ->
  let claimants := (default [] (g_candidates g !! k)).*1 in
  g_edges g !! k = last claimants /\
  g_candidates g !! k <> Some [] /\ NoDup claimants /\ k ∉ claimants /\
  (k ∈ rd_withdrawn (read_rows rows records tenant) ->
   g_edges g !! k = None /\ forall k', k ∉ (default [] (g_candidates g !! k')).*1).
Proof.
  intros (st & Hst & -> & _ & ->)%resolve_rows_ok.
  set (rd := read_rows rows records tenant) in *.
  destruct (finish_spec rd st Hst) as [[Hcon Hcl _ _] _]. cbn [fst snd] in *.
  cbn zeta. rewrite candidates_fst.
  assert (Hedge : winner (finish rd st) !! k = last (default [] (order (finish rd st) !! k))).
  { rewrite (con_winner _ _ _ Hcon). by destruct (order (finish rd st) !! k). }
  rewrite Hedge. split; [done|].
  split. { rewrite candidates_lookup. destruct (order _ !! k) as [l|] eqn:Hl; [|done].
    apply (con_slot _ _ _ Hcon) in Hl as (? & _). by destruct l. }
  split; [by eapply con_nodup|].
  split. { rewrite <-claims_in_default. intros (l & Hl & Hin). by apply (con_slot _ _ _ Hcon) in Hl as (_ & _ & ?). }
  intros HW. split.
  - destruct (last _) as [c|] eqn:Hl; [|done]. exfalso.
    assert (Hc : claims_in (order (finish rd st)) k c) by by apply claims_in_default; apply last_Some_elem_of.
    apply Hcl in Hc as [Hn _]. by apply Hn, elem_of_elements.
  - intros k'. rewrite candidates_claims, Hcl.
    assert (Hno : forall j, ~ claims_in (order st) j k).
    { intros j Hj. rewrite collected_row_claims in Hj by done. by apply row_claims_not_withdrawn in Hj. }
    intros (_ & [?|(w & _ & ? & _)]); by eapply Hno.
Qed.

(** A claim keeps its date.  A document's own claim on [k] is dated by its rows
    that carry it: unknown when one of them is undated, otherwise the earliest of
    them; a claim handed down by a withdrawn memo is dated by the document's claim
    on a withdrawn memo that hands it down. *)
Theorem resolved_claim_dates `{UriReader} rows records tenant g k c d :
  resolve_rows rows records tenant = Ok g ->
  let rd := read_rows rows records tenant in
  let dates k := claim_dates (rd_index rd) (rd_withdrawn rd) (rd_parsed rd) k c in
  (c, d) ∈ default [] (g_candidates g !! k) ->
  if decide (dates k = [])
  then exists w, w ∈ rd_withdrawn rd /\ handed_down rd w k /\ dated_by (dates w) d
  else dated_by (dates k) d.
Proof.
  intros (st & Hst & _ & _ & ->)%resolve_rows_ok rd dates. fold rd in Hst |- *.
  rewrite candidates_lookup. destruct (order (finish rd st) !! k) as [l|] eqn:Hl; simpl; [|by intros ?%not_elem_of_nil].
  intros (f & [= <- ->] & Hf)%list_elem_of_fmap.
  destruct (finish_spec rd st Hst) as [[Hcon _ Hown Hmv] _]. cbn [fst snd] in *.
  assert (Hin : claims_in (order (finish rd st)) k c) by (by exists l).
  assert (Hdate : forall j, dates j <> [] -> dated_by (dates j) (default None (when_ st !! (j, c)))).
  { intros j Hj. pose proof (col_dates _ _ _ _ (collect_collected rd st Hst) j c) as Hd.
    by destruct (when_ st !! (j, c)). }
  pose proof (collected_row_claims rd st k c Hst) as Hk. unfold row_claims in Hk. fold (dates k) in Hk.
  case_decide as Hnil.
  - destruct (Hmv k c Hin) as (w & Hw & Hwc & Hp & ->); [by intros Hn%Hk|].
    exists w. rewrite elem_of_elements in Hw. rewrite handed_down_iff in Hp by done.
    split_and!; try done. apply Hdate. by apply (collected_row_claims rd st w c Hst).
  - rewrite Hown by (by apply Hk). by apply Hdate.
Qed.

(** Ambiguity fails closed.  The unresolved documents are exactly the
    candidates of the ambiguous references, each written by a document that is not
    withdrawn, or by a withdrawn memo that some document still claims, directly or
    through other withdrawn memos. *)
Theorem unresolved_exact `{UriReader} rows records tenant g x :
  resolve_rows rows records tenant = Ok g ->
  let rd := read_rows rows records tenant in
  x ∈ g_unresolved g <->
  exists p w reference found,
    p ∈ rd_parsed rd /\ ambiguous_row (rd_index rd) p = Some (w, (reference, found)) /\ x ∈ found /\
    (w ∉ rd_withdrawn rd \/
     exists m c, (m = w \/ handed_down rd m w) /\ row_claims rd m c).
Proof.
  intros (st & Hst & _ & -> & _)%resolve_rows_ok rd. fold rd in Hst |- *.
  destruct (finish_spec rd st Hst) as [_ Hu]. rewrite Hu. clear Hu.
  pose proof (collect_rest rd st Hst) as [Hn Hv _ Ha Hun].
  assert (Hof : forall w c, c ∈ claimants_of (order st) (withdrawn_targets st) w <->
            exists m, (m = w \/ handed_down rd m w) /\ row_claims rd m c).
  { intros w c. rewrite (claimants_of_spec (rd_withdrawn rd)); [|done|].
    - split; intros (m & Hm & Hc); exists m;
        rewrite (handed_down_iff rd st m w Hst), (collected_row_claims rd st m c Hst) in *; done.
    - intros w' t (p & _ & Hp)%Hv. by eapply void_claim_withdrawn. }
  split.
  - intros [(p & w & [r found] & Hp & Hrow & HW & Hx)%Hun|(w & [r found] & c & Hcl & Hc & Hx)].
    + exists p, w, r, found. split_and!; auto.
    + apply Ha in Hcl as (HW & p & Hp & Hrow). apply Hof in Hc as (m & ? & ?).
      exists p, w, r, found. split_and!; try done. right. by exists m, c.
  - intros (p & w & r & found & Hp & Hrow & Hx & Hw).
    destruct (decide (w ∈ rd_withdrawn rd)) as [HW|HW].
    + right. destruct Hw as [?|(m & c & Hm & Hc)]; [done|]. exists w, (r, found), c.
      split_and!; [|apply Hof; by exists m|done]. apply Ha. split; [done|]. by exists p.
    + left. apply Hun. by exists p, w, (r, found).
Qed.

(** Resolution is total on what a store holds.  When no row and no record is
    dated by a naive datetime (a store's are all aware), the pass returns a graph. *)
Theorem resolve_rows_total `{UriReader} rows records tenant :
  (forall r, r ∈ rows -> not_naive (as_time (row_first r))) ->
  (forall r c, r ∈ records -> c ∈ sr_claims r -> not_naive (rc_first c)) ->
  exists g, resolve_rows rows records tenant = Ok g.
Proof.
  intros Hrows Hrecords. unfold resolve_rows. set (rd := read_rows rows records tenant).
  assert (Hparsed : forall p, p ∈ rd_parsed rd -> not_naive (rp_first p)).
  { intros p. unfold rd, read_rows. cbn [rd_parsed]. rewrite elem_of_app.
    intros [(r & Hp & Hr)%list_elem_of_bind|Hp].
    - unfold standing_records in Hr. apply list_elem_of_filter in Hr as [_ Hr]. revert Hp. unfold ghost_rows.
      destruct (sr_claims r) as [|c0 cs] eqn:Hc; [by intros ->%list_elem_of_singleton|].
      intros (c & -> & Hin)%list_elem_of_fmap. apply (Hrecords r); [done|by rewrite Hc].
    - apply claim_rows_first in Hp as (r & Hr & ->). by apply Hrows. }
  assert (Hcol : exists st, collect rd = Ok st /\
            forall kc d, when_ st !! kc = Some d -> not_naive d).
  { apply result_foldl_total; [intros kc d; simpl; by rewrite lookup_empty|].
    intros p st Hst Hp%Hparsed.
    destruct (row_step_total (rd_index rd) (rd_withdrawn rd) st p Hp Hst) as [st' Hs].
    exists st'. split; [done|]. apply row_step_claims in Hs.
    destruct (row_claim _ _ p) as [[k c]|]; [|by destruct Hs as (_ & _ & ->)].
    destruct Hs as (d & Hm & _ & _ & ->). intros kc d'.
    intros [[<- <-]|[_ Hd]]%lookup_insert_Some; [|by eapply Hst].
    destruct (merge_date_aware (when_ st !! (k, c)) (rp_first p)) as (d1 & Hd1 & ?); [done| |congruence].
    destruct (when_ st !! (k, c)) eqn:E; [by eapply Hst|done]. }
  destruct Hcol as (st & -> & _). simpl. eauto.
Qed.

(** ** Witnesses

    The corpus [a.md] <- [b.md] <- [c.md] after [b.md] has been withdrawn, beside a
    document with an ambiguous reference. *)
Section witnesses.
Let row (file target : string) (at_ : Z) (source : string) : SupersessionRow :=
  Row (VStr file) (if decide (target = "") then VNone else VStr target) (VTime (Aware at_)) [VStr source].

Definition demo_rows : list SupersessionRow :=
  [row "a.md" "" 1 "/r/a.md"; row "c.md" "b.md" 3 "/r/c.md"; row "x/n.md" "" 4 "/r/x/n.md";
   row "y/n.md" "" 4 "/r/y/n.md"; row "d.md" "n" 5 "/r/d.md"].

Definition demo_records : list SupersessionRecord :=
  [Record_ WITHDRAWN_RECORD "b.md" "/r/b.md" [Claim "a" (Some (Aware 2)) VNone VNone]].

Definition demo_graph : SupersessionGraph :=
  match resolve_rows demo_rows demo_records None with
  | Ok g => g
  | Raise _ => from_parts ∅ ∅ None None
  end.
End witnesses.

Lemma demo_ok : resolve_rows demo_rows demo_records None = Ok demo_graph.
Proof. vm_compute. reflexivity. Qed.

Lemma resolved_claims_exact_witness :
  let rd := read_rows demo_rows demo_records None in
  let claimants := (default [] (g_candidates demo_graph !! "a.md")).*1 in
  claimants = ["c.md"] /\
  ("c.md" ∈ claimants <->
   "a.md" ∉ rd_withdrawn rd /\
   (row_claims rd "a.md" "c.md" \/
    exists w, w ∈ rd_withdrawn rd /\ row_claims rd w "c.md" /\ handed_down rd w "a.md" /\ "c.md" <> "a.md")).
Proof.
  split; [vm_compute; reflexivity|].
  exact (resolved_claims_exact demo_rows demo_records None demo_graph "a.md" "c.md" demo_ok).
Defined.

Lemma graph_consistent_witness :
  "b.md" ∈ rd_withdrawn (read_rows demo_rows demo_records None) /\ g_edges demo_graph !! "b.md" = None.
Proof.
  assert (HW : "b.md" ∈ rd_withdrawn (read_rows demo_rows demo_records None))
    by (by_decide).
  split; [exact HW|].
  destruct (graph_consistent demo_rows demo_records None demo_graph "b.md" demo_ok) as (_ & _ & _ & _ & Hw).
  by apply Hw.
Defined.

Lemma resolved_claim_dates_witness :
  let rd := read_rows demo_rows demo_records None in
  exists w, w ∈ rd_withdrawn rd /\ handed_down rd w "a.md" /\
    dated_by (claim_dates (rd_index rd) (rd_withdrawn rd) (rd_parsed rd) w "c.md") (Some (Aware 3)).
Proof.
  assert (Hin : ("c.md", Some (Aware 3)) ∈ default [] (g_candidates demo_graph !! "a.md"))
    by (by_decide).
  pose proof (resolved_claim_dates demo_rows demo_records None demo_graph "a.md" "c.md" _ demo_ok Hin) as Hd.
  cbn zeta in Hd. rewrite decide_True in Hd by (vm_compute; reflexivity). exact Hd.
Defined.

Lemma unresolved_exact_witness :
  let rd := read_rows demo_rows demo_records None in
  g_unresolved demo_graph = {[ "x/n.md"; "y/n.md" ]} /\
  exists p w reference found,
    p ∈ rd_parsed rd /\ ambiguous_row (rd_index rd) p = Some (w, (reference, found)) /\ "x/n.md" ∈ found /\
    (w ∉ rd_withdrawn rd \/
     exists m c, (m = w \/ handed_down rd m w) /\ row_claims rd m c).
Proof.
  assert (Hu : g_unresolved demo_graph = {[ "x/n.md"; "y/n.md" ]}) by (vm_compute; reflexivity).
  split; [exact Hu|].
  apply (unresolved_exact demo_rows demo_records None demo_graph "x/n.md" demo_ok).
  rewrite Hu. set_solver.
Defined.

Lemma resolve_rows_total_witness :
  exists g, resolve_rows demo_rows demo_records None = Ok g.
Proof.
  apply (resolve_rows_total demo_rows demo_records None).
  - apply Forall_forall. unfold demo_rows. repeat constructor.
  - intros r c Hr. apply list_elem_of_singleton in Hr as ->. cbn [sr_claims].
    intros Hc. apply list_elem_of_singleton in Hc as ->. reflexivity.
Defined.
