(* ===== verification/FrontmatterBlock.v ===== *)
(** * FrontmatterBlock: the block of a memo and what it declares (src/recall/frontmatter.py)

    Which [---] pair is a frontmatter block, the keys it declares and the body that is left.
    A line is the list of its characters; [json_loads] is what [json.loads] returns, [None]
    where it raises [ValueError] or [RecursionError].  A text starts after its byte order
    marks: [lstrip("\ufeff")] removes what the texts of this development cannot hold. *)
From S2P Require Import Prelude Text Float64 Frontmatter References.

Local Open Scope nat_scope.

Abbreviation line := (list ascii).

Definition LF : ascii := Ascii.ascii_of_nat 10.
Definition CR : ascii := Ascii.ascii_of_nat 13.

(** [text.split("\n")]. *)
Definition text_lines (text : string) : list line := split_chars LF (chars text).

(** [line.partition(":")], [None] when there is no colon. *)
Fixpoint partition_colon (l : line) : option (line * line) :=
  match l with
  | [] => None
  | c :: l' =>
      if decide (c = ":"%char) then Some ([], l')
      else '(k, v) ← partition_colon l'; Some (c :: k, v)
  end.

Definition stripped (l : line) : string := unchars (strip_chars l).

(** ** What a line of a block looks like *)

Definition starts_space (l : line) : bool := match l with c :: _ => is_space c | [] => false end.

(** [\s* :] at the head of what is left. *)
Definition colon_after_space (l : line) : bool :=
  match drop_while is_space l with c :: _ => bool_decide (c = ":"%char) | [] => false end.

Definition is_quote (c : ascii) : bool := bool_decide (c = "'"%char \/ c = dquote).

(** A quoted key: a quote, no quote up to the next one, then the colon. *)
Definition quoted_key (l : line) : bool :=
  match l with
  | c :: rest =>
      is_quote c &&
      match drop_while (fun c => negb (is_quote c)) rest with
      | _ :: after => colon_after_space after
      | [] => false
      end
  | [] => false
  end.

Definition opens_markdown (c : ascii) : bool :=
  is_space c || bool_decide (c ∈ chars ":#-*+`[>|").

(** A bare key: no character that opens a markdown line, [-] and [+] only before a character
    that is not a space; then a colon somewhere after it. *)
Definition bare_key (l : line) : bool :=
  match l with
  | c :: rest =>
      (bool_decide (c = "-"%char \/ c = "+"%char) && match rest with d :: _ => negb (is_space d) | [] => false end
       || negb (opens_markdown c)) && bool_decide (":"%char ∈ rest)
  | [] => false
  end.

(** [_KEY_LINE]. *)
Definition key_line (l : line) : bool := quoted_key l || bare_key l.

(** A marker, then a space or the end of the line. *)
Definition marker (ok : ascii -> bool) (l : line) : bool :=
  match l with
  | c :: rest => ok c && match rest with d :: _ => is_space d | [] => true end
  | [] => false
  end.

(** [_EXPLICIT_KEY] and [_SEQUENCE_ITEM]. *)
Definition explicit_key : line -> bool := marker (fun c => bool_decide (c = "?"%char \/ c = ":"%char)).
Definition sequence_item : line -> bool := marker (fun c => bool_decide (c = "-"%char)).

(** [_FLOW_CLOSER]. *)
Definition flow_closer (l : line) : bool :=
  match l with
  | c :: rest =>
      bool_decide (c = "]"%char \/ c = "}"%char) &&
      forallb is_space (match rest with d :: rest' => if decide (d = ","%char) then rest' else rest | [] => [] end)
  | [] => false
  end.

(** [_BLOCK_ITEM]: the item, stripped. *)
Definition block_item (l : line) : option line :=
  match drop_while is_space l with
  | "-"%char :: ((d :: _) as rest) =>
      let item := strip_chars (tail rest) in
      if is_space d && negb (bool_decide (item = [])) then Some item else None
  | _ => None
  end.

(** ** [frontmatter_span] *)

Definition is_rule (l : line) : bool := bool_decide (stripped l = "---").

(** Whether a line is a member of the block, and whether a key has been seen with it. *)
Definition member (seen : bool) (l : line) : option bool :=
  if decide (strip_chars l = []) then Some seen
  else if starts_space l then Some (seen || key_line (strip_chars l))
  else if key_line l || explicit_key l then Some true
  else if seen && (starts_with (stripped l) "#" || sequence_item l || flow_closer l) then Some true
  else None.

Fixpoint span_from (i : nat) (seen : bool) (ls : list line) : option nat :=
  match ls with
  | [] => None
  | l :: ls' =>
      if is_rule l then if seen then Some i else None
      else seen' ← member seen l; span_from (S i) seen' ls'
  end.

Definition span_of (ls : list line) : option nat :=
  match ls with
  | l :: ls' => if is_rule l then span_from 1 false ls' else None
  | [] => None
  end.

Definition frontmatter_span (text : string) : option nat := span_of (text_lines text).

(** ** [parse_frontmatter] *)

Definition SUPERSEDES : string := "supersedes".
Definition VALIDITY_KEYS : list string := ["valid_from"; "valid_until"; SUPERSEDES].
Definition FACET_KEYS : list string := ["type"].
Definition FACET_MAX_LENGTH : nat := 64.
Definition GRAPH_KEY : string := "recall_graph".
Definition RECORD_KEY : string := "recall_record".
Definition RECORD_LABEL_KEYS : list string := ["name"; "description"].

(** [supersedes_key]. *)
Definition supersedes_key (value : string) : string :=
  let v := chars (strip value) in
  let v := unchars (unwrap (length v) v) in
  let v := if ends_with (lower v) ".md" then drop_last 3 v else v in
  strip (last_segment v).

(** [_supersedes_value]: the references once each, the first spelling kept. *)
Definition unique_step (st : list string * list string) (target : string) : list string * list string :=
  let key := supersedes_key target in
  if decide (target <> "" /\ key ∉ st.2) then (st.1 ++ [target], st.2 ++ [key]) else st.

Definition unique_targets (targets : list string) : list string := (foldl unique_step ([], []) targets).1.

Definition supersedes_value (targets : list string) : value :=
  match unique_targets targets with
  | [] => VStr ""
  | [one] => VStr one
  | unique => VList (VStr <$> unique)
  end.

Definition parse_error (msg : string) : value := VDict [("__parse_error__", VStr msg)].

Section parser.
Context (json_loads : string -> option value).

(** [_label_value]. *)
Definition label_value (s : string) : string :=
  let decoded :=
    if (2 <=? length (chars s)) && starts_with s (unchars [dquote]) && ends_with s (unchars [dquote])
    then json_loads s ≫= as_str else None in
  default (unquote_value s) decoded.

(** What has been read of a block; [ps_in_items] while the lines of a [supersedes] sequence
    follow one another. *)
Record parse_state := Parse {
  ps_meta : metadata;
  ps_labels : list (string * string);
  ps_targets : option (list string);
  ps_in_items : bool
}.

Definition set_meta (k : string) (v : value) (st : parse_state) : parse_state :=
  Parse (odict_set k v (ps_meta st)) (ps_labels st) (ps_targets st) false.

Definition set_targets (targets : list string) (in_items : bool) (st : parse_state) : parse_state :=
  Parse (ps_meta st) (ps_labels st) (Some targets) in_items.

Definition left_items (st : parse_state) : parse_state :=
  Parse (ps_meta st) (ps_labels st) (ps_targets st) false.

(** One [key: value] line. *)
Definition read_key (l : line) (key value : string) (st : parse_state) : parse_state :=
  if decide (key = SUPERSEDES) then
    let targets := default [] (ps_targets st) in
    if decide (value = "") then set_targets targets true st
    else set_targets (targets ++ reference_items value) false st
  else if decide (key ∈ VALIDITY_KEYS) then set_meta key (VStr (unquote_value value)) st
  else if decide (key ∈ FACET_KEYS) then
    let facet := unquote_value value in
    if decide (facet <> "" /\ length (chars facet) <= FACET_MAX_LENGTH) then set_meta key (VStr facet) st
    else left_items st
  else if decide (key = GRAPH_KEY) then
    set_meta key (default (parse_error "recall_graph must be one-line JSON") (json_loads value)) st
  else if decide (key = RECORD_KEY) then
    set_meta key (match odict_get key (ps_meta st) with
                  | Some _ => parse_error "recall_record declared more than once"
                  | None => default (parse_error "recall_record must be one line of JSON") (json_loads value)
                  end) st
  else if decide (key ∈ RECORD_LABEL_KEYS /\ starts_space l = false /\ l <> []) then
    Parse (ps_meta st) (odict_set key (label_value value) (ps_labels st)) (ps_targets st) false
  else left_items st.

Definition read_line (st : parse_state) (l : line) : parse_state :=
  match (if ps_in_items st then block_item l else None) with
  | Some item => set_targets (default [] (ps_targets st) ++ [unquote_value (strip (unchars item))]) true st
  | None =>
      match partition_colon l with
      | Some (k, v) => read_key l (stripped k) (stripped v) st
      | None => left_items st
      end
  end.

Definition block_start : parse_state := Parse [] [] None false.

(** The metadata of a block: the references last, the labels only beside a record. *)
Definition block_meta (st : parse_state) : metadata :=
  let meta := match ps_targets st with
              | Some targets => odict_set SUPERSEDES (supersedes_value targets) (ps_meta st)
              | None => ps_meta st
              end in
  match odict_get RECORD_KEY meta with
  | Some _ => foldl (fun m p => odict_set p.1 (VStr p.2) m) meta (ps_labels st)
  | None => meta
  end.

Definition parse_block (block : list line) : metadata := block_meta (foldl read_line block_start block).

Definition join_lines (ls : list line) : string := join (unchars [LF]) (unchars <$> ls).

Definition body_after (ls : list line) : string :=
  unchars (drop_while (fun c => bool_decide (c = LF)) (chars (join_lines ls))).

Definition parse_frontmatter (text : string) : metadata * string :=
  match frontmatter_span text with
  | None => ([], text)
  | Some span =>
      let ls := text_lines text in
      (parse_block (take (span - 1) (drop 1 ls)), body_after (drop (S span) ls))
  end.
End parser.

Definition no_json (s : string) : option value := None.

Definition unlines (l : list string) : string := join (unchars [LF]) l.

Example span_ex1 : frontmatter_span (unlines ["---"; "tags:"; "- a"; "---"; "body"]) = Some 3.
Proof. vm_compute. reflexivity. Qed.
Example span_ex2 : frontmatter_span (unlines ["---"; "- a point"; "x: y"; "---"]) = None.
Proof. vm_compute. reflexivity. Qed.
Example span_ex3 : frontmatter_span (unlines ["---"; "# note"; "x: y"; "---"]) = None.
Proof. vm_compute. reflexivity. Qed.
Example parse_ex1 :
  parse_frontmatter no_json (unlines ["---"; "valid_until: '2020-01-01'"; "supersedes:"; "  - a.md"; " - [[a]]"; "- 'b.md' "; "name: n"; "---"; ""; "body"]) =
  ([("valid_until", VStr "2020-01-01"); ("supersedes", VList [VStr "a.md"; VStr "b.md"])], "body").
Proof. vm_compute. reflexivity. Qed.
