(* ===== verification/FrontmatterWriters.v ===== *)
(** * FrontmatterWriters: editing the block of a memo, on bytes (src/recall/frontmatter.py)

    Inserting a key, setting or removing a single-valued key, declaring and withdrawing a
    [supersedes] reference.  A byte is one of the 256 values of [ascii]; a document is the UTF-8
    form of a text of this development behind any number of byte order marks, and [decode]
    refuses every other sequence of bytes. *)
From S2P Require Import Prelude Text Float64 Frontmatter References FrontmatterBlock.

Local Open Scope nat_scope.

Abbreviation bytes := (list ascii).

Definition byte (n : nat) : ascii := Ascii.ascii_of_nat n.

(** ** UTF-8 *)

Definition encode_char (c : ascii) : bytes :=
  let n := code c in
  if n <? 128 then [c] else [byte (192 + n / 64); byte (128 + n mod 64)].

Definition encode_chars (l : list ascii) : bytes := l ≫= encode_char.
Definition encode (t : string) : bytes := encode_chars (chars t).

Fixpoint decode_chars (bs : bytes) : option (list ascii) :=
  match bs with
  | [] => Some []
  | b :: rest =>
      if code b <? 128 then cons b <$> decode_chars rest
      else if (194 <=? code b) && (code b <=? 195) then
        match rest with
        | c :: rest' =>
            if (128 <=? code c) && (code c <? 192)
            then cons (byte ((code b - 192) * 64 + (code c - 128))) <$> decode_chars rest' else None
        | [] => None
        end
      else None
  end.

Definition decode (bs : bytes) : result string :=
  match decode_chars bs with Some l => Ok (unchars l) | None => Raise (ValueError "utf-8") end.

(** ** Lines, terminators and byte order marks *)

Definition BOM : bytes := [byte 239; byte 187; byte 191].

(** [split_bom]. *)
Fixpoint split_bom (raw : bytes) : bytes * bytes :=
  match raw with
  | a :: b :: c :: rest =>
      if decide ([a; b; c] = BOM) then let '(bom, body) := split_bom rest in (a :: b :: c :: bom, body)
      else ([], raw)
  | _ => ([], raw)
  end.

Inductive eol := NoEol | EndLF | EndCR | EndCRLF.

#[export] Instance eol_eq_dec : EqDecision eol.
Proof. solve_decision. Defined.

Definition eol_bytes (e : eol) : bytes :=
  match e with NoEol => [] | EndLF => [LF] | EndCR => [CR] | EndCRLF => [CR; LF] end.

(** The lines of some bytes (or characters), each with what ends it. *)
Fixpoint pieces (l : list ascii) : list (line * eol) :=
  match l with
  | [] => []
  | c :: rest =>
      if decide (c = LF) then ([], EndLF) :: pieces rest
      else if decide (c = CR) then
        match rest with
        | d :: rest' => if decide (d = LF) then ([], EndCRLF) :: pieces rest' else ([], EndCR) :: pieces rest
        | [] => [([], EndCR)]
        end
      else match pieces rest with [] => [([c], NoEol)] | (w, e) :: ps => (c :: w, e) :: ps end
  end.

Definition whole (p : line * eol) : bytes := p.1 ++ eol_bytes p.2.

(** [split_lines]: [data.splitlines(keepends=True)]. *)
Definition split_lines (data : bytes) : list bytes := whole <$> pieces data.

(** [dominant_newline]. *)
Fixpoint dominant_newline (raw : bytes) : bytes :=
  match raw with
  | [] => [LF]
  | c :: rest =>
      if decide (c = CR) then
        match rest with d :: _ => if decide (d = LF) then [CR; LF] else [CR] | [] => [CR] end
      else if decide (c = LF) then [LF] else dominant_newline rest
  end.

Definition bytes_end (suffix l : bytes) : bool := list_prefix (reverse suffix) (reverse l).

(** [line_terminator]. *)
Definition line_terminator (l : bytes) (otherwise : bytes) : bytes :=
  if bytes_end [CR; LF] l then [CR; LF]
  else if bytes_end [LF] l then [LF]
  else if bytes_end [CR] l then [CR]
  else otherwise.

(** What [str.splitlines] ends a line at; its pieces joined are the other characters. *)
Definition ends_line (c : ascii) : bool := bool_decide (code c ∈ [10; 11; 12; 13; 28; 29; 30; 133]).

(** [has_line_break]. *)
Definition has_line_break (text : string) : bool :=
  negb (bool_decide (chars text = List.filter (fun c => negb (ends_line c)) (chars text))).

(** [text.replace("\r\n", "\n").replace("\r", "\n")]. *)
Fixpoint replace_crlf (l : list ascii) : list ascii :=
  match l with
  | [] => []
  | c :: rest =>
      match rest with
      | d :: rest' => if decide (c = CR /\ d = LF) then LF :: replace_crlf rest' else c :: replace_crlf rest
      | [] => [c]
      end
  end.

Definition universal_newlines (t : string) : string := replace_char CR LF (unchars (replace_crlf (chars t))).

Definition line_break_error (key : string) : exn := ValueError (key +:+ ": value contains a line break").

(** [f"{key}: {value}".encode("utf-8")]. *)
Definition entry_of (key value : string) : bytes := encode (key +:+ ": " +:+ value).

(** [insert_frontmatter_line]. *)
Definition insert_frontmatter_line (raw : bytes) (key value : string) : result bytes :=
  if has_line_break value then Raise (line_break_error key)
  else
    let '(bom, body) := split_bom raw in
    let newline := dominant_newline body in
    let entry := entry_of key value in
    let lines := split_lines body in
    t ← decode body;
    match frontmatter_span (universal_newlines t) with
    | Some span =>
        let closing := default [] (lines !! span) in
        Ok (bom ++ mjoin (take span lines ++ [entry ++ line_terminator closing newline] ++ drop span lines))
    | None =>
        let fence := encode "---" in
        Ok (bom ++ fence ++ newline ++ entry ++ newline ++ fence ++ newline ++ body)
    end.

(** ** The lines of a key *)

Definition declares (key : string) (l : line) : bool :=
  match partition_colon l with Some (k, _) => bool_decide (stripped k = key) | None => false end.

(** [_key_lines]. *)
Definition key_lines (ls : list line) (span : nat) (key : string) : list nat :=
  filter (fun i => declares key (default [] (ls !! i)) = true) (seq 1 (span - 1)).

Definition value_part (l : line) : string :=
  match partition_colon l with Some (_, v) => stripped v | None => "" end.

Fixpoint items_length (ls : list line) : nat :=
  match ls with
  | l :: ls' => match block_item l with Some _ => S (items_length ls') | None => 0 end
  | [] => 0
  end.

(** [_key_extent]. *)
Definition key_extent (ls : list line) (span index : nat) : nat :=
  if decide (value_part (default [] (ls !! index)) = "")
  then S index + items_length (take (span - S index) (drop (S index) ls))
  else S index.

(** The spaces a line opens with. *)
Definition indent_of (l : line) : line := take (length l - length (drop_while is_space l)) l.

(** The lines some declarations of a key take up. *)
Definition dropped (ls : list line) (span : nat) (keys : list nat) : list nat :=
  keys ≫= fun i => seq i (key_extent ls span i - i).

(** [set_frontmatter_scalar]: [None] where nothing changes. *)
Definition set_frontmatter_scalar (raw : bytes) (key : string) (value : option string) :
    result (option bytes) :=
  if match value with Some v => has_line_break v | None => false end then Raise (line_break_error key)
  else
    let '(bom, body) := split_bom raw in
    t ← decode body;
    let text := universal_newlines t in
    let insert := match value with None => Ok None | Some v => new ← insert_frontmatter_line raw key v; Ok (Some new) end in
    match frontmatter_span text with
    | None => insert
    | Some span =>
        let ls := text_lines text in
        match key_lines ls span key with
        | [] => insert
        | (first :: _) as keys =>
            let lines := split_lines body in
            let newline := dominant_newline body in
            let head := default [] (ls !! first) in
            if match value with
               | Some v => bool_decide (length keys = 1 /\ unquote_value (value_part head) = v)
               | None => false
               end then Ok None
            else
              let drop_ := dropped ls span keys in
              let replacement := match value with
                | Some v => [encode_chars (indent_of head) ++ entry_of key v ++
                             line_terminator (default [] (lines !! first)) newline]
                | None => []
                end in
              Ok (Some (bom ++ mjoin (mjoin (imap (fun i l =>
                (if decide (i = first) then replacement else []) ++ (if decide (i ∈ drop_) then [] else [l])) lines))))
        end
    end.

(** ** References *)

(** [_reference_folder]. *)
Definition reference_folder (value : string) : string :=
  let v := chars (strip value) in
  let v := unwrap (length v) v in
  let v := chars (replace_char "\" "/" (unchars v)) in
  let v := unchars (drop_while (fun c => bool_decide (c = "/"%char)) (drop_dot_slash v)) in
  if contains_char "/" v then casefold (join "/" (removelast (split_on "/" v))) else "".

(** [_same_reference]. *)
Definition same_reference (a b : string) : bool :=
  bool_decide (supersedes_key a = supersedes_key b) &&
  (bool_decide (reference_folder a = "" \/ reference_folder b = "") ||
   bool_decide (reference_folder a = reference_folder b)).

Section references.
Context (json_loads : string -> option value).

Definition item_line (indent : line) (item : string) (terminator : bytes) : bytes :=
  encode_chars indent ++ encode ("- " +:+ item) ++ terminator.

(** [add_supersedes_target]: [None] where the reference is declared already. *)
Definition add_supersedes_target (raw : bytes) (target : string) : result (option bytes) :=
  if has_line_break target then Raise (line_break_error SUPERSEDES)
  else
    let '(bom, body) := split_bom raw in
    t ← decode body;
    let text := universal_newlines t in
    let meta := (parse_frontmatter json_loads text).1 in
    match odict_get SUPERSEDES meta with
    | None => new ← insert_frontmatter_line raw SUPERSEDES target; Ok (Some new)
    | Some declared =>
        let existing := supersedes_targets declared in
        if decide (existing = []) then Raise (ValueError "the memo declares `supersedes:` with no reference")
        else if existsb (same_reference target) existing then Ok None
        else
          match frontmatter_span text with
          | None => Raise (RuntimeError "assert span is not None")
          | Some span =>
              let ls := text_lines text in
              let lines := split_lines body in
              let newline := dominant_newline body in
              let keys := key_lines ls span SUPERSEDES in
              let last := default 0 (last keys) in
              let terminator := line_terminator (default [] (lines !! last)) newline in
              let indent := indent_of (default [] (ls !! last)) in
              if 1 <? length keys then
                let entry := encode_chars indent ++ entry_of SUPERSEDES target ++ terminator in
                Ok (Some (bom ++ mjoin (take (S last) lines ++ [entry] ++ drop (S last) lines)))
              else
                let stop := key_extent ls span last in
                let item_indent :=
                  if S last <? stop then indent_of (default [] (ls !! S last))
                  else indent ++ [" "; " "]%char in
                let rewritten :=
                  (encode_chars indent ++ encode (SUPERSEDES +:+ ":") ++ terminator) ::
                  map (fun item => item_line item_indent item terminator) (existing ++ [target]) in
                Ok (Some (bom ++ mjoin (take last lines ++ rewritten ++ drop stop lines)))
          end
    end.

(** [remove_supersedes_target]: [None] where the reference is not declared. *)
Definition remove_supersedes_target (raw : bytes) (target : string) : result (option bytes) :=
  let '(bom, body) := split_bom raw in
  t ← decode body;
  let text := universal_newlines t in
  let meta := (parse_frontmatter json_loads text).1 in
  match odict_get SUPERSEDES meta with
  | None => Ok None
  | Some declared =>
      let existing := supersedes_targets declared in
      let remaining := filter (fun item => supersedes_key item <> supersedes_key target) existing in
      if decide (length remaining = length existing) then Ok None
      else
        match frontmatter_span text with
        | None => Raise (RuntimeError "assert span is not None")
        | Some span =>
            let ls := text_lines text in
            let lines := split_lines body in
            let newline := dominant_newline body in
            let keys := key_lines ls span SUPERSEDES in
            let first := default 0 (head keys) in
            let terminator := line_terminator (default [] (lines !! first)) newline in
            let indent := indent_of (default [] (ls !! first)) in
            let drop_ := dropped ls span keys in
            let replacement :=
              match remaining with
              | [] => []
              | [one] => [encode_chars indent ++ entry_of SUPERSEDES one ++ terminator]
              | _ => (encode_chars indent ++ encode (SUPERSEDES +:+ ":") ++ terminator) ::
                     map (fun item => item_line (indent ++ [" "; " "]%char) item terminator) remaining
              end in
            let keep from ls' := mjoin (imap (fun i l => if decide (from + i ∈ drop_) then [] else [l]) ls') in
            Ok (Some (bom ++ mjoin (keep 0 (take first lines) ++ replacement ++ keep first (drop first lines))))
        end
  end.
End references.

(** ** Runs *)

Definition memo_bytes (lines : list string) : bytes := encode (unlines lines).

Example set_ex1 :
  set_frontmatter_scalar (memo_bytes ["---"; "valid_until: 2020-01-01"; "---"; "body"]) "valid_until" (Some "2021-01-01") =
  Ok (Some (memo_bytes ["---"; "valid_until: 2021-01-01"; "---"; "body"])).
Proof. vm_compute. reflexivity. Qed.
Example set_ex2 :
  set_frontmatter_scalar (memo_bytes ["---"; "a rule"; "---"]) "valid_until" (Some "2021-01-01") =
  Ok (Some (memo_bytes ["---"; "valid_until: 2021-01-01"; "---"; "---"; "a rule"; "---"])).
Proof. vm_compute. reflexivity. Qed.
Example add_ex1 :
  add_supersedes_target no_json (memo_bytes ["---"; "supersedes: [a.md, b.md]"; "title: x"; "---"; "body"]) "c.md" =
  Ok (Some (memo_bytes ["---"; "supersedes:"; "  - a.md"; "  - b.md"; "  - c.md"; "title: x"; "---"; "body"])).
Proof. vm_compute. reflexivity. Qed.
Example add_ex2 :
  add_supersedes_target no_json (BOM ++ memo_bytes ["---"; "supersedes: a.md"; "supersedes: b.md"; "---"]) "c.md" =
  Ok (Some (BOM ++ memo_bytes ["---"; "supersedes: a.md"; "supersedes: b.md"; "supersedes: c.md"; "---"])).
Proof. vm_compute. reflexivity. Qed.
Example remove_ex1 :
  remove_supersedes_target no_json (memo_bytes ["---"; "supersedes:"; "- a.md"; "- b.md"; "title: x"; "---"; "body"]) "a" =
  Ok (Some (memo_bytes ["---"; "supersedes: b.md"; "title: x"; "---"; "body"])).
Proof. vm_compute. reflexivity. Qed.
