(* ===== verification/FrontmatterLines.v ===== *)
(** * FrontmatterLines: the lines of a document, as bytes and as text

    Splitting some bytes into terminated lines loses nothing, and the lines the byte writers
    count are the lines [parse_frontmatter] counts: the text of line [i] of the universal-newline
    text is the content of line [i] of the bytes. *)
From S2P Require Import Prelude Text Float64 Frontmatter References FrontmatterBlock FrontmatterWriters.

Local Open Scope nat_scope.

(** ** Terminated lines *)

Definition no_break (w : line) : Prop := LF ∉ w /\ CR ∉ w.

Definition opens_lf (ps : list (line * eol)) : Prop := exists ps', ps = ([], EndLF) :: ps'.

(** The lines a splitting gives: only the last may be unterminated, and no lone [CR] stands
    before a [LF]. *)
Inductive clean : list (line * eol) -> Prop :=
| clean_nil : clean []
| clean_last w : no_break w -> w <> [] -> clean [(w, NoEol)]
| clean_cons w e ps : no_break w -> e <> NoEol -> (e = EndCR -> ~ opens_lf ps) -> clean ps -> clean ((w, e) :: ps).

Definition render (ps : list (line * eol)) : list ascii := mjoin (whole <$> ps).

Lemma no_break_nil : no_break [].
Proof. split; apply not_elem_of_nil. Qed.

Lemma no_break_cons c w : no_break (c :: w) <-> c <> LF /\ c <> CR /\ no_break w.
Proof. unfold no_break. rewrite !not_elem_of_cons. intuition congruence. Qed.

Lemma no_break_app a b : no_break (a ++ b) <-> no_break a /\ no_break b.
Proof. unfold no_break. rewrite !not_elem_of_app. tauto. Qed.

#[export] Hint Resolve no_break_nil : recall.

Lemma CR_LF : CR <> LF.
Proof. discriminate. Qed.

Lemma pieces_plain c l : c <> LF -> c <> CR ->
  pieces (c :: l) = match pieces l with [] => [([c], NoEol)] | (w, e) :: ps => (c :: w, e) :: ps end.
Proof. intros. simpl. by rewrite !decide_False. Qed.

Lemma pieces_LF l : pieces (LF :: l) = ([], EndLF) :: pieces l.
Proof. done. Qed.

Lemma pieces_CRLF l : pieces (CR :: LF :: l) = ([], EndCRLF) :: pieces l.
Proof. done. Qed.

Lemma pieces_CR l : head l <> Some LF -> pieces (CR :: l) = ([], EndCR) :: pieces l.
Proof.
  intros Hl. destruct l as [|d l]; [done|]. cbn [pieces].
  rewrite (decide_False (P := CR = LF)) by apply CR_LF. rewrite decide_True, decide_False; [done| |done]. intros ->. by apply Hl.
Qed.

(** Every list of characters opens with a line break or with another character. *)
Lemma line_cases (P : list ascii -> Prop) :
  P [] -> (forall l, P l -> P (LF :: l)) -> (forall l, P l -> P (CR :: LF :: l)) ->
  (forall l, head l <> Some LF -> P l -> P (CR :: l)) ->
  (forall c l, c <> LF -> c <> CR -> P l -> P (c :: l)) -> forall l, P l.
Proof.
  intros Hnil HLF HCRLF HCR Hc l. remember (length l) as n eqn:Hn. revert l Hn.
  induction (lt_wf n) as [n _ IH]. intros [|c l] ->; [done|].
  assert (Hl : forall l', length l' < length (c :: l) -> P l') by (intros l' Hlt; by apply (IH (length l') Hlt)).
  simpl in Hl. destruct (decide (c = LF)) as [->|HneL]; [apply HLF, Hl; lia|].
  destruct (decide (c = CR)) as [->|HneC]; [|apply Hc; [done..|apply Hl; lia]].
  destruct l as [|d l]; [by apply HCR|]. destruct (decide (d = LF)) as [->|]; [apply HCRLF, Hl; simpl; lia|].
  apply HCR; [simpl; congruence|]. apply Hl; simpl; lia.
Qed.

Lemma render_cons w e ps : render ((w, e) :: ps) = w ++ eol_bytes e ++ render ps.
Proof. unfold render, whole. simpl. by rewrite <-app_assoc. Qed.

(** A splitting can be joined back. *)
Lemma render_pieces l : render (pieces l) = l.
Proof.
  induction l as [|l IH|l IH|l Hl IH|c l HL HC IH] using line_cases; [done|..].
  - by rewrite pieces_LF, render_cons, IH.
  - by rewrite pieces_CRLF, render_cons, IH.
  - by rewrite pieces_CR, render_cons, IH.
  - rewrite pieces_plain by done. destruct (pieces l) as [|[w e] ps]; [by rewrite <-IH|].
    rewrite <-IH. by rewrite !render_cons.
Qed.

Lemma opens_lf_pieces l : opens_lf (pieces l) -> head l = Some LF.
Proof.
  intros (ps & Hps). assert (Hl := render_pieces l). rewrite Hps, render_cons in Hl. by rewrite <-Hl.
Qed.

Lemma pieces_clean l : clean (pieces l).
Proof.
  induction l as [|l IH|l IH|l Hl IH|c l HL HC IH] using line_cases; [constructor|..].
  - rewrite pieces_LF. constructor; auto with recall; done.
  - rewrite pieces_CRLF. constructor; auto with recall; done.
  - rewrite pieces_CR by done. constructor; auto with recall; try done. intros _ Ho. by apply opens_lf_pieces in Ho.
  - rewrite pieces_plain by done. destruct IH as [|w Hw Hne|w e ps Hw He Hlf Hps].
    + constructor; [|done]. apply no_break_cons. auto with recall.
    + constructor; [|done]. by apply no_break_cons.
    + constructor; [|done..]. by apply no_break_cons.
Qed.

Lemma head_render_lf ps : clean ps -> head (render ps) = Some LF -> opens_lf ps.
Proof.
  intros Hps. destruct Hps as [|w Hw Hne|w e ps Hw He _ _]; [done|..].
  - rewrite render_cons. destruct w as [|c w]; [done|]. simpl. intros [= ->]. by apply no_break_cons in Hw as [? _].
  - rewrite render_cons. destruct w as [|c w]; simpl; [|intros [= ->]; by apply no_break_cons in Hw as [? _]].
    destruct e; [done|eexists; done|intros [= ?]; done..].
Qed.

(** Joining clean lines and splitting again gives them back. *)
Lemma pieces_render ps : clean ps -> pieces (render ps) = ps.
Proof.
  induction 1 as [|w Hw Hne|w e ps Hw He Hlf Hps IH]; [done|..].
  - rewrite render_cons. simpl. rewrite app_nil_r. clear - Hw Hne. induction w as [|c w IH]; [done|].
    apply no_break_cons in Hw as (HL & HC & Hw). rewrite pieces_plain by done.
    destruct w as [|d w]; [done|]. by rewrite IH.
  - rewrite render_cons. induction w as [|c w IHw].
    + destruct e; [done|..]; simpl app.
      * by rewrite pieces_LF, IH.
      * rewrite pieces_CR, IH; [done|]. intros Hh. apply (Hlf eq_refl). by apply head_render_lf.
      * by rewrite pieces_CRLF, IH.
    + apply no_break_cons in Hw as (HL & HC & Hw). simpl app. rewrite pieces_plain by done. by rewrite (IHw Hw).
Qed.

(** ** The lines of the text *)

(** The contents, and the empty line a final terminator leaves. *)
Fixpoint contents (ps : list (line * eol)) : list line :=
  match ps with
  | [] => [[]]
  | (w, NoEol) :: _ => [w]
  | (w, _) :: ps' => w :: contents ps'
  end.

Definition unify (c : ascii) : ascii := if decide (c = CR) then LF else c.

Lemma replace_plain c l : c <> CR -> replace_crlf (c :: l) = c :: replace_crlf l.
Proof. intros. destruct l as [|d l]; [done|]. cbn [replace_crlf]. by rewrite decide_False by naive_solver. Qed.

Lemma replace_CR l : head l <> Some LF -> replace_crlf (CR :: l) = CR :: replace_crlf l.
Proof. intros Hl. destruct l as [|d l]; [done|]. cbn [replace_crlf]. rewrite decide_False; [done|]. simpl in Hl. naive_solver. Qed.

Lemma unified_lines l : split_chars LF (map unify (replace_crlf l)) = contents (pieces l).
Proof.
  induction l as [|l IH|l IH|l Hl IH|c l HL HC IH] using line_cases; [done|..].
  - rewrite replace_plain, pieces_LF by done. simpl. by rewrite IH.
  - rewrite pieces_CRLF. simpl. by rewrite IH.
  - rewrite replace_CR, pieces_CR by done. simpl. by rewrite IH.
  - rewrite replace_plain by done. rewrite pieces_plain by done. simpl.
    assert (Hu : unify c = c) by (unfold unify; by rewrite decide_False). rewrite Hu, decide_False, IH by done. clear. destruct (pieces l) as [|[w e] ps]; [done|]. by destruct e.
Qed.

Lemma text_lines_unified t : text_lines (universal_newlines t) = contents (pieces (chars t)).
Proof. unfold text_lines, universal_newlines, replace_char. rewrite !chars_unchars. apply unified_lines. Qed.

Lemma contents_lookup ps i w e : clean ps -> ps !! i = Some (w, e) -> contents ps !! i = Some w.
Proof.
  intros Hps. revert i. induction Hps as [|w' Hw Hne|w' e' ps Hw He Hlf Hps IH]; intros i Hi; [done|..].
  - destruct i; [by injection Hi as -> <-|done].
  - destruct i; simpl in *; [injection Hi as -> ->; by destruct e|]. apply IH in Hi. by destruct e'.
Qed.

(** A line of the text that is not empty is a line of the document. *)
Lemma contents_lookup_inv ps i w : contents ps !! i = Some w -> w <> [] -> exists e, ps !! i = Some (w, e).
Proof.
  revert i. induction ps as [|[w' e'] ps IH]; intros i Hi Hw; simpl in *.
  - destruct i; naive_solver.
  - destruct e', i; simpl in *; naive_solver.
Qed.

(** ** Editing lines *)

Lemma clean_lookup ps i w e : clean ps -> ps !! i = Some (w, e) -> no_break w.
Proof.
  intros Hps. revert i. induction Hps as [|w' Hw Hne|w' e' ps Hw He Hlf Hps IH]; intros i Hi; [done|..].
  - destruct i; [by injection Hi as -> _|done].
  - destruct i; [by injection Hi as -> _|by apply (IH i)].
Qed.

Lemma opens_lf_cons w e ps : opens_lf ((w, e) :: ps) <-> w = [] /\ e = EndLF.
Proof. split; [by intros (ps' & [=])|]. intros [-> ->]. by eexists. Qed.

Lemma not_opens_lf w e ps : w <> [] -> ~ opens_lf ((w, e) :: ps).
Proof. by rewrite opens_lf_cons; intros Hw [? _]. Qed.

Definition ended (ps : list (line * eol)) : Prop := Forall (fun p => p.2 <> NoEol) ps.

Lemma clean_app_r a ps : clean (a ++ ps) -> clean ps.
Proof.
  induction a as [|p a IH]; [done|]. simpl. intros Hc. apply IH. inversion Hc as [| |? ? ? ? ? ? Hps]; subst; [constructor|done].
Qed.

Lemma clean_ended a q ps : clean (a ++ q :: ps) -> ended a.
Proof.
  induction a as [|[w e] a IH]; [constructor|]. simpl. intros Hc. inversion Hc as [|? ? ? Hn|? ? ? ? He ? Hps]; subst; [by destruct a|].
  constructor; [done|by apply IH].
Qed.

(** From some line on, the document is replaced by lines that open with one that is not empty. *)
Lemma clean_resume a q ps w' e' qs : clean (a ++ q :: ps) -> clean ((w', e') :: qs) -> w' <> [] -> clean (a ++ (w', e') :: qs).
Proof.
  intros Hc Hq Hw. induction a as [|[w0 e0] a IH]; [done|]. simpl in *. inversion Hc as [|? ? ? Hn|? ? ? Hw0 He Hlf Hps]; subst; [by destruct a|].
  constructor; [done..| |by apply IH]. intros HCR. destruct a as [|[w1 e1] a]; simpl; [by apply not_opens_lf|].
  specialize (Hlf HCR). simpl in Hlf. by rewrite opens_lf_cons in Hlf |- *.
Qed.

Lemma contents_app a ps : ended a -> contents (a ++ ps) = a.*1 ++ contents ps.
Proof. induction 1 as [|[w e] a He _ IH]; [done|]. simpl in *. rewrite IH. by destruct e. Qed.

(** A line of the text that is not empty splits the document. *)
Lemma contents_split ps a w b :
  contents ps = a ++ w :: b -> w <> [] ->
  exists pa e pb, ps = pa ++ (w, e) :: pb /\ pa.*1 = a /\ ended pa /\ contents ((w, e) :: pb) = w :: b.
Proof.
  intros Hc Hw. revert ps Hc. induction a as [|x a IH]; intros [|[w0 e0] ps] Hc; simpl in Hc.
  - by injection Hc as <-.
  - exists [], e0, ps. assert (w0 = w) as -> by (destruct e0; by injection Hc). by split_and!; [done|done|constructor|].
  - by destruct a.
  - destruct e0; [by destruct a|..]; injection Hc as -> Hc; destruct (IH ps Hc) as (pa & e & pb & -> & <- & Hpa & Hq);
      (eexists ((x, _) :: pa), e, pb; split_and!; [done|done|by constructor|done]).
Qed.

(** A line is inserted before one that is not empty. *)
Lemma clean_insert ps i w w' e e' :
  clean ps -> ps !! i = Some (w, e) -> w <> [] -> no_break w' -> w' <> [] -> e' <> NoEol ->
  clean (take i ps ++ (w', e') :: drop i ps).
Proof.
  intros Hps Hi Hw Hb' Hw' He'. revert i Hi. induction Hps as [|w0 Hw0 Hne|w0 e0 ps Hw0 He Hlf Hps IH]; intros i Hi; [done|..].
  - destruct i; [|done]. injection Hi as -> <-. simpl. constructor; [done..|intros _; by apply not_opens_lf|]. by constructor.
  - destruct i; simpl in *.
    + injection Hi as -> ->. constructor; [done..|intros _; by apply not_opens_lf|]. by constructor.
    + constructor; [done..| |by apply IH]. intros HCR. destruct i; simpl; [by apply not_opens_lf|].
      destruct ps as [|[w1 e1] ps]; [done|]. simpl.
      specialize (Hlf HCR). by rewrite opens_lf_cons in Hlf |- *.
Qed.

Lemma contents_insert ps i w w' e e' :
  clean ps -> ps !! i = Some (w, e) -> e' <> NoEol ->
  contents (take i ps ++ (w', e') :: drop i ps) = take i (contents ps) ++ w' :: drop i (contents ps).
Proof.
  intros Hps Hi He'. revert i Hi. induction Hps as [|w0 Hw0 Hne|w0 e0 ps Hw0 He Hlf Hps IH]; intros i Hi; [done|..].
  - destruct i; [|done]. simpl. by destruct e'.
  - destruct i; simpl in *; [by destruct e', e0|]. apply IH in Hi. by destruct e0; simpl; rewrite ?Hi.
Qed.

Lemma render_insert ps i w' e' :
  render (take i ps ++ (w', e') :: drop i ps) =
  mjoin (take i (whole <$> ps) ++ (w' ++ eol_bytes e') :: drop i (whole <$> ps)).
Proof. unfold render. by rewrite fmap_app, fmap_cons, fmap_take, fmap_drop. Qed.

(** ** UTF-8 *)

Lemma encode_char_small c : code c < 128 -> encode_char c = [c].
Proof. intros. unfold encode_char. destruct (Nat.ltb_spec (code c) 128); [done|lia]. Qed.

(** The bytes of a character: itself below 128, two bytes from 128 on otherwise. *)
Definition encoded_ok (c : ascii) : bool :=
  match encode_char c with
  | [b] => bool_decide (b = c /\ code c < 128)
  | [b; d] => (194 <=? code b) && (code b <=? 195) && (128 <=? code d) && (code d <? 192) &&
              bool_decide (byte ((code b - 192) * 64 + (code d - 128)) = c) && negb (code c <? 128)
  | _ => false
  end.

Definition every_char : list ascii := byte <$> seq 0 256.

Lemma every_char_in c : c ∈ every_char.
Proof.
  apply list_elem_of_fmap. exists (code c). split; [symmetry; apply Ascii.ascii_nat_embedding|].
  apply elem_of_seq. assert (H := Ascii.nat_ascii_bounded c). unfold code. lia.
Qed.

Lemma encoded c : encoded_ok c = true.
Proof.
  assert (H : forallb encoded_ok every_char = true) by (vm_compute; reflexivity).
  rewrite forallb_forall in H. apply H, list_elem_of_In, every_char_in.
Qed.

Lemma decode_encode_char c bs : decode_chars (encode_char c ++ bs) = cons c <$> decode_chars bs.
Proof.
  assert (H := encoded c). unfold encoded_ok in H. destruct (encode_char c) as [|b [|d [|]]]; try done.
  - apply bool_decide_eq_true in H as [-> Hc]. cbn [decode_chars app]. apply Nat.ltb_lt in Hc. by rewrite Hc.
  - repeat apply andb_true_iff in H as [H ?]. cbn [decode_chars app].
    destruct (code b <? 128) eqn:Hb; [apply Nat.ltb_lt in Hb; apply Nat.leb_le in H; lia|].
    split_bool. repeat match goal with E : _ = true |- _ => rewrite E end. cbn [andb]. congruence.
Qed.

Lemma decode_encode l : decode_chars (encode_chars l) = Some l.
Proof. induction l as [|c l IH]; [done|]. unfold encode_chars. cbn [mbind list_bind]. rewrite decode_encode_char. unfold encode_chars in IH. by rewrite IH. Qed.

(** A pair of bytes that is decoded is the form of its character. *)
Lemma encode_pair b d :
  194 <= code b <= 195 -> 128 <= code d < 192 -> encode_char (byte ((code b - 192) * 64 + (code d - 128))) = [b; d].
Proof.
  intros Hb Hd.
  assert (Hall : forallb (fun b => forallb (fun d => bool_decide (encode_char (byte ((code b - 192) * 64 + (code d - 128))) = [b; d]))
    (byte <$> seq 128 64)) (byte <$> seq 194 2) = true) by (vm_compute; reflexivity).
  assert (Hin : forall c lo n, lo <= code c < lo + n -> In c (byte <$> seq lo n)).
  { intros c lo n Hc. apply list_elem_of_In, list_elem_of_fmap. exists (code c).
    split; [symmetry; apply Ascii.ascii_nat_embedding|]. by apply elem_of_seq. }
  rewrite forallb_forall in Hall. specialize (Hall b ltac:(apply Hin; lia)). rewrite forallb_forall in Hall.
  specialize (Hall d ltac:(apply Hin; lia)). by apply bool_decide_eq_true in Hall.
Qed.

Lemma encode_decode bs l : decode_chars bs = Some l -> bs = encode_chars l.
Proof.
  remember (length bs) as n eqn:Hn. revert bs l Hn. induction (lt_wf n) as [n _ IH]. intros [|b rest] l -> Hd; [by injection Hd as <-|].
  cbn [decode_chars] in Hd. destruct (code b <? 128) eqn:Hb.
  - destruct (decode_chars rest) as [l'|] eqn:Hr; [|done]. injection Hd as <-. unfold encode_chars. simpl.
    rewrite encode_char_small by (by apply Nat.ltb_lt). simpl. f_equal. apply (IH (length rest)); [simpl; lia|done..].
  - destruct (_ && _) eqn:Hb'; [|done]. destruct rest as [|d rest]; [done|]. destruct (_ && (code d <? 192)) eqn:Hd'; [|done].
    destruct (decode_chars rest) as [l'|] eqn:Hr; [|done]. injection Hd as <-. unfold encode_chars. cbn [mbind list_bind].
    apply andb_true_iff in Hb' as [?%Nat.leb_le ?%Nat.leb_le], Hd' as [?%Nat.leb_le ?%Nat.ltb_lt].
    rewrite encode_pair by lia. simpl. do 2 f_equal.
    apply (IH (length rest)); [simpl; lia|done..].
Qed.

Lemma decode_ok bs t : decode bs = Ok t <-> bs = encode t.
Proof.
  unfold decode, encode. split.
  - destruct (decode_chars bs) as [l|] eqn:Hl; [|done]. intros [= <-]. rewrite chars_unchars. by apply encode_decode.
  - intros ->. by rewrite decode_encode, unchars_chars.
Qed.

(** Encoding adds no line break and opens with no byte order mark. *)
Lemma encode_chars_app a b : encode_chars (a ++ b) = encode_chars a ++ encode_chars b.
Proof. apply bind_app. Qed.

Lemma encode_app a b : encode (a +:+ b) = encode a ++ encode b.
Proof. unfold encode. by rewrite chars_app, encode_chars_app. Qed.

Definition encoded_bytes_ok (c : ascii) : bool :=
  forallb (fun b => (code b <? 196) && (bool_decide (c = LF \/ c = CR) || negb (bool_decide (b = LF \/ b = CR)))) (encode_char c).

Lemma encoded_bytes c b : b ∈ encode_char c -> code b < 196 /\ (c <> LF -> c <> CR -> b <> LF /\ b <> CR).
Proof.
  intros Hb. assert (H : forallb encoded_bytes_ok every_char = true) by (vm_compute; reflexivity).
  rewrite forallb_forall in H. specialize (H c ltac:(apply list_elem_of_In, every_char_in)).
  unfold encoded_bytes_ok in H. rewrite forallb_forall in H. specialize (H b ltac:(by apply list_elem_of_In)).
  apply andb_true_iff in H as [H1 H2]. apply Nat.ltb_lt in H1. split; [done|]. intros HL HC.
  apply orb_true_iff in H2 as [H2|H2]; [apply bool_decide_eq_true in H2 as [?|?]; done|].
  apply negb_true_iff, bool_decide_eq_false in H2. tauto.
Qed.

Lemma encode_no_break w : no_break w -> no_break (encode_chars w).
Proof.
  induction w as [|c w IH]; intros Hw; [done|]. apply no_break_cons in Hw as (HL & HC & Hw).
  change (no_break (encode_char c ++ encode_chars w)). apply no_break_app. split; [|auto].
  split; intros Hb; apply encoded_bytes in Hb as (_ & Hb); by destruct (Hb HL HC).
Qed.

Lemma encode_not_nil w : w <> [] -> encode_chars w <> [].
Proof. destruct w as [|c w]; [done|]. intros _ He. by assert (H := decode_encode (c :: w)); rewrite He in H. Qed.

Definition encode_piece (p : line * eol) : line * eol := (encode_chars p.1, p.2).

Lemma encode_eol e : encode_chars (eol_bytes e) = eol_bytes e.
Proof. by destruct e. Qed.

Lemma render_encode ps : render (encode_piece <$> ps) = encode_chars (render ps).
Proof.
  induction ps as [|[w e] ps IH]; [done|]. rewrite fmap_cons, render_cons. unfold encode_piece at 1. cbn [fst snd].
  rewrite render_cons, !encode_chars_app, encode_eol. by rewrite IH.
Qed.

Lemma encode_opens_lf ps : opens_lf (encode_piece <$> ps) -> opens_lf ps.
Proof.
  destruct ps as [|[w e] ps]; [by intros (? & ?)|]. rewrite fmap_cons. unfold encode_piece at 1. rewrite !opens_lf_cons.
  intros [Hw ?]. split; [|done]. destruct w as [|c w]; [done|]. by apply encode_not_nil in Hw.
Qed.

Lemma clean_encode ps : clean ps -> clean (encode_piece <$> ps).
Proof.
  induction 1 as [|w Hw Hne|w e ps Hw He Hlf Hps IH]; [constructor|..].
  - constructor; [by apply encode_no_break|by apply encode_not_nil].
  - constructor; [by apply encode_no_break|done| |done]. intros HCR Ho. by apply (Hlf HCR), encode_opens_lf.
Qed.

(** The lines of the bytes are the lines of the text, encoded. *)
Lemma pieces_encode l : pieces (encode_chars l) = encode_piece <$> pieces l.
Proof.
  rewrite <-(render_pieces l) at 1. rewrite <-render_encode. apply pieces_render, clean_encode, pieces_clean.
Qed.
