(* ===== verification/FrontmatterWritersFacts.v ===== *)
(** * FrontmatterWritersFacts: what is read back after an edit

    Setting a validity date through [set_frontmatter_scalar] and reading the memo again gives the
    date, and every other key and the body as they were, a key declared several times included
    where no item follows the declarations that are dropped. *)
From S2P Require Import Prelude Text Float64 Frontmatter References FrontmatterBlock FrontmatterWriters FrontmatterLines.

Local Open Scope nat_scope.

(** ** Spaces *)

Lemma indent_of_spec l : l = indent_of l ++ drop_while is_space l /\ Forall (fun c => is_space c = true) (indent_of l).
Proof.
  destruct (drop_while_split is_space l) as (a & Hl & Ha). unfold indent_of.
  assert (Hn : length l - length (drop_while is_space l) = length a) by (rewrite Hl at 1; rewrite length_app; lia).
  rewrite Hn. clear Hn. assert (Ht : take (length a) l = a) by (rewrite Hl; apply take_app_length). by rewrite Ht.
Qed.

(** What is left of a line is its stripped form and then spaces. *)
Lemma strip_chars_split l : exists sp, drop_while is_space l = strip_chars l ++ sp /\ Forall (fun c => is_space c = true) sp.
Proof.
  unfold strip_chars. destruct (drop_while_split is_space (reverse (drop_while is_space l))) as (a & Hr & Ha).
  exists (reverse a). split; [|by apply Forall_reverse].
  rewrite <-reverse_app, <-Hr. by rewrite reverse_involutive.
Qed.

Lemma strip_chars_skip a l : Forall (fun c => is_space c = true) a -> strip_chars (a ++ l) = strip_chars l.
Proof. intros. unfold strip_chars. by rewrite drop_while_skip. Qed.

(** ** Lines that declare a date *)

Lemma partition_colon_some l k v : partition_colon l = Some (k, v) <-> l = k ++ ":"%char :: v /\ ":"%char ∉ k.
Proof.
  revert k v. induction l as [|c l IH]; intros k v; simpl.
  - split; [done|]. intros [? _]. by destruct k.
  - case_decide as Hc.
    + subst c. split; [intros [= <- <-]; split; [done|apply not_elem_of_nil]|]. intros [Hl Hk].
      destruct k as [|d k]; [by injection Hl as ->|]. injection Hl as <- _. by rewrite elem_of_cons in Hk; destruct Hk; left.
    + split.
      * destruct (partition_colon l) as [[k' v']|] eqn:Hp; [|done]. intros [= <- <-].
        destruct (proj1 (IH k' v') eq_refl) as [-> Hk]. split; [done|]. by rewrite not_elem_of_cons.
      * intros [Hl Hk]. destruct k as [|d k]; [by injection Hl as -> _|]. injection Hl as <- Hl.
        rewrite not_elem_of_cons in Hk. by rewrite (proj2 (IH k v) (conj Hl (proj2 Hk))).
Qed.

Definition date_key (key : string) : Prop := key = "valid_from" \/ key = "valid_until".

Lemma date_key_shape key : date_key key ->
  (exists r, chars key = "v"%char :: r) /\ ":"%char ∉ chars key /\ strip_chars (chars key) = chars key /\ no_break (chars key).
Proof.
  intros [-> | ->]; (split_and!; [by eexists|by_decide|reflexivity|split; by_decide]).
Qed.

(** The line, past its indent, is a [v], and a colon comes later. *)
Definition date_like (l : line) : Prop := exists r, drop_while is_space l = "v"%char :: r /\ ":"%char ∈ r.

Lemma strip_date_like l : date_like l -> exists r, strip_chars l = "v"%char :: r /\ ":"%char ∈ r.
Proof.
  intros (r & Hl & Hr). destruct (strip_chars_split l) as (sp & Hs & Hsp). rewrite Hl in Hs.
  destruct (strip_chars l) as [|c r'] eqn:Hl'.
  - simpl in Hs. subst sp. by apply Forall_cons in Hsp as [? _].
  - injection Hs as <- ->. exists r'. split; [done|]. apply elem_of_app in Hr as [|Hr]; [done|].
    rewrite Forall_forall in Hsp. by apply Hsp in Hr.
Qed.

Lemma bare_date r : ":"%char ∈ r -> key_line ("v"%char :: r) = true.
Proof.
  intros Hr. unfold key_line, bare_key. rewrite (bool_decide_eq_true_2 (":"%char ∈ r)) by done.
  apply orb_true_iff. right. vm_compute. done.
Qed.

Lemma date_like_member seen l : date_like l -> member seen l = Some true.
Proof.
  intros Hl. destruct (strip_date_like l Hl) as (r & Hs & Hr). unfold member. rewrite Hs, decide_False by done.
  rewrite bare_date by done. destruct (starts_space l) eqn:Hsp; [by rewrite orb_true_r|].
  destruct Hl as (r' & Hl & Hr'). destruct l as [|c l]; [done|]. simpl in Hl, Hsp. rewrite Hsp in Hl. injection Hl as -> ->.
  by rewrite bare_date.
Qed.

Lemma date_like_not_rule l : date_like l -> is_rule l = false.
Proof.
  intros Hl. destruct (strip_date_like l Hl) as (r & Hs & _). unfold is_rule, stripped. rewrite Hs.
  by apply bool_decide_eq_false.
Qed.

Lemma date_like_not_item l : date_like l -> block_item l = None.
Proof. intros (r & Hl & _). unfold block_item. by rewrite Hl. Qed.

Lemma date_like_not_nil l : date_like l -> l <> [].
Proof. by intros (r & Hl & _) ->. Qed.

Lemma declares_date_like key l : date_key key -> declares key l = true -> date_like l.
Proof.
  intros Hkey Hd. destruct (date_key_shape key Hkey) as ((kr & Hk) & _). unfold declares in Hd.
  destruct (partition_colon l) as [[k v]|] eqn:Hp; [|done]. apply partition_colon_some in Hp as [-> _].
  apply bool_decide_eq_true in Hd. apply (f_equal chars) in Hd. unfold stripped in Hd. rewrite chars_unchars, Hk in Hd.
  destruct (strip_chars_split k) as (sp & Hs & _). destruct (drop_while_split is_space k) as (a & Hka & Ha).
  rewrite Hd in Hs. rewrite Hs in Hka. exists (kr ++ sp ++ ":"%char :: v). split.
  - rewrite Hka, <-app_assoc, drop_while_skip by done. simpl. by rewrite <-app_assoc.
  - rewrite !elem_of_app. right; right; left.
Qed.

(** The line a writer makes of a date. *)
Definition date_line (indent : line) (key v : string) : line := indent ++ chars (key +:+ ": " +:+ v).

Lemma date_line_partition indent key v :
  date_key key -> Forall (fun c => is_space c = true) indent ->
  partition_colon (date_line indent key v) = Some (indent ++ chars key, " "%char :: chars v).
Proof.
  intros Hkey Hin. destruct (date_key_shape key Hkey) as (_ & Hc & _). apply partition_colon_some. unfold date_line.
  rewrite !chars_app, <-app_assoc. split; [done|]. rewrite not_elem_of_app. split; [|done].
  rewrite Forall_forall in Hin. by intros Hs%Hin.
Qed.

Lemma date_line_declares indent key v :
  date_key key -> Forall (fun c => is_space c = true) indent -> declares key (date_line indent key v) = true.
Proof.
  intros Hkey Hin. unfold declares. rewrite date_line_partition by done. apply bool_decide_eq_true_2.
  destruct (date_key_shape key Hkey) as (_ & _ & Hs & _). unfold stripped. rewrite strip_chars_skip by done. by rewrite Hs, unchars_chars.
Qed.

Lemma date_line_value indent key v :
  date_key key -> Forall (fun c => is_space c = true) indent -> value_part (date_line indent key v) = strip v.
Proof.
  intros Hkey Hin. unfold value_part. rewrite date_line_partition by done. unfold stripped.
  change (" "%char :: chars v) with ([" "%char] ++ chars v). by rewrite strip_chars_skip by by repeat constructor.
Qed.

Lemma date_line_no_break indent key v :
  date_key key -> no_break indent -> no_break (chars v) -> no_break (date_line indent key v).
Proof.
  intros Hkey Hin Hv. destruct (date_key_shape key Hkey) as (_ & _ & _ & Hb). unfold date_line.
  rewrite !chars_app, !no_break_app. split_and!; [done..| |done]. split; by_decide.
Qed.

(** ** The block *)

(** Whether the lines are members of a block, and whether a key is among those seen. *)
Fixpoint block_members (seen : bool) (ls : list line) : option bool :=
  match ls with
  | [] => Some seen
  | l :: ls' => if is_rule l then None else seen' ← member seen l; block_members seen' ls'
  end.

Lemma block_members_app seen a b : block_members seen (a ++ b) = seen' ← block_members seen a; block_members seen' b.
Proof.
  revert seen. induction a as [|l a IH]; intros seen; [done|]. simpl. destruct (is_rule l); [done|].
  destruct (member seen l); [apply IH|done].
Qed.

Lemma span_from_some i seen ls s :
  span_from i seen ls = Some s <->
  exists block closing post, ls = block ++ closing :: post /\ s = i + length block /\
    block_members seen block = Some true /\ is_rule closing = true.
Proof.
  revert i seen. induction ls as [|l ls IH]; intros i seen; simpl.
  - split; [done|]. intros (block & ? & ? & H & _). by destruct block.
  - destruct (is_rule l) eqn:Hr.
    + split.
      * destruct seen; [|done]. intros [= <-]. exists [], l, ls. by rewrite Nat.add_0_r.
      * intros (block & closing & post & H & -> & Hm & _). destruct block as [|x block]; [by injection Hm as ->; rewrite Nat.add_0_r|].
        injection H as <- _. simpl in Hm. by rewrite Hr in Hm.
    + split.
      * destruct (member seen l) as [seen'|] eqn:Hm; [|done]. simpl. intros (block & closing & post & -> & -> & Hb & Hc)%IH.
        exists (l :: block), closing, post. simpl. rewrite Hr, Hm. split_and!; [done|lia|done..].
      * intros (block & closing & post & H & -> & Hm & Hc). destruct block as [|x block]; [by injection H as <- _; rewrite Hr in Hc|].
        injection H as <- ->. simpl in Hm. rewrite Hr in Hm. destruct (member seen l) as [seen'|]; [|done]. simpl in *.
        apply IH. exists block, closing, post. split_and!; [done|lia|done..].
Qed.

Lemma span_of_some ls s :
  span_of ls = Some s <->
  exists opening block closing post, ls = opening :: block ++ closing :: post /\ s = S (length block) /\
    is_rule opening = true /\ block_members false block = Some true /\ is_rule closing = true.
Proof.
  destruct ls as [|l ls]; simpl; [split; [done|by intros (? & ? & ? & ? & ? & _)]|]. split.
  - destruct (is_rule l) eqn:Hr; [|done]. intros (block & closing & post & -> & -> & ? & ?)%span_from_some. by exists l, block, closing, post.
  - intros (opening & block & closing & post & [= -> ->] & -> & -> & Hb & Hc). apply span_from_some. by exists block, closing, post.
Qed.

(** A date line keeps a block a block, where it is added and where it replaces another. *)
Lemma block_members_add block l : date_like l -> block_members false block = Some true -> block_members false (block ++ [l]) = Some true.
Proof.
  intros Hl Hb. rewrite block_members_app, Hb. simpl. by rewrite date_like_not_rule, date_like_member.
Qed.

Lemma member_seen l seen : member true l = Some seen -> seen = true.
Proof. unfold member. repeat case_match; intros [= <-]; done. Qed.

(** The positions of the lines that declare a key. *)
Fixpoint key_positions (key : string) (i : nat) (ls : list line) : list nat :=
  match ls with
  | [] => []
  | l :: ls' => (if declares key l then [i] else []) ++ key_positions key (S i) ls'
  end.

Lemma key_lines_positions key front block back :
  filter (fun i => declares key (default [] ((front ++ block ++ back) !! i)) = true) (seq (length front) (length block)) =
  key_positions key (length front) block.
Proof.
  revert front. induction block as [|l block IH]; intros front; [done|]. cbn [length seq key_positions].
  assert (Hl : (front ++ (l :: block) ++ back) !! length front = Some l) by (by simpl; rewrite list_lookup_middle).
  specialize (IH (front ++ [l])). rewrite length_app, <-app_assoc, Nat.add_1_r in IH. change ([l] ++ block ++ back) with ((l :: block) ++ back) in IH.
  rewrite filter_cons, IH, Hl. simpl. by destruct (declares key l).
Qed.

Lemma key_lines_block key opening block closing post :
  key_lines (opening :: block ++ closing :: post) (S (length block)) key = key_positions key 1 block.
Proof. unfold key_lines. simpl. rewrite Nat.sub_0_r. exact (key_lines_positions key [opening] block (closing :: post)). Qed.

Lemma positions_nil key i ls : key_positions key i ls = [] -> Forall (fun l => declares key l = false) ls.
Proof.
  revert i. induction ls as [|l ls IH]; intros i; simpl; [constructor|]. destruct (declares key l) eqn:Hl; [done|].
  intros H. constructor; [done|by apply IH in H].
Qed.

Lemma positions_cons key i ls j js :
  key_positions key i ls = j :: js ->
  exists pre l post, ls = pre ++ l :: post /\ j = i + length pre /\ declares key l = true /\ js = key_positions key (S j) post.
Proof.
  revert i. induction ls as [|l ls IH]; intros i; simpl; [done|]. destruct (declares key l) eqn:Hl.
  - intros [= <- <-]. exists [], l, ls. by rewrite Nat.add_0_r.
  - intros (pre & x & post & -> & -> & Hx & ->)%IH. exists (l :: pre), x, post. simpl. rewrite !Nat.add_succ_r. done.
Qed.

Lemma positions_ge key i ls j : j ∈ key_positions key i ls -> i <= j.
Proof.
  revert i. induction ls as [|l ls IH]; intros i; simpl; [by intros ?%not_elem_of_nil|].
  intros [Hj|Hj%IH]%elem_of_app; [|lia]. destruct (declares key l); [by apply list_elem_of_singleton in Hj as ->|by apply not_elem_of_nil in Hj].
Qed.

(** ** The lines a collapse drops *)

Definition is_item (l : line) : bool := match block_item l with Some _ => true | None => false end.

(** Which lines of a block go with the declarations of a key: the lines that declare it and,
    while [under] an empty declaration, the items that follow it. *)
Fixpoint drop_marks (key : string) (under : bool) (block : list line) : list bool :=
  match block with
  | [] => []
  | l :: rest =>
      if declares key l then true :: drop_marks key (bool_decide (value_part l = "")) rest
      else if under && is_item l then true :: drop_marks key true rest
      else false :: drop_marks key false rest
  end.

Fixpoint unmarked {A} (ms : list bool) (l : list A) : list A :=
  match ms, l with
  | m :: ms', x :: l' => (if m then [] else [x]) ++ unmarked ms' l'
  | _, _ => []
  end.

Lemma unmarked_fmap {A B} (f : A -> B) ms l : f <$> unmarked ms l = unmarked ms (f <$> l).
Proof.
  revert l. induction ms as [|m ms IH]; intros [|x l]; [done..|]. simpl. rewrite fmap_app, IH. by destruct m.
Qed.

Lemma block_members_unmarked ms block : block_members true block = Some true -> block_members true (unmarked ms block) = Some true.
Proof.
  revert ms. induction block as [|l block IH]; intros [|m ms]; try done. simpl. destruct (is_rule l) eqn:Hr; [done|].
  destruct (member true l) as [seen|] eqn:Hm; [|done]. assert (seen = true) as -> by by eapply member_seen. simpl. intros Hb%(IH ms).
  destruct m; simpl; [done|]. by rewrite Hr, Hm.
Qed.

(** A date line stands for another, and what the collapse keeps follows it. *)
Lemma block_members_collapse pre l l' post ms :
  date_like l -> date_like l' -> block_members false (pre ++ l :: post) = Some true -> block_members false (pre ++ l' :: unmarked ms post) = Some true.
Proof.
  intros Hl Hl'. rewrite !block_members_app. destruct (block_members false pre) as [seen|]; [|done]. simpl.
  rewrite !date_like_not_rule, !date_like_member by done. apply block_members_unmarked.
Qed.

(** Every kept line that comes just after a dropped one is as [ok] says. *)
Fixpoint apart (ok : line -> Prop) (key : string) (under after : bool) (block : list line) : Prop :=
  match block with
  | [] => True
  | l :: rest =>
      if declares key l then apart ok key (bool_decide (value_part l = "")) true rest
      else if under && is_item l then apart ok key true true rest
      else (after = true -> ok l) /\ apart ok key false false rest
  end.

Lemma apart_impl (ok ok' : line -> Prop) key under after block :
  (forall l, ok l -> ok' l) -> apart ok key under after block -> apart ok' key under after block.
Proof.
  intros Hok. revert under after. induction block as [|l rest IH]; intros under after; [done|]. simpl.
  destruct (declares key l); [by apply IH|]. destruct (under && is_item l); [by apply IH|]. intros [H ?]. split; [auto|by apply IH].
Qed.

Section dropping.
Context (key : string) (Hkey : date_key key).

Lemma items_length_cons l rest : items_length (l :: rest) = if is_item l then S (items_length rest) else 0.
Proof. unfold is_item. simpl. by destruct (block_item l). Qed.

Lemma declares_not_item l : declares key l = true -> is_item l = false.
Proof. intros Hd. unfold is_item. by rewrite (date_like_not_item l) by by eapply declares_date_like. Qed.

(** Where the lines of a declaration end. *)
Lemma extent_at front l rest back :
  key_extent (front ++ l :: rest ++ back) (length front + S (length rest)) (length front) =
  S (length front) + (if bool_decide (value_part l = "") then items_length rest else 0).
Proof.
  unfold key_extent. simpl. rewrite list_lookup_middle by done. cbn [default from_option id].
  replace (length front + S (length rest) - S (length front)) with (length rest) by lia.
  assert (Hdrop : drop (S (length front)) (front ++ l :: rest ++ back) = rest ++ back)
    by (by rewrite drop_app_ge, Nat.sub_succ_l, Nat.sub_diag by lia).
  rewrite Hdrop, take_app_length, bool_decide_decide. case_decide; lia.
Qed.

(** The dropped lines from some line on: the rest of the items above it, and its declarations. *)
Definition dropped_from (front : list line) (under : bool) (block back : list line) : list nat :=
  seq (length front) (if under then items_length block else 0) ++
  dropped (front ++ block ++ back) (length front + length block) (key_positions key (length front) block).

Lemma dropped_from_cons front under l rest back :
  dropped_from front under (l :: rest) back =
  if declares key l then length front :: dropped_from (front ++ [l]) (bool_decide (value_part l = "")) rest back
  else if under && is_item l then length front :: dropped_from (front ++ [l]) true rest back
  else dropped_from (front ++ [l]) false rest back.
Proof.
  unfold dropped_from. rewrite length_app, Nat.add_1_r, <-!app_assoc. cbn [length key_positions]. rewrite items_length_cons.
  replace (S (length front) + length rest) with (length front + S (length rest)) by lia. change ([l] ++ rest ++ back) with ((l :: rest) ++ back).
  destruct (declares key l) eqn:Hd; cbn [app].
  - rewrite declares_not_item by done. assert (Hz : (if under then 0 else 0) = 0) by by destruct under. rewrite Hz. simpl seq.
    unfold dropped at 1. cbn [mbind list_bind app]. rewrite extent_at.
    replace (S (length front) + _ - length front) with (S (if bool_decide (value_part l = "") then items_length rest else 0)) by lia.
    done.
  - destruct under; [|done]. by destruct (is_item l).
Qed.

Lemma dropped_from_nil front under back : dropped_from front under [] back = [].
Proof. unfold dropped_from. simpl. by destruct under. Qed.

Lemma dropped_from_ge front under block back j : j ∈ dropped_from front under block back -> length front <= j.
Proof.
  revert front under. induction block as [|l rest IH]; intros front under; [by rewrite dropped_from_nil; intros ?%not_elem_of_nil|].
  assert (Hle : forall under', j ∈ dropped_from (front ++ [l]) under' rest back -> length front <= j).
  { intros under' Hj%IH. rewrite length_app in Hj. simpl in Hj. lia. }
  rewrite dropped_from_cons. destruct (declares key l); [|destruct (under && is_item l)]; rewrite ?elem_of_cons; intros; destruct_or?; eauto; lia.
Qed.

(** Dropping by number is keeping the unmarked lines. *)
Lemma keep_unmarked {A} front under block back (xs more : list A) :
  length xs = length block ->
  mjoin (imap (fun i x => if decide (length front + i ∈ dropped_from front under block back) then [] else [x]) (xs ++ more)) =
  unmarked (drop_marks key under block) xs ++ more.
Proof.
  revert front under xs. induction block as [|l rest IH]; intros front under xs Hlen; (destruct xs as [|x xs]; [try done|try done]).
  - rewrite dropped_from_nil. simpl app. assert (Hall : forall g : nat -> nat, mjoin (imap (fun i x => if decide (g i ∈ []) then [] else [x]) more) = more).
    { induction more as [|x more IH]; intros g; [done|]. rewrite imap_cons. cbn [mjoin list_join]. rewrite decide_False by apply not_elem_of_nil.
      simpl. f_equal. apply (IH (g ∘ S)). }
    apply (Hall (fun i => length front + i)).
  - injection Hlen as Hlen. simpl app. rewrite imap_cons, Nat.add_0_r, dropped_from_cons. cbn [mjoin list_join drop_marks].
    assert (Hn : forall under', length front ∉ dropped_from (front ++ [l]) under' rest back).
    { intros under' Hj%dropped_from_ge. rewrite length_app in Hj. simpl in Hj. lia. }
    assert (Htail : forall under' (D : list nat), (forall j, length front < j -> j ∈ D <-> j ∈ dropped_from (front ++ [l]) under' rest back) ->
      mjoin (imap ((fun i x => if decide (length front + i ∈ D) then [] else [x]) ∘ S) (xs ++ more)) = unmarked (drop_marks key under' rest) xs ++ more).
    { intros under' D HD. rewrite <-(IH (front ++ [l]) under' xs Hlen). f_equal. apply imap_ext. intros i y _. cbn.
      rewrite length_app, Nat.add_1_r, Nat.add_succ_r. simpl. apply decide_ext, HD. lia. }
    destruct (declares key l); [|destruct (under && is_item l)].
    + rewrite decide_True by by left. apply Htail. intros j Hj. rewrite elem_of_cons. naive_solver lia.
    + rewrite decide_True by by left. apply Htail. intros j Hj. rewrite elem_of_cons. naive_solver lia.
    + rewrite decide_False by done. simpl. f_equal. by apply Htail.
Qed.

(** [apart], from the lines where the declarations end. *)
Lemma apart_extents (ok : line -> Prop) front under after block back :
  let ls := front ++ block ++ back in
  (after = true \/ (under = true /\ items_length block <> 0) ->
     forall l, ls !! (length front + (if under then items_length block else 0)) = Some l -> ok l) ->
  (forall i l, i ∈ key_positions key (length front) block -> ls !! key_extent ls (length front + length block) i = Some l -> ok l) ->
  apart ok key under after block.
Proof.
  cbn zeta. revert front under after. induction block as [|l rest IH]; intros front under after Hfirst Hkeys; [done|].
  assert (Hrest : forall under' after',
    (after' = true \/ (under' = true /\ items_length rest <> 0) ->
     forall x, (front ++ (l :: rest) ++ back) !! (S (length front) + (if under' then items_length rest else 0)) = Some x -> ok x) ->
    apart ok key under' after' rest).
  { intros under' after' H. apply (IH (front ++ [l])); rewrite length_app, Nat.add_1_r, <-!app_assoc; [exact H|].
    intros i x Hi. replace (S (length front) + length rest) with (length front + length (l :: rest)) by (simpl; lia). apply Hkeys.
    cbn [key_positions]. apply elem_of_app. by right. }
  cbn [apart]. rewrite items_length_cons in Hfirst. destruct (declares key l) eqn:Hd.
  - apply Hrest. intros _ x Hx. apply (Hkeys (length front) x); [cbn [key_positions]; rewrite Hd; by left|].
    cbn [length app]. by rewrite extent_at.
  - destruct (under && is_item l) eqn:Hi.
    + apply andb_true_iff in Hi as [-> Hi]. rewrite Hi in Hfirst. apply Hrest. intros _ x Hx. apply Hfirst; [by right|].
      by rewrite Nat.add_succ_r.
    + split.
      * intros ->. apply Hfirst; [by left|]. assert (Hz : (if under then if is_item l then S (items_length rest) else 0 else 0) = 0)
          by (destruct under; [|done]; by destruct (is_item l)).
        rewrite Hz, Nat.add_0_r. simpl. by apply list_lookup_middle.
      * apply Hrest. intros [?|[? _]]; done.
Qed.
End dropping.

(** ** Reading a block where one date differs *)

Section reading.
Context (json_loads : string -> option value) (key v : string) (Hkey : date_key key).
#[local] Abbreviation read := (read_line json_loads).

(** Two readings that agree but on [key], which the second reads as [v]. *)
Record agree (st st' : parse_state) : Prop := Agree {
  ag_labels : ps_labels st = ps_labels st';
  ag_targets : ps_targets st = ps_targets st';
  ag_others k : k <> key -> odict_get k (ps_meta st) = odict_get k (ps_meta st');
  ag_key : odict_get key (ps_meta st') = Some (VStr v)
}.

Lemma date_key_not key' : key' ∈ [SUPERSEDES; GRAPH_KEY; RECORD_KEY; "type"; "name"; "description"] -> key <> key'.
Proof. destruct Hkey as [-> | ->]; intros Hin <-; revert Hin; by_decide. Qed.

Lemma reads_date st l : declares key l = true -> read st l = set_meta key (VStr (unquote_value (value_part l))) st.
Proof.
  intros Hd. unfold read_line. rewrite (date_like_not_item l) by (by eapply declares_date_like).
  destruct (ps_in_items st); unfold declares, value_part in *; destruct (partition_colon l) as [[k w]|]; try done.
  all: apply bool_decide_eq_true in Hd; rewrite Hd; unfold read_key.
  all: rewrite decide_False by (apply date_key_not; by_decide).
  all: rewrite decide_True by (destruct Hkey as [-> | ->]; by_decide); done.
Qed.

Lemma agree_date st l : declares key l = true -> unquote_value (value_part l) = v -> agree st (read st l).
Proof.
  intros Hd Hv. rewrite reads_date, Hv by done. constructor; simpl; [done..| |by rewrite odict_get_set_eq].
  intros k Hk. by rewrite odict_get_set_ne.
Qed.

Lemma agree_dates st l l' :
  declares key l = true -> declares key l' = true -> unquote_value (value_part l') = v -> agree (read st l) (read st l').
Proof.
  intros Hd Hd' Hv. rewrite !reads_date, Hv by done. constructor; simpl; [done..| |by rewrite odict_get_set_eq].
  intros k Hk. by rewrite !odict_get_set_ne.
Qed.

Lemma agree_set st st' k w : agree st st' -> k <> key -> agree (set_meta k w st) (set_meta k w st').
Proof.
  intros [Hl Ht Ho Hk] Hne. constructor; simpl; [done..| |].
  - intros k' Hk'. rewrite !odict_get_set. case_decide; [done|by apply Ho].
  - by rewrite odict_get_set_ne.
Qed.

Lemma agree_same st st' in_items in_items' :
  agree st st' -> agree (Parse (ps_meta st) (ps_labels st) (ps_targets st) in_items)
                        (Parse (ps_meta st') (ps_labels st') (ps_targets st') in_items').
Proof. by intros []. Qed.

Lemma agree_targets st st' targets in_items :
  agree st st' -> agree (set_targets targets in_items st) (set_targets targets in_items st').
Proof. by intros []. Qed.

(** What a line that does not declare [key] makes of the sequence being read. *)
Lemma read_in_items st st' l :
  ps_targets st = ps_targets st' -> ps_in_items st = ps_in_items st' \/ block_item l = None ->
  ps_in_items (read st l) = ps_in_items (read st' l).
Proof.
  intros Ht Hin. unfold read_line.
  assert (Hi : (if ps_in_items st then block_item l else None) = (if ps_in_items st' then block_item l else None))
    by (destruct Hin as [-> | ->]; [done|by repeat case_match]).
  rewrite <-Hi. destruct (if ps_in_items st then block_item l else None); [done|].
  destruct (partition_colon l) as [[k w]|]; [|done]. unfold read_key. rewrite Ht. repeat case_decide; done.
Qed.

(** A line that does not declare [key] keeps the agreement. *)
Lemma agree_key st st' l k w : agree st st' -> k <> key -> agree (read_key json_loads l k w st) (read_key json_loads l k w st').
Proof.
  intros Ha Hne. assert (H := Ha). destruct H as [Hl Ht Ho Hk]. unfold read_key. rewrite <-Ht.
  repeat case_decide; try (by apply agree_targets); try (by apply agree_same); try (by apply agree_set).
  - rewrite (Ho k Hne). by apply agree_set.
  - rewrite <-Hl. by constructor.
Qed.

Lemma agree_read st st' l :
  agree st st' -> ps_in_items st = ps_in_items st' \/ block_item l = None -> declares key l = false ->
  agree (read st l) (read st' l) /\ ps_in_items (read st l) = ps_in_items (read st' l).
Proof.
  intros Ha Hin Hd. split; [|apply read_in_items; [by apply ag_targets|done]]. unfold read_line.
  assert (Hi : (if ps_in_items st then block_item l else None) = (if ps_in_items st' then block_item l else None))
    by (destruct Hin as [-> | ->]; [done|by repeat case_match]).
  rewrite <-Hi, <-(ag_targets _ _ Ha).
  destruct (if ps_in_items st then block_item l else None); [by apply agree_targets|].
  unfold declares in Hd. destruct (partition_colon l) as [[k w]|]; [|by apply agree_same].
  apply bool_decide_eq_false in Hd. by apply agree_key.
Qed.

(** An item is not the line of a key. *)
Lemma item_key l k w : is_item l = true -> partition_colon l = Some (k, w) -> exists r, chars (stripped k) = "-"%char :: r.
Proof.
  intros Hi (-> & Hk)%partition_colon_some. unfold stripped. rewrite chars_unchars.
  destruct (drop_while_split is_space k) as (a & Hka & Ha). destruct (strip_chars_split k) as (sp & Hs & Hsp).
  unfold is_item, block_item in Hi. rewrite Hka, <-app_assoc, drop_while_skip in Hi by done.
  destruct (drop_while is_space k) as [|c k'] eqn:Hd; [done|].
  assert (Hc : is_space c = false).
  { destruct (is_space c) eqn:Hc; [|done]. assert (Hw := drop_while_idemp is_space k). rewrite Hd in Hw. simpl in Hw. rewrite Hc in Hw.
    destruct (drop_while_split is_space k') as (b & Hb & _). rewrite Hw in Hb. apply (f_equal length) in Hb. rewrite length_app in Hb. simpl in Hb. lia. }
  simpl in Hi. rewrite Hc in Hi. assert (c = "-"%char) as -> by (by repeat case_match).
  destruct (strip_chars k) as [|d r]; simpl in Hs; [|injection Hs as <- _; by exists r].
  subst sp. by apply Forall_cons in Hsp as [? _].
Qed.

Lemma reads_item st l : is_item l = true -> ps_in_items st = false -> read st l = st.
Proof.
  intros Hi Hst. assert (Hleft : left_items st = st) by (destruct st; simpl in *; by subst).
  unfold read_line. rewrite Hst. destruct (partition_colon l) as [[k w]|] eqn:Hp; [|done].
  destruct (item_key l k w Hi Hp) as (r & Hr).
  assert (Hne : forall ks, forallb (fun key' => negb (starts_with key' "-")) ks = true -> stripped k ∉ ks).
  { intros ks Hks Hin. rewrite forallb_forall in Hks. apply list_elem_of_In, Hks in Hin. unfold starts_with in Hin. by rewrite Hr in Hin. }
  assert (Hne1 : forall key', negb (starts_with key' "-") = true -> stripped k <> key')
    by (intros key' Hks <-; apply (Hne [stripped k]); [simpl; by rewrite Hks|by left]).
  unfold read_key. rewrite decide_False by by apply Hne1. rewrite decide_False by by apply Hne. rewrite decide_False by by apply Hne.
  rewrite !decide_False by by apply Hne1. rewrite decide_False; [done|]. intros [Hin _]. revert Hin. by apply Hne.
Qed.

(** The lines a collapse drops may go: what is kept reads the same, where no item comes just
    after a dropped declaration. *)
Lemma agree_unmarked (under after : bool) ls st st' :
  agree st st' -> (under = true -> ps_in_items st = false) ->
  (if after then ps_in_items st = false else ps_in_items st = ps_in_items st') ->
  apart (fun l => block_item l = None) key under after ls ->
  agree (foldl read st ls) (foldl read st' (unmarked (drop_marks key under ls) ls)).
Proof.
  revert under after st st'. induction ls as [|l ls IH]; intros under after st st' Ha Hunder Hafter Hapart; [done|].
  cbn [apart drop_marks] in *. simpl foldl at 1. destruct (declares key l) eqn:Hd.
  - simpl. apply (IH _ true); [|by intros _; rewrite reads_date|by rewrite reads_date|done].
    rewrite reads_date by done. destruct Ha as [Hl Ht Ho Hk]. constructor; simpl; [done..| |done].
    intros k Hk'. rewrite odict_get_set_ne by done. by apply Ho.
  - destruct (under && is_item l) eqn:Hi.
    + apply andb_true_iff in Hi as [-> Hi]. simpl. rewrite reads_item by auto. apply (IH true true); auto.
    + simpl. destruct Hapart as [Hok Hapart].
      assert (Hin : ps_in_items st = ps_in_items st' \/ block_item l = None) by (destruct after; auto).
      destruct (agree_read st st' l Ha Hin Hd). by apply (IH false false).
Qed.

Lemma agree_rest st st' ls :
  agree st st' -> ps_in_items st = ps_in_items st' -> Forall (fun l => declares key l = false) ls ->
  agree (foldl read st ls) (foldl read st' ls).
Proof.
  intros Ha Hin Hls. revert st st' Ha Hin. induction Hls as [|l ls Hl _ IH]; intros st st' Ha Hin; [done|]. simpl.
  destruct (agree_read st st' l Ha (or_introl Hin) Hl). by apply IH.
Qed.

(** ** What the reading ends with *)

Definition labels_known (st : parse_state) : Prop := forall k, k ∈ (ps_labels st).*1 -> k ∈ RECORD_LABEL_KEYS.

Lemma labels_known_read st l : labels_known st -> labels_known (read st l).
Proof.
  intros Hst. unfold read_line. destruct (if ps_in_items st then block_item l else None); [done|].
  destruct (partition_colon l) as [[k w]|]; [|done]. unfold read_key. repeat case_decide; try done.
  intros k' Hk'. simpl in Hk'. apply odict_set_fst in Hk' as [->|]; [tauto|by apply Hst].
Qed.

Lemma labels_known_block ls st : labels_known st -> labels_known (foldl read st ls).
Proof. revert st. induction ls as [|l ls IH]; intros st Hst; [done|]. by apply IH, labels_known_read. Qed.

Lemma labels_start : labels_known block_start.
Proof. by intros k ?%not_elem_of_nil. Qed.

Definition add_labels (labels : list (string * string)) (m : metadata) : metadata :=
  foldl (fun m p => odict_set p.1 (VStr p.2) m) m labels.

Lemma add_labels_same labels m m' k : odict_get k m = odict_get k m' -> odict_get k (add_labels labels m) = odict_get k (add_labels labels m').
Proof.
  revert m m'. induction labels as [|[k1 w1] labels IH]; intros m m' H; [done|]. apply IH. rewrite !odict_get_set. by case_decide.
Qed.

Lemma add_labels_other labels m k : k ∉ labels.*1 -> odict_get k (add_labels labels m) = odict_get k m.
Proof.
  revert m. induction labels as [|[k1 w1] labels IH]; intros m Hk; [done|]. rewrite fmap_cons, not_elem_of_cons in Hk.
  simpl. rewrite IH by tauto. rewrite odict_get_set_ne; [done|tauto].
Qed.

Definition with_targets (st : parse_state) : metadata :=
  match ps_targets st with
  | Some targets => odict_set SUPERSEDES (supersedes_value targets) (ps_meta st)
  | None => ps_meta st
  end.

Lemma block_meta_unfold st :
  block_meta st = match odict_get RECORD_KEY (with_targets st) with
              | Some _ => add_labels (ps_labels st) (with_targets st)
              | None => with_targets st
              end.
Proof. done. Qed.

(** The metadata agrees but on [key]. *)
Lemma agree_block_meta st st' k :
  agree st st' -> labels_known st' -> odict_get k (block_meta st') = if decide (k = key) then Some (VStr v) else odict_get k (block_meta st).
Proof.
  intros [Hl Ht Ho Hk] Hlab. rewrite !block_meta_unfold.
  assert (Hsup : key <> SUPERSEDES) by (apply date_key_not; by_decide).
  assert (Hwo : forall k, k <> key -> odict_get k (with_targets st) = odict_get k (with_targets st')).
  { intros k' Hk'. unfold with_targets. rewrite <-Ht. destruct (ps_targets st); [|by apply Ho]. rewrite !odict_get_set. case_decide; [done|by apply Ho]. }
  assert (Hwk : odict_get key (with_targets st') = Some (VStr v)).
  { unfold with_targets. destruct (ps_targets st'); [by rewrite odict_get_set_ne|done]. }
  rewrite (Hwo RECORD_KEY) by (intros Hr; symmetry in Hr; revert Hr; apply date_key_not; by_decide). rewrite Hl.
  destruct (odict_get RECORD_KEY (with_targets st')); case_decide as Hd; subst; [| |done|by symmetry; apply Hwo].
  - rewrite add_labels_other; [done|]. intros Hin%Hlab. by apply (date_key_not key); [revert Hin; unfold RECORD_LABEL_KEYS; membership; naive_solver|].
  - apply add_labels_same. by symmetry; apply Hwo.
Qed.

(** What [parse_block] gives for the same block with a date line added or replaced. *)
Definition rereads (block block' : list line) : Prop :=
  forall k, odict_get k (parse_block json_loads block') = if decide (k = key) then Some (VStr v) else odict_get k (parse_block json_loads block).

Lemma rereads_add block l : declares key l = true -> unquote_value (value_part l) = v -> rereads block (block ++ [l]).
Proof.
  intros Hd Hv k. unfold parse_block. rewrite foldl_app. apply agree_block_meta; [by apply agree_date|].
  apply labels_known_read, labels_known_block, labels_start.
Qed.

Lemma rereads_replace pre l l' post :
  declares key l = true -> declares key l' = true -> unquote_value (value_part l') = v ->
  Forall (fun l => declares key l = false) post -> rereads (pre ++ l :: post) (pre ++ l' :: post).
Proof.
  intros Hd Hd' Hv Hpost k. unfold parse_block. rewrite !foldl_app. simpl. apply agree_block_meta.
  - apply agree_rest; [by apply agree_dates|by rewrite !reads_date|done].
  - apply labels_known_block, labels_known_read, labels_known_block, labels_start.
Qed.

Lemma rereads_collapse pre l l' post :
  declares key l = true -> declares key l' = true -> unquote_value (value_part l') = v ->
  apart (fun l => block_item l = None) key (bool_decide (value_part l = "")) false post ->
  rereads (pre ++ l :: post) (pre ++ l' :: unmarked (drop_marks key (bool_decide (value_part l = "")) post) post).
Proof.
  intros Hd Hd' Hv Hpost k. unfold parse_block. rewrite !foldl_app. simpl. apply agree_block_meta.
  - apply (agree_unmarked _ false); [by apply agree_dates|by rewrite reads_date|by rewrite !reads_date|done].
  - apply labels_known_block, labels_known_read, labels_known_block, labels_start.
Qed.
End reading.

(** ** Byte order marks, terminators and values *)

Lemma split_bom_encode l : split_bom (encode_chars l) = ([], encode_chars l).
Proof.
  destruct l as [|c l]; [done|]. change (encode_chars (c :: l)) with (encode_char c ++ encode_chars l).
  assert (Hc := encoded_bytes c). destruct (encode_char c) as [|a bs] eqn:He; [by assert (Hn := decode_encode_char c []); rewrite He in Hn|].
  simpl app. destruct (bs ++ encode_chars l) as [|b [|d rest]]; [done..|]. cbn [split_bom]. rewrite decide_False; [done|].
  intros [= -> _ _]. destruct (Hc (byte 239) ltac:(left)) as [Hb _]. vm_compute in Hb. lia.
Qed.

Lemma split_bom_app raw bom body :
  split_bom raw = (bom, body) -> raw = bom ++ body /\ forall rest, split_bom rest = ([], rest) -> split_bom (bom ++ rest) = (bom, rest).
Proof.
  remember (length raw) as n eqn:Hn. revert raw bom body Hn. induction (lt_wf n) as [n _ IH]. intros raw bom body -> Hs.
  destruct raw as [|a [|b [|c raw]]]; try (by injection Hs as <- <-). cbn [split_bom] in Hs. case_decide as Hd; [|by injection Hs as <- <-].
  destruct (split_bom raw) as [bom' body'] eqn:Hr. injection Hs as <- <-.
  destruct (IH (length raw) ltac:(simpl; lia) raw bom' body' eq_refl Hr) as [-> Hrest]. split; [done|].
  intros rest He. simpl app. cbn [split_bom]. by rewrite decide_True, (Hrest rest He).
Qed.

Lemma dominant_newline_eol l :
  exists e, dominant_newline l = eol_bytes e /\ e <> NoEol /\ (e = EndCR -> ~ opens_lf (pieces l)).
Proof.
  induction l as [|l IH|l IH|l Hl IH|c l HL HC IH] using line_cases.
  - exists EndLF. split_and!; [done..|]. by intros [=].
  - exists EndLF. split_and!; [done..|]. by intros [=].
  - exists EndCRLF. split_and!; [done..|]. by intros [=].
  - exists EndCR. split_and!; [|done|].
    + destruct l as [|d l]; [done|]. cbn [dominant_newline]. rewrite decide_True, decide_False; [done| |done]. intros ->. by apply Hl.
    + intros _ Ho%opens_lf_pieces. by injection Ho.
  - destruct IH as (e & He & Hne & _). exists e. split_and!; [|done|].
    + cbn [dominant_newline]. by rewrite !decide_False.
    + intros _ Ho%opens_lf_pieces. by injection Ho.
Qed.

Lemma line_terminator_eol w e otherwise :
  no_break w -> e <> NoEol -> line_terminator (w ++ eol_bytes e) otherwise = eol_bytes e.
Proof.
  intros [HL HC] He. unfold line_terminator, bytes_end. rewrite !reverse_app.
  destruct e; [done| |reflexivity|reflexivity]. simpl.
  destruct (reverse w) as [|c r] eqn:Hr; [done|]. simpl.
  assert (Hc : c ∈ w) by (apply elem_of_reverse; rewrite Hr; left).
  rewrite bool_decide_eq_false_2; [done|]. intros <-. done.
Qed.

Lemma line_terminator_none w otherwise : no_break w -> line_terminator w otherwise = otherwise.
Proof.
  intros [HL HC]. unfold line_terminator, bytes_end.
  destruct (reverse w) as [|c r] eqn:Hr; [done|].
  assert (Hc : c ∈ w) by (apply elem_of_reverse; rewrite Hr; left).
  assert (LF <> c) by (by intros <-). assert (CR <> c) by (by intros <-).
  assert (H1 : forall s, list_prefix (LF :: s) (c :: r) = false) by (intros s; simpl; by rewrite bool_decide_eq_false_2).
  assert (H2 : forall s, list_prefix (CR :: s) (c :: r) = false) by (intros s; simpl; by rewrite bool_decide_eq_false_2).
  change (reverse [CR; LF]) with [LF; CR]. change (reverse [LF]) with [LF]. change (reverse [CR]) with [CR]. by rewrite !H1, H2.
Qed.

(** Beside a line, a new one gets an ending. *)
Lemma line_terminator_some w e l :
  no_break w -> exists e', line_terminator (w ++ eol_bytes e) (dominant_newline l) = eol_bytes e' /\ e' <> NoEol /\ (e <> NoEol -> e' = e).
Proof.
  intros Hw. destruct (decide (e = NoEol)) as [->|He].
  - destruct (dominant_newline_eol l) as (e' & -> & He' & _). exists e'. simpl. rewrite app_nil_r, line_terminator_none by done. by split_and!.
  - exists e. by rewrite line_terminator_eol.
Qed.

Lemma value_no_break v : has_line_break v = false -> no_break (chars v).
Proof.
  unfold has_line_break. intros Hv%negb_false_iff%bool_decide_eq_true.
  assert (Hall : forall c, c ∈ chars v -> ends_line c = false).
  { intros c Hc%list_elem_of_In. rewrite Hv in Hc. apply filter_In in Hc as [_ Hc]. by apply negb_true_iff in Hc. }
  split; intros Hc%Hall; vm_compute in Hc; done.
Qed.

Lemma take_no_break n w : no_break w -> no_break (take n w).
Proof. intros [HL HC]. split; intros Hc; [apply HL|apply HC]; by eapply elem_of_take in Hc as (i & Hi & _); eapply list_elem_of_lookup_2. Qed.

(** ** Joining text lines *)

Definition strip_newlines (s : string) : string := unchars (drop_while (fun c => bool_decide (c = LF)) (chars s)).

Lemma join_split l : join (unchars [LF]) (unchars <$> split_chars LF l) = unchars l.
Proof.
  unfold join. induction l as [|c l IH]; [done|]. cbn [split_chars]. case_decide as Hc.
  - subst c. destruct (split_chars LF l) as [|w ws] eqn:Hs; [by apply split_chars_not_nil in Hs|].
    transitivity (unchars [LF] +:+ String.concat (unchars [LF]) (unchars <$> w :: ws)); [done|]. by rewrite IH.
  - destruct (split_chars LF l) as [|w ws] eqn:Hs; [by apply split_chars_not_nil in Hs|]. 
    change (unchars (c :: l)) with (String.String c (unchars l)). rewrite <-IH. by destruct ws.
Qed.

Lemma join_text_lines t : join_lines (text_lines t) = t.
Proof. unfold join_lines, text_lines. by rewrite join_split, unchars_chars. Qed.

Lemma strip_newlines_idemp s : strip_newlines (strip_newlines s) = strip_newlines s.
Proof. unfold strip_newlines. by rewrite chars_unchars, drop_while_idemp. Qed.

(** What stands before some index and what is kept of the rest. *)
Lemma mjoin_imap_before {A} (f : nat -> A -> list A) xs :
  (forall i x, i < length xs -> f i x = [x]) -> mjoin (imap f xs) = xs.
Proof.
  revert f. induction xs as [|x xs IH]; intros f Hf; [done|]. rewrite imap_cons. cbn [mjoin list_join].
  rewrite Hf by (simpl; lia). simpl. f_equal. apply IH. intros i y Hi. apply Hf. simpl. lia.
Qed.

(** ** The bytes an edit makes *)

Section edits.
Context (raw bom body : bytes) (t key v : string).
Context (Hraw : split_bom raw = (bom, body)) (Ht : body = encode t).
Context (Hkey : date_key key) (Hv : has_line_break v = false).
#[local] Abbreviation ps := (pieces (chars t)).
#[local] Abbreviation ls := (text_lines (universal_newlines t)).

(** The bytes are the ones of a text with these lines. *)
Definition written (new : bytes) (lines' : list line) : Prop :=
  exists t', new = bom ++ encode t' /\ text_lines (universal_newlines t') = lines'.

Lemma written_pieces ps' : clean ps' -> written (bom ++ encode_chars (render ps')) (contents ps').
Proof.
  intros Hps. exists (unchars (render ps')). unfold encode. rewrite text_lines_unified, chars_unchars. split; [done|].
  by rewrite pieces_render.
Qed.

Lemma body_lines : split_lines body = whole <$> (encode_piece <$> ps).
Proof. unfold split_lines, encode in *. by rewrite Ht, pieces_encode. Qed.

Lemma line_of i w : ls !! i = Some w -> w <> [] ->
  exists e, ps !! i = Some (w, e) /\ no_break w /\ split_lines body !! i = Some (encode_chars w ++ eol_bytes e).
Proof.
  intros Hi Hw. rewrite text_lines_unified in Hi. destruct (contents_lookup_inv _ _ _ Hi Hw) as (e & He). exists e.
  split; [done|]. split; [eapply clean_lookup; [apply pieces_clean|done]|].
  by rewrite body_lines, !list_lookup_fmap, He.
Qed.

Lemma date_bytes indent : encode_chars indent ++ entry_of key v = encode_chars (date_line indent key v).
Proof. unfold entry_of, encode, date_line. by rewrite encode_chars_app. Qed.

Lemma date_like_line indent : Forall (fun c => is_space c = true) indent -> date_like (date_line indent key v).
Proof. intros. by apply (declares_date_like key), date_line_declares. Qed.

Lemma closing_not_nil l : is_rule l = true -> l <> [].
Proof. intros Hr ->. done. Qed.

Lemma insert_in_block s :
  span_of ls = Some s ->
  exists new, insert_frontmatter_line raw key v = Ok new /\ written new (take s ls ++ date_line [] key v :: drop s ls).
Proof.
  intros Hs. assert (H := Hs). apply span_of_some in H as (opening & block & closing & post & Hls & Hn & _ & _ & Hc).
  assert (Hcl : ls !! s = Some closing) by (rewrite Hls, Hn; simpl; by rewrite list_lookup_middle).
  destruct (line_of s closing Hcl (closing_not_nil _ Hc)) as (e & He & Hb & Hl).
  destruct (line_terminator_some (encode_chars closing) e body (encode_no_break _ Hb)) as (e' & Hterm & Hne & _).
  assert (Hw : date_line [] key v <> []) by (apply date_like_not_nil, date_like_line; constructor).
  assert (Hwb : no_break (date_line [] key v)) by (apply date_line_no_break; [done|auto with recall|by apply value_no_break]).
  exists (bom ++ encode_chars (render (take s ps ++ (date_line [] key v, e') :: drop s ps))). split.
  - unfold insert_frontmatter_line. rewrite Hv, Hraw, (proj2 (decode_ok body t) Ht). cbn [mbind result_bind].
    unfold frontmatter_span. rewrite Hs, Hl. cbn [default from_option id]. rewrite Hterm, body_lines. do 2 f_equal.
    rewrite <-render_encode, fmap_app, fmap_cons, fmap_take, fmap_drop. unfold encode_piece at 4. cbn [fst snd].
    by rewrite render_insert, <-(date_bytes []).
  - rewrite text_lines_unified, <-(contents_insert ps s closing (date_line [] key v) e e') by (done || apply pieces_clean).
    apply written_pieces. eapply clean_insert; [apply pieces_clean|done|by apply closing_not_nil|done..].
Qed.

Definition rule_line : line := chars "---".

Lemma insert_new_block :
  span_of ls = None ->
  exists new, insert_frontmatter_line raw key v = Ok new /\ written new (rule_line :: date_line [] key v :: rule_line :: ls).
Proof.
  intros Hs. destruct (dominant_newline_eol body) as (e & Hnl & Hne & Hlf).
  assert (Hwb : no_break (date_line [] key v)) by (apply date_line_no_break; [done|auto with recall|by apply value_no_break]).
  assert (Hw : date_line [] key v <> []) by (apply date_like_not_nil, date_like_line; constructor).
  set (ps' := (rule_line, e) :: (date_line [] key v, e) :: (rule_line, e) :: ps).
  exists (bom ++ encode_chars (render ps')). split.
  - unfold insert_frontmatter_line. rewrite Hv, Hraw, (proj2 (decode_ok body t) Ht). cbn [mbind result_bind].
    unfold frontmatter_span. rewrite Hs, Hnl. do 2 f_equal. rewrite Ht. unfold ps'.
    rewrite !render_cons, !encode_chars_app, encode_eol, render_pieces, <-(date_bytes []). by rewrite <-!app_assoc.
  - assert (Hc : contents ps' = rule_line :: date_line [] key v :: rule_line :: ls) by (rewrite text_lines_unified; by destruct e).
    assert (Hrule : no_break rule_line) by (split; by_decide).
    rewrite <-Hc. apply written_pieces. constructor; [done..|intros _; by apply not_opens_lf|].
    constructor; [done..|intros _; by apply not_opens_lf|]. constructor; [done..| |apply pieces_clean].
    intros HCR Ho. apply (Hlf HCR). rewrite Ht. unfold encode. rewrite pieces_encode. destruct Ho as (q & ->). by eexists.
Qed.

Definition no_bare_cr : Prop := Forall (fun p => p.2 <> EndCR) ps.

(** What is left of clean lines is clean, where no empty line comes to stand after a bare [CR]. *)
Lemma clean_unmarked (under after : bool) qs closing e rest :
  clean (qs ++ (closing, e) :: rest) -> closing <> [] -> (no_bare_cr -> Forall (fun p => p.2 <> EndCR) qs) ->
  apart (fun l => l = [] -> no_bare_cr) key under after qs.*1 ->
  clean (unmarked (drop_marks key under qs.*1) qs ++ (closing, e) :: rest) /\
  (opens_lf (unmarked (drop_marks key under qs.*1) qs ++ (closing, e) :: rest) ->
     no_bare_cr \/ (after = false /\ opens_lf (qs ++ (closing, e) :: rest))).
Proof.
  intros Hclean Hne. revert under after Hclean. induction qs as [|[w e0] qs IH]; intros under after Hclean Hcr Hapart.
  - split; [done|]. by intros Ho%not_opens_lf.
  - simpl in Hclean. inversion Hclean as [|? ? ? Hn|? ? ? Hw He Hlf Hqs]; subst; [by destruct qs|].
    assert (Hcr' : no_bare_cr -> e0 <> EndCR /\ Forall (fun p => p.2 <> EndCR) qs) by (intros Hb; by apply Forall_cons in Hcr; auto).
    cbn [apart drop_marks fmap list_fmap fst] in *. destruct (declares key w).
    { destruct (IH _ true Hqs (fun Hb => proj2 (Hcr' Hb)) Hapart) as [Hc Ho]. split; [done|]. intros [?|[? _]]%Ho; [by left|done]. }
    destruct (under && is_item w).
    { destruct (IH _ true Hqs (fun Hb => proj2 (Hcr' Hb)) Hapart) as [Hc Ho]. split; [done|]. intros [?|[? _]]%Ho; [by left|done]. }
    destruct Hapart as [Hok Hapart]. destruct (IH _ false Hqs (fun Hb => proj2 (Hcr' Hb)) Hapart) as [Hc Ho]. simpl app. split.
    + constructor; [done..| |done]. intros HCR [Hb|[_ Hopens]]%Ho; [by apply (Hcr' Hb)|by apply (Hlf HCR)].
    + intros [-> ->]%opens_lf_cons. destruct after; [left; by apply Hok|right]. split; [done|]. by apply opens_lf_cons.
Qed.

(** Collapsing by number, on any form of the lines. *)
Lemma collapse_lines {A} front l block back (xf : list A) x xb more x' :
  length xf = length front -> length xb = length block -> declares key l = true ->
  xf ++ x' :: unmarked (drop_marks key (bool_decide (value_part l = "")) block) xb ++ more =
  mjoin (imap (fun k y => (if decide (k = length front) then [x'] else []) ++
    (if decide (k ∈ dropped_from key front false (l :: block) back) then [] else [y])) (xf ++ x :: xb ++ more)).
Proof.
  intros Hf Hb Hd. rewrite imap_app, imap_cons, join_app, Nat.add_0_r, Hf. cbn [mjoin list_join].
  rewrite dropped_from_cons, Hd by done. rewrite !decide_True by (done || by left). simpl app. f_equal.
  - symmetry. apply mjoin_imap_before. intros i y Hi. rewrite (decide_False (P := i = length front)) by lia. rewrite decide_False; [done|].
    rewrite elem_of_cons. intros [?|Hj%(dropped_from_ge key Hkey)]; [lia|]. rewrite length_app in Hj. lia.
  - f_equal. rewrite <-(keep_unmarked key Hkey (front ++ [l]) _ block back xb more Hb). f_equal. apply imap_ext. intros i y _. cbn.
    rewrite length_app, Nat.add_1_r, Nat.add_succ_r. rewrite (decide_False (P := S (length front + i) = length front)) by lia.
    simpl. apply decide_ext. rewrite elem_of_cons. naive_solver lia.
Qed.

(** The whole block, collapsed: the line that is set stands for the first declaration, and the
    other lines of the key's declarations are gone. *)
Lemma collapse_bytes front l block closing post (newline : bytes) :
  ls = front ++ l :: block ++ closing :: post -> l <> [] -> closing <> [] -> declares key l = true ->
  apart (fun l => l = [] -> no_bare_cr) key (bool_decide (value_part l = "")) false block ->
  let lines := split_lines body in
  let replacement := encode_chars (indent_of l) ++ entry_of key v ++ line_terminator (default [] (lines !! length front)) newline in
  let dropped_ := dropped_from key front false (l :: block) (closing :: post) in
  written (bom ++ mjoin (mjoin (imap (fun k x =>
    (if decide (k = length front) then [replacement] else []) ++ (if decide (k ∈ dropped_) then [] else [x])) lines)))
    (front ++ date_line (indent_of l) key v :: unmarked (drop_marks key (bool_decide (value_part l = "")) block) block ++ closing :: post).
Proof.
  intros Hls Hl Hc Hd Hapart lines replacement dropped_.
  rewrite text_lines_unified in Hls. destruct (contents_split _ _ _ _ Hls Hl) as (pf & e & pr & Hps & <- & Hpf & Hcl).
  assert (Hclean := pieces_clean (chars t)). rewrite Hps in Hclean. assert (Htail := clean_app_r _ _ Hclean).
  rewrite app_comm_cons in Hcl. destruct (contents_split _ (l :: block) closing post Hcl Hc) as (pm & ec & pp & Hpm & Hfst & Hended & Hcp).
  destruct pm as [|[l' e'] pm]; [done|]. injection Hpm as <- <- ->. assert (block = pm.*1) as -> by (by injection Hfst). clear Hfst.
  apply Forall_cons in Hended as [He Hpm]. simpl in He.
  assert (Hlb : no_break l) by (inversion Htail; subst; done). assert (Htail' : clean (pm ++ (closing, ec) :: pp)) by (inversion Htail; subst; [by destruct pm|done]).
  destruct (indent_of_spec l) as (_ & Hind). set (dl := date_line (indent_of l) key v).
  assert (Hw : dl <> []) by by apply date_like_not_nil, date_like_line.
  assert (Hwb : no_break dl) by (apply date_line_no_break; [done|by apply take_no_break|by apply value_no_break]).
  set (kept := unmarked (drop_marks key (bool_decide (value_part l = "")) pm.*1) pm).
  destruct (clean_unmarked (bool_decide (value_part l = "")) false pm closing ec pp Htail' Hc) as [Hk Ho]; [|done|].
  { unfold no_bare_cr. rewrite Hps, Forall_app, Forall_cons, Forall_app. tauto. }
  assert (Hnew : clean (pf ++ (dl, e) :: kept ++ (closing, ec) :: pp)).
  { eapply clean_resume; [exact Hclean| |done]. constructor; [done..| |exact Hk]. intros HCR [Hb|[_ Hopens]]%Ho.
    - unfold no_bare_cr in Hb. rewrite Hps, Forall_app, Forall_cons in Hb. by apply Hb.
    - inversion Htail as [|? ? ? Hnil|? ? ? ? ? Hlf]; subst; [by destruct pm|]. by apply (Hlf eq_refl). }
  assert (Hcontents : contents (pf ++ (dl, e) :: kept ++ (closing, ec) :: pp) =
    pf.*1 ++ dl :: unmarked (drop_marks key (bool_decide (value_part l = "")) pm.*1) pm.*1 ++ closing :: post).
  { rewrite contents_app by done. f_equal. rewrite app_comm_cons, contents_app.
    - rewrite Hcp. unfold kept. rewrite fmap_cons, unmarked_fmap. done.
    - constructor; [done|]. apply (clean_ended kept (closing, ec) pp). apply (clean_app_r [(dl, e)]). by eapply clean_app_r. }
  rewrite <-Hcontents. replace (mjoin (mjoin _)) with (encode_chars (render (pf ++ (dl, e) :: kept ++ (closing, ec) :: pp)));
    [by apply written_pieces|].
  rewrite <-render_encode. unfold render. f_equal. set (W := fun p => whole (encode_piece p)).
  assert (Hlines : lines = W <$> ps) by (unfold lines; by rewrite body_lines, <-list_fmap_compose).
  rewrite <-list_fmap_compose. change (whole ∘ encode_piece) with W.
  assert (Hr : replacement = W (dl, e)).
  { unfold replacement. rewrite Hlines, Hps, list_lookup_fmap, length_fmap, list_lookup_middle by done. cbn [fmap option_fmap option_map default from_option id].
    unfold W, whole, encode_piece. cbn [fst snd]. rewrite line_terminator_eol by (done || by apply encode_no_break). by rewrite app_assoc, date_bytes. }
  rewrite Hr, Hlines, Hps. repeat rewrite ?fmap_app, ?fmap_cons. unfold kept, dropped_. rewrite unmarked_fmap.
  by apply collapse_lines; rewrite ?length_fmap.
Qed.
End edits.

(** ** Reading back *)

(** The declarations of [key] can be collapsed onto the first one: after the lines that go with
    each other declaration (and with the first, where items go with it) comes a line that is no
    item, so that the sequence of another key adopts none, nor an empty line of a document that
    has bare [CR]s, which would join two line breaks into one. *)
Definition collapsible (key t : string) : Prop :=
  let ls := text_lines (universal_newlines t) in
  forall s i l, span_of ls = Some s -> i ∈ key_lines ls s key -> ls !! key_extent ls s i = Some l ->
    (head (key_lines ls s key) = Some i /\ key_extent ls s i = S i) \/
    (block_item l = None /\ (l = [] -> no_bare_cr t)).

Lemma collapsible_apart key t opening pre l bpost closing post :
  date_key key -> collapsible key t ->
  text_lines (universal_newlines t) = opening :: (pre ++ l :: bpost) ++ closing :: post ->
  span_of (text_lines (universal_newlines t)) = Some (S (length (pre ++ l :: bpost))) ->
  key_positions key 1 (pre ++ l :: bpost) = (1 + length pre) :: key_positions key (S (1 + length pre)) bpost -> declares key l = true ->
  apart (fun x => block_item x = None /\ (x = [] -> no_bare_cr t)) key (bool_decide (value_part l = "")) false bpost.
Proof.
  intros Hkey Hcol Hls Hs Hpos Hd. unfold collapsible in Hcol. cbn zeta in Hcol.
  assert (Hkl := key_lines_block key opening (pre ++ l :: bpost) closing post). rewrite <-Hls, Hpos in Hkl.
  assert (Hform : text_lines (universal_newlines t) = (opening :: pre) ++ l :: bpost ++ closing :: post)
    by (rewrite Hls; simpl; by rewrite <-app_assoc).
  assert (Hlen : S (length (pre ++ l :: bpost)) = length (opening :: pre) + S (length bpost)) by (rewrite length_app; simpl; lia).
  assert (Hext : key_extent (text_lines (universal_newlines t)) (S (length (pre ++ l :: bpost))) (1 + length pre) =
    S (1 + length pre) + (if bool_decide (value_part l = "") then items_length bpost else 0)).
  { rewrite Hlen, Hform. apply (extent_at (opening :: pre)). }
  apply (apart_extents _ _ ((opening :: pre) ++ [l]) _ _ _ (closing :: post)); rewrite length_app, Nat.add_1_r, <-app_assoc;
    change ([l] ++ bpost ++ closing :: post) with (l :: bpost ++ closing :: post); rewrite <-Hform.
  - intros [?|[Hempty Hitems]] x Hx; [done|]. rewrite Hempty in Hx, Hext. destruct (Hcol _ (1 + length pre) x Hs) as [[_ Hone]|Hok]; [rewrite Hkl; by left|by rewrite Hext| |done].
    rewrite Hext in Hone. lia.
  - replace (S (length (opening :: pre)) + length bpost) with (S (length (pre ++ l :: bpost))) by (rewrite Hlen; lia).
    intros i x Hi Hx. destruct (Hcol _ i x Hs) as [[Hhead _]|Hok]; [rewrite Hkl; by right|done| |done].
    apply positions_ge in Hi. rewrite Hkl in Hhead. injection Hhead as <-. simpl in Hi. lia.
Qed.

Section roundtrip.
Context (json_loads : string -> option value) (key v : string) (Hkey : date_key key) (Hv : unquote_value (strip v) = v).
#[local] Abbreviation parse := (parse_frontmatter json_loads).

(** Every key but [key] reads the same, [key] reads [v], and the body is the same. *)
Definition reads_back (before after : string) : Prop :=
  (forall k, odict_get k (parse after).1 = if decide (k = key) then Some (VStr v) else odict_get k (parse before).1) /\
  (parse after).2 = strip_newlines (parse before).2.

Lemma parse_of_block text opening block closing post :
  text_lines text = opening :: block ++ closing :: post -> span_of (text_lines text) = Some (S (length block)) ->
  parse text = (parse_block json_loads block, body_after post).
Proof.
  intros Hls Hs. unfold parse_frontmatter, frontmatter_span. rewrite Hs, Hls. simpl. rewrite Nat.sub_0_r, drop_0, take_app_length.
  f_equal. f_equal. rewrite (drop_app_ge block) by lia. replace (S (length block) - length block) with 1 by lia. done.
Qed.

Lemma blocks_read_back before after opening block block' closing post :
  text_lines before = opening :: block ++ closing :: post -> text_lines after = opening :: block' ++ closing :: post ->
  is_rule opening = true -> is_rule closing = true -> block_members false block = Some true -> block_members false block' = Some true ->
  rereads json_loads key v block block' -> reads_back before after.
Proof.
  intros Hb Ha Ho Hc Hm Hm' Hr.
  assert (Hs : forall text b, text_lines text = opening :: b ++ closing :: post -> block_members false b = Some true ->
    parse text = (parse_block json_loads b, body_after post)).
  { intros text b Hls Hmb. eapply parse_of_block; [done|]. apply span_of_some. by exists opening, b, closing, post. }
  unfold reads_back. rewrite (Hs _ _ Hb Hm), (Hs _ _ Ha Hm'). split; [exact Hr|]. simpl.
  symmetry. apply (strip_newlines_idemp (join_lines post)).
Qed.

Lemma new_block_reads_back before after :
  span_of (text_lines before) = None ->
  text_lines after = rule_line :: date_line [] key v :: rule_line :: text_lines before -> reads_back before after.
Proof.
  intros Hs Ha. assert (Hd : declares key (date_line [] key v) = true) by (apply date_line_declares; [done|constructor]).
  assert (Hb : parse before = ([], before)) by (unfold parse_frontmatter, frontmatter_span; by rewrite Hs).
  assert (Hp : parse after = (parse_block json_loads [date_line [] key v], body_after (text_lines before))).
  { eapply (parse_of_block _ rule_line _ rule_line); [done|]. rewrite Ha. apply span_of_some.
    exists rule_line, [date_line [] key v], rule_line, (text_lines before). split_and!; try done.
    change [date_line [] key v] with ([] ++ [date_line [] key v]). simpl.
    rewrite date_like_not_rule, date_like_member by by eapply declares_date_like. done. }
  unfold reads_back. rewrite Hp, Hb. split; [|unfold body_after, strip_newlines; by rewrite join_text_lines].
  intros k. apply (rereads_add json_loads key v Hkey [] (date_line [] key v) Hd). by rewrite date_line_value by (done || constructor).
Qed.

Lemma inserted_reads_back before after opening block closing post :
  text_lines before = opening :: block ++ closing :: post ->
  text_lines after = take (S (length block)) (text_lines before) ++ date_line [] key v :: drop (S (length block)) (text_lines before) ->
  is_rule opening = true -> is_rule closing = true -> block_members false block = Some true -> reads_back before after.
Proof.
  intros Hb Ha Ho Hc Hm. rewrite Hb in Ha. simpl in Ha. rewrite take_app_length, drop_app_length in Ha.
  assert (Hd : declares key (date_line [] key v) = true) by (apply date_line_declares; [done|constructor]).
  apply (blocks_read_back _ _ opening block (block ++ [date_line [] key v]) closing post); [done|by rewrite <-app_assoc|done..| |].
  - apply block_members_add; [by eapply declares_date_like|done].
  - apply rereads_add; [done..|]. by rewrite date_line_value by (done || constructor).
Qed.

Lemma collapsed_reads_back before after opening pre l bpost closing post :
  text_lines before = opening :: (pre ++ l :: bpost) ++ closing :: post ->
  text_lines after = (opening :: pre) ++ date_line (indent_of l) key v :: unmarked (drop_marks key (bool_decide (value_part l = "")) bpost) bpost ++ closing :: post ->
  is_rule opening = true -> is_rule closing = true -> block_members false (pre ++ l :: bpost) = Some true ->
  declares key l = true -> apart (fun l => block_item l = None) key (bool_decide (value_part l = "")) false bpost -> reads_back before after.
Proof.
  intros Hb Ha Ho Hc Hm Hd Hpost. destruct (indent_of_spec l) as [_ Hind].
  assert (Hd' : declares key (date_line (indent_of l) key v) = true) by by apply date_line_declares.
  apply (blocks_read_back _ _ opening (pre ++ l :: bpost)
    (pre ++ date_line (indent_of l) key v :: unmarked (drop_marks key (bool_decide (value_part l = "")) bpost) bpost) closing post);
    [done|rewrite Ha; simpl; by rewrite <-app_assoc|done..| |].
  - by apply (block_members_collapse pre l); [apply (declares_date_like key)..|].
  - apply rereads_collapse; [done..| |done]. by rewrite date_line_value.
Qed.

(** C21: setting a validity date and reading the memo again. For [valid_from] or [valid_until] and
    a value without line breaks that reads back as itself (trimmed and unquoted), whatever the line
    endings, the byte order marks and the shape of the block (the key declared, not declared,
    declared several times, or no block at all), the memo then reads the value, every other key
    as before, and the body it had. Where the key is declared several times, or over a sequence,
    the collapse onto the first line is under the condition [collapsible] on the line after each
    dropped run: without it the items below a later declaration pass to the key above
    ([collapse_adopts_items]). *)
Theorem set_frontmatter_scalar_roundtrip raw bom body t :
  split_bom raw = (bom, body) -> decode body = Ok t -> has_line_break v = false -> collapsible key t ->
  exists o t', set_frontmatter_scalar raw key (Some v) = Ok o /\ split_bom (default raw o) = (bom, encode t') /\
    reads_back (universal_newlines t) (universal_newlines t').
Proof.
  intros Hraw Ht Hb Hcol. assert (He := proj1 (decode_ok _ _) Ht).
  destruct (split_bom_app raw bom body Hraw) as [_ Hbom].
  unfold set_frontmatter_scalar. rewrite Hb, Hraw, Ht. cbn [mbind result_bind]. unfold frontmatter_span in *.
  destruct (span_of (text_lines (universal_newlines t))) as [s|] eqn:Hs.
  - assert (H := Hs). apply span_of_some in H as (opening & block & closing & post & Hls & -> & Ho & Hm & Hc).
    assert (Hkl := key_lines_block key opening block closing post). rewrite <-Hls in Hkl. rewrite Hkl.
    destruct (key_positions key 1 block) as [|i js] eqn:Hk.
    + destruct (insert_in_block raw bom body t key v Hraw He Hkey Hb _ Hs) as (new & -> & t' & -> & Ht').
      exists (Some (bom ++ encode t')), t'. split; [done|]. split; [by apply Hbom, split_bom_encode|].
      by eapply inserted_reads_back.
    + destruct (positions_cons _ _ _ _ _ Hk) as (pre & l & bpost & -> & -> & Hd & Hjs). rewrite Hjs in Hk.
      assert (Hform : text_lines (universal_newlines t) = (opening :: pre) ++ l :: bpost ++ closing :: post)
        by (rewrite Hls; simpl; by rewrite <-app_assoc).
      assert (Hl : text_lines (universal_newlines t) !! (1 + length pre) = Some l) by (rewrite Hform; simpl; by rewrite list_lookup_middle).
      rewrite Hl. cbn [default from_option id length]. case_bool_decide as Hsame.
      * destruct js; [|by destruct Hsame]. exists None, t. split; [done|]. split; [change (split_bom raw = (bom, encode t)); by rewrite Hraw, He|].
        apply (blocks_read_back _ _ opening (pre ++ l :: bpost) (pre ++ l :: bpost) closing post); [done..|].
        apply rereads_replace; [done..|apply Hsame|]. by eapply positions_nil.
      * assert (Hapart := collapsible_apart key t opening pre l bpost closing post Hkey Hcol Hls Hs Hk Hd).
        destruct (collapse_bytes raw bom body t key v Hraw He Hkey Hb (opening :: pre) l bpost closing post (dominant_newline body) Hform
          (date_like_not_nil _ (declares_date_like _ _ Hkey Hd)) (closing_not_nil _ Hc) Hd) as (t' & Hnew & Ht').
        { eapply apart_impl; [|exact Hapart]. by intros x [_ Hx]. }
        assert (Hdrop : dropped (text_lines (universal_newlines t)) (S (length (pre ++ l :: bpost))) (1 + length pre :: js) =
          dropped_from key (opening :: pre) false (l :: bpost) (closing :: post)).
        { unfold dropped_from. simpl app. rewrite Hform. f_equal; [rewrite length_app; simpl; lia|]. cbn [key_positions length]. by rewrite Hd, Hjs. }
        rewrite Hdrop. exists (Some (bom ++ encode t')), t'. split; [by rewrite <-Hnew|]. split; [by apply Hbom, split_bom_encode|].
        eapply collapsed_reads_back; [exact Hls|exact Ht'|done..|]. eapply apart_impl; [|exact Hapart]. by intros x [Hx _].
  - destruct (insert_new_block raw bom body t key v Hraw He Hkey Hb Hs) as (new & -> & t' & -> & Ht').
    exists (Some (bom ++ encode t')), t'. split; [done|]. split; [by apply Hbom, split_bom_encode|]. by apply new_block_reads_back.
Qed.
End roundtrip.

(** ** Runs *)

Definition demo_memo : bytes :=
  BOM ++ encode (join (unchars [CR; LF]) ["---"; "title: a memo"; "  valid_until : '2020-01-01'"; "supersedes:"; "- old.md";
    "valid_until:"; "  - never"; "valid_from: 2019-01-01"; "---"; ""; "body"]).

(** The memo is expired, and declares its date a second time with a sequence below; the date is
    moved, with its indent and its line ending, and the second declaration goes. *)
Lemma set_frontmatter_scalar_roundtrip_witness :
  exists o t', set_frontmatter_scalar demo_memo "valid_until" (Some "2031-05-01") = Ok o /\
    split_bom (default demo_memo o) = (BOM, encode t') /\
    odict_get "valid_until" (parse_frontmatter no_json (universal_newlines t')).1 = Some (VStr "2031-05-01") /\
    odict_get "supersedes" (parse_frontmatter no_json (universal_newlines t')).1 = Some (VStr "old.md").
Proof.
  set (t := unchars (drop 3 demo_memo)).
  assert (Hcol : collapsible "valid_until" t).
  { intros s i l Hs Hi Hl. vm_compute in Hs. injection Hs as <-.
    replace (key_lines _ _ _) with [2; 5] in Hi by (vm_compute; reflexivity).
    apply elem_of_cons in Hi as [->|Hi]; [left; split; vm_compute; reflexivity|]. apply list_elem_of_singleton in Hi as ->.
    vm_compute in Hl. injection Hl as <-. right. split; [vm_compute; reflexivity|done]. }
  destruct (set_frontmatter_scalar_roundtrip no_json "valid_until" "2031-05-01" ltac:(by right) ltac:(vm_compute; reflexivity)
    demo_memo BOM (drop 3 demo_memo) t ltac:(vm_compute; reflexivity) ltac:(vm_compute; reflexivity) ltac:(vm_compute; reflexivity) Hcol)
    as (o & t' & Hset & Hsplit & Hread & _).
  exists o, t'. split_and!; [exact Hset|exact Hsplit|by rewrite Hread|]. rewrite Hread. vm_compute. reflexivity.
Defined.

Definition commented_memo : bytes :=
  memo_bytes ["---"; "supersedes: old.md"; "# until the office moves"; "valid_until: 2020-01-01"; "---"; "body"].

Definition read_raw (raw : bytes) : metadata :=
  match decode (split_bom raw).2 with
  | Ok t => (parse_frontmatter no_json (universal_newlines t)).1
  | Raise _ => []
  end.

(** A repeated key is collapsed onto its first line, and what stood below another declaration of
    it passes to the key above: an item below the dropped line is adopted by the empty
    [supersedes:] before it, which then claims a memo it did not claim. So it does where an empty
    line kept them apart and the line above ends in a bare [CR]: that line break and the empty
    line's become one. *)
Theorem collapse_adopts_items :
  let adopted raw raw' :=
    odict_get SUPERSEDES (read_raw raw) = Some (VStr "") /\
    set_frontmatter_scalar raw "valid_until" (Some "2031-05-01") = Ok (Some raw') /\
    odict_get SUPERSEDES (read_raw raw') = Some (VStr "old.md") in
  adopted (memo_bytes ["---"; "valid_until: 2020-01-01"; "supersedes:"; "valid_until: 2021-01-01"; "- old.md"; "---"; "body"])
          (memo_bytes ["---"; "valid_until: 2031-05-01"; "supersedes:"; "- old.md"; "---"; "body"]) /\
  adopted (encode (unlines ["---"; "valid_until: 2020-01-01"; unchars (chars "supersedes:" ++ [CR] ++ chars "valid_until: 2021-01-01"); ""; "- old.md"; "---"; "body"]))
          (encode (unlines ["---"; "valid_until: 2031-05-01"; unchars (chars "supersedes:" ++ [CR]); "- old.md"; "---"; "body"])).
Proof. vm_compute. by split_and!. Qed.

(** Withdrawing a reference can take the whole block with it. A comment may stand in a block
    only after a key; when the withdrawn [supersedes] was the only key before one, what is left
    opens with the comment, is read as a thematic break, and the expiry date is read no more. *)
Theorem withdrawal_can_lose_the_block :
  odict_get "valid_until" (read_raw commented_memo) = Some (VStr "2020-01-01") /\
  exists after, remove_supersedes_target no_json commented_memo "old.md" = Ok (Some after) /\ read_raw after = [].
Proof.
  split; [vm_compute; reflexivity|].
  exists (memo_bytes ["---"; "# until the office moves"; "valid_until: 2020-01-01"; "---"; "body"]). split; vm_compute; reflexivity.
Qed.
