(* ===== verification/Types.v ===== *)
(** * Types: the records retrieval and trust pass around (src/recall/types.py) *)
From S2P Require Import Prelude Text Float64 Frontmatter.

(** [Chunk]. *)
Record Chunk := {
  c_id : string;
  c_source : string;
  c_text : string;
  c_metadata : metadata
}.

(** [DependencyCause]. *)
Inductive DependencyCause :=
| CauseSuperseded | CauseExpired | CauseNotYetValid | CauseNotYetKnown
| CauseInvalid | CauseAmbiguous | CauseUnresolved | CauseCycle.

#[export] Instance DependencyCause_eq_dec : EqDecision DependencyCause.
Proof. solve_decision. Defined.

Definition cause_name (c : DependencyCause) : string :=
  match c with
  | CauseSuperseded => "superseded"
  | CauseExpired => "expired"
  | CauseNotYetValid => "not_yet_valid"
  | CauseNotYetKnown => "not_yet_known"
  | CauseInvalid => "invalid"
  | CauseAmbiguous => "ambiguous"
  | CauseUnresolved => "unresolved"
  | CauseCycle => "cycle"
  end.

(** [InvalidationReason]. *)
Record InvalidationReason := {
  ir_dependency : string;
  ir_cause : DependencyCause;
  ir_path : list string;
  ir_authority : Authority;
  ir_generation : option string;
  ir_as_of : option datetime;
  ir_known_as_of : option datetime
}.

(** [bounded_path]. *)
Definition bounded_path (r : InvalidationReason) (limit : nat) : list string := take limit (ir_path r).

(** [Verdict]. *)
Inductive Verdict :=
| VerdictOk | Superseded | Expired | NotYetValid | NotYetKnown | LowConfidence
| InvalidMetadata | AmbiguousSupersession | Unverified | DependencyInvalidated | UnknownTerm.

#[export] Instance Verdict_eq_dec : EqDecision Verdict.
Proof. solve_decision. Defined.

(** [DecisionState]. *)
Inductive DecisionState := Supported | CorpusGap | NoSupportingEvidence.

#[export] Instance DecisionState_eq_dec : EqDecision DecisionState.
Proof. solve_decision. Defined.

Inductive score_kind := DenseCosine | Structural.

#[export] Instance score_kind_eq_dec : EqDecision score_kind.
Proof. solve_decision. Defined.

(** [ScoredChunk]. *)
Record ScoredChunk := {
  sc_chunk : Chunk;
  sc_score : float;
  sc_indexed_at : option datetime;
  sc_first_indexed_at : option datetime;
  sc_kind : score_kind
}.

(** [StalenessReport]; an age is in microseconds. *)
Record StalenessReport := {
  st_stale : bool;
  st_newest : option datetime;
  st_age : option Z;
  st_max_age : Z
}.

(** [RetrievalDiagnostics]. *)
Record RetrievalDiagnostics := {
  rd_embedding_profile : string;
  rd_retrieval_profile : string;
  rd_index_generation : string;
  rd_candidate_pool_size : Z;
  rd_reranking_ran : bool;
  rd_stage_ms : list (string * float);
  rd_max_dense_score : option float;
  rd_unknown_term_check : string;
  rd_unknown_terms : list string
}.

(** [RetrievalResult]. *)
Record RetrievalResult := {
  rr_query : string;
  rr_hits : list ScoredChunk;
  rr_gap_warning : bool;
  rr_staleness : StalenessReport;
  rr_diagnostics : RetrievalDiagnostics
}.

(** [Provenance]; [file] and [ord] are whatever the metadata holds. *)
Record Provenance := {
  pv_source : string;
  pv_file : value;
  pv_ord : value;
  pv_indexed_at : option datetime;
  pv_first_indexed_at : option datetime
}.

(** [Validity]; the bounds are instants. *)
Record Validity := {
  va_from : option Z;
  va_until : option Z;
  va_superseded_by : option string
}.

(** [TrustedHit]. *)
Record TrustedHit := {
  th_chunk : Chunk;
  th_cosine : float;
  th_confidence : float;
  th_verdict : Verdict;
  th_provenance : Provenance;
  th_validity : Validity;
  th_authority : Authority;
  th_dependencies : list string;
  th_invalidation : option InvalidationReason
}.

(** [replace(hit, verdict=v)]. *)
Definition with_verdict (h : TrustedHit) (v : Verdict) : TrustedHit :=
  {| th_chunk := th_chunk h; th_cosine := th_cosine h; th_confidence := th_confidence h;
     th_verdict := v; th_provenance := th_provenance h; th_validity := th_validity h;
     th_authority := th_authority h; th_dependencies := th_dependencies h;
     th_invalidation := th_invalidation h |}.
