(* ===== verification/Dependency.v ===== *)
(** * Dependency: authority and source dependency invalidation
    (src/recall/dependency_invalidation.py)

    One generation's chunks become a graph of documents and the documents they
    explicitly depend on.  A document is invalidated when something it rests on,
    however far, is stale, malformed, unresolved or circular.  The walk that decides
    it is bounded in depth and reuses the answers of healthy subgraphs. *)
From S2P Require Import Prelude Text Float64 Frontmatter SourceIdentity Types.

Definition AUTHORITY_VALUES : list Authority :=
  [Policy; UserConfirmedDecision; ToolObservation; ModelInference; UnknownAuthority].

Definition AUTHORITY_RANK (a : Authority) : Z :=
  match a with
  | Policy => 4 | UserConfirmedDecision => 3 | ToolObservation => 2
  | ModelInference => 1 | UnknownAuthority => 0
  end.

(** [INVALIDATING_STATES], each with the cause it becomes. *)
Definition invalidating_state (state : string) : option DependencyCause :=
  List.find (fun c => bool_decide (cause_name c = state))
    [CauseSuperseded; CauseExpired; CauseNotYetValid; CauseNotYetKnown; CauseAmbiguous; CauseInvalid].

Definition MAX_INVALIDATION_DEPTH : nat := 64.
Definition MAX_INVALIDATION_CHAIN : nat := 16.

(** [_utc]. *)
Definition utc (value : option datetime) : option datetime :=
  (fun d => Aware (instant d)) <$> value.

(** [source_file]. *)
Definition source_file (c : Chunk) : string :=
  match meta_get "file" (c_metadata c) with
  | VStr s => if decide (s = "") then c_source c else s
  | _ => c_source c
  end.

(** [dependency_key]. *)
Definition dependency_key (c : Chunk) (collided : gset string) : string :=
  let file := source_file c in
  if decide (file ∈ collided /\ file <> c_source c) then c_source c else file.

Record DependencyEdge := {
  de_id : string;
  de_tenant : string;
  de_generation : string;
  de_dependent : string;
  de_prerequisite : string;
  de_asserting_chunk : string;
  de_authority : Authority;
  de_asserted_at : option datetime
}.

Inductive diagnostic_kind :=
| MalformedMetadata | InconsistentAuthority | DuplicateDependency
| SelfDependency | UnresolvedDependency | DependencyCycle.

#[export] Instance diagnostic_kind_eq_dec : EqDecision diagnostic_kind.
Proof. solve_decision. Defined.

Definition diagnostic_name (k : diagnostic_kind) : string :=
  match k with
  | MalformedMetadata => "malformed_metadata"
  | InconsistentAuthority => "inconsistent_authority"
  | DuplicateDependency => "duplicate_dependency"
  | SelfDependency => "self_dependency"
  | UnresolvedDependency => "unresolved_dependency"
  | DependencyCycle => "dependency_cycle"
  end.

(** [DependencyDiagnostic], without its message. *)
Record DependencyDiagnostic := Diagnostic {
  dd_kind : diagnostic_kind;
  dd_source : string;
  dd_dependency : option string
}.

(** Why a reference names no single document. *)
Inductive unresolved_why := SeveralRoots | OnlyUpload | NoSource.

#[export] Instance unresolved_why_eq_dec : EqDecision unresolved_why.
Proof. solve_decision. Defined.

(** [sorted] on tuples of strings. *)
Fixpoint strings_leb (a b : list string) : bool :=
  match a, b with
  | [], _ => true
  | _ :: _, [] => false
  | x :: a', y :: b' => if decide (x = y) then strings_leb a' b' else String.leb x y
  end.

Definition key_le {A} (key : A -> list string) (a b : A) : Prop := strings_leb (key a) (key b) = true.

#[export] Instance key_le_dec {A} (key : A -> list string) : RelDecision (key_le key).
Proof. intros a b. unfold key_le. apply _. Defined.

Definition sort_on {A} (key : A -> list string) (l : list A) : list A := merge_sort (key_le key) l.

(** One document of the graph, as the loop over the chunks reads it. *)
Record document := Document {
  doc_authority : Authority;
  doc_dependencies : list string;
  doc_links : list (string * option string);
  doc_hard : option DependencyCause;
  doc_diagnostics : list DependencyDiagnostic;
  doc_edges : list DependencyEdge
}.

(** ** The graph

    The nodes with what each one's document declared: its links (a reference and
    the node it resolves to, None when it resolves to none), its authority and its
    hard failure. *)
Section graph.
Context (nodes : list string) (links : string -> list (string * option string)).
Context (authority : string -> Authority) (hard : string -> option DependencyCause).
Context (states : gmap string string) (generation_id : string).
Context (as_of known_as_of : option datetime).

(** [adjacency]. *)
Definition adjacency (node : string) : list string := sorted_strings (omap snd (links node)).

(** ** Cycles *)

Record cycle_state := Cycles { cycle_members : gset string; visited : gset string }.

Fixpoint drop_until (x : string) (l : list string) : list string :=
  match l with
  | [] => []
  | y :: l' => if decide (x = y) then l else drop_until x l'
  end.

(** [find_cycles]; [visiting] holds the stack, its bottom first. *)
Fixpoint find_cycles (fuel : nat) (visiting : list string) (st : cycle_state) (node : string) :
    option cycle_state :=
  match fuel with
  | O => None
  | S fuel' =>
      if decide (node ∈ visiting)
      then Some (Cycles (list_to_set (drop_until node visiting) ∪ cycle_members st) (visited st))
      else if decide (node ∈ visited st) then Some st
      else
        st' ← foldl (fun acc prerequisite =>
                       st ← acc;
                       if decide (prerequisite ∈ nodes)
                       then find_cycles fuel' (visiting ++ [node]) st prerequisite else Some st)
                (Some st) (adjacency node);
        Some (Cycles (cycle_members st') ({[ node ]} ∪ visited st'))
  end.

Definition all_cycles_opt : option cycle_state :=
  foldl (fun acc node => st ← acc; find_cycles (S (length nodes)) [] st node)
    (Some (Cycles ∅ ∅)) nodes.

Definition on_cycles : gset string := default ∅ (cycle_members <$> all_cycles_opt).

(** ** Invalidation *)

Definition reason (dependency : string) (cause : DependencyCause) (path : list string) : InvalidationReason :=
  {| ir_dependency := dependency; ir_cause := cause; ir_path := path;
     ir_authority := authority dependency; ir_generation := Some generation_id;
     ir_as_of := as_of; ir_known_as_of := known_as_of |}.

(** [root_reason]. *)
Definition root_reason (cycles : gset string) (node : string) : option InvalidationReason :=
  match hard node with
  | Some cause => Some (reason node cause [node])
  | None =>
      if decide (authority node = ModelInference) then None
      else if decide (node ∈ cycles) then Some (reason node CauseCycle [node])
      else (fun cause => reason node cause [node]) <$>
           invalidating_state (default "current" (states !! node))
  end.

(** A reason found below [node], told from it. *)
Definition told_from (node : string) (r : InvalidationReason) : InvalidationReason :=
  match ir_path r with
  | p :: _ => if decide (p = node) then r else
                {| ir_dependency := ir_dependency r; ir_cause := ir_cause r; ir_path := node :: ir_path r;
                   ir_authority := ir_authority r; ir_generation := ir_generation r;
                   ir_as_of := ir_as_of r; ir_known_as_of := ir_known_as_of r |}
  | [] => {| ir_dependency := ir_dependency r; ir_cause := ir_cause r; ir_path := [node];
             ir_authority := ir_authority r; ir_generation := ir_generation r;
             ir_as_of := ir_as_of r; ir_known_as_of := ir_known_as_of r |}
  end.

(** The loop over a document's links; [rec] walks a prerequisite. *)
Fixpoint walk_links
    (rec : string -> list string -> gset (string * nat) -> option InvalidationReason * gset (string * nat))
    (node : string) (path : list string) (rest : list (string * option string))
    (healthy : gset (string * nat)) : option InvalidationReason * gset (string * nat) :=
  match rest with
  | [] => (None, healthy)
  | (reference, None) :: _ =>
      (Some (reason reference CauseUnresolved (path ++ [reference])), healthy)
  | (_, Some prerequisite) :: rest' =>
      if decide (prerequisite ∈ path) then
        if decide (Forall (fun m => authority m = ModelInference) (drop_until prerequisite path))
        then walk_links rec node path rest' healthy
        else (Some (reason prerequisite CauseCycle (path ++ [prerequisite])), healthy)
      else
        match rec prerequisite (path ++ [prerequisite]) healthy with
        | (Some r, healthy') => (Some (told_from node r), healthy')
        | (None, healthy') => walk_links rec node path rest' healthy'
        end
  end.

(** [walk], its memo threaded through; [room] is what is left of the depth limit, so
    the depth is [MAX_INVALIDATION_DEPTH + 1 - room]. *)
Fixpoint walk (cycles : gset string) (room : nat) (node : string) (path : list string)
    (healthy : gset (string * nat)) : option InvalidationReason * gset (string * nat) :=
  if decide (cycles = ∅ /\ (node, room) ∈ healthy) then (None, healthy)
  else match room with
  | O => (Some (reason node CauseCycle (path ++ [node])), healthy)
  | S room' =>
      match root_reason cycles node with
      | Some direct => (Some direct, healthy)
      | None =>
          match walk_links (walk cycles room') node path (links node) healthy with
          | (Some r, healthy') => (Some r, healthy')
          | (None, healthy') => (None, if decide (cycles = ∅) then {[ (node, room) ]} ∪ healthy' else healthy')
          end
      end
  end.

(** The last loop: every node walked in order, one memo for all. *)
Definition invalidate_step (cycles : gset string)
    (acc : gmap string InvalidationReason * gset (string * nat)) (node : string) :
    gmap string InvalidationReason * gset (string * nat) :=
  let '(invalidations, healthy) := acc in
  let '(r, healthy') := walk cycles (S MAX_INVALIDATION_DEPTH) node [node] healthy in
  (match r with
   | Some r => <[ node := r ]> invalidations
   | None =>
       if decide (node ∈ cycles /\ authority node <> ModelInference)
       then <[ node := reason node CauseCycle [node] ]> invalidations else invalidations
   end, healthy').

Definition invalidations_of (cycles : gset string) : gmap string InvalidationReason :=
  (foldl (invalidate_step cycles) (∅, ∅) nodes).1.
End graph.

Section build.
Context `{UriReader}.
(** [canonical_sha256] of a JSON value, and [datetime.isoformat]. *)
Context (canonical_sha256 : value -> string) (isoformat : datetime -> string).
Context (tenant_id generation_id : string) (collided : gset string).
Context (chunks : list Chunk) (states : gmap string string).
Context (asserted_at_by_source : gmap string (option datetime)).
Context (as_of known_as_of : option datetime).

Definition optional_time (d : option datetime) : value :=
  match d with Some t => VStr (isoformat t) | None => VNone end.

Definition prefix24 (s : string) : string := unchars (take 24 (chars s)).

(** [_edge_id]. *)
Definition edge_id (dependent prerequisite asserting_chunk_id : string)
    (asserted_at : option datetime) : string :=
  "dep_" +:+ prefix24 (canonical_sha256 (VDict [
    ("schema_version", VInt 1); ("tenant_id", VStr tenant_id);
    ("generation_id", VStr generation_id); ("dependent", VStr dependent);
    ("prerequisite", VStr prerequisite); ("asserting_chunk_id", VStr asserting_chunk_id);
    ("asserted_at", optional_time asserted_at)])).

(** ** The nodes *)

Definition chunks_by_source : gmap string (list Chunk) :=
  group_by (fun c => dependency_key c collided) id chunks.

Definition known_sources : list string := sorted_strings (map_to_list chunks_by_source).*1.

Definition members (node : string) : list Chunk := default [] (chunks_by_source !! node).

Definition node_file (node : string) : string :=
  match members node with c :: _ => source_file c | [] => "" end.

Definition nodes_by_file (file : string) : list string :=
  filter (fun node => node_file node = file) known_sources.

(** Every root the node's copies sit under. *)
Definition node_roots (node : string) : list (option string) :=
  dedup (map (fun c => source_root (Some (c_source c)) (node_file node)) (members node)).

Definition node_staged (node : string) : bool :=
  forallb (fun c => in_upload_staging (c_source c) tenant_id) (members node).

Definition share_root (a b : string) : bool :=
  existsb (fun r => bool_decide (r ∈ node_roots b)) (node_roots a).

(** [resolve]. *)
Definition resolve (dependent reference : string) : string + unresolved_why :=
  let holders := nodes_by_file reference in
  match filter (fun node => share_root node dependent = true) holders with
  | [own] => inl own
  | _ =>
      match filter (fun node => node_staged node = false) holders with
      | [only] => inl only
      | _ :: _ => inr SeveralRoots
      | [] => if decide (holders = []) then inr NoSource else inr OnlyUpload
      end
  end.

(** ** Reading one document *)

Record reading := Reading {
  re_authorities : list Authority;
  re_dependencies : list string;
  re_malformed : nat;
  re_invalid : bool
}.

(** The body of the loop over one document's chunks. *)
Definition read_chunk (acc : reading) (c : Chunk) : reading :=
  let '(authority, acc) :=
    match authority_from_metadata (c_metadata c) with
    | Ok a => (a, Reading (a :: re_authorities acc) (re_dependencies acc) (re_malformed acc) (re_invalid acc))
    | Raise _ => (UnknownAuthority,
                  Reading (re_authorities acc) (re_dependencies acc) (S (re_malformed acc)) true)
    end in
  match dependencies_from_metadata (c_metadata c) with
  | Ok declared => Reading (re_authorities acc) (re_dependencies acc ++ declared) (re_malformed acc) (re_invalid acc)
  | Raise _ => Reading (re_authorities acc) (re_dependencies acc) (S (re_malformed acc))
                 (re_invalid acc || negb (bool_decide (authority = ModelInference)))
  end.

Definition read_document (node : string) : reading :=
  foldl read_chunk (Reading [] [] 0 false) (sort_on (fun c => [c_id c]) (members node)).

(** [sorted(source_authorities)[0]], by name. *)
Definition first_authority (l : list Authority) : Authority :=
  match sort_on (fun a => [authority_name a]) l with a :: _ => a | [] => UnknownAuthority end.

Definition asserting_chunk (node : string) : string :=
  match sort_on (fun c => [c_id c]) (members node) with c :: _ => c_id c | [] => "" end.

Definition asserted_at (node : string) : option datetime :=
  utc (default None (asserted_at_by_source !! node)).

(** The body of the loop over the documents. *)
Definition document_of (node : string) : document :=
  let r := read_document node in
  let inconsistent := bool_decide (1 < length (dedup (re_authorities r)))%nat in
  let unique := sorted_set (re_dependencies r) in
  let authority := first_authority (dedup (re_authorities r)) in
  let links := map (fun ref => (ref, match resolve node ref with inl n => Some n | inr _ => None end)) unique in
  let self := bool_decide (Some node ∈ links.*2) in
  {| doc_authority := authority;
     doc_dependencies := unique;
     doc_links := links;
     doc_hard := if self then Some CauseCycle
                 else if inconsistent then Some CauseAmbiguous
                 else if re_invalid r then Some CauseInvalid else None;
     doc_diagnostics :=
       repeat (Diagnostic MalformedMetadata node None) (re_malformed r) ++
       (if inconsistent then [Diagnostic InconsistentAuthority node None] else []) ++
       (if decide (length (re_dependencies r) = length unique) then []
        else [Diagnostic DuplicateDependency node None]) ++
       (links ≫= fun link =>
          match link.2 with
          | Some n => if decide (n = node) then [Diagnostic SelfDependency node (Some link.1)] else []
          | None => [Diagnostic UnresolvedDependency node (Some link.1)]
          end);
     doc_edges :=
       omap (fun link : string * option string =>
          match link.2 with
          | Some n =>
              if decide (n = node) then None
              else Some {| de_id := edge_id node n (asserting_chunk node) (asserted_at node);
                           de_tenant := tenant_id; de_generation := generation_id;
                           de_dependent := node; de_prerequisite := n;
                           de_asserting_chunk := asserting_chunk node;
                           de_authority := authority; de_asserted_at := asserted_at node |}
          | None => None
          end) links |}.

Definition documents : list (string * document) := map (fun n => (n, document_of n)) known_sources.

Definition edges : list DependencyEdge := documents ≫= fun nd => doc_edges nd.2.

(** ** The projection *)

Definition links_of (node : string) : list (string * option string) :=
  default [] (doc_links <$> odict_get node documents).
Definition authority_of (node : string) : Authority :=
  default UnknownAuthority (doc_authority <$> odict_get node documents).
Definition hard_of (node : string) : option DependencyCause :=
  odict_get node documents ≫= doc_hard.

(** [cycle_members], as [find_cycles] leaves them. *)
Definition cycles : gset string := on_cycles known_sources links_of.

(** [invalidations]. *)
Definition invalidations : gmap string InvalidationReason :=
  invalidations_of known_sources links_of authority_of hard_of states generation_id
    (utc as_of) (utc known_as_of) cycles.

Definition diagnostics : list DependencyDiagnostic :=
  (documents ≫= fun nd => doc_diagnostics nd.2) ++
  map (fun n => Diagnostic DependencyCycle n None) (sorted_strings (elements cycles)).

(** [reverse]: who depends on each prerequisite, in the order of the edges. *)
Definition reverse_edges : list (string * list string) :=
  foldl (fun acc e => odict_push (de_prerequisite e) (de_dependent e) acc) [] edges.

Definition strings_value (l : list string) : value := VList (map VStr l).

Definition reason_value (r : InvalidationReason) : value :=
  VDict [("dependency", VStr (ir_dependency r)); ("cause", VStr (cause_name (ir_cause r)));
         ("path", strings_value (ir_path r)); ("authority", VStr (authority_name (ir_authority r)));
         ("generation", match ir_generation r with Some g => VStr g | None => VNone end);
         ("as_of", optional_time (ir_as_of r)); ("known_as_of", optional_time (ir_known_as_of r))].

Definition diagnostic_value (d : DependencyDiagnostic) : value :=
  VDict [("kind", VStr (diagnostic_name (dd_kind d))); ("source", VStr (dd_source d));
         ("dependency", match dd_dependency d with Some s => VStr s | None => VNone end)].

Definition by_name {A} (l : list (string * A)) : list (string * A) := sort_on (fun kv => [kv.1]) l.

(** The payload the projection is identified by. *)
Definition projection_payload (schema_version : Z) (corpus_fingerprint : option string) : value :=
  VDict [("schema_version", VInt schema_version); ("tenant_id", VStr tenant_id);
         ("generation_id", VStr generation_id); ("as_of", optional_time (utc as_of));
         ("known_as_of", optional_time (utc known_as_of));
         ("corpus_fingerprint", match corpus_fingerprint with Some s => VStr s | None => VNone end);
         ("authorities", VDict (map (fun nd => (nd.1, VStr (authority_name (doc_authority nd.2)))) documents));
         ("dependencies", VDict (map (fun nd => (nd.1, strings_value (doc_dependencies nd.2))) documents));
         ("edges", strings_value (map de_id edges));
         ("reverse", VDict (by_name (map (fun kv => (kv.1, strings_value (sorted_strings kv.2))) reverse_edges)));
         ("invalidations", VDict (omap (fun n => (fun r => (n, reason_value r)) <$> invalidations !! n) known_sources));
         ("diagnostics", VList (map diagnostic_value diagnostics))].

Record DependencyProjection := {
  dp_schema_version : Z;
  dp_projection_id : string;
  dp_tenant : string;
  dp_generation : string;
  dp_authorities : list (string * Authority);
  dp_dependencies : list (string * list string);
  dp_edges : list DependencyEdge;
  dp_invalidations : gmap string InvalidationReason;
  dp_reverse : list (string * list string);
  dp_diagnostics : list DependencyDiagnostic;
  dp_max_depth : nat;
  dp_as_of : option datetime;
  dp_known_as_of : option datetime;
  dp_corpus_fingerprint : option string;
  dp_collided : gset string
}.

(** [build_dependency_projection], the sorting of [__post_init__] included. *)
Definition build_dependency_projection (schema_version : Z) (corpus_fingerprint : option string) :
    DependencyProjection :=
  {| dp_schema_version := schema_version;
     dp_projection_id := "dip_" +:+ prefix24 (canonical_sha256 (projection_payload schema_version corpus_fingerprint));
     dp_tenant := tenant_id;
     dp_generation := generation_id;
     dp_authorities := by_name (map (fun nd => (nd.1, doc_authority nd.2)) documents);
     dp_dependencies := by_name (map (fun nd => (nd.1, doc_dependencies nd.2)) documents);
     dp_edges := sort_on (fun e => [de_id e]) edges;
     dp_invalidations := invalidations;
     dp_reverse := by_name (map (fun kv => (kv.1, sorted_strings kv.2)) reverse_edges);
     dp_diagnostics := sort_on (fun d => [dd_source d; diagnostic_name (dd_kind d); default "" (dd_dependency d)]) diagnostics;
     dp_max_depth := MAX_INVALIDATION_DEPTH;
     dp_as_of := utc as_of;
     dp_known_as_of := utc known_as_of;
     dp_corpus_fingerprint := corpus_fingerprint;
     dp_collided := collided |}.
End build.

(** [DependencyProjection.reason_for] and [key_for]. *)
Definition reason_for (p : DependencyProjection) (source : string) : option InvalidationReason :=
  dp_invalidations p !! source.
Definition key_for (p : DependencyProjection) (c : Chunk) : string := dependency_key c (dp_collided p).
