(* ===== verification/DependencyFacts.v ===== *)
(** * DependencyFacts: what invalidation decides
    (src/recall/dependency_invalidation.py)

    The cycle search, the walk without its memo, their agreement, and the meaning
    of an invalidation. *)
From S2P Require Import Prelude Text Float64 Frontmatter SourceIdentity Types Dependency.

(** ** Paths *)

Lemma last_default_cons {A} (x y : A) p : default x (last (y :: p)) = default y (last p).
Proof.
  destruct p as [|z p]; [done|].
  change (last (y :: z :: p)) with (last (z :: p)).
  destruct (last (z :: p)) eqn:E; [done|]. by apply last_None in E.
Qed.

Lemma last_default_app {A} (x : A) p q : default x (last (p ++ q)) = default (default x (last p)) (last q).
Proof. revert x; induction p as [|y p IH]; intros x; [done|]. rewrite <-app_comm_cons, !last_default_cons. apply IH. Qed.

Section paths.
Context (R : string -> string -> Prop).

(** [path] leads from [x], step by step. *)
Fixpoint chain (x : string) (path : list string) : Prop :=
  match path with
  | [] => True
  | y :: rest => R x y /\ chain y rest
  end.

Lemma chain_app x p q : chain x (p ++ q) <-> chain x p /\ chain (default x (last p)) q.
Proof.
  revert x; induction p as [|y p IH]; intros x; [simpl; tauto|].
  rewrite last_default_cons. simpl. rewrite IH. tauto.
Qed.

Lemma chain_rtc x p : chain x p -> rtc R x (default x (last p)).
Proof.
  revert x; induction p as [|y p IH]; intros x; [done|]. intros [HR Hc].
  rewrite last_default_cons. apply rtc_l with y; [done|]. auto.
Qed.

(** A path can be made simple. *)
Lemma simple_path x y :
  rtc R x y -> exists p, chain x p /\ default x (last p) = y /\ NoDup (x :: p).
Proof.
  induction 1 as [x|x w y HR _ (p & Hc & Hl & Hnd)].
  - exists []. split_and!; [done|done|apply NoDup_singleton].
  - destruct (decide (x ∈ w :: p)) as [Hin|Hin].
    + apply list_elem_of_split in Hin as (l1 & l2 & He). exists l2.
      assert (Hc2 : chain x l2 /\ default x (last l2) = y).
      { destruct l1 as [|z l1]; simplify_eq/=; [done|].
        apply chain_app in Hc as [_ Hc]. simpl in Hc. split; [tauto|].
        by rewrite last_default_app, last_default_cons in *. }
      split_and!; [tauto..|]. rewrite He in Hnd. by apply NoDup_app in Hnd as (_ & _ & ?).
    + exists (w :: p). split_and!; [done|by rewrite last_default_cons|by constructor].
Qed.
End paths.

(** ** The cycle search *)

Section cycles.
Context (nodes : list string) (links : string -> list (string * option string)).

(** [x] depends on [y]. *)
Definition prereq (x y : string) : Prop := exists ref, (ref, Some y) ∈ links x.

(** [y] leads to [x] among the known nodes. *)
Definition needed_by (y x : string) : Prop := prereq x y /\ y ∈ nodes.

Lemma elem_of_adjacency x y : y ∈ adjacency links x <-> prereq x y.
Proof.
  unfold adjacency, prereq. rewrite elem_of_sorted_strings, list_elem_of_omap.
  split; [intros ([r o] & Hin & Ho); simpl in Ho; subst; eauto|intros (r & Hin); by exists (r, Some y)].
Qed.

Lemma elem_of_drop_until x y l : x ∈ drop_until y l -> x ∈ l.
Proof.
  induction l as [|z l IH]; simpl; [done|]. case_decide; [done|].
  intros ?. right. auto.
Qed.

Lemma drop_until_app x a b : x ∈ a -> drop_until x (a ++ b) = drop_until x a ++ b.
Proof.
  induction a as [|z a IH]; [by intros ?%not_elem_of_nil|]. simpl. intros Hx. case_decide; [done|].
  apply IH. by apply elem_of_cons in Hx as [->|?].
Qed.

Lemma drop_until_last x a (d : string) : x ∈ a -> default d (last (drop_until x a)) = default d (last a).
Proof.
  induction a as [|z a IH]; [by intros ?%not_elem_of_nil|]. simpl drop_until. intros Hx. case_decide; [done|].
  apply elem_of_cons in Hx as [->|Hx]; [done|]. rewrite IH by done.
  destruct a; [by apply not_elem_of_nil in Hx|done].
Qed.

Lemma drop_until_split x l : x ∈ l -> exists l1 l2, l = l1 ++ x :: l2 /\ drop_until x l = x :: l2.
Proof.
  induction l as [|z l IH]; [by intros ?%not_elem_of_nil|]. simpl. intros Hx. case_decide as Hz; subst.
  - by exists [], l.
  - apply elem_of_cons in Hx as [->|Hx]; [done|]. destruct (IH Hx) as (l1 & l2 & -> & ->).
    by exists (z :: l1), l2.
Qed.

(** What the search establishes: when it has recorded no cycle, everything it has
    visited is well founded, so on no cycle; and whatever it records is on one. *)
Record searched (st st' : cycle_state) : Prop := {
  se_members : cycle_members st ⊆ cycle_members st';
  se_visited : visited st ⊆ visited st';
  se_acc : cycle_members st' = ∅ -> (forall v, v ∈ visited st -> Acc needed_by v) ->
           forall v, v ∈ visited st' -> Acc needed_by v;
  se_cycle : (forall m, m ∈ cycle_members st -> tc prereq m m) ->
             forall m, m ∈ cycle_members st' -> tc prereq m m
}.

Lemma searched_refl st : searched st st.
Proof. split; auto. Qed.

Lemma searched_trans a b c : searched a b -> searched b c -> searched a c.
Proof.
  intros [H1 H2 H3 H4] [H5 H6 H7 H8]. split.
  - set_solver.
  - set_solver.
  - intros He Ha. apply H7; [done|]. apply H3; [|done]. rewrite He in H5. set_solver.
  - auto.
Qed.

(** [visiting] is a path to [node]. *)
Definition path_to (visiting : list string) (node : string) : Prop :=
  match visiting with
  | [] => True
  | x :: rest => chain prereq x (rest ++ [node])
  end.

Lemma path_to_snoc visiting node y : path_to visiting node -> prereq node y -> path_to (visiting ++ [node]) y.
Proof.
  destruct visiting as [|x rest]; simpl; [tauto|]. intros Hc Hy.
  apply chain_app. split; [done|]. rewrite last_default_app. simpl. tauto.
Qed.

Lemma path_to_cycle visiting node m :
  path_to visiting node -> node ∈ visiting -> m ∈ drop_until node visiting -> tc prereq m m.
Proof.
  intros Hp Hn Hm. apply drop_until_split in Hn as (l1 & l2 & -> & Hd). rewrite Hd in Hm.
  assert (Hc : chain prereq node (l2 ++ [node])).
  { destruct l1 as [|x l1]; simpl in Hp; [done|].
    rewrite <-(assoc_L (++)) in Hp. apply chain_app in Hp as [_ Hp]. simpl in Hp. tauto. }
  clear Hp Hd. apply elem_of_cons in Hm as [->|Hm].
  - apply chain_app in Hc as [Hc Hl]. simpl in Hl. destruct Hl as [Hl _].
    eapply tc_rtc_l; [by apply chain_rtc|]. by apply tc_once.
  - apply list_elem_of_split in Hm as (a & b & ->).
    rewrite <-(assoc_L (++)), <-app_comm_cons in Hc. apply chain_app in Hc as [Ha [Hm Hb]].
    assert (H1 : tc prereq node m).
    { eapply tc_rtc_l; [by apply chain_rtc|]. by apply tc_once. }
    assert (H2 : rtc prereq m node).
    { apply chain_rtc in Hb. by rewrite last_snoc in Hb. }
    eapply tc_rtc_l; done.
Qed.

Lemma find_cycles_spec fuel visiting st node st' :
  find_cycles nodes links fuel visiting st node = Some st' -> path_to visiting node ->
  searched st st' /\ (cycle_members st' = ∅ -> node ∈ visited st').
Proof.
  revert visiting st node st'; induction fuel as [|fuel IH]; intros visiting st node st'; cbn [find_cycles]; [done|].
  intros Hf Hp. case_decide as Hv; [|case_decide as Hs]; simplify_eq.
  - split.
    + split; simpl; [set_solver|done|auto|]. intros Hm m [Hin|Hin]%elem_of_union; [|auto].
      apply elem_of_list_to_set in Hin. by eapply path_to_cycle.
    + simpl. intros He. exfalso. assert (Hin : node ∈ (list_to_set (drop_until node visiting) ∪ cycle_members st : gset string)).
      { apply elem_of_union_l, elem_of_list_to_set. destruct (drop_until_split _ _ Hv) as (? & ? & _ & ->). by left. }
      rewrite He in Hin. by apply not_elem_of_empty in Hin.
  - split; [apply searched_refl|done].
  - apply bind_Some in Hf as (st1 & Hf & [= <-]).
    assert (Hloop : searched st st1 /\ (cycle_members st1 = ∅ ->
              forall y, y ∈ adjacency links node -> y ∈ nodes -> y ∈ visited st1)).
    { revert Hf. apply (foldl_option_inv _ (fun pre b => searched st b /\ (cycle_members b = ∅ ->
              forall y, y ∈ pre -> y ∈ nodes -> y ∈ visited b))).
      - split; [apply searched_refl|]. by intros _ y ?%not_elem_of_nil.
      - intros pre y b b' [Hsb Hpre] Hy%elem_of_adjacency Hb.
        assert (Hbb : searched b b' /\ (cycle_members b' = ∅ -> y ∈ nodes -> y ∈ visited b')).
        { case_decide as Hyn; [|by simplify_eq; split; [apply searched_refl|]].
          destruct (IH _ _ _ _ Hb) as [? ?]; [by apply path_to_snoc|]. split; auto. }
        destruct Hbb as [Hbb Hv']. split; [by eapply searched_trans|].
        intros He z [Hz| ->%list_elem_of_singleton]%elem_of_app Hzn; [|auto].
        apply (se_visited _ _ Hbb). apply Hpre; [|done|done].
        pose proof (se_members _ _ Hbb). set_solver. }
    destruct Hloop as [[H1 H2 H3 H4] Hadj]. split; [split|]; simpl.
    + done.
    + set_solver.
    + intros He Ha v [->%elem_of_singleton|Hv']%elem_of_union; [|auto].
      constructor. intros y [Hy Hyn]. apply H3; [done|done|]. apply Hadj; [done| |done].
      by apply elem_of_adjacency.
    + done.
    + set_solver.
Qed.

(** The recursion stays within its fuel: the stack never holds a node twice. *)
Lemma find_cycles_total fuel visiting st node :
  NoDup visiting -> (forall x, x ∈ visiting -> x ∈ nodes) -> node ∈ nodes ->
  (length nodes < fuel + length visiting)%nat -> is_Some (find_cycles nodes links fuel visiting st node).
Proof.
  revert visiting st node; induction fuel as [|fuel IH]; intros visiting st node Hnd Hsub Hn Hf.
  - assert (Hle : (length visiting <= length nodes)%nat).
    { apply submseteq_length, NoDup_submseteq; auto. }
    lia.
  - cbn [find_cycles]. case_decide as Hv; [by eexists|]. case_decide; [by eexists|].
    match goal with |- is_Some (mbind _ ?m) => assert (Hm : is_Some m); [|by destruct Hm as [? ->]; eexists] end.
    apply foldl_option_total. intros y b _. case_decide as Hy; [|by eexists].
    apply IH; [| |done|].
    + apply NoDup_app. split_and!; [done| |apply NoDup_singleton].
      by intros x Hx ->%list_elem_of_singleton.
    + intros x [?| ->%list_elem_of_singleton]%elem_of_app; auto.
    + rewrite length_app. simpl. lia.
Qed.

Lemma all_cycles_spec :
  exists st, all_cycles_opt nodes links = Some st /\ searched (Cycles ∅ ∅) st /\
    (cycle_members st = ∅ -> forall n, n ∈ nodes -> n ∈ visited st).
Proof.
  assert (Htot : is_Some (all_cycles_opt nodes links)).
  { unfold all_cycles_opt. apply foldl_option_total. intros n b Hn.
    apply find_cycles_total; [constructor|by intros x ?%not_elem_of_nil|done|simpl; lia]. }
  destruct Htot as [st Hst]. exists st. split; [done|]. revert Hst. unfold all_cycles_opt.
  apply (foldl_option_inv _ (fun pre b => searched (Cycles ∅ ∅) b /\
           (cycle_members b = ∅ -> forall n, n ∈ pre -> n ∈ visited b))).
  - split; [apply searched_refl|]. by intros _ n ?%not_elem_of_nil.
  - intros pre n b b' [Hs Hpre] Hn Hb. apply find_cycles_spec in Hb as [Hbb Hv]; [|done].
    split; [by eapply searched_trans|].
    intros He m [Hm| ->%list_elem_of_singleton]%elem_of_app; [|auto].
    apply (se_visited _ _ Hbb), Hpre; [|done]. pose proof (se_members _ _ Hbb). set_solver.
Qed.

Context (Hclosed : forall x y, prereq x y -> y ∈ nodes).

Lemma acc_no_cycle x : Acc needed_by x -> ~ tc prereq x x.
Proof.
  induction 1 as [x _ IH]. intros Hx.
  assert (Hstep : exists y, prereq x y /\ tc prereq y y).
  { inversion Hx as [? ? Hxx|? y ? Hxy Hyx]; subst; [by exists x; split; [|apply tc_once]|].
    exists y. split; [done|]. by eapply tc_r. }
  destruct Hstep as (y & Hxy & Hyy). apply (IH y); [|done]. split; [done|by eapply Hclosed].
Qed.

(** The search records a node only if it is on a cycle, and records one whenever
    some known node is. *)
Lemma on_cycles_spec :
  (forall m, m ∈ on_cycles nodes links -> tc prereq m m) /\
  (on_cycles nodes links = ∅ -> forall x, x ∈ nodes -> ~ tc prereq x x).
Proof.
  unfold on_cycles. destruct all_cycles_spec as (st & -> & [_ _ Hacc Hcyc] & Hall). simpl. split.
  - apply Hcyc. by intros m ?%not_elem_of_empty.
  - intros He x Hx. apply acc_no_cycle. apply Hacc; [done| |auto]. by intros v ?%not_elem_of_empty.
Qed.
End cycles.

(** ** The walk without its memo *)

Section walks.
Context (nodes : list string) (links : string -> list (string * option string)).
Context (authority : string -> Authority) (hard : string -> option DependencyCause).
Context (states : gmap string string) (generation_id : string).
Context (as_of known_as_of : option datetime) (cycles : gset string).

Abbreviation reason := (reason authority generation_id as_of known_as_of).
Abbreviation root_reason := (root_reason authority hard states generation_id as_of known_as_of).
Abbreviation walk := (walk links authority hard states generation_id as_of known_as_of).
Abbreviation walk_links := (walk_links authority generation_id as_of known_as_of).

Fixpoint plain_links (rec : string -> list string -> option InvalidationReason)
    (node : string) (path : list string) (rest : list (string * option string)) :
    option InvalidationReason :=
  match rest with
  | [] => None
  | (reference, None) :: _ => Some (reason reference CauseUnresolved (path ++ [reference]))
  | (_, Some y) :: rest' =>
      if decide (y ∈ path) then
        if decide (Forall (fun m => authority m = ModelInference) (drop_until y path))
        then plain_links rec node path rest'
        else Some (reason y CauseCycle (path ++ [y]))
      else
        match rec y (path ++ [y]) with
        | Some r => Some (told_from node r)
        | None => plain_links rec node path rest'
        end
  end.

Fixpoint walk_plain (room : nat) (node : string) (path : list string) : option InvalidationReason :=
  match room with
  | O => Some (reason node CauseCycle (path ++ [node]))
  | S room' =>
      match root_reason cycles node with
      | Some direct => Some direct
      | None => plain_links (walk_plain room') node path (links node)
      end
  end.

(** A path the walk can be on: it leads, along links, to [node]. *)
Definition on_path (path : list string) (node : string) : Prop :=
  match path with
  | [] => False
  | x :: rest => chain (prereq links) x rest /\ default x (last rest) = node
  end.

Lemma on_path_snoc path node y : on_path path node -> prereq links node y -> on_path (path ++ [y]) y.
Proof.
  destruct path as [|x rest]; simpl; [done|]. intros [Hc <-] Hy. split.
  - apply chain_app. split; [done|]. simpl. tauto.
  - by rewrite last_snoc.
Qed.

Lemma on_path_fresh path node y :
  ~ tc (prereq links) y y -> on_path path node -> prereq links node y -> y ∉ path.
Proof.
  intros Hac Hp Hy Hin. apply Hac. apply (path_to_cycle links path y y); [|done|].
  - destruct path as [|x rest]; [done|]. destruct Hp as [Hc Hl]. simpl.
    apply chain_app. split; [done|]. rewrite Hl. simpl. tauto.
  - destruct (drop_until_split _ _ Hin) as (? & ? & _ & ->). by left.
Qed.

Context (Hacyclic : cycles = ∅ -> forall x, ~ tc (prereq links) x x).

(** Without cycles, whether a node is healthy does not depend on the path to it. *)
Lemma plain_path_irrelevant room node p p' :
  cycles = ∅ -> on_path p node -> on_path p' node ->
  walk_plain room node p = None -> walk_plain room node p' = None.
Proof.
  intros He. revert node p p'; induction room as [|room IH]; intros node p p' Hp Hp'; simpl; [done|].
  destruct (root_reason cycles node); [done|].
  assert (Hsub : forall rest, (forall l, l ∈ rest -> l ∈ links node) ->
    plain_links (walk_plain room) node p rest = None -> plain_links (walk_plain room) node p' rest = None).
  { induction rest as [|[ref [y|]] rest IHr]; intros Hin; simpl; [done| |done].
    assert (Hy : prereq links node y) by (exists ref; apply Hin; by left).
    rewrite !decide_False by (eapply on_path_fresh; eauto).
    destruct (walk_plain room y (p ++ [y])) eqn:Hw; [done|].
    rewrite (IH y (p ++ [y]) (p' ++ [y])); [|by apply on_path_snoc with node..|done].
    apply IHr. intros l Hl. apply Hin. by right. }
  by apply Hsub.
Qed.

Definition memo_sound (healthy : gset (string * nat)) : Prop :=
  cycles = ∅ -> forall s r p, (s, r) ∈ healthy -> on_path p s -> walk_plain r s p = None.

(** The memo never changes an answer. *)
Lemma walk_agrees room node path healthy r healthy' :
  memo_sound healthy -> on_path path node ->
  walk cycles room node path healthy = (r, healthy') ->
  r = walk_plain room node path /\ memo_sound healthy'.
Proof.
  revert node path healthy r healthy'; induction room as [|room IH]; intros node path healthy r healthy' Hm Hp;
    cbn [Dependency.walk walk_plain]; case_decide as Hmem.
  - destruct Hmem as [He Hin]. apply (Hm He node 0%nat path) in Hin; [|done]. done.
  - by intros [= <- <-].
  - destruct Hmem as [He Hin]. apply (Hm He node (S room) path) in Hin as Hn; [|done].
    intros [= <- <-]. by rewrite <-Hn.
  - destruct (root_reason cycles node) as [d|] eqn:Hroot; [by intros [= <- <-]|].
    assert (Hloop : forall rest healthy r healthy', (forall l, l ∈ rest -> l ∈ links node) -> memo_sound healthy ->
      walk_links (walk cycles room) node path rest healthy = (r, healthy') ->
      r = plain_links (walk_plain room) node path rest /\ memo_sound healthy').
    { induction rest as [|[ref [y|]] rest IHr]; intros h r0 h' Hin Hmh; simpl; [by intros [= <- <-]| |by intros [= <- <-]].
      assert (Hin' : forall l, l ∈ rest -> l ∈ links node) by (intros l Hl; apply Hin; by right).
      assert (Hy : prereq links node y) by (exists ref; apply Hin; by left).
      case_decide; [case_decide; [by apply IHr|by intros [= <- <-]]|].
      destruct (walk cycles room y (path ++ [y]) h) as [ry hy] eqn:Hw.
      apply IH in Hw as [-> Hmy]; [|done|by apply on_path_snoc with node].
      destruct (walk_plain room y (path ++ [y])); [by intros [= <- <-]|]. by apply IHr. }
    destruct (walk_links _ _ _ _ _) as [rl hl] eqn:Hl.
    apply Hloop in Hl as [-> Hml]; [|done|done].
    destruct (plain_links _ _ _ _) eqn:Hpl; intros [= <- <-]; [done|]. split; [done|].
    case_decide as He; [|done]. intros _ s r p [[= -> ->]%elem_of_singleton|Hin]%elem_of_union Hps; [|by apply Hml].
    apply (plain_path_irrelevant (S room) node path p); [done..|]. simpl. by rewrite Hroot.
Qed.

(** The invalidations are the answers of the plain walk from each node. *)
Lemma invalidations_plain node :
  NoDup nodes ->
  invalidations_of nodes links authority hard states generation_id as_of known_as_of cycles !! node =
  if decide (node ∈ nodes) then walk_plain (S MAX_INVALIDATION_DEPTH) node [node] else None.
Proof.
  intros Hnd. unfold invalidations_of.
  set (step := invalidate_step links authority hard states generation_id as_of known_as_of cycles).
  assert (Hgen : forall rest pre acc, NoDup (pre ++ rest) -> memo_sound acc.2 ->
    (forall n, acc.1 !! n = if decide (n ∈ pre) then walk_plain (S MAX_INVALIDATION_DEPTH) n [n] else None) ->
    forall n, (foldl step acc rest).1 !! n =
      if decide (n ∈ pre ++ rest) then walk_plain (S MAX_INVALIDATION_DEPTH) n [n] else None).
  { induction rest as [|x rest IH]; intros pre [inv h] Hndp Hm Hinv n; cbn [foldl].
    - rewrite app_nil_r. apply Hinv.
    - rewrite cons_middle, (assoc_L (++)) in *. apply IH; [done|..]; unfold step, invalidate_step;
        destruct (walk cycles (S MAX_INVALIDATION_DEPTH) x [x] h) as [r h'] eqn:Hw;
        (apply walk_agrees in Hw as [-> Hm']; [|done|done]); [done|].
      intros m. cbn [fst snd] in *. apply NoDup_app in Hndp as (Hndp & _). apply NoDup_app in Hndp as (_ & Hdis & _).
      destruct (decide (m = x)) as [->|Hmx].
      + rewrite (decide_True (P := x ∈ pre ++ [x])) by (apply elem_of_app; right; by left).
        destruct (walk_plain _ x [x]) as [r|] eqn:Hwx; [by rewrite lookup_insert_eq|].
        rewrite decide_False.
        * rewrite Hinv, decide_False; [done|]. intros Hx. apply (Hdis x Hx). by left.
        * intros [Hc Ha]. simpl in Hwx. unfold Dependency.root_reason in Hwx.
          destruct (hard x); [done|]. by rewrite decide_False, decide_True in Hwx.
      + rewrite (decide_ext (m ∈ pre ++ [x]) (m ∈ pre)) by (rewrite elem_of_app, list_elem_of_singleton; tauto).
        rewrite <-Hinv. destruct (walk_plain _ x [x]); [by rewrite lookup_insert_ne|].
        case_decide; [by rewrite lookup_insert_ne|done]. }
  apply (Hgen nodes [] (∅, ∅)); [done| |].
  - intros _ s r p Hin. by apply not_elem_of_empty in Hin.
  - intros n. rewrite decide_False by by apply not_elem_of_nil. apply lookup_empty.
Qed.

(** *** What a walk that finds nothing says *)

Lemma plain_links_none rec node path rest :
  plain_links rec node path rest = None <->
  (forall ref, (ref, None) ∉ rest) /\
  (forall ref y, (ref, Some y) ∈ rest ->
     if decide (y ∈ path) then Forall (fun m => authority m = ModelInference) (drop_until y path)
     else rec y (path ++ [y]) = None).
Proof.
  induction rest as [|[ref [y|]] rest IH]; simpl.
  - split; [|done]. intros _. split; [intros ref|intros ref y]; by intros ?%not_elem_of_nil.
  - assert (Hsplit : forall P : string -> Prop,
      (forall ref0 z, (ref0, Some z) ∈ (ref, Some y) :: rest -> P z) <->
      P y /\ (forall ref0 z, (ref0, Some z) ∈ rest -> P z)).
    { intros P. split.
      - intros HP. split; [apply (HP ref); by left|]. intros r z Hz. apply (HP r). by right.
      - intros [Hy HP] r z [[= -> ->]|Hz]%elem_of_cons; [done|by eapply HP]. }
    rewrite Hsplit. clear Hsplit.
    assert (Hnone : (forall r, (r, None) ∉ (ref, Some y) :: rest) <-> (forall r, (r, None) ∉ rest)).
    { split; intros Hn r Hr; apply (Hn r); [by right|]. by apply elem_of_cons in Hr as [?|?]. }
    rewrite Hnone. case_decide as Hy.
    + case_decide as Hm; [rewrite IH; tauto|]. split; [done|]. tauto.
    + destruct (rec y (path ++ [y])) as [r|]; [|rewrite IH; tauto]. split; [done|]. by intros (_ & ? & _).
  - split; [done|]. intros [Hn _]. destruct (Hn ref). by left.
Qed.

Lemma walk_plain_none room node path :
  walk_plain (S room) node path = None <->
  root_reason cycles node = None /\ (forall ref, (ref, None) ∉ links node) /\
  (forall y, prereq links node y ->
     if decide (y ∈ path) then Forall (fun m => authority m = ModelInference) (drop_until y path)
     else walk_plain room y (path ++ [y]) = None).
Proof.
  cbn [walk_plain]. destruct (root_reason cycles node); [by split; [|intros [? _]]|].
  rewrite plain_links_none. unfold prereq. naive_solver.
Qed.

(** The walk goes along every simple path. *)
Lemma walk_plain_along room node path q :
  walk_plain room node path = None -> chain (prereq links) node q ->
  NoDup q -> (forall y, y ∈ q -> y ∉ path) ->
  (length q < room)%nat /\ walk_plain (room - length q) (default node (last q)) (path ++ q) = None.
Proof.
  revert room node path; induction q as [|y q IH]; intros room node path Hw Hc Hnd Hdis.
  - simpl. rewrite app_nil_r, Nat.sub_0_r. destruct room; [done|]. split; [lia|done].
  - destruct room as [|room]; [done|]. destruct Hc as [Hy Hc]. inversion_clear Hnd as [|? ? Hyq Hnd'].
    apply walk_plain_none in Hw as (_ & _ & Hlinks). specialize (Hlinks y Hy).
    rewrite decide_False in Hlinks by (apply Hdis; by left).
    destruct (IH room y (path ++ [y]) Hlinks Hc Hnd') as [Hlen Hend].
    { intros z Hz [Hzp| ->%list_elem_of_singleton]%elem_of_app; [|done]. apply (Hdis z); [by right|done]. }
    rewrite last_default_cons, cons_middle, (assoc_L (++)). simpl. split; [lia|done].
Qed.

(** A path is cut at its first node in [seen]. *)
Lemma first_hit (seen : list string) y p z :
  chain (prereq links) y p -> NoDup p -> z ∈ p -> z ∈ seen ->
  exists q w, chain (prereq links) y q /\ NoDup q /\ (forall x, x ∈ q -> x ∉ seen) /\
    prereq links (default y (last q)) w /\ w ∈ seen.
Proof.
  revert y; induction p as [|a p IH]; intros y Hc Hnd Hz Hs; [by apply not_elem_of_nil in Hz|].
  destruct Hc as [Ha Hc]. inversion_clear Hnd as [|? ? Hap Hnd'].
  destruct (decide (a ∈ seen)) as [Has|Has].
  - exists [], a. split_and!; [done|constructor|by intros x ?%not_elem_of_nil|done|done].
  - apply elem_of_cons in Hz as [->|Hz]; [done|].
    destruct (IH a Hc Hnd' Hz Hs) as (q & w & Hq & Hndq & Hdis & Hw & Hws).
    destruct (decide (a ∈ q)) as [Haq|Haq].
    + apply list_elem_of_split in Haq as (l1 & l2 & ->).
      exists (a :: l2), w. apply chain_app in Hq as [_ Hq]. rewrite last_default_app, !last_default_cons in *.
      apply NoDup_app in Hndq as (_ & _ & ?). split_and!; try done.
      * simpl in *. tauto.
      * intros x Hx. apply Hdis, elem_of_app. by right.
    + exists (a :: q), w. rewrite last_default_cons. split_and!; try done.
      * by constructor.
      * intros x [->|?]%elem_of_cons; auto.
Qed.

(** The walk from a node finds nothing exactly when everything the node rests on is
    sound, and no simple path of dependencies is longer than the limit. *)
Lemma walk_plain_exact room node :
  walk_plain (S room) node [node] = None <->
  (forall y, rtc (prereq links) node y ->
     root_reason cycles y = None /\ (forall ref, (ref, None) ∉ links y) /\
     (tc (prereq links) y y -> authority y = ModelInference)) /\
  (forall q, chain (prereq links) node q -> NoDup (node :: q) -> (length q <= room)%nat).
Proof.
  split.
  - intros Hw. assert (Halong : forall q, chain (prereq links) node q -> NoDup (node :: q) ->
        (length q < S room)%nat /\ walk_plain (S room - length q) (default node (last q)) (node :: q) = None).
    { intros q Hc Hnd. inversion_clear Hnd as [|? ? Hn Hnd'].
      apply (walk_plain_along (S room) node [node] q); [done..|]. intros y Hy ->%list_elem_of_singleton. done. }
    split; [|intros q Hc Hnd; destruct (Halong q Hc Hnd); lia].
    intros y Hy. apply simple_path in Hy as (q & Hc & <- & Hnd).
    destruct (Halong q Hc Hnd) as [Hlen Hend]. destruct (S room - length q)%nat as [|r] eqn:Hr; [lia|].
    pose proof Hend as Hend'. apply walk_plain_none in Hend' as (Hroot & Hun & _). split_and!; [done..|].
    set (y := default node (last q)) in *. intros Hyy.
    assert (Hypath : y ∈ node :: q).
    { unfold y. destruct (last q) as [l|] eqn:Hl; [|by left]. right. by apply last_Some_elem_of. }
    assert (Hcyc : exists p, chain (prereq links) y p /\ NoDup p /\ y ∈ p).
    { inversion Hyy as [? ? H1|? w ? H1 H2]; subst.
      - exists [y]. split_and!; [by split|apply NoDup_singleton|by left].
      - apply tc_rtc, simple_path in H2 as (p & Hcp & Hlp & Hndp). exists (w :: p). split_and!; [by split|done|].
        rewrite <-Hlp. destruct (last p) eqn:Hl; [|by left]. right. by apply last_Some_elem_of. }
    destruct Hcyc as (p & Hcp & Hndp & Hyp).
    destruct (first_hit (node :: q) y p y Hcp Hndp Hyp Hypath) as (p' & w & Hcp' & Hndp' & Hdis & Hw' & Hws).
    destruct (Halong (q ++ p')) as [Hlen2 Hend2].
    { apply chain_app. done. }
    { rewrite app_comm_cons. apply NoDup_app. split_and!; [done| |done]. intros x Hx Hx'. by apply (Hdis x). }
    rewrite last_default_app in Hend2. fold y in Hend2.
    destruct (S room - length (q ++ p'))%nat as [|r2]; [done|].
    apply walk_plain_none in Hend2 as (_ & _ & Hlinks). specialize (Hlinks w Hw').
    rewrite decide_True in Hlinks.
    2:{ rewrite app_comm_cons. apply elem_of_app. by left. }
    rewrite Forall_forall in Hlinks. apply Hlinks.
    rewrite app_comm_cons, drop_until_app by done. apply elem_of_app. left.
    assert (Hy' : y = default w (last (drop_until w (node :: q)))).
    { rewrite drop_until_last by done. rewrite last_default_cons. done. }
    destruct (drop_until_split _ _ Hws) as (l1 & l2 & _ & Hd). rewrite Hd in *.
    rewrite Hy', last_default_cons. destruct (last l2) eqn:Hl; [|by left]. right. by apply last_Some_elem_of.
  - intros [Hreach Hbound].
    assert (Hgen : forall r q, chain (prereq links) node q -> NoDup (node :: q) ->
              (length q + r = S room)%nat -> walk_plain r (default node (last q)) (node :: q) = None).
    { induction r as [|r IH]; intros q Hc Hnd Hlen; [specialize (Hbound q Hc Hnd); lia|].
      assert (Hr : rtc (prereq links) node (default node (last q))) by by apply chain_rtc.
      destruct (Hreach _ Hr) as (Hroot & Hun & _). apply walk_plain_none. split_and!; [done..|].
      intros y Hy. assert (Hcy : chain (prereq links) node (q ++ [y])) by (apply chain_app; split; [done|by split]).
      case_decide as Hin.
      - apply Forall_forall. intros m Hm. apply Hreach.
        + apply elem_of_drop_until in Hm. apply elem_of_cons in Hm as [->|Hm]; [done|].
          apply list_elem_of_split in Hm as (l1 & l2 & ->). apply chain_app in Hc as [Hc1 [Hm _]].
          eapply rtc_r; [exact (chain_rtc _ _ _ Hc1)|done].
        + by apply (path_to_cycle links (node :: q) y).
      - specialize (IH (q ++ [y]) Hcy). rewrite last_snoc in IH. apply IH.
        + rewrite app_comm_cons. apply NoDup_app. split_and!; [done| |apply NoDup_singleton].
          by intros x Hx ->%list_elem_of_singleton.
        + rewrite length_app. simpl. lia. }
    apply (Hgen (S room) []); [done|apply NoDup_singleton|done].
Qed.
End walks.

(** ** The projection *)

Section projection.
Context `{UriReader} (sha : value -> string) (iso : datetime -> string).
Context (tenant generation : string) (collided : gset string).
Context (chunks : list Chunk) (states : gmap string string).
Context (asserted : gmap string (option datetime)) (as_of known_as_of : option datetime).

Abbreviation sources := (known_sources collided chunks).
Abbreviation doc := (document_of sha iso tenant generation collided chunks asserted).
Abbreviation docs := (documents sha iso tenant generation collided chunks asserted).
Abbreviation links := (links_of sha iso tenant generation collided chunks asserted).
Abbreviation authority := (authority_of sha iso tenant generation collided chunks asserted).
Abbreviation hard := (hard_of sha iso tenant generation collided chunks asserted).
Abbreviation cycles := (cycles sha iso tenant generation collided chunks asserted).
Abbreviation invalidations :=
  (invalidations sha iso tenant generation collided chunks states asserted as_of known_as_of).
Abbreviation resolve := (resolve tenant collided chunks).
Abbreviation node_staged := (node_staged tenant collided chunks).

Lemma NoDup_known_sources : NoDup sources.
Proof. unfold known_sources. rewrite sorted_strings_perm. apply NoDup_fst_map_to_list. Qed.

Lemma documents_get n : odict_get n docs = if decide (n ∈ sources) then Some (doc n) else None.
Proof.
  apply odict_get_map.
Qed.

Lemma links_of_spec n : links n = if decide (n ∈ sources) then doc_links (doc n) else [].
Proof. unfold links_of. rewrite documents_get. by case_decide. Qed.

Lemma nodes_by_file_spec f n : n ∈ nodes_by_file collided chunks f <-> n ∈ sources /\ node_file collided chunks n = f.
Proof. unfold nodes_by_file. rewrite list_elem_of_filter. tauto. Qed.

(** What [resolve] answers: the one holder in the dependent's own root, or the one
    holder that is not an upload. *)
Lemma resolve_inl d ref n :
  resolve d ref = inl n ->
  n ∈ nodes_by_file collided chunks ref /\
  (share_root collided chunks n d = true \/ node_staged n = false).
Proof.
  unfold Dependency.resolve.
  destruct (filter (fun node => share_root collided chunks node d = true) _) as [|own [|]] eqn:Hown.
  2:{ intros [= ->]. assert (Hn : n ∈ filter (fun node => share_root collided chunks node d = true)
        (nodes_by_file collided chunks ref)) by (rewrite Hown; by left).
      apply list_elem_of_filter in Hn. tauto. }
  all: destruct (filter (fun node => Dependency.node_staged tenant collided chunks node = false) _)
    as [|only [|]] eqn:Hel; try done; [by case_decide|].
  all: intros [= ->]; assert (Hn : n ∈ filter (fun node => node_staged node = false)
        (nodes_by_file collided chunks ref)) by (rewrite Hel; by left);
      apply list_elem_of_filter in Hn; tauto.
Qed.

Lemma links_closed x y : prereq links x y -> y ∈ sources.
Proof.
  intros [ref Hin]. rewrite links_of_spec in Hin. case_decide; [|by apply not_elem_of_nil in Hin].
  unfold document_of in Hin. cbn [doc_links] in Hin. apply list_elem_of_fmap in Hin as (r & [= -> Hr] & _).
  destruct (resolve x r) as [n|] eqn:Hres; [|done]. simplify_eq.
  apply resolve_inl in Hres as [Hn _]. by apply nodes_by_file_spec in Hn as [? _].
Qed.

Lemma cycles_acyclic : cycles = ∅ -> forall x, ~ tc (prereq links) x x.
Proof.
  intros He x Hx. destruct (on_cycles_spec sources links links_closed) as [_ Hac].
  apply (Hac He x); [|done]. apply tc_last in Hx as [y Hy]. by eapply links_closed.
Qed.

(** *** Properties *)

(** A document is sound: no chunk of it is malformed, inconsistent or depends on
    itself, nothing it names is unresolved, and, unless it is a model's inference,
    its state does not invalidate it and it is on no cycle. *)
Definition sound_document (y : string) : Prop :=
  hard y = None /\ (forall ref, (ref, None) ∉ links y) /\
  (authority y = ModelInference \/
   (invalidating_state (default "current" (states !! y)) = None /\ ~ tc (prereq links) y y)).

(** Walking the dependencies finds nothing to invalidate exactly when all that is met is sound. *)
Lemma invalidations_none node :
  node ∈ sources ->
  invalidations !! node = None <->
  (forall y, rtc (prereq links) node y -> sound_document y) /\
  (forall path, chain (prereq links) node path -> NoDup (node :: path) ->
     (length path <= MAX_INVALIDATION_DEPTH)%nat).
Proof.
  intros Hnode. unfold Dependency.invalidations.
  rewrite invalidations_plain by (apply cycles_acyclic || apply NoDup_known_sources).
  rewrite decide_True by done. rewrite walk_plain_exact.
  assert (Hone : forall y, (root_reason authority hard states generation (utc as_of) (utc known_as_of) cycles y = None /\
     (forall ref, (ref, None) ∉ links y) /\ (tc (prereq links) y y -> authority y = ModelInference)) <-> sound_document y).
  { intros y. unfold sound_document, root_reason.
    destruct (on_cycles_spec sources links links_closed) as [Hcyc _]. specialize (Hcyc y).
    fold cycles in Hcyc. destruct (hard y); [split; [by intros [? _]|by intros [? _]]|].
    case_decide as Ha; [tauto|]. case_decide as Hc.
    - split; [by intros [? _]|]. intros (_ & _ & [?|[_ Hn]]); [done|]. exfalso. auto.
    - rewrite fmap_None. tauto. }
  split; intros [H1 H2]; (split; [|done]); intros y Hy; apply Hone, H1, Hy.
Qed.

(** C33: what a served document rests on.  A document of the generation is not
    invalidated if and only if every document it depends on, through however many
    links, is sound, itself included, and no simple path of dependencies from it is
    longer than the limit of 64. *)
Theorem invalidations_exact node :
  node ∈ sources ->
  invalidations !! node = None <->
  (forall y, rtc (prereq links) node y -> sound_document y) /\
  (forall path, chain (prereq links) node path -> NoDup (node :: path) ->
     (length path <= MAX_INVALIDATION_DEPTH)%nat).
Proof. apply invalidations_none. Qed.

(** The memo never changes an answer.  The invalidations, found in one pass
    that reuses the healthy subgraphs of an acyclic graph, are those of the walk
    that starts afresh from each document. *)
Theorem memo_preserves_answers node :
  invalidations !! node =
  if decide (node ∈ sources)
  then walk_plain links authority hard states generation (utc as_of) (utc known_as_of) cycles
         (S MAX_INVALIDATION_DEPTH) node [node]
  else None.
Proof. apply invalidations_plain; [apply cycles_acyclic|apply NoDup_known_sources]. Qed.

(** The cycle search is sound, ends, and misses no cycle outright.  Its recursion
    stays within one level per document; every document it records is on a cycle of
    dependencies; and when it records none, there is no cycle at all. *)
Theorem find_cycles_sound :
  is_Some (all_cycles_opt sources links) /\
  (forall m, m ∈ cycles -> tc (prereq links) m m) /\
  (cycles = ∅ -> forall x, ~ tc (prereq links) x x).
Proof.
  split; [by destruct (all_cycles_spec sources links) as (st & -> & _)|].
  split; [apply (on_cycles_spec sources links links_closed)|apply cycles_acyclic].
Qed.

(** An upload never answers for a memo of another root.  A reference resolves
    only to a document of that path; when that document is staged by an upload, it
    shares the dependent's own root. *)
Theorem upload_never_a_foreign_prerequisite d ref n :
  resolve d ref = inl n ->
  n ∈ sources /\ node_file collided chunks n = ref /\
  (node_staged n = true -> share_root collided chunks n d = true).
Proof.
  intros Hr. apply resolve_inl in Hr as [Hn Hor]. apply nodes_by_file_spec in Hn as [Hs Hf].
  split_and!; [done..|]. intros Hst. destruct Hor as [?|Hns]; [done|]. congruence.
Qed.
End projection.

(** ** Witnesses: a.md depends on b.md, which has expired; c.md is an upload *)

Definition demo_chunk (file source : string) (deps : list string) : Chunk :=
  {| c_id := file; c_source := source; c_text := "";
     c_metadata := [("file", VStr file);
       ("recall_graph", VDict [("depends_on", VList (map VStr deps))])] |}.

Definition demo_chunks : list Chunk :=
  [demo_chunk "a.md" "/r/a.md" ["b.md"]; demo_chunk "b.md" "/r/b.md" [];
   demo_chunk "d.md" "/r/d.md" ["e.md"]; demo_chunk "e.md" "/r/e.md" ["f.md"];
   demo_chunk "f.md" "/r/f.md" ["gone.md"]].

Definition demo_states : gmap string string := {[ "b.md" := "expired" ]}.
Definition no_digest (v : value) : string := "".
Definition no_clock (d : datetime) : string := "".
Definition demo_invalidations : gmap string InvalidationReason :=
  invalidations no_digest no_clock "t" "g" ∅ demo_chunks demo_states ∅ None None.

Lemma invalidations_exact_witness :
  ir_cause <$> demo_invalidations !! "a.md" = Some CauseExpired /\
  ~ ((forall y, rtc (prereq (links_of no_digest no_clock "t" "g" ∅ demo_chunks ∅)) "a.md" y ->
        sound_document no_digest no_clock "t" "g" ∅ demo_chunks demo_states ∅ y) /\
     (forall path, chain (prereq (links_of no_digest no_clock "t" "g" ∅ demo_chunks ∅)) "a.md" path ->
        NoDup ("a.md" :: path) -> (length path <= MAX_INVALIDATION_DEPTH)%nat)).
Proof.
  split; [vm_compute; reflexivity|].
  assert (Hin : "a.md" ∈ known_sources ∅ demo_chunks)
    by (by_decide).
  intros Hsound.
  apply (invalidations_exact no_digest no_clock "t" "g" ∅ demo_chunks demo_states ∅ None None "a.md" Hin) in Hsound.
  revert Hsound. vm_compute. discriminate.
Defined.

Lemma upload_never_a_foreign_prerequisite_witness :
  resolve "t" ∅ demo_chunks "a.md" "b.md" = inl "b.md" /\
  "b.md" ∈ known_sources ∅ demo_chunks.
Proof.
  assert (Hr : resolve "t" ∅ demo_chunks "a.md" "b.md" = inl "b.md") by (vm_compute; reflexivity).
  split; [exact Hr|].
  exact (proj1 (upload_never_a_foreign_prerequisite "t" ∅ demo_chunks "a.md" "b.md" "b.md" Hr)).
Defined.

(** A reason found two links down repeats the nodes it has already told: d.md -> e.md
    -> f.md, which names a missing document. *)
Example unresolved_path_repeats :
  ir_path <$> demo_invalidations !! "d.md" =
  Some ["d.md"; "e.md"; "d.md"; "e.md"; "f.md"; "gone.md"].
Proof. vm_compute. reflexivity. Qed.
