(* ===== verification/TrustPolicy.v ===== *)
(** * TrustPolicy: refused, degraded or trusted (src/recall/trust_policy.py)

    The mode of the trust gate, the stable failure codes and the statuses they
    stand for, and the wire form of a refusal. *)
From S2P Require Import Prelude Text Float64 Frontmatter.

Inductive TrustMode := Strict | Development.

#[export] Instance TrustMode_eq_dec : EqDecision TrustMode.
Proof. solve_decision. Defined.

Definition mode_value (m : TrustMode) : string :=
  match m with Strict => "strict" | Development => "development" end.

Inductive TrustFailureCode :=
| IndexNotReady | LineageMismatch | CalibrationMissing | CalibrationUncertified
| CalibrationStale | DependencyUnavailable | DependencyGraphNotReady.

#[export] Instance TrustFailureCode_eq_dec : EqDecision TrustFailureCode.
Proof. solve_decision. Defined.

Definition code_value (c : TrustFailureCode) : string :=
  match c with
  | IndexNotReady => "INDEX_NOT_READY"
  | LineageMismatch => "LINEAGE_MISMATCH"
  | CalibrationMissing => "CALIBRATION_MISSING"
  | CalibrationUncertified => "CALIBRATION_UNCERTIFIED"
  | CalibrationStale => "CALIBRATION_STALE"
  | DependencyUnavailable => "DEPENDENCY_UNAVAILABLE"
  | DependencyGraphNotReady => "DEPENDENCY_GRAPH_NOT_READY"
  end.

Inductive TrustState := Trusted | Degraded | Refused.

#[export] Instance TrustState_eq_dec : EqDecision TrustState.
Proof. solve_decision. Defined.

Definition state_value (s : TrustState) : string :=
  match s with Trusted => "trusted" | Degraded => "degraded" | Refused => "refused" end.

(** [CalibrationStatus] (src/recall/calibration_v2_artifact.py). *)
Inductive CalibrationStatus :=
| StatusCertified | StatusMissing | StatusStale | StatusUncertified
| StatusDraft | StatusRejected | StatusSuperseded | StatusLegacyUnbound.

#[export] Instance CalibrationStatus_eq_dec : EqDecision CalibrationStatus.
Proof. solve_decision. Defined.

Definition status_value (s : CalibrationStatus) : string :=
  match s with
  | StatusCertified => "certified"
  | StatusMissing => "missing"
  | StatusStale => "stale"
  | StatusUncertified => "uncertified"
  | StatusDraft => "draft"
  | StatusRejected => "rejected"
  | StatusSuperseded => "superseded"
  | StatusLegacyUnbound => "legacy_unbound"
  end.

Definition all_statuses : list CalibrationStatus :=
  [StatusCertified; StatusMissing; StatusStale; StatusUncertified;
   StatusDraft; StatusRejected; StatusSuperseded; StatusLegacyUnbound].

(** [CalibrationStatus(value)]: None where it raises. *)
Definition parse_status (s : string) : option CalibrationStatus :=
  List.find (fun c => bool_decide (status_value c = s)) all_statuses.

(** [_STATUS_CODES]. *)
Definition STATUS_CODES : list (CalibrationStatus * TrustFailureCode) :=
  [(StatusMissing, CalibrationMissing); (StatusStale, CalibrationStale);
   (StatusSuperseded, CalibrationStale); (StatusUncertified, CalibrationUncertified);
   (StatusRejected, CalibrationUncertified); (StatusDraft, CalibrationUncertified);
   (StatusLegacyUnbound, CalibrationUncertified)].

Definition status_code (s : CalibrationStatus) : option TrustFailureCode :=
  snd <$> List.find (fun kv => bool_decide (kv.1 = s)) STATUS_CODES.

(** [code_for_status], of an enum member and of a raw string. *)
Definition code_of (s : CalibrationStatus) : option TrustFailureCode :=
  if decide (s = StatusCertified) then None
  else Some (default CalibrationUncertified (status_code s)).

Definition code_for_status (status : CalibrationStatus + string) : option TrustFailureCode :=
  match status with
  | inl s => code_of s
  | inr raw => match parse_status raw with
               | Some s => code_of s
               | None => Some CalibrationUncertified
               end
  end.

(** [_ADVICE]. *)
Definition ADVICE (c : TrustFailureCode) : string :=
  match c with
  | IndexNotReady =>
      "No trustworthy decision was possible: this tenant has no active, usable generation, so the trust gate never ran. Build and promote a generation, then retry."
  | LineageMismatch =>
      "No trustworthy decision was possible: the runtime embedder (model, dimension or profile) is not the one the active generation was built with, so its cosines are not comparable to any threshold and the trust gate never ran. Serve with the generation's embedder, or build and promote a generation for this one."
  | CalibrationMissing =>
      "No trustworthy decision was possible: no calibration artifact is bound to this tenant and generation, so there is no certified threshold and the trust gate never ran. Calibrate against a labelled query set and publish the artifact."
  | CalibrationUncertified =>
      "No trustworthy decision was possible: the calibration for this generation is not a certified, published artifact bound to it (uncertified, rejected, a draft, a threshold passed in unbound, or of unknown status), so its threshold is not usable and the trust gate never ran. Certify and publish an artifact for this generation."
  | CalibrationStale =>
      "No trustworthy decision was possible: a certified calibration exists but no longer binds to this generation's lineage (a rebuild or a privacy erasure changed the corpus fingerprint), so the trust gate never ran. Recalibrate against the current generation."
  | DependencyUnavailable =>
      "No trustworthy decision was possible: a dependency the trust gate needs could not be reached, so the gate never ran. This is an outage, not an empty result. Retry once the dependency is healthy."
  | DependencyGraphNotReady =>
      "No trustworthy decision was possible: dependency invalidation is enabled but the active generation has no ready dependency projection. Rebuild the generation graph and retry."
  end.

(** ** The policy *)

Record TrustPolicy := { mode : TrustMode }.

(** [__post_init__]: [TrustMode(self.mode)]. *)
Definition trust_policy (mode : string) : result TrustPolicy :=
  match List.find (fun m => bool_decide (mode_value m = mode)) [Strict; Development] with
  | Some m => Ok {| mode := m |}
  | None => Raise (ValueError "TrustMode")
  end.

Definition strict (p : TrustPolicy) : bool := bool_decide (mode p = Strict).

Definition strict_policy : TrustPolicy := {| mode := Strict |}.
Definition development : TrustPolicy := {| mode := Development |}.

Abbreviation environ := (list (string * string)).

(** [env_is_production] (src/recall/_env.py). *)
Definition env_is_production (env : environ) : bool :=
  bool_decide (lower (strip (default "development" (odict_get "RECALL_ENV" env))) = "production").

(** [TrustPolicy.from_env], with the warnings it logs. *)
Inductive trust_warning := RelaxedInProduction | UnknownMode.

#[export] Instance trust_warning_eq_dec : EqDecision trust_warning.
Proof. solve_decision. Defined.

Definition from_env (env : environ) : TrustPolicy * list trust_warning :=
  let raw := lower (strip (default "" (odict_get "RECALL_TRUST_MODE" env))) in
  ({| mode := if decide (raw = mode_value Development) then Development else Strict |},
   (if decide (raw = mode_value Development /\ env_is_production env = true) then [RelaxedInProduction] else []) ++
   (if decide (raw ∈ ["" : string; mode_value Strict; mode_value Development]) then [] else [UnknownMode])).

Definition DEPENDENCY_MODES : list string := ["off"; "enforce"].

(** [dependency_mode_from_env]. *)
Definition dependency_mode_from_env (env : environ) : result string :=
  let mode := lower (strip (default "off" (odict_get "RECALL_DEPENDENCY_INVALIDATION" env))) in
  if decide (mode ∈ DEPENDENCY_MODES) then Ok mode
  else Raise (ValueError "RECALL_DEPENDENCY_INVALIDATION must be 'off' or 'enforce'").

(** ** A refusal *)

Record TrustRefusal := {
  tr_code : TrustFailureCode;
  tr_calibration_status : string;
  tr_tenant_id : option string;
  tr_generation_id : option string;
  tr_calibration_id : option string;
  tr_pipeline_fingerprint : option string;
  tr_corpus_fingerprint : option string;
  tr_query_set_digest : option string
}.

Definition refusal_state (r : TrustRefusal) : TrustState := Refused.
Definition refusal_advice (r : TrustRefusal) : string := ADVICE (tr_code r).

Definition optional_str (o : option string) : value :=
  match o with Some s => VStr s | None => VNone end.

(** [TrustRefusal.to_dict]. *)
Definition refusal_to_dict (r : TrustRefusal) : list (string * value) :=
  [("code", VStr (code_value (tr_code r)));
   ("trust_state", VStr (state_value Refused));
   ("calibration_status", VStr (tr_calibration_status r));
   ("calibrated", VBool false);
   ("tenant_id", optional_str (tr_tenant_id r));
   ("generation_id", optional_str (tr_generation_id r));
   ("calibration_id", optional_str (tr_calibration_id r));
   ("pipeline_fingerprint", optional_str (tr_pipeline_fingerprint r));
   ("corpus_fingerprint", optional_str (tr_corpus_fingerprint r));
   ("query_set_digest", optional_str (tr_query_set_digest r));
   ("advice", VStr (refusal_advice r))].

(** ** Properties *)

Lemma parse_status_value s : parse_status (status_value s) = Some s.
Proof. by destruct s. Qed.

Lemma parse_status_some raw s : parse_status raw = Some s -> raw = status_value s.
Proof. intros [_ Hs]%List.find_some. by apply bool_decide_eq_true in Hs. Qed.

Lemma code_of_none s : code_of s = None <-> s = StatusCertified.
Proof. unfold code_of. case_decide; by split. Qed.

Lemma code_for_string_none raw : code_for_status (inr raw) = None <-> raw = status_value StatusCertified.
Proof.
  simpl. destruct (parse_status raw) as [s|] eqn:Hp.
  - apply parse_status_some in Hp as ->. rewrite code_of_none. split; [by intros ->|]. by destruct s.
  - split; [done|]. by intros ->.
Qed.

(** Only a certified status carries no failure code.  Whether it is asked as an
    enum member or as the raw string on the wire, a status maps to no code exactly
    when it is [certified]; an unrecognised string fails closed. *)
Theorem code_for_status_fails_closed status :
  code_for_status status = None <->
  status = inl StatusCertified \/ status = inr (status_value StatusCertified).
Proof.
  destruct status as [s|raw].
  - simpl. rewrite code_of_none. split; [intros ->; by left|]. intros [[= ->]|?]; done.
  - rewrite code_for_string_none. split; [intros ->; by right|]. intros [?|[= ->]]; done.
Qed.

(** Nothing but the word development opens the gate.  The policy read from the
    environment is strict unless RECALL_TRUST_MODE, stripped and lowered, is exactly
    [development]; any other value that is not empty or [strict] is warned about. *)
Theorem from_env_strict_by_default env :
  let raw := lower (strip (default "" (odict_get "RECALL_TRUST_MODE" env))) in
  (strict (from_env env).1 = false <-> raw = "development") /\
  (UnknownMode ∈ (from_env env).2 <-> raw <> "" /\ raw <> "strict" /\ raw <> "development") /\
  (RelaxedInProduction ∈ (from_env env).2 <-> raw = "development" /\ env_is_production env = true).
Proof.
  cbn zeta. unfold from_env. set (raw := lower _). cbn [fst snd]. unfold strict. cbn [mode mode_value].
  split; [|split].
  - case_decide; split; try done.
  - rewrite elem_of_app. repeat case_decide; rewrite ?list_elem_of_singleton, ?elem_of_nil; set_solver.
  - rewrite elem_of_app. repeat case_decide; rewrite ?list_elem_of_singleton, ?elem_of_nil; set_solver.
Qed.

(** A refusal carries no corpus content.  Its wire form has exactly the eleven
    identity keys, says it is refused and not calibrated, and its advice states
    first that no trustworthy decision was possible, for every code. *)
Theorem refusal_is_content_free r :
  (refusal_to_dict r).*1 =
    ["code"; "trust_state"; "calibration_status"; "calibrated"; "tenant_id"; "generation_id";
     "calibration_id"; "pipeline_fingerprint"; "corpus_fingerprint"; "query_set_digest"; "advice"] /\
  odict_get "trust_state" (refusal_to_dict r) = Some (VStr "refused") /\
  odict_get "calibrated" (refusal_to_dict r) = Some (VBool false) /\
  exists advice, odict_get "advice" (refusal_to_dict r) = Some (VStr advice) /\
    starts_with advice "No trustworthy decision was possible: " = true.
Proof.
  split_and!; [reflexivity..|]. exists (refusal_advice r). split; [reflexivity|].
  unfold refusal_advice. by destruct (tr_code r).
Qed.
