(* ===== verification/Calibration.v ===== *)
(** * Calibration: the abstention threshold and its confidence
    (src/recall/calibration.py, src/recall/guards.py)

    Where the threshold is put between two sets of cosines, what certifies it, and
    the confidence a cosine maps to.  Floats are binary64; [math.exp] is a parameter. *)
From S2P Require Import Prelude Text Float64 Types.

Local Open Scope Z_scope.

Definition DEFAULT_SCALE : float := float_of_decimal 5 2.
Definition ANSWERABLE_FLOOR_Q : float := float_of_decimal 5 2.
Definition UNANSWERABLE_CEILING_Q : float := float_of_decimal 95 2.
Definition MIN_CALIBRATION_SAMPLES : Z := 20.
Definition MIN_SEPARABILITY : float := float_of_decimal 90 2.
Definition SEPARABILITY_Z : float := float_of_decimal 196 2.
Definition NO_SAMPLES_THRESHOLD : float := half.
Definition DEFAULT_GAP_THRESHOLD : float := half.

(** ** Integers from floats *)

(** [math.floor(x)] and [int(x)]; both raise on an infinity and on NaN. *)
Definition float_floor (x : float) : result Z :=
  match x with
  | S754_zero _ => Ok 0
  | S754_finite s m e =>
      let v := if s then Z.neg m else Z.pos m in
      Ok (if 0 <=? e then v * 2 ^ e else v / 2 ^ (- e))
  | S754_infinity _ => Raise (ValueError "cannot convert float infinity to integer")
  | S754_nan => Raise (ValueError "cannot convert float NaN to integer")
  end.

Definition float_trunc (x : float) : result Z :=
  match x with
  | S754_zero _ => Ok 0
  | S754_finite s m e =>
      let v := if 0 <=? e then Z.pos m * 2 ^ e else Z.pos m / 2 ^ (- e) in
      Ok (if s then - v else v)
  | S754_infinity _ => Raise (ValueError "cannot convert float infinity to integer")
  | S754_nan => Raise (ValueError "cannot convert float NaN to integer")
  end.

(** [sorted] on floats. *)
Definition fle_prop (a b : float) : Prop := fle a b = true.

#[export] Instance fle_prop_dec : RelDecision fle_prop.
Proof. intros a b. unfold fle_prop. apply _. Defined.

Definition sorted_floats (l : list float) : list float := merge_sort fle_prop l.

(** ** Separability *)

Definition fnat (n : nat) : float := float_of_Z (Z.of_nat n).

Definition count_pairs (f : float -> float -> bool) (answerable unanswerable : list float) : Z :=
  foldl (fun acc a => foldl (fun acc u => if f a u then acc + 1 else acc) acc unanswerable) 0 answerable.

(** [separability]. *)
Definition separability (answerable unanswerable : list float) : option float :=
  match answerable, unanswerable with
  | [], _ | _, [] => None
  | _, _ =>
      let wins := count_pairs fgt answerable unanswerable in
      let ties := count_pairs (fun a u => SFeqb a u) answerable unanswerable in
      Some (fdiv (fadd (float_of_Z wins) (fmul half (float_of_Z ties)))
                 (float_of_Z (Z.of_nat (length answerable) * Z.of_nat (length unanswerable))))
  end.

Definition two : float := float_of_Z 2.

(** [separability_interval]. *)
Definition separability_interval (auc : float) (n_answerable n_unanswerable : Z) : float * float :=
  if (n_answerable <? 1) || (n_unanswerable <? 1) then (zero, one)
  else
    let q1 := fdiv auc (fsub two auc) in
    let q2 := fdiv (fmul (fmul two auc) auc) (fadd one auc) in
    let variance :=
      fdiv (fadd (fadd (fmul auc (fsub one auc))
                       (fmul (float_of_Z (n_answerable - 1)) (fsub q1 (fmul auc auc))))
                 (fmul (float_of_Z (n_unanswerable - 1)) (fsub q2 (fmul auc auc))))
           (float_of_Z (n_answerable * n_unanswerable)) in
    let half_width := fmul SEPARABILITY_Z (SFsqrt prec emax (fmax variance zero)) in
    (fmax zero (fsub auc half_width), fmin one (fadd auc half_width)).

(** ** The threshold *)

(** [_quantile]: [min(len - 1, int(q * len))]. *)
Definition quantile (sorted_values : list float) (q : float) : result float :=
  let n := length sorted_values in
  i ← float_trunc (fmul q (fnat n));
  match sorted_values !! Z.to_nat (Z.min (Z.of_nat n - 1) i) with
  | Some v => Ok v
  | None => Raise IndexError
  end.

(** [_upper_quantile]: [max(0, n - 1 - int((1 - q) * n))]. *)
Definition upper_quantile (sorted_values : list float) (q : float) : result float :=
  let n := length sorted_values in
  i ← float_trunc (fmul (fsub one q) (fnat n));
  match sorted_values !! Z.to_nat (Z.max 0 (Z.of_nat n - 1 - i)) with
  | Some v => Ok v
  | None => Raise IndexError
  end.

Definition thousand : float := float_of_Z 1000.

(** An integer over 1000, rounded once. *)
Definition thousandths (n : Z) : float := float_of_decimal n 3.

(** [_floor_to_grid]. *)
Definition floor_to_grid (v : float) : result float :=
  n ← float_floor (fmul v thousand); Ok (thousandths n).

(** [(math.floor(v * 1000) + 1) / 1000]. *)
Definition step_above (v : float) : result float :=
  n ← float_floor (fmul v thousand); Ok (thousandths (n + 1)).

(** [best_threshold]. *)
Definition best_threshold (answerable unanswerable : list float) : result float :=
  if negb (forallb isfinite (answerable ++ unanswerable))
  then Raise (ValueError "calibration samples must be finite cosines")
  else match sorted_floats answerable, sorted_floats unanswerable with
  | [], [] => Ok NO_SAMPLES_THRESHOLD
  | [], u =>
      ceiling ← upper_quantile u UNANSWERABLE_CEILING_Q;
      above ← step_above ceiling;
      Ok (fmin one above)
  | a, u =>
      floor ← quantile a ANSWERABLE_FLOOR_Q;
      match u with
      | [] => floor_to_grid floor
      | _ =>
          ceiling ← upper_quantile u UNANSWERABLE_CEILING_Q;
          let midpoint := fdiv (fadd floor ceiling) two in
          threshold ← floor_to_grid midpoint;
          if fgt floor ceiling && fle threshold ceiling then
            above ← step_above ceiling;
            if flt ceiling above && fle above floor then Ok above
            else Ok (if fgt midpoint ceiling then midpoint else floor)
          else Ok threshold
      end
  end.

(** ** A calibration *)

Record Calibration := {
  cal_embedder : string;
  cal_threshold : float;
  cal_scale : float;
  cal_separability : option float;
  cal_n_answerable : option Z;
  cal_n_unanswerable : option Z
}.

(** [__post_init__]. *)
Definition calibration (embedder : string) (threshold scale : float) (sep : option float)
    (n_answerable n_unanswerable : option Z) : result Calibration :=
  if negb (isfinite threshold) then Raise (ValueError "calibration threshold must be finite")
  else if negb (isfinite scale) || fle scale zero
  then Raise (ValueError "calibration scale must be finite and positive")
  else Ok {| cal_embedder := embedder; cal_threshold := threshold; cal_scale := scale;
             cal_separability := sep; cal_n_answerable := n_answerable;
             cal_n_unanswerable := n_unanswerable |}.

(** [_UNCALIBRATED] (src/recall/trust_gate.py). *)
Definition uncalibrated : Calibration :=
  {| cal_embedder := "uncalibrated"; cal_threshold := DEFAULT_GAP_THRESHOLD; cal_scale := DEFAULT_SCALE;
     cal_separability := None; cal_n_answerable := None; cal_n_unanswerable := None |}.

(** [separability_ci]. *)
Definition separability_ci (c : Calibration) : option (float * float) :=
  s ← cal_separability c; a ← cal_n_answerable c; u ← cal_n_unanswerable c;
  Some (separability_interval s a u).

(** [certified]. *)
Definition certified (c : Calibration) : option bool :=
  s ← cal_separability c; a ← cal_n_answerable c; u ← cal_n_unanswerable c;
  if Z.min a u <? MIN_CALIBRATION_SAMPLES then Some false
  else Some (fge (separability_interval s a u).1 MIN_SEPARABILITY).

(** [certification_reason]: which of its sentences it is; thin sides are named. *)
Inductive certification :=
| NotJudged
| TooFew (answerable unanswerable : bool)
| Overlapping
| NotEstablished
| Established.

#[export] Instance certification_eq_dec : EqDecision certification.
Proof. solve_decision. Defined.

Definition certification_reason (c : Calibration) : certification :=
  match cal_separability c, cal_n_answerable c, cal_n_unanswerable c with
  | Some s, Some a, Some u =>
      let thin_a := a <? MIN_CALIBRATION_SAMPLES in
      let thin_u := u <? MIN_CALIBRATION_SAMPLES in
      if thin_a || thin_u then TooFew thin_a thin_u
      else if flt s MIN_SEPARABILITY then Overlapping
      else if flt (separability_interval s a u).1 MIN_SEPARABILITY then NotEstablished
      else Established
  | _, _, _ => NotJudged
  end.

Section confidence.
Context (exp : float -> float).

(** [confidence]. *)
Definition confidence (c : Calibration) (cosine : float) : float :=
  if negb (isfinite cosine) then zero
  else
    let x := fdiv (fsub cosine (cal_threshold c)) (cal_scale c) in
    let sixty := float_of_Z 60 in
    let x := fmax (fopp sixty) (fmin sixty x) in
    fdiv one (fadd one (exp (fopp x))).
End confidence.

(** ** [from_samples] *)

(** [statistics.quantiles(data, n=4, method="inclusive")]'s cut [i]. *)
Definition quartile (data : list float) (i : Z) : result float :=
  let d := sorted_floats data in
  let m := Z.of_nat (length d) - 1 in
  let j := i * m / 4 in
  let delta := (i * m) mod 4 in
  match d !! Z.to_nat j, d !! Z.to_nat (j + 1) with
  | Some a, Some b =>
      Ok (fdiv (fadd (fmul a (float_of_Z (4 - delta))) (fmul b (float_of_Z delta))) (float_of_Z 4))
  | _, _ => Raise IndexError
  end.

(** [round(x, 4)]: to the nearest ten-thousandth, the exact value's ties to even. *)
Definition round4 (x : float) : float :=
  match x with
  | S754_finite s m e =>
      let num := Z.pos m * 10000 * (if 0 <=? e then 2 ^ e else 1) in
      let den := if 0 <=? e then 1 else 2 ^ (- e) in
      let q := num / den in
      let r := 2 * (num mod den) in
      let n := if (den <? r) || ((r =? den) && Z.odd q) then q + 1 else q in
      let y := float_of_decimal n 4 in
      if s then fopp y else y
  | _ => x
  end.

(** [from_samples]; the warning of an uncertified threshold is not modelled. *)
Definition from_samples (embedder : string) (answerable unanswerable : list float) : result Calibration :=
  thr ← best_threshold answerable unanswerable;
  scale ← (if ((2 <=? length answerable) && (2 <=? length unanswerable))%nat then
             q25 ← quartile answerable 1;
             q75 ← quartile unanswerable 3;
             Ok (fmax (fdiv (fsub q25 q75) (float_of_Z 4)) (float_of_decimal 1 2))
           else Ok DEFAULT_SCALE);
  calibration embedder thr (round4 scale) (separability answerable unanswerable)
    (Some (Z.of_nat (length answerable))) (Some (Z.of_nat (length unanswerable))).

(** ** Guards (src/recall/guards.py) *)

(** [max(scores)]: the first of the greatest; a NaN is kept where it comes first. *)
Definition max_score (first : float) (rest : list float) : float := foldl fmax first rest.

(** [gap_warning]. *)
Definition gap_warning (scores : list float) (threshold : float) : bool :=
  match scores with
  | [] => true
  | s :: rest => flt (max_score s rest) threshold
  end.

(** [staleness]; an age between a naive and an aware instant raises. *)
Definition staleness (newest_indexed_at : option datetime) (now : datetime) (max_age : Z) :
    result StalenessReport :=
  match newest_indexed_at with
  | None => Ok {| st_stale := true; st_newest := None; st_age := None; st_max_age := max_age |}
  | Some newest =>
      if decide (is_naive newest = is_naive now) then
        let age := instant now - instant newest in
        Ok {| st_stale := bool_decide (max_age < age); st_newest := Some newest; st_age := Some age;
              st_max_age := max_age |}
      else Raise (TypeError "can't subtract offset-naive and offset-aware datetimes")
  end.

Definition cosines (l : list Z) : list float := map (fun n => float_of_decimal n 3) l.

Example threshold_gap : best_threshold (cosines [700; 800; 900]) (cosines [500; 600; 640]) = Ok (float_of_decimal 669 3).
Proof. vm_compute. reflexivity. Qed.
Example threshold_narrow : best_threshold (cosines [6005]) (cosines [6003]) = Ok (float_of_decimal 6004 3).
Proof. vm_compute. reflexivity. Qed.
Example threshold_none : best_threshold [] (cosines [640]) = Ok (float_of_decimal 641 3).
Proof. vm_compute. reflexivity. Qed.
Example separability_ex : separability (cosines [700; 500]) (cosines [500; 600]) = Some (float_of_decimal 625 3).
Proof. vm_compute. reflexivity. Qed.
Example round4_ex1 : round4 (float_of_decimal 12345 5) = float_of_decimal 1235 4.
Proof. vm_compute. reflexivity. Qed.
Example round4_ex2 : round4 (float_of_decimal 267525 5) = float_of_decimal 26753 4.
Proof. vm_compute. reflexivity. Qed.

(** ** Lemmas *)

Lemma thousandths_not_nan n : isnan (thousandths n) = false.
Proof. apply fdiv_not_nan, float_of_Z_not_nan. Qed.

Lemma elem_of_sorted_floats x l : x ∈ sorted_floats l <-> x ∈ l.
Proof. unfold sorted_floats. by rewrite merge_sort_Permutation. Qed.

Lemma upper_quantile_elem u q c : upper_quantile u q = Ok c -> c ∈ u.
Proof.
  unfold upper_quantile. rewrite bind_ok. intros (i & _ & Hc).
  destruct (u !! _) as [v|] eqn:Hv; [|done]. injection Hc as ->. by eapply list_elem_of_lookup_2.
Qed.

Lemma quantile_elem a q f : quantile a q = Ok f -> f ∈ a.
Proof.
  unfold quantile. rewrite bind_ok. intros (i & _ & Hc).
  destruct (a !! _) as [v|] eqn:Hv; [|done]. injection Hc as ->. by eapply list_elem_of_lookup_2.
Qed.

Lemma forallb_finite l : forallb isfinite l = true -> forall x, x ∈ l -> isfinite x = true.
Proof. intros Hl x Hx. rewrite forallb_forall in Hl. by apply Hl, list_elem_of_In. Qed.

(** ** Properties *)

(** A clean gap is never closed by rounding.  When the answerable floor lies
    strictly above the unanswerable ceiling, the threshold fitted from the two sets
    lies strictly above that ceiling: no unanswerable sample at or below it is
    confirmed, whatever the 0.001 grid does. *)
Theorem clean_gap_respected answerable unanswerable floor ceiling t :
  quantile (sorted_floats answerable) ANSWERABLE_FLOOR_Q = Ok floor ->
  upper_quantile (sorted_floats unanswerable) UNANSWERABLE_CEILING_Q = Ok ceiling ->
  fgt floor ceiling = true ->
  best_threshold answerable unanswerable = Ok t -> fgt t ceiling = true.
Proof.
  intros Hf Hc Hgap. unfold best_threshold.
  destruct (forallb isfinite (answerable ++ unanswerable)) eqn:Hfin; cbn [negb]; [|done].
  pose proof (quantile_elem _ _ _ Hf) as Hfa. pose proof (upper_quantile_elem _ _ _ Hc) as Hcu.
  assert (Hcf : isfinite ceiling = true).
  { eapply forallb_finite; [exact Hfin|]. apply elem_of_app. right. by apply elem_of_sorted_floats. }
  destruct (sorted_floats answerable) as [|a0 a]; [by apply not_elem_of_nil in Hfa|].
  destruct (sorted_floats unanswerable) as [|u0 u]; [by apply not_elem_of_nil in Hcu|].
  rewrite Hf, Hc. cbn [mbind result_bind]. rewrite bind_ok. intros (t0 & Ht0 & Hrest). rewrite Hgap in Hrest.
  cbn [andb] in Hrest. destruct (fle t0 ceiling) eqn:Hle.
  - apply bind_ok in Hrest as (above & _ & Hrest).
    destruct (flt ceiling above) eqn:Ha; cbn [andb] in Hrest.
    + destruct (fle above floor); [by injection Hrest as <-|].
      injection Hrest as <-. by destruct (fgt (fdiv _ two) ceiling) eqn:Hm.
    + injection Hrest as <-. by destruct (fgt (fdiv _ two) ceiling) eqn:Hm.
  - injection Hrest as <-. unfold floor_to_grid in Ht0. apply bind_ok in Ht0 as (n & _ & [= <-]).
    unfold fgt. destruct (SFltb ceiling (thousandths n)) eqn:Hlt; [done|].
    apply flt_false_fge in Hlt; [|by apply isfinite_not_nan|apply thousandths_not_nan].
    unfold fge, fle in *. congruence.
Qed.

Definition fine_cosines (l : list Z) : list float := map (fun n => float_of_decimal n 4) l.
Definition narrow_threshold : float :=
  match best_threshold (fine_cosines [7001; 8000]) (fine_cosines [7000; 6000]) with
  | Ok t => t | Raise _ => zero
  end.

Lemma clean_gap_respected_witness :
  best_threshold (fine_cosines [7001; 8000]) (fine_cosines [7000; 6000]) = Ok narrow_threshold /\
  fgt narrow_threshold (float_of_decimal 7000 4) = true.
Proof.
  assert (Ht : best_threshold (fine_cosines [7001; 8000]) (fine_cosines [7000; 6000]) = Ok narrow_threshold)
    by (vm_compute; reflexivity).
  split; [exact Ht|].
  apply (clean_gap_respected (fine_cosines [7001; 8000]) (fine_cosines [7000; 6000])
           (float_of_decimal 7001 4) (float_of_decimal 7000 4) narrow_threshold).
  - vm_compute. reflexivity.
  - vm_compute. reflexivity.
  - vm_compute. reflexivity.
  - exact Ht.
Defined.

(** A score with no meaning earns no confidence, and the threshold is where
    confidence is one half.  For any calibration the constructor accepts, a NaN or
    infinite cosine maps to 0, and a cosine equal to the threshold maps to exactly
    0.5, given that [exp(-0.0)] is 1. *)
Theorem confidence_at_threshold (exp : float -> float) embedder threshold scale sep na nu c :
  exp (fopp zero) = one ->
  calibration embedder threshold scale sep na nu = Ok c ->
  (forall cosine, isfinite cosine = false -> confidence exp c cosine = zero) /\
  confidence exp c threshold = half.
Proof.
  intros Hexp. unfold calibration. destruct (isfinite threshold) eqn:Ht; simpl; [|done].
  destruct (negb (isfinite scale) || fle scale zero) eqn:Hs; [done|]. intros [= <-].
  apply orb_false_iff in Hs as [Hsf Hsp]. unfold confidence. cbn [cal_threshold cal_scale]. split.
  - by intros x ->.
  - rewrite Ht. cbn [negb].
    assert (Hx : fdiv (fsub threshold threshold) scale = zero).
    { assert (Hsub : fsub threshold threshold = zero).
      { destruct threshold as [[]|s| |s m e]; try done. apply fsub_diag. }
      rewrite Hsub. destruct scale as [[]|[]| |[] m e]; try done. }
    rewrite Hx. assert (Hclamp : fmax (fopp (float_of_Z 60)) (fmin (float_of_Z 60) zero) = zero)
      by (vm_compute; reflexivity).
    rewrite Hclamp, Hexp. vm_compute. reflexivity.
Qed.

Definition demo_calibration : Calibration :=
  match calibration "bge" (float_of_decimal 62 2) DEFAULT_SCALE None None None with
  | Ok c => c | Raise _ => uncalibrated
  end.

Lemma confidence_at_threshold_witness :
  calibration "bge" (float_of_decimal 62 2) DEFAULT_SCALE None None None = Ok demo_calibration /\
  confidence (fun _ => one) demo_calibration S754_nan = zero /\
  confidence (fun _ => one) demo_calibration (float_of_decimal 62 2) = half.
Proof.
  assert (Hc : calibration "bge" (float_of_decimal 62 2) DEFAULT_SCALE None None None = Ok demo_calibration)
    by (vm_compute; reflexivity).
  split; [exact Hc|].
  destruct (confidence_at_threshold (fun _ => one) _ _ _ _ _ _ _ eq_refl Hc) as [Hn Hh].
  split; [apply Hn; reflexivity|exact Hh].
Defined.

Lemma fmax_zero_not_nan x : isnan (fmax zero x) = false.
Proof. unfold fmax. destruct (fgt x zero) eqn:Hx; [|done]. by destruct x. Qed.

(** Certification is never assumed.  [certified] is unknown exactly when the
    diagnosis says it was not judged; a diagnosis of too few samples, or of an
    interval that does not reach the bar, is never certified, and an established one
    always is; and when it is true, both classes have at least 20 samples and the interval's lower bound
    clears 0.90. *)
Theorem certified_sound c :
  (certified c = None <-> certification_reason c = NotJudged) /\
  (certification_reason c = Established -> certified c = Some true) /\
  ((exists a u, certification_reason c = TooFew a u) \/ certification_reason c = NotEstablished ->
   certified c = Some false) /\
  (certified c = Some true ->
   exists s a u, cal_separability c = Some s /\ cal_n_answerable c = Some a /\ cal_n_unanswerable c = Some u /\
     20 <= a /\ 20 <= u /\ fge (separability_interval s a u).1 MIN_SEPARABILITY = true).
Proof.
  unfold certified, certification_reason.
  destruct (cal_separability c) as [s|], (cal_n_answerable c) as [a|], (cal_n_unanswerable c) as [u|]; simpl;
    try (split_and!; [done..| |done]; by intros [(? & ? & ?)|?]).
  unfold MIN_CALIBRATION_SAMPLES.
  set (lo := (separability_interval s a u).1).
  assert (Hthin : (Z.min a u <? 20) = (a <? 20) || (u <? 20)) by lia.
  assert (Hlo : isnan lo = false).
  { unfold lo, separability_interval. destruct ((a <? 1) || (u <? 1)); cbn [fst]; [done|]. apply fmax_zero_not_nan. }
  assert (Hbar : flt lo MIN_SEPARABILITY = negb (fge lo MIN_SEPARABILITY)).
  { pose proof (flt_false_fge lo MIN_SEPARABILITY Hlo eq_refl) as Hiff.
    destruct (flt lo MIN_SEPARABILITY), (fge lo MIN_SEPARABILITY); naive_solver. }
  rewrite Hthin, Hbar. destruct ((a <? 20) || (u <? 20)) eqn:Hab.
  - split_and!; [by split|done|done|done].
  - assert (Hlast : fge lo MIN_SEPARABILITY = true -> exists s0 a0 u0,
      Some s = Some s0 /\ Some a = Some a0 /\ Some u = Some u0 /\ 20 <= a0 /\ 20 <= u0 /\
      fge (separability_interval s0 a0 u0).1 MIN_SEPARABILITY = true)
      by (intros Hge; exists s, a, u; split_and!; [done..|lia|lia|exact Hge]).
    revert Hlast. generalize (fge lo MIN_SEPARABILITY) (flt s MIN_SEPARABILITY). intros b1 b2 Hlast.
    destruct b1, b2; cbn [negb]; split_and!; try done; try (by split); try (by intros [(? & ? & ?)|?]);
      intros _; by apply Hlast.
Qed.
