(* ===== verification/TrustGate.v ===== *)
(** * TrustGate: verdicts over one retrieval result (src/recall/trust_gate.py)

    Hit by hit, whether a retrieved memory may be relied on: its metadata, when it
    was known, the claims on it, its validity window, its score, its dependencies;
    then the promotion of successors, the order and the abstention. *)
From S2P Require Import Prelude Text Float64 Frontmatter SourceIdentity References Supersession Resolver Types Dependency TrustVerdicts Calibration.

Local Open Scope Z_scope.

(** [_as_utc]. *)
Definition as_utc (d : datetime) : datetime := Aware (instant d).

(** The supersession argument: a plain edge map, or the store's graph. *)
Inductive supersession_arg :=
| PlainEdges (edges : gmap string string)
| OfGraph (g : SupersessionGraph).

Definition resolved_graph (s : supersession_arg) (unres : gset string) : SupersessionGraph :=
  match s with
  | PlainEdges edges => from_parts edges unres None None
  | OfGraph g => as_supersession_graph g unres None
  end.

Record TrustedResult := {
  tres_query : string;
  tres_hits : list TrustedHit;
  tres_abstained : bool;
  tres_reason : option abstention;
  tres_gap_warning : bool;
  tres_staleness : StalenessReport;
  tres_decision_state : option DecisionState;
  tres_diagnostics : RetrievalDiagnostics;
  tres_calibration_id : option string;
  tres_calibration_status : string;
  tres_tenant_id : option string;
  tres_generation_id : option string;
  tres_pipeline_fingerprint : option string;
  tres_corpus_fingerprint : option string;
  tres_query_set_digest : option string;
  tres_trust_state : string;
  tres_failure_code : option string
}.

(** [TrustedResult.calibrated]. *)
Definition result_calibrated (r : TrustedResult) : bool :=
  bool_decide (tres_calibration_status r = "certified") &&
  bool_decide (tres_calibration_id r <> None) &&
  bool_decide (tres_trust_state r = "trusted").

Section gate.
Context (py_str : value -> string) (exp : float -> float).

(** The name a verdict is looked up under: the key when there is one, else whatever
    the metadata holds. *)
Definition lookup_name (key : option string) (meta : metadata) : value :=
  match key with Some k => VStr k | None => meta_get "file" meta end.

(** [file in unresolved]: a list or a dict cannot be hashed. *)
Definition in_unresolved (file : value) (unres : gset string) : result bool :=
  match file with
  | VStr s => Ok (bool_decide (s ∈ unres))
  | VList _ => Raise (TypeError "unhashable type: 'list'")
  | VDict _ => Raise (TypeError "unhashable type: 'dict'")
  | _ => Ok false
  end.

(** When the memory was first known: the first write, or the last. *)
Definition first_known (hit : ScoredChunk) : option datetime :=
  match sc_first_indexed_at hit with Some d => Some d | None => sc_indexed_at hit end.

(** Written after the replay instant. *)
Definition not_known (known_as_of : option datetime) (hit : ScoredChunk) : result bool :=
  match known_as_of, first_known hit with
  | Some k, Some f => datetime_lt k f
  | _, _ => Ok false
  end.

Definition low_score (hit : ScoredChunk) (threshold : float) : bool :=
  match sc_kind hit with
  | DenseCosine => negb (isfinite (sc_score hit)) || negb (isfinite threshold) || flt (sc_score hit) threshold
  | Structural => false
  end.

Definition before (start : option Z) (now : datetime) : bool :=
  match start with Some s => bool_decide (instant now < s) | None => false end.
Definition after (end_ : option Z) (now : datetime) : bool :=
  match end_ with Some e => bool_decide (e < instant now) | None => false end.

(** [_verdict]. *)
Definition verdict_of (hit : ScoredChunk) (edges : gmap string string) (threshold : float)
    (now : datetime) (unres : gset string) (known_as_of : option datetime)
    (edge_candidates : option EdgeCandidates) (windows : option (gmap string Window))
    (key : option string) : result (Verdict * Validity) :=
  let meta := c_metadata (sc_chunk hit) in
  let file := lookup_name key meta in
  match validity_bounds meta with
  | Raise _ => Ok (InvalidMetadata, {| va_from := None; va_until := None; va_superseded_by := None |})
  | Ok (start, end_) =>
      let plain := {| va_from := start; va_until := end_; va_superseded_by := None |} in
      unknown ← not_known known_as_of hit;
      if unknown : bool then Ok (NotYetKnown, plain)
      else
        match file with
        | VNone =>
            Ok (if after end_ now then Expired else if before start now then NotYetValid
                else if low_score hit threshold then LowConfidence else VerdictOk, plain)
        | _ =>
            ambiguous ← in_unresolved file unres;
            if ambiguous : bool then Ok (AmbiguousSupersession, plain)
            else
              let successor :=
                match file with
                | VStr s => if decide (s = "") then None
                            else resolve_successor edges edge_candidates known_as_of (Some now) windows s
                | _ => None
                end in
              let validity := {| va_from := start; va_until := end_; va_superseded_by := successor |} in
              Ok (match successor with
                  | Some _ => Superseded
                  | None => if after end_ now then Expired else if before start now then NotYetValid
                            else if low_score hit threshold then LowConfidence else VerdictOk
                  end, validity)
        end
  end.

(** ** [evaluate] *)

Record binding := {
  b_tenant_id : option string;
  b_generation_id : option string;
  b_pipeline_fingerprint : option string;
  b_corpus_fingerprint : option string
}.

Context (calibration : option Calibration) (now : datetime).
Context (known_as_of : option datetime) (dependency_projection : option DependencyProjection).
Context (dependency_mode : string).

Definition cal : Calibration := default uncalibrated calibration.

(** The key a hit's claims are looked up under. *)
Definition hit_key (g : SupersessionGraph) (c : Chunk) : option string :=
  match meta_get "file" (c_metadata c) with
  | VStr s => if decide (s = "") then None else Some (graph_key g s (Some (c_source c)))
  | _ => None
  end.

(** Authority, dependencies, and whether reading them raised. *)
Definition read_authority (meta : metadata) : Authority * list string * bool :=
  match authority_from_metadata meta with
  | Raise _ => (UnknownAuthority, [], true)
  | Ok a => match dependencies_from_metadata meta with
            | Raise _ => (a, [], true)
            | Ok deps => (a, deps, false)
            end
  end.

(** The invalidation the projection holds for a hit, when it is enforced. *)
Definition enforced_reason (c : Chunk) : option InvalidationReason :=
  match dependency_projection with
  | Some p => if decide (dependency_mode = "enforce") then reason_for p (key_for p c) else None
  | None => None
  end.

(** The body of the loop over the hits. *)
Definition judge (g : SupersessionGraph) (edge_candidates : option EdgeCandidates)
    (windows : option (gmap string Window)) (hit : ScoredChunk) :
    result (TrustedHit * option string) :=
  let chunk := sc_chunk hit in
  let meta := c_metadata chunk in
  let key := hit_key g chunk in
  vv ← verdict_of hit (g_edges g) (cal_threshold cal) now (g_unresolved g)
         (as_utc <$> known_as_of) edge_candidates windows key;
  let '(authority, dependencies, metadata_error) := read_authority meta in
  let verdict := if metadata_error then InvalidMetadata else vv.1 in
  let invalidation := if metadata_error then None else enforced_reason chunk in
  let verdict := match invalidation with
                 | Some _ => if decide (verdict = VerdictOk) then DependencyInvalidated else verdict
                 | None => verdict
                 end in
  Ok ({| th_chunk := chunk; th_cosine := sc_score hit; th_confidence := confidence exp cal (sc_score hit);
         th_verdict := verdict;
         th_provenance := {| pv_source := c_source chunk; pv_file := meta_get "file" meta;
                             pv_ord := meta_get "ord" meta; pv_indexed_at := sc_indexed_at hit;
                             pv_first_indexed_at := sc_first_indexed_at hit |};
         th_validity := vv.2; th_authority := authority; th_dependencies := dependencies;
         th_invalidation := invalidation |}, key).

(** [promoted_files]: the successors of superseded hits that scored high enough. *)
Definition promoted_files (judged : list (TrustedHit * option string)) : list string :=
  omap (fun hk : TrustedHit * option string =>
          let h := hk.1 in
          if decide (th_verdict h = Superseded /\ fge (th_cosine h) (cal_threshold cal) = true)
          then va_superseded_by (th_validity h) else None) judged.

Definition promote (promoted : list string) (hk : TrustedHit * option string) : TrustedHit :=
  let '(h, key) := hk in
  match key with
  | Some k =>
      if decide (th_verdict h = LowConfidence /\ k ∈ promoted)
      then with_verdict h (match th_invalidation h with Some _ => DependencyInvalidated | None => VerdictOk end)
      else h
  | None => h
  end.

Definition is_ok (h : TrustedHit) : Prop := th_verdict h = VerdictOk.

#[export] Instance is_ok_dec h : Decision (is_ok h).
Proof. unfold is_ok. apply _. Defined.

(** [evaluate]; the counters it increments are not modelled. *)
Definition evaluate (result_ : RetrievalResult) (supersession : supersession_arg) (unres : gset string)
    (edge_candidates : option EdgeCandidates) (calibration_id : option string)
    (calibration_status : option string) (bound : binding) (query_set_digest : option string) :
    result TrustedResult :=
  match supersession, edge_candidates with
  | OfGraph _, Some _ => Raise (ValueError "edge_candidates goes with a plain edge map")
  | _, _ =>
      let g := resolved_graph supersession unres in
      let candidates := match supersession with OfGraph _ => Some (g_candidates g) | PlainEdges _ => edge_candidates end in
      let windows := match supersession with OfGraph _ => Some (g_windows g) | PlainEdges _ => None end in
      judged ← result_mapM (judge g candidates windows) (rr_hits result_);
      let trusted := map (promote (promoted_files judged)) judged in
      let ok := filter is_ok trusted in
      let rest := filter (fun h => ~ is_ok h) trusted in
      let abstained := bool_decide (ok = []) in
      Ok {| tres_query := rr_query result_;
            tres_hits := ok ++ rest;
            tres_abstained := abstained;
            tres_reason := if abstained then Some (abstain_reason py_str rest) else None;
            tres_gap_warning := rr_gap_warning result_;
            tres_staleness := rr_staleness result_;
            tres_decision_state := Some (decision_state_for trusted (rr_gap_warning result_));
            tres_diagnostics := rr_diagnostics result_;
            tres_calibration_id := calibration_id;
            tres_calibration_status :=
              match calibration_status with
              | Some s => s
              | None => match calibration with Some _ => "legacy_unbound" | None => "missing" end
              end;
            tres_tenant_id := b_tenant_id bound;
            tres_generation_id := b_generation_id bound;
            tres_pipeline_fingerprint := b_pipeline_fingerprint bound;
            tres_corpus_fingerprint := b_corpus_fingerprint bound;
            tres_query_set_digest := query_set_digest;
            tres_trust_state := "trusted";
            tres_failure_code := None |}
  end.
End gate.

(** ** [order_promoted] *)

Definition with_hits (r : TrustedResult) (hits : list TrustedHit) : TrustedResult :=
  {| tres_query := tres_query r; tres_hits := hits; tres_abstained := tres_abstained r;
     tres_reason := tres_reason r; tres_gap_warning := tres_gap_warning r;
     tres_staleness := tres_staleness r; tres_decision_state := tres_decision_state r;
     tres_diagnostics := tres_diagnostics r; tres_calibration_id := tres_calibration_id r;
     tres_calibration_status := tres_calibration_status r; tres_tenant_id := tres_tenant_id r;
     tres_generation_id := tres_generation_id r;
     tres_pipeline_fingerprint := tres_pipeline_fingerprint r;
     tres_corpus_fingerprint := tres_corpus_fingerprint r;
     tres_query_set_digest := tres_query_set_digest r; tres_trust_state := tres_trust_state r;
     tres_failure_code := tres_failure_code r |}.

(** One turn of the loop that collects the lowest pool index per successor. *)
Definition inherit_step (pool_index : gmap string Z) (acc : gmap string Z) (h : TrustedHit) : gmap string Z :=
  match va_superseded_by (th_validity h), pool_index !! c_id (th_chunk h) with
  | Some target, Some index =>
      if decide (target = "") then acc
      else if decide (index < default (index + 1) (acc !! target)) then <[ target := index ]> acc else acc
  | _, _ => acc
  end.

Definition inherited (pool_index : gmap string Z) (hits : list TrustedHit) : gmap string Z :=
  foldl (inherit_step pool_index) ∅ hits.

Definition own_index (pool_index : gmap string Z) (h : TrustedHit) : Z :=
  default (Z.of_nat (size pool_index) + 1) (pool_index !! c_id (th_chunk h)).

Definition hit_file (h : TrustedHit) : string := default "" (as_str (pv_file (th_provenance h))).

(** The sort key of a hit: for [promoted_first] a pair, for [inherit] one index. *)
Definition order_key (pool_index inh : gmap string Z) (ordering : string) (h : TrustedHit) : Z * Z :=
  if decide (ordering = "promoted_first")
  then (match as_str (pv_file (th_provenance h)) ≫= fun f => inh !! f with Some _ => 0 | None => 1 end,
        own_index pool_index h)
  else (default (own_index pool_index h) (inh !! hit_file h), 0).

Definition key_leb (a b : Z * Z) : bool :=
  (a.1 <? b.1) || ((a.1 =? b.1) && (a.2 <=? b.2)).

Definition order_promoted (trusted : TrustedResult) (pool_index : gmap string Z) (ordering : string) : TrustedResult :=
  if decide (ordering = "pool") then trusted
  else
    let ok := filter is_ok (tres_hits trusted) in
    let rest := filter (fun h => ~ is_ok h) (tres_hits trusted) in
    if decide (ok = []) then trusted
    else
      let inh := inherited pool_index (tres_hits trusted) in
      with_hits trusted
        (stable_sort (fun a b => key_leb (order_key pool_index inh ordering a) (order_key pool_index inh ordering b)) ok
         ++ rest).

(** ** Properties *)

(** Whether a dense score clears the threshold; a structural score is not compared. *)
Definition confident (hit : ScoredChunk) (threshold : float) : Prop :=
  sc_kind hit = Structural \/
  (isfinite (sc_score hit) = true /\ isfinite threshold = true /\ fge (sc_score hit) threshold = true).

Lemma low_score_false hit threshold : low_score hit threshold = false <-> confident hit threshold.
Proof.
  unfold low_score, confident. destruct (sc_kind hit); [|split; [by left|done]].
  destruct (isfinite (sc_score hit)) eqn:Hs, (isfinite threshold) eqn:Ht; simpl;
    try (split; [done|]; intros [?|(? & ? & ?)]; done).
  rewrite flt_false_fge by by apply isfinite_not_nan. split; [by right|]. intros [?|(_ & _ & ?)]; done.
Qed.

Definition within (start end_ : option Z) (now : datetime) : Prop :=
  (forall s, start = Some s -> s <= instant now) /\ (forall e, end_ = Some e -> instant now <= e).

Lemma within_spec start end_ now :
  after end_ now = false /\ before start now = false <-> within start end_ now.
Proof.
  unfold within.
  assert (Hb : before start now = false <-> forall s, start = Some s -> s <= instant now).
  { unfold before. destruct start as [s|]; [rewrite bool_decide_eq_false|by split].
    split; [intros ? ? [= <-]; lia|]. intros Hs. specialize (Hs s eq_refl). lia. }
  assert (Ha : after end_ now = false <-> forall e, end_ = Some e -> instant now <= e).
  { unfold after. destruct end_ as [e|]; [rewrite bool_decide_eq_false|by split].
    split; [intros ? ? [= <-]; lia|]. intros Hs. specialize (Hs e eq_refl). lia. }
  tauto.
Qed.

Lemma window_verdict start end_ now hit threshold :
  (if after end_ now then Expired else if before start now then NotYetValid
   else if low_score hit threshold then LowConfidence else VerdictOk) = VerdictOk <->
  within start end_ now /\ confident hit threshold.
Proof.
  rewrite <-within_spec, <-low_score_false.
  destruct (after end_ now), (before start now), (low_score hit threshold); naive_solver.
Qed.
(** C14: what makes a hit [ok].  A hit that names a memory is judged [ok] if and only
    if its validity metadata can be read, it had been written by the replay instant
    (when there is one, and unless its write time is unknown), it is not a candidate
    of an ambiguous claim, no successor hides it, the instant lies in its validity
    window, and its score is structural, or finite and at least a finite threshold:
    a NaN is never [ok]. *)
Theorem verdict_ok_exact hit edges threshold now unres known ec windows key v :
  verdict_of hit edges threshold now unres known ec windows (Some key) = Ok (VerdictOk, v) <->
  exists start end_,
    validity_bounds (c_metadata (sc_chunk hit)) = Ok (start, end_) /\
    not_known known hit = Ok false /\
    key ∉ unres /\
    (key <> "" -> resolve_successor edges ec known (Some now) windows key = None) /\
    within start end_ now /\ confident hit threshold /\
    v = {| va_from := start; va_until := end_; va_superseded_by := None |}.
Proof.
  unfold verdict_of. cbn [lookup_name in_unresolved].
  destruct (validity_bounds (c_metadata (sc_chunk hit))) as [[start end_]|e]; [|(split; [done|by intros (? & ? & ? & _)])].
  destruct (not_known known hit) as [[|]|e]; cbn [mbind result_bind];
    [split; [done|by intros (? & ? & _ & ? & _)]| |split; [done|by intros (? & ? & _ & ? & _)]].
  case_bool_decide as Hun; [split; [done|by intros (? & ? & _ & _ & ? & _)]|].
  destruct (decide (key = "")) as [->|Hk].
  - split.
    + intros Hok. injection Hok as Hw <-. destruct (proj1 (window_verdict start end_ now hit threshold) Hw). exists start, end_. by split_and!.
    + intros (? & ? & [= <- <-] & _ & _ & _ & Hw & Hc & ->).
      by rewrite (proj2 (window_verdict start end_ now hit threshold)).
  - destruct (resolve_successor edges ec known (Some now) windows key) as [s|].
    + split; [done|]. intros (? & ? & _ & _ & _ & Hs & _). by specialize (Hs Hk).
    + split.
      * intros Hok. injection Hok as Hw <-. destruct (proj1 (window_verdict start end_ now hit threshold) Hw). exists start, end_. by split_and!.
      * intros (? & ? & [= <- <-] & _ & _ & _ & Hw & Hc & ->).
        by rewrite (proj2 (window_verdict start end_ now hit threshold)).
Qed.

(** *** What [evaluate] builds *)

Section evaluate_lemmas.
Context (py_str : value -> string) (exp : float -> float).
Context (calibration : option Calibration) (now : datetime).
Context (known_as_of : option datetime) (projection : option DependencyProjection) (dependency_mode : string).
Context (supersession : supersession_arg) (unres : gset string) (edge_candidates : option EdgeCandidates).

Definition graph_of : SupersessionGraph := resolved_graph supersession unres.
Definition candidates_used : option EdgeCandidates :=
  match supersession with OfGraph _ => Some (g_candidates graph_of) | PlainEdges _ => edge_candidates end.
Definition windows_used : option (gmap string Window) :=
  match supersession with OfGraph _ => Some (g_windows graph_of) | PlainEdges _ => None end.

Abbreviation judge_one := (judge exp calibration now known_as_of projection dependency_mode
                            graph_of candidates_used windows_used).
Abbreviation threshold := (cal_threshold (cal calibration)).
Abbreviation run result_ cid cst bound qs :=
  (evaluate py_str exp calibration now known_as_of projection dependency_mode result_ supersession unres
     edge_candidates cid cst bound qs).

(** A hit's own verdict, before dependencies and promotion. *)
Definition own_verdict (hit : ScoredChunk) : result (Verdict * Validity) :=
  verdict_of hit (g_edges graph_of) threshold now (g_unresolved graph_of) (as_utc <$> known_as_of)
    candidates_used windows_used (hit_key graph_of (sc_chunk hit)).

Lemma evaluate_ok result_ cid cst bound qs r :
  run result_ cid cst bound qs = Ok r ->
  exists judged, Forall2 (fun hit hk => judge_one hit = Ok hk) (rr_hits result_) judged /\
    let trusted := map (promote (promoted_files calibration judged)) judged in
    tres_hits r = filter is_ok trusted ++ filter (fun h => ~ is_ok h) trusted /\
    tres_abstained r = bool_decide (filter is_ok trusted = []) /\
    tres_reason r = (if bool_decide (filter is_ok trusted = [])
                     then Some (abstain_reason py_str (filter (fun h => ~ is_ok h) trusted)) else None) /\
    tres_decision_state r = Some (decision_state_for trusted (rr_gap_warning result_)).
Proof.
  unfold evaluate. destruct supersession as [edges|g] eqn:Hs; [|destruct edge_candidates eqn:He; [done|]].
  all: rewrite bind_ok; intros (judged & Hj & [= <-]); exists judged; split; [|done].
  all: apply result_mapM_ok in Hj; eapply Forall2_impl; [exact Hj|]; intros hit hk Hhk.
  all: unfold candidates_used, windows_used, graph_of; rewrite Hs; try rewrite He; exact Hhk.
Qed.

(** What judging one hit decides. *)
Lemma judge_spec hit h k :
  judge_one hit = Ok (h, k) ->
  k = hit_key graph_of (sc_chunk hit) /\ th_chunk h = sc_chunk hit /\ th_cosine h = sc_score hit /\
  exists v, own_verdict hit = Ok (v, th_validity h) /\
    (th_verdict h = VerdictOk <->
       v = VerdictOk /\ (read_authority (c_metadata (sc_chunk hit))).2 = false /\
       th_invalidation h = None) /\
    (th_verdict h = LowConfidence ->
       v = LowConfidence /\ (read_authority (c_metadata (sc_chunk hit))).2 = false) /\
    (th_verdict h = Superseded -> v = Superseded) /\
    ((read_authority (c_metadata (sc_chunk hit))).2 = false ->
       th_invalidation h = enforced_reason projection dependency_mode (sc_chunk hit)).
Proof.
  unfold judge. fold (own_verdict hit). rewrite bind_ok. intros ([v va] & Hv & Hrest).
  destruct (read_authority (c_metadata (sc_chunk hit))) as [[a d] err] eqn:Hr.
  injection Hrest as <- <-. split_and!; try done. exists v. cbn [fst snd th_verdict th_validity th_invalidation].
  split; [done|]. destruct err; cbn [negb].
  - split_and!; try done. split; [done|]. by intros (_ & ? & _).
  - destruct (enforced_reason projection dependency_mode (sc_chunk hit)) as [ir|]; [case_decide as Hok|];
      split_and!; try done; try (split; [done|by intros (_ & _ & ?)]); try (by intros ->).
    split; [intros ->; by split_and!|]. by intros (-> & _).
Qed.

Lemma promote_chunk ps hk : th_chunk (promote ps hk) = th_chunk hk.1.
Proof. destruct hk as [h [k|]]; simpl; [|done]. by case_decide. Qed.

Lemma promote_ok ps h k :
  is_ok (promote ps (h, k)) <->
  is_ok h \/ (th_verdict h = LowConfidence /\ th_invalidation h = None /\ exists key, k = Some key /\ key ∈ ps).
Proof.
  unfold is_ok. destruct k as [k|]; simpl.
  - case_decide as Hp; [destruct Hp as [Hv Hk]|].
    + destruct (th_invalidation h) eqn:Hi; simpl; rewrite Hv.
      * split; [done|]. by intros [?|(_ & ? & _)].
      * split; [|done]. intros _. right. split_and!; [done..|]. by exists k.
    + split; [by left|]. intros [?|(? & _ & key & [= <-] & ?)]; [done|]. tauto.
  - split; [by left|]. by intros [?|(_ & _ & ? & ? & _)].
Qed.

Lemma promote_keeps ps hk :
  th_validity (promote ps hk) = th_validity hk.1 /\ th_cosine (promote ps hk) = th_cosine hk.1 /\
  th_invalidation (promote ps hk) = th_invalidation hk.1 /\
  (th_verdict hk.1 = Superseded -> th_verdict (promote ps hk) = Superseded).
Proof.
  destruct hk as [h [k|]]; simpl; [|done]. case_decide as Hp; simpl; [|done]. split_and!; try done.
  destruct Hp as [-> _]. done.
Qed.
End evaluate_lemmas.

Lemma map_promote_chunks ps judged :
  map th_chunk (map (promote ps) judged) = map (fun hk => th_chunk hk.1) judged.
Proof. rewrite map_map. apply map_ext. intros hk. apply promote_chunk. Qed.

(** Evaluation loses no hit, orders valid first, and abstains exactly when nothing
    is valid.  The hits returned are the hits retrieved, each once; the [ok] ones come
    first and both groups keep the order of retrieval; it abstains if and only if no
    hit is [ok], and a reason is given exactly then. *)
Theorem evaluate_orders_and_abstains py_str exp calibration now known projection mode result_ supersession
    unres ec cid cst bound qs r :
  evaluate py_str exp calibration now known projection mode result_ supersession unres ec cid cst bound qs = Ok r ->
  map th_chunk (tres_hits r) ≡ₚ map sc_chunk (rr_hits result_) /\
  (exists ok rest, tres_hits r = ok ++ rest /\ Forall is_ok ok /\ Forall (fun h => ~ is_ok h) rest /\
     map th_chunk ok `sublist_of` map sc_chunk (rr_hits result_) /\
     map th_chunk rest `sublist_of` map sc_chunk (rr_hits result_)) /\
  (tres_abstained r = true <-> forall h, h ∈ tres_hits r -> ~ is_ok h) /\
  (tres_reason r <> None <-> tres_abstained r = true).
Proof.
  intros (judged & Hj & Hhits & Habs & Hreason & _)%evaluate_ok.
  set (trusted := map _ judged) in *.
  assert (Hchunks : map th_chunk trusted = map sc_chunk (rr_hits result_)).
  { unfold trusted. rewrite map_promote_chunks. clear -Hj.
    induction Hj as [|hit hk hits judged H1 H2 IH]; simpl; [done|]. f_equal; [|done].
    destruct hk as [h k]. cbn [fst]. by apply judge_spec in H1 as (_ & -> & _). }
  assert (Hsub : forall (P : TrustedHit -> Prop) `{!forall h, Decision (P h)},
            map th_chunk (filter P trusted) `sublist_of` map sc_chunk (rr_hits result_)).
  { intros P HP. rewrite <-Hchunks. apply (fmap_sublist th_chunk), sublist_filter. }
  split_and!.
  - rewrite Hhits, <-Hchunks. apply (fmap_Permutation th_chunk), filter_app_complement.
  - exists (filter is_ok trusted), (filter (fun h => ~ is_ok h) trusted).
    split_and!; [done| | |apply Hsub|apply Hsub]; apply Forall_forall; intros h [? _]%list_elem_of_filter; done.
  - rewrite Habs, bool_decide_eq_true, Hhits. split.
    + intros -> h [?%not_elem_of_nil|[? _]%list_elem_of_filter]%elem_of_app; done.
    + intros Hno. destruct (filter is_ok trusted) as [|h l] eqn:Hok; [done|]. exfalso.
      assert (Hh : h ∈ filter is_ok trusted) by (rewrite Hok; by left).
      apply (Hno h); [by left|]. by apply list_elem_of_filter in Hh as [? _].
  - rewrite Hreason, Habs. by case_bool_decide; split.
Qed.

(** What a served memory has been checked for.  An [ok] hit of the result comes
    from a retrieved hit whose validity and graph metadata could be read; no enforced
    dependency invalidation applies to it; it was known at the replay instant, lies
    in its window, is no candidate of an ambiguous claim and has no successor; and its
    score is confident, or it was promoted: it was only low, and some superseded hit
    of the same result whose score is at least the threshold names it as its successor. *)
Theorem served_hit_checked py_str exp calibration now known projection mode result_ supersession
    unres ec cid cst bound qs r h :
  evaluate py_str exp calibration now known projection mode result_ supersession unres ec cid cst bound qs = Ok r ->
  h ∈ tres_hits r -> is_ok h ->
  let g := graph_of supersession unres in
  exists hit v va, hit ∈ rr_hits result_ /\ th_chunk h = sc_chunk hit /\
    own_verdict calibration now known supersession unres ec hit = Ok (v, va) /\
    th_validity h = va /\ va_superseded_by va = None /\
    (read_authority (c_metadata (sc_chunk hit))).2 = false /\
    enforced_reason projection mode (sc_chunk hit) = None /\
    (v = VerdictOk \/
     (v = LowConfidence /\ exists key hs, hit_key g (sc_chunk hit) = Some key /\ hs ∈ tres_hits r /\
        th_verdict hs = Superseded /\ va_superseded_by (th_validity hs) = Some key /\
        fge (th_cosine hs) (cal_threshold (cal calibration)) = true)).
Proof.
  intros (judged & Hj & Hhits & _)%evaluate_ok. set (ps := promoted_files calibration judged) in *.
  set (trusted := map _ judged) in *. rewrite Hhits. intros Hin Hok g.
  assert (Htr : h ∈ trusted).
  { apply elem_of_app in Hin as [[_ ?]%list_elem_of_filter|[_ ?]%list_elem_of_filter]; done. }
  unfold trusted in Htr. apply list_elem_of_fmap in Htr as ([h0 k] & -> & Hjk).
  pose proof (promote_keeps ps (h0, k)) as (Hva & _ & Hinv & _). cbn [fst] in *.
  apply list_elem_of_lookup in Hjk as [i Hi]. pose proof (Forall2_lookup_r _ _ _ _ _ Hj Hi) as (hit & Hhit & Hone).
  apply judge_spec in Hone as (-> & Hch & _ & v & Hv & Hvok & Hvlow & _ & Hreason).
  assert (Hnosucc : v = VerdictOk \/ v = LowConfidence -> va_superseded_by (th_validity h0) = None).
  { intros Hvv. revert Hv. unfold own_verdict, verdict_of. clear -Hvv.
    destruct (validity_bounds _) as [[s e]|]; [|intros [= <- _]; by destruct Hvv].
    destruct (not_known _ _) as [[|]|]; cbn [mbind result_bind]; try done; [intros [= <- _]; by destruct Hvv|].
    destruct (lookup_name _ _) eqn:Hl; cbn [in_unresolved mbind result_bind]; try done;
      try (intros [= _ <-]; done).
    case_bool_decide; [intros [= <- _]; by destruct Hvv|].
    destruct (if decide (s0 = "") then None else _) as [x|]; intros [= <- <-]; [by destruct Hvv|done]. }
  apply promote_ok in Hok. exists hit, v, (th_validity h0). rewrite promote_chunk, Hva. cbn [fst].
  destruct Hok as [Hown|(Hlow & Hni & key & Hk & Hps)].
  - apply Hvok in Hown as (-> & Hr & Hni). split_and!; try done.
    + by eapply list_elem_of_lookup_2.
    + apply Hnosucc. by left.
    + rewrite <-Hreason by done. done.
    + by left.
  - apply Hvlow in Hlow as [-> Hr]. split_and!; try done.
    + by eapply list_elem_of_lookup_2.
    + apply Hnosucc. by right.
    + rewrite <-Hreason by done. done.
    + right. split; [done|]. unfold ps, promoted_files in Hps. apply list_elem_of_omap in Hps as ([hs ks] & Hs & Hsv).
      cbn [fst] in Hsv. case_decide as Hsup; [|done]. destruct Hsup as [Hsup Hge].
      pose proof (promote_keeps ps (hs, ks)) as (Hva' & Hcos & _ & Hsup'). cbn [fst] in *.
      exists key, (promote ps (hs, ks)). rewrite Hva', Hcos. split_and!; try done; [|auto].
      apply elem_of_app. right. apply list_elem_of_filter. split; [unfold is_ok; by rewrite Hsup'|].
      unfold trusted. apply list_elem_of_fmap. by exists (hs, ks).
Qed.

(** *** The order of promoted hits *)

Lemma key_leb_total a b : key_leb a b = true \/ key_leb b a = true.
Proof. unfold key_leb. destruct a as [a1 a2], b as [b1 b2]. simpl. lia. Qed.

(** The index a successor inherits is the lowest any hit naming it has in the pool. *)
Lemma inherited_lowest pool_index hits target i :
  inherited pool_index hits !! target = Some i <->
  target <> "" /\
  (exists h, h ∈ hits /\ va_superseded_by (th_validity h) = Some target /\ pool_index !! c_id (th_chunk h) = Some i) /\
  (forall h j, h ∈ hits -> va_superseded_by (th_validity h) = Some target ->
     pool_index !! c_id (th_chunk h) = Some j -> i <= j).
Proof.
  set (names := fun (h : TrustedHit) (j : Z) => va_superseded_by (th_validity h) = Some target /\
                  pool_index !! c_id (th_chunk h) = Some j /\ target <> "").
  assert (Hspec : forall hits, match inherited pool_index hits !! target with
    | Some i => (exists h, h ∈ hits /\ names h i) /\ forall h j, h ∈ hits -> names h j -> i <= j
    | None => forall h j, h ∈ hits -> ~ names h j
    end).
  { clear. intros hits. unfold inherited.
    induction hits as [|h hits IH] using rev_ind; cbn [foldl]; [rewrite lookup_empty; by intros h j ?%not_elem_of_nil|].
    rewrite foldl_snoc. set (acc := foldl _ _ _) in *. unfold inherit_step.
    assert (Hin : forall x, x ∈ hits ++ [h] <-> x ∈ hits \/ x = h)
      by (intros x; by rewrite elem_of_app, list_elem_of_singleton).
    assert (Hskip : (forall j, ~ names h j) ->
      match acc !! target with
      | Some i => (exists x, x ∈ hits ++ [h] /\ names x i) /\ forall x j, x ∈ hits ++ [h] -> names x j -> i <= j
      | None => forall x j, x ∈ hits ++ [h] -> ~ names x j
      end).
    { intros Hno. destruct (acc !! target) as [i|].
      - destruct IH as [(x & Hx & Hxi) Hmin]. split; [exists x; split; [apply Hin; by left|done]|].
        intros y j [Hy| ->]%Hin Hyj; [by eapply Hmin|]. by destruct (Hno j).
      - intros y j [Hy| ->]%Hin; [by apply IH|apply Hno]. }
    destruct (va_superseded_by (th_validity h)) as [t|] eqn:Ht; [|apply Hskip; intros j (? & _ & _); congruence].
    destruct (pool_index !! c_id (th_chunk h)) as [k|] eqn:Hk; [|apply Hskip; intros j (_ & ? & _); congruence].
    case_decide as Hte; [apply Hskip; intros j (? & _ & ?); congruence|].
    destruct (decide (t = target)) as [->|Htt].
    2:{ assert (Hno : forall j, ~ names h j) by (intros j (? & _ & _); congruence).
        case_decide; [rewrite lookup_insert_ne by done|]; by apply Hskip. }
    assert (Hname : names h k) by done.
    case_decide as Hlt.
    - rewrite lookup_insert_eq. split; [exists h; split; [apply Hin; by right|done]|].
      intros y j [Hy| ->]%Hin Hyj; [|destruct Hyj as (_ & ? & _); simplify_eq; lia].
      destruct (acc !! target) as [i|]; [|by destruct (IH y j Hy)]. simpl in Hlt.
      destruct IH as [_ Hmin]. specialize (Hmin y j Hy Hyj). lia.
    - destruct (acc !! target) as [i|]; simpl in Hlt; [|lia]. destruct IH as [(x & Hx & Hxi) Hmin]. split.
      + exists x. split; [apply Hin; by left|done].
      + intros y j [Hy| ->]%Hin Hyj; [by eapply Hmin|]. destruct Hyj as (_ & ? & _). simplify_eq. lia. }
  specialize (Hspec hits). unfold names in Hspec. split.
  - intros Hi. rewrite Hi in Hspec. destruct Hspec as [(h & Hh & ? & ? & ?) Hmin]. split_and!; [done|by exists h|].
    intros x j Hx Hs Hp. by apply (Hmin x j).
  - intros (Hne & (h & Hh & Hs & Hp) & Hmin). destruct (inherited pool_index hits !! target) as [i'|].
    + destruct Hspec as [(x & Hx & Hxs & Hxp & _) Hmin']. f_equal.
      specialize (Hmin x i' Hx Hxs Hxp). specialize (Hmin' h i Hh). assert (i' <= i) by (apply Hmin'; done). lia.
    + by destruct (Hspec h i Hh).
Qed.

(** Reordering promoted hits only reorders them.  It keeps every hit, leaves the
    demoted ones in their order behind, sorts the [ok] ones by their key and keeps the
    order of those with equal keys; with [pool] it changes nothing.  The key inherited
    by a successor is the lowest pool index of the superseded hits naming it. *)
Theorem order_promoted_stable trusted pool_index ordering :
  let r := order_promoted trusted pool_index ordering in
  let key := order_key pool_index (inherited pool_index (tres_hits trusted)) ordering in
  tres_hits r ≡ₚ tres_hits trusted /\
  filter (fun h => ~ is_ok h) (tres_hits r) = filter (fun h => ~ is_ok h) (tres_hits trusted) /\
  (ordering = "pool" -> r = trusted) /\
  (ordering <> "pool" ->
     Sorted (fun a b => key_leb (key a) (key b) = true) (filter is_ok (tres_hits r)) /\
     forall k, filter (fun h => key h = k) (filter is_ok (tres_hits r)) =
               filter (fun h => key h = k) (filter is_ok (tres_hits trusted))).
Proof.
  cbn zeta. set (key := order_key _ _ _). unfold order_promoted. fold key. case_decide as Hp.
  { split_and!; [done|done|done|]. done. }
  set (leb := fun a b => key_leb (key a) (key b)).
  set (ok := filter is_ok (tres_hits trusted)). set (rest := filter (fun h => ~ is_ok h) (tres_hits trusted)).
  case_decide as Hnil.
  { split_and!; [done..|]. intros _. fold ok. rewrite Hnil. split; [constructor|done]. }
  cbn [tres_hits with_hits].
  assert (Hokok : forall h, h ∈ stable_sort leb ok -> is_ok h).
  { intros h. rewrite stable_sort_perm. unfold ok. by intros [? _]%list_elem_of_filter. }
  assert (Hrest : forall h, h ∈ rest -> ~ is_ok h) by (intros h [? _]%list_elem_of_filter; done).
  assert (Hf1 : filter is_ok (stable_sort leb ok ++ rest) = stable_sort leb ok).
  { rewrite filter_app, (list_filter_all is_ok), (list_filter_none is_ok rest), app_nil_r; [done|..].
    all: apply Forall_forall; auto. }
  assert (Hf2 : filter (fun h => ~ is_ok h) (stable_sort leb ok ++ rest) = rest).
  { rewrite filter_app, (list_filter_none _ (stable_sort leb ok)), list_filter_all; [done| |];
      apply Forall_forall; [auto|]. intros h Hh Hn. by apply Hn, Hokok. }
  split_and!.
  - rewrite stable_sort_perm. apply filter_app_complement.
  - exact Hf2.
  - done.
  - intros _. rewrite Hf1. split.
    + apply (stable_sort_sorted leb). intros x y. apply key_leb_total.
    + intros k. apply stable_sort_stable. intros x y <- Hxy. unfold leb. rewrite Hxy.
      unfold key_leb. rewrite Z.eqb_refl. lia.
Qed.

(** *** Witnesses: an old memo hidden by its successor, which scores low *)

Definition demo_hit (file : string) (score : Z) : ScoredChunk :=
  {| sc_chunk := {| c_id := file; c_source := "/r/" +:+ file; c_text := "";
                    c_metadata := [("file", VStr file)] |};
     sc_score := float_of_decimal score 2; sc_indexed_at := Some (Aware 5);
     sc_first_indexed_at := Some (Aware 5); sc_kind := DenseCosine |}.

Definition demo_retrieval : RetrievalResult :=
  {| rr_query := "q"; rr_hits := [demo_hit "old.md" 90; demo_hit "new.md" 30; demo_hit "far.md" 20];
     rr_gap_warning := false;
     rr_staleness := {| st_stale := false; st_newest := None; st_age := None; st_max_age := 0 |};
     rr_diagnostics := {| rd_embedding_profile := "p"; rd_retrieval_profile := "p"; rd_index_generation := "g";
       rd_candidate_pool_size := 20; rd_reranking_ran := false; rd_stage_ms := []; rd_max_dense_score := None;
       rd_unknown_term_check := "not_run"; rd_unknown_terms := [] |} |}.

Definition no_binding : binding :=
  {| b_tenant_id := None; b_generation_id := None; b_pipeline_fingerprint := None; b_corpus_fingerprint := None |}.

Definition demo_evaluation : result TrustedResult :=
  evaluate (fun _ => "") (fun _ => one) None (Aware 10) None None "off" demo_retrieval
    (PlainEdges {[ "old.md" := "new.md" ]}) ∅ None None None no_binding None.

Definition demo_trusted : TrustedResult :=
  match demo_evaluation with Ok r => r | Raise _ =>
    {| tres_query := ""; tres_hits := []; tres_abstained := true; tres_reason := None; tres_gap_warning := false;
       tres_staleness := rr_staleness demo_retrieval; tres_decision_state := None;
       tres_diagnostics := rr_diagnostics demo_retrieval; tres_calibration_id := None;
       tres_calibration_status := ""; tres_tenant_id := None; tres_generation_id := None;
       tres_pipeline_fingerprint := None; tres_corpus_fingerprint := None; tres_query_set_digest := None;
       tres_trust_state := ""; tres_failure_code := None |} end.

Lemma demo_evaluation_ok : demo_evaluation = Ok demo_trusted.
Proof. vm_compute. reflexivity. Qed.

Example demo_verdicts : map (fun h => (c_id (th_chunk h), th_verdict h)) (tres_hits demo_trusted) =
  [("new.md", VerdictOk); ("old.md", Superseded); ("far.md", LowConfidence)].
Proof. vm_compute. reflexivity. Qed.

Lemma evaluate_orders_and_abstains_witness :
  tres_abstained demo_trusted = false /\
  map th_chunk (tres_hits demo_trusted) ≡ₚ map sc_chunk (rr_hits demo_retrieval).
Proof.
  split; [vm_compute; reflexivity|].
  exact (proj1 (evaluate_orders_and_abstains _ _ _ _ _ _ _ _ _ _ _ _ _ _ _ _ demo_evaluation_ok)).
Defined.

Definition promoted_hit : TrustedHit :=
  match tres_hits demo_trusted with h :: _ => h | [] =>
    {| th_chunk := sc_chunk (demo_hit "" 0); th_cosine := zero; th_confidence := zero; th_verdict := VerdictOk;
       th_provenance := {| pv_source := ""; pv_file := VNone; pv_ord := VNone; pv_indexed_at := None;
         pv_first_indexed_at := None |};
       th_validity := {| va_from := None; va_until := None; va_superseded_by := None |};
       th_authority := UnknownAuthority; th_dependencies := []; th_invalidation := None |} end.

Lemma served_hit_checked_witness :
  c_id (th_chunk promoted_hit) = "new.md" /\
  exists hit v va, hit ∈ rr_hits demo_retrieval /\ th_chunk promoted_hit = sc_chunk hit /\
    own_verdict None (Aware 10) None (PlainEdges {[ "old.md" := "new.md" ]}) ∅ None hit = Ok (v, va) /\
    va_superseded_by va = None.
Proof.
  split; [vm_compute; reflexivity|].
  assert (Hin : promoted_hit ∈ tres_hits demo_trusted).
  { apply list_elem_of_lookup. exists 0%nat. vm_compute. reflexivity. }
  destruct (served_hit_checked _ _ _ _ _ _ _ _ _ _ _ _ _ _ _ _ promoted_hit demo_evaluation_ok Hin
              ltac:(vm_compute; reflexivity)) as (hit & v & va & H1 & H2 & H3 & _ & H4 & _).
  exists hit, v, va. split; [exact H1|]. split; [exact H2|]. split; [exact H3|exact H4].
Defined.
