(* ===== verification/Scope.v ===== *)
(** * Scope: which region of the corpus a retrieval may draw from (src/recall/scope.py)

    The scope value and its checks, the SQL predicate it renders, and how one scope
    is made of the two ways a caller can express one.  What Postgres answers for the
    rendered predicate is not code of the repository: the class [SqlLike] states
    what the code relies on of [LIKE]. *)
From S2P Require Import Prelude Text.
From stdpp Require Import pretty.

Local Open Scope nat_scope.

(** ** Paths with either separator *)

Definition is_slash (c : ascii) : bool := bool_decide (c = "/"%char).

(** [s.strip("/")] on characters. *)
Definition strip_slash_chars (l : list ascii) : list ascii :=
  reverse (drop_while is_slash (reverse (drop_while is_slash l))).

(** [s.replace("\\", "/").strip("/")]. *)
Definition backslash : ascii := Ascii.ascii_of_nat 92.

Definition slashes_only (s : string) : list ascii :=
  map (fun c => if decide (c = backslash) then "/"%char else c) (chars s).

Definition normalize_path (s : string) : string := unchars (strip_slash_chars (slashes_only s)).

(** [source == prefix or source.startswith(prefix + "/")]. *)
Definition covers (prefix source : string) : bool :=
  bool_decide (source = prefix) || starts_with source (prefix +:+ "/").

(** [posixpath.dirname]: up to the last slash, without the slashes that end it
    unless there is nothing else. *)
Definition dirname (p : string) : string :=
  let head := reverse (drop_while (fun c => negb (is_slash c)) (reverse (chars p))) in
  if forallb is_slash head then unchars head
  else unchars (reverse (drop_while is_slash (reverse head))).

(** [folder_of]. *)
Definition folder_of (file : string) : string := dirname (normalize_path file).

Example folder_of_ex1 : folder_of "python/notes.md" = "python". Proof. reflexivity. Qed.
Example folder_of_ex2 : folder_of "notes.md" = "". Proof. reflexivity. Qed.
Example folder_of_ex3 : folder_of "\a\b\c.md" = "a/b". Proof. reflexivity. Qed.

(** ** Escaping *)

(** [_escape_like]: three replacements, one after the other; each doubles or
    escapes a character the later ones do not write. *)
Definition escape_char (special : ascii) (l : list ascii) : list ascii :=
  l ≫= fun c => if decide (c = special) then [backslash; c] else [c].

Definition escape_like_chars (l : list ascii) : list ascii :=
  escape_char "_"%char (escape_char "%"%char (escape_char backslash l)).

Definition escape_like (s : string) : string := unchars (escape_like_chars (chars s)).

(** [_escape_like_prefix] and [_like_prefix]. *)
Definition escape_like_prefix (s : string) : string := escape_like s +:+ "/%".
Definition like_prefix (folder : string) : string := escape_like_prefix folder.

(** [re.escape]: the characters of [re._special_chars_map]. *)
Definition re_special : list ascii :=
  chars "()[]{}?*+-|^$\.&~# " ++ map Ascii.ascii_of_nat [9; 10; 13; 11; 12].

Definition re_escape (s : string) : string :=
  unchars (chars s ≫= fun c => if decide (c ∈ re_special) then [backslash; c] else [c]).

(** [_source_prefix_regex_pattern]. *)
Definition source_prefix_regex_pattern (prefix : string) : string :=
  "^" +:+ re_escape (normalize_path prefix) +:+ "(?:/.*)?$".

(** ** The scope *)

Record Scope := {
  scp_source : option string;
  scp_folder : option string;
  scp_facet : option string;
  scp_source_prefixes : option (list string);
  scp_security_policy_digest : option string
}.

#[export] Instance Scope_eq_dec : EqDecision Scope.
Proof. solve_decision. Defined.

Definition empty_scope : Scope :=
  {| scp_source := None; scp_folder := None; scp_facet := None;
     scp_source_prefixes := None; scp_security_policy_digest := None |}.

Definition blank (s : string) : bool := bool_decide (strip s = "").

Definition blank_option (o : option string) : bool := match o with Some s => blank s | None => false end.

(** [Scope.__post_init__]. *)
Definition check_scope (s : Scope) : result Scope :=
  if blank_option (scp_source s) || blank_option (scp_folder s) || blank_option (scp_facet s)
  then Raise (ValueError "was empty or whitespace")
  else if existsb blank (default [] (scp_source_prefixes s))
  then Raise (ValueError "source_prefixes must contain non empty strings")
  else if blank_option (scp_security_policy_digest s)
  then Raise (ValueError "security_policy_digest must be a non empty string or None")
  else Ok s.

(** [Scope.is_empty]. *)
Definition is_empty (s : Scope) : bool := bool_decide (s = empty_scope).

(** [Scope.normalized_folder] and [Scope.normalized_facet]. *)
Definition normalized_folder (s : Scope) : option string := normalize_path <$> scp_folder s.
Definition normalized_facet (s : Scope) : option string := (fun f => lower (strip f)) <$> scp_facet s.

(** [coerce_scope]. *)
Definition coerce_scope (scope : option Scope) (source : option string) : result Scope :=
  match scope, source with
  | None, None => Ok empty_scope
  | None, Some s =>
      check_scope {| scp_source := Some s; scp_folder := None; scp_facet := None;
                     scp_source_prefixes := None; scp_security_policy_digest := None |}
  | Some _, Some _ => Raise (ValueError "pass either scope= or source=, not both")
  | Some s, None => Ok s
  end.

(** ** The SQL predicate *)

(** [str.isidentifier] on Latin-1 text. *)
Definition identifier_start (c : ascii) : bool :=
  let n := code c in
  ((65 <=? n) && (n <=? 90)) || ((97 <=? n) && (n <=? 122)) || (n =? 95) || (n =? 170) || (n =? 181)
  || (n =? 186) || ((192 <=? n) && negb (n =? 215) && negb (n =? 247)).

Definition identifier_char (c : ascii) : bool :=
  identifier_start c || ((48 <=? code c) && (code c <=? 57)) || (code c =? 183).

Definition is_identifier (s : string) : bool :=
  match chars s with
  | [] => false
  | c :: l => identifier_start c && forallb identifier_char l
  end.

(** [group_expression] for its two dimensions, on the table [GROUP_SQL]. *)
Inductive Dimension := FolderDimension | FacetDimension.

Definition dimension_of (name : string) : option Dimension :=
  if decide (name = "folder") then Some FolderDimension
  else if decide (name = "facet") then Some FacetDimension else None.

Definition GROUP_SQL (d : Dimension) (a : string) : string :=
  match d with
  | FolderDimension =>
      "CASE WHEN position('/' in " +:+ a +:+ ".metadata->>'file') > 0 " +:+
      "THEN regexp_replace(" +:+ a +:+ ".metadata->>'file', '/[^/]*$', '') " +:+ "ELSE '' END"
  | FacetDimension => "lower(" +:+ a +:+ ".metadata->>'type')"
  end.

Definition group_expression (dimension alias : string) : result string :=
  if negb (is_identifier alias) then Raise (ValueError "alias must be a bare identifier")
  else match dimension_of dimension with
       | Some d => Ok (GROUP_SQL d alias)
       | None => Raise (ValueError "unknown scope dimension")
       end.

(** One clause of the conjunction: its SQL and the parameters it binds. *)
Definition clause : Type := string * list (string * string).

Definition source_clause (alias col value : string) : clause :=
  ("(" +:+ alias +:+ ".metadata->>'file' = %(scope_source)s OR " +:+
   alias +:+ "." +:+ col +:+ " = %(scope_source)s)", [("scope_source", value)]).

Definition prefix_key (index : nat) : string := "scope_source_prefix_" +:+ pretty index.

Definition prefix_test (alias col : string) (index : nat) : string :=
  "COALESCE(NULLIF(" +:+ alias +:+ ".metadata->>'file', ''), " +:+
  alias +:+ "." +:+ col +:+ ") ~ %(" +:+ prefix_key index +:+ ")s".

Definition prefixes_clause (alias col : string) (prefixes : list string) : clause :=
  match prefixes with
  | [] => ("FALSE", [])
  | _ => ("(" +:+ Text.join " OR " (imap (fun i _ => prefix_test alias col i) prefixes) +:+ ")",
          imap (fun i p => (prefix_key i, source_prefix_regex_pattern p)) prefixes)
  end.

Definition digest_clause (alias digest : string) : clause :=
  (alias +:+ ".metadata->>'security_policy_digest' = %(scope_security_policy_digest)s",
   [("scope_security_policy_digest", digest)]).

Definition folder_clause (alias folder : string) : clause :=
  if decide (folder = "") then ("position('/' in " +:+ alias +:+ ".metadata->>'file') = 0", [])
  else ("(" +:+ alias +:+ ".metadata->>'file' LIKE %(scope_folder_prefix)s ESCAPE '\' OR " +:+
        alias +:+ ".metadata->>'file' = %(scope_folder)s)",
        [("scope_folder_prefix", like_prefix folder); ("scope_folder", folder)]).

Definition facet_clause (alias facet : string) : clause :=
  (GROUP_SQL FacetDimension alias +:+ " = %(scope_facet)s", [("scope_facet", facet)]).

Definition clauses (alias col : string) (s : Scope) : list clause :=
  option_list (source_clause alias col <$> scp_source s) ++
  option_list (prefixes_clause alias col <$> scp_source_prefixes s) ++
  option_list (digest_clause alias <$> scp_security_policy_digest s) ++
  option_list (folder_clause alias <$> normalized_folder s) ++
  option_list (facet_clause alias <$> normalized_facet s).

(** [Scope.predicate]. *)
Definition predicate (alias col : string) (s : Scope) : result (string * list (string * string)) :=
  if negb (is_identifier alias) then Raise (ValueError "alias must be a bare identifier")
  else if negb (is_identifier col) then Raise (ValueError "source_column must be a bare identifier")
  else match clauses alias col s with
       | [] => Ok ("", [])
       | cs => Ok ("AND " +:+ Text.join " AND " cs.*1, concat cs.*2)
       end.

(** ** What Postgres answers for [LIKE ... ESCAPE '\'] *)

Class SqlLike := {
  like : list ascii -> list ascii -> bool;
  like_empty s : like [] s = true <-> s = [];
  like_literal c p s : c <> "%"%char -> c <> "_"%char -> c <> backslash ->
    like (c :: p) s = true <-> exists s', s = c :: s' /\ like p s' = true;
  like_escaped c p s : like (backslash :: c :: p) s = true <-> exists s', s = c :: s' /\ like p s' = true;
  like_percent s : like ["%"%char] s = true
}.

(** What the folder clause asks of a file. *)
Definition folder_clause_holds `{SqlLike} (folder file : string) : bool :=
  like (chars (like_prefix folder)) (chars file) || bool_decide (file = folder).

(** What of a scope reaches the text of the predicate: which parts are given, how
    many prefixes, and whether the folder is the root. *)
Definition shape (s : Scope) : bool * option nat * bool * option bool * bool :=
  (bool_decide (is_Some (scp_source s)), length <$> scp_source_prefixes s,
   bool_decide (is_Some (scp_security_policy_digest s)),
   (fun f => bool_decide (f = "")) <$> normalized_folder s, bool_decide (is_Some (scp_facet s))).

Section like_facts.
Context `{SqlLike}.

Definition escape_one (c : ascii) : list ascii :=
  if decide (c = backslash \/ c = "%"%char \/ c = "_"%char) then [backslash; c] else [c].

Lemma escape_char_app special a b : escape_char special (a ++ b) = escape_char special a ++ escape_char special b.
Proof. unfold escape_char. apply bind_app. Qed.

Lemma escape_like_cons c l : escape_like_chars (c :: l) = escape_one c ++ escape_like_chars l.
Proof.
  unfold escape_like_chars. rewrite (cons_middle c [] l : c :: l = [c] ++ l), !escape_char_app.
  f_equal. unfold escape_char, escape_one.
  destruct (decide (c = backslash)) as [->|]; [reflexivity|].
  destruct (decide (c = "%"%char)) as [->|]; [reflexivity|].
  destruct (decide (c = "_"%char)) as [->|]; [reflexivity|].
  simpl. rewrite decide_False by done. simpl. rewrite decide_False by done. simpl.
  rewrite decide_False by done. simpl. by rewrite decide_False by tauto.
Qed.

(** An escaped literal matches itself and then whatever follows it matches. *)
Lemma like_escape l p s :
  like (escape_like_chars l ++ p) s = true <-> exists s', s = l ++ s' /\ like p s' = true.
Proof.
  revert s; induction l as [|c l IH]; intros s; simpl.
  - split; [eauto|]. by intros (s' & -> & ?).
  - rewrite escape_like_cons, <-(assoc_L (++)).
    transitivity (exists s', s = c :: s' /\ like (escape_like_chars l ++ p) s' = true).
    + unfold escape_one. case_decide; simpl; [apply like_escaped|apply like_literal; tauto].
    + setoid_rewrite IH. split.
      * intros (s1 & -> & s2 & -> & ?). eauto.
      * intros (s2 & -> & ?). eauto.
Qed.

Lemma starts_with_spec s p : starts_with s p = true <-> exists r, chars s = chars p ++ r.
Proof. apply list_prefix_spec. Qed.

End like_facts.

(** The documented matcher: it meets the laws, so they can hold. *)
Fixpoint like_match (p s : list ascii) {struct p} : bool :=
  match p with
  | [] => bool_decide (s = [])
  | c :: p' =>
      if decide (c = "%"%char) then
        (fix any (s : list ascii) : bool :=
           like_match p' s || match s with [] => false | _ :: s' => any s' end) s
      else if decide (c = "_"%char) then match s with [] => false | _ :: s' => like_match p' s' end
      else if decide (c = backslash) then
        match p' with
        | [] => false
        | d :: p'' => match s with [] => false | x :: s' => bool_decide (x = d) && like_match p'' s' end
        end
      else match s with [] => false | x :: s' => bool_decide (x = c) && like_match p' s' end
  end.

#[export] Instance sql_like : SqlLike.
Proof.
  refine {| like := like_match |}.
  - intros s. apply bool_decide_eq_true.
  - intros c p s Hp Hu Hb. cbn. rewrite !decide_False by done. destruct s as [|x s].
    + split; [done|]. by intros (? & ? & _).
    + rewrite andb_true_iff, bool_decide_eq_true. naive_solver.
  - intros c p s. cbn. rewrite decide_False, decide_False, decide_True by done. destruct s as [|x s].
    + split; [done|]. by intros (? & ? & _).
    + rewrite andb_true_iff, bool_decide_eq_true. naive_solver.
  - intros s. induction s as [|x s IH]; cbn; [done|]. cbn in IH. exact IH.
Defined.

Example like_ex : like_match (chars (like_prefix "a_b")) (chars "a_b/x") = true /\
  like_match (chars (like_prefix "a_b")) (chars "axb/x") = false.
Proof. split; reflexivity. Qed.

(** A folder scope means the folder.  Whatever characters its name holds, the
    wildcards of [LIKE] included, the folder clause of the predicate is true of a file
    exactly when the file is the folder's own path or lies beneath it. *)
Theorem folder_clause_exact `{SqlLike} (folder file : string) :
  folder_clause_holds folder file = covers folder file.
Proof.
  unfold folder_clause_holds, covers. rewrite orb_comm. f_equal. apply eq_true_iff_eq.
  rewrite starts_with_spec. unfold like_prefix, escape_like_prefix, escape_like.
  rewrite !chars_app, chars_unchars.
  change (chars "/%") with ([("/"%char)] ++ ["%"%char]).
  rewrite like_escape. split.
  - intros (s' & -> & Hl). apply like_literal in Hl as (r & -> & _); [|done..].
    exists r. by rewrite <-(assoc_L (++)).
  - intros (r & ->). rewrite <-(assoc_L (++)). eexists. split; [done|].
    apply like_literal; [done..|]. exists r. split; [done|apply like_percent].
Qed.

(** ** Normal paths *)

Lemma covers_spec p s : covers p s = true <-> s = p \/ exists r, chars s = chars p ++ "/"%char :: r.
Proof.
  unfold covers. rewrite orb_true_iff, bool_decide_eq_true, starts_with_spec, chars_app.
  change (chars "/") with ["/"%char]. by setoid_rewrite <-(assoc_L (++)).
Qed.

Lemma covers_refl p : covers p p = true.
Proof. apply covers_spec. by left. Qed.

Lemma covers_trans a b s : covers a b = true -> covers b s = true -> covers a s = true.
Proof.
  rewrite !covers_spec. intros [->|[r Hr]] [->|[r' Hr']]; try by eauto.
  right. exists (r ++ "/"%char :: r'). by rewrite Hr', Hr, <-(assoc_L (++)).
Qed.

Lemma length_chars s : length (chars s) = String.length s.
Proof. induction s as [|c s IH]; simpl; [done|]. by rewrite <-IH. Qed.

(** Of two prefixes of one path, the shorter covers the longer. *)
Lemma covers_shorter a b s :
  covers a s = true -> covers b s = true -> String.length a <= String.length b -> covers a b = true.
Proof.
  rewrite <-!length_chars. rewrite !covers_spec.
  assert (Heq : forall t : string, chars s = chars t -> s = t).
  { intros t Ht. by rewrite <-(unchars_chars s), Ht, unchars_chars. }
  assert (Hshape : covers b s = true -> exists r, chars s = chars b ++ r /\ (r = [] \/ head r = Some "/"%char)).
  { rewrite covers_spec. intros [->|[r Hr]]; [exists []; by rewrite app_nil_r; auto|eauto]. }
  intros [->|[r Hr]] Hb Hlen.
  - destruct Hb as [->|[r' Hr']]; [by left|]. rewrite Hr', length_app in Hlen. simpl in Hlen. lia.
  - destruct Hb as [->|[r' Hr']]; [by eauto|]. rewrite Hr in Hr'.
    destruct (decide (length (chars a) = length (chars b))) as [Heqlen|].
    + apply app_inj_1 in Hr' as [Hab _]; [|done]. left.
      by rewrite <-(unchars_chars a), Hab, unchars_chars.
    + assert (Hpre : chars b = take (length (chars b)) (chars a ++ "/"%char :: r)).
      { by rewrite Hr', take_app_length. }
      rewrite take_app_ge in Hpre by lia.
      destruct (length (chars b) - length (chars a)) as [|m] eqn:Hm; [lia|]. simpl in Hpre. eauto.
Qed.

Definition rstrip_slash (l : list ascii) : list ascii := reverse (drop_while is_slash (reverse l)).

Definition slashes (l : list ascii) : Prop := Forall (fun c => is_slash c = true) l.

Lemma drop_while_head (f : ascii -> bool) l c : head (drop_while f l) = Some c -> f c = false.
Proof. induction l as [|d l IH]; simpl; [done|]. destruct (f d) eqn:Hd; [done|]. by intros [= <-]. Qed.

Lemma drop_while_stop (f : ascii -> bool) l c : head l = Some c -> f c = false -> drop_while f l = l.
Proof. destruct l; simpl; [done|]. by intros [= ->] ->. Qed.

Lemma drop_while_all (f : ascii -> bool) k l :
  Forall (fun c => f c = true) k -> drop_while f (k ++ l) = drop_while f l.
Proof. induction 1 as [|c k Hc _ IH]; simpl; [done|]. by rewrite Hc. Qed.

Lemma rstrip_split l : exists k, l = rstrip_slash l ++ k /\ slashes k.
Proof.
  destruct (drop_while_split is_slash (reverse l)) as (k & Hl & Hk).
  exists (reverse k). unfold rstrip_slash. rewrite <-reverse_app, <-Hl, reverse_involutive.
  split; [done|]. unfold slashes. by rewrite Forall_reverse.
Qed.

(** A part that ends without a slash stays. *)
Lemma rstrip_app p x c : last p = Some c -> is_slash c = false -> rstrip_slash (p ++ x) = p ++ rstrip_slash x.
Proof.
  intros Hlast Hc. unfold rstrip_slash. rewrite reverse_app.
  destruct (drop_while_split is_slash (reverse x)) as (k & Hx & Hk).
  destruct (drop_while is_slash (reverse x)) as [|d y] eqn:Hd.
  - rewrite app_nil_r in Hx. rewrite Hx, drop_while_all by done.
    rewrite (drop_while_stop _ _ c) by (by rewrite ?head_reverse). by rewrite reverse_involutive, app_nil_r.
  - rewrite Hx, <-(assoc_L (++)), drop_while_all by done. rewrite (drop_while_stop _ _ d).
    + by rewrite reverse_app, reverse_involutive.
    + done.
    + apply (drop_while_head _ (reverse x)). by rewrite Hd.
Qed.

Lemma rstrip_cons_slash x : rstrip_slash ("/"%char :: x) = [] \/ exists y, rstrip_slash ("/"%char :: x) = "/"%char :: y.
Proof.
  destruct (rstrip_split ("/"%char :: x)) as (k & Hx & _). destruct (rstrip_slash _) as [|c y]; [by left|].
  right. simplify_eq/=. eauto.
Qed.

(** A path in the normal form of [normalize_path]. *)
Definition normalized (p : string) : Prop := normalize_path p = p /\ p <> "".

Lemma slashes_only_no_backslash s : backslash ∉ slashes_only s.
Proof. unfold slashes_only. intros (c & Hc & _)%list_elem_of_fmap. by case_decide. Qed.

Lemma slashes_only_id s : backslash ∉ chars s -> slashes_only s = chars s.
Proof.
  intros Hs. unfold slashes_only. rewrite <-(list_fmap_id (chars s)) at 2.
  apply list_fmap_ext. intros i c Hc. rewrite decide_False; [done|].
  intros ->. apply Hs. by eapply list_elem_of_lookup_2.
Qed.

Lemma normalize_path_split s :
  exists a b, slashes_only s = a ++ chars (normalize_path s) ++ b /\ slashes a /\ slashes b /\
    (forall c, head (chars (normalize_path s)) = Some c -> is_slash c = false) /\
    (forall c, last (chars (normalize_path s)) = Some c -> is_slash c = false).
Proof.
  unfold normalize_path. rewrite chars_unchars. unfold strip_slash_chars.
  destruct (drop_while_split is_slash (slashes_only s)) as (a & Ha & Hsa).
  set (l := drop_while is_slash (slashes_only s)) in *.
  change (reverse (drop_while is_slash (reverse l))) with (rstrip_slash l).
  destruct (rstrip_split l) as (b & Hb & Hsb). exists a, b.
  rewrite <-Hb. repeat split; [done..| |].
  - intros c Hc. apply (drop_while_head is_slash (slashes_only s)). fold l. rewrite Hb.
    by destruct (rstrip_slash l).
  - unfold rstrip_slash. intros c Hc. apply (drop_while_head is_slash (reverse l)).
    by rewrite last_reverse in Hc.
Qed.

Lemma normalized_chars p :
  normalized p -> backslash ∉ chars p /\
    (exists c, head (chars p) = Some c /\ is_slash c = false) /\
    (exists c, last (chars p) = Some c /\ is_slash c = false).
Proof.
  intros [Hn Hne]. destruct (normalize_path_split p) as (a & b & Hsplit & _ & _ & Hhd & Hlast).
  rewrite Hn in *. split.
  { intros Hin. apply (slashes_only_no_backslash p). rewrite Hsplit, !elem_of_app. auto. }
  destruct p as [|c p]; [done|]. simpl in Hhd. split; [by exists c; auto|].
  destruct (last (chars (String c p))) as [d|] eqn:Hd; [by exists d; auto|].
  by apply last_None in Hd.
Qed.

Lemma normalize_path_idem s : normalize_path (normalize_path s) = normalize_path s.
Proof.
  destruct (normalize_path_split s) as (a & b & Hs & _ & _ & Hhd & Hlast).
  set (m := normalize_path s) in *. unfold normalize_path. rewrite slashes_only_id.
  2:{ intros Hin. apply (slashes_only_no_backslash s). rewrite Hs, !elem_of_app. auto. }
  unfold strip_slash_chars. destruct (chars m) as [|c l] eqn:Hm.
  { by rewrite <-(unchars_chars m), Hm. }
  rewrite (drop_while_stop _ (c :: l) c) by auto. change (reverse _) with (rstrip_slash (c :: l)).
  destruct (last (c :: l)) as [d|] eqn:Hd; [|by apply last_None in Hd].
  rewrite <-(app_nil_r (c :: l)), (rstrip_app _ _ d) by auto.
  by rewrite app_nil_r, <-Hm, unchars_chars.
Qed.

Lemma normalize_left p x :
  normalized p -> chars (unchars (strip_slash_chars (chars p ++ x))) = chars p ++ rstrip_slash x.
Proof.
  intros (_ & (c & Hc & Hcs) & (d & Hd & Hds))%normalized_chars. rewrite chars_unchars.
  unfold strip_slash_chars. rewrite (drop_while_stop _ (chars p ++ x) c); [|by revert Hc; destruct (chars p)|done].
  by apply (rstrip_app _ _ d).
Qed.

(** What a normal prefix covers is covered in normal form too. *)
Lemma covers_normalize p s : normalized p -> covers p s = true -> covers p (normalize_path s) = true.
Proof.
  intros Hp. rewrite !covers_spec. intros [->|[r Hr]]; [left; apply Hp|].
  assert (Hs : chars (normalize_path s) = chars p ++ rstrip_slash ("/"%char :: map (fun c => if decide (c = backslash) then "/"%char else c) r)).
  { unfold normalize_path, slashes_only. rewrite Hr, map_app. simpl map at 2.
    change (map _ (chars p)) with (slashes_only p).
    rewrite slashes_only_id by apply normalized_chars, Hp. by apply normalize_left. }
  destruct (rstrip_cons_slash (map (fun c => if decide (c = backslash) then "/"%char else c) r)) as [H0|[y Hy]].
  - left. rewrite H0, app_nil_r in Hs. by rewrite <-(unchars_chars (normalize_path s)), Hs, unchars_chars.
  - right. exists y. by rewrite Hs, Hy.
Qed.

(** A prefix covers a normal path in its own normal form too. *)
Lemma covers_normalize_left l s : normalized s -> covers l s = true -> covers (normalize_path l) s = true.
Proof.
  intros Hs. rewrite !covers_spec. intros [->|[r Hr]]; [left; symmetry; apply Hs|].
  destruct (normalized_chars s Hs) as (Hb & (c & Hc & Hcs) & _). right.
  assert (Hl : chars (normalize_path l) = rstrip_slash (chars l)).
  { unfold normalize_path. rewrite slashes_only_id, chars_unchars.
    - unfold strip_slash_chars, rstrip_slash. rewrite (drop_while_stop is_slash (chars l) c); [done| |done].
      rewrite Hr in Hc. destruct (chars l); [|done]. simpl in Hc. by simplify_eq.
    - intros Hin. apply Hb. rewrite Hr, elem_of_app. by left. }
  destruct (rstrip_split (chars l)) as (k & Hk & Hsk).
  rewrite Hl, Hr. set (m := rstrip_slash (chars l)) in *. clearbody m. rewrite Hk, <-(assoc_L (++)).
  destruct k as [|d k]; simpl; [by eauto|]. inversion_clear Hsk as [|?? Hd].
  apply bool_decide_eq_true in Hd as ->. eauto.
Qed.

(** ** The text of a clause *)

Definition outline (c : clause) : string * list string := (c.1, c.2.*1).

Lemma concat_outline (cs : list clause) : (concat cs.*2).*1 = concat (outline <$> cs).*2.
Proof.
  induction cs as [|c cs IH]; [done|]. rewrite !fmap_cons. cbn [concat]. by rewrite fmap_app, IH.
Qed.

Lemma outline_text (cs : list clause) : (outline <$> cs).*1 = cs.*1.
Proof. by rewrite <-list_fmap_compose. Qed.

(** An optional part gives clauses of one outline when what the outline reads of it
    is the same. *)
Lemma option_outline {A B} (f : A -> clause) (g : A -> B) (o : B -> string * list string) (a b : option A) :
  (forall x, outline (f x) = o (g x)) -> g <$> a = g <$> b ->
  outline <$> option_list (f <$> a) = outline <$> option_list (f <$> b).
Proof. intros Hf. destruct a, b; simpl; intros; simplify_eq; [|done]. by rewrite !Hf; f_equal; congruence. Qed.

Lemma given_unit {A} (a b : option A) :
  bool_decide (is_Some a) = bool_decide (is_Some b) -> (fun _ => tt) <$> a = (fun _ => tt) <$> b.
Proof.
  destruct a, b; simpl; try done; repeat case_bool_decide; try done; naive_solver.
Qed.

Definition prefixes_outline (alias col : string) (n : nat) : string * list string :=
  match n with
  | O => ("FALSE", [])
  | _ => ("(" +:+ Text.join " OR " (prefix_test alias col <$> seq 0 n) +:+ ")", prefix_key <$> seq 0 n)
  end.

Lemma imap_seq_gen {A B} (f : nat -> B) (l : list A) : imap (fun i _ => f i) l = f <$> seq 0 (length l).
Proof.
  revert f; induction l as [|x l IH]; intros f; simpl; [done|].
  f_equal. rewrite <-seq_shift, <-list_fmap_compose. apply (IH (f ∘ S)).
Qed.

Lemma fmap_imap_fst {A B C} (f : nat -> A -> B * C) (l : list A) : (imap f l).*1 = imap (fun i x => (f i x).1) l.
Proof. by rewrite fmap_imap. Qed.

Lemma prefixes_clause_outline alias col l :
  outline (prefixes_clause alias col l) = prefixes_outline alias col (length l).
Proof.
  destruct l as [|p l]; [done|]. unfold prefixes_clause, prefixes_outline, outline.
  cbn [fst snd length]. rewrite fmap_imap_fst. cbn [fst]. by rewrite !imap_seq_gen.
Qed.

Definition folder_outline (alias : string) (root : bool) : string * list string :=
  outline (folder_clause alias (if root then "" else "x")).

Lemma folder_clause_outline alias f :
  outline (folder_clause alias f) = folder_outline alias (bool_decide (f = "")).
Proof. unfold folder_outline, folder_clause. by case_bool_decide; case_decide. Qed.

Lemma clauses_outline alias col s t :
  shape s = shape t -> outline <$> clauses alias col s = outline <$> clauses alias col t.
Proof.
  unfold shape, clauses. intros [= H1 H2 H3 H4 H5]. rewrite !fmap_app.
  f_equal; [|f_equal; [|f_equal; [|f_equal]]].
  - by eapply (option_outline _ (fun _ => tt) (fun _ => outline (source_clause alias col ""))); [|apply given_unit].
  - by eapply option_outline; [apply prefixes_clause_outline|].
  - by eapply (option_outline _ (fun _ => tt) (fun _ => outline (digest_clause alias ""))); [|apply given_unit].
  - by eapply option_outline; [apply folder_clause_outline|].
  - eapply (option_outline _ (fun _ => tt) (fun _ => outline (facet_clause alias ""))); [done|].
    unfold normalized_facet. apply given_unit. by destruct (scp_facet s), (scp_facet t).
Qed.

Definition folder_scope (f : string) : Scope :=
  {| scp_source := None; scp_folder := Some f; scp_facet := None;
     scp_source_prefixes := None; scp_security_policy_digest := None |}.

(** No value of a scope reaches the SQL.  Two scopes of one shape render the same
    text and bind the same parameter names, whatever strings they hold: a value is only
    ever a bound parameter. *)
Theorem predicate_text_value_free (alias col : string) (s t : Scope) :
  shape s = shape t ->
  (fun r => (r.1, r.2.*1)) <$> predicate alias col s = (fun r => (r.1, r.2.*1)) <$> predicate alias col t.
Proof.
  intros Hs. pose proof (clauses_outline alias col s t Hs) as Ho. unfold predicate.
  destruct (negb (is_identifier alias)); [done|]. destruct (negb (is_identifier col)); [done|].
  destruct (clauses alias col s) as [|c cs] eqn:Hcs, (clauses alias col t) as [|d ds] eqn:Hds; try done.
  rewrite <-Hcs, <-Hds in *. simpl.
  by rewrite !concat_outline, <-(outline_text (clauses alias col s)), Ho, outline_text.
Qed.

Lemma predicate_text_value_free_witness :
  (fun r => (r.1, r.2.*1)) <$> predicate "c" "source" (folder_scope "notes") =
  (fun r => (r.1, r.2.*1)) <$> predicate "c" "source" (folder_scope "100%_' OR 1=1").
Proof. apply predicate_text_value_free. reflexivity. Defined.
