(* ===== verification/Tables.v ===== *)
(** * Tables: the rows of the chunk table and of the audit ledger
    (src/recall/migrations/sql, src/recall/supersession.py: the supersession scan)

    One tenant's rows, as row security shows them. A row of a table is a record, a table the list
    of its rows in no order a query may rely on. [json_text] is the text PostgreSQL prints for a
    JSON value that is not a string; text is ordered as in the C collation. *)
From S2P Require Import Prelude Text Float64 Frontmatter SourceIdentity References Supersession Resolver.

Local Open Scope Z_scope.

(** [recall_chunks_v1], by the columns the modelled queries read; instants are microseconds. *)
Record ChunkRow := {
  cr_generation : string;
  cr_id : string;
  cr_source : string;
  cr_version : string;
  cr_sha : string;
  cr_ordinal : Z;
  cr_text : string;
  cr_metadata : metadata;
  cr_embedding : list float;
  cr_indexed : Z;
  cr_first : option Z
}.

(** [recall_audit_events]. *)
Record AuditEvent := {
  au_id : string;
  au_type : string;
  au_actor : string;
  au_generation : option string;
  au_source : option string;
  au_payload : value;
  au_at : Z
}.

(** [ORDER BY created_at, event_id]. *)
Definition event_ltb (a b : AuditEvent) : bool :=
  if decide (au_at a = au_at b) then string_ltb (au_id a) (au_id b) else au_at a <? au_at b.

Definition event_order (l : list AuditEvent) : list AuditEvent := stable_sort (fun a b => negb (event_ltb b a)) l.

(** [ORDER BY] a nullable text: nulls last. *)
Definition null_last_ltb (a b : option string) : bool :=
  match a, b with
  | Some x, Some y => string_ltb x y
  | Some _, None => true
  | None, _ => false
  end.

(** [COALESCE(first_indexed_at, indexed_at)]. *)
Definition first_write (c : ChunkRow) : Z := default (cr_indexed c) (cr_first c).

Section scan.
Context (json_text : value -> string).

(** [j ->> key]: a string as it is, any other value as its JSON text, null as NULL. *)
Definition pg_text (v : value) : option string :=
  match v with VNone => None | VStr s => Some s | v => Some (json_text v) end.

Definition pg_get (k : string) (m : metadata) : option string := pg_text (meta_get k m).

(** [SUPERSEDES_TARGET_ROWS_SQL]. *)
Definition compiled_row (m : metadata) : bool := bool_decide (pg_get "record_type" m = Some "compiled").

Definition supersedes_target_rows (m : metadata) : list (option string) :=
  if compiled_row m then [None]
  else match meta_get "supersedes" m with
       | VList [] => [None]
       | VList l => map pg_text l
       | v => [pg_text v]
       end.

(** [supersession_rows_sql]: the five columns of its GROUP BY, and their order. *)
Record ScanKey := {
  sk_file : option string;
  sk_supersedes : option string;
  sk_source : string;
  sk_from : option string;
  sk_until : option string
}.

#[export] Instance ScanKey_eq_dec : EqDecision ScanKey.
Proof. solve_decision. Defined.

Definition scan_ltb (a b : ScanKey) : bool :=
  if decide (sk_file a = sk_file b) then
    if decide (sk_supersedes a = sk_supersedes b) then
      if decide (sk_source a = sk_source b) then
        if decide (sk_from a = sk_from b) then null_last_ltb (sk_until a) (sk_until b)
        else null_last_ltb (sk_from a) (sk_from b)
      else string_ltb (sk_source a) (sk_source b)
    else null_last_ltb (sk_supersedes a) (sk_supersedes b)
  else null_last_ltb (sk_file a) (sk_file b).

(** One row per reference a chunk declares, with its first write. *)
Definition scan_chunk (c : ChunkRow) : list (ScanKey * Z) :=
  match odict_get "file" (cr_metadata c) with
  | None => []
  | Some _ =>
      map (fun target =>
             ({| sk_file := pg_get "file" (cr_metadata c); sk_supersedes := target; sk_source := cr_source c;
                 sk_from := pg_get "valid_from" (cr_metadata c); sk_until := pg_get "valid_until" (cr_metadata c) |},
              first_write c))
        (supersedes_target_rows (cr_metadata c))
  end.

(** [GROUP BY] with [min]. *)
Definition group_min (rows : list (ScanKey * Z)) : list (ScanKey * Z) :=
  foldl (fun d row => odict_set row.1 (match odict_get row.1 d with Some m => Z.min m row.2 | None => row.2 end) d) [] rows.

Definition nullable (o : option string) : value := match o with Some s => VStr s | None => VNone end.

Definition scan_row (row : ScanKey * Z) : SupersessionRow :=
  Row (nullable (sk_file row.1)) (nullable (sk_supersedes row.1)) (VTime (Aware row.2))
    [VStr (sk_source row.1); nullable (sk_from row.1); nullable (sk_until row.1)].

Definition supersession_rows (scope : ChunkRow -> bool) (chunks : list ChunkRow) : list SupersessionRow :=
  map scan_row
    (stable_sort (fun a b => negb (scan_ltb b.1 a.1))
       (group_min (filter (fun c => scope c = true) chunks ≫= scan_chunk))).
End scan.

Lemma event_ltb_weak : weak_order event_ltb.
Proof.
  pose proof Z_ltb_weak as [Hz Hzc]. pose proof string_ltb_weak as [Hs _].
  apply (lex_weak au_at Z.ltb (fun a b => string_ltb (au_id a) (au_id b))); [done|].
  by apply weak_order_map.
Qed.

(** Grouping keeps every key, at the least of its values. *)
Lemma group_min_nodup rows : NoDup (group_min rows).*1.
Proof.
  unfold group_min. assert (H : forall d : list (ScanKey * Z), NoDup d.*1 ->
    NoDup (foldl (fun d row => odict_set row.1 (match odict_get row.1 d with Some m => Z.min m row.2 | None => row.2 end) d) d rows).*1).
  { induction rows as [|r rows IH]; intros d Hd; cbn; [done|]. by apply IH, odict_set_nodup. }
  apply H. constructor.
Qed.

Lemma group_min_get rows k :
  match odict_get k (group_min rows) with
  | Some m => (k, m) ∈ rows /\ forall t, (k, t) ∈ rows -> m <= t
  | None => forall t, (k, t) ∉ rows
  end.
Proof.
  unfold group_min. induction rows as [|[k' t'] rows IH] using rev_ind; cbn.
  { intros t. apply not_elem_of_nil. }
  rewrite foldl_app. cbn. rewrite odict_get_set. set (d := foldl _ [] rows) in *.
  destruct (decide (k = k')) as [->|Hk].
  - destruct (odict_get k' d) as [m|].
    + destruct IH as [Hin Hle]. split.
      * rewrite elem_of_app, list_elem_of_singleton. destruct (Z.min_spec m t') as [[_ ->]|[_ ->]]; auto.
      * intros t [Ht|[= ->]%list_elem_of_singleton]%elem_of_app; [|lia]. specialize (Hle t Ht). lia.
    + split; [rewrite elem_of_app, list_elem_of_singleton; by right|].
      intros t [Ht|[= ->]%list_elem_of_singleton]%elem_of_app; [by destruct (IH t)|lia].
  - destruct (odict_get k d) as [m|].
    + destruct IH as [Hin Hle]. split; [rewrite elem_of_app; by left|].
      intros t [Ht|[= -> ->]%list_elem_of_singleton]%elem_of_app; [auto|done].
    + intros t [Ht|[= -> ->]%list_elem_of_singleton]%elem_of_app; [by apply (IH t)|done].
Qed.
