(* ===== verification/SupersessionRecords.v ===== *)
(** * SupersessionRecords: what a removed memo leaves behind
    (src/recall/supersession_records.py and the records of src/recall/supersession.py)

    A record is an event of the audit ledger. Writing: what the removal of some sources owes, by
    the rows it is about to delete and the records that already stand. Reading: the latest usable
    record of each source. [isoformat] and [fromisoformat] are those of [datetime]; [stamp n] is
    the id and the time of the [n]-th event of the ledger, which only grows. *)
From S2P Require Import Prelude Text Float64 Frontmatter SourceIdentity References Supersession Resolver Tables.

Local Open Scope Z_scope.

Definition FORGET_ACTOR : string := "recall_forget".
Definition WITHDRAW_ACTOR : string := "recall_withdraw".
Definition RECORD_TYPES : list string := [FORGOTTEN_RECORD; WITHDRAWN_RECORD].

(** [record_kind]. *)
Definition record_kind (withdraw : bool) : string := if withdraw then WITHDRAWN_RECORD else FORGOTTEN_RECORD.

(** A text PostgreSQL or Python compares with a JSON value. *)
Definition is_text (v : value) (s : string) : bool := match v with VStr t => bool_decide (t = s) | _ => false end.

Section records.
Context (isoformat : datetime -> string) (fromisoformat : string -> option datetime).

(** ** One record and its event *)

(** [SupersessionRecord.payload]. *)
Definition claim_value (c : RecordClaim) : value :=
  VList [VStr (rc_target c); match rc_first c with Some d => VStr (isoformat d) | None => VNone end; rc_from c; rc_until c].

Definition record_payload (r : SupersessionRecord) (scope : string) : value :=
  VDict [("scope", VStr scope); ("file", VStr (sr_file r)); ("claims", VList (map claim_value (sr_claims r)))].

(** [_aware]. *)
Definition aware (d : datetime) : datetime := Aware (instant d).

(** [payload.get("claims") or ()], iterated: a text or a mapping gives texts, which are no claims.
    The payload is JSON, which holds no instant. *)
Definition claim_items (v : value) : result (list value) :=
  if negb (truthy v) then Ok []
  else match v with
       | VList l => Ok l
       | VStr _ | VDict _ | VTime _ => Ok []
       | _ => Raise (TypeError "object is not iterable")
       end.

Definition read_claim (item : value) : option RecordClaim :=
  match item with
  | VList [VStr target; first; from; until] =>
      if decide (target = "") then None
      else Some (Claim target (match first with VStr s => aware <$> fromisoformat s | _ => None end) from until)
  | _ => None
  end.

(** [SupersessionRecord.from_event]. *)
Definition from_event (kind : string) (source : option string) (payload : value) : result (option SupersessionRecord) :=
  match source, payload with
  | Some s, VDict m =>
      if decide (kind ∈ RECORD_TYPES /\ s <> "") then
        match meta_get "file" m with
        | VStr file => items ← claim_items (meta_get "claims" m); Ok (Some (Record_ kind file s (omap read_claim items)))
        | _ => Ok None
        end
      else Ok None
  | _, _ => Ok None
  end.

(** [latest_records]. *)
Definition in_scope (scope : string) (payload : value) : bool :=
  match payload with VDict m => is_text (meta_get "scope" m) scope | _ => false end.

Definition latest_step (scope : string) (latest : list (string * SupersessionRecord)) (e : AuditEvent) :
    result (list (string * SupersessionRecord)) :=
  if in_scope scope (au_payload e) then
    r ← from_event (au_type e) (au_source e) (au_payload e);
    Ok (match r with Some record => odict_set (sr_source record) record latest | None => latest end)
  else Ok latest.

Definition latest_records (events : list AuditEvent) (scope : string) : result (list (string * SupersessionRecord)) :=
  result_foldl (latest_step scope) [] events.

(** ** [pg_records]: the winners, ranked in the database *)

Definition eligible (scope : string) (sources : option (list string)) (e : AuditEvent) : bool :=
  bool_decide (au_type e ∈ RECORD_TYPES) &&
  match au_source e, au_payload e with
  | Some s, VDict m =>
      negb (bool_decide (s = "")) && is_text (meta_get "scope" m) scope &&
      match meta_get "file" m with VStr _ => true | _ => false end &&
      match sources with Some l => bool_decide (s ∈ l) | None => true end
  | _, _ => false
  end.

(** A claims field that is a number other than 0, or true. *)
Definition bad_claims (e : AuditEvent) : bool :=
  match au_payload e with
  | VDict m => match meta_get "claims" m with VInt z => negb (z =? 0) | VFloat f => truthy (VFloat f) | VBool b => b | _ => false end
  | _ => false
  end.

Definition source_name (e : AuditEvent) : string := default "" (au_source e).

Definition of_source (e : AuditEvent) (l : list AuditEvent) : list AuditEvent :=
  filter (fun x => source_name x = source_name e) l.

(** [winner_rank = 1], and [first_value] over the same source. *)
Definition winner (l : list AuditEvent) (e : AuditEvent) : bool :=
  bool_decide (Forall (fun x => event_ltb e x = false) (of_source e l)).

Definition first_of (l : list AuditEvent) (e : AuditEvent) : AuditEvent :=
  default e (head (event_order (of_source e l))).

Definition selected (l : list AuditEvent) : list AuditEvent :=
  match event_order (filter (fun e => bad_claims e = true) l) with
  | bad :: _ => [bad]
  | [] => stable_sort (fun a b => negb (event_ltb (first_of l b) (first_of l a))) (filter (fun e => winner l e = true) l)
  end.

Definition pg_records (ledger : list AuditEvent) (scope : string) (sources : option (list string)) :
    result (list SupersessionRecord) :=
  match sources with
  | Some [] => Ok []
  | _ => (fun d => d.*2) <$> latest_records (selected (filter (fun e => eligible scope sources e = true) ledger)) scope
  end.

(** ** What a removal owes *)

Definition with_kind (kind : string) (r : SupersessionRecord) : SupersessionRecord :=
  Record_ kind (sr_file r) (sr_source r) (sr_claims r).

(** [pending_records]: [present] maps a source of the rows to the first file it carries. *)
Definition present_step (d : list (string * string)) (row : SupersessionRow) : list (string * string) :=
  match row_file row, row_more row with
  | VStr file, VStr source :: _ => match odict_get source d with Some _ => d | None => odict_set source file d end
  | _, _ => d
  end.

Definition present_files (rows : list SupersessionRow) : list (string * string) := foldl present_step [] rows.

Definition owed (withdraw : bool) (rows : list SupersessionRow) (standing : list SupersessionRecord) (source : string) :
    option SupersessionRecord :=
  let kind := record_kind withdraw in
  let prior := odict_get source (last_by sr_source standing) in
  match odict_get source (last_by sr_source (records_from_rows kind rows)) with
  | Some claimed => Some claimed
  | None =>
      match odict_get source (present_files rows) with
      | Some file => match prior with Some _ => Some (Record_ kind file source []) | None => None end
      | None => if withdraw then with_kind WITHDRAWN_RECORD <$> prior else None
      end
  end.

Definition pending_records (rows : list SupersessionRow) (sources : list string) (withdraw : bool)
    (standing : list SupersessionRecord) : list SupersessionRecord :=
  omap (owed withdraw rows standing) (sorted_set sources).

(** [pg_record_removals]: the ledger with the records appended, and how many. *)
Context (stamp : nat -> string * Z).

Definition record_event (actor scope : string) (n : nat) (r : SupersessionRecord) : AuditEvent :=
  {| au_id := (stamp n).1; au_type := sr_kind r; au_actor := actor; au_generation := None;
     au_source := Some (sr_source r); au_payload := record_payload r scope; au_at := (stamp n).2 |}.

Definition append_records (actor scope : string) (ledger : list AuditEvent) (records : list SupersessionRecord) :
    list AuditEvent :=
  foldl (fun l r => l ++ [record_event actor scope (length l) r]) ledger records.

Definition pg_record_removals (ledger : list AuditEvent) (scope : string) (rows : list SupersessionRow)
    (sources : list string) (withdraw : bool) : result (list AuditEvent * nat) :=
  standing ← pg_records ledger scope (Some sources);
  let records := pending_records rows sources withdraw standing in
  Ok (append_records (if withdraw then WITHDRAW_ACTOR else FORGET_ACTOR) scope ledger records, length records).

(** [records_matching]. *)
Definition match_step (requested : list string) (d : list (string * list string)) (r : SupersessionRecord) :
    list (string * list string) :=
  foldl (fun d ident =>
           if decide (ident ∈ requested) then
             let bucket := default [] (odict_get ident d) in
             odict_set ident (if decide (sr_source r ∈ bucket) then bucket else bucket ++ [sr_source r]) d
           else d)
    d (remove_dups [sr_file r; sr_source r]).

Definition records_matching (records : list SupersessionRecord) (identifiers : list string) : list (string * list string) :=
  foldl (match_step identifiers) [] records.

(** [erasure_subjects], over the [(source, file)] rows: a file that is empty or no text names
    nothing. *)
Definition subject_step (d : list (string * list string)) (row : string * option string) : list (string * list string) :=
  let name := match text_of row.2 with Some f => f | None => row.1 end in
  let names := default [] (odict_get row.1 d) in
  odict_set row.1 (if decide (name ∈ names) then names else names ++ [name]) d.

Definition erasure_subjects (rows : list (string * option string)) (records : list SupersessionRecord) :
    list (string * list string) :=
  foldl subject_step [] (rows ++ map (fun r => (sr_source r, Some (sr_file r))) records).
End records.
