(* ===== verification/SupersessionRecordsFacts.v ===== *)
(** * SupersessionRecordsFacts: the records a removal leaves, and who reads them

    The ranking in the database gives what a reading of the whole ledger would; a record is read
    as it was written; a removal gives each of its sources the record it owes and leaves the
    others alone; and which claims of a forgotten memo stand, exactly. *)
From S2P Require Import Prelude Text Float64 Frontmatter SourceIdentity References Supersession Resolver Tables SupersessionRecords.

Local Open Scope Z_scope.

(** ** Events in order *)

Definition before (a b : AuditEvent) : Prop := event_ltb a b = true.

Lemma event_ltb_total a b : au_id a <> au_id b -> event_ltb a b = false -> event_ltb b a = true.
Proof.
  unfold event_ltb. intros Hid. rewrite (decide_ext (au_at b = au_at a) (au_at a = au_at b)) by (split; congruence).
  case_decide as Hat; [by apply string_ltb_total|]. rewrite Z.ltb_ge, Z.ltb_lt. lia.
Qed.

Lemma event_ltb_trans a b c : before a b -> before b c -> before a c.
Proof.
  unfold before, event_ltb. repeat case_decide; rewrite ?Z.ltb_lt; try congruence; try lia.
  apply string_ltb_trans.
Qed.

Lemma before_irrefl a : ~ before a a.
Proof. unfold before, event_ltb. rewrite decide_True by done. by rewrite string_ltb_irrefl. Qed.

Lemma before_asym a b : before a b -> before b a -> False.
Proof. intros Hab Hba. by apply (before_irrefl a), (event_ltb_trans a b a). Qed.

Lemma ids_distinct (l : list AuditEvent) a b : NoDup (au_id <$> l) -> a ∈ l -> b ∈ l -> au_id a = au_id b -> a = b.
Proof.
  intros Hnd (i & Hi)%list_elem_of_lookup (j & Hj)%list_elem_of_lookup Heq.
  assert (i = j) as ->; [|congruence]. eapply NoDup_lookup; [exact Hnd|..]; rewrite list_lookup_fmap.
  - by rewrite Hi.
  - by rewrite Hj, Heq.
Qed.

(** A list sorted weakly by a key is sorted strictly where the keys differ. *)
Lemma strictly_sorted {A} (f : A -> AuditEvent) (l : list A) :
  StronglySorted (fun a b => event_ltb (f b) (f a) = false) l -> NoDup ((fun a => au_id (f a)) <$> l) ->
  StronglySorted (fun a b => before (f a) (f b)) l.
Proof.
  induction 1 as [|x l Hs IH Hx]; intros Hnd; constructor.
  - apply IH. by inversion_clear Hnd.
  - inversion_clear Hnd as [|? ? Hni _]. rewrite Forall_forall in *. intros y Hy.
    apply event_ltb_total; [|by apply Hx]. intros Heq. apply Hni. rewrite <-Heq.
    by apply (list_elem_of_fmap_2 (fun a => au_id (f a))).
Qed.

Lemma event_order_perm l : event_order l ≡ₚ l.
Proof. apply stable_sort_perm. Qed.

Lemma elem_of_event_order e l : e ∈ event_order l <-> e ∈ l.
Proof. by rewrite event_order_perm. Qed.

Lemma event_order_sorted l : NoDup (au_id <$> l) -> StronglySorted before (event_order l).
Proof.
  intros Hnd. apply (strictly_sorted id); [by apply stable_sort_weak, event_ltb_weak|].
  cbn. by rewrite event_order_perm.
Qed.

Lemma sorted_events_unique l k : StronglySorted before l -> StronglySorted before k -> l ≡ₚ k -> l = k.
Proof. apply StronglySorted_unique_strong. intros a b _ _ Ha Hb. by destruct (before_asym a b). Qed.

Lemma sorted_filter (P : AuditEvent -> Prop) `{!forall e, Decision (P e)} l :
  StronglySorted before l -> StronglySorted before (filter P l).
Proof.
  induction 1 as [|x l Hs IH Hx]; [constructor|]. rewrite filter_cons. case_decide; [|done].
  constructor; [done|]. rewrite Forall_forall in *. intros y [_ Hy]%list_elem_of_filter. auto.
Qed.

(** Selecting rows and ordering them commute. *)
Lemma event_order_filter (P : AuditEvent -> Prop) `{!forall e, Decision (P e)} l :
  NoDup (au_id <$> l) -> event_order (filter P l) = filter P (event_order l).
Proof.
  intros Hnd. apply sorted_events_unique.
  - apply event_order_sorted. eapply sublist_NoDup; [exact Hnd|]. apply fmap_sublist, sublist_filter.
  - by apply sorted_filter, event_order_sorted.
  - by rewrite !event_order_perm.
Qed.

(** Replacing a value by one with the same image. *)
Lemma odict_set_image {V W} (f : V -> W) k (u v : V) (d : list (string * V)) :
  odict_get k d = Some u -> f u = f v -> f <$> (odict_set k v d).*2 = f <$> d.*2.
Proof.
  intros Hu Hf. induction d as [|[k' x] d IH]; cbn in *; [done|]. case_decide.
  - injection Hu as ->. cbn. by rewrite Hf.
  - cbn. by rewrite IH.
Qed.

(** ** The last event of each source, in the order of the first *)

Section ranked.
Context (l : list AuditEvent) (Hnd : NoDup (au_id <$> l)).

Local Abbreviation sorted := (event_order l).
Local Abbreviation lasts := (last_by source_name sorted).

Lemma first_of_name e e' : source_name e = source_name e' -> e ∈ l -> e' ∈ l -> first_of l e = first_of l e'.
Proof.
  intros Hs He He'. unfold first_of, of_source. rewrite Hs.
  destruct (event_order _) as [|x k] eqn:Hk; [|done]. exfalso.
  assert (Hin : e' ∈ event_order (filter (fun x => source_name x = source_name e') l)).
  { rewrite event_order_perm. by apply list_elem_of_filter. }
  rewrite Hk in Hin. by apply not_elem_of_nil in Hin.
Qed.

Lemma first_of_spec e : e ∈ l ->
  first_of l e ∈ l /\ source_name (first_of l e) = source_name e /\
  (forall x, x ∈ l -> source_name x = source_name e -> x = first_of l e \/ before (first_of l e) x).
Proof.
  intros He. unfold first_of, of_source. rewrite event_order_filter by done.
  pose proof (sorted_filter (fun x => source_name x = source_name e) sorted (event_order_sorted l Hnd)) as Hs.
  assert (Hin : forall x, x ∈ filter (fun x => source_name x = source_name e) sorted <-> x ∈ l /\ source_name x = source_name e).
  { intros x. rewrite list_elem_of_filter, event_order_perm. tauto. }
  destruct (filter _ _) as [|y k]; cbn.
  - assert (He' : e ∈ []) by by apply Hin. by apply not_elem_of_nil in He'.
  - destruct (proj1 (Hin y)) as [Hy Hsy]; [by left|]. repeat split; [done..|].
    intros x Hx Hsx. assert (Hxin : x ∈ y :: k) by by apply Hin. inversion_clear Hs as [|? ? _ Hall].
    apply elem_of_cons in Hxin as [->|Hxin]; [by left|right]. rewrite Forall_forall in Hall. auto.
Qed.

Lemma winner_spec e : e ∈ l ->
  winner l e = true <-> forall x, x ∈ l -> source_name x = source_name e -> x = e \/ before x e.
Proof.
  intros He. unfold winner, of_source. rewrite bool_decide_eq_true, Forall_forall. split.
  - intros Hw x Hx Hs. destruct (decide (au_id x = au_id e)) as [Hid|Hid]; [left; by apply (ids_distinct l)|right].
    apply event_ltb_total; [congruence|]. apply Hw, list_elem_of_filter. done.
  - intros Hw x [Hs Hx]%list_elem_of_filter. destruct (Hw x Hx Hs) as [->|Hb].
    + by apply not_true_is_false, before_irrefl.
    + apply not_true_is_false. intros Hex. by apply (before_asym x e).
Qed.

Lemma firsts_distinct k : (forall e, e ∈ k -> e ∈ l) ->
  StronglySorted (fun a b => before (first_of l a) (first_of l b)) k -> NoDup ((fun e => au_id (first_of l e)) <$> k).
Proof.
  intros Hin Hs. induction Hs as [|x k Hs IH Hx]; constructor.
  - intros (y & Heq & Hy)%list_elem_of_fmap. rewrite Forall_forall in Hx. apply (before_irrefl (first_of l x)).
    rewrite (ids_distinct l (first_of l x) (first_of l y)) at 2; [by apply Hx|done|..|done];
      apply first_of_spec, Hin; [by left|by right].
  - apply IH. intros e He. apply Hin. by right.
Qed.

(** The first event of a source of a prefix lies in the prefix. *)
Lemma keys_sorted pre suf : sorted = pre ++ suf ->
  StronglySorted (fun a b => before (first_of l a) (first_of l b)) (last_by source_name pre).*2 /\
  (forall e, e ∈ (last_by source_name pre).*2 -> first_of l e ∈ pre).
Proof.
  revert suf. induction pre as [|v pre IH] using rev_ind; intros suf Hsplit.
  { split; [constructor|]. intros e He. by apply not_elem_of_nil in He. }
  rewrite <-(assoc_L (++)) in Hsplit. destruct (IH _ Hsplit) as [Hs Hin].
  pose proof (event_order_sorted l Hnd) as Hord. rewrite Hsplit in Hord.
  assert (Hl : forall x, x ∈ pre -> x ∈ l).
  { intros x Hx. rewrite <-event_order_perm, Hsplit. apply elem_of_app. by left. }
  assert (Hv : v ∈ l) by (rewrite <-event_order_perm, Hsplit; set_solver).
  rewrite last_by_snoc. destruct (odict_get (source_name v) (last_by source_name pre)) as [u|] eqn:Hu.
  - apply odict_get_in in Hu as Hu'. apply last_by_elem in Hu' as [Hupre Hname].
    assert (Hfirst : first_of l u = first_of l v) by by apply first_of_name; [|apply Hl|].
    pose proof (odict_set_image (first_of l) _ _ _ _ Hu Hfirst) as Hmap.
    split.
    + revert Hmap Hs. generalize (odict_set (source_name v) v (last_by source_name pre)).*2 as k2.
      generalize (last_by source_name pre).*2 as k1. intros k1 k2 Hmap Hs.
      assert (HT : StronglySorted before (first_of l <$> k1)).
      { eapply StronglySorted_fmap; [|exact Hs]. done. }
      rewrite <-Hmap in HT. clear Hs Hmap. induction k2 as [|x k2 IH2]; constructor; inversion_clear HT as [|? ? HT' Hall].
      * by apply IH2.
      * by rewrite Forall_fmap in Hall.
    + intros e He. apply elem_of_app. left.
      assert (Hf : first_of l e ∈ (first_of l) <$> (last_by source_name pre).*2) by (rewrite <-Hmap; by apply list_elem_of_fmap_2).
      apply list_elem_of_fmap in Hf as (x & -> & Hx). auto.
  - assert (Hnone : forall x, x ∈ pre -> source_name x <> source_name v).
    { intros x Hx Heq. pose proof (last_by_complete source_name pre x Hx) as Hc. rewrite Heq in Hc.
      apply odict_get_keys in Hc as [? Hc]. congruence. }
    assert (Hfv : first_of l v = v).
    { destruct (first_of_spec v Hv) as (Hf & Hname & Hmin). destruct (Hmin v Hv eq_refl) as [?|Hb]; [done|].
      apply elem_of_event_order in Hf. rewrite Hsplit in Hf. apply elem_of_app in Hf as [Hf|Hf].
      - by destruct (Hnone _ Hf).
      - apply elem_of_app in Hf as [->%list_elem_of_singleton|Hf]; [done|]. exfalso.
        apply StronglySorted_app in Hord as (_ & _ & Hord). inversion_clear Hord as [|? ? _ Hall].
        rewrite Forall_forall in Hall. by apply (before_asym v (first_of l v)); [apply Hall|]. }
    rewrite odict_set_new by done. rewrite fmap_app. cbn. split.
    + apply StronglySorted_app. repeat split; [|done|by repeat constructor].
      intros x1 x2 Hx1 ->%list_elem_of_singleton. rewrite Hfv.
      eapply (StronglySorted_app_1_elem_of before pre ([v] ++ suf)); [exact Hord|by apply Hin|by left].
    + intros e [He| ->%list_elem_of_singleton]%elem_of_app; apply elem_of_app; [left; auto|right]. rewrite Hfv. by left.
Qed.

Lemma elem_of_lasts e : e ∈ lasts.*2 <-> e ∈ l /\ winner l e = true.
Proof.
  rewrite list_elem_of_fmap. split.
  - intros ([k x] & -> & Hx). cbn. pose proof Hx as Hx'. apply last_by_elem in Hx' as [Hin <-]. rewrite event_order_perm in Hin.
    split; [done|]. apply winner_spec; [done|]. intros y Hy Hs.
    apply odict_get_some in Hx; [|apply last_by_nodup]. rewrite last_by_get in Hx.
    apply last_filter_Some in Hx as (l1 & l2 & Hl & Hno). rewrite Forall_forall in Hno.
    pose proof (event_order_sorted l Hnd) as Hord. rewrite Hl in Hord.
    assert (Hyin : y ∈ l1 ++ x :: l2) by by rewrite <-Hl, event_order_perm.
    apply elem_of_app in Hyin as [Hy1|[->|Hy2]%elem_of_cons]; [right|by left|by destruct (Hno y Hy2)].
    eapply StronglySorted_app_1_elem_of; [exact Hord|done|by left].
  - intros [He Hw]. exists (source_name e, e). split; [done|]. apply odict_get_in. rewrite last_by_get.
    destruct (last (filter (fun v => source_name v = source_name e) sorted)) as [x|] eqn:Hx.
    + f_equal. apply last_filter_Some in Hx as Hx'. destruct Hx' as (l1 & l2 & Hl & Hno).
      pose proof (event_order_sorted l Hnd) as Hord. rewrite Hl in Hord. rewrite Forall_forall in Hno.
      assert (Hxf : x ∈ filter (fun v => source_name v = source_name e) sorted) by by apply last_Some_elem_of.
      apply list_elem_of_filter in Hxf as [Hsx Hxin]. rewrite event_order_perm in Hxin.
      rewrite winner_spec in Hw by done. destruct (Hw x Hxin Hsx) as [?|Hb]; [done|].
      assert (Hein : e ∈ l1 ++ x :: l2) by by rewrite <-Hl, event_order_perm.
      apply elem_of_app in Hein as [He1|[->|He2]%elem_of_cons]; [|done|by destruct (Hno e He2)].
      exfalso. apply (before_asym x e); [done|]. eapply StronglySorted_app_1_elem_of; [exact Hord|done|by left].
    + apply last_None in Hx. exfalso. apply (not_elem_of_nil e). rewrite <-Hx. apply list_elem_of_filter.
      by rewrite event_order_perm.
Qed.

Lemma winners_lasts :
  stable_sort (fun a b => negb (event_ltb (first_of l b) (first_of l a))) (filter (fun e => winner l e = true) l) =
  lasts.*2.
Proof.
  destruct (keys_sorted sorted []) as [Hk _]; [by rewrite app_nil_r|].
  assert (Hnd2 : NoDup lasts.*2).
  { induction Hk as [|x k Hk IH Hx]; constructor; [|done]. rewrite Forall_forall in Hx.
    intros Hin. by apply (before_irrefl (first_of l x)), Hx. }
  assert (Hperm : filter (fun e => winner l e = true) l ≡ₚ lasts.*2).
  { apply NoDup_Permutation; [|done|].
    - apply NoDup_filter. by apply (NoDup_fmap_1 au_id).
    - intros e. rewrite list_elem_of_filter, elem_of_lasts. tauto. }
  apply (StronglySorted_unique_strong (fun a b => before (first_of l a) (first_of l b))); [..|exact Hk|].
  - intros a b _ _ Ha Hb. by destruct (before_asym _ _ Ha Hb).
  - apply (strictly_sorted (first_of l)).
    + by apply (stable_sort_weak (fun a b => event_ltb (first_of l a) (first_of l b))), weak_order_map, event_ltb_weak.
    + rewrite stable_sort_perm, Hperm. apply firsts_distinct; [|done]. intros e He. by apply elem_of_lasts.
  - by rewrite stable_sort_perm.
Qed.
End ranked.

(** ** Reading the ledger *)

(** The events a query for some sources reads. *)
Definition wanted (sources : option (list string)) (e : AuditEvent) : bool :=
  match sources, au_source e with
  | None, _ => true
  | Some l, Some s => bool_decide (s ∈ l)
  | Some _, None => false
  end.

Section reading.
Context (fromisoformat : string -> option datetime).

Local Abbreviation step := (latest_step fromisoformat).
Local Abbreviation latest := (latest_records fromisoformat).

Definition no_claims : exn := TypeError "object is not iterable".

(** The record an eligible event is read as. *)
Definition record_of (e : AuditEvent) : SupersessionRecord :=
  let m := match au_payload e with VDict m => m | _ => [] end in
  Record_ (au_type e) (default "" (as_str (meta_get "file" m))) (source_name e)
    (omap (read_claim fromisoformat) (match claim_items (meta_get "claims" m) with Ok l => l | Raise _ => [] end)).

Lemma eligible_wanted scope sources e : eligible scope sources e = eligible scope None e && wanted sources e.
Proof.
  unfold eligible, wanted.
  destruct (au_source e) as [s|], (au_payload e), sources as [k|]; cbn;
    by rewrite ?andb_false_r, ?andb_true_r, ?andb_assoc.
Qed.

Lemma step_other scope d e : eligible scope None e = false -> step scope d e = Ok d.
Proof.
  unfold latest_step, eligible, in_scope, from_event.
  destruct (au_payload e) as [| | | | | | |m]; try done; destruct (au_source e) as [s|]; try (by destruct (is_text _ _)).
  destruct (is_text (meta_get "scope" m) scope); [|done]. rewrite !andb_true_r. case_decide as Ht; [|done].
  rewrite !bool_decide_true by apply Ht. rewrite bool_decide_false by apply Ht. cbn.
  by destruct (meta_get "file" m).
Qed.

Lemma step_eligible scope d e : eligible scope None e = true ->
  step scope d e = if bad_claims e then Raise no_claims else Ok (odict_set (source_name e) (record_of e) d).
Proof.
  unfold latest_step, eligible, in_scope, from_event, bad_claims, record_of, source_name.
  destruct (au_payload e) as [| | | | | | |m]; try (by rewrite andb_false_r || by destruct (au_source e); rewrite andb_false_r).
  destruct (au_source e) as [s|]; [|by rewrite andb_false_r]. intros Hel. split_bool.
  destruct (meta_get "file" m) as [| | | |file| | |] eqn:Hf; try done. cbn [default].
  rewrite decide_True by done. rewrite H3. unfold claim_items.
  destruct (meta_get "claims" m) as [|[]|z|f|t|dt|[|x k]|[|x k]]; cbn [truthy negb]; try done.
  - by destruct (z =? 0).
  - by destruct f.
  - by case_bool_decide.
Qed.

(** Reading a list of events: what is not eligible changes nothing. *)
Lemma latest_eligible scope L d :
  result_foldl (step scope) d L = result_foldl (step scope) d (filter (fun e => eligible scope None e = true) L).
Proof.
  revert d. induction L as [|e L IH]; intros d; [done|]. rewrite filter_cons. case_decide as He.
  - cbn [result_foldl mbind result_bind]. destruct (step scope d e); [apply IH|done].
  - cbn [result_foldl]. rewrite step_other by by apply not_true_is_false. apply IH.
Qed.

Lemma latest_bad scope L d : Forall (fun e => eligible scope None e = true) L ->
  (exists e, e ∈ L /\ bad_claims e = true) -> result_foldl (step scope) d L = Raise no_claims.
Proof.
  intros Hel. revert d. induction Hel as [|e L He _ IH]; intros d (x & Hx & Hb); [by apply not_elem_of_nil in Hx|].
  cbn [result_foldl]. rewrite step_eligible by done. destruct (bad_claims e) eqn:Hbe; [done|].
  apply IH. apply elem_of_cons in Hx as [->|Hx]; [congruence|by exists x].
Qed.

Definition as_record (x : string * AuditEvent) : string * SupersessionRecord := (x.1, record_of x.2).

Lemma latest_good scope L : Forall (fun e => eligible scope None e = true) L -> Forall (fun e => bad_claims e = false) L ->
  latest L scope = Ok (as_record <$> last_by source_name L).
Proof.
  unfold latest_records. intros Hel Hgood. induction L as [|e L IH] using rev_ind; [done|].
  apply Forall_app in Hel as [Hel He]. apply Forall_app in Hgood as [Hgood Hb].
  rewrite Forall_singleton in He, Hb. rewrite result_foldl_snoc, IH by done. cbn [mbind result_bind].
  rewrite step_eligible, Hb by done. f_equal. rewrite last_by_snoc.
  generalize (last_by source_name L) as d. induction d as [|[k x] d IHd]; cbn; [done|].
  case_decide; cbn; [done|]. by rewrite IHd.
Qed.

Lemma latest_distinct L : NoDup (source_name <$> L) -> (last_by source_name L).*2 = L.
Proof.
  induction L as [|e L IH] using rev_ind; [done|]. rewrite fmap_app. intros (Hnd & Hno & _)%NoDup_app.
  rewrite last_by_snoc, odict_set_new, fmap_app, IH; [done..|].
  destruct (odict_get _ _) eqn:Hg; [|done]. exfalso. apply odict_get_in, last_by_elem in Hg as [Hin Hs].
  apply (Hno (source_name e)); [rewrite <-Hs; by apply list_elem_of_fmap_2|by left].
Qed.

Lemma good_records scope L : Forall (fun e => eligible scope None e = true) L -> Forall (fun e => bad_claims e = false) L ->
  (fun d => d.*2) <$> latest L scope = Ok (record_of <$> (last_by source_name L).*2).
Proof.
  intros Hel Hgood. rewrite latest_good by done. cbn [fmap result_fmap]. f_equal.
  by rewrite <-!list_fmap_compose.
Qed.

(** The ranking keeps the records of a list of eligible events. *)
Lemma selected_latest scope E : NoDup (au_id <$> E) -> Forall (fun e => eligible scope None e = true) E ->
  (fun d => d.*2) <$> latest (selected E) scope = (fun d => d.*2) <$> latest (event_order E) scope.
Proof.
  intros Hnd Hel. unfold selected. destruct (event_order (filter (fun e => bad_claims e = true) E)) as [|bad k] eqn:Hb.
  - assert (Hgood : Forall (fun e => bad_claims e = false) E).
    { apply Forall_forall. intros e He. apply not_true_is_false. intros Hbe. apply (not_elem_of_nil e).
      rewrite <-Hb. apply elem_of_event_order, list_elem_of_filter. done. }
    rewrite winners_lasts by done.
    assert (Hsub : forall e, e ∈ (last_by source_name (event_order E)).*2 -> e ∈ E).
    { intros e He. by apply elem_of_lasts in He as []. }
    rewrite Forall_forall in Hel, Hgood. rewrite !good_records;
      [do 2 f_equal|apply Forall_forall; intros e He; rewrite ?elem_of_event_order in He; auto..].
    apply latest_distinct. rewrite last_by_keys. apply last_by_nodup.
  - assert (Hbad : bad ∈ filter (fun e => bad_claims e = true) E) by (rewrite <-elem_of_event_order, Hb; by left).
    apply list_elem_of_filter in Hbad as [Hbb Hin]. rewrite Forall_forall in Hel. unfold latest_records.
    rewrite (latest_bad scope [bad]), (latest_bad scope (event_order E)); [done|..].
    + apply Forall_forall. intros e. rewrite elem_of_event_order. auto.
    + exists bad. by rewrite elem_of_event_order.
    + rewrite Forall_singleton. auto.
    + exists bad. by split; [left|].
Qed.

Lemma latest_wanted scope sources ledger : NoDup (au_id <$> ledger) ->
  latest (event_order (filter (fun e => wanted sources e = true) ledger)) scope =
  latest (event_order (filter (fun e => eligible scope sources e = true) ledger)) scope.
Proof.
  intros Hnd. unfold latest_records. rewrite latest_eligible, <-event_order_filter, list_filter_filter.
  - do 2 f_equal. apply list_filter_iff. intros e. rewrite (eligible_wanted scope sources e), andb_true_iff. tauto.
  - eapply sublist_NoDup; [exact Hnd|]. apply fmap_sublist, sublist_filter.
Qed.

(** Ranking in the database changes nothing: the records a query selects by window functions,
    for a scope and possibly some sources, are those a reading of every event of those sources in
    the order they were written would keep, in the same order, and the query raises exactly when
    that reading would. *)
Theorem pg_records_latest ledger scope sources : NoDup (au_id <$> ledger) ->
  pg_records fromisoformat ledger scope sources =
  (fun d => d.*2) <$> latest (event_order (filter (fun e => wanted sources e = true) ledger)) scope.
Proof.
  intros Hnd. rewrite latest_wanted by done. unfold pg_records. destruct sources as [[|s k]|]; cycle 1.
  - apply selected_latest; [|apply Forall_forall].
    + eapply sublist_NoDup; [exact Hnd|]. apply fmap_sublist, sublist_filter.
    + intros e [He _]%list_elem_of_filter. rewrite eligible_wanted in He. by apply andb_true_iff in He as [].
  - apply selected_latest; [|apply Forall_forall].
    + eapply sublist_NoDup; [exact Hnd|]. apply fmap_sublist, sublist_filter.
    + by intros e [He _]%list_elem_of_filter.
  - rewrite list_filter_none; [done|]. apply Forall_forall. intros e _ He. rewrite eligible_wanted in He.
    apply andb_true_iff in He as [_ He]. unfold wanted in He. destruct (au_source e); [|done].
    by apply bool_decide_eq_true, not_elem_of_nil in He.
Qed.
End reading.

(** ** The claims of some rows *)

(** The claim a row makes for a source, and the file it names that source by. *)
Definition claim_at (s : string) (p : RowParts) : option RecordClaim :=
  match text_of (rp_file p), text_of (rp_source p), text_of (rp_supersedes p) with
  | Some _, Some s', Some t => if decide (s = s') then Some (Claim t (rp_first p) (rp_from p) (rp_until p)) else None
  | _, _, _ => None
  end.

Definition file_at (s : string) (p : RowParts) : option string :=
  match text_of (rp_file p), text_of (rp_source p) with
  | Some file, Some s' => if decide (s = s') then Some file else None
  | _, _ => None
  end.

Definition claims_of (s : string) (ps : list RowParts) : list RecordClaim := omap (claim_at s) ps.
Definition named_by (s : string) (ps : list RowParts) : option string := head (omap (file_at s) ps).

Lemma record_step_get files claims p s :
  odict_get s (record_step (files, claims) p).1 = (match odict_get s files with Some f => Some f | None => file_at s p end) /\
  odict_get s (record_step (files, claims) p).2 =
    (match claim_at s p with Some c => Some (default [] (odict_get s claims) ++ [c]) | None => odict_get s claims end) /\
  (NoDup claims.*1 -> NoDup (record_step (files, claims) p).2.*1).
Proof.
  unfold record_step, claim_at, file_at.
  destruct (text_of (rp_file p)) as [file|]; cbn [fst snd]; [|by destruct (odict_get s files)].
  destruct (text_of (rp_source p)) as [source|]; cbn [fst snd]; [|by destruct (odict_get s files)].
  assert (Hf : odict_get s (match odict_get source files with Some _ => files | None => odict_set source file files end) =
               match odict_get s files with Some f => Some f | None => if decide (s = source) then Some file else None end).
  { destruct (odict_get source files) as [f|] eqn:Hg; [|rewrite odict_get_set]; case_decide; subst; rewrite ?Hg; try done;
      by destruct (odict_get s files). }
  destruct (text_of (rp_supersedes p)) as [t|]; cbn [fst snd]; (split; [exact Hf|]); [|done].
  split; [|apply odict_push_nodup]. unfold odict_push. rewrite odict_get_set. by case_decide; subst.
Qed.

Lemma record_fold ps s :
  odict_get s (foldl record_step ([], []) ps).1 = named_by s ps /\
  odict_get s (foldl record_step ([], []) ps).2 = (match claims_of s ps with [] => None | l => Some l end) /\
  NoDup (foldl record_step ([], []) ps).2.*1.
Proof.
  induction ps as [|p ps IH] using rev_ind; [repeat split; constructor|].
  rewrite foldl_snoc. destruct (foldl record_step ([], []) ps) as [files claims]. destruct IH as (Hf & Hc & Hnd).
  destruct (record_step_get files claims p s) as (Hsf & Hsc & Hsn). unfold named_by, claims_of in *.
  rewrite Hsf, Hsc, !omap_app. cbn [fst snd omap list_omap] in *. repeat split; [..|by apply Hsn].
  - rewrite Hf. destruct (omap (file_at s) ps); cbn; [by destruct (file_at s p)|done].
  - rewrite Hc. destruct (claim_at s p) as [c|]; [|by rewrite app_nil_r]. by destruct (omap (claim_at s) ps).
Qed.

(** The record of a source among those of some rows. *)
Lemma records_from_rows_get kind rows s :
  odict_get s (last_by sr_source (records_from_rows kind rows)) =
  match claims_of s (map row_parts rows) with
  | [] => None
  | l => Some (Record_ kind (default "" (named_by s (map row_parts rows))) s l)
  end.
Proof.
  unfold records_from_rows. destruct (record_fold (map row_parts rows) s) as (Hf & Hc & Hnd).
  destruct (foldl record_step ([], []) (map row_parts rows)) as [files claims]. cbn [fst snd] in *.
  rewrite <-Hf. set (mk := fun source => Record_ kind (default "" (odict_get source files)) source (default [] (odict_get source claims))).
  assert (Hsrc : sr_source <$> map mk (sorted_strings claims.*1) = sorted_strings claims.*1).
  { rewrite <-list_fmap_compose. apply list_fmap_id. }
  assert (Hkey : s ∈ claims.*1 <-> claims_of s (map row_parts rows) <> []).
  { rewrite <-odict_get_keys, Hc. destruct (claims_of _ _); split; [by intros []|done|done|by eexists]. }
  destruct (claims_of s (map row_parts rows)) as [|c l] eqn:Hl.
  - destruct (odict_get s (last_by _ _)) eqn:Hg; [|done]. exfalso. apply odict_get_in, last_by_elem in Hg as [Hin Hs].
    assert (Hs' : s ∈ sr_source <$> map mk (sorted_strings claims.*1)) by (rewrite <-Hs; by apply list_elem_of_fmap_2).
    rewrite Hsrc, elem_of_sorted_strings in Hs'. by apply Hkey in Hs'.
  - assert (Hmk : mk s = Record_ kind (default "" (odict_get s files)) s (c :: l)) by (unfold mk; by rewrite Hc).
    rewrite <-Hmk. change s with (sr_source (mk s)) at 1. apply last_by_distinct.
    + rewrite Hsrc, sorted_strings_perm. done.
    + apply list_elem_of_fmap_2, elem_of_sorted_strings, Hkey. done.
Qed.

(** ** A record is read as it was written *)

Definition readable_claim (c : RecordClaim) : Prop :=
  rc_target c <> "" /\ match rc_first c with Some (Naive _) => False | _ => True end.

Definition readable (r : SupersessionRecord) : Prop :=
  sr_kind r ∈ RECORD_TYPES /\ sr_source r <> "" /\ Forall readable_claim (sr_claims r).

(** Dates are read back as they were printed. *)
Definition iso_roundtrip (isoformat : datetime -> string) (fromisoformat : string -> option datetime) : Prop :=
  forall us, fromisoformat (isoformat (Aware us)) = Some (Aware us).

(** What one event does to the records read so far. *)
Inductive effect (fromisoformat : string -> option datetime) (scope : string) (e : AuditEvent) : Prop :=
| NoEffect (H : forall d, latest_step fromisoformat scope d e = Ok d)
| Records r (Hs : au_source e = Some (sr_source r)) (Hr : readable r)
    (H : forall d, latest_step fromisoformat scope d e = Ok (odict_set (sr_source r) r d))
| Unreadable (H : forall d, latest_step fromisoformat scope d e = Raise no_claims).

Lemma read_claim_readable fromiso v c : read_claim fromiso v = Some c -> readable_claim c.
Proof.
  unfold read_claim. destruct v as [| | | | | |[|[| | | |target| | |] [|first [|from [|until []]]]]|]; try done.
  case_decide as Ht; [done|]. intros [= <-]. split; [done|]. cbn. destruct first; try done. by destruct (fromiso s).
Qed.

Lemma event_effect fromiso scope e : effect fromiso scope e.
Proof.
  destruct (eligible scope None e) eqn:Hel; [|apply NoEffect; intros d; by apply step_other].
  destruct (bad_claims e) eqn:Hb.
  - apply Unreadable. intros d. by rewrite step_eligible, Hb.
  - apply (Records _ _ _ (record_of fromiso e)).
    + unfold eligible in Hel. cbn. unfold source_name. destruct (au_source e); [done|by rewrite andb_false_r in Hel].
    + unfold eligible in Hel. unfold readable, record_of, source_name. cbn. destruct (au_source e) as [s|]; [|by rewrite andb_false_r in Hel].
      destruct (au_payload e); rewrite ?andb_false_r in Hel; try done. split_bool. repeat split; [done..|].
      apply Forall_forall. intros c (v & _ & Hv)%list_elem_of_omap. by eapply read_claim_readable.
    + intros d. by rewrite step_eligible, Hb.
Qed.

Section writing.
Context (isoformat : datetime -> string) (fromisoformat : string -> option datetime).
Context (Hiso : iso_roundtrip isoformat fromisoformat).

Lemma claim_roundtrip c : readable_claim c -> read_claim fromisoformat (claim_value isoformat c) = Some c.
Proof.
  destruct c as [target first from until]. intros [Ht Hf]. cbn in *. rewrite decide_False by done.
  destruct first as [[us|us]|]; [done|by rewrite Hiso|done].
Qed.

Lemma record_roundtrip r scope : readable r ->
  from_event fromisoformat (sr_kind r) (Some (sr_source r)) (record_payload isoformat r scope) = Ok (Some r).
Proof.
  destruct r as [kind file source claims]. intros (Hk & Hs & Hc). cbn in *. rewrite decide_True by done.
  unfold meta_get. cbn [odict_get]. rewrite decide_False, decide_True by done. cbn.
  rewrite decide_False, decide_False, decide_True by done. cbn.
  assert (Hitems : claim_items (VList (map (claim_value isoformat) claims)) = Ok (map (claim_value isoformat) claims)) by by destruct claims.
  rewrite Hitems. cbn. do 3 f_equal. clear Hitems.
  induction Hc as [|c claims Hrc _ IH]; [done|]. cbn [map omap list_omap]. rewrite claim_roundtrip by done. by f_equal.
Qed.

Context (stamp : nat -> string * Z).

Lemma written_step actor scope n r d : readable r ->
  latest_step fromisoformat scope d (record_event isoformat stamp actor scope n r) = Ok (odict_set (sr_source r) r d).
Proof.
  intros Hr. unfold latest_step, record_event. cbn [au_payload au_type au_source].
  replace (in_scope scope (record_payload isoformat r scope)) with true; [by rewrite record_roundtrip|].
  symmetry. by apply (bool_decide_true (scope = scope)).
Qed.

Lemma written_latest actor scope ledger records : Forall readable records ->
  latest_records fromisoformat (append_records isoformat stamp actor scope ledger records) scope =
  (d ← latest_records fromisoformat ledger scope; Ok (foldl (fun d r => odict_set (sr_source r) r d) d records)).
Proof.
  intros Hr. unfold append_records. revert ledger. induction Hr as [|r records Hrr _ IH]; intros ledger; cbn [foldl].
  - by destruct (latest_records fromisoformat ledger scope).
  - rewrite IH. unfold latest_records. rewrite result_foldl_snoc.
    destruct (result_foldl _ [] ledger) as [d|]; [|done]. cbn [mbind result_bind]. by rewrite written_step.
Qed.

(** ** A ledger that only grows *)

(** Ids differ and time goes on from one event to the next. *)
Record clock : Prop := {
  ck_ids : forall i j, (stamp i).1 = (stamp j).1 -> i = j;
  ck_time : forall i j, (i < j)%nat -> (stamp i).2 < (stamp j).2
}.

Definition stamped (ledger : list AuditEvent) : Prop :=
  forall i e, ledger !! i = Some e -> au_id e = (stamp i).1 /\ au_at e = (stamp i).2.

Lemma stamped_snoc ledger e : stamped ledger -> au_id e = (stamp (length ledger)).1 -> au_at e = (stamp (length ledger)).2 ->
  stamped (ledger ++ [e]).
Proof.
  intros Hl Hid Hat i x [Hx|[Hi Hx]]%lookup_app_Some; [by apply Hl|].
  apply list_lookup_singleton_Some in Hx as [Hz <-]. by replace i with (length ledger) by lia.
Qed.

Lemma append_stamped actor scope ledger records :
  stamped ledger -> stamped (append_records isoformat stamp actor scope ledger records).
Proof.
  unfold append_records. revert ledger. induction records as [|r records IH]; intros ledger Hl; cbn; [done|].
  apply IH. by apply stamped_snoc.
Qed.

Lemma stamped_nodup ledger : clock -> stamped ledger -> NoDup (au_id <$> ledger).
Proof.
  intros Hck Hl. apply NoDup_alt. intros i j x Hi Hj. rewrite list_lookup_fmap in Hi, Hj.
  destruct (ledger !! i) as [a|] eqn:Ha; [|done]. destruct (ledger !! j) as [b|] eqn:Hb; [|done].
  injection Hi as Hi. injection Hj as Hj. apply (ck_ids Hck). destruct (Hl i a Ha), (Hl j b Hb). congruence.
Qed.

Lemma stamped_ordered ledger : clock -> stamped ledger -> event_order ledger = ledger.
Proof.
  intros Hck Hl. apply sorted_events_unique; [by apply event_order_sorted, stamped_nodup| |apply event_order_perm].
  induction ledger as [|e ledger IH] using rev_ind; [constructor|]. apply StronglySorted_app. repeat split; [|apply IH|by repeat constructor].
  - intros a b (i & Ha)%list_elem_of_lookup ->%list_elem_of_singleton. pose proof (lookup_lt_Some _ _ _ Ha) as Hlt.
    destruct (Hl i a) as [_ Hta]; [by rewrite lookup_app_l|].
    destruct (Hl (length ledger) e) as [_ Hte]; [by rewrite lookup_app_r, Nat.sub_diag|].
    pose proof (ck_time Hck i (length ledger) Hlt). unfold before, event_ltb.
    rewrite decide_False, Z.ltb_lt by lia. lia.
  - intros i x Hx. apply Hl. by apply lookup_app_l_Some.
Qed.
End writing.

(** ** What a removal decides *)

Lemma last_by_own {V} (key_of : V -> string) (d : list (string * V)) :
  NoDup d.*1 -> (forall k v, (k, v) ∈ d -> key_of v = k) -> last_by key_of d.*2 = d.
Proof.
  induction d as [|[k v] d IH] using rev_ind; [done|]. rewrite !fmap_app. intros (Hnd & Hno & _)%NoDup_app Hk. cbn.
  assert (Hv : key_of v = k) by (apply Hk, elem_of_app; right; by left).
  rewrite last_by_snoc, IH, Hv, odict_set_new; [done|..|done|].
  - destruct (odict_get k d) eqn:Hg; [|done]. exfalso. apply (Hno k); [|by left]. apply odict_get_keys. by eexists.
  - intros k' v' Hin. apply Hk, elem_of_app. by left.
Qed.

(** Setting what a list of distinct keys owes. *)
Lemma set_owed {V} (key_of : V -> string) (f : string -> option V) (l : list string) (d : list (string * V)) s :
  NoDup l -> (forall x v, x ∈ l -> f x = Some v -> key_of v = x) ->
  odict_get s (foldl (fun d v => odict_set (key_of v) v d) d (omap f l)) =
  if decide (s ∈ l) then (match f s with Some v => Some v | None => odict_get s d end) else odict_get s d.
Proof.
  intros Hnd Hf. revert d. induction Hnd as [|x l Hx _ IH]; intros d; cbn.
  { rewrite decide_False; [done|]. apply not_elem_of_nil. }
  assert (Hf' : forall y v, y ∈ l -> f y = Some v -> key_of v = y) by (intros; apply Hf; [by right|done]).
  destruct (decide (s = x)) as [->|Hs].
  - rewrite (decide_True (P := x ∈ x :: l)) by by left.
    destruct (f x) as [v|] eqn:Hv; cbn; rewrite IH, decide_False by done; [|done].
    rewrite (Hf x v) by (by left || done). by rewrite odict_get_set_eq.
  - rewrite (decide_ext (s ∈ x :: l) (s ∈ l)) by (rewrite elem_of_cons; tauto).
    destruct (f x) as [v|] eqn:Hv; cbn; rewrite IH by done; [|done].
    rewrite odict_get_set_ne; [done|]. by rewrite (Hf x v) by (by left || done).
Qed.

Section removal.
Context (isoformat : datetime -> string) (fromisoformat : string -> option datetime) (json_text : value -> string).
Context (Hiso : iso_roundtrip isoformat fromisoformat).
Context (stamp : nat -> string * Z) (Hclock : clock stamp).

Local Abbreviation latest := (latest_records fromisoformat).

Record well_read (d : list (string * SupersessionRecord)) : Prop := {
  wr_nodup : NoDup d.*1;
  wr_source : forall k r, (k, r) ∈ d -> sr_source r = k;
  wr_readable : forall k r, (k, r) ∈ d -> readable r
}.

Lemma well_read_set d r : well_read d -> readable r -> well_read (odict_set (sr_source r) r d).
Proof.
  intros [Hn Hs Hr] Hrr. split; [by apply odict_set_nodup|..]; intros k x [[= -> ->]|Hin]%odict_set_elem; eauto.
Qed.

Lemma latest_well_read L scope d : latest L scope = Ok d -> well_read d.
Proof.
  intros Hd. apply (result_foldl_inv _ (fun _ d => well_read d)) in Hd; [done|..].
  - split; [constructor|..]; intros k r Hin; by apply not_elem_of_nil in Hin.
  - intros _ e b b' Hb _ Hstep. destruct (event_effect fromisoformat scope e) as [H|r Hs Hr H|H]; rewrite H in Hstep.
    + by injection Hstep as <-.
    + injection Hstep as <-. by apply well_read_set.
    + done.
Qed.

(** Reading the events of some sources only: the same records of those sources. *)
Lemma latest_restrict k L scope d : latest L scope = Ok d ->
  exists d', latest (filter (fun e => wanted (Some k) e = true) L) scope = Ok d' /\
             forall s, s ∈ k -> odict_get s d' = odict_get s d.
Proof.
  unfold latest_records. revert d. induction L as [|e L IH] using rev_ind; intros d; [intros [= <-]; by exists []|].
  rewrite result_foldl_snoc, bind_ok. intros (d0 & Hd0 & He). destruct (IH d0 Hd0) as (d0' & Hd0' & Hget).
  rewrite filter_app, filter_cons, filter_nil. destruct (decide (wanted (Some k) e = true)) as [Hw|Hw].
  - rewrite result_foldl_snoc, Hd0'. cbn [mbind result_bind].
    destruct (event_effect fromisoformat scope e) as [H|r Hs Hr H|H]; rewrite H in He |- *; [|..|done]; injection He as <-; eexists; (split; [done|]).
    + done.
    + intros s Hsk. rewrite !odict_get_set. case_decide; auto.
  - rewrite app_nil_r. exists d0'. split; [done|]. intros s Hsk.
    destruct (event_effect fromisoformat scope e) as [H|r Hs Hr H|H]; rewrite H in He; [|..|done]; injection He as <-; [auto|].
    rewrite odict_get_set_ne; [auto|]. intros ->. apply Hw. unfold wanted. rewrite Hs. by apply bool_decide_eq_true.
Qed.

(** The records of a ledger, by source. *)
Definition recorded (ledger : list AuditEvent) (scope s : string) : option SupersessionRecord :=
  match latest ledger scope with Ok d => odict_get s d | Raise _ => None end.

Lemma standing_get ledger scope k d : stamped stamp ledger -> latest ledger scope = Ok d ->
  exists standing, pg_records fromisoformat ledger scope (Some k) = Ok standing /\
    forall s, s ∈ k -> odict_get s (last_by sr_source standing) = odict_get s d.
Proof.
  intros Hst Hd. rewrite pg_records_latest by by eapply stamped_nodup.
  rewrite event_order_filter, (stamped_ordered stamp) by eauto using stamped_nodup.
  destruct (latest_restrict k ledger scope d Hd) as (d' & Hd' & Hget). rewrite Hd'. cbn. eexists. split; [done|].
  intros s Hs. destruct (latest_well_read _ _ _ Hd') as [Hn Hsrc _]. rewrite last_by_own by done. auto.
Qed.

(** The rows of a scan: aware dates, a window, and claims that are read back. *)
Lemma scan_parts keep chunks p : p ∈ map row_parts (supersession_rows json_text keep chunks) ->
  (exists us, rp_first p = Some (Aware us)) /\ rp_has_window p = true.
Proof.
  intros (row & -> & Hrow)%list_elem_of_fmap. apply list_elem_of_fmap in Hrow as (x & -> & _). cbn. eauto.
Qed.

Lemma elem_of_claims_of s ps c :
  c ∈ claims_of s ps <->
  exists p f t, p ∈ ps /\ text_of (rp_file p) = Some f /\ text_of (rp_source p) = Some s /\
                text_of (rp_supersedes p) = Some t /\ c = Claim t (rp_first p) (rp_from p) (rp_until p).
Proof.
  unfold claims_of. rewrite list_elem_of_omap. unfold claim_at. split.
  - intros (p & Hp & Hc). destruct (text_of (rp_file p)) as [f|] eqn:?; [|done].
    destruct (text_of (rp_source p)) as [s'|] eqn:?; [|done]. destruct (text_of (rp_supersedes p)) as [t|] eqn:?; [|done].
    case_decide; [|done]. subst s'. injection Hc as <-. by exists p, f, t.
  - intros (p & f & t & Hp & Hf & Hs & Ht & ->). exists p. rewrite Hf, Hs, Ht. by rewrite decide_True.
Qed.

Lemma text_of_ne o s : text_of o = Some s -> o = Some s /\ s <> "".
Proof. destruct o as [x|]; cbn; [|done]. case_decide; [done|]. by intros [= ->]. Qed.

Lemma scan_claims_readable keep chunks s :
  Forall readable_claim (claims_of s (map row_parts (supersession_rows json_text keep chunks))).
Proof.
  apply Forall_forall. intros c (p & f & t & Hp & _ & _ & Ht & ->)%elem_of_claims_of.
  destruct (scan_parts _ _ _ Hp) as [[us Hus] _]. apply text_of_ne in Ht as [_ Ht]. split; [done|]. cbn. by rewrite Hus.
Qed.

(** What becomes of one source: the record of the claims it made; of none, where it made none but
    a record stands for it; a withdrawal takes over the record of a source that has no rows. *)
Definition decided (withdraw : bool) (rows : list SupersessionRow) (prior : option SupersessionRecord) (s : string) :
    option SupersessionRecord :=
  let parts := map row_parts rows in
  match claims_of s parts, odict_get s (present_files rows), prior with
  | (_ :: _) as l, _, _ => Some (Record_ (record_kind withdraw) (default "" (named_by s parts)) s l)
  | [], Some file, Some _ => Some (Record_ (record_kind withdraw) file s [])
  | [], None, Some r => Some (if withdraw then with_kind WITHDRAWN_RECORD r else r)
  | [], _, None => None
  end.

Lemma owed_decided withdraw rows standing s prior : odict_get s (last_by sr_source standing) = prior ->
  decided withdraw rows prior s = match owed withdraw rows standing s with Some r => Some r | None => prior end.
Proof.
  intros Hp. unfold decided, owed. rewrite Hp, records_from_rows_get.
  destruct (claims_of s _); [|done]. destruct (odict_get s (present_files rows)), prior, withdraw; done.
Qed.

Lemma owed_readable withdraw keep chunks standing s r :
  (forall r, odict_get s (last_by sr_source standing) = Some r -> sr_source r = s /\ readable r) ->
  owed withdraw (supersession_rows json_text keep chunks) standing s = Some r -> sr_source r = s /\ readable r.
Proof.
  intros Hst. unfold owed. rewrite records_from_rows_get.
  assert (Hk : record_kind withdraw ∈ RECORD_TYPES) by (destruct withdraw; set_solver).
  destruct (claims_of s _) as [|c l] eqn:Hc.
  - destruct (odict_get s (last_by sr_source standing)) as [prior|] eqn:Hp.
    + destruct (Hst prior eq_refl) as [Hs (Hpk & Hps & Hpc)]. destruct (odict_get s (present_files _)).
      * intros [= <-]. split; [done|]. repeat split; [done|by rewrite <-Hs|constructor].
      * destruct withdraw; [|done]. intros [= <-]. split; [done|]. repeat split; [set_solver|done..].
    + by destruct (odict_get s (present_files _)), withdraw.
  - intros [= <-]. split; [done|]. repeat split; [done|..]; cbn.
    + assert (Hin : c ∈ claims_of s (map row_parts (supersession_rows json_text keep chunks))) by (rewrite Hc; by left).
      apply elem_of_claims_of in Hin as (p & f & t & _ & _ & Hs & _). by apply text_of_ne in Hs as [_ Hs].
    + rewrite <-Hc. apply scan_claims_readable.
Qed.

Lemma append_extends actor scope ledger records :
  exists events, append_records isoformat stamp actor scope ledger records = ledger ++ events.
Proof.
  unfold append_records. revert ledger. induction records as [|r records IH]; intros ledger; cbn.
  { exists []. by rewrite app_nil_r. }
  destruct (IH (ledger ++ [record_event isoformat stamp actor scope (length ledger) r])) as [events ->].
  eexists. by rewrite <-(assoc_L (++)).
Qed.

(** What is appended: an event per record, of its kind and its source. *)
Lemma append_described actor scope ledger records :
  exists events, append_records isoformat stamp actor scope ledger records = ledger ++ events /\
    (fun e => (au_type e, au_source e)) <$> events = (fun r => (sr_kind r, Some (sr_source r))) <$> records.
Proof.
  unfold append_records. revert ledger. induction records as [|r records IH]; intros ledger; cbn.
  { exists []. by rewrite app_nil_r. }
  destruct (IH (ledger ++ [record_event isoformat stamp actor scope (length ledger) r])) as (events & -> & He).
  eexists (_ :: events). rewrite <-(assoc_L (++)). split; [done|]. cbn. by rewrite He.
Qed.

Lemma owed_kind withdraw rows standing s r :
  owed withdraw rows standing s = Some r -> sr_kind r = record_kind withdraw /\ sr_source r = s.
Proof.
  unfold owed. rewrite records_from_rows_get. destruct (claims_of s _); [|by intros [= <-]].
  destruct (odict_get s (last_by sr_source standing)) as [prior|] eqn:Hp.
  - apply odict_get_in, last_by_elem in Hp as [_ Hp]. destruct (odict_get s (present_files _)); [by intros [= <-]|].
    destruct withdraw; [|done]. by intros [= <-].
  - by destruct (odict_get s (present_files _)), withdraw.
Qed.

(** A removal of one source appends at most one record: its own. *)
Lemma removal_events ledger scope rows s withdraw ledger' n :
  pg_record_removals isoformat fromisoformat stamp ledger scope rows [s] withdraw = Ok (ledger', n) ->
  exists events, ledger' = ledger ++ events /\ (length events <= 1)%nat /\
    Forall (fun e => au_type e = record_kind withdraw /\ au_source e = Some s) events.
Proof.
  unfold pg_record_removals. rewrite bind_ok. intros (standing & _ & [= <- _]).
  destruct (append_described (if withdraw then WITHDRAW_ACTOR else FORGET_ACTOR) scope ledger
    (pending_records rows [s] withdraw standing)) as (events & -> & He). exists events. split; [done|].
  unfold pending_records in He. assert (Hs : sorted_set [s] = [s]) by done. rewrite Hs in He. cbn in He.
  destruct (owed withdraw rows standing s) as [r|] eqn:Hr.
  - apply owed_kind in Hr as [Hk Hsr]. destruct events as [|e [|]]; try done. injection He as Ht Hes.
    split; [cbn; lia|]. apply Forall_singleton. split; congruence.
  - destruct events; [|done]. split; [cbn; lia|constructor].
Qed.

(** A removal decides its sources and no other. It appends to the ledger and never fails where
    the ledger is readable; afterwards a source it removes has the record of the claims its rows
    made, or of none where a record stood for it, a withdrawal takes over the record of a source
    that has no rows left, and the record of every other source is what it was. *)
Theorem removal_decides ledger scope keep chunks sources withdraw before :
  stamped stamp ledger -> latest ledger scope = Ok before ->
  let rows := supersession_rows json_text keep chunks in
  exists events n after,
    pg_record_removals isoformat fromisoformat stamp ledger scope rows sources withdraw = Ok (ledger ++ events, n) /\
    stamped stamp (ledger ++ events) /\ latest (ledger ++ events) scope = Ok after /\
    forall s, odict_get s after =
              if decide (s ∈ sources) then decided withdraw rows (odict_get s before) s else odict_get s before.
Proof.
  intros Hst Hd rows. destruct (standing_get ledger scope sources before Hst Hd) as (standing & Hpg & Hget).
  assert (Hwr : well_read before) by by eapply latest_well_read.
  assert (Hown : forall s r, s ∈ sources -> odict_get s (last_by sr_source standing) = Some r -> sr_source r = s /\ readable r).
  { intros s r Hs Hr. rewrite Hget in Hr by done. apply odict_get_in in Hr. split; [by eapply wr_source|by eapply wr_readable]. }
  set (pending := pending_records rows sources withdraw standing).
  assert (Howed : forall s r, s ∈ sorted_set sources -> owed withdraw rows standing s = Some r -> sr_source r = s /\ readable r).
  { intros s r Hs. rewrite elem_of_sorted_set in Hs. apply owed_readable. intros x. by apply Hown. }
  assert (Hread : Forall readable pending).
  { apply Forall_forall. intros r (s & Hs & Hr)%list_elem_of_omap. by destruct (Howed s r Hs Hr). }
  destruct (append_extends (if withdraw then WITHDRAW_ACTOR else FORGET_ACTOR) scope ledger pending) as [events Hev].
  exists events, (length pending), (foldl (fun d r => odict_set (sr_source r) r d) before pending).
  unfold pg_record_removals. rewrite Hpg. cbn [mbind result_bind]. fold pending. rewrite <-Hev.
  split; [done|]. split; [by apply append_stamped|]. split; [by rewrite written_latest, Hd|].
  intros s. unfold pending, pending_records.
  rewrite set_owed; [|apply NoDup_sorted_set|intros x v Hx Hv; by apply Howed in Hv as []].
  rewrite (decide_ext (s ∈ sorted_set sources) (s ∈ sources)) by apply elem_of_sorted_set.
  case_decide as Hs; [|done]. symmetry. apply owed_decided. auto.
Qed.

(** ** What a forgotten memo still claims *)

Lemma scan_source keep chunks p : p ∈ map row_parts (supersession_rows json_text keep chunks) ->
  exists c, c ∈ chunks /\ keep c = true /\ rp_source p = Some (cr_source c).
Proof.
  intros (row & -> & Hrow)%list_elem_of_fmap. apply list_elem_of_fmap in Hrow as ([k t] & -> & Hx).
  rewrite stable_sort_perm in Hx. apply odict_get_some in Hx; [|apply group_min_nodup].
  pose proof (group_min_get (filter (fun c => keep c = true) chunks ≫= scan_chunk json_text) k) as Hg. rewrite Hx in Hg.
  destruct Hg as [Hin _]. apply list_elem_of_bind in Hin as (c & Hin & [Hkeep Hc]%list_elem_of_filter).
  exists c. repeat split; [done..|]. unfold scan_chunk in Hin. destruct (odict_get "file" (cr_metadata c)); [|by apply not_elem_of_nil in Hin].
  by apply list_elem_of_fmap in Hin as (x & [= -> _] & _).
Qed.

Lemma claim_rows_parts rows p : p ∈ claim_rows rows ->
  exists q, q ∈ map row_parts rows /\ rp_file p = rp_file q /\ rp_source p = rp_source q.
Proof.
  unfold claim_rows. intros (q & Hp & Hq)%list_elem_of_bind. exists q. split; [done|]. cbn zeta in Hp. case_decide.
  - by apply list_elem_of_fmap in Hp as (x & -> & _).
  - by apply list_elem_of_singleton in Hp as ->.
Qed.

(** The targets a row claims, as a reader takes its text apart. *)
Definition row_targets (p : RowParts) : list string :=
  match text_of (rp_supersedes p) with Some t => supersedes_targets (VStr t) | None => [] end.

Lemma parts_claim_rows rows p : p ∈ map row_parts rows ->
  exists q, q ∈ claim_rows rows /\ rp_file q = rp_file p /\ rp_source q = rp_source p.
Proof.
  intros Hp. unfold claim_rows. fold row_targets. destruct (decide (1 < length (row_targets p))%nat) as [Hl|Hl].
  - destruct (row_targets p) as [|t l] eqn:Ht; [cbn in Hl; lia|]. exists (with_supersedes p t). split; [|done].
    apply list_elem_of_bind. exists p. split; [|done]. cbn zeta. fold (row_targets p). rewrite Ht, decide_True by done. by left.
  - exists p. split; [|done]. apply list_elem_of_bind. exists p. split; [|done]. cbn zeta. fold (row_targets p).
    rewrite decide_False by done. by left.
Qed.

(** Rows that claim one target at most are read as they are. *)
Lemma single_claims rows : Forall (fun p => (length (row_targets p) <= 1)%nat) (map row_parts rows) ->
  claim_rows rows = map row_parts rows.
Proof.
  unfold claim_rows. induction 1 as [|p ps Hp _ IH]; [done|]. cbn [mbind list_bind]. fold (row_targets p).
  rewrite decide_False by lia. cbn. by f_equal.
Qed.

(** A memo whose rows name it has a file among the present ones. *)
Lemma present_named rows s f : named_by s (map row_parts rows) = Some f -> odict_get s (present_files rows) <> None.
Proof.
  unfold named_by, present_files. intros Hf. apply head_Some_elem_of, list_elem_of_omap in Hf as (p & Hp & Hf).
  apply list_elem_of_fmap in Hp as (row & -> & Hrow).
  assert (Hstep : forall d r, odict_get s d <> None -> odict_get s (present_step d r) <> None).
  { intros d r Hd. unfold present_step. destruct (row_file r); try done. destruct (row_more r) as [|[] l]; try done.
    case_match; [done|]. rewrite odict_get_set. by case_decide. }
  assert (Hkeep : forall l d, odict_get s d <> None -> odict_get s (foldl present_step d l) <> None).
  { induction l as [|r l IH]; intros d Hd; [done|]. cbn. auto. }
  apply list_elem_of_split in Hrow as (l1 & l2 & ->). rewrite foldl_app. cbn [foldl]. apply Hkeep.
  set (d := foldl present_step [] l1). clearbody d. unfold file_at, row_parts in Hf. cbn [rp_file rp_source] in Hf.
  unfold present_step. destruct (row_file row) as [| | | |file| | |]; try done. cbn [as_str] in Hf.
  destruct (text_of (Some file)) as [f'|]; [|done].
  destruct (row_more row) as [|v more]; [done|]. cbn in Hf. destruct v as [| | | |src| | |]; try done. cbn in Hf.
  destruct (decide (src = "")); [done|]. case_decide; [|done]. subst src.
  destruct (odict_get s d) eqn:Hd; [congruence|]. by rewrite odict_get_set_eq.
Qed.

Context `{UriReader}.

(** A row of an upload, which never takes the place of a removed memo under another root. *)
Definition upload (tenant : option string) (q : RowParts) : bool :=
  match tenant, text_of (rp_source q) with Some t, Some s => in_upload_staging s t | _, _ => false end.

(** A document among the rows takes the place of a removed memo: it bears the memo's file under
    the memo's own root or, where that root holds no row, under another and not as an upload. *)
Definition displaced (rest : list RowParts) (tenant : option string) (s f : string) : Prop :=
  exists q, q ∈ rest /\ text_of (rp_file q) = Some f /\
    (root_key (rp_source q) f = root_key (Some s) f \/
     upload tenant q = false /\
     forall q' g, q' ∈ rest -> text_of (rp_file q') = Some g -> root_key (rp_source q') g <> root_key (Some s) f).

(** The rows a removed memo stands against, by file and source. *)
Definition named_pairs (ps : list RowParts) : list (string * option string) :=
  omap (fun p => (fun f => (f, rp_source p)) <$> text_of (rp_file p)) ps.

Lemma elem_of_named_pairs ps f src : (f, src) ∈ named_pairs ps <-> exists q, q ∈ ps /\ text_of (rp_file q) = Some f /\ rp_source q = src.
Proof.
  unfold named_pairs. rewrite list_elem_of_omap. split.
  - intros (q & Hq & Hf). destruct (text_of (rp_file q)) as [g|] eqn:Hg; [|done]. injection Hf as <- <-. by exists q.
  - intros (q & Hq & Hf & <-). exists q. by rewrite Hf.
Qed.

Lemma named_pairs_rows rows f src : (f, src) ∈ named_pairs (claim_rows rows) <-> (f, src) ∈ named_pairs (map row_parts rows).
Proof.
  rewrite !elem_of_named_pairs. split.
  - intros (q & Hq & Hf & <-). destruct (claim_rows_parts _ _ Hq) as (p & Hp & Hpf & Hps). exists p. by rewrite <-Hpf.
  - intros (q & Hq & Hf & <-). destruct (parts_claim_rows _ _ Hq) as (p & Hp & Hpf & Hps). exists p. by rewrite Hpf.
Qed.

Definition staged_pairs (tenant : option string) (pairs : list (string * option string)) : list (string * option string) :=
  match tenant with
  | Some t => filter (fun p => match text_of p.2 with Some s => in_upload_staging s t | None => false end = true) pairs
  | None => []
  end.

Lemma staged_upload tenant (pairs : list (string * option string)) q f : (f, rp_source q) ∈ pairs ->
  (f, rp_source q) ∉ staged_pairs tenant pairs <-> upload tenant q = false.
Proof.
  intros Hin. unfold staged_pairs, upload. destruct tenant as [t|].
  - rewrite list_elem_of_filter. cbn [snd]. destruct (text_of (rp_source q)) as [s|].
    + rewrite <-not_true_iff_false. tauto.
    + split; [done|]. by intros _ [? _].
  - split; [done|]. intros _. apply not_elem_of_nil.
Qed.

(** A record stands exactly while no document takes its memo's place. *)
Lemma stands_iff live rest tenant r :
  sr_source r ∉ live ->
  stands live (named_pairs (claim_rows rest)) (staged_pairs tenant (named_pairs (claim_rows rest))) r = true <->
  ~ displaced (map row_parts rest) tenant (sr_source r) (sr_file r).
Proof.
  intros Hlive. unfold stands. rewrite decide_False by by unfold nfc; rewrite list_fmap_id.
  set (pairs := named_pairs (claim_rows rest)). set (root := root_key (Some (sr_source r)) (sr_file r)).
  assert (Hheld : forall f, f ∈ held_under pairs root <-> exists q, q ∈ map row_parts rest /\ text_of (rp_file q) = Some f /\ root_key (rp_source q) f = root).
  { intros f. unfold held_under. rewrite list_elem_of_fmap. setoid_rewrite list_elem_of_filter. unfold nfc. split.
    - intros ([g src] & -> & Hk & (q & Hq & Hf & <-)%named_pairs_rows%elem_of_named_pairs). by exists q.
    - intros (q & Hq & Hf & Hk). exists (f, rp_source q). split; [done|]. split; [done|]. apply named_pairs_rows, elem_of_named_pairs. by exists q. }
  assert (Helse : forall f, f ∈ map (fun p : string * option string => nfc p.1) (filter (fun p => p ∉ staged_pairs tenant pairs) pairs) <->
    exists q, q ∈ map row_parts rest /\ text_of (rp_file q) = Some f /\ upload tenant q = false).
  { intros f. rewrite list_elem_of_fmap. setoid_rewrite list_elem_of_filter. unfold nfc. split.
    - intros ([g src] & -> & Hst & Hin). pose proof Hin as (q & Hq & Hf & <-)%named_pairs_rows%elem_of_named_pairs.
      exists q. by rewrite <-(staged_upload tenant pairs q g).
    - intros (q & Hq & Hf & Hup). assert (Hin : (f, rp_source q) ∈ pairs) by (apply named_pairs_rows, elem_of_named_pairs; by exists q).
      exists (f, rp_source q). by rewrite (staged_upload tenant pairs q f). }
  cbn zeta. change (nfc (sr_file r)) with (sr_file r). unfold displaced. fold root. case_decide as Hne.
  - rewrite negb_true_iff, bool_decide_eq_false, Hheld. split; intros Hno; contradict Hno.
    + destruct Hno as (q & Hq & Hf & [Hk|[_ Hnone]]); [by exists q|]. exfalso. apply Hne.
      destruct (held_under pairs root) as [|g l] eqn:Hl; [done|]. exfalso.
      assert (Hg : g ∈ held_under pairs root) by (rewrite Hl; by left). rewrite <-Hl in Hheld.
      apply Hheld in Hg as (q' & Hq' & Hf' & Hk'). by apply (Hnone q' g).
    + destruct Hno as (q & Hq & Hf & Hk). exists q. auto.
  - rewrite negb_true_iff, bool_decide_eq_false, Helse.
    assert (Hnone : forall q' g, q' ∈ map row_parts rest -> text_of (rp_file q') = Some g -> root_key (rp_source q') g <> root).
    { intros q' g Hq' Hg Hk. apply (not_elem_of_nil g). rewrite <-Hne. apply Hheld. by exists q'. }
    split; intros Hno; contradict Hno.
    + destruct Hno as (q & Hq & Hf & [Hk|[Hup _]]); [by destruct (Hnone q (sr_file r))|by exists q].
    + destruct Hno as (q & Hq & Hf & Hup). exists q. auto.
Qed.

Definition with_file (p : RowParts) (f : string) : RowParts :=
  Parts (Some f) (rp_supersedes p) (rp_first p) (rp_source p) (rp_from p) (rp_until p) (rp_has_window p).

Lemma ghost_claim r q t : text_of (rp_supersedes q) = Some t ->
  q ∈ ghost_rows r <-> exists c, c ∈ sr_claims r /\ q = Parts (Some (sr_file r)) (Some (rc_target c)) (rc_first c) (Some (sr_source r))
    (rc_from c) (rc_until c) (bool_decide (sr_kind r = FORGOTTEN_RECORD)).
Proof.
  intros Ht. unfold ghost_rows. destruct (sr_claims r) as [|x l].
  - split; [intros ->%list_elem_of_singleton; done|]. by intros (c & ?%not_elem_of_nil & _).
  - rewrite list_elem_of_fmap. naive_solver.
Qed.

Lemma ghost_source r q : q ∈ ghost_rows r -> rp_source q = Some (sr_source r).
Proof.
  unfold ghost_rows. destruct (sr_claims r); [by intros ->%list_elem_of_singleton|]. by intros (c & -> & _)%list_elem_of_fmap.
Qed.

(** The claims a reader sees for a source that has no rows: those of the record standing for it. *)
Lemma read_claims keep chunks s (after : list (string * SupersessionRecord)) tenant q t :
  let rest := supersession_rows json_text keep (filter (fun c => cr_source c <> s) chunks) in
  well_read after -> s <> "" -> rp_source q = Some s -> text_of (rp_supersedes q) = Some t ->
  q ∈ rd_parsed (read_rows rest after.*2 tenant) <->
  exists r, odict_get s after = Some r /\ ~ displaced (map row_parts rest) tenant s (sr_file r) /\ q ∈ ghost_rows r.
Proof.
  intros rest Hwell Hs Hq Ht.
  assert (Hsource : forall p, p ∈ claim_rows rest -> rp_source p <> Some s).
  { intros p (p' & Hp' & _ & Hps)%claim_rows_parts. destruct (scan_source _ _ _ Hp') as (c & [Hc _]%list_elem_of_filter & _ & Hsrc). congruence. }
  assert (Hlive : s ∉ omap (fun p => text_of (rp_source p)) (claim_rows rest)).
  { intros (p & Hp & Hps)%list_elem_of_omap. apply text_of_ne in Hps as [Hps _]. by apply (Hsource p). }
  unfold read_rows. cbn [rd_parsed]. rewrite elem_of_app. fold (named_pairs (claim_rows rest)).
  set (live := omap _ (claim_rows rest)) in *.
  split.
  - intros [Hg|Hp]; [|by apply Hsource in Hp]. apply list_elem_of_bind in Hg as (r & Hg & [Hst Hr]%list_elem_of_filter).
    pose proof (ghost_source _ _ Hg) as Hsrc. rewrite Hq in Hsrc. injection Hsrc as Hsrc.
    apply list_elem_of_fmap in Hr as ([k r'] & -> & Hr). cbn [snd] in *. rewrite (wr_source _ Hwell _ _ Hr) in Hsrc. subst k.
    exists r'. split; [apply odict_get_some; [apply (wr_nodup _ Hwell)|done]|]. split; [|done].
    pose proof (wr_source _ Hwell _ _ Hr) as Hsr. rewrite <-Hsr at 1. apply (proj1 (stands_iff live rest tenant r' ltac:(by rewrite Hsr))). refine (eq_trans _ Hst).
    destruct after as [|x after]; [by apply not_elem_of_nil in Hr|]. unfold staged_pairs. cbn. by destruct tenant.
  - intros (r & Hr & Hno & Hg). left. apply odict_get_in in Hr. pose proof (wr_source _ Hwell _ _ Hr) as Hsr.
    apply list_elem_of_bind. exists r. split; [done|]. apply list_elem_of_filter. split.
    + rewrite <-Hsr in Hno at 1. apply (proj2 (stands_iff live rest tenant r ltac:(by rewrite Hsr))) in Hno. refine (eq_trans _ Hno).
      destruct after as [|x after]; [by apply not_elem_of_nil in Hr|]. unfold staged_pairs. cbn. by destruct tenant.
    + by apply (list_elem_of_fmap_2 snd) in Hr.
Qed.

(** The claims of the record a removal leaves for a source are those its rows made. *)
Lemma claims_kept rows s f (after : list (string * SupersessionRecord)) prior (P : string -> Prop) q t :
  (forall p, p ∈ map row_parts rows -> rp_source p = Some s /\ rp_has_window p = true) -> s <> "" ->
  odict_get s (present_files rows) <> None ->
  odict_get s after = (match claims_of s (map row_parts rows), odict_get s (present_files rows), prior with
    | (_ :: _) as l, _, _ => Some (Record_ FORGOTTEN_RECORD f s l)
    | [], Some file, Some _ => Some (Record_ FORGOTTEN_RECORD file s [])
    | [], None, Some r => Some r
    | [], _, None => None
    end) ->
  rp_source q = Some s -> text_of (rp_supersedes q) = Some t ->
  (exists r, odict_get s after = Some r /\ P (sr_file r) /\ q ∈ ghost_rows r) <->
  P f /\ exists p, p ∈ map row_parts rows /\ text_of (rp_file p) <> None /\ q = with_file p f.
Proof.
  intros Hrows Hs Hpresent Hget Hq Ht. rewrite Hget. clear Hget after.
  assert (Hclaim : forall p, p ∈ map row_parts rows -> text_of (rp_file p) <> None -> text_of (rp_supersedes p) = Some t ->
    Claim t (rp_first p) (rp_from p) (rp_until p) ∈ claims_of s (map row_parts rows)).
  { intros p Hp Hpf Hpt. destruct (text_of (rp_file p)) as [g|] eqn:Hg; [|done]. apply elem_of_claims_of. exists p, g, t.
    destruct (Hrows p Hp) as [Hps _]. rewrite Hps. cbn. by rewrite decide_False. }
  destruct (claims_of s (map row_parts rows)) as [|c l] eqn:Hl.
  - split.
    + intros (r & Hr & _ & Hg). exfalso. destruct (odict_get s (present_files rows)); [|done]. destruct prior; [|done].
      injection Hr as <-. apply (ghost_claim _ _ _ Ht) in Hg as (c & Hc & _). by apply not_elem_of_nil in Hc.
    + intros (_ & p & Hp & Hpf & ->). exfalso. by eapply not_elem_of_nil, (Hclaim p).
  - rewrite <-Hl in *. split.
    + intros (r & [= <-] & HP & Hg). split; [done|]. apply (ghost_claim _ _ _ Ht) in Hg as (x & Hx & ->). cbn [sr_claims] in Hx.
      apply elem_of_claims_of in Hx as (p & g & t' & Hp & Hpf & _ & Hpt & ->). exists p. split; [done|].
      split; [by rewrite Hpf|]. destruct (Hrows p Hp) as [Hps Hwin]. apply text_of_ne in Hpt as [Hpt _].
      unfold with_file. by rewrite Hpt, Hps, Hwin.
    + intros (HP & p & Hp & Hpf & ->). eexists. split; [reflexivity|]. split; [done|]. apply (ghost_claim _ _ _ Ht). cbn in Hq, Ht.
      exists (Claim t (rp_first p) (rp_from p) (rp_until p)). split; [cbn; by apply Hclaim|].
      destruct (Hrows p Hp) as [Hps Hwin]. apply text_of_ne in Ht as [Hpt _]. unfold with_file. by rewrite Hpt, Hps, Hwin.
Qed.

(** C12: what a forgotten memo still claims, exactly. Once a memo named by its rows is forgotten,
    the claims the resolution pass reads for its source are the texts its rows held, as the
    claims of a ghost of its file, with their dates and their windows, as long as no document
    takes its place; once one does (its file is indexed under the memo's root or, where that root
    holds nothing, under another one, uploads aside) there are none. Where every row of the memo
    bears one file and claims one target at most, these are the claims that were read before. A
    text that names several targets stands whole, as one target, and its targets are lost
    ([flow_claims_lost]). *)
Theorem forget_claims_exact ledger scope keep chunks s f before tenant :
  let rows := supersession_rows json_text (fun c => keep c && bool_decide (cr_source c = s)) chunks in
  let rest := supersession_rows json_text keep (filter (fun c => cr_source c <> s) chunks) in
  stamped stamp ledger -> latest ledger scope = Ok before -> named_by s (map row_parts rows) = Some f ->
  exists ledger' n records,
    pg_record_removals isoformat fromisoformat stamp ledger scope rows [s] false = Ok (ledger', n) /\
    pg_records fromisoformat ledger' scope None = Ok records /\
    (forall q t, rp_source q = Some s -> text_of (rp_supersedes q) = Some t ->
       q ∈ rd_parsed (read_rows rest records tenant) <->
       ~ displaced (map row_parts rest) tenant s f /\
       exists p, p ∈ map row_parts rows /\ text_of (rp_file p) <> None /\ q = with_file p f) /\
    (~ displaced (map row_parts rest) tenant s f ->
     Forall (fun p => rp_file p = Some f /\ (length (row_targets p) <= 1)%nat) (map row_parts rows) ->
     forall q t, rp_source q = Some s -> text_of (rp_supersedes q) = Some t ->
       q ∈ claim_rows rows <-> q ∈ rd_parsed (read_rows rest records tenant)).
Proof.
  intros rows rest Hst Hd Hf.
  assert (Hs : s <> "" /\ f <> "").
  { unfold named_by in Hf. apply head_Some_elem_of, list_elem_of_omap in Hf as (x & _ & Hx). unfold file_at in Hx.
    destruct (text_of (rp_file x)) eqn:Hxf; [|done]. destruct (text_of (rp_source x)) eqn:Hxs; [|done].
    case_decide; [|done]. subst. injection Hx as ->. apply text_of_ne in Hxs as [_ ?], Hxf as [_ ?]. done. }
  destruct Hs as [Hs Hfne].
  destruct (removal_decides ledger scope (fun c => keep c && bool_decide (cr_source c = s)) chunks [s] false before Hst Hd)
    as (events & n & after & Hrem & Hst' & Hafter & Hget).
  exists (ledger ++ events), n, after.*2. split; [exact Hrem|]. split.
  { rewrite pg_records_latest by by eapply stamped_nodup. rewrite list_filter_all by by apply Forall_true.
    by rewrite (stamped_ordered stamp), Hafter by done. }
  specialize (Hget s). rewrite decide_True in Hget by by left. unfold decided in Hget. cbn zeta in Hget.
  fold rows in Hget. rewrite Hf in Hget. cbn [default record_kind] in Hget.
  assert (Hrows : forall p, p ∈ map row_parts rows -> rp_source p = Some s /\ rp_has_window p = true).
  { intros p Hp. destruct (scan_source _ _ _ Hp) as (c & _ & [_ Hcs%bool_decide_eq_true]%andb_true_iff & Hsrc).
    destruct (scan_parts _ _ _ Hp) as [_ Hwin]. by rewrite Hsrc, Hcs. }
  assert (Hiff : forall q t, rp_source q = Some s -> text_of (rp_supersedes q) = Some t ->
    q ∈ rd_parsed (read_rows rest after.*2 tenant) <-> ~ displaced (map row_parts rest) tenant s f /\
    exists p, p ∈ map row_parts rows /\ text_of (rp_file p) <> None /\ q = with_file p f).
  { intros q t Hq Ht. unfold rest. rewrite (read_claims keep chunks s after tenant q t) by first [by eapply latest_well_read|done].
    fold rest.
    apply (claims_kept rows s f after (odict_get s before) (fun g => ~ displaced (map row_parts rest) tenant s g) q t); try done.
    by apply (present_named rows s f). }
  split; [exact Hiff|].
  intros Hno Hall q t Hq Ht. rewrite (Hiff q t Hq Ht). rewrite single_claims by by eapply Forall_impl; [exact Hall|]; intros ? [].
  rewrite Forall_forall in Hall. split.
  - intros Hp. split; [done|]. exists q. destruct (Hall q Hp) as [Hqf _]. split; [done|]. rewrite Hqf. cbn. rewrite decide_False by done.
    split; [done|]. destruct q. cbn in *. by subst.
  - intros (_ & p & Hp & _ & ->). destruct (Hall p Hp) as [Hpf _]. destruct p. cbn in *. by subst.
Qed.
End removal.

(** ** A small corpus *)

Section demo.

(** Dates and ids, printed in binary. *)
Fixpoint pos_text (p : positive) : string :=
  match p with xH => "" | xO p => String "0" (pos_text p) | xI p => String "1" (pos_text p) end.

Fixpoint text_pos (s : string) : positive :=
  match s with EmptyString => xH | String c s => if decide (c = "1"%char) then xI (text_pos s) else xO (text_pos s) end.

Lemma text_pos_text p : text_pos (pos_text p) = p.
Proof. by induction p as [p IH|p IH|]; cbn; rewrite ?IH. Qed.

Definition demo_iso (d : datetime) : string := pos_text (encode (instant d)).
Definition demo_fromiso (s : string) : option datetime := Aware <$> decode (text_pos s).
Definition demo_stamp (n : nat) : string * Z := (pos_text (encode n), Z.of_nat n).

Lemma demo_iso_ok : iso_roundtrip demo_iso demo_fromiso.
Proof. intros us. unfold demo_iso, demo_fromiso. cbn [instant]. by rewrite text_pos_text, decode_encode. Qed.

Lemma demo_clock : clock demo_stamp.
Proof.
  split; cbn; [|lia]. intros i j Hij. apply (inj encode). rewrite <-(text_pos_text (encode i)), Hij. apply text_pos_text.
Qed.

Definition demo_json (v : value) : string := "".

Definition memo (name : string) (meta : metadata) : ChunkRow :=
  {| cr_generation := "g"; cr_id := name; cr_source := "/r/" +:+ name; cr_version := ""; cr_sha := ""; cr_ordinal := 0;
     cr_text := ""; cr_metadata := ("file", VStr name) :: meta; cr_embedding := []; cr_indexed := 5; cr_first := None |}.

Definition demo_chunks (claim : value) : list ChunkRow :=
  [memo "a.md" []; memo "c.md" []; memo "b.md" [("supersedes", claim)]].

Definition demo_rows (keep : ChunkRow -> bool) (claim : value) : list SupersessionRow :=
  supersession_rows demo_json keep (demo_chunks claim).

(** The edges before the memo [b.md] is forgotten, and after. *)
Definition edges_before (claim : value) : list (string * string) :=
  match resolve_supersession_graph (demo_rows (fun _ => true) claim) [] None with Ok g => map_to_list (g_edges g) | Raise _ => [] end.

Definition forget_b (claim : value) : result (list AuditEvent * nat) :=
  pg_record_removals demo_iso demo_fromiso demo_stamp [] "t" (demo_rows (fun c => bool_decide (cr_source c = "/r/b.md")) claim)
    ["/r/b.md"] false.

Definition edges_after (claim : value) : list (string * string) :=
  match (ledger ← forget_b claim; records ← pg_records demo_fromiso ledger.1 "t" None;
         resolve_supersession_graph (demo_rows (fun c => negb (bool_decide (cr_source c = "/r/b.md"))) claim) records None) with
  | Ok g => map_to_list (g_edges g)
  | Raise _ => []
  end.

(** The scan gives one row for a claim stored as one text, which a reader takes apart; a record
    keeps the text, and nobody takes a record apart. Where the claim is stored as a list nothing is
    lost. *)
Theorem flow_claims_lost :
  edges_before (VStr "[a.md, c.md]") = [("c.md", "b.md"); ("a.md", "b.md")] /\
  edges_after (VStr "[a.md, c.md]") = [("[a.md, c.md]", "b.md")] /\
  edges_after (VList [VStr "a.md"; VStr "c.md"]) = edges_before (VStr "[a.md, c.md]").
Proof. repeat split; vm_compute; reflexivity. Qed.

Definition demo_event (n : nat) (kind : string) (claims : list value) : AuditEvent :=
  {| au_id := (demo_stamp n).1; au_type := kind; au_actor := ""; au_generation := None; au_source := Some "/r/b.md";
     au_payload := VDict [("scope", VStr "t"); ("file", VStr "b.md"); ("claims", VList claims)]; au_at := (demo_stamp n).2 |}.

Definition demo_ledger : list AuditEvent :=
  [demo_event 0 FORGOTTEN_RECORD [VList [VStr "a.md"; VNone; VNone; VNone]]; demo_event 1 WITHDRAWN_RECORD []].

Lemma demo_stamped : stamped demo_stamp demo_ledger.
Proof. intros [|[|i]] e He; [by injection He as <-..|done]. Qed.

Lemma pg_records_latest_witness :
  NoDup (au_id <$> demo_ledger) /\
  pg_records demo_fromiso demo_ledger "t" None =
  (fun d => d.*2) <$> latest_records demo_fromiso (event_order (filter (fun e => wanted None e = true) demo_ledger)) "t".
Proof.
  assert (H : NoDup (au_id <$> demo_ledger)) by exact (stamped_nodup demo_stamp demo_ledger demo_clock demo_stamped).
  split; [exact H|]. exact (pg_records_latest demo_fromiso demo_ledger "t" None H).
Defined.

Lemma removal_decides_witness :
  exists events n after,
    pg_record_removals demo_iso demo_fromiso demo_stamp demo_ledger "t"
      (supersession_rows demo_json (fun _ => false) (demo_chunks VNone)) ["/r/b.md"] true = Ok (demo_ledger ++ events, n) /\
    stamped demo_stamp (demo_ledger ++ events) /\ latest_records demo_fromiso (demo_ledger ++ events) "t" = Ok after /\
    forall s, odict_get s after = if decide (s ∈ ["/r/b.md"])
      then decided true (supersession_rows demo_json (fun _ => false) (demo_chunks VNone))
             (odict_get s [("/r/b.md", Record_ WITHDRAWN_RECORD "b.md" "/r/b.md" [])]) s
      else odict_get s [("/r/b.md", Record_ WITHDRAWN_RECORD "b.md" "/r/b.md" [])].
Proof.
  apply (removal_decides demo_iso demo_fromiso demo_json demo_iso_ok demo_stamp demo_clock demo_ledger "t" (fun _ => false)
           (demo_chunks VNone) ["/r/b.md"] true [("/r/b.md", Record_ WITHDRAWN_RECORD "b.md" "/r/b.md" [])]).
  - exact demo_stamped.
  - vm_compute. reflexivity.
Defined.

Definition b_row : RowParts :=
  Parts (Some "b.md") (Some "a.md") (Some (Aware 5)) (Some "/r/b.md") VNone VNone true.

Lemma forget_claims_exact_witness :
  exists ledger' n records,
    pg_record_removals demo_iso demo_fromiso demo_stamp [] "t"
      (supersession_rows demo_json (fun c => true && bool_decide (cr_source c = "/r/b.md")) (demo_chunks (VStr "a.md")))
      ["/r/b.md"] false = Ok (ledger', n) /\
    pg_records demo_fromiso ledger' "t" None = Ok records /\
    b_row ∈ rd_parsed (read_rows (supersession_rows demo_json (fun _ => true)
                                    (filter (fun c => cr_source c <> "/r/b.md") (demo_chunks (VStr "a.md")))) records None).
Proof.
  destruct (forget_claims_exact demo_iso demo_fromiso demo_json demo_iso_ok demo_stamp demo_clock [] "t" (fun _ => true)
           (demo_chunks (VStr "a.md")) "/r/b.md" "b.md" [] None) as (ledger' & n & records & Hrem & Hrec & Hiff & _).
  - intros i e He. by rewrite lookup_nil in He.
  - reflexivity.
  - vm_compute. reflexivity.
  - exists ledger', n, records. split; [exact Hrem|]. split; [exact Hrec|].
    apply (Hiff b_row "a.md"); [reflexivity|reflexivity|]. split.
    + intros (q & Hq & Hf & _). vm_compute in Hq.
      repeat (apply elem_of_cons in Hq as [->|Hq]; [by vm_compute in Hf|]). by apply not_elem_of_nil in Hq.
    + exists b_row. split; [vm_compute; by left|]. split; [done|reflexivity].
Defined.
End demo.
