(* ===== verification/Urls.v ===== *)
(** * Urls: [urllib.parse.urlsplit] as the manifests use it

    A URL in the character range of [Text]: control characters and spaces are dropped before it,
    tabs and line ends anywhere in it; the scheme is read up to the first colon when it is made of
    scheme characters, the authority between two slashes and the next delimiter. No character of
    the range becomes a delimiter under NFKC, so that check never raises. The check of an address
    between brackets is [ipaddress]'s: [bracketed_ok]. *)
From S2P Require Import Prelude Text.

Local Open Scope nat_scope.

(** [s.partition(c)] at the first of some characters. *)
Fixpoint split_at (stop : ascii -> bool) (l : list ascii) : list ascii * list ascii :=
  match l with
  | [] => ([], [])
  | c :: l' => if stop c then ([], l) else let '(a, b) := split_at stop l' in (c :: a, b)
  end.

Definition is_char (d c : ascii) : bool := bool_decide (c = d).

(** [_WHATWG_C0_CONTROL_OR_SPACE], and the characters removed anywhere. *)
Definition control_or_space (c : ascii) : bool := code c <=? 32.
Definition unsafe_char (c : ascii) : bool := (code c =? 9) || (code c =? 10) || (code c =? 13).

(** [isascii() and isalpha()], and [scheme_chars]. *)
Definition ascii_alpha (c : ascii) : bool := ((65 <=? code c) && (code c <=? 90)) || ((97 <=? code c) && (code c <=? 122)).
Definition ascii_digit (c : ascii) : bool := (48 <=? code c) && (code c <=? 57).
Definition scheme_char (c : ascii) : bool :=
  ascii_alpha c || ascii_digit c || is_char "+" c || is_char "-" c || is_char "." c.

Record SplitResult := { url_scheme : string; url_netloc : string; url_path : string; url_query : string; url_fragment : string }.

(** The scheme, and what follows it. *)
Definition take_scheme (l : list ascii) : list ascii * list ascii :=
  match split_at (is_char ":") l with
  | (c :: s, _ :: rest) => if ascii_alpha c && forallb scheme_char (c :: s) then (map lower_char (c :: s), rest) else ([], l)
  | _ => ([], l)
  end.

(** [_splitnetloc]. *)
Definition take_netloc (l : list ascii) : list ascii * list ascii :=
  match l with
  | "/"%char :: "/"%char :: l' => split_at (fun c => is_char "/" c || is_char "?" c || is_char "#" c) l'
  | _ => ([], l)
  end.

(** What follows a delimiter, without it. *)
Definition past (l : list ascii) : list ascii := match l with [] => [] | _ :: l' => l' end.

Section urlsplit.
Context (bracketed_ok : string -> bool).

Definition urlsplit (url : string) : result SplitResult :=
  let l := filter (fun c => unsafe_char c = false) (drop_while control_or_space (chars url)) in
  let '(scheme, l) := take_scheme l in
  let '(netloc, l) := take_netloc l in
  let open := bool_decide ("["%char ∈ netloc) in
  let close := bool_decide ("]"%char ∈ netloc) in
  if negb (Bool.eqb open close) then Raise (ValueError "Invalid IPv6 URL")
  else if open && negb (bracketed_ok (unchars netloc)) then Raise (ValueError "bracketed address is invalid")
  else
    let '(l, fragment) := split_at (is_char "#") l in
    let '(path, query) := split_at (is_char "?") l in
    Ok {| url_scheme := unchars scheme; url_netloc := unchars netloc; url_path := unchars path;
          url_query := unchars (past query); url_fragment := unchars (past fragment) |}.
End urlsplit.

Example url_ex1 : urlsplit (fun _ => true) " S3://bucket/a/b.md?x=1#f" =
  Ok {| url_scheme := "s3"; url_netloc := "bucket"; url_path := "/a/b.md"; url_query := "x=1"; url_fragment := "f" |}.
Proof. reflexivity. Qed.
Example url_ex2 : urlsplit (fun _ => true) "file:///srv/a:b.md" =
  Ok {| url_scheme := "file"; url_netloc := ""; url_path := "/srv/a:b.md"; url_query := ""; url_fragment := "" |}.
Proof. reflexivity. Qed.
Example url_ex3 : urlsplit (fun _ => true) "a/b:c//d" =
  Ok {| url_scheme := ""; url_netloc := ""; url_path := "a/b:c//d"; url_query := ""; url_fragment := "" |}.
Proof. reflexivity. Qed.
