(* ===== verification/Lineage.v ===== *)
(** * Lineage: what a generation is built from (src/recall/lineage.py)

    The identities of an embedder, a chunker and a pipeline, and the manifest of a corpus: what
    each constructor refuses, how each is written as JSON and read back. [json_dumps] is the
    compact, key-sorted [json.dumps], [sha256_hex] the digest, [py_str] is [str] of a JSON value
    that is no text, [registered_hosted] what the registry of embedding profiles answers for a
    profile id ([None] when it knows none). [LineageError] is a [ValueError]. *)
From S2P Require Import Prelude Text Float64 Frontmatter Urls.

Local Open Scope Z_scope.

Definition DEFAULT_CONTEXT_MODE : string := "none".
Definition DEFAULT_CONTEXT_VERSION : string := "raw-v1".
Definition MANIFEST_SCHEMA_VERSION : Z := 1.
Definition PIPELINE_SCHEMA_VERSION : Z := 1.

Definition lineage_error {A} (msg : string) : result A := Raise (ValueError msg).

Definition blank (s : string) : bool := bool_decide (strip s = "").
Definition given (o : option string) : bool := match o with Some s => negb (bool_decide (s = "")) | None => false end.
Definition text_value (o : option string) : value := match o with Some s => VStr s | None => VNone end.

(** ** JSON values *)

Definition finite (f : float) : bool := match f with S754_zero _ | S754_finite _ _ _ => true | _ => false end.
Definition pair_leb (a b : string * value) : bool := String.leb a.1 b.1.

(** [_freeze_json]: mappings in key order. *)
Fixpoint freeze_json (v : value) : result value :=
  match v with
  | VNone | VBool _ | VInt _ | VStr _ => Ok v
  | VFloat f => if finite f then Ok v else lineage_error "non-finite float"
  | VTime _ => lineage_error "non-JSON value"
  | VList l =>
      VList <$> (fix go (l : list value) : result (list value) :=
                   match l with [] => Ok [] | x :: l' => y ← freeze_json x; ys ← go l'; Ok (y :: ys) end) l
  | VDict l =>
      (fun l => VDict (stable_sort pair_leb l)) <$>
        (fix go (l : list (string * value)) : result (list (string * value)) :=
           match l with
           | [] => Ok []
           | (k, x) :: l' =>
               if decide (k = "") then lineage_error "empty object key"
               else y ← freeze_json x; ys ← go l'; Ok ((k, y) :: ys)
           end) l
  end.

Definition freeze_list (l : list value) : result (list value) := result_mapM freeze_json l.
Definition freeze_item (kx : string * value) : result (string * value) :=
  if decide (kx.1 = "") then lineage_error "empty object key" else y ← freeze_json kx.2; Ok (kx.1, y).

(** ** Digests *)

(** [is_sha256_hex], and [_sha256]: a digest in its lower case. *)
Definition hex_digit (c : ascii) : bool := bool_decide (c ∈ chars "0123456789abcdef").

Definition is_sha256_hex (s : string) : bool := bool_decide (length (chars s) = 64%nat) && forallb hex_digit (chars s).

Definition digest (s : string) : result string :=
  if is_sha256_hex (lower s) then Ok (lower s) else lineage_error "must be a 64-character SHA-256 digest".

(** ** Identities *)

(** [EmbedderIdentity]. *)
Record EmbedderIdentity := {
  ei_provider : string;
  ei_model : string;
  ei_dimension : Z;
  ei_revision : option string;
  ei_artifact_digest : option string;
  ei_unverified_reason : option string;
  ei_profile_id : option string;
  ei_profile_fingerprint : option string;
  ei_context_mode : string;
  ei_context_version : string;
  ei_hosted : bool
}.

(** [EmbedderIdentity.verified] and [production_admissible]. *)
Definition verified (e : EmbedderIdentity) : bool := given (ei_revision e) || given (ei_artifact_digest e).
Definition production_admissible (e : EmbedderIdentity) : bool := verified e || ei_hosted e.

Definition with_digest (e : EmbedderIdentity) (d : option string) : EmbedderIdentity :=
  {| ei_provider := ei_provider e; ei_model := ei_model e; ei_dimension := ei_dimension e; ei_revision := ei_revision e;
     ei_artifact_digest := d; ei_unverified_reason := ei_unverified_reason e; ei_profile_id := ei_profile_id e;
     ei_profile_fingerprint := ei_profile_fingerprint e; ei_context_mode := ei_context_mode e;
     ei_context_version := ei_context_version e; ei_hosted := ei_hosted e |}.

(** [EmbedderIdentity.__post_init__]. *)
Definition blank_given (o : option string) : bool := match o with Some s => blank s | None => false end.

Definition embedder_identity (e : EmbedderIdentity) : result EmbedderIdentity :=
  if blank (ei_provider e) || blank (ei_model e) then lineage_error "embedder provider and model must be non-empty"
  else if ei_dimension e <? 1 then lineage_error "embedder dimension must be positive"
  else if blank_given (ei_profile_id e) then lineage_error "profile_id must be non-empty when supplied"
  else if blank_given (ei_profile_fingerprint e) then lineage_error "profile_fingerprint must be non-empty when supplied"
  else if blank (ei_context_mode e) || blank (ei_context_version e) then lineage_error "context mode and context version must be non-empty"
  else
    d ← (match ei_artifact_digest e with Some s => Some <$> digest s | None => Ok None end);
    let e := with_digest e d in
    if verified e && bool_decide (is_Some (ei_unverified_reason e)) then
      lineage_error "an immutable embedder identity cannot also be marked unverified"
    else if ei_hosted e && bool_decide (is_Some (ei_artifact_digest e)) then
      lineage_error "a hosted embedder identity cannot pin an artifact digest"
    else if ei_hosted e && bool_decide (is_Some (ei_revision e)) then
      lineage_error "a hosted embedder identity cannot pin a revision"
    else if negb (verified e) && negb (given (ei_unverified_reason e)) && negb (ei_hosted e) then
      lineage_error "embedder identity needs an immutable revision or artifact digest"
    else Ok e.

(** [EmbedderIdentity.to_dict]. *)
Definition embedder_dict (e : EmbedderIdentity) : metadata :=
  [("provider", VStr (ei_provider e)); ("model", VStr (ei_model e)); ("revision", text_value (ei_revision e));
   ("artifact_digest", text_value (ei_artifact_digest e)); ("dimension", VInt (ei_dimension e));
   ("verified", VBool (verified e)); ("unverified_reason", text_value (ei_unverified_reason e))] ++
  match ei_profile_id e with Some s => [("profile_id", VStr s)] | None => [] end ++
  match ei_profile_fingerprint e with Some s => [("profile_fingerprint", VStr s)] | None => [] end ++
  (if bool_decide (ei_context_mode e <> DEFAULT_CONTEXT_MODE) || bool_decide (ei_context_version e <> DEFAULT_CONTEXT_VERSION)
   then [("context_mode", VStr (ei_context_mode e)); ("context_version", VStr (ei_context_version e))] else []).

(** [ChunkerIdentity]. *)
Record ChunkerIdentity := { ci_algorithm : string; ci_schema_version : Z; ci_configuration : metadata }.

Definition as_dict (v : value) : metadata := match v with VDict l => l | _ => [] end.

Definition chunker_identity (c : ChunkerIdentity) : result ChunkerIdentity :=
  if blank (ci_algorithm c) then lineage_error "chunker algorithm must be non-empty"
  else if ci_schema_version c <? 1 then lineage_error "chunker schema_version must be positive"
  else
    frozen ← freeze_json (VDict (ci_configuration c));
    Ok {| ci_algorithm := ci_algorithm c; ci_schema_version := ci_schema_version c; ci_configuration := as_dict frozen |}.

Definition chunker_dict (c : ChunkerIdentity) : metadata :=
  [("algorithm", VStr (ci_algorithm c)); ("schema_version", VInt (ci_schema_version c)); ("configuration", VDict (ci_configuration c))].

(** [PipelineIdentity]. *)
Record PipelineIdentity := {
  pi_embedder : EmbedderIdentity;
  pi_chunker : ChunkerIdentity;
  pi_fts_configuration : metadata;
  pi_schema_version : Z
}.

Definition DEFAULT_FTS_CONFIGURATION : metadata := [("language", VStr "english"); ("schema_version", VInt 1)].

Definition pipeline_identity (p : PipelineIdentity) : result PipelineIdentity :=
  if pi_schema_version p <? 1 then lineage_error "pipeline schema_version must be positive"
  else
    frozen ← freeze_json (VDict (pi_fts_configuration p));
    Ok {| pi_embedder := pi_embedder p; pi_chunker := pi_chunker p; pi_fts_configuration := as_dict frozen;
          pi_schema_version := pi_schema_version p |}.

(** [PipelineIdentity.to_dict]: [for_storage] keeps the hosted classification. *)
Definition pipeline_dict (for_storage : bool) (p : PipelineIdentity) : metadata :=
  [("schema_version", VInt (pi_schema_version p));
   ("embedder", VDict (let d := embedder_dict (pi_embedder p) in
                       if for_storage && ei_hosted (pi_embedder p) then odict_set "hosted" (VBool true) d else d));
   ("chunker", VDict (chunker_dict (pi_chunker p)));
   ("fts_configuration", VDict (pi_fts_configuration p))].

(** [PipelineIdentity.require_production_identity]. *)
Definition require_production_identity (p : PipelineIdentity) : result unit :=
  if production_admissible (pi_embedder p) then Ok tt
  else lineage_error "production generation builds require an immutable embedder revision or artifact digest, or a hosted provider endpoint".

(** ** Reading an identity back *)

Section reading.
Context (py_str : value -> string) (registered_hosted : string -> option bool).

(** [str(v)] and [int(v)]. *)
Definition to_str (v : value) : string := match v with VStr s => s | v => py_str v end.

Definition truncated (f : float) : Z :=
  match f with
  | S754_finite s m e => (if s then Z.opp else id) (if 0 <=? e then Z.pos m * 2 ^ e else Z.pos m / 2 ^ (- e))
  | _ => 0
  end.

Definition to_int (v : value) : result Z :=
  match v with
  | VInt z => Ok z
  | VBool b => Ok (if b then 1 else 0)
  | VFloat f => Ok (truncated f)
  | VStr s => match py_int s with Some z => Ok z | None => Raise (ValueError "invalid literal for int()") end
  | _ => Raise (TypeError "int() argument must be a string or a real number")
  end.

(** [str(m[k]) if m.get(k) else None], and [m.get(k, default)]. *)
Definition opt_str (m : metadata) (k : string) : option string :=
  let v := meta_get k m in if truthy v then Some (to_str v) else None.

Definition get_or (m : metadata) (k : string) (d : value) : value := default d (odict_get k m).

(** [PipelineIdentity.from_dict]. *)
Definition hosted_of (m : metadata) : bool :=
  let hosted := truthy (get_or m "hosted" (VBool false)) in
  let profile := opt_str m "profile_id" in
  if negb hosted && given profile && negb (given (opt_str m "revision")) && negb (given (opt_str m "artifact_digest"))
  then match profile with Some id => default false (registered_hosted id) | None => false end
  else hosted.

Definition pipeline_from_dict (m : metadata) : result PipelineIdentity :=
  match meta_get "embedder" m, meta_get "chunker" m with
  | VDict em, VDict ch =>
      schema ← to_int (get_or m "schema_version" (VInt PIPELINE_SCHEMA_VERSION));
      dimension ← to_int (get_or em "dimension" (VInt 0));
      embedder ← embedder_identity
        {| ei_provider := to_str (get_or em "provider" (VStr "")); ei_model := to_str (get_or em "model" (VStr ""));
           ei_dimension := dimension; ei_revision := opt_str em "revision";
           ei_artifact_digest := opt_str em "artifact_digest"; ei_unverified_reason := opt_str em "unverified_reason";
           ei_profile_id := opt_str em "profile_id"; ei_profile_fingerprint := opt_str em "profile_fingerprint";
           ei_context_mode := to_str (get_or em "context_mode" (VStr DEFAULT_CONTEXT_MODE));
           ei_context_version := to_str (get_or em "context_version" (VStr DEFAULT_CONTEXT_VERSION));
           ei_hosted := hosted_of em |};
      chunker_version ← to_int (get_or ch "schema_version" (VInt 0));
      chunker ← chunker_identity
        {| ci_algorithm := to_str (get_or ch "algorithm" (VStr "")); ci_schema_version := chunker_version;
           ci_configuration := as_dict (meta_get "configuration" ch) |};
      pipeline_identity
        {| pi_embedder := embedder; pi_chunker := chunker;
           pi_fts_configuration := match meta_get "fts_configuration" m with VDict l => l | _ => DEFAULT_FTS_CONFIGURATION end;
           pi_schema_version := schema |}
  | _, _ => lineage_error "pipeline embedder and chunker must be objects"
  end.

(** ** The manifest *)

Context (bracketed_ok : string -> bool).

(** [ManifestObjectV1]. *)
Record ManifestObjectV1 := {
  mo_uri : string;
  mo_version_id : string;
  mo_media_type : string;
  mo_size : Z;
  mo_sha256 : string;
  mo_context_group_id : option string
}.

#[export] Instance ManifestObjectV1_eq_dec : EqDecision ManifestObjectV1.
Proof. solve_decision. Defined.

(** [path.lstrip("/")] is not empty. *)
Definition names_something (path : string) : bool := existsb (fun c => negb (is_char "/" c)) (chars path).

Definition object_address (o : ManifestObjectV1) : result bool :=
  u ← urlsplit bracketed_ok (mo_uri o);
  if negb (bool_decide (url_query u = "")) || negb (bool_decide (url_fragment u = "")) then
    lineage_error "manifest object URI cannot contain a query or fragment"
  else if bool_decide (url_scheme u = "file") then
    if negb (names_something (url_path u)) then lineage_error "manifest object URI must be file:///absolute/path"
    else if negb (bool_decide (lower (mo_version_id o) = lower (mo_sha256 o))) then
      lineage_error "a file:// manifest object's version_id must be its content digest"
    else Ok true
  else if negb (bool_decide (url_scheme u = "s3")) || bool_decide (url_netloc u = "") || negb (names_something (url_path u)) then
    lineage_error "manifest object URI must be s3://bucket/key or file:///path"
  else Ok false.

(** [ManifestObjectV1.__post_init__]. *)
Definition manifest_object (o : ManifestObjectV1) : result ManifestObjectV1 :=
  is_file ← object_address o;
  if bool_decide (mo_version_id o = "") || bool_decide (lower (mo_version_id o) = "null") then
    lineage_error "manifest object version_id must name an immutable object version"
  else if bool_decide (mo_media_type o = "") then lineage_error "manifest object media_type must be non-empty"
  else if mo_size o <? 0 then lineage_error "manifest object size cannot be negative"
  else if blank_given (mo_context_group_id o) then lineage_error "manifest object context_group_id must be non-empty when supplied"
  else
    sha ← digest (mo_sha256 o);
    Ok {| mo_uri := mo_uri o; mo_version_id := if is_file : bool then sha else mo_version_id o; mo_media_type := mo_media_type o;
          mo_size := mo_size o; mo_sha256 := sha; mo_context_group_id := mo_context_group_id o |}.

Definition object_dict (o : ManifestObjectV1) : metadata :=
  [("uri", VStr (mo_uri o)); ("version_id", VStr (mo_version_id o)); ("media_type", VStr (mo_media_type o));
   ("size", VInt (mo_size o)); ("sha256", VStr (mo_sha256 o))] ++
  match mo_context_group_id o with Some g => [("context_group_id", VStr g)] | None => [] end.

(** [IndexManifestV1]. *)
Record IndexManifestV1 := {
  im_tenant_id : string;
  im_corpus_version : string;
  im_objects : list ManifestObjectV1;
  im_schema_version : Z
}.

(** [key=lambda item: (item.uri, item.version_id)]. *)
Definition object_ltb (a b : ManifestObjectV1) : bool :=
  if decide (mo_uri a = mo_uri b) then string_ltb (mo_version_id a) (mo_version_id b) else string_ltb (mo_uri a) (mo_uri b).

Definition index_manifest (m : IndexManifestV1) : result IndexManifestV1 :=
  if negb (im_schema_version m =? MANIFEST_SCHEMA_VERSION) then lineage_error "unsupported manifest schema_version"
  else if blank (im_tenant_id m) || blank (im_corpus_version m) then lineage_error "manifest tenant_id and corpus_version must be non-empty"
  else
    let ordered := stable_sort (fun a b => negb (object_ltb b a)) (im_objects m) in
    if bool_decide (NoDup (map mo_uri ordered)) then
      Ok {| im_tenant_id := im_tenant_id m; im_corpus_version := im_corpus_version m; im_objects := ordered;
            im_schema_version := im_schema_version m |}
    else lineage_error "manifest contains a duplicate object URI".

Definition manifest_dict (m : IndexManifestV1) : metadata :=
  [("schema_version", VInt (im_schema_version m)); ("tenant_id", VStr (im_tenant_id m));
   ("corpus_version", VStr (im_corpus_version m)); ("objects", VList (map (fun o => VDict (object_dict o)) (im_objects m)))].

(** [IndexManifestV1.from_dict]. *)
Definition object_from_value (v : value) : result ManifestObjectV1 :=
  match v with
  | VDict raw =>
      size ← to_int (get_or raw "size" (VInt (-1)));
      manifest_object
        {| mo_uri := to_str (get_or raw "uri" (VStr "")); mo_version_id := to_str (get_or raw "version_id" (VStr ""));
           mo_media_type := to_str (get_or raw "media_type" (VStr "")); mo_size := size;
           mo_sha256 := to_str (get_or raw "sha256" (VStr ""));
           mo_context_group_id := match meta_get "context_group_id" raw with VNone => None | v => Some (to_str v) end |}
  | _ => lineage_error "every manifest object must be an object"
  end.

Definition manifest_from_dict (m : metadata) : result IndexManifestV1 :=
  match meta_get "objects" m with
  | VList raw =>
      objects ← result_mapM object_from_value raw;
      schema ← to_int (get_or m "schema_version" (VInt 0));
      index_manifest
        {| im_tenant_id := to_str (get_or m "tenant_id" (VStr "")); im_corpus_version := to_str (get_or m "corpus_version" (VStr ""));
           im_objects := objects; im_schema_version := schema |}
  | _ => lineage_error "manifest objects must be an array"
  end.

(** ** Fingerprints *)

Context (json_dumps : value -> string) (sha256_hex : string -> string).

(** [canonical_json] and [canonical_sha256]. *)
Definition canonical_json (v : value) : result string := json_dumps <$> freeze_json v.
Definition canonical_sha256 (v : value) : result string := sha256_hex <$> canonical_json v.

(** [PipelineIdentity.fingerprint] and [IndexManifestV1.digest]. *)
Definition fingerprint (p : PipelineIdentity) : result string := canonical_sha256 (VDict (pipeline_dict false p)).
Definition manifest_digest (m : IndexManifestV1) : result string := canonical_sha256 (VDict (manifest_dict m)).
End reading.
