(* ===== verification/LineageFacts.v ===== *)
(** * LineageFacts: identities and manifests are read back as they were written *)
From S2P Require Import Prelude Text Float64 Frontmatter Urls Lineage.

Local Open Scope Z_scope.

(** ** Digests *)

Lemma lower_char_idemp c : lower_char (lower_char c) = lower_char c.
Proof. destruct c as [[] [] [] [] [] [] [] []]; reflexivity. Qed.

Lemma lower_idemp s : lower (lower s) = lower s.
Proof. unfold lower. rewrite chars_unchars. f_equal. rewrite map_map. apply map_ext. apply lower_char_idemp. Qed.

Lemma digest_some s d : digest s = Ok d -> d = lower s /\ is_sha256_hex d = true /\ lower d = d.
Proof.
  unfold digest. destruct (is_sha256_hex (lower s)) eqn:H; [|done]. intros [= <-]. by rewrite lower_idemp.
Qed.

Lemma digest_own d : is_sha256_hex d = true -> lower d = d -> digest d = Ok d.
Proof. intros H Hl. unfold digest. by rewrite Hl, H. Qed.

Lemma hex_not_null d : is_sha256_hex d = true -> lower d = d -> d <> "" /\ lower d <> "null".
Proof.
  unfold is_sha256_hex. intros H ->. split_bool. split; intros ->; cbn in *; congruence.
Qed.

(** ** Freezing *)

(** Induction on a JSON value, through its lists and mappings. *)
Section value_induction.
Context (P : value -> Prop).
Context (Hatom : forall v, match v with VList _ | VDict _ => False | _ => True end -> P v).
Context (Hlist : forall l, Forall P l -> P (VList l)).
Context (Hdict : forall l, Forall (fun kv => P kv.2) l -> P (VDict l)).

Fixpoint value_nested (v : value) : P v :=
  match v return P v with
  | VList l => Hlist l ((fix go l : Forall P l := match l with [] => Forall_nil_2 P | x :: l' => Forall_cons_2 _ _ _ (value_nested x) (go l') end) l)
  | VDict l => Hdict l ((fix go l : Forall (fun kv => P kv.2) l :=
                           match l with [] => Forall_nil_2 _ | kv :: l' => Forall_cons_2 _ _ _ (value_nested kv.2) (go l') end) l)
  | v => Hatom v I
  end.
End value_induction.

Lemma freeze_list_eq l : freeze_json (VList l) = VList <$> freeze_list l.
Proof.
  cbn [freeze_json]. f_equal. unfold freeze_list. induction l as [|x l IH]; cbn [result_mapM]; [done|]. by rewrite IH.
Qed.

Lemma freeze_dict_eq l : freeze_json (VDict l) = (fun l => VDict (stable_sort pair_leb l)) <$> result_mapM freeze_item l.
Proof.
  cbn [freeze_json]. f_equal. induction l as [|[k x] l IH]; cbn [result_mapM]; [done|].
  change (freeze_item (k, x)) with (if decide (k = "") then lineage_error "empty object key" else y ← freeze_json x; Ok (k, y)).
  rewrite IH. destruct (decide (k = "")); [done|]. by destruct (freeze_json x).
Qed.

Lemma fmap_ok {A B} (f : A -> B) (m : result A) b : f <$> m = Ok b <-> exists a, m = Ok a /\ b = f a.
Proof. destruct m as [a|e]; cbn; split; [intros [= <-]; eauto|by intros (? & [= <-] & ->)|done|by intros (? & ? & _)]. Qed.

Lemma frozen_leb_total a b : pair_leb a b = true \/ pair_leb b a = true.
Proof. apply String.leb_total. Qed.

Lemma pair_leb_trans : Transitive (leb_le pair_leb).
Proof.
  intros a b c Hab Hbc. unfold leb_le, pair_leb in *. apply not_false_is_true. intros Hca.
  assert (Hlt : string_ltb c.1 a.1 = true) by (unfold string_ltb; by rewrite Hca).
  destruct (decide (a.1 = b.1)) as [Heq|Hne].
  - rewrite Heq in Hlt. unfold string_ltb in Hlt. rewrite Hbc in Hlt. done.
  - assert (Hlt' : string_ltb a.1 b.1 = true).
    { apply string_ltb_total; [done|]. unfold string_ltb. by rewrite Hab. }
    pose proof (string_ltb_trans _ _ _ Hlt Hlt') as Hcb. unfold string_ltb in Hcb. by rewrite Hbc in Hcb.
Qed.

(** Freezing twice is freezing once. *)
Lemma freeze_idemp v : forall w, freeze_json v = Ok w -> freeze_json w = Ok w.
Proof.
  induction v as [v Hv|l IH|l IH] using value_nested; intros w Hw.
  - destruct v; cbn in Hw; try done; try (by injection Hw as <-). destruct (finite f) eqn:Hf; [|done]. injection Hw as <-. cbn. by rewrite Hf.
  - rewrite freeze_list_eq, fmap_ok in Hw. destruct Hw as (k & Hk & ->). rewrite freeze_list_eq, fmap_ok. exists k. split; [|done].
    apply result_mapM_ok in Hk. apply result_mapM_ok. induction Hk as [|x y l k Hxy Hk IHk]; constructor; inversion_clear IH; auto.
  - rewrite freeze_dict_eq, fmap_ok in Hw. destruct Hw as (k & Hk & ->). apply result_mapM_ok in Hk.
    assert (Hitems : Forall (fun kx => freeze_item kx = Ok kx) k).
    { induction Hk as [|[n x] y l k Hxy Hk IHk]; constructor; inversion_clear IH; [|by apply IHk].
      unfold freeze_item in Hxy. cbn [fst snd] in Hxy. case_decide as Hn; [done|]. apply bind_ok in Hxy as (z & Hz & [= <-]).
      unfold freeze_item. cbn [fst snd] in *. rewrite decide_False by done. by rewrite (H z Hz). }
    rewrite freeze_dict_eq, fmap_ok. exists (stable_sort pair_leb k). split.
    + apply result_mapM_ok, Forall_Forall2_diag.
      by rewrite stable_sort_perm.
    + f_equal. symmetry. apply sort_sorted. apply Sorted_StronglySorted; [apply pair_leb_trans|].
      apply stable_sort_sorted, frozen_leb_total.
Qed.

(** ** Manifests *)

Section manifests.
Context (py_str : value -> string) (bracketed_ok : string -> bool).

Local Abbreviation make_object := (manifest_object bracketed_ok).

Lemma object_address_own o o' : object_address bracketed_ok o = Ok true ->
  mo_uri o' = mo_uri o -> lower (mo_version_id o') = lower (mo_sha256 o') -> object_address bracketed_ok o' = Ok true.
Proof.
  unfold object_address. intros Ho Hu Hv. rewrite Hu. destruct (urlsplit bracketed_ok (mo_uri o)) as [u|]; [|done]. cbn [mbind result_bind] in *.
  destruct (_ || _); [done|]. destruct (bool_decide (url_scheme u = "file")); [|by destruct (_ || _)].
  destruct (negb (names_something _)); [done|]. by rewrite bool_decide_true.
Qed.

Lemma object_address_s3 o o' : object_address bracketed_ok o = Ok false -> mo_uri o' = mo_uri o ->
  object_address bracketed_ok o' = Ok false.
Proof.
  unfold object_address. intros Ho Hu. rewrite Hu. destruct (urlsplit bracketed_ok (mo_uri o)) as [u|]; [|done]. cbn [mbind result_bind] in *.
  destruct (_ || _); [done|]. destruct (bool_decide (url_scheme u = "file")); [|done].
  destruct (negb (names_something _)); [done|]. by destruct (negb (bool_decide (lower (mo_version_id o) = lower (mo_sha256 o)))).
Qed.

(** A constructed object is what its constructor makes of it. *)
Lemma manifest_object_own o0 o : make_object o0 = Ok o -> make_object o = Ok o.
Proof.
  unfold manifest_object at 1. rewrite bind_ok. intros (is_file & Ha & H).
  destruct (_ || _) eqn:Hv in H; [done|]. destruct (bool_decide (mo_media_type o0 = "")) eqn:Hm; [done|].
  destruct (mo_size o0 <? 0) eqn:Hs; [done|]. destruct (blank_given _) eqn:Hg in H; [done|].
  apply bind_ok in H as (sha & Hsha & [= <-]). apply digest_some in Hsha as (_ & Hhex & Hlow).
  destruct (hex_not_null sha Hhex Hlow) as [Hne Hnull]. unfold manifest_object. destruct is_file.
  - erewrite object_address_own; [|exact Ha|done|done]. cbn [mbind result_bind mo_version_id mo_media_type mo_size mo_sha256 mo_context_group_id mo_uri].
    rewrite !bool_decide_false, Hs, Hg, digest_own by (done || by apply bool_decide_eq_false in Hm). done.
  - erewrite object_address_s3; [|exact Ha|done]. cbn [mbind result_bind mo_version_id mo_media_type mo_size mo_sha256 mo_context_group_id mo_uri].
    by rewrite Hv, Hm, Hs, Hg, digest_own.
Qed.

Lemma object_read o : make_object o = Ok o -> object_from_value py_str bracketed_ok (VDict (object_dict o)) = Ok o.
Proof.
  intros Ho. unfold object_from_value.
  assert (Hg : match meta_get "context_group_id" (object_dict o) with VNone => None | v => Some (to_str py_str v) end = mo_context_group_id o)
    by (unfold object_dict; by destruct (mo_context_group_id o)).
  rewrite Hg. change (get_or (object_dict o) "size" (VInt (-1))) with (VInt (mo_size o)). cbn [to_int mbind result_bind].
  change (get_or (object_dict o) "uri" (VStr "")) with (VStr (mo_uri o)).
  change (get_or (object_dict o) "version_id" (VStr "")) with (VStr (mo_version_id o)).
  change (get_or (object_dict o) "media_type" (VStr "")) with (VStr (mo_media_type o)).
  change (get_or (object_dict o) "sha256" (VStr "")) with (VStr (mo_sha256 o)). cbn [to_str]. by destruct o.
Qed.

(** The objects in canonical order. *)
Definition ordered (l : list ManifestObjectV1) : list ManifestObjectV1 := stable_sort (fun a b => negb (object_ltb b a)) l.

Lemma object_ltb_weak : weak_order object_ltb.
Proof.
  destruct string_ltb_weak as [Hw Hc]. apply (lex_weak mo_uri string_ltb (fun a b => string_ltb (mo_version_id a) (mo_version_id b))); [done|].
  by apply weak_order_map.
Qed.

Lemma uris_distinct (l : list ManifestObjectV1) a b : NoDup (mo_uri <$> l) -> a ∈ l -> b ∈ l -> mo_uri a = mo_uri b -> a = b.
Proof.
  intros Hnd (i & Hi)%list_elem_of_lookup (j & Hj)%list_elem_of_lookup Heq.
  assert (i = j) as ->; [|congruence]. eapply NoDup_lookup; [exact Hnd|..]; rewrite list_lookup_fmap; [by rewrite Hi|by rewrite Hj, Heq].
Qed.

(** Any order of the same objects gives the same manifest. *)
Lemma ordered_perm l k : NoDup (mo_uri <$> l) -> l ≡ₚ k -> ordered l = ordered k.
Proof.
  intros Hnd Hp. apply (StronglySorted_unique_strong (fun a b => object_ltb b a = false)).
  - intros a b Ha Hb Hab Hba. unfold ordered in Ha, Hb. rewrite stable_sort_perm in Ha. rewrite stable_sort_perm, <-Hp in Hb.
    apply (uris_distinct l); [done..|]. unfold object_ltb in Hab, Hba.
    destruct (decide (mo_uri a = mo_uri b)) as [|Hne]; [done|]. rewrite decide_False in Hab by congruence.
    apply string_ltb_total in Hab; congruence.
  - apply stable_sort_weak, object_ltb_weak.
  - apply stable_sort_weak, object_ltb_weak.
  - unfold ordered. by rewrite !stable_sort_perm.
Qed.

Lemma index_manifest_some m0 m : index_manifest m0 = Ok m ->
  im_schema_version m0 = 1 /\ blank (im_tenant_id m0) = false /\ blank (im_corpus_version m0) = false /\
  NoDup (mo_uri <$> im_objects m0) /\
  m = {| im_tenant_id := im_tenant_id m0; im_corpus_version := im_corpus_version m0; im_objects := ordered (im_objects m0);
         im_schema_version := im_schema_version m0 |}.
Proof.
  unfold index_manifest. destruct (im_schema_version m0 =? _) eqn:Hs; [|done]. cbn [negb]. destruct (_ || _) eqn:Hb; [done|].
  case_bool_decide as Hnd; [|done]. intros [= <-]. apply orb_false_iff in Hb as [Ht Hv]. apply Z.eqb_eq in Hs.
  repeat split; [done..|]. change (map mo_uri) with (fmap (M := list) mo_uri) in Hnd. by rewrite stable_sort_perm in Hnd.
Qed.

(** A manifest is canonical and is read back from its JSON. Whatever order its objects are
    written in, reading them gives the manifest the constructor made: the same objects by URI,
    hence the same digest; an object that was accepted is accepted again unchanged. *)
Theorem manifest_roundtrip m0 m objects :
  index_manifest m0 = Ok m -> Forall (fun o => exists raw, make_object raw = Ok o) (im_objects m0) -> objects ≡ₚ im_objects m0 ->
  manifest_from_dict py_str bracketed_ok
    (manifest_dict {| im_tenant_id := im_tenant_id m; im_corpus_version := im_corpus_version m; im_objects := objects;
                      im_schema_version := im_schema_version m |}) = Ok m.
Proof.
  intros Hm Hobj Hp. apply index_manifest_some in Hm as (Hs & Ht & Hv & Hnd & ->). unfold manifest_from_dict.
  set (d := manifest_dict _). change (meta_get "objects" d) with (VList (map (fun o => VDict (object_dict o)) objects)).
  cbn match. assert (Hread : result_mapM (object_from_value py_str bracketed_ok) (map (fun o => VDict (object_dict o)) objects) = Ok objects).
  { apply result_mapM_ok. rewrite <-Hp in Hobj. change map with (@fmap list _). apply Forall2_fmap_l, Forall_Forall2_diag.
    eapply Forall_impl; [exact Hobj|]. intros o (raw & Hraw). by eapply object_read, manifest_object_own. }
  rewrite Hread. cbn [mbind result_bind].
  change (get_or d "schema_version" (VInt 0)) with (VInt (im_schema_version m0)). cbn [to_int mbind result_bind].
  change (get_or d "tenant_id" (VStr "")) with (VStr (im_tenant_id m0)).
  change (get_or d "corpus_version" (VStr "")) with (VStr (im_corpus_version m0)). cbn [to_str].
  unfold index_manifest. cbn [im_schema_version im_tenant_id im_corpus_version im_objects]. rewrite Hs, Ht, Hv. cbn [Z.eqb negb orb].
  assert (Hnd' : NoDup (mo_uri <$> objects)) by by rewrite Hp.
  fold (ordered objects). rewrite (ordered_perm objects (im_objects m0)) by done.
  rewrite bool_decide_true; [done|]. change (NoDup (mo_uri <$> ordered (im_objects m0))). unfold ordered. by rewrite stable_sort_perm.
Qed.
End manifests.

(** ** Pipelines *)

Section pipelines.
Context (py_str : value -> string) (registered_hosted : string -> option bool).

Definition with_hosted (h : bool) (e : EmbedderIdentity) : EmbedderIdentity :=
  {| ei_provider := ei_provider e; ei_model := ei_model e; ei_dimension := ei_dimension e; ei_revision := ei_revision e;
     ei_artifact_digest := ei_artifact_digest e; ei_unverified_reason := ei_unverified_reason e; ei_profile_id := ei_profile_id e;
     ei_profile_fingerprint := ei_profile_fingerprint e; ei_context_mode := ei_context_mode e;
     ei_context_version := ei_context_version e; ei_hosted := h |}.

Definition rehosted (h : bool) (p : PipelineIdentity) : PipelineIdentity :=
  {| pi_embedder := with_hosted h (pi_embedder p); pi_chunker := pi_chunker p;
     pi_fts_configuration := pi_fts_configuration p; pi_schema_version := pi_schema_version p |}.

(** What the constructor of an identity has checked. *)
Record embedder_checked (e : EmbedderIdentity) : Prop := {
  ec_provider : blank (ei_provider e) = false;
  ec_model : blank (ei_model e) = false;
  ec_dimension : 1 <= ei_dimension e;
  ec_profile : blank_given (ei_profile_id e) = false;
  ec_profile_print : blank_given (ei_profile_fingerprint e) = false;
  ec_mode : blank (ei_context_mode e) = false;
  ec_version : blank (ei_context_version e) = false;
  ec_digest : forall d, ei_artifact_digest e = Some d -> is_sha256_hex d = true /\ lower d = d;
  ec_marked : verified e = true -> ei_unverified_reason e = None;
  ec_hosted_digest : ei_hosted e = true -> ei_artifact_digest e = None;
  ec_hosted_revision : ei_hosted e = true -> ei_revision e = None;
  ec_backed : verified e || given (ei_unverified_reason e) || ei_hosted e = true
}.

Lemma embedder_identity_some e0 e : embedder_identity e0 = Ok e -> embedder_checked e.
Proof.
  unfold embedder_identity. destruct (blank (ei_provider e0) || blank (ei_model e0)) eqn:H1; [done|].
  destruct (ei_dimension e0 <? 1) eqn:H2; [done|]. destruct (blank_given (ei_profile_id e0)) eqn:H3; [done|].
  destruct (blank_given (ei_profile_fingerprint e0)) eqn:H4; [done|].
  destruct (blank (ei_context_mode e0) || blank (ei_context_version e0)) eqn:H5; [done|].
  rewrite bind_ok. intros (d & Hd & H). cbn zeta in H.
  assert (Hdig : forall x, d = Some x -> is_sha256_hex x = true /\ lower x = x).
  { intros x ->. destruct (ei_artifact_digest e0) as [s|]; [|done]. apply fmap_ok in Hd as (y & Hy & [= ->]).
    by apply digest_some in Hy as (_ & ? & ?). }
  destruct (_ && _) eqn:H6 in H; [done|]. destruct (_ && _) eqn:H7 in H; [done|]. destruct (_ && _) eqn:H8 in H; [done|].
  destruct (_ && _) eqn:H9 in H; [done|]. injection H as <-. split_bool. apply Z.ltb_ge in H2.
  split; try done.
  - intros Hv. rewrite Hv in H6. cbn [andb] in H6. apply bool_decide_eq_false in H6. by apply eq_None_not_Some.
  - intros Hh. rewrite Hh in H7. cbn [andb] in H7. apply bool_decide_eq_false in H7. by apply eq_None_not_Some.
  - intros Hh. rewrite Hh in H8. cbn [andb] in H8. apply bool_decide_eq_false in H8. by apply eq_None_not_Some.
  - destruct (verified _), (given _), (ei_hosted _); done.
Qed.

Lemma embedder_identity_own e : embedder_checked e -> embedder_identity e = Ok e.
Proof.
  intros [H1 H2 H3 H4 H5 H6 H7 Hd Hm Hhd Hhr Hb]. unfold embedder_identity. rewrite H1, H2, H4, H5, H6, H7.
  replace (ei_dimension e <? 1) with false by (symmetry; apply Z.ltb_ge; lia). cbn [orb].
  assert (Hdig : match ei_artifact_digest e with Some s => Some <$> digest s | None => Ok None end = Ok (ei_artifact_digest e)).
  { destruct (ei_artifact_digest e) as [d|]; [|done]. destruct (Hd d eq_refl). by rewrite digest_own. }
  rewrite Hdig. cbn [mbind result_bind]. cbn zeta. replace (with_digest e (ei_artifact_digest e)) with e by by destruct e.
  destruct (verified e) eqn:Hv.
  - rewrite Hm by done. rewrite bool_decide_false by by intros []. cbn [andb negb].
    destruct (ei_hosted e) eqn:Hh; [|done]. cbn [andb]. rewrite Hhd, Hhr by done. by rewrite bool_decide_false by by intros [].
  - cbn [andb negb orb] in *. destruct (ei_hosted e) eqn:Hh; cbn [andb negb].
    + rewrite Hhd, Hhr by done. rewrite !bool_decide_false by by intros []. by rewrite andb_false_r.
    + rewrite orb_false_r in Hb. by rewrite Hb.
Qed.

Lemma not_blank_given o : blank_given o = false -> o <> Some "".
Proof. destruct o as [s|]; [|done]. by intros H [= ->]. Qed.

(** A field written as text or null is read back, unless it is the empty text. *)
Lemma opt_str_text m k o : meta_get k m = text_value o -> o <> Some "" -> opt_str py_str m k = o.
Proof.
  unfold opt_str. intros -> Ho. destruct o as [s|]; [|done]. cbn. rewrite bool_decide_false; [done|]. congruence.
Qed.

(** The stored form of an embedder identity, field by field. *)
Definition stored (e : EmbedderIdentity) : metadata :=
  if ei_hosted e then odict_set "hosted" (VBool true) (embedder_dict e) else embedder_dict e.

Lemma stored_fields e :
  meta_get "revision" (stored e) = text_value (ei_revision e) /\
  meta_get "artifact_digest" (stored e) = text_value (ei_artifact_digest e) /\
  meta_get "unverified_reason" (stored e) = text_value (ei_unverified_reason e) /\
  meta_get "profile_id" (stored e) = text_value (ei_profile_id e) /\
  meta_get "profile_fingerprint" (stored e) = text_value (ei_profile_fingerprint e) /\
  get_or (stored e) "provider" (VStr "") = VStr (ei_provider e) /\
  get_or (stored e) "model" (VStr "") = VStr (ei_model e) /\
  get_or (stored e) "dimension" (VInt 0) = VInt (ei_dimension e) /\
  get_or (stored e) "context_mode" (VStr DEFAULT_CONTEXT_MODE) = VStr (ei_context_mode e) /\
  get_or (stored e) "context_version" (VStr DEFAULT_CONTEXT_VERSION) = VStr (ei_context_version e) /\
  get_or (stored e) "hosted" (VBool false) = VBool (ei_hosted e).
Proof.
  unfold stored, embedder_dict, get_or, meta_get.
  destruct (bool_decide (ei_context_mode e <> DEFAULT_CONTEXT_MODE) || bool_decide (ei_context_version e <> DEFAULT_CONTEXT_VERSION)) eqn:Hc;
    destruct (ei_hosted e), (ei_profile_id e), (ei_profile_fingerprint e); try (repeat split; reflexivity);
    apply orb_false_iff in Hc as [Hm%bool_decide_eq_false%dec_stable Hv%bool_decide_eq_false%dec_stable]; rewrite <-Hm, <-Hv at 1;
    repeat split; reflexivity.
Qed.

(** The classification a reload gives: a stored hosted identity stays hosted, and an unpinned one
    whose profile the registry serves from a provider becomes so. *)
Definition reloaded_hosted (e : EmbedderIdentity) : bool :=
  ei_hosted e ||
  (negb (verified e) && match ei_profile_id e with Some id => default false (registered_hosted id) | None => false end).

Lemma hosted_of_stored e : embedder_checked e -> ei_revision e <> Some "" ->
  hosted_of py_str registered_hosted (stored e) = reloaded_hosted e.
Proof.
  intros He Hr. destruct (stored_fields e) as (Hrev & Hdig & _ & Hprof & _ & _ & _ & _ & _ & _ & Hh).
  unfold hosted_of, reloaded_hosted. rewrite Hh. cbn [truthy].
  rewrite (opt_str_text _ _ _ Hrev Hr), (opt_str_text _ _ _ Hprof (not_blank_given _ (ec_profile e He))), (opt_str_text _ _ _ Hdig).
  - unfold verified. destruct (ei_hosted e), (given (ei_revision e)), (given (ei_artifact_digest e)), (ei_profile_id e) as [id|] eqn:Hid;
      cbn; rewrite ?andb_false_r; try done. pose proof (not_blank_given _ (ec_profile e He)) as Hne. rewrite Hid in Hne.
    rewrite bool_decide_false by congruence. done.
  - intros Hd. by destruct (ec_digest e He "" Hd).
Qed.

Lemma with_hosted_checked e : embedder_checked e -> ei_revision e <> Some "" -> embedder_checked (with_hosted (reloaded_hosted e) e).
Proof.
  intros [H1 H2 H3 H4 H5 H6 H7 Hd Hm Hhd Hhr Hb] Hne.
  assert (Hh : reloaded_hosted e = true -> ei_hosted e = true \/ verified e = false).
  { unfold reloaded_hosted. destruct (ei_hosted e); [by left|]. destruct (verified e); [done|by right]. }
  split; try done; cbn.
  - intros Hr%Hh. destruct Hr as [|Hv]; [auto|]. unfold verified in Hv. apply orb_false_iff in Hv as [_ Hv].
    destruct (ei_artifact_digest e) as [d|]; [|done]. destruct (Hd d eq_refl) as [Hx _]. cbn in Hv. case_bool_decide; [by subst|done].
  - intros Hr%Hh. destruct Hr as [|Hv]; [auto|]. unfold verified in Hv. apply orb_false_iff in Hv as [Hv _].
    destruct (ei_revision e) as [r|]; [|done]. cbn in Hv. case_bool_decide; [by subst|done].
  - destruct (reloaded_hosted e) eqn:Hr; [by rewrite orb_true_r|]. unfold reloaded_hosted in Hr. apply orb_false_iff in Hr as [Hr _].
    by rewrite Hr in Hb.
Qed.

Lemma freeze_dict_own l0 w : freeze_json (VDict l0) = Ok w -> freeze_json (VDict (as_dict w)) = Ok w.
Proof.
  intros Hw. pose proof (freeze_idemp _ _ Hw) as Hi. rewrite freeze_dict_eq, fmap_ok in Hw. by destruct Hw as (k & _ & ->).
Qed.

Lemma chunker_identity_own c0 c : chunker_identity c0 = Ok c -> chunker_identity c = Ok c.
Proof.
  unfold chunker_identity. destruct (blank (ci_algorithm c0)) eqn:Ha; [done|]. destruct (ci_schema_version c0 <? 1) eqn:Hs; [done|].
  rewrite bind_ok. intros (w & Hw & [= <-]). cbn [ci_algorithm ci_schema_version ci_configuration].
  by rewrite Ha, Hs, (freeze_dict_own _ _ Hw).
Qed.

Lemma pipeline_identity_some p0 p : pipeline_identity p0 = Ok p ->
  (pi_schema_version p <? 1) = false /\ exists w, freeze_json (VDict (pi_fts_configuration p)) = Ok w /\ as_dict w = pi_fts_configuration p.
Proof.
  unfold pipeline_identity. destruct (pi_schema_version p0 <? 1) eqn:Hs; [done|].
  rewrite bind_ok. intros (w & Hw & [= <-]). cbn. split; [done|]. exists w. split; [|done]. by eapply freeze_dict_own.
Qed.

(** A stored pipeline is read back as the pipeline that was stored. Its stored form gives the
    same pipeline but for the hosted classification, which a stored one keeps and the registry may
    add to an identity that pins nothing; so the fingerprint, which leaves the classification out,
    is unchanged, and a pipeline production admits is still admitted. An empty revision or reason
    is not read back, and is excluded. *)
Theorem pipeline_reload json_dumps sha256_hex e0 c0 p0 p :
  embedder_identity e0 = Ok (pi_embedder p) -> chunker_identity c0 = Ok (pi_chunker p) -> pipeline_identity p0 = Ok p ->
  ei_revision (pi_embedder p) <> Some "" -> ei_unverified_reason (pi_embedder p) <> Some "" ->
  let p' := rehosted (reloaded_hosted (pi_embedder p)) p in
  pipeline_from_dict py_str registered_hosted (pipeline_dict true p) = Ok p' /\
  fingerprint json_dumps sha256_hex p' = fingerprint json_dumps sha256_hex p /\
  (production_admissible (pi_embedder p) = true -> require_production_identity p' = Ok tt).
Proof.
  intros He Hc Hp Hr Hu p'. apply embedder_identity_some in He. apply chunker_identity_own in Hc.
  apply pipeline_identity_some in Hp as (Hs & w & Hw & Hfts). set (e := pi_embedder p) in *. split; [|split].
  - destruct (stored_fields e) as (Hrev & Hdig & Hreason & Hprof & Hprint & Hprov & Hmodel & Hdim & Hmode & Hver & _).
    assert (Hd : ei_artifact_digest e <> Some "") by (intros Hd; by destruct (ec_digest e He "" Hd)).
    unfold pipeline_from_dict.
    change (meta_get "embedder" (pipeline_dict true p)) with (VDict (stored e)).
    change (meta_get "chunker" (pipeline_dict true p)) with (VDict (chunker_dict (pi_chunker p))). cbn match.
    change (get_or (pipeline_dict true p) "schema_version" (VInt PIPELINE_SCHEMA_VERSION)) with (VInt (pi_schema_version p)).
    rewrite Hprov, Hmodel, Hdim, Hmode, Hver, (opt_str_text _ _ _ Hrev Hr), (opt_str_text _ _ _ Hdig Hd), (opt_str_text _ _ _ Hreason Hu),
      (opt_str_text _ _ _ Hprof (not_blank_given _ (ec_profile e He))), (opt_str_text _ _ _ Hprint (not_blank_given _ (ec_profile_print e He))),
      (hosted_of_stored e He Hr). cbn [to_int to_str mbind result_bind].
    fold (with_hosted (reloaded_hosted e) e). rewrite (embedder_identity_own _ (with_hosted_checked e He Hr)). cbn [mbind result_bind].
    change (get_or (chunker_dict (pi_chunker p)) "schema_version" (VInt 0)) with (VInt (ci_schema_version (pi_chunker p))).
    change (to_str py_str (get_or (chunker_dict (pi_chunker p)) "algorithm" (VStr ""))) with (ci_algorithm (pi_chunker p)).
    change (as_dict (meta_get "configuration" (chunker_dict (pi_chunker p)))) with (ci_configuration (pi_chunker p)).
    cbn [to_int mbind result_bind]. replace (Build_ChunkerIdentity _ _ _) with (pi_chunker p) by by destruct (pi_chunker p).
    rewrite Hc. cbn [mbind result_bind].
    change (meta_get "fts_configuration" (pipeline_dict true p)) with (VDict (pi_fts_configuration p)). cbn match.
    unfold pipeline_identity. cbn [pi_schema_version pi_fts_configuration pi_embedder pi_chunker]. rewrite Hs, Hw. cbn [mbind result_bind].
    by rewrite Hfts.
  - done.
  - unfold require_production_identity, production_admissible, p', rehosted. cbn [pi_embedder].
    intros Ha. change (verified (with_hosted _ _)) with (verified e). cbn [ei_hosted with_hosted]. fold e.
    destruct (verified e) eqn:Hv; [done|]. cbn in Ha |- *. unfold reloaded_hosted. by rewrite Ha.
Qed.
End pipelines.

(** ** Witnesses *)

Definition demo_sha : string := "0000000000000000000000000000000000000000000000000000000000000000".

Definition demo_object (uri : string) : ManifestObjectV1 :=
  {| mo_uri := uri; mo_version_id := demo_sha; mo_media_type := "text/markdown"; mo_size := 3; mo_sha256 := demo_sha; mo_context_group_id := None |}.

Definition demo_manifest (objects : list ManifestObjectV1) : IndexManifestV1 :=
  {| im_tenant_id := "t"; im_corpus_version := "1"; im_objects := objects; im_schema_version := 1 |}.

Lemma manifest_roundtrip_witness :
  manifest_from_dict (fun _ => "") (fun _ => true)
    (manifest_dict (demo_manifest [demo_object "file:///m/b.md"; demo_object "file:///m/a.md"])) =
  Ok (demo_manifest [demo_object "file:///m/a.md"; demo_object "file:///m/b.md"]).
Proof.
  apply (manifest_roundtrip (fun _ => "") (fun _ => true) (demo_manifest [demo_object "file:///m/a.md"; demo_object "file:///m/b.md"])
           (demo_manifest [demo_object "file:///m/a.md"; demo_object "file:///m/b.md"])).
  - vm_compute. reflexivity.
  - constructor; [exists (demo_object "file:///m/a.md")|constructor; [exists (demo_object "file:///m/b.md")|constructor]]; vm_compute; reflexivity.
  - apply Permutation_swap.
Defined.

(** A hosted pipeline, with a profile. *)
Definition demo_embedder : EmbedderIdentity :=
  {| ei_provider := "acme"; ei_model := "m"; ei_dimension := 8; ei_revision := None; ei_artifact_digest := None;
     ei_unverified_reason := None; ei_profile_id := Some "acme-m"; ei_profile_fingerprint := None; ei_context_mode := "none";
     ei_context_version := "raw-v1"; ei_hosted := true |}.

Definition demo_chunker : ChunkerIdentity := {| ci_algorithm := "lines"; ci_schema_version := 1; ci_configuration := [("max_chars", VInt 800)] |}.

Definition demo_pipeline : PipelineIdentity :=
  {| pi_embedder := demo_embedder; pi_chunker := demo_chunker; pi_fts_configuration := DEFAULT_FTS_CONFIGURATION; pi_schema_version := 1 |}.

Lemma pipeline_reload_witness :
  pipeline_from_dict (fun _ => "") (fun _ => None) (pipeline_dict true demo_pipeline) = Ok (rehosted true demo_pipeline) /\
  fingerprint (fun _ => "") id (rehosted true demo_pipeline) = fingerprint (fun _ => "") id demo_pipeline /\
  (production_admissible (pi_embedder demo_pipeline) = true -> require_production_identity (rehosted true demo_pipeline) = Ok tt).
Proof.
  apply (pipeline_reload (fun _ => "") (fun _ => None) (fun _ => "") id demo_embedder demo_chunker demo_pipeline demo_pipeline);
    [reflexivity|reflexivity|reflexivity|discriminate|discriminate].
Defined.

(** An empty revision beside a digest is accepted, stored as an empty text, and read back as none:
    the pipeline read back has another fingerprint. *)
Example empty_revision_forgotten :
  let pinned := {| ei_provider := "acme"; ei_model := "m"; ei_dimension := 8; ei_revision := Some ""; ei_artifact_digest := Some demo_sha;
                   ei_unverified_reason := None; ei_profile_id := None; ei_profile_fingerprint := None; ei_context_mode := "none";
                   ei_context_version := "raw-v1"; ei_hosted := false |} in
  let p := {| pi_embedder := pinned; pi_chunker := demo_chunker; pi_fts_configuration := DEFAULT_FTS_CONFIGURATION; pi_schema_version := 1 |} in
  embedder_identity pinned = Ok pinned /\
  (fun q => pipeline_dict false q) <$> pipeline_from_dict (fun _ => "") (fun _ => None) (pipeline_dict true p) <> Ok (pipeline_dict false p).
Proof. split; [vm_compute; reflexivity|]. vm_compute. discriminate. Qed.
