(* ===== verification/Manifest.v ===== *)
(** * Manifest: reading the objects a manifest names (src/recall/manifest.py)

    Two readers of one protocol. An object store answers a request for a bucket, a key and a
    version ([None] when the request fails); a file system answers a path with its bytes. Both are
    arguments, as are the digest of bytes, [unquote] and [url2pathname] of [urllib], and
    [resolve], the path a path names once links and dots are followed. [ManifestVerificationError]
    and [ObjectNotAllowed] are [RuntimeError]s. *)
From S2P Require Import Prelude Text Float64 Frontmatter SourceIdentity Urls Lineage LineageFacts.

Local Open Scope Z_scope.

Definition bytes : Type := list Byte.byte.

Definition verification_error {A} (msg : string) : result A := Raise (RuntimeError msg).

(** [VerifiedObject], as the base readers fill it. *)
Record VerifiedObject := { vo_entry : ManifestObjectV1; vo_data : bytes }.

(** [ObjectReader]: a reader over a [Store] it asks at locations; [permitted] is where it may. *)
Class ObjectReader (Store Location Answer : Type) := {
  ask : Store -> Location -> Answer;
  permitted : Location -> Prop;
  fetch : Store -> ManifestObjectV1 -> result VerifiedObject
}.

(** [verify]: every object of the manifest, in its order. *)
Definition verify `{ObjectReader Store Location Answer} (store : Store) (m : IndexManifestV1) : result (list VerifiedObject) :=
  result_mapM (fetch store) (im_objects m).

Section readers.
Context (sha256_bytes : bytes -> string) (bracketed_ok : string -> bool) (unquote : string -> string).

(** ** Object storage *)

(** [S3Location] and [S3Location.parse]; [path.lstrip("/")]. *)
Record S3Location := { loc_bucket : string; loc_key : string }.

#[export] Instance S3Location_eq_dec : EqDecision S3Location.
Proof. solve_decision. Defined.

Definition lstrip_slashes (s : string) : string := unchars (drop_while (is_char "/") (chars s)).

Definition parse_location (uri : string) : result S3Location :=
  u ← urlsplit bracketed_ok uri;
  let key := unquote (lstrip_slashes (url_path u)) in
  if negb (bool_decide (url_scheme u = "s3")) || bool_decide (url_netloc u = "") || bool_decide (key = "") then
    verification_error "invalid S3 URI"
  else if negb (bool_decide (url_query u = "")) || negb (bool_decide (url_fragment u = "")) then
    verification_error "S3 object URI cannot contain query or fragment"
  else Ok {| loc_bucket := url_netloc u; loc_key := key |}.

(** [S3Prefix] and [contains]. *)
Record S3Prefix := { pre_bucket : string; pre_prefix : string }.

Definition contains (p : S3Prefix) (l : S3Location) : bool :=
  bool_decide (loc_bucket l = pre_bucket p) && starts_with (loc_key l) (pre_prefix p).

(** [S3Allowlist.parse]. *)
Definition parse_prefix (item : string) : result S3Prefix :=
  u ← urlsplit bracketed_ok (if is_uri item then item else "s3://" +:+ item);
  if negb (bool_decide (url_scheme u = "s3")) || bool_decide (url_netloc u = "") ||
     negb (bool_decide (url_query u = "")) || negb (bool_decide (url_fragment u = "")) then
    Raise (ValueError "invalid S3 allowlist entry")
  else Ok {| pre_bucket := url_netloc u; pre_prefix := unquote (lstrip_slashes (url_path u)) |}.

Definition parse_allowlist (value : string) : result (list S3Prefix) :=
  prefixes ← result_mapM parse_prefix (filter (fun item => item <> "") (map strip (split_on "," value)));
  match prefixes with
  | [] => Raise (ValueError "at least one S3 bucket/prefix must be allowlisted")
  | _ => Ok prefixes
  end.

(** [S3Allowlist.require]. *)
Definition require (prefixes : list S3Prefix) (uri : string) : result S3Location :=
  location ← parse_location uri;
  if existsb (fun p => contains p location) prefixes then Ok location
  else verification_error "S3 object is outside RECALL_S3_ALLOWLIST".

(** What [get_object] answers, when it does: a body that reads, or none; the version it says it
    returned and the length it announced. *)
Record S3Response := { res_body : option bytes; res_version : option string; res_length : option Z }.

Definition s3_request : Type := S3Location * string.
Definition s3_store : Type := s3_request -> option S3Response.

(** [S3ObjectReader.fetch]. *)
Definition s3_fetch (prefixes : list S3Prefix) (store : s3_store) (o : ManifestObjectV1) : result VerifiedObject :=
  location ← require prefixes (mo_uri o);
  match store (location, mo_version_id o) with
  | None => verification_error "immutable object is unavailable"
  | Some response =>
      match res_body response with
      | None => verification_error "S3 returned no body"
      | Some data =>
          if negb (bool_decide (res_version response = Some (mo_version_id o))) then verification_error "object version mismatch"
          else if negb (bool_decide (res_length response = Some (mo_size o))) || negb (Z.of_nat (length data) =? mo_size o) then
            verification_error "object size mismatch"
          else if negb (bool_decide (sha256_bytes data = mo_sha256 o)) then verification_error "object checksum mismatch"
          else Ok {| vo_entry := o; vo_data := data |}
      end
  end.

(** ** The file system *)

Context (url2pathname : string -> option string) (resolve : string -> string) (unc_supported : bool).

(** [local_path_for]. *)
Definition local_path_for (uri : string) : result string :=
  match urlsplit bracketed_ok uri with
  | Raise _ => verification_error "not a parseable URI"
  | Ok u =>
      if negb (bool_decide (url_scheme u = "file")) then verification_error "not a file:// object"
      else
        let authority := unquote (url_netloc u) in
        match url2pathname (url_path u) with
        | None => verification_error "does not name a readable local path"
        | Some local =>
            if negb (bool_decide (authority = "")) && negb (bool_decide (lower authority = "localhost")) then
              if unc_supported then Ok (resolve ("//" +:+ authority +:+ local))
              else verification_error "names a remote authority"
            else Ok (resolve local)
        end
  end.

(** [path.is_relative_to(root)]: the parts of the root begin those of the path. *)
Fixpoint parts_prefix (root path : list string) : bool :=
  match root, path with
  | [], _ => true
  | r :: root', p :: path' => bool_decide (r = p) && parts_prefix root' path'
  | _ :: _, [] => false
  end.

Definition is_relative_to (path root : string) : bool := parts_prefix (path_parts root) (path_parts path).

(** [LocalObjectReader.__init__] and [_resolve]. *)
Definition local_roots (roots : list string) : result (list string) :=
  match roots with
  | [] => Raise (ValueError "at least one local root must be allowlisted")
  | _ => Ok (map resolve roots)
  end.

Definition resolve_entry (roots : list string) (o : ManifestObjectV1) : result string :=
  path ← local_path_for (mo_uri o);
  if existsb (is_relative_to path) roots then Ok path
  else verification_error "local object is outside RECALL_LOCAL_ALLOWLIST".

Definition file_system : Type := string -> option bytes.

(** [LocalObjectReader.fetch]. *)
Definition local_fetch (roots : list string) (files : file_system) (o : ManifestObjectV1) : result VerifiedObject :=
  path ← resolve_entry roots o;
  match files path with
  | None => verification_error "immutable object is unavailable"
  | Some data =>
      if negb (Z.of_nat (length data) =? mo_size o) then verification_error "object size mismatch"
      else if negb (bool_decide (sha256_bytes data = mo_sha256 o)) then verification_error "object checksum mismatch"
      else Ok {| vo_entry := o; vo_data := data |}
  end.

(** ** Choosing a reader *)

Inductive reader_kind := LocalReader | S3Reader.

(** [reader_for_manifest]: one scheme for all objects. *)
Definition reader_for_manifest (m : IndexManifestV1) : result reader_kind :=
  match im_objects m with
  | [] => Raise (ValueError "manifest has no objects, so no reader can be chosen for it")
  | _ =>
      schemes ← result_mapM (fun o => u ← urlsplit bracketed_ok (mo_uri o); Ok (url_scheme u)) (im_objects m);
      match dedup schemes with
      | [scheme] =>
          if decide (scheme = "file") then Ok LocalReader
          else if decide (scheme = "s3") then Ok S3Reader
          else Raise (ValueError "manifest objects use unsupported scheme")
      | _ => Raise (ValueError "manifest mixes object schemes")
      end
  end.

(** ** What the readers promise *)

#[export] Instance s3_reader (prefixes : list S3Prefix) : ObjectReader s3_store s3_request (option S3Response) :=
  {| ask := fun store request => store request;
     permitted := fun request => exists p, p ∈ prefixes /\ contains p request.1 = true;
     fetch := s3_fetch prefixes |}.

#[export] Instance local_reader (roots : list string) : ObjectReader file_system string (option bytes) :=
  {| ask := fun files path => files path;
     permitted := fun path => exists root, root ∈ roots /\ is_relative_to path root = true;
     fetch := local_fetch roots |}.

(** The bytes are those the manifest pins. *)
Definition pinned (o : ManifestObjectV1) (v : VerifiedObject) : Prop :=
  vo_entry v = o /\ Z.of_nat (length (vo_data v)) = mo_size o /\ sha256_bytes (vo_data v) = mo_sha256 o.

(** A reader returns pinned bytes only, and asks only where it may. *)
Class ReaderLaws `(R : ObjectReader Store Location Answer) : Prop := {
  fetch_pinned : forall store o v, fetch store o = Ok v -> pinned o v;
  fetch_confined : forall store store' o, (forall l, permitted l -> ask store l = ask store' l) -> fetch store o = fetch store' o
}.

Lemma existsb_permitted {A} (f : A -> bool) l : existsb f l = true <-> exists x, x ∈ l /\ f x = true.
Proof. rewrite existsb_exists. setoid_rewrite list_elem_of_In. done. Qed.

#[export] Instance s3_reader_laws prefixes : ReaderLaws (s3_reader prefixes).
Proof.
  split; cbn.
  - intros store o v. unfold s3_fetch. rewrite bind_ok. intros (loc & _ & H).
    destruct (store _) as [response|]; [|done]. destruct (res_body response) as [data|]; [|done].
    case_bool_decide; [|done]. destruct (_ || _) eqn:Hs in H; [done|]. cbn in H. case_bool_decide; [|done]. injection H as <-.
    apply orb_false_iff in Hs as [_ Hs]. apply negb_false_iff, Z.eqb_eq in Hs. done.
  - intros store store' o Hag. unfold s3_fetch, require. destruct (parse_location (mo_uri o)) as [loc|]; [|done]. cbn [mbind result_bind].
    destruct (existsb _ prefixes) eqn:He; [|done]. cbn [mbind result_bind].
    rewrite (Hag (loc, mo_version_id o)); [done|]. by apply existsb_permitted.
Qed.

#[export] Instance local_reader_laws roots : ReaderLaws (local_reader roots).
Proof.
  split; cbn.
  - intros files o v. unfold local_fetch. rewrite bind_ok. intros (path & _ & H). destruct (files path) as [data|]; [|done].
    destruct (_ =? _) eqn:Hs in H; [|done]. cbn in H. case_bool_decide; [|done]. injection H as <-. by apply Z.eqb_eq in Hs.
  - intros files files' o Hag. unfold local_fetch, resolve_entry. destruct (local_path_for (mo_uri o)) as [path|]; [|done]. cbn [mbind result_bind].
    destruct (existsb _ roots) eqn:He; [|done]. cbn [mbind result_bind]. rewrite (Hag path); [done|]. by apply existsb_permitted.
Qed.

Lemma verify_laws `{R : ObjectReader Store Location Answer} `{!ReaderLaws R} store m l :
  verify store m = Ok l ->
  Forall2 pinned (im_objects m) l /\
  forall store', (forall loc, permitted loc -> ask store loc = ask store' loc) -> verify store' m = Ok l.
Proof.
  unfold verify. rewrite result_mapM_ok. intros Hl. split.
  - eapply Forall2_impl; [exact Hl|]. apply fetch_pinned.
  - intros store' Hag. apply result_mapM_ok. eapply Forall2_impl; [exact Hl|]. intros o v <-.
    symmetry. by apply fetch_confined.
Qed.

(** C29: What a manifest's readers return is what the manifest pins, read only where they may. Each
    object of a verified manifest comes, in order, with bytes of its size and its digest; and what
    an object store holds outside the allowlisted buckets and prefixes, or a file system outside
    the allowlisted roots, makes no difference to the answer. *)
Theorem manifest_reads_confined prefixes roots store files m :
  (forall l, verify (H := s3_reader prefixes) store m = Ok l ->
     Forall2 pinned (im_objects m) l /\
     forall store', (forall request, (exists p, p ∈ prefixes /\ contains p request.1 = true) -> store request = store' request) ->
       verify (H := s3_reader prefixes) store' m = Ok l) /\
  (forall l, verify (H := local_reader roots) files m = Ok l ->
     Forall2 pinned (im_objects m) l /\
     forall files', (forall path, (exists root, root ∈ roots /\ is_relative_to path root = true) -> files path = files' path) ->
       verify (H := local_reader roots) files' m = Ok l).
Proof.
  split; intros l Hl.
  - exact (verify_laws (R := s3_reader prefixes) store m l Hl).
  - exact (verify_laws (R := local_reader roots) files m l Hl).
Qed.
End readers.

(** ** A manifest of one empty file *)

Definition zeros : string := "0000000000000000000000000000000000000000000000000000000000000000".

Definition one_file : IndexManifestV1 :=
  {| im_tenant_id := "t"; im_corpus_version := "1";
     im_objects := [{| mo_uri := "file:///srv/memory/a.md"; mo_version_id := zeros; mo_media_type := "text/markdown"; mo_size := 0;
                       mo_sha256 := zeros; mo_context_group_id := None |}];
     im_schema_version := 1 |}.

Definition empty_files : file_system := fun path => if decide (path = "/srv/memory/a.md") then Some [] else None.
Definition empty_store : s3_store := fun _ => None.

(** The same files under the root, others elsewhere. *)
Definition other_files : file_system := fun path => if is_relative_to path "/srv/memory" then empty_files path else Some [].

Lemma one_file_verified :
  verify (H := local_reader (fun _ => zeros) (fun _ => true) id Some id false ["/srv/memory"]) empty_files one_file =
  Ok [{| vo_entry := default {| mo_uri := ""; mo_version_id := ""; mo_media_type := ""; mo_size := 0; mo_sha256 := ""; mo_context_group_id := None |}
                       (head (im_objects one_file)); vo_data := [] |}].
Proof. vm_compute. reflexivity. Qed.

Lemma manifest_reads_confined_witness :
  verify (H := local_reader (fun _ => zeros) (fun _ => true) id Some id false ["/srv/memory"]) other_files one_file =
  Ok [{| vo_entry := default {| mo_uri := ""; mo_version_id := ""; mo_media_type := ""; mo_size := 0; mo_sha256 := ""; mo_context_group_id := None |}
                       (head (im_objects one_file)); vo_data := [] |}].
Proof.
  apply (manifest_reads_confined (fun _ => zeros) (fun _ => true) id Some id false [] ["/srv/memory"] empty_store empty_files one_file).
  - exact one_file_verified.
  - intros path (root & ->%list_elem_of_singleton & Hrel). unfold other_files. by rewrite Hrel.
Defined.
