(* ===== verification/Generations.v ===== *)
(** * Generations: the lifecycle of index generations (src/recall/generations.py)

    [GenerationManager] over one tenant's rows. The database is a record of tables; a transaction
    is a function of it that fails or returns with the tables it leaves, and a failed transaction
    leaves none ([transaction]). A row lock makes the transactions of one tenant follow one
    another, so an operation is a step from one database to the next. [now] is the clock a
    statement reads, [stamp n] the id and time of the [n]-th audit event.

    Arguments: what an unmodelled part answers. [resolve_calibration] is the status calibration_v2
    resolves for a generation ([None] when it refuses), [build_semantic_graph] the graph of some
    chunks, [dependency_marker] the marker of the dependency projection. The tables of both graphs
    are left out. *)
From S2P Require Import Prelude Text Float64 Frontmatter SourceIdentity References Supersession Resolver Tables SupersessionRecords Urls Lineage.

Local Open Scope Z_scope.

(** ** The tables *)

(** [GenerationState]. *)
Inductive GenerationState := BUILDING | VALIDATING | READY | ACTIVE | RETIRED | FAILED | LEGACY_UNVERIFIED.

#[export] Instance GenerationState_eq_dec : EqDecision GenerationState.
Proof. solve_decision. Defined.

(** [recall_generations]: the JSON columns are values. *)
Record GenerationRow := {
  g_id : string;
  g_state : GenerationState;
  g_pipeline : value;
  g_pipeline_fingerprint : string;
  g_corpus_fingerprint : string;
  g_manifest : value;
  g_manifest_digest : string;
  g_corpus_version : string;
  g_parent : option string;
  g_failure : option string;
  g_summary : value;
  g_created : Z;
  g_validating : option Z;
  g_ready : option Z;
  g_activated : option Z;
  g_retired : option Z
}.

(** [recall_calibrations], by the columns read here. *)
Record CalibrationRow := { cal_id : string; cal_generation : string; cal_lifecycle : string; cal_superseded : option Z }.

(** [recall_source_tombstones]. *)
Record Tombstone := { ts_source : string; ts_event : string; ts_erased : Z }.

(** One tenant's tables. [db_state] is the row of [recall_tenant_state]: the active and the
    previous generation. [db_legacy] are the adopted tables, by name. *)
Record db := {
  db_generations : list GenerationRow;
  db_state : option (option string * option string);
  db_chunks : list ChunkRow;
  db_tombstones : list Tombstone;
  db_calibrations : list CalibrationRow;
  db_audit : list AuditEvent;
  db_sparse : list string;
  db_legacy : list (string * list ChunkRow)
}.

Definition set_generations (l : list GenerationRow) (d : db) : db :=
  {| db_generations := l; db_state := db_state d; db_chunks := db_chunks d; db_tombstones := db_tombstones d;
     db_calibrations := db_calibrations d; db_audit := db_audit d; db_sparse := db_sparse d; db_legacy := db_legacy d |}.
Definition set_state (s : option (option string * option string)) (d : db) : db :=
  {| db_generations := db_generations d; db_state := s; db_chunks := db_chunks d; db_tombstones := db_tombstones d;
     db_calibrations := db_calibrations d; db_audit := db_audit d; db_sparse := db_sparse d; db_legacy := db_legacy d |}.
Definition set_chunks (l : list ChunkRow) (d : db) : db :=
  {| db_generations := db_generations d; db_state := db_state d; db_chunks := l; db_tombstones := db_tombstones d;
     db_calibrations := db_calibrations d; db_audit := db_audit d; db_sparse := db_sparse d; db_legacy := db_legacy d |}.
Definition set_tombstones (l : list Tombstone) (d : db) : db :=
  {| db_generations := db_generations d; db_state := db_state d; db_chunks := db_chunks d; db_tombstones := l;
     db_calibrations := db_calibrations d; db_audit := db_audit d; db_sparse := db_sparse d; db_legacy := db_legacy d |}.
Definition set_calibrations (l : list CalibrationRow) (d : db) : db :=
  {| db_generations := db_generations d; db_state := db_state d; db_chunks := db_chunks d; db_tombstones := db_tombstones d;
     db_calibrations := l; db_audit := db_audit d; db_sparse := db_sparse d; db_legacy := db_legacy d |}.
Definition set_audit (l : list AuditEvent) (d : db) : db :=
  {| db_generations := db_generations d; db_state := db_state d; db_chunks := db_chunks d; db_tombstones := db_tombstones d;
     db_calibrations := db_calibrations d; db_audit := l; db_sparse := db_sparse d; db_legacy := db_legacy d |}.
Definition set_sparse (l : list string) (d : db) : db :=
  {| db_generations := db_generations d; db_state := db_state d; db_chunks := db_chunks d; db_tombstones := db_tombstones d;
     db_calibrations := db_calibrations d; db_audit := db_audit d; db_sparse := l; db_legacy := db_legacy d |}.
Definition set_legacy (l : list (string * list ChunkRow)) (d : db) : db :=
  {| db_generations := db_generations d; db_state := db_state d; db_chunks := db_chunks d; db_tombstones := db_tombstones d;
     db_calibrations := db_calibrations d; db_audit := db_audit d; db_sparse := db_sparse d; db_legacy := l |}.

(** ** Transactions *)

(** The exceptions of generation_types.py, the refusal of a step called in the wrong state, the
    violation of a unique index, and what the other modules raise. *)
Inductive gexn :=
| GenerationError (msg : string)
| GenerationNotFound
| InvalidGenerationTransition (msg : string)
| StepPrecondition (msg : string)
| UnsafePromotion (msg : string)
| NoActiveGeneration (msg : string)
| UniqueViolation
| Other (e : exn).

(** [_StepPrecondition] is an [InvalidGenerationTransition]. *)
Definition invalid_transition (e : gexn) : bool :=
  match e with InvalidGenerationTransition _ | StepPrecondition _ => true | _ => false end.

Definition tx (A : Type) : Type := db -> gexn + (A * db).

#[export] Instance tx_ret : MRet tx := fun A a d => inr (a, d).
#[export] Instance tx_bind : MBind tx := fun A B f t d => match t d with inl e => inl e | inr (a, d') => f a d' end.

Definition refuse {A} (e : gexn) : tx A := fun _ => inl e.
Definition get : tx db := fun d => inr (d, d).
Definition modify (f : db -> db) : tx unit := fun d => inr (tt, f d).
Definition require_that (b : bool) (e : gexn) : tx unit := if b then mret tt else refuse e.
Definition lift {A} (r : result A) : tx A := match r with Ok a => mret a | Raise e => refuse (Other e) end.

(** [with conn.transaction()]: an operation on the database, all of its statements or none. *)
Definition op (A : Type) : Type := db -> (gexn + A) * db.
Definition transaction {A} (t : tx A) : op A :=
  fun d => match t d with inl e => (inl e, d) | inr (a, d') => (inr a, d') end.

(** ** Statements *)

Definition find_generation (id : string) (d : db) : option GenerationRow :=
  head (filter (fun g => g_id g = id) (db_generations d)).

(** [UPDATE recall_generations SET ... WHERE generation_id = %s]. *)
Definition update_row (id : string) (f : GenerationRow -> GenerationRow) (l : list GenerationRow) : list GenerationRow :=
  map (fun g => if decide (g_id g = id) then f g else g) l.

Definition update_generation (id : string) (f : GenerationRow -> GenerationRow) : tx unit :=
  modify (fun d => set_generations (update_row id f (db_generations d)) d).

Definition with_state (s : GenerationState) (g : GenerationRow) : GenerationRow :=
  {| g_id := g_id g; g_state := s; g_pipeline := g_pipeline g; g_pipeline_fingerprint := g_pipeline_fingerprint g;
     g_corpus_fingerprint := g_corpus_fingerprint g; g_manifest := g_manifest g; g_manifest_digest := g_manifest_digest g;
     g_corpus_version := g_corpus_version g; g_parent := g_parent g; g_failure := g_failure g; g_summary := g_summary g;
     g_created := g_created g; g_validating := g_validating g; g_ready := g_ready g; g_activated := g_activated g; g_retired := g_retired g |}.
Definition with_times (validating ready activated retired : option Z) (g : GenerationRow) : GenerationRow :=
  {| g_id := g_id g; g_state := g_state g; g_pipeline := g_pipeline g; g_pipeline_fingerprint := g_pipeline_fingerprint g;
     g_corpus_fingerprint := g_corpus_fingerprint g; g_manifest := g_manifest g; g_manifest_digest := g_manifest_digest g;
     g_corpus_version := g_corpus_version g; g_parent := g_parent g; g_failure := g_failure g; g_summary := g_summary g;
     g_created := g_created g; g_validating := validating; g_ready := ready; g_activated := activated; g_retired := retired |}.
Definition with_failure (reason : string) (g : GenerationRow) : GenerationRow :=
  {| g_id := g_id g; g_state := g_state g; g_pipeline := g_pipeline g; g_pipeline_fingerprint := g_pipeline_fingerprint g;
     g_corpus_fingerprint := g_corpus_fingerprint g; g_manifest := g_manifest g; g_manifest_digest := g_manifest_digest g;
     g_corpus_version := g_corpus_version g; g_parent := g_parent g; g_failure := Some reason; g_summary := g_summary g;
     g_created := g_created g; g_validating := g_validating g; g_ready := g_ready g; g_activated := g_activated g; g_retired := g_retired g |}.
Definition with_summary (summary : value) (g : GenerationRow) : GenerationRow :=
  {| g_id := g_id g; g_state := g_state g; g_pipeline := g_pipeline g; g_pipeline_fingerprint := g_pipeline_fingerprint g;
     g_corpus_fingerprint := g_corpus_fingerprint g; g_manifest := g_manifest g; g_manifest_digest := g_manifest_digest g;
     g_corpus_version := g_corpus_version g; g_parent := g_parent g; g_failure := g_failure g; g_summary := summary;
     g_created := g_created g; g_validating := g_validating g; g_ready := g_ready g; g_activated := g_activated g; g_retired := g_retired g |}.
Definition with_corpus (fingerprint : string) (g : GenerationRow) : GenerationRow :=
  {| g_id := g_id g; g_state := g_state g; g_pipeline := g_pipeline g; g_pipeline_fingerprint := g_pipeline_fingerprint g;
     g_corpus_fingerprint := fingerprint; g_manifest := g_manifest g; g_manifest_digest := g_manifest_digest g;
     g_corpus_version := g_corpus_version g; g_parent := g_parent g; g_failure := g_failure g; g_summary := g_summary g;
     g_created := g_created g; g_validating := g_validating g; g_ready := g_ready g; g_activated := g_activated g; g_retired := g_retired g |}.

(** A column that holds a text or NULL, and the two pointers of the tenant. *)
Definition pointer (o : option string) : option string := match o with Some s => if decide (s = "") then None else Some s | None => None end.
Definition active_of (d : db) : option string := s ← db_state d; pointer s.1.
Definition previous_of (d : db) : option string := s ← db_state d; pointer s.2.

(** [{str(item) for item in (state or ()) if item}]. *)
Definition protected_ids (d : db) : list string := option_list (active_of d) ++ option_list (previous_of d).

Definition scan_eligible (outgoing : string) (sources : list string) (c : ChunkRow) : bool :=
  bool_decide (cr_generation c = outgoing) && bool_decide (cr_source c ∈ sources).

Inductive Environment := Development | Test | Production.

#[export] Instance Environment_eq_dec : EqDecision Environment.
Proof. solve_decision. Defined.

(** The environments, as [GenerationManager.__init__] reads their names. *)
Definition read_environment (raw : string) : result Environment :=
  let name := lower (strip raw) in
  if decide (name = "development") then Ok Development
  else if decide (name = "test") then Ok Test
  else if decide (name = "production") then Ok Production
  else Raise (ValueError "environment (RECALL_ENV) must be development, test, or production").

Record Manager := { gm_tenant : string; gm_actor : string; gm_environment : Environment; gm_serving : Environment }.

(** [GenerationManager.__init__]: [ambient] is RECALL_ENV, development when unset; an empty
    argument counts as none. *)
Definition or_else (o : option string) (d : string) : string :=
  match o with Some s => if decide (s = "") then d else s | None => d end.

Definition generation_manager (tenant actor : string) (environment serving ambient : option string) : result Manager :=
  if decide (strip tenant = "") then Raise (ValueError "tenant_id must be non-empty")
  else
    let raw := or_else environment (default "development" ambient) in
    env ← read_environment raw;
    served ← read_environment (or_else serving (lower (strip raw)));
    Ok {| gm_tenant := tenant; gm_actor := actor; gm_environment := env; gm_serving := served |}.

(** [certification_required]. *)
Definition certification_required (m : Manager) : bool := bool_decide (gm_serving m = Production).

Section manager.
Context (json_text : value -> string) (isoformat : datetime -> string) (fromisoformat : string -> option datetime).
Context (py_str : value -> string) (bracketed_ok : string -> bool) (json_dumps : value -> string) (sha256_hex : string -> string).
Context (stamp : nat -> string * Z).
Context (self : Manager).

Local Abbreviation from_dict := (manifest_from_dict py_str bracketed_ok).

(** [_audit]; the event id it returns. *)
Definition audit (event_type : string) (generation source : option string) (payload : metadata) : tx string :=
  d ← get;
  let id := (stamp (length (db_audit d))).1 in
  modify (fun d => set_audit (db_audit d ++ [{| au_id := id; au_type := event_type; au_actor := gm_actor self; au_generation := generation;
                                                au_source := source; au_payload := VDict payload;
                                                au_at := (stamp (length (db_audit d))).2 |}]) d);;
  mret id.

(** [_require_generation] and [get]. *)
Definition require_generation (id : string) : tx GenerationRow :=
  d ← get; match find_generation id d with Some g => mret g | None => refuse GenerationNotFound end.

(** [list_generations]: [ORDER BY created_at DESC, generation_id]. *)
Definition newer_ltb (a b : GenerationRow) : bool :=
  if decide (g_created a = g_created b) then string_ltb (g_id a) (g_id b) else g_created b <? g_created a.

Definition list_generations (d : db) : list GenerationRow := stable_sort (fun a b => negb (newer_ltb b a)) (db_generations d).

(** [_is_tombstoned], and the tombstoned of some sources. *)
Definition is_tombstoned (uri : string) (d : db) : bool := existsb (fun t => bool_decide (ts_source t = uri)) (db_tombstones d).

(** [_effective_corpus_fingerprint]. *)
Definition effective_corpus_fingerprint (m : IndexManifestV1) (tombstoned : list string) : result string :=
  let excluded := sorted_set (filter (fun uri => uri ∈ tombstoned) (map mo_uri (im_objects m))) in
  own ← manifest_digest json_dumps sha256_hex m;
  match excluded with
  | [] => Ok own
  | _ => canonical_sha256 json_dumps sha256_hex
           (VDict [("manifest_corpus_fingerprint", VStr own); ("excluded_sources", VList (map VStr excluded))])
  end.

(** ** Creating *)

(** The tenant's row, if it is missing. *)
Definition ensure_state : tx unit :=
  modify (fun d => match db_state d with Some _ => d | None => set_state (Some (None, None)) d end).

(** The checks of [create] before the database, and those against it: the width of the vector
    column ([dimension]) and the text search configurations it knows. *)
Definition admit_pipeline (m : IndexManifestV1) (p : PipelineIdentity) (allow_unverified : bool) : tx unit :=
  if negb (bool_decide (im_tenant_id m = gm_tenant self)) then refuse (GenerationError "manifest tenant does not match authenticated tenant")
  else if bool_decide (gm_environment self = Production) then
    lift (require_production_identity p);;
    require_that (negb (allow_unverified && negb (ei_hosted (pi_embedder p)))) (GenerationError "allow_unverified is unavailable in production")
  else require_that (verified (pi_embedder p) || allow_unverified)
         (GenerationError "unverified development pipeline requires allow_unverified=True explicitly").

Definition fits_database (dimension : option Z) (fts_known : string -> bool) (p : PipelineIdentity) : tx unit :=
  require_that (bool_decide (dimension = Some (ei_dimension (pi_embedder p)))) (GenerationError "pipeline dimension does not match recall_chunks_v1");;
  match meta_get "language" (pi_fts_configuration p), meta_get "schema_version" (pi_fts_configuration p) with
  | VStr language, version => require_that (equals_one version) (GenerationError "FTS configuration requires a language string and schema_version=1");;
      require_that (fts_known language) (GenerationError "PostgreSQL text search configuration is absent")
  | _, _ => refuse (GenerationError "FTS configuration requires a language string and schema_version=1")
  end.

Definition create (m : IndexManifestV1) (p : PipelineIdentity) (allow_unverified : bool) (generation_id : option string)
    (new_id : string) (dimension : option Z) (fts_known : string -> bool) (now : Z) : op GenerationRow :=
  transaction (
    admit_pipeline m p allow_unverified;;
    let id := or_else generation_id new_id in
    fits_database dimension fts_known p;;
    d ← get;
    corpus ← lift (effective_corpus_fingerprint m (map ts_source (db_tombstones d)));
    pipeline_fingerprint ← lift (fingerprint json_dumps sha256_hex p);
    digest ← lift (manifest_digest json_dumps sha256_hex m);
    require_that (bool_decide (find_generation id d = None)) UniqueViolation;;
    let row := {| g_id := id; g_state := BUILDING; g_pipeline := VDict (pipeline_dict true p);
                  g_pipeline_fingerprint := pipeline_fingerprint; g_corpus_fingerprint := corpus; g_manifest := VDict (manifest_dict m);
                  g_manifest_digest := digest; g_corpus_version := im_corpus_version m; g_parent := active_of d; g_failure := None;
                  g_summary := VNone; g_created := now; g_validating := None; g_ready := None; g_activated := None; g_retired := None |} in
    modify (fun d => set_generations (db_generations d ++ [row]) d);;
    ensure_state;;
    audit "generation_created" (Some id) None
      [("pipeline_fingerprint", VStr pipeline_fingerprint); ("manifest_digest", VStr digest); ("verified_pipeline", VBool (verified (pi_embedder p)))];;
    require_generation id).

(** ** The end of a build, failing and abandoning *)

(** [_mark_validating]. *)
Definition set_validating (summary : metadata) (now : Z) (g : GenerationRow) : GenerationRow :=
  with_summary (VDict summary) (with_state VALIDATING (with_times (Some now) (g_ready g) (g_activated g) (g_retired g) g)).

Definition mark_validating (id : string) (summary : metadata) (expected_corpus : option string) (now : Z) : op unit :=
  transaction (
    current ← require_generation id;
    require_that (bool_decide (g_state current = BUILDING)) (InvalidGenerationTransition "generation changed during build");;
    require_that (match expected_corpus with Some f => bool_decide (g_corpus_fingerprint current = f) | None => true end)
      (GenerationError "corpus changed during grouped build; retry the generation");;
    update_generation id (set_validating summary now);;
    audit "generation_built" (Some id) None summary;;
    mret tt).

(** [reason[:2000]]. *)
Definition clip (reason : string) : string := unchars (take 2000 (chars reason)).

Definition set_failed (reason : string) (g : GenerationRow) : GenerationRow := with_failure (clip reason) (with_state FAILED g).

Definition fail (id reason : string) : op unit :=
  transaction (
    current ← require_generation id;
    require_that (negb (bool_decide (g_state current ∈ [ACTIVE; RETIRED; READY; LEGACY_UNVERIFIED]))) (InvalidGenerationTransition "cannot fail generation");;
    update_generation id (set_failed reason);;
    audit "generation_failed" (Some id) None [("reason", VStr (clip reason))];;
    mret tt).

Definition abandon (id reason : string) : op unit :=
  transaction (
    d ← get;
    current ← require_generation id;
    require_that (bool_decide (g_state current = READY)) (InvalidGenerationTransition "abandon requires ready state");;
    require_that (negb (bool_decide (id ∈ protected_ids d))) (InvalidGenerationTransition "cannot abandon protected generation");;
    update_generation id (set_failed reason);;
    audit "generation_abandoned" (Some id) None [("reason", VStr (clip reason))];;
    mret tt).

(** ** Validating *)

(** [marker_schema_version]. *)
Definition LEGACY_GRAPH_SCHEMA_VERSION : Z := 2.

Definition marker_schema_version (marker : metadata) : Z :=
  match meta_get "schema_version" marker with
  | VInt z => if z <? 1 then LEGACY_GRAPH_SCHEMA_VERSION else z
  | _ => LEGACY_GRAPH_SCHEMA_VERSION
  end.

(** A semantic graph, by what the lifecycle reads of it; [sg_marker] is [_semantic_graph_marker]. *)
Record SemanticGraph := { sg_schema_version : Z; sg_id : string; sg_fingerprint : string; sg_marker : metadata }.

Context (build_semantic_graph : list ChunkRow -> string -> string -> SemanticGraph).
Context (dependency_marker : db -> string -> string -> value).

(** [_generation_chunks]: in chunk-id order. *)
Definition generation_chunks (id : string) (d : db) : list ChunkRow :=
  stable_sort (fun a b => String.leb (cr_id a) (cr_id b)) (filter (fun c => cr_generation c = id) (db_chunks d)).

(** [set(str(item) for item in summary.get("indexed_sources", []))]. *)
Definition indexed_sources (summary : metadata) : result (list string) :=
  match odict_get "indexed_sources" summary with
  | None => Ok []
  | Some (VList l) => Ok (map (to_str py_str) l)
  | Some (VDict l) => Ok (l.*1)
  | Some (VStr s) => Ok (map (fun c => unchars [c]) (chars s))
  | Some _ => Raise (TypeError "object is not iterable")
  end.

(** [GROUP BY source_uri]: the sources with the least digest and version of their rows. *)
Definition least_text (l : list string) : string := default "" (head (sorted_strings l)).

Definition source_rows (uri : string) (chunks : list ChunkRow) : list ChunkRow := filter (fun c => cr_source c = uri) chunks.

Definition lineage_matches (objects : list ManifestObjectV1) (chunks : list ChunkRow) (uri : string) : bool :=
  match odict_get uri (last_by mo_uri objects) with
  | Some entry => bool_decide (least_text (map cr_sha (source_rows uri chunks)) = mo_sha256 entry) &&
                  bool_decide (least_text (map cr_version (source_rows uri chunks)) = mo_version_id entry)
  | None => false
  end.

Definition same_set (a b : list string) : bool := forallb (fun x => bool_decide (x ∈ b)) a && forallb (fun x => bool_decide (x ∈ a)) b.

(** The graph of the generation is the one its build recorded, or is replaced by this builder's
    when an older builder made it. *)
Definition check_graph (id : string) (current : GenerationRow) (summary marker : metadata) (chunks : list ChunkRow) : tx metadata :=
  let graph := build_semantic_graph chunks (g_pipeline_fingerprint current) (g_corpus_fingerprint current) in
  let built := marker_schema_version marker in
  if sg_schema_version graph <? built then refuse (GenerationError "generation semantic graph was built by a newer builder")
  else if built <? sg_schema_version graph then
    audit "generation_graph_upgraded" (Some id) None
      [("from_schema_version", VInt built); ("to_schema_version", VInt (sg_schema_version graph))];;
    mret (odict_set "semantic_graph" (VDict (sg_marker graph)) summary)
  else if negb (is_text (meta_get "graph_id" marker) (sg_id graph)) || negb (is_text (meta_get "graph_fingerprint" marker) (sg_fingerprint graph))
  then refuse (GenerationError "generation semantic graph fingerprint mismatch")
  else mret summary.

Definition ready_marker (marker : metadata) : bool := match meta_get "ready" marker with VBool true => true | _ => false end.

(** [_validate]. *)
Definition set_ready (summary : metadata) (now : Z) (g : GenerationRow) : GenerationRow :=
  with_summary (VDict summary) (with_state READY (with_times (g_validating g) (Some now) (g_activated g) (g_retired g) g)).

Definition validate_rows (id : string) (now : Z) : tx (nat * nat) :=
  current ← require_generation id;
  require_that (bool_decide (g_state current = VALIDATING)) (StepPrecondition "validate requires validating state");;
  d ← get;
  match g_manifest current, g_summary current with
  | VDict raw, VDict summary =>
      m ← lift (from_dict raw);
      expected ← lift (indexed_sources summary);
      let chunks := filter (fun c => cr_generation c = id) (db_chunks d) in
      let actual := dedup (map cr_source chunks) in
      require_that (same_set actual expected) (GenerationError "generation source mismatch");;
      require_that (forallb (lineage_matches (im_objects m) chunks) actual) (GenerationError "generation lineage mismatch");;
      match meta_get "semantic_graph" summary with
      | VDict marker =>
          require_that (ready_marker marker) (GenerationError "generation semantic graph is not ready");;
          summary ← check_graph id current summary marker (generation_chunks id d);
          let summary := odict_set "dependency_projection" (dependency_marker d id (g_corpus_fingerprint current)) summary in
          let summary := odict_set "validated_sources" (VInt (Z.of_nat (length actual))) summary in
          let summary := odict_set "validated_chunks" (VInt (Z.of_nat (length chunks))) summary in
          update_generation id (set_ready summary now);;
          audit "generation_validated" (Some id) None
            [("sources", VInt (Z.of_nat (length actual))); ("chunks", VInt (Z.of_nat (length chunks)))];;
          mret (length actual, length chunks)
      | _ => refuse (GenerationError "generation semantic graph is not ready")
      end
  | _, _ => refuse (GenerationError "generation has no build summary")
  end.

(** [validate]: a failure fails the generation, in a transaction of its own; a call in the wrong
    state does not. [failure_text] is the text of an exception. *)
Context (failure_text : gexn -> string).

Definition validate (id : string) (now : Z) : op (nat * nat) :=
  fun d =>
    match transaction (validate_rows id now) d with
    | (inr r, d') => (inr r, d')
    | (inl (StepPrecondition m), d') => (inl (StepPrecondition m), d')
    | (inl e, d') =>
        match fail id (failure_text e) d' with
        | (inr _, d'') => (inl e, d'')
        | (inl e', d'') => (inl (if invalid_transition e' then e else e'), d'')
        end
    end.

(** ** Promotion and rollback *)

Context (resolve_calibration : db -> string -> option string).

(** [calibration_status_for] and [require_certified_for_production]. *)
Definition calibration_status_for (d : db) (id : string) : string := default "unknown" (resolve_calibration d id).

Definition require_certified_for_production (id : string) : tx unit :=
  d ← get;
  match resolve_calibration d id with
  | None => refuse (UnsafePromotion "generation cannot go live in production")
  | Some status => require_that (bool_decide (status = "certified")) (UnsafePromotion "generation cannot go live in production: calibration is not certified")
  end.

(** [_record_omitted_supersession]: the memos of the outgoing generation that the incoming one
    leaves out are forgotten, in the same transaction. *)
Definition sources_of (id : string) (d : db) : list string := map cr_source (filter (fun c => cr_generation c = id) (db_chunks d)).

Definition omitted_sources (outgoing incoming : string) (d : db) : list string :=
  dedup (filter (fun uri => uri ∉ sources_of incoming d) (sources_of outgoing d)).

Definition record_removals (scope : ChunkRow -> bool) (sources : list string) (withdraw : bool) : tx nat :=
  d ← get;
  removed ← lift (pg_record_removals isoformat fromisoformat stamp (db_audit d) "recall_chunks_v1"
                    (supersession_rows json_text scope (db_chunks d)) sources withdraw);
  modify (set_audit removed.1);;
  mret removed.2.

Definition record_omitted_supersession (outgoing : option string) (incoming : string) : tx nat :=
  match outgoing with
  | None => mret 0%nat
  | Some out =>
      if decide (out = incoming) then mret 0%nat
      else
        d ← get;
        let omitted := omitted_sources out incoming d in
        if decide (omitted = []) then mret 0%nat
        else record_removals (scan_eligible out omitted) omitted false
  end.

(** [UPDATE ... SET state = 'active']: the partial unique index refuses a second active row. *)
Definition serve (now : Z) (g : GenerationRow) : GenerationRow :=
  with_state ACTIVE (with_times (g_validating g) (g_ready g) (Some now) None g).

Definition activate (id : string) (now : Z) : tx unit :=
  d ← get;
  require_that (bool_decide (Forall (fun g => g_state g = ACTIVE -> g_id g = id) (db_generations d))) UniqueViolation;;
  update_generation id (serve now).

(** The outgoing generation, if its row is active. *)
Definition retire (now : Z) (g : GenerationRow) : GenerationRow :=
  if decide (g_state g = ACTIVE) then with_state RETIRED (with_times (g_validating g) (g_ready g) (g_activated g) (Some now) g) else g.

Definition restore_ready (g : GenerationRow) : GenerationRow :=
  if decide (g_state g = ACTIVE) then with_state READY (with_times (g_validating g) (g_ready g) (g_activated g) None g) else g.

Definition update_active (active : option string) (f : GenerationRow -> GenerationRow) : tx unit :=
  match active with Some id => update_generation id f | None => mret tt end.

Definition promote (id : string) (unsafe_development : bool) (now : Z) : op nat :=
  transaction (
    (if certification_required self
     then require_that (negb unsafe_development) (UnsafePromotion "unsafe_development is unavailable for a tenant served under production")
     else require_that unsafe_development (UnsafePromotion "development promotion requires unsafe_development=True"));;
    ensure_state;;
    d ← get;
    let active := active_of d in
    target ← require_generation id;
    require_that (bool_decide (g_state target = READY)) (InvalidGenerationTransition "promotion requires ready state");;
    (if certification_required self then require_certified_for_production id else mret tt);;
    omitted ← record_omitted_supersession active id;
    update_active active (retire now);;
    activate id now;;
    modify (set_state (Some (Some id, active)));;
    audit (if certification_required self then "generation_promoted_certified" else "generation_promoted_unsafe_development")
      (Some id) None [("previous_generation_id", text_value active)];;
    mret omitted).

Definition rollback (provisional_reason : option string) (now : Z) : op string :=
  transaction (
    d ← get;
    match previous_of d with
    | None => refuse (NoActiveGeneration "no previous generation is available for rollback")
    | Some previous =>
        let active := active_of d in
        target ← require_generation previous;
        require_that (bool_decide (g_state target ∈ [RETIRED; READY])) (InvalidGenerationTransition "rollback target is not retired or ready");;
        let status := calibration_status_for d previous in
        update_active active restore_ready;;
        activate previous now;;
        modify (set_state (Some (Some previous, active)));;
        audit "generation_rolled_back" (Some previous) None
          [("replaced_generation_id", text_value active); ("calibration_status", VStr status);
           ("provisional_reason", if bool_decide (status = "certified") then VNone
                                  else VStr (or_else provisional_reason "rollback: incident recovery"))];;
        mret previous
    end).

(** ** What serves *)

Definition active_generation_id (d : db) : gexn + string :=
  match active_of d with Some id => inr id | None => inl (NoActiveGeneration "tenant has no active generation") end.

(** [active_manifest]: the join of the pointer and its row. *)
Definition active_manifest (d : db) : gexn + IndexManifestV1 :=
  match (s ← db_state d; id ← s.1; g ← find_generation id d; match g_manifest g with VDict m => Some m | _ => None end) with
  | Some m => match from_dict m with Ok r => inr r | Raise e => inl (Other e) end
  | None => inl (NoActiveGeneration "tenant has no active generation")
  end.

(** [servable_manifest]: [ORDER BY created_at DESC, generation_id DESC LIMIT 1]. *)
Definition servable (g : GenerationRow) : bool :=
  bool_decide (g_state g = ACTIVE) || (bool_decide (g_state g = READY) && bool_decide (g_activated g = None)).

Definition newest_ltb (a b : GenerationRow) : bool :=
  if decide (g_created a = g_created b) then string_ltb (g_id b) (g_id a) else g_created b <? g_created a.

Definition servable_row (d : db) : option GenerationRow :=
  head (stable_sort (fun a b => negb (newest_ltb b a)) (filter (fun g => servable g = true) (db_generations d))).

Definition servable_manifest (d : db) : gexn + IndexManifestV1 :=
  match servable_row d with
  | Some g => match g_manifest g with
              | VDict m => match from_dict m with Ok r => inr r | Raise e => inl (Other e) end
              | _ => active_manifest d
              end
  | None => active_manifest d
  end.

(** [superseded_ready_generations]. *)
Definition superseded_ready_generations (keep : string) (prefix : option string) (d : db) : list string :=
  map g_id (filter (fun g => bool_decide (g_state g = READY) && negb (bool_decide (g_id g = keep)) &&
                             match prefix with Some p => starts_with (g_corpus_version g) p | None => true end = true)
              (list_generations d)).

(** ** Forgetting *)

(** [_scrub_sparse_rows]: a deployment without the sidecar has no such rows. *)
Definition scrub_sparse (ids : list string) : tx unit :=
  modify (fun d => set_sparse (filter (fun id => id ∉ ids) (db_sparse d)) d).

(** The generation rows [forget] locks, and their manifests. *)
Definition mutable_rows (d : db) : list GenerationRow := filter (fun g => g_state g <> LEGACY_UNVERIFIED) (db_generations d).

Definition read_manifest (g : GenerationRow) : result (list (string * (IndexManifestV1 * string))) :=
  match g_manifest g with
  | VDict raw => m ← from_dict raw; Ok [(g_id g, (m, g_corpus_fingerprint g))]
  | _ => Ok []
  end.

Definition read_manifests (rows : list GenerationRow) : result (list (string * (IndexManifestV1 * string))) :=
  @concat _ <$> result_mapM read_manifest rows.

(** One generation whose corpus changed: its published calibrations are superseded. *)
Definition supersede (id : string) (now : Z) (c : CalibrationRow) : CalibrationRow :=
  if decide (cal_generation c = id /\ cal_lifecycle c = "published")
  then {| cal_id := cal_id c; cal_generation := cal_generation c; cal_lifecycle := "superseded"; cal_superseded := Some now |} else c.

Definition published (id : string) (d : db) : list CalibrationRow :=
  filter (fun c => cal_generation c = id /\ cal_lifecycle c = "published") (db_calibrations d).

Fixpoint each {A} (f : A -> tx unit) (l : list A) : tx unit :=
  match l with [] => mret tt | x :: l' => f x;; each f l' end.

Definition refresh_generation (tombstoned : list string) (now : Z) (entry : string * (IndexManifestV1 * string)) : tx unit :=
  let '(id, (m, previous)) := entry in
  corpus ← lift (effective_corpus_fingerprint m tombstoned);
  update_generation id (with_corpus corpus);;
  if decide (corpus = previous) then mret tt
  else
    d ← get;
    modify (fun d => set_calibrations (map (supersede id now) (db_calibrations d)) d);;
    each (fun c => audit "calibration_invalidated" (Some id) None
                     [("calibration_id", VStr (cal_id c)); ("reason", VStr "source forgotten; corpus fingerprint changed");
                      ("previous_corpus_fingerprint", VStr previous); ("corpus_fingerprint", VStr corpus)];; mret tt)
      (published id d).

(** The generation whose copy of the source is read: the active one, else the newest. *)
Definition holder_ltb (active : option string) (d : db) (a b : string) : bool :=
  let first x := bool_decide (active = Some x) in
  let created x := default 0 (g_created <$> find_generation x d) in
  if Bool.eqb (first a) (first b) then created b <? created a else first a.

Definition holder (uri : string) (selected : list string) (d : db) : option string :=
  head (stable_sort (fun a b => negb (holder_ltb (s ← db_state d; s.1) d b a))
          (map cr_generation (filter (fun c => cr_source c = uri /\ cr_generation c ∈ selected /\ find_generation (cr_generation c) d <> None)
                                (db_chunks d)))).

(** [str.isidentifier]. *)
Definition identifier_start (c : ascii) : bool :=
  ascii_alpha c || is_char "_" c || bool_decide (code c ∈ [170; 181; 186]%nat) ||
  (((192 <=? code c) && (code c <=? 255) && negb (code c =? 215) && negb (code c =? 247))%nat).

Definition isidentifier (s : string) : bool :=
  match chars s with
  | c :: l => identifier_start c && forallb (fun c => identifier_start c || ascii_digit c || (code c =? 183)%nat) l
  | [] => false
  end.

(** [pg_delete_removals] on an adopted table: its rows of the source, and their records. *)
Definition forget_legacy (table uri : string) (withdraw : bool) : tx nat :=
  require_that (isidentifier table) (Other (ValueError "legacy_table must be a valid SQL identifier"));;
  d ← get;
  match odict_get table (db_legacy d) with
  | None => mret 0%nat
  | Some rows =>
      let removed := filter (fun c => cr_source c = uri) rows in
      modify (fun d => set_legacy (odict_set table (filter (fun c => cr_source c <> uri) rows) (db_legacy d)) d);;
      recorded ← lift (pg_record_removals isoformat fromisoformat stamp (db_audit d) table
                         (supersession_rows json_text (fun _ => true) removed) [uri] withdraw);
      modify (set_audit recorded.1);;
      mret (length removed)
  end.

Record ErasureResult := { er_source : string; er_generations : list string; er_removed : nat; er_event : string }.

Definition forget (uri : string) (legacy_table : option string) (withdraw : bool) (now : Z) : op ErasureResult :=
  if decide (uri = "") then fun d => (inl (Other (ValueError "source_uri must be non-empty")), d)
  else transaction (
    d ← get;
    let selected := sorted_set (protected_ids d ++ map g_id (mutable_rows d)) in
    manifests ← lift (read_manifests (mutable_rows d));
    event ← audit "source_forgotten" None (Some uri) [("generation_ids", VList (map VStr selected))];
    modify (fun d => if is_tombstoned uri d then d
                     else set_tombstones (db_tombstones d ++ [{| ts_source := uri; ts_event := event; ts_erased := now |}]) d);;
    d ← get;
    each (refresh_generation (map ts_source (db_tombstones d)) now) manifests;;
    d ← get;
    record_removals (fun c => bool_decide (Some (cr_generation c) = holder uri selected d) && bool_decide (cr_source c = uri)) [uri] withdraw;;
    let erased c := bool_decide (cr_generation c ∈ selected) && bool_decide (cr_source c = uri) in
    d ← get;
    let removed := filter (fun c => erased c = true) (db_chunks d) in
    modify (fun d => set_chunks (filter (fun c => erased c = false) (db_chunks d)) d);;
    scrub_sparse (map cr_id removed);;
    legacy ← (match legacy_table with Some table => forget_legacy table uri withdraw | None => mret 0%nat end);
    mret {| er_source := uri; er_generations := selected; er_removed := length removed + legacy; er_event := event |}).

(** ** Collecting *)

Definition age_of (g : GenerationRow) : Z := default (g_created g) (g_retired g).
Definition day_micros : Z := 86400000000.

(** The loop of [gc]: how many retired generations are held, and what is deleted. *)
Definition gc_step (protected : list string) (retain_previous : Z) (cutoff : Z) (acc : Z * list string) (g : GenerationRow) : Z * list string :=
  let '(kept, delete) := acc in
  if decide (g_id g ∈ protected) then acc
  else if decide (g_state g = RETIRED /\ kept < retain_previous) then (kept + 1, delete)
  else if decide (cutoff <= age_of g) then acc
  else (kept, delete ++ [g_id g]).

Definition collectable (d : db) : list GenerationRow :=
  stable_sort (fun a b => negb (age_of a <? age_of b))
    (filter (fun g => g_state g = RETIRED \/ g_state g = FAILED) (db_generations d)).

Definition gc_plan (now retention_days retain_previous : Z) (d : db) : list string :=
  (foldl (gc_step (protected_ids d) retain_previous (now - retention_days * day_micros))
     (if previous_of d then 1 else 0, []) (collectable d)).2.

(** Deleting a generation deletes its chunks and calibrations by their foreign keys. *)
Definition delete_generations (ids : list string) (d : db) : db :=
  set_calibrations (filter (fun c => cal_generation c ∉ ids) (db_calibrations d))
    (set_chunks (filter (fun c => cr_generation c ∉ ids) (db_chunks d))
       (set_generations (filter (fun g => g_id g ∉ ids) (db_generations d)) d)).

Definition gc (now retention_days retain_previous : Z) : op (list string) :=
  if decide (retention_days < 0 \/ retain_previous < 0) then
    fun d => (inl (Other (ValueError "retention_days and retain_previous cannot be negative")), d)
  else transaction (
    d ← get;
    let delete := gc_plan now retention_days retain_previous d in
    if decide (delete = []) then mret []
    else
      modify (delete_generations delete);;
      scrub_sparse (map cr_id (filter (fun c => cr_generation c ∈ delete) (db_chunks d)));;
      audit "generation_gc" None None [("generation_ids", VList (map VStr delete))];;
      mret delete).
End manager.
