(* ===== verification/GenerationsFacts.v ===== *)
(** * GenerationsFacts: what the lifecycle of generations keeps

    The invariant of the pointers and the rows, kept by every operation; what a promotion, a
    rollback and a collection do, exactly; and what forgetting a source does to every table. *)
From S2P Require Import Prelude Text Float64 Frontmatter SourceIdentity References Supersession Resolver Tables SupersessionRecords SupersessionRecordsFacts Urls Lineage Generations.

Local Open Scope Z_scope.

(** ** Reading a transaction *)

Lemma tx_bind_inr {A B} (t : tx A) (f : A -> tx B) d b d' :
  (t ≫= f) d = inr (b, d') <-> exists a d1, t d = inr (a, d1) /\ f a d1 = inr (b, d').
Proof.
  unfold mbind, tx_bind. destruct (t d) as [e|[a d1]]; split.
  - done.
  - by intros (? & ? & ? & _).
  - eauto.
  - by intros (a' & d1' & [= <- <-] & ?).
Qed.

Lemma require_that_inr b e d u d' : require_that b e d = inr (u, d') <-> b = true /\ d' = d.
Proof. destruct b, u; cbn; split; [by intros [= <-]|by intros [_ ->]|done|by intros [? _]]. Qed.

Lemma modify_inr f d u d' : modify f d = inr (u, d') <-> d' = f d.
Proof. destruct u. cbn. split; [by intros [= <-]|by intros ->]. Qed.

Lemma get_inr d x d' : get d = inr (x, d') <-> x = d /\ d' = d.
Proof. cbn. split; [by intros [= <- <-]|by intros [-> ->]]. Qed.

Lemma mret_inr {A} (a : A) d b d' : (mret a : tx A) d = inr (b, d') <-> b = a /\ d' = d.
Proof. cbn. split; [by intros [= <- <-]|by intros [-> ->]]. Qed.

Lemma lift_inr {A} (r : result A) d a d' : lift r d = inr (a, d') <-> r = Ok a /\ d' = d.
Proof. destruct r; cbn; split; [by intros [= <- <-]|by intros [[= <-] ->]|done|by intros [? _]]. Qed.

Lemma refuse_inr {A} e d (a : A) d' : refuse e d = inr (a, d') <-> False.
Proof. done. Qed.

Lemma transaction_inr {A} (t : tx A) d a d' : transaction t d = (inr a, d') <-> t d = inr (a, d').
Proof. unfold transaction. destruct (t d) as [e|[b d1]]; split; congruence. Qed.

(** A failed transaction leaves the database as it was. *)
Lemma transaction_inl {A} (t : tx A) d e d' : transaction t d = (inl e, d') <-> t d = inl e /\ d' = d.
Proof.
  unfold transaction. destruct (t d) as [e'|[b d1]]; split.
  - by intros [= <- <-].
  - by intros [[= <-] ->].
  - done.
  - by intros [? _].
Qed.

(** Take a transaction that returned apart, statement by statement. *)
Ltac tx_step H :=
  match type of H with
  | (_ ≫= _) _ = inr _ => let a := fresh "a" in let d := fresh "d" in let H1 := fresh "H" in
      apply tx_bind_inr in H as (a & d & H1 & H); try tx_step H1
  | require_that _ _ _ = inr _ => let H1 := fresh "Hreq" in apply require_that_inr in H as [H1 ->]
  | modify _ _ = inr _ => apply modify_inr in H as ->
  | get _ = inr _ => apply get_inr in H as [-> ->]
  | mret _ _ = inr _ => apply mret_inr in H as [-> ->]
  | lift _ _ = inr _ => let H1 := fresh "Hlift" in apply lift_inr in H as [H1 ->]
  | refuse _ _ = inr _ => by apply refuse_inr in H
  | update_generation _ _ _ = inr _ => apply modify_inr in H as ->
  end.
Ltac tx_inv H := repeat tx_step H.

(** ** Rows *)

Definition ids (d : db) : list string := g_id <$> db_generations d.

Lemma rows_distinct (l : list GenerationRow) a b : NoDup (g_id <$> l) -> a ∈ l -> b ∈ l -> g_id a = g_id b -> a = b.
Proof.
  intros Hnd (i & Hi)%list_elem_of_lookup (j & Hj)%list_elem_of_lookup Heq.
  assert (i = j) as ->; [|congruence]. eapply NoDup_lookup; [exact Hnd|..]; rewrite list_lookup_fmap; [by rewrite Hi|by rewrite Hj, Heq].
Qed.

Lemma find_generation_some id d g : find_generation id d = Some g -> g ∈ db_generations d /\ g_id g = id.
Proof. unfold find_generation. intros H%head_Some_elem_of. by apply list_elem_of_filter in H as []. Qed.

Lemma find_generation_none id d : find_generation id d = None <-> id ∉ ids d.
Proof.
  unfold find_generation, ids. rewrite head_None. split.
  - intros Hf (g & -> & Hg)%list_elem_of_fmap. apply (not_elem_of_nil g). rewrite <-Hf. by apply list_elem_of_filter.
  - intros Hn. apply list_filter_none, Forall_forall. intros g Hg <-. apply Hn. by apply list_elem_of_fmap_2.
Qed.

Lemma find_generation_row d g : NoDup (ids d) -> g ∈ db_generations d -> find_generation (g_id g) d = Some g.
Proof.
  intros Hnd Hg. destruct (find_generation (g_id g) d) as [x|] eqn:Hx.
  - apply find_generation_some in Hx as [Hx Hid]. f_equal. by apply (rows_distinct (db_generations d)).
  - apply find_generation_none in Hx. destruct Hx. by apply list_elem_of_fmap_2.
Qed.

Lemma require_generation_inr id d g d' :
  require_generation id d = inr (g, d') <-> find_generation id d = Some g /\ d' = d.
Proof.
  unfold require_generation, mbind, tx_bind, get. destruct (find_generation id d) as [x|]; cbn; split.
  - by intros [= <- <-].
  - by intros [[= <-] ->].
  - done.
  - by intros [? _].
Qed.

(** An update keeps the ids, in place. *)
Lemma update_row_ids id f l : (forall g, g_id (f g) = g_id g) -> g_id <$> update_row id f l = g_id <$> l.
Proof.
  intros Hf. unfold update_row. rewrite <-list_fmap_compose. apply list_fmap_ext. intros i g _. cbn. by case_decide.
Qed.

Lemma elem_of_update_row id f l g : g ∈ update_row id f l <->
  exists x, x ∈ l /\ g = if decide (g_id x = id) then f x else x.
Proof. unfold update_row. rewrite list_elem_of_fmap. naive_solver. Qed.

(** ** The invariant *)

(** The active pointer names the one active row; the previous pointer a row that may serve again
    and is not active; whatever is active or retired has been activated, and what is being built
    has not. *)
Record well_formed (d : db) : Prop := {
  wf_ids : NoDup (ids d);
  wf_named : "" ∉ ids d;
  wf_active : forall g, g ∈ db_generations d -> g_state g = ACTIVE <-> active_of d = Some (g_id g);
  wf_active_row : forall id, active_of d = Some id -> id ∈ ids d;
  wf_previous : forall id, previous_of d = Some id ->
    exists g, g ∈ db_generations d /\ g_id g = id /\ (g_state g = RETIRED \/ g_state g = READY);
  wf_activated : forall g, g ∈ db_generations d ->
    match g_state g with
    | ACTIVE | RETIRED => g_activated g <> None
    | BUILDING | VALIDATING => g_activated g = None
    | _ => True
    end
}.

(** Only the rows and the pointers matter. *)
Lemma well_formed_core d d' : db_generations d' = db_generations d -> db_state d' = db_state d -> well_formed d -> well_formed d'.
Proof.
  intros Hg Hs [H1 H2 H3 H4 H5 H6]. split; unfold ids, active_of, previous_of in *; rewrite ?Hg, ?Hs; done.
Qed.

(** Changing a row that neither pointer names. *)
Lemma wf_update_free d id f :
  well_formed d -> active_of d <> Some id -> previous_of d <> Some id -> (forall g, g_id (f g) = g_id g) ->
  (forall g, g ∈ db_generations d -> g_id g = id -> match g_state (f g) with
     | ACTIVE | RETIRED => False | BUILDING | VALIDATING => g_activated (f g) = None | _ => True end) ->
  well_formed (set_generations (update_row id f (db_generations d)) d).
Proof.
  intros [Hids Hname Hact Hrow Hprev Hav] Ha Hp Hf Hs.
  assert (Hsame : ids (set_generations (update_row id f (db_generations d)) d) = ids d) by (unfold ids; cbn; by apply update_row_ids).
  split; rewrite ?Hsame; try done; cbn [db_generations set_generations].
  - intros g (x & Hx & ->)%elem_of_update_row. case_decide as Hid; [|by apply Hact].
    rewrite Hf. specialize (Hs x Hx Hid). split; [intros He; by rewrite He in Hs|]. intros He. subst id. by destruct Ha.
  - intros i Hi. destruct (Hprev i Hi) as (g & Hg & <- & Hst). exists g. repeat split; [|done].
    apply elem_of_update_row. exists g. split; [done|]. rewrite decide_False; [done|]. intros <-. by destruct Hp.
  - intros g (x & Hx & ->)%elem_of_update_row. case_decide as Hid; [|by apply Hav].
    specialize (Hs x Hx Hid). by destruct (g_state (f x)).
Qed.

Lemma not_protected_state d g : well_formed d -> g ∈ db_generations d -> g_state g ∈ [BUILDING; VALIDATING; FAILED] ->
  active_of d <> Some (g_id g) /\ previous_of d <> Some (g_id g).
Proof.
  intros Hwf Hg Hs. split; intros Hp.
  - apply (wf_active d Hwf) in Hp; [|done]. rewrite Hp in Hs. set_solver.
  - destruct (wf_previous d Hwf _ Hp) as (x & Hx & Hid & Hst).
    assert (x = g) as -> by (apply (rows_distinct (db_generations d)); [apply (wf_ids d Hwf)|done..]).
    destruct Hst as [Hst|Hst]; rewrite Hst in Hs; set_solver.
Qed.

(** ** Collecting *)

(** How many unprotected retired generations a list holds. *)
Definition retired_count (protected : list string) (l : list GenerationRow) : Z :=
  Z.of_nat (length (filter (fun g => g_id g ∉ protected /\ g_state g = RETIRED) l)).

(** A row is collected after the rows [before] it: it is unprotected and old, and enough newer
    retired rows are held when it is retired itself. *)
Definition collected (protected : list string) (held retain cutoff : Z) (before : list GenerationRow) (g : GenerationRow) : Prop :=
  g_id g ∉ protected /\ age_of g < cutoff /\ (g_state g = RETIRED -> retain <= held + retired_count protected before).

Lemma retired_count_snoc protected l g : retired_count protected (l ++ [g]) =
  retired_count protected l + (if decide (g_id g ∉ protected /\ g_state g = RETIRED) then 1 else 0).
Proof. unfold retired_count. rewrite filter_app, length_app, filter_cons, filter_nil. case_decide; cbn; lia. Qed.

Lemma split_snoc {A} (P : list A -> A -> Prop) l x :
  (exists p g q, l ++ [x] = p ++ g :: q /\ P p g) <-> (exists p g q, l = p ++ g :: q /\ P p g) \/ P l x.
Proof.
  split.
  - intros (p & g & q & Heq & HP). destruct q as [|y q _] using rev_ind.
    + apply app_inj_tail in Heq as [-> ->]. by right.
    + rewrite app_comm_cons, (assoc_L (++)) in Heq. apply app_inj_tail in Heq as [-> _]. left. by eexists _, _, _.
  - intros [(p & g & q & -> & HP)|HP]; [exists p, g, (q ++ [x])|exists l, x, []]; [by rewrite <-(assoc_L (++))|done].
Qed.

Lemma gc_fold protected retain cutoff held l :
  let acc := foldl (gc_step protected retain cutoff) (held, []) l in
  (acc.1 = held + retired_count protected l \/ retain <= acc.1 /\ retain <= held + retired_count protected l) /\
  (forall id, id ∈ acc.2 <-> exists p g q, l = p ++ g :: q /\ id = g_id g /\ collected protected held retain cutoff p g).
Proof.
  cbn zeta. induction l as [|x l IH] using rev_ind.
  - split; [left; by rewrite Z.add_0_r|]. intros id. cbn. split; [by intros ?%not_elem_of_nil|]. by intros ([|] & ? & ? & [=] & _).
  - rewrite foldl_snoc. destruct (foldl _ _ l) as [kept delete]. cbn [fst snd] in IH. destruct IH as [Hk IH].
    rewrite retired_count_snoc. setoid_rewrite (split_snoc (fun p g => _ = g_id g /\ collected protected held retain cutoff p g)).
    setoid_rewrite <-IH. unfold gc_step, collected. case_decide as Hp; [|case_decide as Hr; [|case_decide as Hc]]; cbn [fst snd].
    + rewrite decide_False by tauto. split; [lia|]. intros id. tauto.
    + destruct Hr as [Hr Hlt]. rewrite decide_True by done. split; [lia|]. intros id. split; [tauto|]. intros [?|(_ & _ & _ & Hq)]; [done|].
      specialize (Hq Hr). lia.
    + split; [case_decide as Hd; [|lia]|intros id; split; [tauto|intros [?|(_ & _ & ? & _)]; [done|lia]]].
      destruct Hd as [_ Hd]. assert (~ kept < retain) by tauto. lia.
    + split; [case_decide as Hd; [|lia]|].
      * destruct Hd as [_ Hd]. assert (~ kept < retain) by tauto. lia.
      * intros id. rewrite elem_of_app, list_elem_of_singleton. split; [|tauto]. intros [?| ->]; [by left|right].
        split; [done|]. split; [done|]. split; [lia|]. intros Hd. assert (~ kept < retain) by tauto. lia.
Qed.

(** The states [fail] leaves from, and those a rollback returns to. *)
Lemma failable s : s ∉ [ACTIVE; RETIRED; READY; LEGACY_UNVERIFIED] -> s ∈ [BUILDING; VALIDATING; FAILED].
Proof. destruct s; set_solver. Qed.

Lemma may_return s : s ∈ [RETIRED; READY] <-> s = RETIRED \/ s = READY.
Proof. destruct s; set_solver. Qed.

Lemma unfinished_states : BUILDING ∈ [BUILDING; VALIDATING; FAILED] /\ VALIDATING ∈ [BUILDING; VALIDATING; FAILED].
Proof. set_solver. Qed.

Section lifecycle.
Set Default Proof Using "Type".
Context (json_text : value -> string) (isoformat : datetime -> string) (fromisoformat : string -> option datetime).
Context (py_str : value -> string) (bracketed_ok : string -> bool) (json_dumps : value -> string) (sha256_hex : string -> string).
Context (stamp : nat -> string * Z) (self : Manager).
Context (build_semantic_graph : list ChunkRow -> string -> string -> SemanticGraph).
Context (dependency_marker : db -> string -> string -> value) (failure_text : gexn -> string).
Context (resolve_calibration : db -> string -> option string).

(** The event an audited statement appends. *)
Definition event_of (d : db) (event_type : string) (generation source : option string) (payload : metadata) : AuditEvent :=
  {| au_id := (stamp (length (db_audit d))).1; au_type := event_type; au_actor := gm_actor self; au_generation := generation;
     au_source := source; au_payload := VDict payload; au_at := (stamp (length (db_audit d))).2 |}.

Lemma audit_inr t g s p d x d' : audit stamp self t g s p d = inr (x, d') <->
  x = (stamp (length (db_audit d))).1 /\ d' = set_audit (db_audit d ++ [event_of d t g s p]) d.
Proof. unfold audit, mbind, tx_bind, get, modify, mret, tx_ret. cbn. split; [by intros [= <- <-]|by intros [-> ->]]. Qed.

Ltac tx_all H :=
  repeat (tx_step H || (apply audit_inr in H as [-> ->]) || (let H1 := fresh "Hfind" in apply require_generation_inr in H as [H1 ->]));
  repeat match goal with
  | H1 : audit _ _ _ _ _ _ _ = inr _ |- _ => apply audit_inr in H1 as [-> ->]
  | H1 : require_generation _ _ = inr _ |- _ => let H2 := fresh "Hfind" in apply require_generation_inr in H1 as [H2 ->]
  end.

(** ** Each operation *)

Lemma mark_validating_step id summary expected now d r d' :
  mark_validating stamp self id summary expected now d = (inr r, d') ->
  exists g e, g ∈ db_generations d /\ g_id g = id /\ g_state g = BUILDING /\
    d' = set_audit (db_audit d ++ [e]) (set_generations (update_row id (set_validating summary now) (db_generations d)) d).
Proof.
  unfold mark_validating. rewrite transaction_inr. intros H. tx_all H. apply find_generation_some in Hfind as [Hg Hid].
  apply bool_decide_eq_true in Hreq. eexists _, _. repeat split; [exact Hg|done..].
Qed.

Lemma fail_step id reason d r d' : fail stamp self id reason d = (inr r, d') ->
  exists g e, g ∈ db_generations d /\ g_id g = id /\ g_state g ∈ [BUILDING; VALIDATING; FAILED] /\
    d' = set_audit (db_audit d ++ [e]) (set_generations (update_row id (set_failed reason) (db_generations d)) d).
Proof.
  unfold fail. rewrite transaction_inr. intros H. tx_all H. apply find_generation_some in Hfind as [Hg Hid].
  apply negb_true_iff, bool_decide_eq_false in Hreq. eexists _, _. repeat split; [exact Hg|done|by apply failable].
Qed.

Lemma abandon_step id reason d r d' : abandon stamp self id reason d = (inr r, d') ->
  exists g e, g ∈ db_generations d /\ g_id g = id /\ g_state g = READY /\ id ∉ protected_ids d /\
    d' = set_audit (db_audit d ++ [e]) (set_generations (update_row id (set_failed reason) (db_generations d)) d).
Proof.
  unfold abandon. rewrite transaction_inr. intros H. tx_all H. apply find_generation_some in Hfind as [Hg Hid].
  apply bool_decide_eq_true in Hreq. apply negb_true_iff, bool_decide_eq_false in Hreq0. eexists _, _. by repeat split.
Qed.

Local Abbreviation create_ := (create json_dumps sha256_hex stamp self).
Local Abbreviation validate_ := (validate py_str bracketed_ok stamp self build_semantic_graph dependency_marker failure_text).
Local Abbreviation promote_ := (promote json_text isoformat fromisoformat stamp self resolve_calibration).
Local Abbreviation rollback_ := (rollback stamp self resolve_calibration).
Local Abbreviation forget_ := (forget json_text isoformat fromisoformat py_str bracketed_ok json_dumps sha256_hex stamp self).
Local Abbreviation gc_ := (gc stamp self).

Definition state_ensured (d : db) : option (option string * option string) :=
  match db_state d with Some s => Some s | None => Some (None, None) end.

Lemma admit_pipeline_inr m p allow d u d' : admit_pipeline self m p allow d = inr (u, d') -> d' = d.
Proof.
  unfold admit_pipeline. destruct (negb _); [done|]. destruct (bool_decide _); intros H; tx_all H; done.
Qed.

Lemma fits_database_inr dimension fts p d u d' : fits_database dimension fts p d = inr (u, d') -> d' = d.
Proof.
  unfold fits_database. intros H. tx_all H. destruct (meta_get "language" _); try done. by tx_all H.
Qed.

Lemma ensure_state_inr d u d' : ensure_state d = inr (u, d') -> d' = set_state (state_ensured d) d.
Proof.
  unfold ensure_state. rewrite modify_inr. intros ->. unfold state_ensured. destruct (db_state d) eqn:Hs; [|done].
  destruct d. cbn in *. by subst.
Qed.

Lemma active_ensured d : active_of (set_state (state_ensured d) d) = active_of d.
Proof. unfold active_of, state_ensured. cbn. by destruct (db_state d). Qed.

Lemma previous_ensured d : previous_of (set_state (state_ensured d) d) = previous_of d.
Proof. unfold previous_of, state_ensured. cbn. by destruct (db_state d). Qed.

Lemma create_step m p allow gid new_id dimension fts now d row d' :
  create_ m p allow gid new_id dimension fts now d = (inr row, d') ->
  g_id row = or_else gid new_id /\ g_id row ∉ ids d /\ g_state row = BUILDING /\ g_activated row = None /\
  g_parent row = active_of d /\
  exists e, d' = set_audit (db_audit d ++ [e]) (set_state (state_ensured d) (set_generations (db_generations d ++ [row]) d)).
Proof.
  unfold create. rewrite transaction_inr. intros H. tx_all H.
  apply admit_pipeline_inr in H0 as ->. apply fits_database_inr in H1 as ->. apply ensure_state_inr in H2 as ->.
  apply bool_decide_eq_true, find_generation_none in Hreq.
  apply find_generation_some in Hfind as [Hrow Hid]. cbn [db_generations set_audit set_state set_generations] in Hrow.
  apply elem_of_app in Hrow as [Hrow| ->%list_elem_of_singleton].
  - destruct Hreq. rewrite <-Hid. by apply list_elem_of_fmap_2.
  - cbn [g_id g_state g_activated g_parent]. repeat split; [done|]. eexists. done.
Qed.

Lemma set_audit_nil d : set_audit (db_audit d ++ []) d = d.
Proof. destruct d. cbn. by rewrite app_nil_r. Qed.

Lemma check_graph_inr id current summary marker chunks d s d' :
  check_graph stamp self build_semantic_graph id current summary marker chunks d = inr (s, d') ->
  exists events, d' = set_audit (db_audit d ++ events) d.
Proof.
  unfold check_graph. cbn zeta. repeat case_match; intros H9; tx_all H9; [by eexists|]. exists []. by rewrite set_audit_nil.
Qed.

(** The row a validation leaves: ready, or failed, or as it was. *)
Lemma validate_rows_step id now d r d' :
  validate_rows py_str bracketed_ok stamp self build_semantic_graph dependency_marker id now d = inr (r, d') ->
  exists g summary events, g ∈ db_generations d /\ g_id g = id /\ g_state g = VALIDATING /\
    d' = set_audit (db_audit d ++ events) (set_generations (update_row id (set_ready summary now) (db_generations d)) d).
Proof.
  unfold validate_rows. intros H. tx_all H. apply find_generation_some in Hfind as [Hg Hid]. apply bool_decide_eq_true in Hreq.
  destruct (g_manifest _) as [| | | | | | |raw]; try done. destruct (g_summary _) as [| | | | | | |summary]; try done. tx_all H.
  destruct (meta_get "semantic_graph" summary) as [| | | | | | |marker]; try done. tx_all H.
  match goal with Hc : check_graph _ _ _ _ _ _ _ _ _ = inr _ |- _ => apply check_graph_inr in Hc as [events ->] end.
  eexists _, _, (events ++ [_]). split; [exact Hg|]. split; [done|]. split; [done|]. cbn. by rewrite (assoc_L (++)).
Qed.

Lemma record_removals_inr scope sources withdraw d n d' :
  record_removals json_text isoformat fromisoformat stamp scope sources withdraw d = inr (n, d') ->
  exists events, d' = set_audit (db_audit d ++ events) d.
Proof.
  unfold record_removals. intros H. tx_all H. cbn in *. unfold pg_record_removals in Hlift.
  apply bind_ok in Hlift as (standing & _ & [= <-]). cbn.
  match goal with |- context [append_records ?i ?s ?a ?sc ?l ?r] => destruct (append_extends i s a sc l r) as [events ->] end.
  by exists events.
Qed.

Lemma record_omitted_inr outgoing incoming d n d' :
  record_omitted_supersession json_text isoformat fromisoformat stamp outgoing incoming d = inr (n, d') ->
  exists events, d' = set_audit (db_audit d ++ events) d.
Proof.
  assert (Hnil : exists events, d = set_audit (db_audit d ++ events) d) by (exists []; by rewrite set_audit_nil).
  unfold record_omitted_supersession. destruct outgoing as [out|]; [|intros Ht; by tx_all Ht].
  case_decide; intros Ht; tx_all Ht; [done|]. case_decide; [by tx_all Ht|]. by apply record_removals_inr in Ht.
Qed.

Lemma activate_inr id now d u d' : activate id now d = inr (u, d') <->
  Forall (fun g => g_state g = ACTIVE -> g_id g = id) (db_generations d) /\ d' = set_generations (update_row id (serve now) (db_generations d)) d.
Proof.
  unfold activate. split.
  - intros H. tx_all H. by apply bool_decide_eq_true in Hreq.
  - intros [Hf ->]. destruct u. unfold mbind, tx_bind, get, require_that. by rewrite bool_decide_true.
Qed.

(** The rows after the active generation steps down and another serves. *)
Definition update_opt (o : option string) (f : GenerationRow -> GenerationRow) (l : list GenerationRow) : list GenerationRow :=
  match o with Some id => update_row id f l | None => l end.

Definition switched (active : option string) (step_down : GenerationRow -> GenerationRow) (id : string) (now : Z) (d : db) : db :=
  set_state (Some (Some id, active)) (set_generations (update_row id (serve now) (update_opt active step_down (db_generations d))) d).

Lemma update_active_inr active f d u d' : update_active active f d = inr (u, d') ->
  d' = set_generations (update_opt active f (db_generations d)) d.
Proof. unfold update_active. destruct active; intros H; tx_all H; [done|]. by destruct d. Qed.

Lemma promote_step id unsafe now d n d' : promote_ id unsafe now d = (inr n, d') ->
  exists g events, g ∈ db_generations d /\ g_id g = id /\ g_state g = READY /\
    unsafe = negb (certification_required self) /\ (certification_required self = true -> resolve_calibration (set_state (state_ensured d) d) id = Some "certified") /\
    d' = set_audit (db_audit d ++ events) (switched (active_of d) (retire now) id now d).
Proof.
  unfold promote. rewrite transaction_inr. intros H. tx_all H.
  assert (Hflag : unsafe = negb (certification_required self) /\ d0 = d).
  { destruct (certification_required self); apply require_that_inr in H0 as [? ->]; by destruct unsafe. }
  destruct Hflag as [-> ->]. apply ensure_state_inr in H1 as ->. rewrite active_ensured in *.
  assert (Hcert : (certification_required self = true -> resolve_calibration (set_state (state_ensured d) d) id = Some "certified") /\
                  d3 = set_state (state_ensured d) d).
  { destruct (certification_required self); [|by apply mret_inr in H3 as [_ ->]]. unfold require_certified_for_production in H3. tx_all H3.
    destruct (resolve_calibration _ _) as [st|]; [|done]. apply require_that_inr in H3 as [Hst%bool_decide_eq_true ->]. by subst st. }
  destruct Hcert as [Hcert ->]. apply record_omitted_inr in H4 as [events ->]. apply update_active_inr in H5 as ->.
  apply activate_inr in H6 as [_ ->]. apply find_generation_some in Hfind as [Hg Hid]. apply bool_decide_eq_true in Hreq.
  eexists a1, (events ++ [_]). repeat split; [exact Hg|done..|]. cbn. by rewrite (assoc_L (++)).
Qed.

Lemma rollback_step reason now d r d' : rollback_ reason now d = (inr r, d') ->
  exists g events, previous_of d = Some r /\ g ∈ db_generations d /\ g_id g = r /\ (g_state g = RETIRED \/ g_state g = READY) /\
    d' = set_audit (db_audit d ++ events) (switched (active_of d) restore_ready r now d).
Proof.
  unfold rollback. rewrite transaction_inr. intros H. tx_all H. destruct (previous_of d) as [previous|] eqn:Hp; [|by tx_all H].
  tx_all H. match goal with Hu : update_active _ _ _ = inr _ |- _ => apply update_active_inr in Hu as -> end.
  match goal with Ha : activate _ _ _ = inr _ |- _ => apply activate_inr in Ha as [_ ->] end. apply find_generation_some in Hfind as [Hg Hid].
  apply bool_decide_eq_true in Hreq. eexists _, [_]. repeat split; [exact Hg|done|by apply may_return].
Qed.

(** ** The pointers move together with the rows *)

(** What a generation that steps down becomes. *)
Definition stepped (f : GenerationRow -> GenerationRow) : Prop :=
  (forall g, g_id (f g) = g_id g) /\
  (forall g, g_state g = ACTIVE -> (g_state (f g) = RETIRED \/ g_state (f g) = READY) /\ g_activated (f g) = g_activated g).

Lemma retire_stepped now : stepped (retire now).
Proof. split; intros g; unfold retire; case_decide; [done|done|cbn; auto|done]. Qed.

Lemma restore_stepped : stepped restore_ready.
Proof. split; intros g; unfold restore_ready; case_decide; [done|done|cbn; auto|done]. Qed.

Definition switched_row (active : option string) (f : GenerationRow -> GenerationRow) (id : string) (now : Z) (g : GenerationRow) : GenerationRow :=
  if decide (g_id g = id) then serve now g else if decide (active = Some (g_id g)) then f g else g.

Lemma switched_rows active f id now d : stepped f -> active <> Some id ->
  db_generations (switched active f id now d) = map (switched_row active f id now) (db_generations d).
Proof.
  intros [Hf _] Ha. unfold switched. cbn. destruct active as [a|]; cbn [update_opt]; unfold update_row; rewrite ?map_map;
    apply map_ext; intros g; unfold switched_row.
  - destruct (decide (g_id g = a)) as [Hga|Hga].
    + rewrite Hf. assert (Hid : g_id g <> id) by congruence. rewrite !(decide_False (P := g_id g = id)) by done.
      by rewrite decide_True by congruence.
    + by rewrite (decide_False (P := Some a = Some (g_id g))) by congruence.
  - by rewrite (decide_False (P := None = Some (g_id g))) by done.
Qed.

Lemma switched_ids active f id now d : stepped f -> active <> Some id -> ids (switched active f id now d) = ids d.
Proof.
  intros Hf Ha. unfold ids. rewrite switched_rows by done. rewrite <-list_fmap_compose. apply list_fmap_ext. intros i g _. cbn.
  unfold switched_row. destruct Hf as [Hf _]. by repeat case_decide.
Qed.

Lemma named_pointer d id : well_formed d -> id ∈ ids d -> pointer (Some id) = Some id.
Proof. intros Hwf Hid. cbn. rewrite decide_False; [done|]. intros ->. by destruct (wf_named d Hwf). Qed.

Lemma switched_active active f id now d : well_formed d -> id ∈ ids d -> active_of (switched active f id now d) = Some id.
Proof. intros Hwf Hid. unfold active_of. cbn. by apply (named_pointer d). Qed.

Lemma switched_previous f id now d : well_formed d -> previous_of (switched (active_of d) f id now d) = active_of d.
Proof.
  intros Hwf. unfold previous_of. cbn. destruct (active_of d) as [a|] eqn:Ha; [|done].
  apply (named_pointer d); [done|]. by apply (wf_active_row d Hwf).
Qed.

Lemma not_active d g : well_formed d -> g ∈ db_generations d -> g_state g <> ACTIVE -> active_of d <> Some (g_id g).
Proof. intros Hwf Hg Hs Ha. apply Hs. by apply (wf_active d Hwf). Qed.

Lemma wf_switched d f g now : well_formed d -> stepped f -> g ∈ db_generations d -> g_state g = READY \/ g_state g = RETIRED ->
  well_formed (switched (active_of d) f (g_id g) now d).
Proof.
  intros Hwf Hf Hg Hst. assert (Hna : active_of d <> Some (g_id g)) by (apply not_active; [done..|]; destruct Hst; congruence).
  assert (Hin : g_id g ∈ ids d) by by apply list_elem_of_fmap_2.
  pose proof (switched_ids (active_of d) f (g_id g) now d Hf Hna) as Hids. destruct Hf as [Hfid Hfst].
  split; rewrite ?Hids, ?switched_active, ?switched_previous by done.
  - apply (wf_ids d Hwf).
  - apply (wf_named d Hwf).
  - intros x. rewrite switched_rows by done. intros (y & -> & Hy)%list_elem_of_fmap. unfold switched_row.
    destruct (decide (g_id y = g_id g)) as [Hyg|Hyg]; [by cbn; rewrite Hyg|].
    case_decide as Hya.
    + apply (wf_active d Hwf) in Hya as Hyst; [|done]. destruct (Hfst y Hyst) as [Hs _]. rewrite Hfid.
      split; [intros He; rewrite He in Hs; destruct Hs; done|intros [= He]; by destruct Hyg].
    + split; [intros Hs; by apply (wf_active d Hwf) in Hs|intros [= He]; by destruct Hyg].
  - by intros i [= <-].
  - intros i Hi. pose proof (wf_active_row d Hwf i Hi) as (y & -> & Hy)%list_elem_of_fmap.
    apply (wf_active d Hwf) in Hi as Hys; [|done]. destruct (Hfst y Hys) as [Hs _].
    exists (f y). rewrite switched_rows by done. split; [|split; [apply Hfid|done]]. apply list_elem_of_fmap. exists y. split; [|done].
    unfold switched_row. rewrite decide_False by congruence. by rewrite decide_True.
  - intros x. rewrite switched_rows by done. intros (y & -> & Hy)%list_elem_of_fmap. unfold switched_row.
    case_decide; [done|]. pose proof (wf_activated d Hwf y Hy) as Hact. case_decide as Hya; [|done].
    apply (wf_active d Hwf) in Hya as Hys; [|done]. rewrite Hys in Hact. destruct (Hfst y Hys) as [Hs Ha]. rewrite Ha. by destruct Hs as [-> | ->].
Qed.

(** ** Forgetting *)

Lemma scrub_sparse_inr l d u d' : scrub_sparse l d = inr (u, d') -> d' = set_sparse (filter (fun id => id ∉ l) (db_sparse d)) d.
Proof. unfold scrub_sparse. by rewrite modify_inr. Qed.

Lemma bind_ext_in {A B} (f g : A -> list B) l : (forall x, x ∈ l -> f x = g x) -> l ≫= f = l ≫= g.
Proof.
  induction l as [|x l IH]; intros H; [done|]. cbn. rewrite (H x) by by left. f_equal. apply IH. intros y Hy. apply H. by right.
Qed.

(** What an event says, its id and its time aside. *)
Definition described (e : AuditEvent) : string * option string * option string * value :=
  (au_type e, au_generation e, au_source e, au_payload e).

Lemma each_audit {A} (f : A -> tx unit) g l d u d' :
  (forall x d u d', f x d = inr (u, d') -> exists e, d' = set_audit (db_audit d ++ [e]) d /\ described e = g x) ->
  each f l d = inr (u, d') -> exists events, d' = set_audit (db_audit d ++ events) d /\ described <$> events = g <$> l.
Proof.
  intros Hf. revert d. induction l as [|x l IH]; intros d H; cbn [each] in H.
  - apply mret_inr in H as [_ ->]. exists []. by rewrite set_audit_nil.
  - apply tx_bind_inr in H as (v & d1 & H1 & H). apply Hf in H1 as (e & -> & He). apply IH in H as (events & -> & Hev).
    exists (e :: events). cbn. rewrite <-(assoc_L (++)), He, Hev. done.
Qed.

(** A manifest read from a row, and the fingerprint it gets. *)
Abbreviation entry := (string * (IndexManifestV1 * string))%type.

Definition recalibrated (now : Z) (x : entry * string) (l : list CalibrationRow) : list CalibrationRow :=
  if decide (x.2 = x.1.2.2) then l else map (supersede x.1.1 now) l.

Definition recorpus (x : entry * string) (l : list GenerationRow) : list GenerationRow := update_row x.1.1 (with_corpus x.2) l.

Lemma supersede_other id now c : cal_generation c <> id -> supersede id now c = c.
Proof. intros H. unfold supersede. rewrite decide_False; [done|]. by intros [? _]. Qed.

Lemma supersede_generation id now c : cal_generation (supersede id now c) = cal_generation c.
Proof. unfold supersede. by case_decide. Qed.

(** A calibration of a generation whose corpus moved is said to be invalidated. *)
Definition invalidation (previous corpus : string) (c : CalibrationRow) : string * option string * option string * value :=
  ("calibration_invalidated", Some (cal_generation c), None,
   VDict [("calibration_id", VStr (cal_id c)); ("reason", VStr "source forgotten; corpus fingerprint changed");
          ("previous_corpus_fingerprint", VStr previous); ("corpus_fingerprint", VStr corpus)]).

Definition published_rows (id : string) (l : list CalibrationRow) : list CalibrationRow :=
  filter (fun c => cal_generation c = id /\ cal_lifecycle c = "published") l.

(** What is said where the fingerprint of a generation moves. *)
Definition invalidations (cals : list CalibrationRow) (id previous corpus : string) : list (string * option string * option string * value) :=
  if decide (corpus = previous) then [] else invalidation previous corpus <$> published_rows id cals.

Lemma published_recalibrated now x l id : x.1.1 <> id -> published_rows id (recalibrated now x l) = published_rows id l.
Proof.
  intros Hx. unfold recalibrated. case_decide; [done|]. unfold published_rows. induction l as [|c l IH]; [done|].
  cbn [map]. rewrite !filter_cons, IH. destruct (decide (cal_generation c = x.1.1)) as [Hc|Hc].
  - rewrite !(decide_False (P := _ /\ _)); [done|intros [? _]; congruence|]. intros [Hg _]. rewrite supersede_generation in Hg. congruence.
  - by rewrite supersede_other.
Qed.

Lemma refresh_inr tombstoned now (x : entry) d u d' :
  refresh_generation json_dumps sha256_hex stamp self tombstoned now x d = inr (u, d') ->
  exists c events, effective_corpus_fingerprint json_dumps sha256_hex x.2.1 tombstoned = Ok c /\
    described <$> events = invalidations (db_calibrations d) x.1 x.2.2 c /\
    d' = set_audit (db_audit d ++ events)
           (set_calibrations (recalibrated now (x, c) (db_calibrations d)) (set_generations (recorpus (x, c) (db_generations d)) d)).
Proof.
  destruct x as [id [m previous]]. unfold refresh_generation, recalibrated, recorpus, invalidations. cbn [fst snd]. intros H. tx_all H.
  case_decide as Hc; tx_all H.
  - eexists _, []. split; [done|]. rewrite !decide_True by done. split; [done|]. cbn. rewrite app_nil_r. by destruct d.
  - match type of Hlift with _ = Ok ?corpus =>
      apply (each_audit _ (fun c => ("calibration_invalidated", Some id, None,
        VDict [("calibration_id", VStr (cal_id c)); ("reason", VStr "source forgotten; corpus fingerprint changed");
          ("previous_corpus_fingerprint", VStr previous); ("corpus_fingerprint", VStr corpus)]))) in H as (events & -> & Hev) end.
    + eexists _, events. rewrite !decide_False by done. split; [done|]. split; [|done]. rewrite Hev.
      unfold published, published_rows. cbn [db_calibrations set_generations]. apply list_fmap_ext. intros i c Hi.
      apply list_elem_of_lookup_2, list_elem_of_filter in Hi as [[<- _] _]. done.
    + intros y d0 v d1 Hy. tx_all Hy. eexists. split; [done|]. done.
Qed.

Lemma each_refresh tombstoned now (l : list entry) d u d' : NoDup l.*1 ->
  each (refresh_generation json_dumps sha256_hex stamp self tombstoned now) l d = inr (u, d') ->
  exists cs events, Forall2 (fun (x : entry) c => effective_corpus_fingerprint json_dumps sha256_hex x.2.1 tombstoned = Ok c) l cs /\
    described <$> events = zip l cs ≫= (fun x => invalidations (db_calibrations d) x.1.1 x.1.2.2 x.2) /\
    d' = set_audit (db_audit d ++ events)
           (set_calibrations (foldl (fun k x => recalibrated now x k) (db_calibrations d) (zip l cs))
              (set_generations (foldl (fun k x => recorpus x k) (db_generations d) (zip l cs)) d)).
Proof.
  revert d. induction l as [|x l IH]; intros d Hnd H; cbn [each] in H.
  - apply mret_inr in H as [_ ->]. exists [], []. split; [constructor|]. cbn. rewrite app_nil_r. by destruct d.
  - apply tx_bind_inr in H as (v & d1 & H1 & H). apply refresh_inr in H1 as (c & e1 & Hc & He1 & ->).
    inversion_clear Hnd as [|? ? Hx Hnd']. apply IH in H as (cs & e2 & Hcs & He2 & ->); [|done]. exists (c :: cs), (e1 ++ e2). split; [by constructor|]. split.
    + cbn [zip zip_with mbind list_bind]. rewrite fmap_app, He1, He2. f_equal.
      cbn [fst snd]. apply bind_ext_in. intros [y cy] Hy. cbn [fst snd db_calibrations set_audit set_calibrations]. unfold invalidations.
      rewrite published_recalibrated; [done|]. cbn. intros Hid. apply Hx. rewrite Hid. apply (list_elem_of_fmap_2 fst).
      by apply elem_of_zip_l in Hy.
    + cbn. by rewrite (assoc_L (++)).
Qed.

(** Fingerprints of distinct generations, set one after the other. *)
Definition corpora (l : list entry) (cs : list string) : list (string * string) := zip l.*1 cs.

Lemma recorpus_all (l : list entry) cs rows : NoDup l.*1 ->
  foldl (fun k x => recorpus x k) rows (zip l cs) =
  map (fun g => match odict_get (g_id g) (corpora l cs) with Some c => with_corpus c g | None => g end) rows.
Proof.
  revert cs rows. induction l as [|x l IH]; intros cs rows Hnd.
  - cbn. by rewrite map_id.
  - destruct cs as [|c cs]; [cbn; by rewrite map_id|]. inversion_clear Hnd as [|? ? Hx Hnd']. cbn [zip foldl zip_with].
    rewrite IH by done. unfold recorpus, update_row. rewrite map_map. apply map_ext. intros g. cbn.
    destruct (decide (g_id g = x.1)) as [Hid|Hid]; [|done]. cbn. rewrite Hid.
    destruct (odict_get x.1 (corpora l cs)) eqn:Hg; [|done]. exfalso. apply Hx. apply odict_get_in in Hg.
    apply (elem_of_zip_l _ _ _ _ Hg).
Qed.

Definition changed (l : list entry) (cs : list string) (id : string) : bool :=
  existsb (fun x => bool_decide (x.1.1 = id) && negb (bool_decide (x.2 = x.1.2.2))) (zip l cs).

Lemma supersede_twice id now c : supersede id now (supersede id now c) = supersede id now c.
Proof.
  unfold supersede at 2 3. case_decide as H1; unfold supersede; rewrite decide_False; [done|by intros [_ ?]|done..].
Qed.

Lemma recalibrated_all now (l : list entry) cs rows :
  foldl (fun k x => recalibrated now x k) rows (zip l cs) =
  map (fun c => if changed l cs (cal_generation c) then supersede (cal_generation c) now c else c) rows.
Proof.
  revert cs rows. induction l as [|x l IH]; intros cs rows; [cbn; by rewrite map_id|].
  destruct cs as [|c cs]; [cbn; by rewrite map_id|]. cbn [zip foldl zip_with]. rewrite IH. unfold recalibrated. cbn [fst snd].
  unfold changed at 2. cbn [zip zip_with existsb fst snd].
  case_decide as Hc.
  - apply map_ext. intros r. by rewrite (bool_decide_true (c = x.2.2)), andb_false_r by done.
  - rewrite map_map. apply map_ext. intros r. rewrite supersede_generation, (bool_decide_false (c = x.2.2)), andb_true_r by done.
    fold (changed l cs (cal_generation r)). case_bool_decide as Hid; cbn.
    + subst. rewrite Hid. rewrite <-Hid. destruct (changed l cs _); [|done]. apply supersede_twice.
    + by rewrite (supersede_other x.1) by congruence.
Qed.

(** The manifests [forget] reads: one per row it may change, in their order. *)
Lemma read_manifest_ok g l : read_manifest py_str bracketed_ok g = Ok l ->
  match g_manifest g with
  | VDict raw => exists m, manifest_from_dict py_str bracketed_ok raw = Ok m /\ l = [(g_id g, (m, g_corpus_fingerprint g))]
  | _ => l = []
  end.
Proof.
  unfold read_manifest. destruct (g_manifest g); [by intros [= <-]..|]. rewrite bind_ok. intros (m & Hm & [= <-]). by exists m.
Qed.

Lemma read_manifests_ok rows l : read_manifests py_str bracketed_ok rows = Ok l ->
  l.*1 `sublist_of` (g_id <$> rows) /\
  (forall g, g ∈ rows -> match g_manifest g with
     | VDict raw => exists m, manifest_from_dict py_str bracketed_ok raw = Ok m /\ (g_id g, (m, g_corpus_fingerprint g)) ∈ l
     | _ => True end).
Proof.
  unfold read_manifests. intros H. destruct (result_mapM _ rows) as [k|] eqn:Hk; [|done]. injection H as <-.
  apply result_mapM_ok in Hk. induction Hk as [|g y rows k Hg _ IH]; [split; [constructor|by intros ? ?%not_elem_of_nil]|].
  apply read_manifest_ok in Hg. destruct IH as [Hsub Hin]. cbn [concat]. split.
  - rewrite fmap_app, fmap_cons. destruct (g_manifest g); try (subst y; cbn; by constructor). destruct Hg as (m & _ & ->). cbn. by constructor.
  - intros g' [->|Hg']%elem_of_cons.
    + destruct (g_manifest g); try done. destruct Hg as (m & Hm & ->). exists m. split; [done|]. apply elem_of_app. left. by left.
    + specialize (Hin g' Hg'). destruct (g_manifest g'); try done. destruct Hin as (m & Hm & Hl). exists m.
      split; [done|]. apply elem_of_app. by right.
Qed.

(** A supersession record of a source, as the event that says it. *)
Definition removal_record (withdraw : bool) (uri : string) (e : AuditEvent) : Prop :=
  au_type e = record_kind withdraw /\ au_source e = Some uri.

(** The rows an adopted table keeps of what it held, and those it loses. *)
Definition legacy_rows (table : option string) (d : db) : list ChunkRow :=
  match table with Some t => default [] (odict_get t (db_legacy d)) | None => [] end.

Definition legacy_left (table : option string) (uri : string) (d : db) : list (string * list ChunkRow) :=
  match table with
  | Some t => match odict_get t (db_legacy d) with
              | Some rows => odict_set t (filter (fun c => cr_source c <> uri) rows) (db_legacy d)
              | None => db_legacy d
              end
  | None => db_legacy d
  end.

Lemma forget_legacy_inr table uri withdraw d n d' :
  forget_legacy json_text isoformat fromisoformat stamp table uri withdraw d = inr (n, d') ->
  n = length (filter (fun c => cr_source c = uri) (legacy_rows (Some table) d)) /\
  exists events, (length events <= 1)%nat /\ Forall (removal_record withdraw uri) events /\
    d' = set_audit (db_audit d ++ events) (set_legacy (legacy_left (Some table) uri d) d).
Proof.
  unfold forget_legacy. intros Ht. tx_all Ht. unfold legacy_rows, legacy_left. destruct (odict_get table _) as [rows|].
  - tx_all Ht. split; [done|]. cbn [db_audit set_legacy] in Hlift.
    match type of Hlift with _ = Ok ?rec => destruct rec as [ledger' k] end.
    apply removal_events in Hlift as (events & -> & Hlen & Hev). by exists events.
  - tx_all Ht. split; [done|]. exists []. split; [cbn; lia|]. split; [constructor|]. destruct d. cbn. by rewrite app_nil_r.
Qed.

Lemma record_removals_one scope uri withdraw d n d' :
  record_removals json_text isoformat fromisoformat stamp scope [uri] withdraw d = inr (n, d') ->
  exists events, (length events <= 1)%nat /\ Forall (removal_record withdraw uri) events /\ d' = set_audit (db_audit d ++ events) d.
Proof.
  unfold record_removals. intros H. tx_all H. match type of Hlift with _ = Ok ?rec => destruct rec as [ledger' k] end.
  apply removal_events in Hlift as (events & -> & Hlen & Hev). by exists events.
Qed.

(** The rows of a source that the selected generations hold. *)
Definition erased_row (selected : list string) (uri : string) (c : ChunkRow) : bool :=
  bool_decide (cr_generation c ∈ selected) && bool_decide (cr_source c = uri).

Definition selected_ids (d : db) : list string := sorted_set (protected_ids d ++ map g_id (mutable_rows d)).

(** A tombstone is raised once. *)
Definition entombed (uri event : string) (now : Z) (d : db) : list Tombstone :=
  if is_tombstoned uri d then db_tombstones d else db_tombstones d ++ [{| ts_source := uri; ts_event := event; ts_erased := now |}].

(** The event [forget] opens with. *)
Definition forgotten_event (uri : string) (d : db) : AuditEvent :=
  event_of d "source_forgotten" None (Some uri) [("generation_ids", VList (map VStr (selected_ids d)))].

(** What [forget] answers, and the tables it leaves. *)
Record forgotten (uri : string) (legacy_table : option string) (withdraw : bool) (now : Z) (d : db) (r : ErasureResult) (d' : db) : Prop := {
  fg_result : er_source r = uri /\ er_generations r = selected_ids d /\ er_event r = au_id (forgotten_event uri d) /\
    er_removed r = (length (filter (fun c => erased_row (selected_ids d) uri c = true) (db_chunks d)) +
                    length (filter (fun c => cr_source c = uri) (legacy_rows legacy_table d)))%nat;
  fg_state : db_state d' = db_state d;
  fg_tombstones : db_tombstones d' = entombed uri (er_event r) now d;
  fg_chunks : db_chunks d' = filter (fun c => erased_row (selected_ids d) uri c = false) (db_chunks d);
  fg_sparse : db_sparse d' = filter (fun id => id ∉ map cr_id (filter (fun c => erased_row (selected_ids d) uri c = true) (db_chunks d))) (db_sparse d);
  fg_legacy : db_legacy d' = legacy_left legacy_table uri d;
  fg_rows : exists (l : list entry) cs, read_manifests py_str bracketed_ok (mutable_rows d) = Ok l /\
    Forall2 (fun (x : entry) c => effective_corpus_fingerprint json_dumps sha256_hex x.2.1 (map ts_source (db_tombstones d')) = Ok c) l cs /\
    db_generations d' = foldl (fun k x => recorpus x k) (db_generations d) (zip l cs) /\
    db_calibrations d' = foldl (fun k x => recalibrated now x k) (db_calibrations d) (zip l cs) /\
    exists moved records, db_audit d' = db_audit d ++ forgotten_event uri d :: moved ++ records /\
      described <$> moved = zip l cs ≫= (fun x => invalidations (db_calibrations d) x.1.1 x.1.2.2 x.2) /\
      (length records <= 2)%nat /\ Forall (removal_record withdraw uri) records
}.

Lemma entomb uri event now e d :
  (if is_tombstoned uri (set_audit e d) then set_audit e d
   else set_tombstones (db_tombstones (set_audit e d) ++ [{| ts_source := uri; ts_event := event; ts_erased := now |}]) (set_audit e d)) =
  set_audit e (set_tombstones (entombed uri event now d) d).
Proof. unfold entombed. change (is_tombstoned uri (set_audit e d)) with (is_tombstoned uri d). case_match; [by destruct d|done]. Qed.

Lemma forget_step uri legacy_table withdraw now d r d' : NoDup (ids d) -> forget_ uri legacy_table withdraw now d = (inr r, d') ->
  uri <> "" /\ forgotten uri legacy_table withdraw now d r d'.
Proof.
  intros Hids. unfold forget. case_decide as Huri; [done|]. rewrite transaction_inr. fold (selected_ids d). intros Ht. split; [done|].
  do 2 (apply tx_bind_inr in Ht as (? & ? & H1 & Ht); first [apply get_inr in H1 as [-> ->]|apply lift_inr in H1 as [Hl ->]]).
  apply tx_bind_inr in Ht as (event & d1 & H1 & Ht). apply audit_inr in H1 as [-> ->].
  change (event_of d _ None (Some uri) _) with (forgotten_event uri d) in Ht.
  apply tx_bind_inr in Ht as ([] & d1 & H1 & Ht). apply modify_inr in H1. rewrite entomb in H1.
  change (stamp (length (db_audit d))).1 with (au_id (forgotten_event uri d)) in *.
  remember (entombed uri (au_id (forgotten_event uri d)) now d) as stones eqn:Hst. subst d1.
  apply tx_bind_inr in Ht as (? & ? & H1 & Ht). apply get_inr in H1 as [-> ->].
  assert (Hnd : NoDup x.*1).
  { eapply sublist_NoDup; [|apply (read_manifests_ok _ _ Hl)]. eapply sublist_NoDup; [exact Hids|].
    unfold ids, mutable_rows. apply fmap_sublist, sublist_filter. }
  apply tx_bind_inr in Ht as ([] & d1 & H1 & Ht). apply each_refresh in H1 as (cs & moved & Hcs & Hmoved & ->); [|done].
  cbn [db_tombstones db_calibrations set_audit set_tombstones] in Hcs, Hmoved.
  apply tx_bind_inr in Ht as (? & ? & H1 & Ht). apply get_inr in H1 as [-> ->].
  apply tx_bind_inr in Ht as (n & d1 & H1 & Ht). apply record_removals_one in H1 as (recs1 & Hlen1 & Hrec1 & ->).
  apply tx_bind_inr in Ht as (? & ? & H1 & Ht). apply get_inr in H1 as [-> ->].
  apply tx_bind_inr in Ht as ([] & d1 & H1 & Ht). apply modify_inr in H1 as ->.
  apply tx_bind_inr in Ht as ([] & d1 & H1 & Ht). apply scrub_sparse_inr in H1 as ->.
  apply tx_bind_inr in Ht as (m & d1 & H1 & Ht). apply mret_inr in Ht as [-> ->].
  assert (exists recs2, (length recs2 <= 1)%nat /\ Forall (removal_record withdraw uri) recs2 /\
    m = length (filter (fun c => cr_source c = uri) (legacy_rows legacy_table d)) /\
    d1 = set_audit (db_audit d ++ forgotten_event uri d :: moved ++ recs1 ++ recs2) (set_legacy (legacy_left legacy_table uri d)
      (set_sparse (filter (fun id => id ∉ map cr_id (filter (fun c => erased_row (selected_ids d) uri c = true) (db_chunks d))) (db_sparse d))
      (set_chunks (filter (fun c => erased_row (selected_ids d) uri c = false) (db_chunks d))
      (set_calibrations (foldl (fun k x => recalibrated now x k) (db_calibrations d) (zip x cs))
      (set_generations (foldl (fun k x => recorpus x k) (db_generations d) (zip x cs))
      (set_tombstones stones d))))))) as (recs2 & Hlen2 & Hrec2 & -> & ->).
  { destruct legacy_table as [table|].
    - apply forget_legacy_inr in H1 as (Hm & recs2 & Hlen & Hrec & ->). exists recs2. split_and!; [done..|].
      cbn. by rewrite <-!(assoc_L (++)).
    - apply mret_inr in H1 as [-> ->]. exists []. split; [cbn; lia|]. split; [constructor|]. split; [done|].
      cbn. rewrite app_nil_r, <-!(assoc_L (++)). by destruct d. }
  split; [done|done|by subst|done|done|done|]. exists x, cs. split; [done|]. split; [done|]. split; [done|]. split; [done|].
  exists moved, (recs1 ++ recs2). split; [done|]. split; [done|]. rewrite length_app, Forall_app. split; [lia|done].
Qed.

(** ** The invariant, operation by operation *)

(** The columns the invariant reads. *)
Definition key_of (g : GenerationRow) : string * GenerationState * option Z := (g_id g, g_state g, g_activated g).

Lemma wf_keys d d' : key_of <$> db_generations d' = key_of <$> db_generations d -> db_state d' = db_state d ->
  well_formed d -> well_formed d'.
Proof.
  intros Hk Hs [H1 H2 H3 H4 H5 H6].
  assert (Hids : ids d' = ids d).
  { unfold ids. apply (f_equal (fmap (fun k => k.1.1))) in Hk. by rewrite <-!list_fmap_compose in Hk. }
  assert (Hto : forall g', g' ∈ db_generations d' -> exists g, g ∈ db_generations d /\ key_of g = key_of g').
  { intros g' Hg'. apply (list_elem_of_fmap_2 key_of) in Hg'. rewrite Hk in Hg'.
    apply list_elem_of_fmap in Hg' as (g & Heq & Hg). by exists g. }
  assert (Hfrom : forall g, g ∈ db_generations d -> exists g', g' ∈ db_generations d' /\ key_of g = key_of g').
  { intros g Hg. apply (list_elem_of_fmap_2 key_of) in Hg. rewrite <-Hk in Hg.
    apply list_elem_of_fmap in Hg as (g' & Heq & Hg). by exists g'. }
  assert (Ha : active_of d' = active_of d) by (unfold active_of; by rewrite Hs).
  assert (Hp : previous_of d' = previous_of d) by (unfold previous_of; by rewrite Hs).
  split; rewrite ?Hids, ?Ha, ?Hp; try done.
  - intros g' (g & Hg & [= <- <- _])%Hto. by apply H3.
  - intros id Hid. destruct (H5 id Hid) as (g & (g' & Hg' & [= Hi Hst _])%Hfrom & Hgid & Hgst). exists g'.
    by rewrite <-Hi, <-Hst.
  - intros g' (g & Hg & [= _ <- <-])%Hto. by apply H6.
Qed.

Lemma wf_create d row : well_formed d -> g_id row ∉ ids d -> g_id row <> "" -> g_state row = BUILDING -> g_activated row = None ->
  well_formed (set_state (state_ensured d) (set_generations (db_generations d ++ [row]) d)).
Proof.
  intros Hwf Hnew Hne Hst Hac. assert (Hids : ids (set_state (state_ensured d) (set_generations (db_generations d ++ [row]) d)) = ids d ++ [g_id row]).
  { unfold ids. cbn. by rewrite fmap_app. }
  assert (Ha : active_of (set_state (state_ensured d) (set_generations (db_generations d ++ [row]) d)) = active_of d)
    by (unfold active_of, state_ensured; cbn; by destruct (db_state d)).
  assert (Hp : previous_of (set_state (state_ensured d) (set_generations (db_generations d ++ [row]) d)) = previous_of d)
    by (unfold previous_of, state_ensured; cbn; by destruct (db_state d)).
  split; rewrite ?Hids, ?Ha, ?Hp.
  - apply NoDup_app. split; [apply (wf_ids d Hwf)|]. split; [|apply NoDup_singleton]. by intros x Hx ->%list_elem_of_singleton.
  - rewrite elem_of_app, list_elem_of_singleton. intros [?|?]; [by apply (wf_named d Hwf)|done].
  - intros g [Hg| ->%list_elem_of_singleton]%elem_of_app; [by apply (wf_active d Hwf)|]. rewrite Hst.
    split; [done|]. intros Hx%(wf_active_row d Hwf). done.
  - intros id Hid. apply elem_of_app. left. by apply (wf_active_row d Hwf).
  - intros id Hid. destruct (wf_previous d Hwf id Hid) as (g & Hg & ?). exists g. split; [|done]. apply elem_of_app. by left.
  - intros g [Hg| ->%list_elem_of_singleton]%elem_of_app; [by apply (wf_activated d Hwf)|]. by rewrite Hst.
Qed.

Lemma recorpora_keys (l : list entry) cs rows : key_of <$> foldl (fun k x => recorpus x k) rows (zip l cs) = key_of <$> rows.
Proof.
  revert cs rows. induction l as [|x l IH]; intros [|c cs] rows; [done..|]. cbn [zip zip_with foldl]. rewrite IH.
  unfold recorpus, update_row. rewrite <-list_fmap_compose. apply list_fmap_ext. intros i g _. cbn. by case_decide.
Qed.

Lemma wf_forgotten uri legacy_table withdraw now d r d' : well_formed d -> forgotten uri legacy_table withdraw now d r d' -> well_formed d'.
Proof.
  intros Hwf [_ Hs _ _ _ _ (l & cs & _ & _ & Hg & _)]. apply (wf_keys d); [|done..]. rewrite Hg. apply recorpora_keys.
Qed.

(** Collecting rows that neither pointer names. *)
Lemma wf_delete d l : well_formed d -> (forall id, id ∈ l -> id ∉ protected_ids d) -> well_formed (delete_generations l d).
Proof.
  intros Hwf Hfree.
  assert (Hact : forall id, active_of d = Some id -> id ∉ l).
  { intros id Hid Hl. apply (Hfree id Hl). unfold protected_ids. rewrite Hid. by left. }
  assert (Hprev : forall id, previous_of d = Some id -> id ∉ l).
  { intros id Hid Hl. apply (Hfree id Hl). unfold protected_ids. rewrite Hid. apply elem_of_app. right. by left. }
  assert (Hin : forall g, g ∈ db_generations (delete_generations l d) <-> g_id g ∉ l /\ g ∈ db_generations d).
  { intros g. cbn. by rewrite list_elem_of_filter. }
  split.
  - eapply sublist_NoDup; [apply (wf_ids d Hwf)|]. unfold ids. apply fmap_sublist. apply sublist_filter.
  - intros (g & Hid & [_ Hg]%Hin)%list_elem_of_fmap. apply (wf_named d Hwf). rewrite Hid. by apply list_elem_of_fmap_2.
  - intros g [_ Hg]%Hin. by apply (wf_active d Hwf).
  - intros id Hid. specialize (Hact id Hid) as Hl. apply (wf_active_row d Hwf) in Hid as (g & -> & Hg)%list_elem_of_fmap.
    apply list_elem_of_fmap_2. by apply Hin.
  - intros id Hid. specialize (Hprev id Hid) as Hl. destruct (wf_previous d Hwf id Hid) as (g & Hg & <- & ?). exists g.
    split; [by apply Hin|done].
  - intros g [_ Hg]%Hin. by apply (wf_activated d Hwf).
Qed.

(** ** A collection *)

Lemma gc_inr now days retain d l d' : gc_ now days retain d = (inr l, d') ->
  0 <= days /\ 0 <= retain /\ l = gc_plan now days retain d /\
  (l = [] /\ d' = d \/ exists events, d' = set_audit events (set_sparse (filter (fun id => id ∉ map cr_id (filter (fun c => cr_generation c ∈ l) (db_chunks d))) (db_sparse d))
                                        (delete_generations l d))).
Proof.
  unfold gc. case_decide as Hneg; [done|]. rewrite transaction_inr. intros Ht.
  apply tx_bind_inr in Ht as (? & ? & H1 & Ht). apply get_inr in H1 as [-> ->].
  split; [lia|]. split; [lia|]. case_decide as Hd.
  - apply mret_inr in Ht as [-> ->]. auto.
  - apply tx_bind_inr in Ht as ([] & d1 & H1 & Ht). apply modify_inr in H1 as ->.
    apply tx_bind_inr in Ht as ([] & d1 & H1 & Ht). apply scrub_sparse_inr in H1 as ->.
    apply tx_bind_inr in Ht as (e & d1 & H1 & Ht). apply audit_inr in H1 as [_ ->]. apply mret_inr in Ht as [-> ->].
    split; [done|]. right. by eexists.
Qed.

Lemma gc_plan_collected now days retain d id : id ∈ gc_plan now days retain d <->
  exists p g q, collectable d = p ++ g :: q /\ id = g_id g /\
    collected (protected_ids d) (if previous_of d then 1 else 0) retain (now - days * day_micros) p g.
Proof. unfold gc_plan. apply (gc_fold (protected_ids d) retain (now - days * day_micros) (if previous_of d then 1 else 0) (collectable d)). Qed.

(** ** Steps of a tenant *)

(** What moves a tenant's database: the operations, whatever they answer, and writers that leave
    the pointers and the rows' ids, states and activation times alone (a build writing chunks, a
    calibration, a graph). *)
Inductive lifecycle (d : db) : db -> Prop :=
| step_create m p allow generation_id new_id dimension fts now :
    new_id <> "" -> lifecycle d (create_ m p allow generation_id new_id dimension fts now d).2
| step_mark_validating id summary expected now : lifecycle d (mark_validating stamp self id summary expected now d).2
| step_fail id reason : lifecycle d (fail stamp self id reason d).2
| step_abandon id reason : lifecycle d (abandon stamp self id reason d).2
| step_validate id now : lifecycle d (validate_ id now d).2
| step_promote id unsafe now : lifecycle d (promote_ id unsafe now d).2
| step_rollback reason now : lifecycle d (rollback_ reason now d).2
| step_forget uri legacy_table withdraw now : lifecycle d (forget_ uri legacy_table withdraw now d).2
| step_gc now days retain : lifecycle d (gc_ now days retain d).2
| step_other d' : key_of <$> db_generations d' = key_of <$> db_generations d -> db_state d' = db_state d -> lifecycle d d'.

Lemma op_keeps {A} (t : tx A) d : well_formed d ->
  (forall r d', transaction t d = (inr r, d') -> well_formed d') -> well_formed (transaction t d).2.
Proof.
  intros Hwf Ht. destruct (transaction t d) as [[e|r] d'] eqn:Heq; cbn; [|by eapply Ht].
  by apply transaction_inl in Heq as [_ ->].
Qed.

Lemma wf_audited events d : well_formed d -> well_formed (set_audit events d).
Proof. by apply well_formed_core. Qed.

(** A row being built or failed is changed without touching the pointers. *)
Lemma wf_update_building d g f : well_formed d -> g ∈ db_generations d -> g_state g ∈ [BUILDING; VALIDATING; FAILED] ->
  (forall x, g_id (f x) = g_id x) ->
  (match g_state (f g) with ACTIVE | RETIRED => False | BUILDING | VALIDATING => g_activated (f g) = None | _ => True end) ->
  well_formed (set_generations (update_row (g_id g) f (db_generations d)) d).
Proof.
  intros Hwf Hg Hs Hf Hk. apply wf_update_free; [done|by apply not_protected_state..|done|].
  intros x Hx Hid. assert (x = g) as -> by (apply (rows_distinct (db_generations d)); [apply (wf_ids d Hwf)|done..]). done.
Qed.

Lemma wf_fail id reason d : well_formed d -> well_formed (fail stamp self id reason d).2.
Proof.
  intros Hwf. apply op_keeps; [done|]. intros r d' (g & e & Hg & <- & Hs & ->)%fail_step.
  by apply wf_audited, wf_update_building.
Qed.

Lemma wf_validate id now d : well_formed d -> well_formed (validate_ id now d).2.
Proof.
  intros Hwf. unfold validate. destruct (transaction _ d) as [[e|r] d'] eqn:Heq.
  - apply transaction_inl in Heq as [_ ->]. assert (Hgen : forall e, well_formed (match fail stamp self id (failure_text e) d with
      | (inr _, d'') => (inl e : gexn + (nat * nat), d'') | (inl e', d'') => (inl (if invalid_transition e' then e else e'), d'') end).2).
    { intros e0. pose proof (wf_fail id (failure_text e0) d Hwf) as Hf. by destruct (fail stamp self id _ d) as [[|] ?]. }
    destruct e; first [done|apply Hgen].
  - apply transaction_inr in Heq. apply validate_rows_step in Heq as (g & summary & events & Hg & <- & Hs & ->).
    apply wf_audited, wf_update_building; [done|done|rewrite Hs; apply unfinished_states|done|done].
Qed.

Lemma wf_promote id unsafe now d n d1 : well_formed d -> promote_ id unsafe now d = (inr n, d1) -> well_formed d1.
Proof.
  intros Hwf (g & e & Hg & <- & Hs & _ & _ & ->)%promote_step. apply wf_audited, wf_switched; [done|apply retire_stepped|done|by left].
Qed.

Lemma wf_rollback reason now d r d1 : well_formed d -> rollback_ reason now d = (inr r, d1) -> well_formed d1.
Proof.
  intros Hwf (g & e & Hp & Hg & <- & Hs & ->)%rollback_step. apply wf_audited, wf_switched; [done|apply restore_stepped|done|by apply or_comm].
Qed.

Lemma wf_step d d' : well_formed d -> lifecycle d d' -> well_formed d'.
Proof.
  intros Hwf []; first [by apply wf_validate|by apply (wf_keys d)|apply op_keeps; [done|]|idtac].
  - intros r d1 (Hid & Hnew & Hst & Hac & _ & e & ->)%create_step. apply wf_audited, wf_create; try done.
    rewrite Hid. unfold or_else. destruct generation_id; [by case_decide|done].
  - intros r d1 (g & e & Hg & <- & Hs & ->)%mark_validating_step. apply wf_audited, wf_update_building; [done|done|rewrite Hs; apply unfinished_states|done|].
    cbn. pose proof (wf_activated d Hwf g Hg) as Ha. by rewrite Hs in Ha.
  - intros r d1 (g & e & Hg & <- & Hs & ->)%fail_step. by apply wf_audited, wf_update_building.
  - intros r d1 (g & e & Hg & <- & Hs & Hp & ->)%abandon_step. apply wf_audited, wf_update_free; [done|..|done|done].
    + intros Ha. apply Hp. unfold protected_ids. rewrite Ha. by left.
    + intros Ha. apply Hp. unfold protected_ids. rewrite Ha. apply elem_of_app. right. by left.
  - intros r d1. by apply wf_promote.
  - intros r d1. by apply wf_rollback.
  - destruct (forget_ _ _ _ _ d) as [[e|r] d1] eqn:Heq; cbn.
    + revert Heq. unfold forget. case_decide; [by intros [= _ <-]|]. by intros [_ ->]%transaction_inl.
    + apply forget_step in Heq as [_ Hf]; [by eapply wf_forgotten|apply (wf_ids d Hwf)].
  - destruct (gc_ _ _ _ d) as [[e|l] d1] eqn:Heq; cbn.
    + revert Heq. unfold gc. case_decide; [by intros [= _ <-]|]. by intros [_ ->]%transaction_inl.
    + apply gc_inr in Heq as (_ & _ & -> & [[_ ->]|[events ->]]); [done|]. apply wf_audited.
      apply (well_formed_core (delete_generations (gc_plan now days retain d) d)); [done|done|]. apply wf_delete; [done|].
      intros id (p & g & q & _ & -> & Hc & _)%gc_plan_collected. done.
Qed.

(** ** Rolling back *)

Lemma rollback_total reason now d id : well_formed d -> previous_of d = Some id -> exists d', rollback_ reason now d = (inr id, d').
Proof.
  intros Hwf Hp. destruct (wf_previous d Hwf id Hp) as (g & Hg & <- & Hs).
  assert (Hf : find_generation (g_id g) d = Some g) by (apply find_generation_row; [apply (wf_ids d Hwf)|done]).
  assert (Hr : require_generation (g_id g) d = inr (g, d)) by by apply require_generation_inr.
  assert (Ha : active_of d <> Some (g_id g)) by (apply not_active; [done..|destruct Hs; congruence]).
  set (rows := update_opt (active_of d) restore_ready (db_generations d)).
  assert (Hu : update_active (active_of d) restore_ready d = inr (tt, set_generations rows d)).
  { unfold update_active, rows. by destruct (active_of d); [|destruct d]. }
  assert (Hact : activate (g_id g) now (set_generations rows d) =
    inr (tt, set_generations (update_row (g_id g) (serve now) rows) (set_generations rows d))).
  { apply activate_inr. split; [|done]. apply Forall_forall. intros x Hx Hxs. exfalso. cbn [db_generations set_generations] in Hx.
    unfold rows, update_opt in Hx. destruct (active_of d) as [a|] eqn:Hao.
    - apply elem_of_update_row in Hx as (y & Hy & ->). case_decide as Hya.
      + subst a. assert (Hys : g_state y = ACTIVE) by by apply (wf_active d Hwf).
        destruct restore_stepped as [_ Hrs]. destruct (Hrs y Hys) as [[Hst|Hst] _]; congruence.
      + apply (wf_active d Hwf) in Hxs; [|done]. congruence.
    - apply (wf_active d Hwf) in Hxs; [congruence|done]. }
  unfold rollback, transaction, mbind, tx_bind, get. rewrite Hp, Hr. cbn [require_that].
  rewrite bool_decide_true by by apply may_return. cbn [require_that mret tx_ret].
  rewrite Hu, Hact. cbn [modify]. by eexists.
Qed.

(** A pointer moved and moved back. *)
Lemma switched_other active f id now d g : stepped f -> active <> Some id -> g ∈ db_generations d -> g_id g <> id -> active <> Some (g_id g) ->
  g ∈ db_generations (switched active f id now d).
Proof.
  intros Hf Ha Hg Hid Hag. rewrite switched_rows by done. apply list_elem_of_fmap. exists g. split; [|done].
  unfold switched_row. by rewrite !decide_False.
Qed.

(** Where the pointers stand after a switch. *)
Lemma switched_pointers f g now d d' events : well_formed d -> g ∈ db_generations d ->
  d' = set_audit events (switched (active_of d) f (g_id g) now d) -> active_of d' = Some (g_id g) /\ previous_of d' = active_of d.
Proof.
  intros Hwf Hg ->. split.
  - apply (switched_active (active_of d) f (g_id g) now d Hwf). by apply list_elem_of_fmap_2.
  - apply (switched_previous f (g_id g) now d Hwf).
Qed.

(** C7: whatever the lifecycle's operations do, in any order and with any outcome, ids stay
    distinct, exactly the row the active pointer names is active, the previous pointer names
    another row that can serve again, and a row has been activated when it is active or retired
    and has not while it is built. *)
Theorem lifecycle_invariant d d' : well_formed d -> rtc lifecycle d d' -> well_formed d'.
Proof. intros Hwf Hr. revert Hwf. induction Hr as [|x y z Hxy _ IH]; [done|]. intros Hwf. apply IH. by eapply wf_step. Qed.

(** C8: a promotion that is refused changes nothing. One that returns had a ready target, and a
    certified one without the development override when the tenant is served under production;
    it retires the active generation, serves the target, moves the two pointers, and leaves the
    other rows, the chunks and the recorded events in place. *)
Theorem promote_exact id unsafe now d : well_formed d ->
  match promote_ id unsafe now d with
  | (inl _, d') => d' = d
  | (inr _, d') =>
      (exists g, g ∈ db_generations d /\ g_id g = id /\ g_state g = READY) /\
      unsafe = negb (certification_required self) /\
      (certification_required self = true -> resolve_calibration (set_state (state_ensured d) d) id = Some "certified") /\
      active_of d' = Some id /\ previous_of d' = active_of d /\
      db_generations d' = map (switched_row (active_of d) (retire now) id now) (db_generations d) /\
      db_chunks d' = db_chunks d /\ exists events, db_audit d' = db_audit d ++ events
  end.
Proof.
  intros Hwf. destruct (promote_ id unsafe now d) as [[e|n] d'] eqn:Hp.
  - unfold promote in Hp. by apply transaction_inl in Hp as [_ ->].
  - apply promote_step in Hp as (g & events & Hg & <- & Hs & Hu & Hc & ->).
    assert (Hna : active_of d <> Some (g_id g)) by (apply not_active; [done..|congruence]).
    split; [by exists g|]. split; [done|]. split; [done|].
    destruct (switched_pointers (retire now) g now d _ (db_audit d ++ events) Hwf Hg eq_refl) as [Ha Hpr].
    split; [done|]. split; [done|]. split; [by apply switched_rows; [apply retire_stepped|]|].
    split; [done|]. by exists events.
Qed.

(** C19: a rollback after a promotion always succeeds, serves the generation that was active
    before and keeps the promoted one as the previous, ready to serve: rolling back once more
    always succeeds too and serves it again. The chunks stay as they were. *)
Theorem rollback_undoes_promotion id unsafe now n d d1 a : well_formed d -> active_of d = Some a ->
  promote_ id unsafe now d = (inr n, d1) ->
  forall reason now2, exists d2, rollback_ reason now2 d1 = (inr a, d2) /\
    active_of d2 = Some a /\ previous_of d2 = Some id /\ db_chunks d2 = db_chunks d /\
    (exists g, g ∈ db_generations d2 /\ g_id g = id /\ g_state g = READY) /\
    (forall g, g ∈ db_generations d -> g_id g <> a -> g_id g <> id -> g ∈ db_generations d2) /\
    forall reason' now3, exists d3, rollback_ reason' now3 d2 = (inr id, d3) /\
      active_of d3 = Some id /\ previous_of d3 = Some a /\ db_chunks d3 = db_chunks d.
Proof.
  intros Hwf Ha Hp reason now2.
  assert (Hwf1 : well_formed d1) by by by eapply wf_promote.
  apply promote_step in Hp as (g & events & Hg & <- & Hs & _ & _ & Hd1).
  assert (Hna : active_of d <> Some (g_id g)) by (apply not_active; [done..|congruence]).
  destruct (switched_pointers _ g _ d d1 _ Hwf Hg Hd1) as [Hact1 Hprev1]. rewrite Ha in Hprev1.
  destruct (rollback_total reason now2 d1 a Hwf1 Hprev1) as [d2 Hr2]. exists d2. split; [done|].
  assert (Hwf2 : well_formed d2) by by by eapply wf_rollback.
  apply rollback_step in Hr2 as (x & events2 & _ & Hx & <- & Hxs & Hd2).
  assert (Hna1 : active_of d1 <> Some (g_id x)) by (apply not_active; [done..|destruct Hxs; congruence]).
  destruct (switched_pointers _ x _ d1 d2 _ Hwf1 Hx Hd2) as [Hact2 Hprev2]. rewrite Hact1 in Hprev2.
  assert (Hch2 : db_chunks d2 = db_chunks d) by by rewrite Hd2, Hd1.
  split; [done|]. split; [done|]. split; [done|]. split.
  { pose proof (wf_active_row d1 Hwf1 _ Hact1) as (y & Hyid & Hy)%list_elem_of_fmap.
    exists (restore_ready y). rewrite Hd2. split; [|split; [by rewrite (proj1 restore_stepped)|]].
    - change (restore_ready y ∈ db_generations (switched (active_of d1) restore_ready (g_id x) now2 d1)).
      rewrite switched_rows; [|apply restore_stepped|done]. apply list_elem_of_fmap. exists y. split; [|done].
      unfold switched_row. rewrite decide_False by congruence. rewrite decide_True by congruence. done.
    - assert (Hys : g_state y = ACTIVE) by (apply (wf_active d1 Hwf1); [done|congruence]).
      unfold restore_ready. by rewrite decide_True. }
  split.
  { intros y Hy Hya Hyg. rewrite Hd2. apply (switched_other (active_of d1)); [apply restore_stepped|done| |done|congruence].
    rewrite Hd1. apply (switched_other (active_of d)); [apply retire_stepped|done..|congruence]. }
  intros reason' now3. destruct (rollback_total reason' now3 d2 (g_id g) Hwf2 Hprev2) as [d3 Hr3]. exists d3. split; [done|].
  apply rollback_step in Hr3 as (z & events3 & _ & Hz & Hzid & Hzs & Hd3).
  rewrite <-Hzid in Hd3. destruct (switched_pointers _ z _ d2 d3 _ Hwf2 Hz Hd3) as [Hact3 Hprev3].
  split; [congruence|]. split; [congruence|]. by rewrite Hd3.
Qed.

(** The fingerprint a forgotten source leaves a generation: that of the objects of its manifest
    without the tombstoned ones, where this code built it and its manifest is there. *)
Definition forgotten_corpus (stones : list string) (g : GenerationRow) : option string :=
  if decide (g_state g = LEGACY_UNVERIFIED) then None
  else match g_manifest g with
       | VDict raw =>
           match m ← manifest_from_dict py_str bracketed_ok raw; effective_corpus_fingerprint json_dumps sha256_hex m stones with
           | Ok c => Some c
           | Raise _ => None
           end
       | _ => None
       end.

Definition fingerprint_moved (stones : list string) (g : GenerationRow) : bool :=
  match forgotten_corpus stones g with Some c => negb (bool_decide (c = g_corpus_fingerprint g)) | None => false end.

Definition moved (stones : list string) (rows : list GenerationRow) (id : string) : bool :=
  existsb (fun g => bool_decide (g_id g = id) && fingerprint_moved stones g) rows.

(** The id, the old and the new fingerprint of the rows that were read. *)
Definition refreshed (stones : list string) (rows : list GenerationRow) : list (string * string * string) :=
  omap (fun g => (fun c => (g_id g, g_corpus_fingerprint g, c)) <$> forgotten_corpus stones g) rows.

Lemma refreshed_read stones rows (l : list entry) cs :
  read_manifests py_str bracketed_ok (filter (fun g => g_state g <> LEGACY_UNVERIFIED) rows) = Ok l ->
  Forall2 (fun (x : entry) c => effective_corpus_fingerprint json_dumps sha256_hex x.2.1 stones = Ok c) l cs ->
  (fun x : entry * string => (x.1.1, x.1.2.2, x.2)) <$> zip l cs = refreshed stones rows /\
  Forall (fun g => g_state g <> LEGACY_UNVERIFIED -> forall raw, g_manifest g = VDict raw -> forgotten_corpus stones g <> None) rows.
Proof.
  unfold read_manifests. revert l cs. induction rows as [|g rows IH]; intros l cs Hl Hcs.
  - cbn in Hl. injection Hl as <-. inversion_clear Hcs. split; [done|constructor].
  - rewrite filter_cons in Hl. unfold refreshed. cbn [omap list_omap]. fold (refreshed stones rows). case_decide as Hs.
    + destruct (result_mapM _ (g :: _)) as [k|] eqn:Hk; [|done]. injection Hl as <-. apply result_mapM_ok in Hk.
      inversion Hk as [|? y ? k' Hy Hk']; subst. cbn [concat] in Hcs. apply result_mapM_ok in Hk'.
      apply Forall2_app_inv_l in Hcs as (c1 & c2 & Hc1 & Hc2 & ->).
      destruct (IH (concat k') c2) as [IH1 IH2]; [by rewrite Hk'|done|].
      apply read_manifest_ok in Hy. unfold forgotten_corpus at 1. rewrite decide_False by done.
      destruct (g_manifest g) as [| | | | | | |raw] eqn:Hm.
      8: { destruct Hy as (m & Hmok & ->). inversion Hc1 as [|? c ? ? Hc Hnil]; subst. inversion Hnil; subst. cbn [fst snd] in Hc.
           rewrite Hmok. cbn [mbind result_bind]. rewrite Hc. cbn. rewrite IH1. split; [done|].
           constructor; [|done]. intros _ raw' _. unfold forgotten_corpus. rewrite decide_False, Hm, Hmok by done. cbn [mbind result_bind]. by rewrite Hc. }
      all: subst y; inversion Hc1; subst; split; [exact IH1|constructor; [by intros _ ? ?; congruence|done]].
    + destruct (IH l cs Hl Hcs) as [IH1 IH2]. unfold forgotten_corpus at 1. rewrite decide_True by done.
      split; [exact IH1|]. by constructor.
Qed.

Lemma zip_image (l : list entry) (cs : list string) : corpora l cs = (fun t : string * string * string => (t.1.1, t.2)) <$> ((fun x : entry * string => (x.1.1, x.1.2.2, x.2)) <$> zip l cs).
Proof. unfold corpora. revert cs. induction l as [|x l IH]; intros [|c cs]; [done..|]. cbn. by rewrite IH. Qed.

Lemma changed_image (l : list entry) cs id :
  changed l cs id = existsb (fun t : string * string * string => bool_decide (t.1.1 = id) && negb (bool_decide (t.2 = t.1.2)))
    ((fun x : entry * string => (x.1.1, x.1.2.2, x.2)) <$> zip l cs).
Proof. unfold changed. induction (zip l cs) as [|x k IH]; [done|]. cbn. by rewrite IH. Qed.

Lemma refreshed_get stones rows g : NoDup (g_id <$> rows) -> g ∈ rows ->
  odict_get (g_id g) ((fun t : string * string * string => (t.1.1, t.2)) <$> refreshed stones rows) = forgotten_corpus stones g.
Proof.
  unfold refreshed. induction rows as [|x rows IH]; intros Hnd Hg; [by apply not_elem_of_nil in Hg|].
  inversion_clear Hnd as [|? ? Hx Hnd']. cbn [omap list_omap].
  assert (Hother : forall y, y ∈ rows -> g_id y <> g_id x) by (intros y Hy Heq; apply Hx; rewrite <-Heq; by apply list_elem_of_fmap_2).
  apply elem_of_cons in Hg as [->|Hg].
  - destruct (forgotten_corpus stones x) as [c|] eqn:Hc; cbn; [by rewrite decide_True|].
    destruct (odict_get _ _) as [c|] eqn:Hget; [|done]. exfalso. apply odict_get_in, list_elem_of_fmap in Hget as (t & Ht & Hin).
    apply list_elem_of_omap in Hin as (y & Hy & Hyt). destruct (forgotten_corpus stones y); [|done]. injection Hyt as <-.
    injection Ht as Hid _. by apply (Hother y).
  - destruct (forgotten_corpus stones x) as [c|]; cbn; [rewrite decide_False by by apply Hother|]; by apply IH.
Qed.

Lemma refreshed_moved stones rows id :
  existsb (fun t : string * string * string => bool_decide (t.1.1 = id) && negb (bool_decide (t.2 = t.1.2))) (refreshed stones rows) =
  moved stones rows id.
Proof.
  unfold moved, refreshed, fingerprint_moved. induction rows as [|g rows IH]; [done|]. cbn [omap list_omap existsb].
  destruct (forgotten_corpus stones g); cbn; rewrite IH; [done|]. by rewrite andb_false_r.
Qed.

(** What is said of the calibrations of the rows whose fingerprint moved, in their order. *)
Definition invalidated (stones : list string) (d : db) : list (string * option string * option string * value) :=
  db_generations d ≫= fun g =>
    match forgotten_corpus stones g with
    | Some c => if decide (c = g_corpus_fingerprint g) then []
                else invalidation (g_corpus_fingerprint g) c <$> published_rows (g_id g) (db_calibrations d)
    | None => []
    end.

Lemma refreshed_invalidated stones d :
  refreshed stones (db_generations d) ≫= (fun t => invalidations (db_calibrations d) t.1.1 t.1.2 t.2) = invalidated stones d.
Proof.
  unfold invalidated, refreshed. induction (db_generations d) as [|g rows IH]; [done|]. cbn [omap list_omap mbind list_bind].
  destruct (forgotten_corpus stones g); cbn; [|exact IH]. by f_equal.
Qed.

(** C18: what forgetting a source does, table by table. The selected generations are those the
    pointers name and those this code built. The source is tombstoned, once; of the chunks, those
    of the source in a selected generation go and no other, and the sparse rows of exactly these;
    the manifest of every generation this code built is readable, its row has the fingerprint of
    its corpus without the tombstoned sources, and no other column of a row changes; the published
    calibrations of the generations whose fingerprint moved are superseded, and no other one
    changes; of the adopted tables, the one that was named loses its rows of the source. The
    events are, in order: the forgetting, one for each superseded calibration, and the records of
    the claims of the source. The pointers stay. (The tables of both graphs are outside the model.) *)
Theorem forget_exact uri legacy_table withdraw now d r d' : well_formed d ->
  forget_ uri legacy_table withdraw now d = (inr r, d') ->
  let stones := map ts_source (db_tombstones d') in
  let erased c := bool_decide (cr_source c = uri /\ cr_generation c ∈ er_generations r) in
  (forall id, id ∈ er_generations r <-> id ∈ protected_ids d \/ exists g, g ∈ db_generations d /\ g_id g = id /\ g_state g <> LEGACY_UNVERIFIED) /\
  is_tombstoned uri d' = true /\
  db_tombstones d' = (if is_tombstoned uri d then db_tombstones d
                      else db_tombstones d ++ [{| ts_source := uri; ts_event := er_event r; ts_erased := now |}]) /\
  db_chunks d' = filter (fun c => erased c = false) (db_chunks d) /\
  db_sparse d' = filter (fun id => id ∉ map cr_id (filter (fun c => erased c = true) (db_chunks d))) (db_sparse d) /\
  (forall g raw, g ∈ db_generations d -> g_state g <> LEGACY_UNVERIFIED -> g_manifest g = VDict raw -> forgotten_corpus stones g <> None) /\
  db_generations d' = map (fun g => match forgotten_corpus stones g with Some c => with_corpus c g | None => g end) (db_generations d) /\
  db_calibrations d' = map (fun c => if moved stones (db_generations d) (cal_generation c) then supersede (cal_generation c) now c else c)
                           (db_calibrations d) /\
  db_legacy d' = legacy_left legacy_table uri d /\
  (exists records, db_audit d' !! length (db_audit d) = Some (forgotten_event uri d) /\ er_event r = au_id (forgotten_event uri d) /\
     described <$> db_audit d' = (described <$> db_audit d) ++ described (forgotten_event uri d) :: invalidated stones d ++ (described <$> records) /\
     db_audit d `prefix_of` db_audit d' /\ (length records <= 2)%nat /\ Forall (removal_record withdraw uri) records) /\
  er_source r = uri /\
  er_removed r = (length (filter (fun c => erased c = true) (db_chunks d)) +
                  length (filter (fun c => cr_source c = uri) (legacy_rows legacy_table d)))%nat /\
  db_state d' = db_state d.
Proof.
  clear dependency_marker resolve_calibration.
  intros Hwf [_ [(Hsrc & Hsel & Hev & Hrem) Hst Hts Hch Hsp Hleg (l & cs & Hl & Hcs & Hg & Hcal & mv & records & Hau & Hmv & Hlen & Hrec)]]%forget_step;
    [|apply (wf_ids d Hwf)].
  intros stones erased. fold stones in Hcs.
  destruct (refreshed_read stones (db_generations d) l cs Hl Hcs) as [Himg Hread].
  assert (Herased : forall c, erased_row (selected_ids d) uri c = erased c).
  { intros c. unfold erased, erased_row. rewrite Hsel. rewrite <-bool_decide_and. apply bool_decide_ext. tauto. }
  assert (Hfilter : forall b, filter (fun c => erased_row (selected_ids d) uri c = b) (db_chunks d) = filter (fun c => erased c = b) (db_chunks d)).
  { intros b. apply list_filter_iff. intros c. by rewrite Herased. }
  rewrite !Hfilter in *.
  assert (Hnd : NoDup l.*1).
  { eapply sublist_NoDup; [|apply (read_manifests_ok _ _ Hl)]. eapply sublist_NoDup; [apply (wf_ids d Hwf)|].
    unfold ids, mutable_rows. apply fmap_sublist, sublist_filter. }
  split_and!; [| | |done|done| | | |done| |done|done|done].
  - intros id. rewrite Hsel. unfold selected_ids. rewrite elem_of_sorted_set, elem_of_app. f_equiv. unfold mutable_rows. rewrite list_elem_of_fmap.
    setoid_rewrite list_elem_of_filter. split; [intros (g & -> & ? & ?)|intros (g & ? & <- & ?)]; by exists g.
  - unfold is_tombstoned. rewrite Hts. unfold entombed.
    destruct (is_tombstoned uri d) eqn:Ht; [exact Ht|]. rewrite existsb_app. cbn. rewrite bool_decide_true by done. by rewrite orb_true_r.
  - exact Hts.
  - intros g raw Hgd Hgs Hm. rewrite Forall_forall in Hread. by apply (Hread g Hgd Hgs raw).
  - rewrite Hg, recorpus_all by done. apply map_ext_in. intros g Hgd%list_elem_of_In.
    by rewrite zip_image, Himg, (refreshed_get _ _ _ (wf_ids d Hwf) Hgd).
  - rewrite Hcal, recalibrated_all. apply map_ext. intros c. by rewrite changed_image, Himg, refreshed_moved.
  - exists records. rewrite Hau. split; [by rewrite list_lookup_middle|]. split; [done|]. split.
    + rewrite fmap_app, fmap_cons, fmap_app, Hmv, <-refreshed_invalidated, <-Himg, list_fmap_bind. done.
    + split; [by apply prefix_app_r|done].
Qed.

Lemma collectable_sorted d : StronglySorted (fun a b => age_of b <= age_of a) (collectable d).
Proof.
  assert (Hw : weak_order (fun a b => age_of b <? age_of a)) by (split; intros *; rewrite ?Z.ltb_lt, ?Z.ltb_ge; lia).
  assert (Himp : forall k, StronglySorted (fun a b => (age_of a <? age_of b) = false) k -> StronglySorted (fun a b => age_of b <= age_of a) k).
  { induction 1 as [|x k Hk IH Hx]; constructor; [done|]. eapply Forall_impl; [exact Hx|]. intros y. apply Z.ltb_ge. }
  apply Himp. apply (stable_sort_weak _ _ Hw).
Qed.

(** C20: a collection deletes exactly the retired and failed generations that neither pointer names,
    that are older than the retention, and, when retired, that have at least [retain_previous]
    newer retired ones (the previous one counts) held before them; with each its chunks, its
    calibrations and their sparse rows go, and nothing else does. *)
Theorem gc_exact now days retain d l d' : gc_ now days retain d = (inr l, d') ->
  (forall id, id ∈ l <-> exists p g q, collectable d = p ++ g :: q /\ id = g_id g /\
     collected (protected_ids d) (if previous_of d then 1 else 0) retain (now - days * day_micros) p g) /\
  (forall g, g ∈ collectable d <-> g ∈ db_generations d /\ (g_state g = RETIRED \/ g_state g = FAILED)) /\
  StronglySorted (fun a b => age_of b <= age_of a) (collectable d) /\
  db_generations d' = filter (fun g => g_id g ∉ l) (db_generations d) /\
  db_chunks d' = filter (fun c => cr_generation c ∉ l) (db_chunks d) /\
  db_calibrations d' = filter (fun c => cal_generation c ∉ l) (db_calibrations d) /\
  (forall c, c ∈ db_chunks d -> cr_generation c ∈ l -> cr_id c ∉ db_sparse d') /\
  db_state d' = db_state d /\ active_of d' = active_of d /\ previous_of d' = previous_of d.
Proof.
  clear dependency_marker resolve_calibration. intros (_ & _ & -> & Hd)%gc_inr. split; [intros id; apply gc_plan_collected|]. split; [|split].
  - intros g. unfold collectable. rewrite stable_sort_perm, list_elem_of_filter. tauto.
  - apply collectable_sorted.
  - destruct Hd as [[-> ->]|[events ->]]; cbn [db_generations db_chunks db_calibrations db_sparse db_state set_audit set_sparse delete_generations set_calibrations set_chunks set_generations].
    + rewrite !list_filter_all by (apply Forall_forall; intros ? _; apply not_elem_of_nil). split_and!; try done. by intros ? _ ?%not_elem_of_nil.
    + split_and!; try done. intros c Hc Hl. rewrite list_elem_of_filter. intros [Hs _]. apply Hs. apply list_elem_of_fmap_2.
      by apply list_elem_of_filter.
Qed.
End lifecycle.

(** ** A tenant *)

Definition demo_digest : string := "0000000000000000000000000000000000000000000000000000000000000000".

Definition demo_manifest : metadata :=
  [("tenant_id", VStr "t"); ("corpus_version", VStr "1");
   ("objects", VList [VDict [("uri", VStr "file:///m/a.md"); ("version_id", VStr demo_digest); ("media_type", VStr "text/markdown");
                             ("size", VInt 3); ("sha256", VStr demo_digest)]]); ("schema_version", VInt 1)].

Definition demo_row (id : string) (s : GenerationState) (created : Z) (activated retired : option Z) : GenerationRow :=
  {| g_id := id; g_state := s; g_pipeline := VNone; g_pipeline_fingerprint := "p"; g_corpus_fingerprint := "c";
     g_manifest := VDict demo_manifest; g_manifest_digest := "m"; g_corpus_version := "1"; g_parent := None; g_failure := None;
     g_summary := VNone; g_created := created; g_validating := None; g_ready := None; g_activated := activated; g_retired := retired |}.

Definition demo_chunk (generation id source : string) : ChunkRow :=
  {| cr_generation := generation; cr_id := id; cr_source := source; cr_version := "v"; cr_sha := demo_digest; cr_ordinal := 0; cr_text := "x";
     cr_metadata := [("file", VStr "a.md")]; cr_embedding := []; cr_indexed := 1; cr_first := None |}.

(** One generation serves, its predecessor is kept, another is ready, two more are retired, and
    one failed. *)
Definition demo_db : db :=
  {| db_generations := [demo_row "a" ACTIVE 5 (Some 6) None; demo_row "p" RETIRED 3 (Some 4) (Some 6); demo_row "r" READY 7 None None;
                        demo_row "q" RETIRED 2 (Some 3) (Some 4); demo_row "o" RETIRED 1 (Some 2) (Some 3); demo_row "f" FAILED 0 None None];
     db_state := Some (Some "a", Some "p");
     db_chunks := [demo_chunk "a" "a1" "file:///m/a.md"; demo_chunk "a" "a2" "file:///m/b.md"; demo_chunk "o" "o1" "file:///m/a.md"];
     db_tombstones := [];
     db_calibrations := [{| cal_id := "k"; cal_generation := "a"; cal_lifecycle := "published"; cal_superseded := None |}];
     db_audit := []; db_sparse := ["a1"; "a2"; "o1"]; db_legacy := [] |}.

Definition demo_self : Manager := {| gm_tenant := "t"; gm_actor := "op"; gm_environment := Production; gm_serving := Production |}.
Definition demo_json (v : value) : string := "".
Definition demo_iso (t : datetime) : string := "".
Definition demo_from (s : string) : option datetime := None.
Definition demo_hash (s : string) : string := demo_digest.
Definition demo_clock (n : nat) : string * Z := ("e", Z.of_nat n).
Definition always_certified (d : db) (id : string) : option string := Some "certified".

Lemma demo_db_well_formed : well_formed demo_db.
Proof.
  split.
  - apply (bool_decide_eq_true_1 (NoDup (ids demo_db))). vm_compute. reflexivity.
  - apply (bool_decide_eq_false_1 ("" ∈ ids demo_db)). vm_compute. reflexivity.
  - intros g Hg. repeat (apply elem_of_cons in Hg as [->|Hg]; [by cbn|]). by apply not_elem_of_nil in Hg.
  - intros id [= <-]. by left.
  - intros id [= <-]. exists (demo_row "p" RETIRED 3 (Some 4) (Some 6)). split; [right; by left|]. split; [done|by left].
  - intros g Hg. repeat (apply elem_of_cons in Hg as [->|Hg]; [by cbn|]). by apply not_elem_of_nil in Hg.
Qed.

Local Abbreviation demo_lifecycle := (lifecycle demo_json demo_iso demo_from demo_json (fun _ => true) demo_json demo_hash demo_clock demo_self
  (fun _ _ _ => {| sg_schema_version := 3; sg_id := "g"; sg_fingerprint := "f"; sg_marker := [] |}) (fun _ _ _ => VNone) (fun _ => "") always_certified).
Local Abbreviation demo_promote := (promote demo_json demo_iso demo_from demo_clock demo_self always_certified).
Local Abbreviation demo_rollback := (rollback demo_clock demo_self always_certified).

Lemma lifecycle_invariant_witness :
  let d := (demo_rollback None 11 (demo_promote "r" false 10 demo_db).2).2 in active_of d = Some "a" /\ previous_of d = Some "r" /\ well_formed d.
Proof.
  cbn zeta. split; [vm_compute; reflexivity|]. split; [vm_compute; reflexivity|].
  apply (lifecycle_invariant demo_json demo_iso demo_from demo_json (fun _ => true) demo_json demo_hash demo_clock demo_self
           (fun _ _ _ => {| sg_schema_version := 3; sg_id := "g"; sg_fingerprint := "f"; sg_marker := [] |}) (fun _ _ _ => VNone) (fun _ => "") always_certified demo_db).
  - exact demo_db_well_formed.
  - eapply rtc_l; [apply step_promote|]. eapply rtc_l; [apply step_rollback|]. apply rtc_refl.
Defined.

Lemma promote_exact_witness :
  active_of (demo_promote "r" false 10 demo_db).2 = Some "r" /\
  db_generations (demo_promote "r" false 10 demo_db).2 = map (switched_row (Some "a") (retire 10) "r" 10) (db_generations demo_db).
Proof.
  pose proof (promote_exact demo_json demo_iso demo_from demo_clock demo_self always_certified "r" false 10 demo_db demo_db_well_formed) as H.
  destruct (demo_promote "r" false 10 demo_db) as [[e|n] d'] eqn:Hp; [vm_compute in Hp; discriminate|].
  destruct H as (_ & _ & _ & Ha & _ & Hg & _). split; [exact Ha|exact Hg].
Defined.

Lemma rollback_undoes_promotion_witness :
  exists n d1 d2, demo_promote "r" false 10 demo_db = (inr n, d1) /\ demo_rollback None 11 d1 = (inr "a", d2) /\ active_of d2 = Some "a".
Proof.
  destruct (demo_promote "r" false 10 demo_db) as [[e|n] d1] eqn:Hp; [vm_compute in Hp; discriminate|].
  destruct (rollback_undoes_promotion demo_json demo_iso demo_from demo_clock demo_self always_certified "r" false 10 n demo_db d1 "a"
              demo_db_well_formed eq_refl Hp None 11) as (d2 & Hr & Ha & _).
  exists n, d1, d2. split; [reflexivity|]. split; [exact Hr|exact Ha].
Defined.

Local Abbreviation demo_forget := (forget demo_json demo_iso demo_from demo_json (fun _ => true) demo_json demo_hash demo_clock demo_self).

Lemma forget_exact_witness :
  exists r d', demo_forget "file:///m/a.md" None false 20 demo_db = (inr r, d') /\ is_tombstoned "file:///m/a.md" d' = true /\
    er_removed r = 2%nat /\ db_chunks d' = [demo_chunk "a" "a2" "file:///m/b.md"] /\ db_sparse d' = ["a2"] /\
    map cal_lifecycle (db_calibrations d') = ["superseded"].
Proof.
  destruct (demo_forget "file:///m/a.md" None false 20 demo_db) as [[e|r] d'] eqn:Hf; [vm_compute in Hf; discriminate|].
  exists r, d'. split; [reflexivity|].
  pose proof (forget_exact demo_json demo_iso demo_from demo_json (fun _ => true) demo_json demo_hash demo_clock demo_self
                "file:///m/a.md" None false 20 demo_db r d' demo_db_well_formed Hf) as (_ & Ht & _ & Hc & Hs & _ & _ & Hcal & _ & _ & _ & Hn & _).
  assert (Hg : er_generations r = ["a"; "f"; "o"; "p"; "q"; "r"]) by (apply (f_equal fst) in Hf; vm_compute in Hf; injection Hf as <-; reflexivity).
  assert (Hst : map ts_source (db_tombstones d') = ["file:///m/a.md"]) by (apply (f_equal snd) in Hf; vm_compute in Hf; subst d'; reflexivity).
  split; [exact Ht|]. rewrite Hst in Hcal. rewrite Hg in Hc, Hs, Hn.
  split; [rewrite Hn; vm_compute; reflexivity|]. split; [rewrite Hc; vm_compute; reflexivity|].
  split; [rewrite Hs; vm_compute; reflexivity|]. rewrite Hcal. vm_compute. reflexivity.
Defined.

Lemma gc_exact_witness :
  exists d', gc demo_clock demo_self (1000 * day_micros) 30 2 demo_db = (inr ["o"; "f"], d') /\
    db_generations d' = filter (fun g => g_id g ∉ ["o"; "f"]) (db_generations demo_db).
Proof.
  destruct (gc demo_clock demo_self (1000 * day_micros) 30 2 demo_db) as [[e|l] d'] eqn:Hg; [vm_compute in Hg; discriminate|].
  assert (Hl : l = ["o"; "f"]) by (apply (f_equal fst) in Hg; vm_compute in Hg; congruence). subst l.
  exists d'. split; [reflexivity|].
  destruct (gc_exact demo_clock demo_self (1000 * day_micros) 30 2 demo_db ["o"; "f"] d' Hg) as (_ & _ & _ & H & _). exact H.
Defined.
