(* ===== verification/CurrentState.v ===== *)
(** * CurrentState: the state of every document at an instant (src/recall/current_state.py)

    The projection of one generation snapshot: each document's chunks, its validity window, the
    successors that hide it by the walk every reader shares ([Supersession], [Resolver]), and
    the dependency projection built on those states ([Dependency]).  The rows, the graph and the
    binding of the store are arguments, as are the digest and the printing of instants. *)
From S2P Require Import Prelude Text Float64 Frontmatter SourceIdentity Supersession References Resolver FrontmatterBlock Types Dependency Calibration TrustVerdicts TrustGate.

Local Open Scope recall_scope.
Local Open Scope Z_scope.

(** [CurrentState]. *)
Inductive current_state :=
| StateCurrent | StateSuperseded | StateExpired | StateNotYetValid | StateNotYetKnown | StateAmbiguous | StateInvalid
| StateDependencyInvalidated.

#[export] Instance current_state_eq_dec : EqDecision current_state.
Proof. solve_decision. Defined.

Definition state_name (s : current_state) : string :=
  match s with
  | StateCurrent => "current" | StateSuperseded => "superseded" | StateExpired => "expired"
  | StateNotYetValid => "not_yet_valid" | StateNotYetKnown => "not_yet_known" | StateAmbiguous => "ambiguous"
  | StateInvalid => "invalid" | StateDependencyInvalidated => "dependency_invalidated"
  end.

Definition CURRENT_STATE_SCHEMA_VERSION : Z := 2.
Definition MAX_CURRENT_STATE_RECORDS : Z := 1000.

(** [CurrentStateRecord]. *)
Record CurrentStateRecord := {
  cs_state_id : string;
  cs_source : string;
  cs_state : current_state;
  cs_chunk_ids : list string;
  cs_successor_chain : list string;
  cs_valid_from : option Z;
  cs_valid_until : option Z;
  cs_diagnostics : list string;
  cs_base_state : option current_state;
  cs_authority : string;
  cs_dependencies : list string;
  cs_invalidation_chain : list string
}.

(** [CurrentStateProjection]. *)
Record CurrentStateProjection := {
  csp_schema_version : Z;
  csp_projection_id : string;
  csp_tenant_id : string;
  csp_generation_id : string;
  csp_pipeline_fingerprint : option string;
  csp_corpus_fingerprint : option string;
  csp_as_of : datetime;
  csp_records : list CurrentStateRecord;
  csp_dependency_projection : DependencyProjection;
  csp_known_as_of : option datetime
}.

(** [_file]. *)
Definition chunk_file (c : Chunk) : string :=
  match meta_get "file" (c_metadata c) with
  | VStr s => if decide (s = "") then c_source c else s
  | _ => c_source c
  end.

(** ** One record *)

(** [_chain]. *)
Definition chain_of (source : string) (graph : SupersessionGraph) (as_of : datetime) (known_as_of : option datetime) :
    list string * list string :=
  let chain := graph_successor_path graph source (Some as_of) known_as_of in
  if existsb (fun node => (1 <? length (live_claimants graph node (Some as_of) known_as_of))%nat)
       (source :: take (length chain - 1) chain)
  then ([], ["multiple_live_successors"])
  else if bool_decide (chain <> []) && graph_on_cycle graph source known_as_of then (chain, ["supersession_cycle"])
  else (chain, []).

(** A str, or a list of str. *)
Definition supersedes_well_formed (v : value) : bool :=
  match v with
  | VNone | VStr _ => true
  | VList l => forallb (fun item => match item with VStr _ => true | _ => false end) l
  | _ => false
  end.

Record window_reading := {
  wr_diagnostics : list string;
  wr_from : option Z;
  wr_until : option Z
}.

(** The body of the loop over the chunks of a document. *)
Definition read_window (w : window_reading) (c : Chunk) : window_reading :=
  let diagnostics :=
    if supersedes_well_formed (meta_get "supersedes" (c_metadata c)) then wr_diagnostics w
    else wr_diagnostics w ++ ["malformed_supersession_metadata"] in
  match validity_bounds (c_metadata c) with
  | Raise _ =>
      {| wr_diagnostics := diagnostics ++ ["malformed_validity_metadata"]; wr_from := wr_from w; wr_until := wr_until w |}
  | Ok (start, end_) =>
      {| wr_diagnostics := diagnostics;
         wr_from := match wr_from w, start with None, _ => start | Some f, Some s => Some (f `min` s) | Some f, None => Some f end;
         wr_until := match wr_until w, end_ with None, _ => end_ | Some u, Some e => Some (u `max` e) | Some u, None => Some u end |}
  end.

Definition read_windows (chunks : list Chunk) : window_reading :=
  foldl read_window {| wr_diagnostics := []; wr_from := None; wr_until := None |} chunks.

(** The source, or the target of a reference it declares, is an unresolved reference. *)
Definition reference_unresolved (source : string) (chunks : list Chunk) (graph : SupersessionGraph) : bool :=
  bool_decide (source ∈ g_unresolved graph) ||
  existsb (fun c => existsb (fun target => bool_decide (supersedes_key target ∈ g_unresolved graph)) (chunk_supersedes_targets (c_metadata c))) chunks.

(** [known_as_of is not None and asserted_at is not None and _utc(asserted_at) > known_as_of]. *)
Definition asserted_later (known_as_of asserted_at : option datetime) : bool :=
  match known_as_of, asserted_at with
  | Some k, Some a => instant k <? instant a
  | _, _ => false
  end.

(** What [_record] decides: the state, the diagnostics and the chain. *)
Definition state_of (source : string) (chunks : list Chunk) (graph : SupersessionGraph) (as_of : datetime)
    (known_as_of asserted_at : option datetime) : current_state * list string * list string :=
  let w := read_windows chunks in
  if bool_decide (wr_diagnostics w <> []) then (StateInvalid, wr_diagnostics w, [])
  else
    let '(chain, found) := chain_of source graph as_of known_as_of in
    let diagnostics := found ++ (if reference_unresolved source chunks graph then ["unresolved_supersession_reference"] else []) in
    let state :=
      if bool_decide (diagnostics <> []) then StateAmbiguous
      else if asserted_later known_as_of asserted_at then StateNotYetKnown
      else if bool_decide (chain <> []) then StateSuperseded
      else if before (wr_from w) as_of then StateNotYetValid
      else if after (wr_until w) as_of then StateExpired
      else StateCurrent in
    (state, diagnostics, chain).

Section projection.
Context `{UriReader}.
Context (canonical_sha256 : value -> string) (isoformat : datetime -> string).

Definition state_id (payload : value) : string := "state_" +:+ prefix24 (canonical_sha256 payload).

(** [_record]. *)
Definition record_of (source : string) (chunks : list Chunk) (graph : SupersessionGraph) (as_of : datetime)
    (tenant_id generation_id : string) (known_as_of asserted_at : option datetime) : CurrentStateRecord :=
  let chunk_ids := sorted_strings (c_id <$> chunks) in
  let '(state, diagnostics, chain) := state_of source chunks graph as_of known_as_of asserted_at in
  {| cs_state_id := state_id (VDict [
       ("schema_version", VInt CURRENT_STATE_SCHEMA_VERSION); ("tenant_id", VStr tenant_id);
       ("generation_id", VStr generation_id); ("source", VStr source); ("state", VStr (state_name state));
       ("chunk_ids", strings_value chunk_ids); ("successor_chain", strings_value chain); ("as_of", VStr (isoformat as_of))]);
     cs_source := source; cs_state := state; cs_chunk_ids := chunk_ids; cs_successor_chain := chain;
     cs_valid_from := wr_from (read_windows chunks); cs_valid_until := wr_until (read_windows chunks);
     cs_diagnostics := sorted_set diagnostics; cs_base_state := Some state; cs_authority := "unknown";
     cs_dependencies := []; cs_invalidation_chain := [] |}.

(** ** The projection *)

(** What one generation snapshot of the store answers. *)
Record Snapshot := {
  sn_tenant : string;
  sn_generation : string;
  sn_rows : list (Chunk * option datetime);
  sn_graph : result SupersessionGraph;
  sn_binding : list (string * string)
}.

(** [chunks_by_source] and [asserted_at_by_source]. *)
Record grouping := {
  gr_chunks : list (string * list Chunk);
  gr_asserted : list (string * option datetime)
}.

(** The body of the loop of [group]. *)
Definition group_row (key_for : Chunk -> string) (g : grouping) (row : Chunk * option datetime) : result grouping :=
  let key := key_for row.1 in
  earlier ← match odict_get key (gr_asserted g), row.2 with
            | None, _ => Ok true
            | Some _, None => Ok false
            | Some None, Some _ => Ok true
            | Some (Some previous), Some asserted_at => datetime_lt asserted_at previous
            end;
  Ok {| gr_chunks := odict_push key row.1 (gr_chunks g);
        gr_asserted := if earlier : bool then odict_set key row.2 (gr_asserted g) else gr_asserted g |}.

(** [rows_by_file], then [group]. *)
Definition rows_by_file (rows : list (Chunk * option datetime)) : list (string * list (Chunk * option datetime)) :=
  foldl (fun d row => odict_push (chunk_file row.1) row d) [] rows.

Definition group_rows (key_for : Chunk -> string) (rows : list (Chunk * option datetime)) : result grouping :=
  result_foldl (group_row key_for) {| gr_chunks := []; gr_asserted := [] |} (rows_by_file rows ≫= snd).

(** [selected]. *)
Definition selected (source : option string) (key : string) (chunks : list Chunk) : bool :=
  match source with
  | None => true
  | Some s =>
      bool_decide (key = s) || match chunks with c :: _ => bool_decide (chunk_file c = s) | [] => false end ||
      existsb (fun c => bool_decide (c_source c = s)) chunks
  end.

(** [check_bound]. *)
Definition check_bound (source : option string) (max_records : option Z) (g : grouping) : result () :=
  match max_records with
  | Some n =>
      if n <? Z.of_nat (length (filter (fun kc => selected source kc.1 kc.2 = true) (gr_chunks g)))
      then Raise (ValueError "current state projection exceeds max_records") else Ok ()
  | None => Ok ()
  end.

(** The last pass: a record with what the dependency projection says of it. *)
Definition finish_record (tenant_id generation_id : string) (as_of : datetime) (dependency : DependencyProjection) (r : CurrentStateRecord) :
    CurrentStateRecord :=
  let reason := reason_for dependency (cs_source r) in
  let invalidation_chain := match reason with Some why => bounded_path why MAX_INVALIDATION_CHAIN | None => [] end in
  let diagnostics := match reason with Some _ => sorted_set (cs_diagnostics r ++ ["dependency_invalidated"]) | None => cs_diagnostics r end in
  let state :=
    match reason with
    | Some _ => if decide (cs_state r = StateCurrent) then StateDependencyInvalidated else cs_state r
    | None => cs_state r
    end in
  let authority := match odict_get (cs_source r) (dp_authorities dependency) with Some a => authority_name a | None => "unknown" end in
  let dependencies := default [] (odict_get (cs_source r) (dp_dependencies dependency)) in
  {| cs_state_id := state_id (VDict [
       ("schema_version", VInt CURRENT_STATE_SCHEMA_VERSION); ("tenant_id", VStr tenant_id);
       ("generation_id", VStr generation_id); ("source", VStr (cs_source r)); ("state", VStr (state_name state));
       ("base_state", match cs_base_state r with Some b => VStr (state_name b) | None => VNone end);
       ("authority", VStr authority); ("dependencies", strings_value dependencies);
       ("invalidation_chain", strings_value invalidation_chain); ("as_of", VStr (isoformat as_of))]);
     cs_source := cs_source r; cs_state := state; cs_chunk_ids := cs_chunk_ids r; cs_successor_chain := cs_successor_chain r;
     cs_valid_from := cs_valid_from r; cs_valid_until := cs_valid_until r; cs_diagnostics := diagnostics;
     cs_base_state := cs_base_state r; cs_authority := authority; cs_dependencies := dependencies;
     cs_invalidation_chain := invalidation_chain |}.

(** [_project]. *)
Definition project (sn : Snapshot) (as_of : datetime) (known_as_of : option datetime) (source : option string) (max_records : option Z) :
    result CurrentStateProjection :=
  by_file ← group_rows chunk_file (sn_rows sn);
  _ ← check_bound source max_records by_file;
  graph ← sn_graph sn;
  grouped ← (if decide (g_collided graph = ∅) then Ok by_file
             else
               by_key ← group_rows (fun c => graph_key graph (chunk_file c) (Some (c_source c))) (sn_rows sn);
               _ ← check_bound source max_records by_key;
               Ok by_key);
  let record kc :=
    record_of kc.1 kc.2 graph as_of (sn_tenant sn) (sn_generation sn) (as_utc <$> known_as_of)
      (default None (odict_get kc.1 (gr_asserted grouped))) in
  let all_records := map record (by_name (gr_chunks grouped)) in
  let dependency :=
    build_dependency_projection canonical_sha256 isoformat (sn_tenant sn) (sn_generation sn) (g_collided graph)
      (gr_chunks grouped ≫= snd) (list_to_map (map (fun r => (cs_source r, state_name (cs_state r))) all_records))
      (list_to_map (gr_asserted grouped)) (Some as_of) known_as_of 1 (odict_get "corpus_fingerprint" (sn_binding sn)) in
  let records :=
    map (finish_record (sn_tenant sn) (sn_generation sn) as_of dependency)
      (filter (fun r => selected source (cs_source r) (default [] (odict_get (cs_source r) (gr_chunks grouped))) = true) all_records) in
  let payload := VDict [
    ("schema_version", VInt CURRENT_STATE_SCHEMA_VERSION); ("tenant_id", VStr (sn_tenant sn));
    ("generation_id", VStr (sn_generation sn)); ("as_of", VStr (isoformat as_of));
    ("known_as_of", match known_as_of with Some k => VStr (isoformat (as_utc k)) | None => VNone end);
    ("records", strings_value (map cs_state_id records)); ("dependency_projection_id", VStr (dp_projection_id dependency))] in
  Ok {| csp_schema_version := CURRENT_STATE_SCHEMA_VERSION; csp_projection_id := "csp_" +:+ prefix24 (canonical_sha256 payload);
        csp_tenant_id := sn_tenant sn; csp_generation_id := sn_generation sn;
        csp_pipeline_fingerprint := odict_get "pipeline_fingerprint" (sn_binding sn);
        csp_corpus_fingerprint := odict_get "corpus_fingerprint" (sn_binding sn); csp_as_of := as_of; csp_records := records;
        csp_dependency_projection := dependency; csp_known_as_of := as_utc <$> known_as_of |}.

(** [project_current_state], over the snapshot of a store; [now] is the clock. *)
Definition project_current_state (sn : Snapshot) (now : datetime) (as_of known_as_of : option datetime) (source : option string)
    (max_records : option Z) : result CurrentStateProjection :=
  if match max_records with Some n => n <? 1 | None => false end
  then Raise (ValueError "max_records must be a positive int or None")
  else if match max_records with Some n => MAX_CURRENT_STATE_RECORDS <? n | None => false end
  then Raise (ValueError "max_records must be <= 1000")
  else project sn (as_utc (default now as_of)) known_as_of source max_records.
End projection.
