(* ===== verification/CurrentStateFacts.v ===== *)
(** * CurrentStateFacts: what the states of a projection mean

    The specification of a state, the partition of a snapshot into records, what a current record
    rests on, and the projection compared with the verdicts of search on the same chunks. *)
From S2P Require Import Prelude Text Float64 Frontmatter SourceIdentity Supersession References Resolver FrontmatterBlock Types Dependency DependencyFacts Calibration TrustVerdicts TrustGate CurrentState.

Local Open Scope recall_scope.
Local Open Scope Z_scope.

(** ** The windows of a document's chunks *)

Definition chunk_bounds (c : Chunk) : result (option Z * option Z) := validity_bounds (c_metadata c).

Definition starts (chunks : list Chunk) : list Z :=
  chunks ≫= fun c => match chunk_bounds c with Ok (Some s, _) => [s] | _ => [] end.

Definition ends (chunks : list Chunk) : list Z :=
  chunks ≫= fun c => match chunk_bounds c with Ok (_, Some e) => [e] | _ => [] end.

(** A chunk whose metadata the record cannot read. *)
Definition malformed (c : Chunk) : Prop :=
  supersedes_well_formed (meta_get "supersedes" (c_metadata c)) = false \/ Prelude.is_ok (chunk_bounds c) = false.

Definition least_of (l : list Z) (o : option Z) : Prop :=
  match o with None => l = [] | Some m => m ∈ l /\ Forall (fun x => m <= x) l end.
Definition greatest_of (l : list Z) (o : option Z) : Prop :=
  match o with None => l = [] | Some m => m ∈ l /\ Forall (fun x => x <= m) l end.

Lemma least_snoc l o s : least_of l o -> least_of (l ++ [s]) (match o with None => Some s | Some f => Some (f `min` s) end).
Proof.
  destruct o as [f|]; cbn; intros Hl.
  - destruct Hl as [Hin Hall]. rewrite Forall_app, elem_of_app, list_elem_of_singleton. split_and!.
    + destruct (Z.min_spec f s) as [[_ ->]|[_ ->]]; auto.
    + eapply Forall_impl; [exact Hall|]. intros x Hx. cbn in *. lia.
    + repeat constructor. lia.
  - subst l. cbn. split; [by left|]. by repeat constructor.
Qed.

Lemma greatest_snoc l o s : greatest_of l o -> greatest_of (l ++ [s]) (match o with None => Some s | Some f => Some (f `max` s) end).
Proof.
  destruct o as [f|]; cbn; intros Hl.
  - destruct Hl as [Hin Hall]. rewrite Forall_app, elem_of_app, list_elem_of_singleton. split_and!.
    + destruct (Z.max_spec f s) as [[_ ->]|[_ ->]]; auto.
    + eapply Forall_impl; [exact Hall|]. intros x Hx. cbn in *. lia.
    + repeat constructor. lia.
  - subst l. cbn. split; [by left|]. by repeat constructor.
Qed.

Lemma read_windows_spec chunks :
  let w := read_windows chunks in
  (wr_diagnostics w = [] <-> Forall (fun c => ~ malformed c) chunks) /\
  least_of (starts chunks) (wr_from w) /\ greatest_of (ends chunks) (wr_until w).
Proof.
  cbn zeta. unfold read_windows. induction chunks as [|c chunks IH] using rev_ind; [split_and!; [|done|done]; split; by constructor|].
  rewrite foldl_app, Forall_app, Forall_singleton. unfold starts, ends. rewrite !bind_app. fold (starts chunks) (ends chunks).
  cbn [foldl mbind list_bind]. rewrite !app_nil_r. set (w := foldl _ _ chunks) in *. destruct IH as (Hd & Hl & Hg).
  unfold read_window, malformed. fold (chunk_bounds c).
  assert (Happ : forall (l : list string) x, l ++ [x] <> []) by (by intros []).
  destruct (supersedes_well_formed _) eqn:Hs; destruct (chunk_bounds c) as [[[s|] [e|]]|ex] eqn:Hb;
    cbn [wr_diagnostics wr_from wr_until]; rewrite ?app_nil_r.
  all: split_and!; try done; try (by destruct (wr_from w)); try (by destruct (wr_until w));
    try (by apply least_snoc); try (by apply greatest_snoc).
  all: rewrite ?Hd.
  all: try (split; [intros ?; split; [done|]; cbn; by intros [?|?]|by intros [? _]]).
  all: split; [by intros ?%Happ|intros [_ Hn]; destruct Hn; cbn; auto].
Qed.

Lemma before_starts chunks as_of :
  before (wr_from (read_windows chunks)) as_of = true <-> starts chunks <> [] /\ Forall (fun s => instant as_of < s) (starts chunks).
Proof.
  destruct (read_windows_spec chunks) as (_ & Hl & _). unfold before. destruct (wr_from _) as [f|]; cbn in Hl.
  - destruct Hl as [Hin Hall]. rewrite bool_decide_eq_true. split.
    + intros Hlt. split; [intros Hn; rewrite Hn in Hin; by apply not_elem_of_nil in Hin|]. eapply Forall_impl; [exact Hall|]. cbn. lia.
    + intros [_ Hf]. by eapply Forall_forall in Hf.
  - rewrite Hl. split; [done|]. by intros [? _].
Qed.

Lemma after_ends chunks as_of :
  after (wr_until (read_windows chunks)) as_of = true <-> ends chunks <> [] /\ Forall (fun e => e < instant as_of) (ends chunks).
Proof.
  destruct (read_windows_spec chunks) as (_ & _ & Hg). unfold after. destruct (wr_until _) as [f|]; cbn in Hg.
  - destruct Hg as [Hin Hall]. rewrite bool_decide_eq_true. split.
    + intros Hlt. split; [intros Hn; rewrite Hn in Hin; by apply not_elem_of_nil in Hin|]. eapply Forall_impl; [exact Hall|]. cbn. lia.
    + intros [_ Hf]. by eapply Forall_forall in Hf.
  - rewrite Hg. split; [done|]. by intros [? _].
Qed.

(** ** The specification of a state *)

Section state.
Context (source : string) (chunks : list Chunk) (graph : SupersessionGraph) (as_of : datetime).
Context (known_as_of asserted_at : option datetime).

Abbreviation claims := (in_chain (g_edges graph) (Some (g_candidates graph)) known_as_of).
Abbreviation first_followed := (first_claimant (g_edges graph) (Some (g_candidates graph)) known_as_of).
Abbreviation path := (graph_successor_path graph source (Some as_of) known_as_of).

(** [m] hides the document: it is reached through live claims and valid at the instant. *)
Definition hidden_by (m : string) : Prop :=
  claims source m /\ valid (Some as_of) (Some (g_windows graph)) m = true.

Definition readable : Prop := Forall (fun c => ~ malformed c) chunks.

(** A reference nobody resolved, two claimants valid at once on the walk, or a cycle. *)
Definition ambiguous : Prop :=
  (source ∈ g_unresolved graph \/
   exists c target, c ∈ chunks /\ target ∈ chunk_supersedes_targets (c_metadata c) /\ supersedes_key target ∈ g_unresolved graph) \/
  (exists node, (node = source \/ exists n, path !! n = Some node /\ (S n < length path)%nat) /\
     (1 < length (live_claimants graph node (Some as_of) known_as_of))%nat) \/
  ((exists m, hidden_by m) /\ exists x, rtc first_followed source x /\ tc first_followed x x).

(** Which state a document has, in order of precedence. *)
Inductive state_spec : current_state -> Prop :=
| spec_invalid : ~ readable -> state_spec StateInvalid
| spec_ambiguous : readable -> ambiguous -> state_spec StateAmbiguous
| spec_not_yet_known k a : readable -> ~ ambiguous -> known_as_of = Some k -> asserted_at = Some a -> instant k < instant a ->
    state_spec StateNotYetKnown
| spec_superseded m : readable -> ~ ambiguous -> asserted_later known_as_of asserted_at = false -> hidden_by m -> state_spec StateSuperseded
| spec_not_yet_valid : readable -> ~ ambiguous -> asserted_later known_as_of asserted_at = false -> (forall m, ~ hidden_by m) ->
    starts chunks <> [] -> Forall (fun s => instant as_of < s) (starts chunks) -> state_spec StateNotYetValid
| spec_expired : readable -> ~ ambiguous -> asserted_later known_as_of asserted_at = false -> (forall m, ~ hidden_by m) ->
    ~ (starts chunks <> [] /\ Forall (fun s => instant as_of < s) (starts chunks)) ->
    ends chunks <> [] -> Forall (fun e => e < instant as_of) (ends chunks) -> state_spec StateExpired
| spec_current : readable -> ~ ambiguous -> asserted_later known_as_of asserted_at = false -> (forall m, ~ hidden_by m) ->
    ~ (starts chunks <> [] /\ Forall (fun s => instant as_of < s) (starts chunks)) ->
    ~ (ends chunks <> [] /\ Forall (fun e => e < instant as_of) (ends chunks)) -> state_spec StateCurrent.

Lemma path_hidden : path <> [] <-> exists m, hidden_by m.
Proof.
  unfold graph_successor_path.
  destruct (successor_path_spec (g_edges graph) (Some (g_candidates graph)) known_as_of (Some as_of) (Some (g_windows graph)) source)
    as [[-> Hall]|(s & Hs & _ & Hin & Hv)].
  - split; [done|]. intros (m & Hm & Hvalid). by rewrite Hall in Hvalid.
  - split; [by exists s|]. intros _ Hn. by rewrite Hn in Hs.
Qed.

Lemma path_last s : last path = Some s -> hidden_by s.
Proof.
  unfold graph_successor_path.
  destruct (successor_path_spec (g_edges graph) (Some (g_candidates graph)) known_as_of (Some as_of) (Some (g_windows graph)) source)
    as [[-> Hall]|(s' & -> & _ & Hin & Hv)]; [done|]. by intros [= <-].
Qed.

Lemma reference_unresolved_spec :
  reference_unresolved source chunks graph = true <->
  source ∈ g_unresolved graph \/
  exists c target, c ∈ chunks /\ target ∈ chunk_supersedes_targets (c_metadata c) /\ supersedes_key target ∈ g_unresolved graph.
Proof.
  unfold reference_unresolved. rewrite orb_true_iff, bool_decide_eq_true, existsb_exists. setoid_rewrite existsb_exists.
  setoid_rewrite bool_decide_eq_true. setoid_rewrite <-list_elem_of_In. naive_solver.
Qed.

Lemma walked_spec node : node ∈ source :: take (length path - 1) path <-> node = source \/ exists n, path !! n = Some node /\ (S n < length path)%nat.
Proof.
  rewrite elem_of_cons, elem_of_take. split; intros [->|(n & Hn & Hlt)]; [by left|right; exists n|by left|right; exists n]; split; try done; lia.
Qed.

(** The diagnostics of a readable document are there exactly when it is ambiguous. *)
Lemma ambiguous_spec :
  let '(chain, found) := chain_of source graph as_of known_as_of in
  (found ++ (if reference_unresolved source chunks graph then ["unresolved_supersession_reference"] else []) <> [] <-> ambiguous) /\
  (~ ambiguous -> chain = path).
Proof.
  unfold chain_of. destruct (existsb _ _) eqn:Hmany.
  - apply existsb_exists in Hmany as (node & Hnode & Hlt). apply list_elem_of_In, walked_spec in Hnode. apply Nat.ltb_lt in Hlt.
    assert (ambiguous) by (right; left; by exists node). split; [by split|done].
  - assert (Hfew : ~ exists node, (node = source \/ exists n, path !! n = Some node /\ (S n < length path)%nat) /\
      (1 < length (live_claimants graph node (Some as_of) known_as_of))%nat).
    { intros (node & Hnode%walked_spec%list_elem_of_In & Hlt%Nat.ltb_lt). rewrite <-not_true_iff_false, existsb_exists in Hmany. by apply Hmany; exists node. }
    destruct (bool_decide (path <> []) && graph_on_cycle graph source known_as_of) eqn:Hcycle.
    + rewrite andb_true_iff, bool_decide_eq_true, path_hidden in Hcycle. destruct Hcycle as [Hh Hc].
      apply on_cycle_exact in Hc. assert (ambiguous) by (right; right; by split). split; [by split|done].
    + split; [|done]. cbn [app]. unfold ambiguous. rewrite <-reference_unresolved_spec. split.
      * destruct (reference_unresolved source chunks graph); [by left|done].
      * intros [->|[?|[Hh Hc]]]; [done|done|]. exfalso. apply path_hidden in Hh.
        apply (on_cycle_exact (g_edges graph) (Some (g_candidates graph)) known_as_of source) in Hc.
        unfold graph_on_cycle in Hcycle. rewrite Hc, andb_true_r in Hcycle. by apply bool_decide_eq_false in Hcycle.
Qed.

Lemma readable_spec : bool_decide (wr_diagnostics (read_windows chunks) <> []) = false <-> readable.
Proof.
  rewrite bool_decide_eq_false. destruct (read_windows_spec chunks) as (Hd & _). unfold readable. rewrite <-Hd.
  split; [apply dec_stable|]. intros ->. by intros [].
Qed.

Lemma state_of_spec : state_spec (state_of source chunks graph as_of known_as_of asserted_at).1.1.
Proof.
  unfold state_of. destruct (bool_decide (wr_diagnostics _ <> [])) eqn:Hd.
  { apply spec_invalid. rewrite <-readable_spec. congruence. }
  apply readable_spec in Hd. pose proof ambiguous_spec as Ha. destruct (chain_of _ _ _ _) as [chain found]. destruct Ha as [Ha Hc].
  cbn [fst snd]. case_bool_decide as Hamb; [apply spec_ambiguous; [done|by apply Ha]|].
  assert (Hna : ~ ambiguous) by (by intros Hx%Ha). rewrite (Hc Hna). destruct (asserted_later known_as_of asserted_at) eqn:Hl.
  { unfold asserted_later in Hl. destruct known_as_of as [k|] eqn:Hk; [|done]. destruct asserted_at as [a|] eqn:Hasserted; [|done].
    apply (spec_not_yet_known k a); [done..|]. by apply Z.ltb_lt. }
  case_bool_decide as Hh; [apply path_hidden in Hh as [m Hm]; by eapply spec_superseded|].
  assert (Hnone : forall m, ~ hidden_by m) by (intros m Hm; revert Hh; apply path_hidden; by exists m).
  destruct (before _ as_of) eqn:Hb; [apply before_starts in Hb as [??]; by apply spec_not_yet_valid|].
  rewrite <-not_true_iff_false, before_starts in Hb.
  destruct (after _ as_of) eqn:He; [apply after_ends in He as [??]; by apply spec_expired|].
  rewrite <-not_true_iff_false, after_ends in He. by apply spec_current.
Qed.

Lemma state_spec_unique s t : state_spec s -> state_spec t -> s = t.
Proof.
  assert (Hlater : forall k a, known_as_of = Some k -> asserted_at = Some a -> instant k < instant a -> asserted_later known_as_of asserted_at = true)
    by (intros k a -> -> Hlt; by apply Z.ltb_lt).
  intros Hs Ht. destruct Hs; destruct Ht; try done; try tauto; exfalso;
    match goal with
    | Hk : known_as_of = Some ?k, Ha : asserted_at = Some ?a, Hlt : instant ?k < instant ?a |- _ => pose proof (Hlater k a Hk Ha Hlt); congruence
    | H : forall m, ~ hidden_by m, Hm : hidden_by ?m |- _ => by apply (H m)
    end.
Qed.
End state.

(** ** Grouping the rows *)

Lemma odict_push_flat {K V} `{EqDecision K} (k : K) (v : V) (d : list (K * list V)) :
  odict_set k (default [] (odict_get k d) ++ [v]) d ≫= snd ≡ₚ v :: (d ≫= snd).
Proof.
  induction d as [|[k' l] d IH]; [done|]. cbn [odict_get odict_set]. case_decide as Hk; cbn [mbind list_bind snd].
  - cbn. rewrite <-(assoc_L (++)). cbn. symmetry. apply Permutation_middle.
  - rewrite IH. symmetry. apply Permutation_middle.
Qed.

Lemma rows_by_file_perm rows : rows_by_file rows ≫= snd ≡ₚ rows.
Proof.
  unfold rows_by_file. induction rows as [|row rows IH] using rev_ind; [done|].
  rewrite foldl_app. cbn [foldl]. unfold odict_push. rewrite odict_push_flat, IH. by rewrite Permutation_app_comm.
Qed.

(** What a grouping holds. *)
Record grouped (key_for : Chunk -> string) (rows : list (Chunk * option datetime)) (g : grouping) : Prop := {
  gp_nodup : NoDup (gr_chunks g).*1;
  gp_flat : gr_chunks g ≫= snd ≡ₚ rows.*1;
  gp_key : forall k cs, (k, cs) ∈ gr_chunks g -> cs <> [] /\ Forall (fun c => key_for c = k) cs;
  gp_asserted : forall k, k ∈ (gr_asserted g).*1 <-> k ∈ (gr_chunks g).*1;
  gp_asserted_nodup : NoDup (gr_asserted g).*1;
  gp_first : forall row a, row ∈ rows -> row.2 = Some a ->
    exists first, odict_get (key_for row.1) (gr_asserted g) = Some (Some first) /\ instant first <= instant a;
  gp_dated : forall k first, odict_get k (gr_asserted g) = Some (Some first) -> exists row, row ∈ rows /\ key_for row.1 = k /\ row.2 = Some first
}.

Lemma group_row_grouped key_for pre g row g' :
  grouped key_for pre g -> group_row key_for g row = Ok g' -> grouped key_for (pre ++ [row]) g'.
Proof.
  intros [Hnd Hflat Hkey Hass Hand Hfirst Hdated]. unfold group_row. rewrite bind_ok. intros (earlier & Hearlier & [= <-]).
  assert (Hin : is_Some (odict_get (key_for row.1) (gr_asserted g)) \/ earlier = true).
  { destruct (odict_get (key_for row.1) (gr_asserted g)) as [prev|]; [by left|]. right. by injection Hearlier as <-. }
  split; cbn [gr_chunks gr_asserted].
  - by apply odict_set_nodup.
  - unfold odict_push. rewrite odict_push_flat, Hflat, fmap_app. cbn. by rewrite Permutation_app_comm.
  - intros k cs Hk. unfold odict_push in Hk. apply odict_set_elem in Hk as [[= -> ->]|Hk]; [|by apply Hkey].
    split; [by destruct (default _ _)|]. apply Forall_app. split; [|by repeat constructor].
    destruct (odict_get (key_for row.1) (gr_chunks g)) as [cs|] eqn:Hg; [|by constructor]. cbn. by eapply Hkey, odict_get_in.
  - intros k. unfold odict_push. rewrite odict_set_fst. destruct earlier; [rewrite odict_set_fst, Hass; tauto|].
    rewrite Hass. split; [tauto|]. intros [->|?]; [|done]. destruct Hin as [Hin|?]; [|done]. by apply Hass, odict_get_keys.
  - destruct earlier; [by apply odict_set_nodup|done].
  - assert (Hmin : forall a, row.2 = Some a -> earlier = false ->
        exists first, odict_get (key_for row.1) (gr_asserted g) = Some (Some first) /\ instant first <= instant a).
    { intros a Ha ->. rewrite Ha in Hearlier. destruct (odict_get _ (gr_asserted g)) as [[prev|]|]; [|done..]. exists prev. split; [done|].
      destruct a, prev; cbn in *; try done; injection Hearlier; rewrite bool_decide_eq_false; lia. }
    assert (Hup : forall a prev, row.2 = Some a -> earlier = true -> odict_get (key_for row.1) (gr_asserted g) = Some (Some prev) -> instant a <= instant prev).
    { intros a prev Ha -> Hp. rewrite Ha, Hp in Hearlier. destruct a, prev; cbn in *; try done; injection Hearlier; rewrite bool_decide_eq_true; lia. }
    assert (Hsome : forall prev, earlier = true -> odict_get (key_for row.1) (gr_asserted g) = Some (Some prev) -> is_Some row.2).
    { intros prev -> Hp. rewrite Hp in Hearlier. destruct row.2; [by eexists|done]. }
    intros row' a [Hrow'|Hrow']%elem_of_app Ha; [|apply list_elem_of_singleton in Hrow' as ->].
    + destruct (Hfirst row' a Hrow' Ha) as (first & Hget & Hle). destruct earlier; [|by exists first]. rewrite odict_get_set. case_decide as Hk; [|by exists first].
      rewrite Hk in Hget. destruct (Hsome first eq_refl Hget) as [b Hb]. exists b. split; [by rewrite Hb|]. specialize (Hup b first Hb eq_refl Hget). lia.
    + destruct earlier; [|by apply Hmin]. exists a. rewrite odict_get_set, decide_True by done. split; [by rewrite Ha|lia].
  - intros k first Hget. destruct earlier.
    + rewrite odict_get_set in Hget. case_decide as Hk.
      * injection Hget as Hb. exists row. split_and!; [apply elem_of_app; right; by left|done|done].
      * destruct (Hdated k first Hget) as (row' & ? & ? & ?). exists row'. split_and!; [apply elem_of_app; by left|done..].
    + destruct (Hdated k first Hget) as (row' & ? & ? & ?). exists row'. split_and!; [apply elem_of_app; by left|done..].
Qed.

Lemma group_rows_grouped key_for rows g : group_rows key_for rows = Ok g -> grouped key_for (rows_by_file rows ≫= snd) g.
Proof.
  unfold group_rows. intros H. eapply (result_foldl_inv (group_row key_for) (grouped key_for)); [| |exact H].
  - split; [constructor|done|by intros ? ? ?%not_elem_of_nil|done|constructor|by intros ? ? ?%not_elem_of_nil|done].
  - intros pre row b b' Hb _ Hstep. by eapply group_row_grouped.
Qed.

Lemma string_le_ltb a b : string_le a b <-> string_ltb b a = false.
Proof. unfold string_le, string_ltb. by destruct (String.leb a b). Qed.

Lemma string_le_trans a b c : string_le a b -> string_le b c -> string_le a c.
Proof.
  rewrite !string_le_ltb. intros Hab Hbc. destruct (string_ltb c a) eqn:Hca; [|done].
  destruct (wo_cotrans _ (proj1 string_ltb_weak) c b a Hca); congruence.
Qed.

#[local] Instance string_le_transitive : Transitive string_le.
Proof. intros a b c. apply string_le_trans. Qed.

Lemma by_name_sorted {A} (l : list (string * A)) : StronglySorted string_le (by_name l).*1.
Proof.
  assert (Hle : forall x y : string * A, key_le (fun kv => [kv.1]) x y <-> string_le x.1 y.1).
  { intros x y. unfold key_le, string_le. cbn. case_decide as Hxy; [|done]. rewrite Hxy.
    split; [|done]. intros _. by destruct (String.leb_total y.1 y.1). }
  assert (Htot : Total (key_le (fun kv : string * A => [kv.1]))).
  { intros x y. rewrite !Hle. apply string_le_total. }
  assert (Hs : Sorted (key_le (fun kv : string * A => [kv.1])) (by_name l)) by (by apply (Sorted_merge_sort _)).
  apply Sorted_StronglySorted; [exact string_le_transitive|].
  induction Hs as [|x k Hk IH Hx]; cbn; constructor; [done|]. destruct Hx; cbn; constructor. by apply Hle.
Qed.

Lemma sublist_sorted {A} (R : A -> A -> Prop) l k : l `sublist_of` k -> StronglySorted R k -> StronglySorted R l.
Proof.
  induction 1 as [|x l k Hlk IH|x l k Hlk IH]; intros Hs; [done| |]; inversion_clear Hs as [|? ? Hk Hx]; [|by apply IH].
  constructor; [by apply IH|]. apply Forall_forall. intros y Hy. eapply Forall_forall in Hx; [done|]. by eapply elem_of_sublist.
Qed.

Lemma by_name_perm {A} (l : list (string * A)) : by_name l ≡ₚ l.
Proof. apply merge_sort_Permutation. Qed.

(** ** The projection *)

Section projection.
Context `{UriReader} (sha : value -> string) (iso : datetime -> string).
Context (sn : Snapshot) (as_of : datetime) (known_as_of : option datetime).

(** How the rows are grouped: by path, or by source where two roots hold a path. *)
Definition record_key (graph : SupersessionGraph) (c : Chunk) : string :=
  if decide (g_collided graph = ∅) then chunk_file c else graph_key graph (chunk_file c) (Some (c_source c)).

(** The record of a document before its dependencies are read. *)
Definition base_record (graph : SupersessionGraph) (g : grouping) (kc : string * list Chunk) : CurrentStateRecord :=
  record_of sha iso kc.1 kc.2 graph as_of (sn_tenant sn) (sn_generation sn) (as_utc <$> known_as_of)
    (default None (odict_get kc.1 (gr_asserted g))).

Definition base_records (graph : SupersessionGraph) (g : grouping) : list CurrentStateRecord :=
  map (base_record graph g) (by_name (gr_chunks g)).

Definition base_states (graph : SupersessionGraph) (g : grouping) : gmap string string :=
  list_to_map (map (fun r => (cs_source r, state_name (cs_state r))) (base_records graph g)).

Definition dependency_of (graph : SupersessionGraph) (g : grouping) : DependencyProjection :=
  build_dependency_projection sha iso (sn_tenant sn) (sn_generation sn) (g_collided graph) (gr_chunks g ≫= snd) (base_states graph g)
    (list_to_map (gr_asserted g)) (Some as_of) known_as_of 1 (odict_get "corpus_fingerprint" (sn_binding sn)).

Definition selected_record (source : option string) (g : grouping) (r : CurrentStateRecord) : bool :=
  selected source (cs_source r) (default [] (odict_get (cs_source r) (gr_chunks g))).

Lemma base_record_fields graph g kc :
  cs_source (base_record graph g kc) = kc.1 /\ cs_chunk_ids (base_record graph g kc) = sorted_strings (c_id <$> kc.2) /\
  cs_state (base_record graph g kc) =
    (state_of kc.1 kc.2 graph as_of (as_utc <$> known_as_of) (default None (odict_get kc.1 (gr_asserted g)))).1.1 /\
  cs_base_state (base_record graph g kc) = Some (cs_state (base_record graph g kc)) /\
  cs_successor_chain (base_record graph g kc) =
    (state_of kc.1 kc.2 graph as_of (as_utc <$> known_as_of) (default None (odict_get kc.1 (gr_asserted g)))).2.
Proof. unfold base_record, record_of. by destruct (state_of _ _ _ _ _ _) as [[st ds] ch]. Qed.

Lemma base_sources graph g : cs_source <$> base_records graph g = (by_name (gr_chunks g)).*1.
Proof. unfold base_records. rewrite <-list_fmap_compose. apply list_fmap_ext. intros i kc _. apply base_record_fields. Qed.

Lemma base_records_perm graph g : base_records graph g ≡ₚ base_record graph g <$> gr_chunks g.
Proof. unfold base_records. by rewrite by_name_perm. Qed.

(** What a projection is built from. *)
Lemma project_inv source max_records p :
  project sha iso sn as_of known_as_of source max_records = Ok p ->
  exists graph g,
    sn_graph sn = Ok graph /\ grouped (record_key graph) (rows_by_file (sn_rows sn) ≫= snd) g /\
    check_bound source max_records g = Ok () /\
    csp_records p = map (finish_record sha iso (sn_tenant sn) (sn_generation sn) as_of (dependency_of graph g))
      (filter (fun r => selected_record source g r = true) (base_records graph g)).
Proof.
  unfold project. rewrite bind_ok. intros (by_file & Hfile & H0). apply bind_ok in H0 as ([] & Hbound & H0).
  apply bind_ok in H0 as (graph & Hgraph & H0). apply bind_ok in H0 as (g & Hg & [= <-]). exists graph, g.
  split; [done|]. unfold record_key. case_decide as Hc.
  - injection Hg as <-. split_and!; [by apply group_rows_grouped|done|done].
  - apply bind_ok in Hg as (by_key & Hkey & Hg). apply bind_ok in Hg as ([] & Hbound' & [= <-]).
    split_and!; [by apply group_rows_grouped|done|done].
Qed.

Lemma grouped_lookup key rows g k cs : grouped key rows g -> (k, cs) ∈ gr_chunks g -> odict_get k (gr_chunks g) = Some cs.
Proof. intros Hg Hin. by apply odict_get_some; [apply (gp_nodup _ _ _ Hg)|]. Qed.

(** The bound counts the records that are returned. *)
Lemma selected_count graph g source key rows :
  grouped key rows g ->
  length (filter (fun r => selected_record source g r = true) (base_records graph g)) =
  length (filter (fun kc => selected source kc.1 kc.2 = true) (gr_chunks g)).
Proof.
  intros Hg. rewrite base_records_perm.
  assert (Hsub : forall l, (forall kc, kc ∈ l -> kc ∈ gr_chunks g) ->
    length (filter (fun r => selected_record source g r = true) (base_record graph g <$> l)) =
    length (filter (fun kc => selected source kc.1 kc.2 = true) l)).
  { induction l as [|[k cs] l IH]; intros Hl; [done|]. rewrite fmap_cons, !filter_cons.
    assert (Heq : selected_record source g (base_record graph g (k, cs)) = selected source k cs).
    { unfold selected_record. destruct (base_record_fields graph g (k, cs)) as (-> & _). cbn [fst snd].
      by rewrite (grouped_lookup _ _ _ _ cs Hg) by (apply Hl; by left). }
    rewrite Heq. cbn [fst snd]. assert (IH' := IH (fun kc Hkc => Hl kc (list_elem_of_further _ _ _ Hkc))).
    case_decide; cbn [length]; congruence. }
  by apply Hsub.
Qed.

Lemma finish_fields dependency r :
  let f := finish_record sha iso (sn_tenant sn) (sn_generation sn) as_of dependency r in
  cs_source f = cs_source r /\ cs_chunk_ids f = cs_chunk_ids r /\ cs_base_state f = cs_base_state r /\
  cs_successor_chain f = cs_successor_chain r /\
  cs_state f = match reason_for dependency (cs_source r) with
               | Some _ => if decide (cs_state r = StateCurrent) then StateDependencyInvalidated else cs_state r
               | None => cs_state r
               end.
Proof. done. Qed.


Lemma grouped_members graph g k cs :
  grouped (record_key graph) (rows_by_file (sn_rows sn) ≫= snd) g -> (k, cs) ∈ gr_chunks g ->
  cs ≡ₚ filter (fun c => record_key graph c = k) (sn_rows sn).*1.
Proof.
  intros Hg Hin. rewrite <-(rows_by_file_perm (sn_rows sn)), <-(gp_flat _ _ _ Hg).
  assert (Hkeys : forall k' cs', (k', cs') ∈ gr_chunks g -> Forall (fun c => record_key graph c = k') cs') by (intros; by eapply gp_key).
  pose proof (gp_nodup _ _ _ Hg) as Hnd. clear Hg. induction (gr_chunks g) as [|[k' cs'] l IH]; [by apply not_elem_of_nil in Hin|].
  cbn [mbind list_bind snd]. rewrite filter_app. cbn in Hnd. inversion_clear Hnd as [|? ? Hk Hnd'].
  assert (Hcs' := Hkeys k' cs' (list_elem_of_here _ _)). apply elem_of_cons in Hin as [[= -> ->]|Hin].
  - rewrite list_filter_all by done. rewrite (list_filter_none _ (mbind snd l)); [by rewrite app_nil_r|].
    apply Forall_forall. intros c ([k'' cs''] & Hc & Hin)%list_elem_of_bind Heq. cbn in Hc. apply Hk.
    assert (Hall := Hkeys k'' cs'' (list_elem_of_further _ _ _ Hin)). rewrite Forall_forall in Hall. rewrite <-Heq, (Hall c Hc).
    change k'' with (k'', cs'').1. by apply list_elem_of_fmap_2.
  - rewrite list_filter_none; [apply IH; [done| |done]; intros; apply Hkeys; by right|].
    eapply Forall_impl; [exact Hcs'|]. intros c Hc Heq. cbn in *. apply Hk. rewrite <-Hc, Heq.
    change k with (k, cs).1. by apply list_elem_of_fmap_2.
Qed.

(** A record of a projection, and the document it describes. *)
Lemma project_record source max_records p r :
  project sha iso sn as_of known_as_of source max_records = Ok p -> r ∈ csp_records p ->
  exists graph g cs,
    sn_graph sn = Ok graph /\ grouped (record_key graph) (rows_by_file (sn_rows sn) ≫= snd) g /\ (cs_source r, cs) ∈ gr_chunks g /\
    cs_chunk_ids r = sorted_strings (c_id <$> cs) /\
    cs_base_state r = Some (state_of (cs_source r) cs graph as_of (as_utc <$> known_as_of) (default None (odict_get (cs_source r) (gr_asserted g)))).1.1 /\
    cs_successor_chain r = (state_of (cs_source r) cs graph as_of (as_utc <$> known_as_of) (default None (odict_get (cs_source r) (gr_asserted g)))).2 /\
    cs_state r = match reason_for (dependency_of graph g) (cs_source r) with
                 | Some _ => if decide (cs_base_state r = Some StateCurrent) then StateDependencyInvalidated else default StateInvalid (cs_base_state r)
                 | None => default StateInvalid (cs_base_state r)
                 end.
Proof.
  intros (graph & g & Hgraph & Hg & _ & Hrecords)%project_inv Hr. rewrite Hrecords in Hr.
  apply list_elem_of_fmap in Hr as (b & -> & [_ Hb]%list_elem_of_filter). rewrite base_records_perm in Hb.
  apply list_elem_of_fmap in Hb as ([k cs] & -> & Hin). exists graph, g, cs.
  destruct (base_record_fields graph g (k, cs)) as (Hs & Hids & Hst & Hbase & Hchain).
  destruct (finish_fields (dependency_of graph g) (base_record graph g (k, cs))) as (Fs & Fids & Fbase & Fchain & Fst).
  rewrite Fs, Fids, Fbase, Fchain, Fst, Hbase, Hs, Hids, Hchain. cbn [fst snd] in *. cbn [default].
  split_and!; [done|done|done|done|by rewrite Hst|done|].
  unfold id. destruct (reason_for (dependency_of graph g) k); [|reflexivity]. repeat case_decide; [done|congruence|congruence|done].
Qed.

(** A projection is a partition of the snapshot: every chunk belongs to exactly one record,
    records come sorted by their key, one for each key, and a bound refuses instead of trimming. *)
Theorem projection_partitions source max_records p :
  project sha iso sn as_of known_as_of source max_records = Ok p ->
  StronglySorted string_le (cs_source <$> csp_records p) /\ NoDup (cs_source <$> csp_records p) /\
  (source = None -> csp_records p ≫= cs_chunk_ids ≡ₚ (fun row => c_id row.1) <$> sn_rows sn) /\
  (forall n, max_records = Some n -> Z.of_nat (length (csp_records p)) <= n).
Proof.
  intros (graph & g & Hgraph & Hg & Hbound & Hrecords)%project_inv. rewrite Hrecords. clear Hrecords.
  rewrite <-list_fmap_compose. change (cs_source ∘ _) with cs_source.
  assert (Hsub : cs_source <$> filter (fun r => selected_record source g r = true) (base_records graph g) `sublist_of` (by_name (gr_chunks g)).*1)
    by (rewrite <-(base_sources graph g); apply fmap_sublist, sublist_filter).
  split_and!.
  - eapply sublist_sorted; [exact Hsub|apply by_name_sorted].
  - eapply sublist_NoDup; [|exact Hsub]. rewrite by_name_perm. apply (gp_nodup _ _ _ Hg).
  - intros ->. rewrite list_filter_all by (by apply Forall_true).
    assert (Hfin : forall l, map (finish_record sha iso (sn_tenant sn) (sn_generation sn) as_of (dependency_of graph g)) l ≫= cs_chunk_ids = l ≫= cs_chunk_ids)
      by (intros l; induction l as [|b l IH]; [done|]; cbn; by rewrite <-IH).
    rewrite Hfin, base_records_perm.
    change (fun row : Chunk * option datetime => c_id row.1) with (c_id ∘ @fst Chunk (option datetime)).
    rewrite <-(rows_by_file_perm (sn_rows sn)), (list_fmap_compose fst c_id), <-(gp_flat _ _ _ Hg).
    generalize (gr_chunks g) as l. intros l. induction l as [|[k cs] l IH]; [done|].
    rewrite fmap_cons. cbn [mbind list_bind snd]. rewrite fmap_app, IH.
    apply Permutation_app_tail.
    destruct (base_record_fields graph g (k, cs)) as (_ & -> & _). apply merge_sort_Permutation.
  - intros n ->. cbn [check_bound] in Hbound. rewrite length_fmap, (selected_count _ _ _ _ _ Hg).
    destruct (n <? _) eqn:Hlt; [done|]. by apply Z.ltb_ge.
Qed.

(** Records and dependency nodes are keyed alike. *)
Lemma record_key_dependency graph c : c_source c <> "" -> record_key graph c = dependency_key c (g_collided graph).
Proof.
  intros Hs. unfold record_key, dependency_key, graph_key, key_in. change (chunk_file c) with (source_file c). case_decide as Hc.
  - rewrite Hc. by rewrite decide_False by (intros [[]%not_elem_of_empty _]).
  - destruct (decide (source_file c ∈ g_collided graph)) as [Hin|Hout]; [|by rewrite !decide_False by tauto].
    rewrite decide_True by done. destruct (decide (source_file c = c_source c)) as [Heq|Hne].
    + rewrite decide_False by tauto. done.
    + by rewrite decide_True.
Qed.

Lemma known_sources_elem collided chunks k : k ∈ known_sources collided chunks <-> exists c, c ∈ chunks /\ dependency_key c collided = k.
Proof.
  unfold known_sources. rewrite elem_of_sorted_strings, list_elem_of_fmap. unfold chunks_by_source.
  pose proof (group_by_lookup (fun c => dependency_key c collided) id chunks k) as Hg. rewrite list_fmap_id in Hg.
  set (m := group_by _ _ _) in *.
  assert (Hne : forall k' l, m !! k' = Some l -> l <> []).
  { intros k' l Hl. clear Hg. subst m. unfold group_by in Hl. revert l Hl. induction chunks as [|c chunks' IH] using rev_ind; intros l.
    - cbn. by rewrite lookup_empty.
    - rewrite foldl_app. cbn. destruct (decide (dependency_key c collided = k')) as [->|Hne].
      + rewrite lookup_insert_eq. intros [= <-] [_ ?]%app_nil. done.
      + rewrite lookup_insert_ne by done. apply IH. }
  split.
  - intros ([k' l] & -> & Hl%elem_of_map_to_list). cbn in *. specialize (Hne k' l Hl). rewrite Hl in Hg. cbn in Hg.
    destruct l as [|c l]; [done|]. assert (Hc : c ∈ c :: l) by by left. rewrite Hg in Hc. apply list_elem_of_filter in Hc as [??]. by exists c.
  - intros (c & Hc & Hk). destruct (m !! k) as [l|] eqn:Hl; [exists (k, l); split; [done|by apply elem_of_map_to_list]|].
    cbn in Hg. exfalso. apply (not_elem_of_nil c). rewrite Hg. by apply list_elem_of_filter.
Qed.

(** When the rows of a document were first asserted: the earliest instant any of them has. *)
Definition first_asserted (graph : SupersessionGraph) (k : string) (asserted : option datetime) : Prop :=
  (forall row a, row ∈ sn_rows sn -> record_key graph row.1 = k -> row.2 = Some a -> exists first, asserted = Some first /\ instant first <= instant a) /\
  (forall first, asserted = Some first -> exists row, row ∈ sn_rows sn /\ record_key graph row.1 = k /\ row.2 = Some first).

Lemma grouped_first graph g k cs :
  grouped (record_key graph) (rows_by_file (sn_rows sn) ≫= snd) g -> (k, cs) ∈ gr_chunks g ->
  first_asserted graph k (default None (odict_get k (gr_asserted g))).
Proof.
  intros Hg _. pose proof (rows_by_file_perm (sn_rows sn)) as Hperm. split.
  - intros row a Hrow Hk Ha. rewrite <-Hperm in Hrow. destruct (gp_first _ _ _ Hg row a Hrow Ha) as (first & Hget & Hle).
    rewrite <-Hk, Hget. by exists first.
  - intros first Hfirst. destruct (odict_get k (gr_asserted g)) as [[f|]|] eqn:Hget; try done. injection Hfirst as ->.
    destruct (gp_dated _ _ _ Hg k first Hget) as (row & Hrow & ? & ?). exists row. by rewrite Hperm in Hrow.
Qed.

(** C23: the state of a record is the one its metadata, its successors and the instant call for:
    unreadable, then ambiguous, then not yet known, then superseded by a successor valid at the
    instant, then outside its window, else current, by the chunks and the first assertion of its
    document; a superseded record names a document that hides it, and dependencies only turn a
    current record. *)
Theorem projection_states_exact source max_records p r :
  project sha iso sn as_of known_as_of source max_records = Ok p -> r ∈ csp_records p ->
  exists graph cs asserted,
    sn_graph sn = Ok graph /\ cs ≡ₚ filter (fun c => record_key graph c = cs_source r) (sn_rows sn).*1 /\
    first_asserted graph (cs_source r) asserted /\
    (forall st, cs_base_state r = Some st <-> state_spec (cs_source r) cs graph as_of (as_utc <$> known_as_of) asserted st) /\
    (cs_base_state r = Some StateSuperseded ->
       exists m, last (cs_successor_chain r) = Some m /\ hidden_by (cs_source r) graph as_of (as_utc <$> known_as_of) m) /\
    (cs_base_state r = Some StateCurrent -> cs_state r = StateCurrent \/ cs_state r = StateDependencyInvalidated) /\
    (cs_base_state r <> Some StateCurrent -> Some (cs_state r) = cs_base_state r).
Proof.
  intros Hp Hr. destruct (project_record _ _ _ _ Hp Hr) as (graph & g & cs & Hgraph & Hg & Hin & _ & Hbase & Hchain & Hstate).
  exists graph, cs, (default None (odict_get (cs_source r) (gr_asserted g))). rewrite Hbase in *.
  set (asserted := default None _) in *. pose proof (state_of_spec (cs_source r) cs graph as_of (as_utc <$> known_as_of) asserted) as Hspec.
  split_and!; [done|by eapply grouped_members|by eapply grouped_first| | | |].
  - intros st. split; [by intros [= <-]|]. intros Hst. f_equal. by eapply state_spec_unique.
  - intros [= Hsup]. rewrite Hchain. unfold state_of in *. case_bool_decide; [done|].
    pose proof (ambiguous_spec (cs_source r) cs graph as_of (as_utc <$> known_as_of)) as Ha.
    destruct (chain_of _ _ _ _) as [chain found]. destruct Ha as [Ha Hc]. cbn [fst snd] in *. case_bool_decide as Hd; [done|].
    destruct (asserted_later _ _); [done|]. case_bool_decide as Hne; [|by destruct (before _ _); [|destruct (after _ _)]].
    rewrite Hc in * by (intros Hamb%Ha; done). destruct (last _) as [m|] eqn:Hl; [|by apply last_None in Hl].
    exists m. split; [done|by apply path_last].
  - intros Hcur. rewrite Hstate. injection Hcur as ->. destruct (reason_for _ _); [rewrite decide_True by done; by right|by left].
  - intros Hcur. rewrite Hstate. destruct (reason_for _ _); [by rewrite decide_False|done].
Qed.

(** What a document rests on is sound: nothing it depends on, however far, is superseded, expired,
    unresolved, malformed or on a cycle, but a model's inference. *)
Definition rests_on_sound (graph : SupersessionGraph) (g : grouping) (k : string) : Prop :=
  let chunks := gr_chunks g ≫= snd in
  let asserted := list_to_map (gr_asserted g) in
  let links := links_of sha iso (sn_tenant sn) (sn_generation sn) (g_collided graph) chunks asserted in
  (forall y, rtc (prereq links) k y ->
     sound_document sha iso (sn_tenant sn) (sn_generation sn) (g_collided graph) chunks (base_states graph g) asserted y) /\
  (forall path, DependencyFacts.chain (prereq links) k path -> NoDup (k :: path) -> (length path <= MAX_INVALIDATION_DEPTH)%nat).

Lemma base_states_get graph g key rows k cs :
  grouped key rows g -> (k, cs) ∈ gr_chunks g ->
  base_states graph g !! k =
    Some (state_name (state_of k cs graph as_of (as_utc <$> known_as_of) (default None (odict_get k (gr_asserted g)))).1.1).
Proof.
  intros Hg Hin. unfold base_states. apply elem_of_list_to_map_1.
  - rewrite <-list_fmap_compose. change (fst ∘ _) with cs_source. rewrite base_sources, by_name_perm. apply (gp_nodup _ _ _ Hg).
  - apply list_elem_of_fmap. exists (base_record graph g (k, cs)). destruct (base_record_fields graph g (k, cs)) as (-> & _ & -> & _). split; [done|].
    rewrite base_records_perm. by apply list_elem_of_fmap_2.
Qed.

Lemma sources_of_grouping graph g k :
  Forall (fun row => c_source row.1 <> "") (sn_rows sn) -> grouped (record_key graph) (rows_by_file (sn_rows sn) ≫= snd) g ->
  k ∈ known_sources (g_collided graph) (gr_chunks g ≫= snd) <-> k ∈ (gr_chunks g).*1.
Proof.
  intros Hnamed Hg. rewrite known_sources_elem.
  assert (Hkey : forall k' cs c, (k', cs) ∈ gr_chunks g -> c ∈ cs -> dependency_key c (g_collided graph) = k').
  { intros k' cs c Hin Hc. destruct (gp_key _ _ _ Hg _ _ Hin) as [_ Hall]. rewrite Forall_forall in Hall. rewrite <-(Hall c Hc). symmetry.
    apply record_key_dependency. assert (Hflat : c ∈ gr_chunks g ≫= snd) by (apply list_elem_of_bind; by exists (k', cs)).
    rewrite (gp_flat _ _ _ Hg), rows_by_file_perm in Hflat. apply list_elem_of_fmap in Hflat as (row & -> & Hrow).
    rewrite Forall_forall in Hnamed. by apply Hnamed. }
  split.
  - intros (c & ([k' cs] & Hc & Hin)%list_elem_of_bind & Hk). cbn in Hc. rewrite (Hkey _ _ _ Hin Hc) in Hk. subst k'.
    change k with (k, cs).1. by apply list_elem_of_fmap_2.
  - intros ([k' cs] & -> & Hin)%list_elem_of_fmap. destruct (gp_key _ _ _ Hg _ _ Hin) as [Hne _]. cbn [fst].
    destruct cs as [|c cs]; [done|]. exists c. split; [apply list_elem_of_bind; exists (k', c :: cs); split; [by left|done]|].
    eapply Hkey; [done|by left].
Qed.

(** A record is current exactly when its own state is and everything it rests on is sound, the
    soundness read from the base states of the same projection: every document it depends on,
    through however many links, is a document of the snapshot whose own state, decided at the same
    instant, invalidates nothing (unless a model inferred it). *)
Theorem current_rests_on_sound source max_records p r :
  Forall (fun row => c_source row.1 <> "") (sn_rows sn) ->
  project sha iso sn as_of known_as_of source max_records = Ok p -> r ∈ csp_records p ->
  exists graph g,
    sn_graph sn = Ok graph /\ grouped (record_key graph) (rows_by_file (sn_rows sn) ≫= snd) g /\
    (cs_state r = StateCurrent <-> cs_base_state r = Some StateCurrent /\ rests_on_sound graph g (cs_source r)) /\
    forall y, rtc (prereq (links_of sha iso (sn_tenant sn) (sn_generation sn) (g_collided graph) (gr_chunks g ≫= snd) (list_to_map (gr_asserted g)))) (cs_source r) y ->
      exists cs st, (y, cs) ∈ gr_chunks g /\ base_states graph g !! y = Some (state_name st) /\
        state_spec y cs graph as_of (as_utc <$> known_as_of) (default None (odict_get y (gr_asserted g))) st.
Proof.
  intros Hnamed Hp Hr. destruct (project_record _ _ _ _ Hp Hr) as (graph & g & cs & Hgraph & Hg & Hin & _ & Hbase & _ & Hstate).
  exists graph, g. split_and!; [done|done| |].
  - assert (Hnone : reason_for (dependency_of graph g) (cs_source r) = None <-> rests_on_sound graph g (cs_source r)).
    { unfold rests_on_sound, reason_for. cbn [dependency_of build_dependency_projection dp_invalidations]. apply invalidations_none.
      apply sources_of_grouping; [done..|]. change (cs_source r) with (cs_source r, cs).1. by apply list_elem_of_fmap_2. }
    rewrite <-Hnone, Hstate. rewrite Hbase in *. destruct (reason_for _ _) eqn:Hreason; cbn [default].
    + case_decide as Hc; [split; [done|by intros [_ ?]]|]. split; [intros He; destruct Hc; by apply (f_equal Some) in He|by intros [_ ?]].
    + split; [intros He; split; [by apply (f_equal Some) in He|done]|]. by intros [[= He] _].
  - intros y Hy. assert (Hkey : y ∈ (gr_chunks g).*1).
    { apply rtc_inv_r in Hy as [<-|(x & _ & Hxy)].
      - change (cs_source r) with (cs_source r, cs).1. by apply list_elem_of_fmap_2.
      - apply links_closed in Hxy. by apply (sources_of_grouping graph g). }
    apply list_elem_of_fmap in Hkey as ([y' cs'] & -> & Hin'). cbn [fst].
    exists cs', (state_of y' cs' graph as_of (as_utc <$> known_as_of) (default None (odict_get y' (gr_asserted g)))).1.1.
    split_and!; [done|by eapply base_states_get|apply state_of_spec].
Qed.
End projection.

(** ** The projection and the trust gate *)

(** A window that is read is not over before it starts. *)
Lemma bounds_apart meta start end_ moment :
  validity_bounds meta = Ok (start, end_) -> ~ (before start moment = true /\ after end_ moment = true).
Proof.
  intros Hb. pose proof (validity_bounds_sound meta) as Hs. rewrite Hb in Hs. unfold before, after.
  destruct start, end_; try (by intros [? ?]). rewrite !bool_decide_eq_true.
  destruct Hs as (_ & _ & _ & _ & Hle). specialize (Hle _ _ eq_refl eq_refl). lia.
Qed.

(** When the gate takes a hit for unknown: its own first write is later. *)
Lemma not_known_later known hit b : not_known (as_utc <$> known) hit = Ok b -> b = asserted_later (as_utc <$> known) (first_known hit).
Proof.
  unfold not_known, asserted_later. destruct known as [k|]; cbn; [|by intros [= <-]].
  destruct (first_known hit) as [[f|f]|]; cbn; [done| |by intros [= <-]]. intros [= <-].
  destruct (Z.ltb_spec (instant k) f); [by apply bool_decide_eq_true|apply bool_decide_eq_false; lia].
Qed.

Section agreement.
Context (calibration : option Calibration) (now : datetime) (known_as_of : option datetime) (graph : SupersessionGraph).

(** What the window of a hit alone makes of it. *)
Definition window_says (start end_ : option Z) (v : Verdict) : Prop :=
  if after end_ now then v = Expired else if before start now then v = NotYetValid else v = VerdictOk \/ v = LowConfidence.

(** The gate, rule by rule, on a hit whose window is read. *)
Lemma gate_rules k hit start end_ v va :
  hit_key graph (sc_chunk hit) = Some k -> k <> "" -> chunk_bounds (sc_chunk hit) = Ok (start, end_) ->
  own_verdict calibration now known_as_of (OfGraph graph) ∅ None hit = Ok (v, va) ->
  if asserted_later (as_utc <$> known_as_of) (first_known hit) then v = NotYetKnown
  else if bool_decide (k ∈ g_unresolved graph) then v = AmbiguousSupersession
  else va_superseded_by va = last (graph_successor_path graph k (Some now) (as_utc <$> known_as_of)) /\
       match last (graph_successor_path graph k (Some now) (as_utc <$> known_as_of)) with
       | Some _ => v = Superseded
       | None => window_says start end_ v
       end.
Proof.
  intros Hkey Hk Hb Hv. unfold own_verdict in Hv. change (graph_of (OfGraph graph) ∅) with graph in Hv.
  change (candidates_used (OfGraph graph) ∅ None) with (Some (g_candidates graph)) in Hv.
  change (windows_used (OfGraph graph) ∅) with (Some (g_windows graph)) in Hv.
  unfold verdict_of in Hv. unfold chunk_bounds in Hb. rewrite Hkey, Hb in Hv. cbn [lookup_name in_unresolved] in Hv.
  apply bind_ok in Hv as (later & Hlater%not_known_later & Hv). rewrite <-Hlater. destruct later; [by injection Hv as <- _|].
  cbn [mbind result_bind] in Hv. destruct (bool_decide (k ∈ g_unresolved graph)); [by injection Hv as <- _|].
  rewrite (decide_False (P := k = "")) in Hv by done.
  change (resolve_successor _ _ _ _ _ k) with (last (graph_successor_path graph k (Some now) (as_utc <$> known_as_of))) in Hv.
  destruct (last _); injection Hv as <- <-; (split; [done|]); [done|]. unfold window_says.
  destruct (after end_ now); [done|]. destruct (before start now); [done|]. destruct (low_score _ _); auto.
Qed.

Lemma gate_unread k hit e v va :
  hit_key graph (sc_chunk hit) = Some k -> chunk_bounds (sc_chunk hit) = Raise e ->
  own_verdict calibration now known_as_of (OfGraph graph) ∅ None hit = Ok (v, va) -> v = InvalidMetadata.
Proof.
  unfold own_verdict, verdict_of, chunk_bounds. change (graph_of (OfGraph graph) ∅) with graph. intros -> -> [= <- _]. done.
Qed.

(** The diagnostics the projection adds to the gate's: a reference a chunk declares that nobody
    resolved, several claimants valid at once, a cycle of claims. *)
Definition projection_only (k : string) (cs : list Chunk) : Prop :=
  k ∉ g_unresolved graph /\ ambiguous k cs graph now (as_utc <$> known_as_of).

(** What a record of state [st] and chain [chain] over the chunks [cs], and the verdict [v] on one
    of them, first written at [a], say of the document [k]. *)
Record state_and_verdict (k : string) (cs : list Chunk) (st : current_state) (chain : list string) (a : datetime) (hit : ScoredChunk) (v : Verdict) (va : Validity) : Prop := {
  cmp_invalid : v = InvalidMetadata -> st = StateInvalid;
  cmp_malformed : st = StateInvalid -> ~ readable cs;
  cmp_unresolved : v = AmbiguousSupersession -> st = StateInvalid \/ st = StateAmbiguous;
  cmp_ambiguous : st = StateAmbiguous -> v = AmbiguousSupersession \/ v = NotYetKnown \/ projection_only k cs;
  cmp_clear : st <> StateInvalid -> st <> StateAmbiguous ->
    (v = NotYetKnown <-> asserted_later (as_utc <$> known_as_of) (Some a) = true) /\
    (st = StateNotYetKnown -> v = NotYetKnown) /\
    (v <> NotYetKnown ->
       va_superseded_by va = last chain /\ (v = Superseded <-> st = StateSuperseded) /\
       (st = StateNotYetValid -> v = NotYetValid \/ exists end_, chunk_bounds (sc_chunk hit) = Ok (None, end_)) /\
       (st = StateExpired -> v = Expired \/ exists start, chunk_bounds (sc_chunk hit) = Ok (start, None)) /\
       (st = StateCurrent ->
          match v with
          | VerdictOk | LowConfidence => True
          | NotYetValid => exists s, s ∈ starts cs /\ s <= instant now
          | Expired => exists e, e ∈ ends cs /\ instant now <= e
          | _ => False
          end))
}.

Lemma starts_elem cs c s end_ : c ∈ cs -> chunk_bounds c = Ok (Some s, end_) -> s ∈ starts cs.
Proof. intros Hc Hb. apply list_elem_of_bind. exists c. split; [|done]. rewrite Hb. by left. Qed.

Lemma ends_elem cs c start e : c ∈ cs -> chunk_bounds c = Ok (start, Some e) -> e ∈ ends cs.
Proof. intros Hc Hb. apply list_elem_of_bind. exists c. split; [|done]. rewrite Hb. destruct start; by left. Qed.

Lemma not_all_in (P : Z -> Prop) `{forall x, Decision (P x)} l x : x ∈ l -> ~ (l <> [] /\ Forall P l) -> exists y, y ∈ l /\ ~ P y.
Proof.
  intros Hx Hn. assert (Hf : ~ Forall P l) by (intros Hf; apply Hn; split; [intros ->; by apply not_elem_of_nil in Hx|done]).
  apply not_Forall_Exists, Exists_exists in Hf; [|apply _]. exact Hf.
Qed.

(** The windows compared, where nothing hides the document. *)
Lemma windows_compared k cs asserted hit st start end_ v :
  sc_chunk hit ∈ cs -> chunk_bounds (sc_chunk hit) = Ok (start, end_) -> window_says start end_ v ->
  state_spec k cs graph now (as_utc <$> known_as_of) asserted st ->
  (st = StateNotYetValid -> v = NotYetValid \/ exists end_, chunk_bounds (sc_chunk hit) = Ok (None, end_)) /\
  (st = StateExpired -> v = Expired \/ exists start, chunk_bounds (sc_chunk hit) = Ok (start, None)) /\
  (st = StateCurrent ->
     match v with
     | VerdictOk | LowConfidence => True
     | NotYetValid => exists s, s ∈ starts cs /\ s <= instant now
     | Expired => exists e, e ∈ ends cs /\ instant now <= e
     | _ => False
     end).
Proof.
  intros Hc Hb Hw Hst. pose proof (bounds_apart _ start end_ now Hb) as Hapart. unfold window_says in Hw.
  assert (Hs : forall s, start = Some s -> s ∈ starts cs) by (intros s ->; by eapply starts_elem).
  assert (He : forall e, end_ = Some e -> e ∈ ends cs) by (intros e ->; by eapply ends_elem).
  assert (Hlate : before start now = true -> after end_ now = false) by (destruct (after end_ now); [intros ?; by destruct Hapart|done]).
  destruct Hst as [| |? ? ? ? ? ?|? ? ? ? ?|Hrd Hna Hle Hno Hs1 Hs2|Hrd Hna Hle Hno Hs1 He1 He2|Hrd Hna Hle Hno Hs1 He1]; split_and!; try done; intros _.
  - destruct start as [s|]; [left|right; by exists end_].
    assert (Hbs : before (Some s) now = true) by (apply bool_decide_eq_true; rewrite Forall_forall in Hs2; by apply Hs2, Hs).
    by rewrite (Hlate Hbs), Hbs in Hw.
  - destruct end_ as [e|]; [left|right; by exists start].
    assert (Has : after (Some e) now = true) by (apply bool_decide_eq_true; rewrite Forall_forall in He2; by apply He2, He).
    by rewrite Has in Hw.
  - destruct (after end_ now) eqn:Haf.
    + destruct end_ as [e|]; [rewrite Hw|done]. destruct (not_all_in _ _ e (He e eq_refl) He1) as (y & ? & ?). exists y. split; [done|lia].
    + destruct (before start now) eqn:Hbf; [|by destruct Hw as [-> | ->]].
      destruct start as [s|]; [rewrite Hw|done]. destruct (not_all_in _ _ s (Hs s eq_refl) Hs1) as (y & ? & ?). exists y. split; [done|lia].
Qed.

Lemma compared_read k cs asserted a hit st chain start end_ v va :
  sc_chunk hit ∈ cs -> first_known hit = Some a -> hit_key graph (sc_chunk hit) = Some k -> k <> "" ->
  chunk_bounds (sc_chunk hit) = Ok (start, end_) ->
  own_verdict calibration now known_as_of (OfGraph graph) ∅ None hit = Ok (v, va) ->
  (asserted_later (as_utc <$> known_as_of) (Some a) = false -> asserted_later (as_utc <$> known_as_of) asserted = false) ->
  state_spec k cs graph now (as_utc <$> known_as_of) asserted st ->
  (st <> StateInvalid -> st <> StateAmbiguous -> chain = graph_successor_path graph k (Some now) (as_utc <$> known_as_of)) ->
  state_and_verdict k cs st chain a hit v va.
Proof.
  intros Hc Ha Hkey Hk Hb Hv Hlater Hst Hchain. pose proof (gate_rules k hit start end_ v va Hkey Hk Hb Hv) as Hr. rewrite Ha in Hr.
  assert (Hmal : st = StateInvalid -> ~ readable cs) by (intros ->; by inversion Hst).
  destruct (asserted_later _ (Some a)) eqn:Hl; [subst v; split; [done|done|done|auto|by intros ? ?; split_and!]|].
  specialize (Hlater eq_refl). case_bool_decide as Hu.
  { subst v. assert (Hamb : ambiguous k cs graph now (as_utc <$> known_as_of)) by (left; by left).
    split; [done|done|intros _; destruct Hst; auto; done|auto|]. intros ? ?. by destruct Hst. }
  destruct Hr as [Hsb Hr]. set (path := graph_successor_path graph k (Some now) (as_utc <$> known_as_of)) in *.
  assert (Hshape : v <> InvalidMetadata /\ v <> AmbiguousSupersession /\ v <> NotYetKnown).
  { unfold window_says in Hr. destruct (last path); [by subst v|]. destruct (after end_ now); [by subst v|].
    destruct (before start now); [by subst v|]. by destruct Hr as [-> | ->]. }
  destruct Hshape as (Hv1 & Hv2 & Hv3).
  pose proof (path_hidden k graph now (as_utc <$> known_as_of)) as Hhid. fold path in Hhid.
  assert (Hall : st <> StateInvalid -> st <> StateAmbiguous ->
    st <> StateNotYetKnown /\ (path <> [] <-> st = StateSuperseded)).
  { intros Hi Hm. rewrite Hhid. destruct Hst as [| |kk aa Hrd Hna Hkk Haa Hlt|m Hrd Hna Hle Hm'|Hrd Hna Hle Hno|Hrd Hna Hle Hno|Hrd Hna Hle Hno];
      try done; try (split; [done|]; split; [intros [m Hm']; by destruct (Hno m)|done]).
    - exfalso. unfold asserted_later in Hlater. rewrite Hkk, Haa in Hlater. apply Z.ltb_ge in Hlater. lia.
    - split; [done|]. split; [done|]. intros _. by exists m. }
  split; [by intros ?|done|by intros ?| |].
  - intros ->. right; right. split; [done|]. by inversion Hst.
  - intros Hi Hm. destruct (Hall Hi Hm) as [Hnk Hsup]. rewrite Hl. split; [by split|]. split; [by intros ?|].
    intros _. rewrite (Hchain Hi Hm). split; [done|]. destruct (last path) as [m|] eqn:Hlast.
    + assert (st = StateSuperseded) as -> by (apply Hsup; intros Hn; by rewrite Hn in Hlast). by subst v; split_and!.
    + apply last_None in Hlast. split; [|by eapply windows_compared].
      split; [intros ->|intros Hs%Hsup; done]. unfold window_says in Hr.
      destruct (after end_ now); [done|]. destruct (before start now); [done|]. by destruct Hr.
Qed.
End agreement.

(** Where a state is neither invalid nor ambiguous, the record's chain is the shared walk. *)
Lemma clear_chain k cs graph as_of known asserted :
  (state_of k cs graph as_of known asserted).1.1 <> StateInvalid -> (state_of k cs graph as_of known asserted).1.1 <> StateAmbiguous ->
  (state_of k cs graph as_of known asserted).2 = graph_successor_path graph k (Some as_of) known.
Proof.
  unfold state_of. case_bool_decide; [done|]. pose proof (ambiguous_spec k cs graph as_of known) as Ha.
  destruct (chain_of _ _ _ _) as [chain found]. destruct Ha as [Ha Hc]. cbn [fst snd]. case_bool_decide as Hd; [done|].
  intros _ _. apply Hc. by intros Hx%Ha.
Qed.

Section compared.
Context `{UriReader} (sha : value -> string) (iso : datetime -> string).
Context (calibration : option Calibration) (sn : Snapshot) (as_of : datetime) (known_as_of : option datetime).

(** A hit's key is its record's. *)
Lemma hit_record_key graph c k : hit_key graph c = Some k -> record_key graph c = k.
Proof.
  unfold hit_key, record_key, chunk_file. destruct (meta_get "file" (c_metadata c)) as [| | | |f| | |]; try done.
  case_decide; [done|]. intros [= <-]. case_decide as Hc; [|done]. unfold graph_key, key_in. rewrite Hc.
  by rewrite decide_False by (intros [[]%not_elem_of_empty _]).
Qed.

(** A key is never empty. *)
Lemma hit_key_named graph c k : hit_key graph c = Some k -> k <> "".
Proof.
  unfold hit_key. destruct (meta_get "file" (c_metadata c)) as [| | | |f| | |]; try done. case_decide as Hf; [done|]. intros [= <-].
  unfold graph_key, key_in. case_decide as Hk; [apply Hk|done].
Qed.

(** C25: the projection of a document and the verdicts of search on its chunks, compared at one
    instant over one graph, for a chunk that names its file and was written at a known time; the
    state is the document's own, before its dependencies are read. The projection fails closed
    where search does not: it calls a document invalid when search finds one of its windows
    unreadable, and only when the metadata of one of its chunks cannot be read; invalid or
    ambiguous when search finds its name unresolved; and where it calls a document ambiguous that search does not, the reason is one
    of its own three diagnostics, unless the hit was written later. Everywhere else the two agree
    on who hides the document: a chunk known at the instant is superseded exactly when its
    document is, by the document the record's chain ends with; one written later is not yet known
    to search, as is every chunk of a document that is not yet known. Of the windows search reads
    the chunk's and the projection the span of all chunks': a document is out of its window only
    if its chunks that have that bound are, and a chunk is out of its window while its document
    is current only if another chunk of it is not. *)
Theorem projection_and_search_compared source max_records p r graph hit a v va :
  project sha iso sn as_of known_as_of source max_records = Ok p -> r ∈ csp_records p -> sn_graph sn = Ok graph ->
  (sc_chunk hit, Some a) ∈ sn_rows sn -> first_known hit = Some a ->
  hit_key graph (sc_chunk hit) = Some (cs_source r) ->
  own_verdict calibration as_of known_as_of (OfGraph graph) ∅ None hit = Ok (v, va) ->
  exists cs st, cs_base_state r = Some st /\ sc_chunk hit ∈ cs /\
    cs ≡ₚ filter (fun c => record_key graph c = cs_source r) (sn_rows sn).*1 /\
    state_and_verdict as_of known_as_of graph (cs_source r) cs st (cs_successor_chain r) a hit v va.
Proof.
  intros Hp Hr Hgraph Hrow Ha Hkey Hv. pose proof (hit_key_named _ _ _ Hkey) as Hk.
  destruct (project_record sha iso sn as_of known_as_of _ _ _ _ Hp Hr) as (graph' & g & cs & Hgraph' & Hg & Hin & _ & Hbase & Hchain & _).
  assert (graph' = graph) as -> by congruence. clear Hgraph'.
  set (asserted := default None (odict_get (cs_source r) (gr_asserted g))) in *.
  set (k := cs_source r) in *. set (known := as_utc <$> known_as_of) in *.
  pose proof (grouped_members sn graph g k cs Hg Hin) as Hmem.
  pose proof (hit_record_key _ _ _ Hkey) as Hrk.
  assert (Hc : sc_chunk hit ∈ cs).
  { rewrite Hmem. apply list_elem_of_filter. split; [done|]. by apply (list_elem_of_fmap_2 fst) in Hrow. }
  assert (Hlater : asserted_later known (Some a) = false -> asserted_later known asserted = false).
  { destruct (grouped_first sn graph g k cs Hg Hin) as [Hfirst _]. destruct (Hfirst _ a Hrow Hrk eq_refl) as (first & Hf & Hle).
    fold asserted in Hf. rewrite Hf. unfold asserted_later. destruct known; [|done]. rewrite !Z.ltb_ge. lia. }
  exists cs, (state_of k cs graph as_of known asserted).1.1. split; [exact Hbase|]. split; [done|]. split; [done|].
  pose proof (state_of_spec k cs graph as_of known asserted) as Hspec.
  assert (Hpath : (state_of k cs graph as_of known asserted).1.1 <> StateInvalid -> (state_of k cs graph as_of known asserted).1.1 <> StateAmbiguous ->
    cs_successor_chain r = graph_successor_path graph k (Some as_of) known).
  { rewrite Hchain. by apply clear_chain. }
  destruct (chunk_bounds (sc_chunk hit)) as [[start end_]|e] eqn:Hb.
  - eapply compared_read; done.
  - apply (gate_unread _ _ _ _ _ _ _ _ _ Hkey Hb) in Hv as ->.
    assert (Hbad : ~ readable cs).
    { unfold readable. rewrite Forall_forall. intros Hall. apply (Hall _ Hc).
      right. by rewrite Hb. }
    assert (Hst : (state_of k cs graph as_of known asserted).1.1 = StateInvalid)
      by (eapply state_spec_unique; [exact Hspec|by apply spec_invalid]).
    rewrite Hst. by split.
Qed.
End compared.

(** ** Witnesses: a memo, the one that replaced it, and one that depends on the replaced memo *)

Definition demo_memo (id file : string) (meta : metadata) : Chunk :=
  {| c_id := id; c_source := "/m/" +:+ file; c_text := ""; c_metadata := ("file", VStr file) :: meta |}.

Definition demo_rows : list (Chunk * option datetime) :=
  [(demo_memo "n2" "new.md" [("supersedes", VStr "old.md")], Some (Aware 5)); (demo_memo "o1" "old.md" [], Some (Aware 3));
   (demo_memo "n1" "new.md" [("supersedes", VStr "old.md")], Some (Aware 4));
   (demo_memo "u1" "use.md" [("recall_graph", VDict [("depends_on", VList [VStr "old.md"])])], None);
   (demo_memo "p1" "plain.md" [], None)].

Definition demo_claims : SupersessionGraph :=
  from_parts {[ "old.md" := "new.md" ]} ∅ None None.

Definition demo_snapshot : Snapshot :=
  {| sn_tenant := "t"; sn_generation := "g"; sn_rows := demo_rows; sn_graph := Ok demo_claims; sn_binding := [] |}.

Definition demo_digest (v : value) : string := "digest".
Definition demo_iso (d : datetime) : string := "instant".

Definition demo_projection : result CurrentStateProjection :=
  project demo_digest demo_iso demo_snapshot (Aware 100) None None None.

Example demo_projection_ex :
  fmap (M := result) (fun p => map (fun r => (cs_source r, state_name (cs_state r))) (csp_records p)) demo_projection =
  Ok [("new.md", "current"); ("old.md", "superseded"); ("plain.md", "current"); ("use.md", "dependency_invalidated")].
Proof. vm_compute. reflexivity. Qed.

Definition no_record : CurrentStateRecord :=
  {| cs_state_id := ""; cs_source := ""; cs_state := StateInvalid; cs_chunk_ids := []; cs_successor_chain := []; cs_valid_from := None;
     cs_valid_until := None; cs_diagnostics := []; cs_base_state := None; cs_authority := ""; cs_dependencies := []; cs_invalidation_chain := [] |}.

Definition demo_records : list CurrentStateRecord := Eval vm_compute in
  match demo_projection with Ok p => csp_records p | Raise _ => [] end.

Lemma demo_projects : exists p, demo_projection = Ok p /\ csp_records p = demo_records.
Proof. destruct demo_projection as [p|e] eqn:Hp; [|by vm_compute in Hp]. exists p. split; [done|]. vm_compute in Hp. by injection Hp as <-. Qed.

Lemma projection_partitions_witness :
  length demo_records = 4%nat /\ NoDup (cs_source <$> demo_records) /\
  demo_records ≫= cs_chunk_ids ≡ₚ (fun row => c_id row.1) <$> demo_rows.
Proof.
  split; [reflexivity|]. destruct demo_projects as (p & Hp & <-).
  destruct (projection_partitions demo_digest demo_iso demo_snapshot (Aware 100) None None None p Hp) as (_ & Hnd & Hall & _).
  split; [exact Hnd|]. by apply Hall.
Defined.

Lemma projection_states_exact_witness :
  let r := nth 1 demo_records no_record in
  cs_source r = "old.md" /\ cs_base_state r = Some StateSuperseded /\
  exists m, last (cs_successor_chain r) = Some m /\ hidden_by "old.md" demo_claims (Aware 100) None m.
Proof.
  cbn zeta. split_and!; [reflexivity..|]. destruct demo_projects as (p & Hp & Hrec).
  destruct (projection_states_exact demo_digest demo_iso demo_snapshot (Aware 100) None None None p (nth 1 demo_records no_record) Hp)
    as (graph & cs & asserted & Hgraph & _ & _ & _ & Hsup & _); [rewrite Hrec; right; by left|].
  injection Hgraph as <-. exact (Hsup eq_refl).
Defined.

Lemma current_rests_on_sound_witness :
  cs_state (nth 3 demo_records no_record) = StateDependencyInvalidated /\
  exists graph g, sn_graph demo_snapshot = Ok graph /\
    rests_on_sound demo_digest demo_iso demo_snapshot (Aware 100) None graph g "plain.md".
Proof.
  split; [reflexivity|]. destruct demo_projects as (p & Hp & Hrec).
  destruct (current_rests_on_sound demo_digest demo_iso demo_snapshot (Aware 100) None None None p (nth 2 demo_records no_record))
    as (graph & g & Hgraph & _ & Hiff & _); [by repeat constructor|exact Hp|rewrite Hrec; right; right; by left|].
  exists graph, g. split; [exact Hgraph|]. apply Hiff. reflexivity.
Defined.

Definition demo_hit_of (c : Chunk) : ScoredChunk :=
  {| sc_chunk := c; sc_score := half; sc_indexed_at := Some (Aware 3); sc_first_indexed_at := Some (Aware 3); sc_kind := DenseCosine |}.

Lemma projection_and_search_compared_witness :
  let hit := demo_hit_of (demo_memo "o1" "old.md" []) in
  exists va, own_verdict None (Aware 100) None (OfGraph demo_claims) ∅ None hit = Ok (Superseded, va) /\
    cs_base_state (nth 1 demo_records no_record) = Some StateSuperseded /\
    va_superseded_by va = last (cs_successor_chain (nth 1 demo_records no_record)).
Proof.
  cbn zeta. set (hit := demo_hit_of _). destruct demo_projects as (p & Hp & Hrec).
  destruct (own_verdict None (Aware 100) None (OfGraph demo_claims) ∅ None hit) as [[v va]|e] eqn:Hv; [|by vm_compute in Hv].
  destruct (projection_and_search_compared demo_digest demo_iso None demo_snapshot (Aware 100) None None None p (nth 1 demo_records no_record)
    demo_claims hit (Aware 3) v va Hp) as (cs & st & Hst & _ & _ & Hcmp);
    [rewrite Hrec; right; by left|reflexivity|right; by left|reflexivity|reflexivity|exact Hv|].
  injection Hst as <-. destruct (cmp_clear _ _ _ _ _ _ _ _ _ _ _ Hcmp) as (Hnk & _ & Hclear); [done|done|].
  destruct Hclear as (Hby & [_ Hsup] & _); [by intros ?%Hnk|]. exists va. rewrite (Hsup eq_refl). split_and!; [done|done|exact Hby].
Defined.

(** The projection is the stricter of the two: a document that claims to supersede one nobody can
    name is ambiguous to it and [ok] to search. *)
Example projection_fails_closed :
  let c := demo_memo "x1" "x.md" [("supersedes", VStr "gone.md")] in
  let graph := from_parts ∅ {[ "gone" ]} None None in
  (state_of "x.md" [c] graph (Aware 100) None None).1.1 = StateAmbiguous /\
  fmap (M := result) fst (own_verdict None (Aware 100) None (OfGraph graph) ∅ None (demo_hit_of c)) = Ok VerdictOk.
Proof. vm_compute. by split. Qed.
