(* ===== verification/SecurityPolicy.v ===== *)
(** * SecurityPolicy: who may read which source (src/recall/security_policy.py)

    Rules by source prefix, the longest-prefix decision, the prefix scope that stands
    for it in SQL, and the loading of a policy file.  [json_sha256] stands for the
    SHA-256 of a payload's compact JSON, [redaction_sub] for what [re.sub] answers for
    one of the redaction patterns. *)
From S2P Require Import Prelude Text Float64 Frontmatter Scope.

Local Open Scope Z_scope.

(** [Classification] and [_CLEARANCE_ORDER]. *)
Inductive Classification := Public | Internal | Confidential | Restricted.

#[export] Instance Classification_eq_dec : EqDecision Classification.
Proof. solve_decision. Defined.

Definition CLEARANCE_ORDER (c : Classification) : Z :=
  match c with Public => 0 | Internal => 1 | Confidential => 2 | Restricted => 3 end.

Definition classification_name (c : Classification) : string :=
  match c with
  | Public => "public" | Internal => "internal" | Confidential => "confidential" | Restricted => "restricted"
  end.

Definition parse_classification (s : string) : option Classification :=
  head (filter (fun c => classification_name c = s) [Public; Internal; Confidential; Restricted]).

(** [AccessContext]. *)
Record AccessContext := {
  ac_principal : string;
  ac_tenant : string;
  ac_purpose : string;
  ac_clearance : Classification;
  ac_egress_allowed : bool
}.

(** [SourceRule]. *)
Record SourceRule := {
  sr_prefix : string;
  sr_classification : Classification;
  sr_principals : gset string;
  sr_purposes : gset string;
  sr_redactions : list string;
  sr_allow_egress : bool
}.

#[export] Instance SourceRule_eq_dec : EqDecision SourceRule.
Proof. solve_decision. Defined.

(** [SourceRule.__post_init__]. *)
Definition source_rule (r : SourceRule) : result SourceRule :=
  let normalized := normalize_path (sr_prefix r) in
  if decide (normalized = "") then Raise (ValueError "source rule prefix must be non empty")
  else Ok {| sr_prefix := normalized; sr_classification := sr_classification r;
             sr_principals := sr_principals r; sr_purposes := sr_purposes r;
             sr_redactions := sr_redactions r; sr_allow_egress := sr_allow_egress r |}.

(** [PolicyDecision]. *)
Inductive decision_reason := NoRule | Allowed | Denied.

#[export] Instance decision_reason_eq_dec : EqDecision decision_reason.
Proof. solve_decision. Defined.

Record PolicyDecision := {
  pd_allowed : bool;
  pd_source : string;
  pd_classification : option Classification;
  pd_redactions : list string;
  pd_reason : decision_reason;
  pd_policy_digest : string
}.

Record SourceSecurityPolicy := {
  sp_rules : list SourceRule;
  sp_matching_rules : list SourceRule;
  sp_digest : string;
  sp_content_digest : string
}.

(** What one rule asks of the caller (the conjunction of [decide]). *)
Definition admits (rule : SourceRule) (context : AccessContext) : bool :=
  (bool_decide (sr_principals rule = ∅) || bool_decide (ac_principal context ∈ sr_principals rule)) &&
  bool_decide (ac_purpose context ∈ sr_purposes rule) &&
  (CLEARANCE_ORDER (sr_classification rule) <=? CLEARANCE_ORDER (ac_clearance context)) &&
  (ac_egress_allowed context || negb (sr_allow_egress rule)).

(** [SourceSecurityPolicy._matching]. *)
Definition matching (p : SourceSecurityPolicy) (source : string) : list SourceRule :=
  let normalized := normalize_path source in
  filter (fun rule => covers (sr_prefix rule) normalized = true) (sp_matching_rules p).

(** [SourceSecurityPolicy.decide]. *)
Definition policy_decide (p : SourceSecurityPolicy) (source : string) (context : AccessContext) : PolicyDecision :=
  match matching p source with
  | [] => {| pd_allowed := false; pd_source := source; pd_classification := None; pd_redactions := [];
             pd_reason := NoRule; pd_policy_digest := sp_digest p |}
  | rule :: _ =>
      let allowed := admits rule context in
      {| pd_allowed := allowed; pd_source := source; pd_classification := Some (sr_classification rule);
         pd_redactions := sr_redactions rule; pd_reason := if allowed then Allowed else Denied;
         pd_policy_digest := sp_digest p |}
  end.

(** [other.prefix.startswith(rule.prefix + "/")]. *)
Definition beneath (below above : string) : bool := starts_with below (above +:+ "/").

(** ** [scope_for] *)

Definition has_denied_descendant (p : SourceSecurityPolicy) (context : AccessContext) (rule : SourceRule) : bool :=
  existsb (fun other => beneath (sr_prefix other) (sr_prefix rule) &&
                        negb (pd_allowed (policy_decide p (sr_prefix other) context))) (sp_rules p).

(** One turn of the loop over the rules. *)
Definition allow_step (p : SourceSecurityPolicy) (context : AccessContext) (allowed : list string)
    (rule : SourceRule) : list string :=
  let prefix := sr_prefix rule in
  if negb (pd_allowed (policy_decide p prefix context)) then allowed
  else if has_denied_descendant p context rule then allowed
  else if existsb (fun q => covers q prefix) allowed then allowed
  else filter (fun q => beneath q prefix = false) allowed ++ [prefix].

Definition allowed_prefixes (p : SourceSecurityPolicy) (context : AccessContext) : list string :=
  foldl (allow_step p context) [] (sp_rules p).

Definition scope_for (p : SourceSecurityPolicy) (context : AccessContext) : result Scope :=
  check_scope {| scp_source := None; scp_folder := None; scp_facet := None;
                 scp_source_prefixes := Some (dedup (allowed_prefixes p context));
                 scp_security_policy_digest := Some (sp_digest p) |}.

(** [replace(scope, source_prefixes=..., security_policy_digest=...)]. *)
Definition with_prefixes (s : Scope) (prefixes : option (list string)) (digest : string) : result Scope :=
  check_scope {| scp_source := scp_source s; scp_folder := scp_folder s; scp_facet := scp_facet s;
                 scp_source_prefixes := prefixes; scp_security_policy_digest := Some digest |}.

(** The prefix both sides allow, if one lies in the other. *)
Definition narrower (left right : string) : list string :=
  if decide (left = right \/ beneath left right = true) then [left]
  else if beneath right left then [right] else [].

(** [SourceSecurityPolicy.constrain_scope]. *)
Definition constrain_scope (p : SourceSecurityPolicy) (scope : option Scope) (context : AccessContext) : result Scope :=
  security_scope ← scope_for p context;
  match scope with
  | None => Ok security_scope
  | Some s =>
      if decide (scp_security_policy_digest s <> None /\ scp_security_policy_digest s <> Some (sp_digest p))
      then Raise (ValueError "scope was created for a different source security policy")
      else match scp_source_prefixes s with
           | None => with_prefixes s (scp_source_prefixes security_scope) (sp_digest p)
           | Some lefts =>
               with_prefixes s (Some (dedup (lefts ≫= fun left =>
                 default [] (scp_source_prefixes security_scope) ≫= narrower left))) (sp_digest p)
           end
  end.

(** ** Building a policy *)
Section build.
Context (json_sha256 : value -> string).

Definition set_value (s : gset string) : value := VList (VStr <$> sorted_strings (elements s)).

Definition rule_value (r : SourceRule) : value :=
  VDict [("prefix", VStr (sr_prefix r)); ("classification", VStr (classification_name (sr_classification r)));
         ("principals", set_value (sr_principals r)); ("purposes", set_value (sr_purposes r));
         ("redactions", VList (VStr <$> sr_redactions r)); ("allow_egress", VBool (sr_allow_egress r))].

Definition content_value (r : SourceRule) : value :=
  VDict [("prefix", VStr (sr_prefix r)); ("redactions", VList (VStr <$> sr_redactions r))].

(** The two orders; the keys of distinct rules differ in their prefix, so nothing
    after it is ever compared. *)
Definition rule_leb (a b : SourceRule) : bool := String.leb (sr_prefix a) (sr_prefix b).

Definition longest_first (a b : SourceRule) : bool :=
  let la := String.length (sr_prefix a) in let lb := String.length (sr_prefix b) in
  (lb <? la)%nat || ((lb =? la)%nat && String.leb (sr_prefix b) (sr_prefix a)).

(** [SourceSecurityPolicy.__init__]. *)
Definition source_security_policy (rules : list SourceRule) (default_deny : bool) : result SourceSecurityPolicy :=
  if negb default_deny then Raise (ValueError "source security policy must use default_deny=true")
  else if negb (bool_decide (NoDup (sr_prefix <$> rules)))
  then Raise (ValueError "source security policy cannot contain duplicate prefixes")
  else
    let sorted := stable_sort rule_leb rules in
    Ok {| sp_rules := sorted;
          sp_matching_rules := stable_sort longest_first sorted;
          sp_digest := json_sha256 (VDict [("default_deny", VBool default_deny); ("rules", VList (rule_value <$> sorted))]);
          sp_content_digest := json_sha256 (VDict [("rules", VList (content_value <$> sorted))]) |}.

End build.

(** [redact_with_decision]: the decision's patterns, in its order. *)
Definition REDACTIONS : list string := ["email"; "phone"; "secret"].

Definition redact_with_decision (redaction_sub : string -> string -> string) (text : string) (d : PolicyDecision) :
    result (string * PolicyDecision) :=
  if negb (pd_allowed d) then Raise (PermissionError "source denied")
  else redacted ← result_foldl (fun t name =>
         if decide (name ∈ REDACTIONS) then Ok (redaction_sub name t)
         else Raise (ValueError "unknown redaction rule")) text (pd_redactions d);
       Ok (redacted, d).

(** [redact]. *)
Definition redact (redaction_sub : string -> string -> string) (p : SourceSecurityPolicy) (source text : string)
    (context : AccessContext) : result (string * PolicyDecision) :=
  redact_with_decision redaction_sub text (policy_decide p source context).

(** ** Loading a policy file *)

(** [strict_bool] (src/recall/_env.py). *)
Definition TRUE_VALUES : list string := ["1"; "true"; "yes"; "on"].
Definition FALSE_VALUES : list string := ["0"; "false"; "no"; "off"; ""].

Definition env_strict_bool (raw : string) : result bool :=
  let v := lower (strip raw) in
  if decide (v ∈ TRUE_VALUES) then Ok true
  else if decide (v ∈ FALSE_VALUES) then Ok false
  else Raise (ValueError "is not a boolean; expected true or false").

(** [_strict_bool]: the [ValueError] of a word is replaced by its own. *)
Definition strict_bool_value (raw : value) : result bool :=
  let refused := Raise (ValueError "must be a boolean") in
  match raw with
  | VBool b => Ok b
  | VInt n => if decide (n = 0) then Ok false else if decide (n = 1) then Ok true else refused
  | VStr s =>
      if blank s then refused
      else match env_strict_bool s with Ok b => Ok b | Raise _ => refused end
  | _ => refused
  end.

(** [_POLICY_KEYS] and [_RULE_KEYS]. *)
Definition POLICY_KEYS : list string := ["default_deny"; "rules"].
Definition RULE_KEYS : list string :=
  ["prefix"; "classification"; "principals"; "purposes"; "redactions"; "allow_egress"].

Definition unknown_keys (keys : list string) (d : metadata) : list string := filter (fun k => k ∉ keys) d.*1.

(** [isinstance(value, list) and all(isinstance(item, str) for item in value)]. *)
Fixpoint all_strings (l : list value) : option (list string) :=
  match l with
  | [] => Some []
  | VStr s :: l' => cons s <$> all_strings l'
  | _ => None
  end.

Definition string_array (v : value) : result (list string) :=
  match v with
  | VList l => match all_strings l with
               | Some ss => Ok ss
               | None => Raise (ValueError "must be an array of strings")
               end
  | _ => Raise (ValueError "must be an array of strings")
  end.

(** [classification not in _CLEARANCE_ORDER]: a list or an object cannot be hashed. *)
Definition classification_of (v : value) : result Classification :=
  match v with
  | VStr s => match parse_classification s with
              | Some c => Ok c
              | None => Raise (ValueError "classification is invalid")
              end
  | VList _ | VDict _ => Raise (TypeError "unhashable type")
  | _ => Raise (ValueError "classification is invalid")
  end.

(** The body of the loop over the raw rules. *)
Definition read_rule (raw : value) : result SourceRule :=
  match raw with
  | VDict d =>
      if decide (unknown_keys RULE_KEYS d <> []) then Raise (ValueError "source policy rule has unknown keys")
      else match odict_get "principals" d, odict_get "purposes" d, odict_get "redactions" d with
      | Some principals, Some purposes, Some redactions =>
          match odict_get "prefix" d with
          | Some (VStr prefix) =>
              classification ← classification_of (default (VStr "internal") (odict_get "classification" d));
              principals ← string_array principals;
              purposes ← string_array purposes;
              redactions ← string_array redactions;
              if decide (filter (fun r => r ∉ REDACTIONS) redactions <> [])
              then Raise (ValueError "source policy rule has unknown redactions")
              else
                allow_egress ← strict_bool_value (default (VBool false) (odict_get "allow_egress" d));
                source_rule {| sr_prefix := prefix; sr_classification := classification;
                               sr_principals := list_to_set principals; sr_purposes := list_to_set purposes;
                               sr_redactions := redactions; sr_allow_egress := allow_egress |}
          | _ => Raise (ValueError "source policy rule prefix must be a string")
          end
      | _, _, _ => Raise (ValueError "source policy rule is missing required keys")
      end
  | _ => Raise (ValueError "source policy rule must be an object")
  end.

(** The payload of the file, read into a policy. *)
Definition read_policy (json_sha256 : value -> string) (payload : value) : result SourceSecurityPolicy :=
  match payload with
  | VDict d =>
      if decide (unknown_keys POLICY_KEYS d <> []) then Raise (ValueError "source policy has unknown keys")
      else match odict_get "rules" d with
      | Some (VList raw_rules) =>
          rules ← result_mapM read_rule raw_rules;
          default_deny ← strict_bool_value (default (VBool true) (odict_get "default_deny" d));
          source_security_policy json_sha256 rules default_deny
      | _ => Raise (ValueError "source policy rules must be a JSON array")
      end
  | _ => Raise (ValueError "source policy must be a JSON object")
  end.

(** [load_source_policy]; [load_json] opens and parses the named file. *)
Definition load_source_policy (json_sha256 : value -> string) (load_json : string -> result value)
    (env : list (string * string)) : result (option SourceSecurityPolicy) :=
  let path := strip (default "" (odict_get "RECALL_SOURCE_POLICY_FILE" env)) in
  if decide (path = "") then Ok None
  else payload ← load_json path; p ← read_policy json_sha256 payload; Ok (Some p).

(** [access_context_from_environment]. *)
Definition access_context_from_environment (tenant : string) (env : list (string * string)) (purpose : string) :
    result AccessContext :=
  match parse_classification (lower (strip (default "internal" (odict_get "RECALL_CLEARANCE" env)))) with
  | None => Raise (ValueError "RECALL_CLEARANCE must be one of public, internal, confidential, restricted")
  | Some clearance =>
      egress ← strict_bool_value (VStr (default "0" (odict_get "RECALL_EGRESS_ALLOWED" env)));
      let principal := strip (default "cli" (odict_get "RECALL_PRINCIPAL" env)) in
      Ok {| ac_principal := if decide (principal = "") then "cli" else principal; ac_tenant := tenant;
            ac_purpose := purpose; ac_clearance := clearance; ac_egress_allowed := egress |}
  end.

(** ** What a scope admits *)

(** What the prefix patterns of a scope match: each is normalized when it is rendered
    ([source_prefix_regex_pattern]). *)
Definition in_prefixes (prefixes : list string) (source : string) : Prop :=
  exists p, p ∈ prefixes /\ covers (normalize_path p) source = true.

(** A rule the scope stands for: it admits the caller, and so does every rule below. *)
Definition open_rule (rules : list SourceRule) (context : AccessContext) (r : SourceRule) : Prop :=
  r ∈ rules /\ admits r context = true /\
  forall other, other ∈ rules -> beneath (sr_prefix other) (sr_prefix r) = true -> admits other context = true.

(** The longest rule that covers a source. *)
Definition longest_rule (rules : list SourceRule) (source : string) (r : SourceRule) : Prop :=
  r ∈ rules /\ covers (sr_prefix r) source = true /\
  forall other, other ∈ rules -> covers (sr_prefix other) source = true ->
    (String.length (sr_prefix other) <= String.length (sr_prefix r))%nat.

(** ** The order of the rules *)

Lemma string_leb_refl a : String.leb a a = true.
Proof. destruct (String.leb_total a a); done. Qed.

Lemma string_leb_total a b : String.leb a b = true \/ String.leb b a = true.
Proof. destruct (String.leb_total a b); auto. Qed.

Lemma longest_first_total a b : longest_first a b = true \/ longest_first b a = true.
Proof.
  unfold longest_first. rewrite !orb_true_iff, !andb_true_iff, !Nat.ltb_lt, !Nat.eqb_eq.
  destruct (Nat.lt_trichotomy (String.length (sr_prefix a)) (String.length (sr_prefix b))) as [?|[->|?]]; [tauto| |tauto].
  destruct (string_leb_total (sr_prefix b) (sr_prefix a)); tauto.
Qed.

Definition no_longer (a b : SourceRule) : Prop :=
  (String.length (sr_prefix b) <= String.length (sr_prefix a))%nat.

Lemma longest_first_length a b : longest_first a b = true -> no_longer a b.
Proof.
  unfold longest_first, no_longer. rewrite orb_true_iff, andb_true_iff, Nat.ltb_lt, Nat.eqb_eq. lia.
Qed.

Lemma sorted_no_longer l : Sorted (leb_le longest_first) l -> StronglySorted no_longer l.
Proof.
  intros Hs. apply Sorted_StronglySorted; [intros a b c; unfold no_longer; lia|].
  induction Hs as [|a l Hs IH Hhd]; constructor; [done|].
  inversion_clear Hhd; constructor. by apply longest_first_length.
Qed.

Lemma filter_head_first {A} (R : A -> A -> Prop) (P : A -> Prop) `{!forall x, Decision (P x)} l x k :
  StronglySorted R l -> filter P l = x :: k -> P x /\ x ∈ l /\ forall y, y ∈ l -> P y -> y = x \/ R x y.
Proof.
  induction 1 as [|y l Hs IH Hall]; [done|]. rewrite filter_cons. case_decide as HP.
  - intros [= -> _]. split_and!; [done|by left|]. intros z [->|Hz]%elem_of_cons _; [by left|].
    right. rewrite Forall_forall in Hall. by apply Hall.
  - intros (Hx & Hin & Hle)%IH. split_and!; [done|by right|].
    intros z [->|Hz]%elem_of_cons Hz'; [done|]. by apply Hle.
Qed.

(** ** A policy as it is built *)
Section policy.
Context (json_sha256 : value -> string) (rules : list SourceRule) (p : SourceSecurityPolicy).
Context (Hbuilt : source_security_policy json_sha256 rules true = Ok p).
Context (Hnormal : Forall (fun r => normalized (sr_prefix r)) rules).

Lemma built_rules : sp_rules p ≡ₚ rules.
Proof.
  unfold source_security_policy in Hbuilt. simpl in Hbuilt. case_bool_decide; [|done].
  simplify_eq/=. apply stable_sort_perm.
Qed.

Lemma built_matching : sp_matching_rules p ≡ₚ rules /\ StronglySorted no_longer (sp_matching_rules p).
Proof.
  unfold source_security_policy in Hbuilt. simpl in Hbuilt. case_bool_decide; [|done].
  simplify_eq/=. split; [by rewrite !stable_sort_perm|].
  apply sorted_no_longer, stable_sort_sorted, longest_first_total.
Qed.

Lemma built_prefixes : NoDup (sr_prefix <$> rules).
Proof. unfold source_security_policy in Hbuilt. simpl in Hbuilt. by case_bool_decide. Qed.

Lemma same_prefix r r' : r ∈ rules -> r' ∈ rules -> sr_prefix r = sr_prefix r' -> r = r'.
Proof.
  intros (i & Hi)%list_elem_of_lookup (j & Hj)%list_elem_of_lookup Heq.
  assert (i = j); [|by simplify_eq]. eapply NoDup_lookup; [apply built_prefixes|..].
  - by rewrite list_lookup_fmap, Hi.
  - by rewrite list_lookup_fmap, Hj; simpl; rewrite Heq.
Qed.

Lemma rule_normal r : r ∈ rules -> normalized (sr_prefix r).
Proof. rewrite Forall_forall in Hnormal. apply Hnormal. Qed.

(** The rule that decides a source is the longest one that covers it. *)
Lemma matching_longest source rule rest :
  matching p source = rule :: rest -> longest_rule rules (normalize_path source) rule.
Proof.
  unfold matching. destruct built_matching as [Hperm Hsorted].
  intros (Hc & Hin & Hle)%(filter_head_first no_longer); [|done].
  rewrite Hperm in Hin. split_and!; [done..|]. intros other Ho Hco.
  destruct (Hle other) as [->|?]; [by rewrite Hperm|done|lia|done].
Qed.

Lemma matching_none source :
  matching p source = [] <-> forall r, r ∈ rules -> covers (sr_prefix r) (normalize_path source) = false.
Proof.
  unfold matching. destruct built_matching as [Hperm _]. split.
  - intros H0 r Hr. destruct (covers _ _) eqn:Hc; [|done].
    assert (Hin : r ∈ filter (fun rule => covers (sr_prefix rule) (normalize_path source) = true) (sp_matching_rules p)).
    { apply list_elem_of_filter. by rewrite Hperm. }
    rewrite H0 in Hin. by apply elem_of_nil in Hin.
  - intros H0. apply list_filter_none, Forall_forall. intros r Hr.
    rewrite Hperm in Hr. by rewrite H0.
Qed.

Lemma covering_longest source :
  (exists r, r ∈ rules /\ covers (sr_prefix r) (normalize_path source) = true) ->
  exists r, longest_rule rules (normalize_path source) r /\
    forall context, pd_allowed (policy_decide p source context) = admits r context.
Proof.
  intros (r & Hr & Hc). unfold policy_decide. destruct (matching p source) as [|r' rest] eqn:Hm.
  - rewrite matching_none in Hm. by rewrite Hm in Hc.
  - exists r'. split; [by eapply matching_longest|done].
Qed.

Lemma longest_unique n r r' : longest_rule rules n r -> longest_rule rules n r' -> r = r'.
Proof.
  intros (Hr & Hc & Hl) (Hr' & Hc' & Hl').
  specialize (Hl r' Hr' Hc'). specialize (Hl' r Hr Hc).
  apply same_prefix; [done..|].
  pose proof (covers_shorter _ _ _ Hc Hc' Hl') as Hrr. apply covers_spec in Hrr as [->|[x Hx]]; [done|].
  assert (length (chars (sr_prefix r')) = length (chars (sr_prefix r) ++ "/"%char :: x)) as Hlen by by rewrite <-Hx.
  rewrite length_app, !length_chars in Hlen. simpl in Hlen. lia.
Qed.

(** A rule decides its own prefix. *)
Lemma decide_own_prefix r context :
  r ∈ rules -> pd_allowed (policy_decide p (sr_prefix r) context) = admits r context.
Proof.
  intros Hr. pose proof (rule_normal r Hr) as [Hn _].
  assert (Hself : longest_rule rules (normalize_path (sr_prefix r)) r).
  { rewrite Hn. split_and!; [done|apply covers_refl|]. intros other _ [->|[x Hx]]%covers_spec; [done|].
    rewrite <-!length_chars, Hx, length_app. lia. }
  destruct (covering_longest (sr_prefix r)) as (r' & Hr' & Ha).
  { exists r. split; [done|apply Hself]. }
  rewrite Ha. by rewrite (longest_unique _ _ _ Hr' Hself).
Qed.

(** ** The scope of a caller *)

Lemma beneath_covers below above : beneath below above = true -> covers above below = true.
Proof. unfold beneath, covers. intros ->. by rewrite orb_true_r. Qed.

Lemma denied_descendant r context :
  r ∈ rules -> has_denied_descendant p context r = false <->
  forall other, other ∈ rules -> beneath (sr_prefix other) (sr_prefix r) = true -> admits other context = true.
Proof.
  intros Hr. unfold has_denied_descendant. rewrite <-not_true_iff_false, existsb_exists. split.
  - intros Hno other Ho Hb. destruct (admits other context) eqn:Ha; [done|]. exfalso. apply Hno.
    exists other. rewrite <-list_elem_of_In, built_rules, Hb, decide_own_prefix, Ha; done.
  - intros Hall (other & Ho%list_elem_of_In & [Hb Hd]%andb_true_iff). rewrite built_rules in Ho.
    rewrite decide_own_prefix, Hall in Hd; done.
Qed.

(** What the loop has covered after some rules. *)
Definition covered_by (acc : list string) (s : string) : Prop := exists q, q ∈ acc /\ covers q s = true.

Lemma allow_step_covers context acc r s :
  r ∈ rules ->
  covered_by (allow_step p context acc r) s <->
  covered_by acc s \/ open_rule rules context r /\ covers (sr_prefix r) s = true.
Proof.
  intros Hr. unfold allow_step. rewrite decide_own_prefix by done.
  destruct (admits r context) eqn:Ha; simpl.
  2:{ unfold open_rule. rewrite Ha. naive_solver. }
  destruct (has_denied_descendant p context r) eqn:Hd.
  { assert (Hno : ~ open_rule rules context r); [|naive_solver].
    intros (_ & _ & Hall). apply denied_descendant in Hall; [congruence|done]. }
  assert (Hopen : open_rule rules context r) by (split_and!; [done..|by apply denied_descendant]).
  destruct (existsb (fun q => covers q (sr_prefix r)) acc) eqn:He.
  - apply existsb_exists in He as (q & Hq%list_elem_of_In & Hqr). split; [by left|].
    intros [?|[_ Hs]]; [done|]. exists q. split; [done|]. by eapply covers_trans.
  - unfold covered_by. setoid_rewrite elem_of_app. setoid_rewrite list_elem_of_filter.
    setoid_rewrite list_elem_of_singleton. split.
    + intros (q & [[_ Hq]| ->] & Hs); [left; eauto|by right].
    + intros [(q & Hq & Hs)|[_ Hs]]; [|by eauto].
      destruct (beneath q (sr_prefix r)) eqn:Hb; [|by eauto].
      exists (sr_prefix r). split; [by right|]. eapply covers_trans; [by apply beneath_covers|done].
Qed.

Lemma allowed_prefixes_covers context s :
  covered_by (allowed_prefixes p context) s <->
  exists r, open_rule rules context r /\ covers (sr_prefix r) s = true.
Proof.
  unfold allowed_prefixes.
  assert (Hgen : forall l acc, (forall r, r ∈ l -> r ∈ rules) ->
            covered_by (foldl (allow_step p context) acc l) s <->
            covered_by acc s \/ exists r, r ∈ l /\ open_rule rules context r /\ covers (sr_prefix r) s = true).
  { induction l as [|r l IH]; intros acc Hl; simpl.
    - setoid_rewrite elem_of_nil. naive_solver.
    - rewrite IH, allow_step_covers by (intros; apply Hl; rewrite elem_of_cons; auto).
      setoid_rewrite elem_of_cons. naive_solver. }
  rewrite Hgen; [|intros r; by rewrite built_rules]. unfold covered_by at 1. setoid_rewrite elem_of_nil.
  setoid_rewrite built_rules. unfold open_rule. naive_solver.
Qed.

Lemma allowed_prefixes_rules context q : q ∈ allowed_prefixes p context -> exists r, r ∈ rules /\ q = sr_prefix r.
Proof.
  unfold allowed_prefixes.
  assert (Hgen : forall l acc, (forall r, r ∈ l -> r ∈ rules) ->
            (forall q, q ∈ acc -> exists r, r ∈ rules /\ q = sr_prefix r) ->
            q ∈ foldl (allow_step p context) acc l -> exists r, r ∈ rules /\ q = sr_prefix r).
  { induction l as [|r l IH]; intros acc Hl Hacc; simpl; [by apply Hacc|].
    apply IH; [intros; apply Hl; by right|]. intros q' Hq'. unfold allow_step in Hq'.
    destruct (negb _); [by apply Hacc|]. destruct (has_denied_descendant _ _ _); [by apply Hacc|].
    destruct (existsb _ _); [by apply Hacc|].
    rewrite elem_of_app, list_elem_of_filter, list_elem_of_singleton in Hq'.
    destruct Hq' as [[_ ?]| ->]; [by apply Hacc|]. exists r. split; [apply Hl; by left|done]. }
  apply Hgen; [intros r; by rewrite built_rules|]. intros q' Hq'. by apply elem_of_nil in Hq'.
Qed.

(** An open rule's whole subtree is allowed by the longest-prefix decision. *)
Lemma open_rule_allowed r context source :
  open_rule rules context r -> covers (sr_prefix r) source = true ->
  pd_allowed (policy_decide p source context) = true.
Proof.
  intros (Hr & Ha & Hall) Hc.
  pose proof (covers_normalize _ _ (rule_normal r Hr) Hc) as Hcn.
  destruct (covering_longest source) as (r' & (Hr' & Hc' & Hl) & ->); [by exists r|].
  pose proof (covers_shorter _ _ _ Hcn Hc' (Hl r Hr Hcn)) as Hrr.
  unfold covers in Hrr. apply orb_true_iff in Hrr as [Heq%bool_decide_eq_true|Hb].
  - by rewrite (same_prefix r' r).
  - by apply Hall.
Qed.

End policy.

(** Rules that went through their constructor. *)
Lemma built_normal raws rules :
  result_mapM source_rule raws = Ok rules -> Forall (fun r => normalized (sr_prefix r)) rules.
Proof.
  rewrite result_mapM_ok. induction 1 as [|raw r raws rules Hr _ IH]; constructor; [|done].
  unfold source_rule in Hr. case_decide; simplify_eq/=. split; [apply normalize_path_idem|done].
Qed.

Lemma check_scope_ok s s' : check_scope s = Ok s' -> s' = s.
Proof. unfold check_scope. repeat case_match; by intros; simplify_eq. Qed.

Lemma in_prefixes_dedup l s : in_prefixes (dedup l) s <-> in_prefixes l s.
Proof. unfold in_prefixes. by setoid_rewrite elem_of_dedup. Qed.

Lemma in_prefixes_allowed json_sha256 rules p context s :
  source_security_policy json_sha256 rules true = Ok p ->
  Forall (fun r => normalized (sr_prefix r)) rules ->
  in_prefixes (dedup (allowed_prefixes p context)) s <->
  exists r, open_rule rules context r /\ covers (sr_prefix r) s = true.
Proof.
  intros Hp Hn. rewrite in_prefixes_dedup, <-(allowed_prefixes_covers _ _ _ Hp Hn).
  unfold in_prefixes, covered_by. rewrite Forall_forall in Hn. split.
  - intros (q & Hq & Hc). exists q. split; [done|].
    destruct (allowed_prefixes_rules _ _ _ Hp _ _ Hq) as (r & Hr%Hn & ->). by destruct Hr as [<- _].
  - intros (q & Hq & Hc). exists q. split; [done|].
    destruct (allowed_prefixes_rules _ _ _ Hp _ _ Hq) as (r & Hr%Hn & ->). by destruct Hr as [-> _].
Qed.

(** What both sides of the intersection cover. *)
Lemma narrower_covers left right s :
  normalized right ->
  in_prefixes (narrower left right) s ->
  covers (normalize_path left) s = true /\ covers right s = true.
Proof.
  intros Hr. unfold narrower, in_prefixes. case_decide as Hl.
  - setoid_rewrite list_elem_of_singleton. intros (q & -> & Hc). split; [done|].
    destruct Hl as [->|Hl%beneath_covers]; [by destruct Hr as [<- _]|].
    eapply covers_trans; [by apply covers_normalize|done].
  - destruct (beneath right left) eqn:Hb.
    + setoid_rewrite list_elem_of_singleton. intros (q & -> & Hc).
      destruct Hr as [Hrn Hrne] eqn:He. rewrite Hrn in Hc. split; [|done].
      eapply covers_trans; [|done]. apply covers_normalize_left; [done|by apply beneath_covers].
    + intros (q & Hq & _). by apply elem_of_nil in Hq.
Qed.

Lemma narrower_complete left right s :
  normalized left -> normalized right -> covers left s = true -> covers right s = true ->
  in_prefixes (narrower left right) s.
Proof.
  intros [Hl _] [Hr _] Hls Hrs. unfold narrower, in_prefixes.
  assert (Hcase : left = right \/ beneath left right = true \/ beneath right left = true).
  { destruct (Nat.le_ge_cases (String.length left) (String.length right)) as [Hle|Hle].
    - pose proof (covers_shorter _ _ _ Hls Hrs Hle) as Hc. unfold covers, beneath in *.
      apply orb_true_iff in Hc as [?%bool_decide_eq_true|?]; auto.
    - pose proof (covers_shorter _ _ _ Hrs Hls Hle) as Hc. unfold covers, beneath in *.
      apply orb_true_iff in Hc as [?%bool_decide_eq_true|?]; auto. }
  case_decide as Hd.
  - exists left. rewrite list_elem_of_singleton, Hl. done.
  - destruct (beneath right left); [|naive_solver]. exists right. rewrite list_elem_of_singleton, Hr. done.
Qed.

(** C13: a prefix scope never reaches what the policy denies.  The scope made for a
    caller covers a source exactly when some rule that covers it admits the caller and
    so does every rule beneath that rule; and then the longest-prefix decision allows
    the caller that source. *)
Theorem scope_for_exact (json_sha256 : value -> string) (raws rules : list SourceRule)
    (p : SourceSecurityPolicy) (context : AccessContext) (sc : Scope) :
  result_mapM source_rule raws = Ok rules ->
  source_security_policy json_sha256 rules true = Ok p ->
  scope_for p context = Ok sc ->
  exists prefixes, scp_source_prefixes sc = Some prefixes /\ forall source,
    (in_prefixes prefixes source <-> exists r, open_rule rules context r /\ covers (sr_prefix r) source = true) /\
    (in_prefixes prefixes source -> pd_allowed (policy_decide p source context) = true).
Proof.
  intros Hraw%built_normal Hp ->%check_scope_ok. eexists; split; [done|]. intros source.
  pose proof (in_prefixes_allowed _ _ _ context source Hp Hraw) as Hin. split; [done|].
  intros (r & Ho & Hc)%Hin. by eapply (open_rule_allowed _ _ _ Hp Hraw).
Qed.

Lemma in_prefixes_bind {A} (f : A -> list string) l s :
  in_prefixes (l ≫= f) s <-> exists x, x ∈ l /\ in_prefixes (f x) s.
Proof. unfold in_prefixes. setoid_rewrite list_elem_of_bind. naive_solver. Qed.

(** The prefixes a policy emits are normal, and what they cover is allowed. *)
Lemma emitted_prefix json_sha256 rules p context q source :
  source_security_policy json_sha256 rules true = Ok p ->
  Forall (fun r => normalized (sr_prefix r)) rules ->
  q ∈ dedup (allowed_prefixes p context) ->
  normalized q /\ (covers q source = true -> pd_allowed (policy_decide p source context) = true).
Proof.
  intros Hp Hn Hq. assert (Hnq : normalized q).
  { rewrite elem_of_dedup in Hq. destruct (allowed_prefixes_rules _ _ _ Hp _ _ Hq) as (r & Hr & ->).
    by eapply rule_normal. }
  split; [done|]. intros Hc.
  assert (Hin : in_prefixes (dedup (allowed_prefixes p context)) source).
  { exists q. destruct Hnq as [-> _]. done. }
  apply (in_prefixes_allowed _ _ _ _ _ Hp Hn) in Hin as (r & Ho & Hrc).
  by eapply (open_rule_allowed _ _ _ Hp Hn).
Qed.

(** The prefixes of a caller's scope, intersected with those a policy emits. *)
Lemma intersection_covers emitted lefts source :
  Forall normalized emitted ->
  (in_prefixes (lefts ≫= fun left => emitted ≫= narrower left) source ->
     in_prefixes lefts source /\ exists q, q ∈ emitted /\ covers q source = true) /\
  (Forall normalized lefts -> in_prefixes lefts source -> in_prefixes emitted source ->
     in_prefixes (lefts ≫= fun left => emitted ≫= narrower left) source).
Proof.
  rewrite !Forall_forall. intros Hn. setoid_rewrite in_prefixes_bind. setoid_rewrite in_prefixes_bind. split.
  - intros (left & Hl & right & Hr & (Hcl & Hcr)%narrower_covers); [|by apply Hn].
    split; [by exists left|by exists right].
  - intros Hnl (left & Hl & Hcl) (right & Hr & Hcr). 
    rewrite (proj1 (Hnl left Hl)) in Hcl. rewrite (proj1 (Hn right Hr)) in Hcr. exists left. split; [done|]. exists right. split; [done|].
    by apply narrower_complete; [apply Hnl|apply Hn|..].
Qed.

(** A policy only narrows a caller's scope.  What it answers keeps the caller's
    source, folder and facet, carries the policy's digest, and covers only sources the
    caller's own prefixes cover and the policy allows; with prefixes in normal form it
    covers every source both scopes cover. *)
Theorem constrain_scope_narrows (json_sha256 : value -> string) (raws rules : list SourceRule)
    (p : SourceSecurityPolicy) (context : AccessContext) (scope sc : Scope) (sec : Scope) :
  result_mapM source_rule raws = Ok rules ->
  source_security_policy json_sha256 rules true = Ok p ->
  scope_for p context = Ok sec ->
  constrain_scope p (Some scope) context = Ok sc ->
  scp_source sc = scp_source scope /\ scp_folder sc = scp_folder scope /\ scp_facet sc = scp_facet scope /\
  scp_security_policy_digest sc = Some (sp_digest p) /\
  exists prefixes, scp_source_prefixes sc = Some prefixes /\ forall source,
    (in_prefixes prefixes source -> pd_allowed (policy_decide p source context) = true /\
       forall own, scp_source_prefixes scope = Some own -> in_prefixes own source) /\
    (forall own, scp_source_prefixes scope = Some own -> Forall normalized own ->
       in_prefixes own source -> in_prefixes (default [] (scp_source_prefixes sec)) source ->
       in_prefixes prefixes source).
Proof.
  intros Hraw%built_normal Hp Hsec. unfold constrain_scope. rewrite Hsec. simpl.
  apply check_scope_ok in Hsec as ->. simpl. case_decide; [done|].
  pose proof (fun q source => emitted_prefix _ _ _ context q source Hp Hraw) as Hem.
  destruct (scp_source_prefixes scope) as [lefts|] eqn:Hl; intros ->%check_scope_ok;
    (split_and!; [done..|]); eexists; (split; [done|]); intros source.
  - assert (Hn : Forall normalized (dedup (allowed_prefixes p context))).
    { apply Forall_forall. intros q Hq. by apply (Hem q source). }
    destruct (intersection_covers _ lefts source Hn) as [Hsound Hcomplete].
    split.
    + rewrite in_prefixes_dedup. intros (Hown & q & Hq & Hc)%Hsound. split; [by eapply Hem|]. intros own [= <-]. done.
    + intros own [= <-]. rewrite (in_prefixes_dedup (lefts ≫= _)). apply Hcomplete.
  - split; [|done]. intros Hin. split; [|done].
    apply (in_prefixes_allowed _ _ _ _ _ Hp Hraw) in Hin as (r & Ho & Hc).
    by eapply (open_rule_allowed _ _ _ Hp Hraw).
Qed.

(** ** A concrete policy *)

Definition rule_of (prefix : string) (principals : list string) (c : Classification) : SourceRule :=
  {| sr_prefix := prefix; sr_classification := c; sr_principals := list_to_set principals;
     sr_purposes := {[ "retrieval" ]}; sr_redactions := []; sr_allow_egress := false |}.

Definition demo_raws : list SourceRule :=
  [rule_of "docs/" [] Public; rule_of "docs/hr" ["ada"] Restricted; rule_of "src\lib" [] Internal].

Definition demo_rules : list SourceRule :=
  match result_mapM source_rule demo_raws with Ok l => l | Raise _ => [] end.

Definition demo_policy : SourceSecurityPolicy :=
  match source_security_policy (fun _ => "digest") demo_rules true with
  | Ok p => p
  | Raise _ => {| sp_rules := []; sp_matching_rules := []; sp_digest := ""; sp_content_digest := "" |}
  end.

Definition demo_caller : AccessContext :=
  {| ac_principal := "bob"; ac_tenant := "t"; ac_purpose := "retrieval"; ac_clearance := Internal;
     ac_egress_allowed := false |}.

Definition demo_sec : Scope := match scope_for demo_policy demo_caller with Ok s => s | Raise _ => empty_scope end.

Definition demo_scope : Scope :=
  {| scp_source := None; scp_folder := Some "src"; scp_facet := None; scp_source_prefixes := Some ["src"; "docs/hr"];
     scp_security_policy_digest := None |}.

Definition demo_constrained : Scope :=
  match constrain_scope demo_policy (Some demo_scope) demo_caller with Ok s => s | Raise _ => empty_scope end.

Example demo_sec_prefixes : scp_source_prefixes demo_sec = Some ["src/lib"].
Proof. vm_compute. reflexivity. Qed.

Lemma demo_rules_ok : result_mapM source_rule demo_raws = Ok demo_rules.
Proof. vm_compute. reflexivity. Qed.
Lemma demo_policy_ok : source_security_policy (fun _ => "digest") demo_rules true = Ok demo_policy.
Proof. vm_compute. reflexivity. Qed.
Lemma demo_sec_ok : scope_for demo_policy demo_caller = Ok demo_sec.
Proof. vm_compute. reflexivity. Qed.
Lemma demo_constrained_ok : constrain_scope demo_policy (Some demo_scope) demo_caller = Ok demo_constrained.
Proof. vm_compute. reflexivity. Qed.

Lemma scope_for_exact_witness :
  pd_allowed (policy_decide demo_policy "src/lib/a.py" demo_caller) = true.
Proof.
  destruct (scope_for_exact _ _ _ _ _ _ demo_rules_ok demo_policy_ok demo_sec_ok) as (prefixes & Hp & Hall).
  apply (Hall "src/lib/a.py"). rewrite demo_sec_prefixes in Hp. injection Hp as <-.
  exists "src/lib". split; [by left|reflexivity].
Defined.

Lemma constrain_scope_narrows_witness :
  scp_folder demo_constrained = Some "src" /\ scp_source_prefixes demo_constrained = Some ["src/lib"].
Proof.
  destruct (constrain_scope_narrows _ _ _ _ _ _ _ _ demo_rules_ok demo_policy_ok demo_sec_ok demo_constrained_ok)
    as (_ & Hf & _).
  split; [exact Hf|vm_compute; reflexivity].
Defined.
