(* ===== verification/UnknownTerms.v ===== *)
(** * UnknownTerms: a question that names what the memory never contained
    (src/recall/unknown_terms.py)

    The tokens of a query that look like names, the vocabulary check, and the gate it
    puts on an evaluated result.  The vocabulary is the store's: a parameter. *)
From S2P Require Import Prelude Text Float64 Frontmatter Types Scope TrustVerdicts TrustGate.

Local Open Scope nat_scope.

(** ** Characters, on Latin-1 text *)

(** [str.isalpha], [str.isdigit] and [str.isupper] on one character. *)
Definition is_alpha (c : ascii) : bool :=
  let n := code c in
  ((65 <=? n) && (n <=? 90)) || ((97 <=? n) && (n <=? 122)) || (n =? 170) || (n =? 181) || (n =? 186)
  || ((192 <=? n) && negb (n =? 215) && negb (n =? 247)).

Definition is_digit_char (c : ascii) : bool :=
  let n := code c in ((48 <=? n) && (n <=? 57)) || (n =? 178) || (n =? 179) || (n =? 185).

Definition is_upper (c : ascii) : bool :=
  let n := code c in ((65 <=? n) && (n <=? 90)) || ((192 <=? n) && (n <=? 222) && negb (n =? 215)).

(** The characters of [_TOKEN]: letters, digits and the three fractions. *)
Definition is_token_char (c : ascii) : bool :=
  is_alpha c || is_digit_char c || ((188 <=? code c) && (code c <=? 190)).

Definition MIN_LENGTH : nat := 3.
Definition GATE_ENV : string := "RECALL_UNKNOWN_TERM_GATE".

(** [_TOKEN.findall]: the maximal runs; [word] is the run read so far, reversed. *)
Fixpoint runs_from (word : list ascii) (l : list ascii) : list (list ascii) :=
  let close := match word with [] => [] | _ => [reverse word] end in
  match l with
  | [] => close
  | c :: l' => if is_token_char c then runs_from (c :: word) l' else close ++ runs_from [] l'
  end.

Definition entity_like (token : list ascii) : bool :=
  let letters := List.filter is_alpha token in
  let has_letter := existsb is_alpha token in
  let has_digit := existsb is_digit_char token in
  let capitals := (2 <=? length letters) && forallb is_upper letters in
  let inner_capital := existsb is_upper (tail token) in
  (MIN_LENGTH <=? length token) && ((has_letter && has_digit) || capitals || inner_capital).

(** [entity_like_tokens]. *)
Definition entity_like_tokens (text : string) : list string :=
  dedup (unchars <$> List.filter entity_like (runs_from [] (chars text))).

Example tokens_ex :
  entity_like_tokens "Is the A320 or IndiGo's A320 at LHR, or xK?" = ["A320"; "IndiGo"; "LHR"].
Proof. vm_compute. reflexivity. Qed.

(** ** The check *)

Record UnknownTermCheck := Check_ { uc_status : string; uc_unknown : list string }.

(** [gate_enabled]. *)
Definition gate_enabled (env : list (string * string)) : bool :=
  negb (bool_decide (lower (strip (default "1" (odict_get GATE_ENV env))) ∈ ["0" : string; "false"; "no"; "off"])).

(** [check_unknown_terms]; [lookup] is the store's [unknown_terms], if it has one. *)
Definition check_unknown_terms (lookup : option (list string -> result (list string))) (query : string)
    (env : list (string * string)) (scope : option Scope) : result UnknownTermCheck :=
  if negb (gate_enabled env) then Ok (Check_ "disabled" [])
  else if decide (scope <> None /\ scope <> Some empty_scope) then Ok (Check_ "unavailable" [])
  else match lookup with
       | None => Ok (Check_ "unavailable" [])
       | Some f =>
           match entity_like_tokens query with
           | [] => Ok (Check_ "checked" [])
           | tokens => unknown ← f tokens; Ok (Check_ "checked" unknown)
           end
       end.

(** ** The gate *)

Definition with_unknown (d : RetrievalDiagnostics) (check : UnknownTermCheck) : RetrievalDiagnostics :=
  {| rd_embedding_profile := rd_embedding_profile d; rd_retrieval_profile := rd_retrieval_profile d;
     rd_index_generation := rd_index_generation d; rd_candidate_pool_size := rd_candidate_pool_size d;
     rd_reranking_ran := rd_reranking_ran d; rd_stage_ms := rd_stage_ms d;
     rd_max_dense_score := rd_max_dense_score d;
     rd_unknown_term_check := uc_status check; rd_unknown_terms := uc_unknown check |}.

(** [replace(trusted, hits=..., abstained=..., reason=..., decision_state=...)]. *)
Definition with_decision (r : TrustedResult) (hits : list TrustedHit) (abstained : bool)
    (reason : option abstention) (state : option DecisionState) : TrustedResult :=
  {| tres_query := tres_query r; tres_hits := hits; tres_abstained := abstained; tres_reason := reason;
     tres_gap_warning := tres_gap_warning r; tres_staleness := tres_staleness r; tres_decision_state := state;
     tres_diagnostics := tres_diagnostics r; tres_calibration_id := tres_calibration_id r;
     tres_calibration_status := tres_calibration_status r; tres_tenant_id := tres_tenant_id r;
     tres_generation_id := tres_generation_id r; tres_pipeline_fingerprint := tres_pipeline_fingerprint r;
     tres_corpus_fingerprint := tres_corpus_fingerprint r; tres_query_set_digest := tres_query_set_digest r;
     tres_trust_state := tres_trust_state r; tres_failure_code := tres_failure_code r |}.

(** [replace(trusted, diagnostics=...)]. *)
Definition with_diagnostics (r : TrustedResult) (d : RetrievalDiagnostics) : TrustedResult :=
  {| tres_query := tres_query r; tres_hits := tres_hits r; tres_abstained := tres_abstained r;
     tres_reason := tres_reason r; tres_gap_warning := tres_gap_warning r; tres_staleness := tres_staleness r;
     tres_decision_state := tres_decision_state r; tres_diagnostics := d;
     tres_calibration_id := tres_calibration_id r; tres_calibration_status := tres_calibration_status r;
     tres_tenant_id := tres_tenant_id r; tres_generation_id := tres_generation_id r;
     tres_pipeline_fingerprint := tres_pipeline_fingerprint r;
     tres_corpus_fingerprint := tres_corpus_fingerprint r; tres_query_set_digest := tres_query_set_digest r;
     tres_trust_state := tres_trust_state r; tres_failure_code := tres_failure_code r |}.

Definition demote_ok (h : TrustedHit) : TrustedHit :=
  if decide (th_verdict h = VerdictOk) then with_verdict h UnknownTerm else h.

(** [apply_unknown_term_gate]. *)
Definition apply_unknown_term_gate (trusted : TrustedResult) (check : UnknownTermCheck) : TrustedResult :=
  let marked := with_diagnostics trusted (with_unknown (tres_diagnostics trusted) check) in
  match uc_unknown check with
  | [] => marked
  | unknown =>
      let hits := map demote_ok (tres_hits trusted) in
      with_decision marked hits true (Some (NamesUnknownTerms unknown))
        (Some (decision_state_for hits (tres_gap_warning trusted)))
  end.

(** ** Properties *)

Lemma demote_ok_not_ok h : th_verdict (demote_ok h) <> VerdictOk.
Proof. unfold demote_ok. by case_decide. Qed.

Lemma demote_ok_none_ok hits : existsb is_trusted (map demote_ok hits) = false.
Proof.
  apply not_true_iff_false. rewrite existsb_exists. intros (h & (g & <- & _)%in_map_iff & Ht).
  unfold is_trusted in Ht. apply bool_decide_eq_true in Ht. by apply demote_ok_not_ok in Ht.
Qed.

(** A question about an unknown name is never answered.  When the vocabulary of
    the whole store lacks a name the question uses, nothing stays [ok], the result
    abstains and is never called supported, and a hit that had another verdict keeps
    it; in every other case the hits and the decision are left as they were, and a
    restricted request never has the vocabulary consulted. *)
Theorem unknown_term_gate_exact (lookup : option (list string -> result (list string))) (query : string)
    (env : list (string * string)) (scope : option Scope) (check : UnknownTermCheck) (trusted : TrustedResult) :
  check_unknown_terms lookup query env scope = Ok check ->
  let r := apply_unknown_term_gate trusted check in
  map th_chunk (tres_hits r) = map th_chunk (tres_hits trusted) /\
  (uc_unknown check = [] ->
     tres_hits r = tres_hits trusted /\ tres_abstained r = tres_abstained trusted /\
     tres_reason r = tres_reason trusted /\ tres_decision_state r = tres_decision_state trusted) /\
  (uc_unknown check <> [] ->
     scope ∈ [None; Some empty_scope] /\ gate_enabled env = true /\
     (exists f, lookup = Some f /\ f (entity_like_tokens query) = Ok (uc_unknown check)) /\
     tres_abstained r = true /\ tres_decision_state r <> Some Supported /\
     Forall2 (fun h h' => th_verdict h' <> VerdictOk /\ (th_verdict h <> VerdictOk -> h' = h))
       (tres_hits trusted) (tres_hits r)).
Proof.
  intros Hcheck. unfold apply_unknown_term_gate. cbn zeta.
  destruct (uc_unknown check) as [|u us] eqn:Hu; [done|]. split; [|split; [done|]].
  - simpl. rewrite map_map. apply map_ext. intros h. unfold demote_ok. by case_decide.
  - intros _. unfold check_unknown_terms in Hcheck. destruct (gate_enabled env); [|by simplify_eq/=].
    simpl in Hcheck. case_decide as Hs; [by simplify_eq/=|]. destruct lookup as [f|]; [|by simplify_eq/=].
    destruct (entity_like_tokens query) as [|t ts] eqn:Ht; [by simplify_eq/=|].
    apply bind_ok in Hcheck as (unknown & Hf & [= <-]). simpl in Hu. subst unknown.
    split_and!; [|done|by exists f|done| |].
    + destruct scope as [s|]; [|by left]. right. rewrite list_elem_of_singleton.
      destruct (decide (Some s = Some empty_scope)); [done|]. by destruct Hs.
    + simpl. unfold decision_state_for. rewrite demote_ok_none_ok. by destruct (_ || _).
    + simpl. induction (tres_hits trusted) as [|h hs IH]; simpl; constructor; [|done].
      split; [apply demote_ok_not_ok|]. intros Hn. unfold demote_ok. by rewrite decide_False.
Qed.

Definition demo_check : UnknownTermCheck := Check_ "checked" ["QX9"].

Lemma unknown_term_gate_exact_witness :
  map th_verdict (tres_hits (apply_unknown_term_gate demo_trusted demo_check)) =
    [UnknownTerm; Superseded; LowConfidence] /\
  tres_abstained (apply_unknown_term_gate demo_trusted demo_check) = true.
Proof.
  split; [vm_compute; reflexivity|].
  refine (proj1 (proj2 (proj2 (proj2 (proj2 (proj2 (unknown_term_gate_exact (Some (fun l => Ok l)) "the QX9" [] None
    demo_check demo_trusted _)) _))))).
  - vm_compute. reflexivity.
  - discriminate.
Defined.
