(* ===== verification/TrustedSearch.v ===== *)
(** * TrustedSearch: one trusted search, gate first (src/recall/trust.py)

    A search as a sequence of actions: the gate (dependency mode, generation binding,
    calibration, dependency projection, embedder lineage), then retrieval and its
    expansions, the supersession edges, the verdicts, the withholding of names, the
    unknown-term gate and the development degradation.  The store, the embedder and
    the retriever are parameters: records of what their methods answer.  Logging,
    metrics and the clock behind the stage timings are not modelled. *)
From S2P Require Import Prelude Text Float64 Frontmatter SourceIdentity References Supersession Resolver.
From S2P Require Import Types Dependency TrustPolicy Calibration TrustVerdicts TrustGate.
From S2P Require Import Scope SecurityPolicy UnknownTerms.

Local Open Scope Z_scope.

(** ** Actions *)

(** How a call ends: it returns, refuses with [TrustRefusal], or raises another
    exception. *)
Inductive outcome (A : Type) : Type :=
| Returned (a : A)
| Refusing (r : TrustRefusal)
| Raising (e : exn).
Arguments Returned {A} a.
Arguments Refusing {A} r.
Arguments Raising {A} e.

(** What a search does that reads the corpus or reports a result.  [AskProjection] is the
    store's own [dependency_projection], which reads what it needs; [ScanCorpus] is
    [project_current_state], which reads every chunk row (without its text where the store can
    leave it out) and the supersession graph.  The generation binding, the dependency mode and
    the calibration are rows of the control plane and not of the corpus. *)
Inductive event :=
| AskProjection
| ScanCorpus
| Retrieve
| Transform
| ReadEdges
| Vocabulary
| DeliverTrace (trace : RetrievalResult) (trusted : TrustedResult) (cal : Calibration)
| RecordRefusal (r : TrustRefusal)
| RecordDecision (r : TrustedResult).

(** The events of a call, in order, and how it ends. *)
Definition action (A : Type) : Type := (list event * outcome A)%type.

#[export] Instance action_ret : MRet action := fun A a => ([], Returned a).

#[export] Instance action_bind : MBind action := fun A B f m =>
  match m with
  | (es, Returned a) => let '(es', o) := f a in (es ++ es', o)
  | (es, Refusing r) => (es, Refusing r)
  | (es, Raising e) => (es, Raising e)
  end.

Definition emit (e : event) : action () := ([e], Returned ()).
Definition refuse {A} (r : TrustRefusal) : action A := ([], Refusing r).
Definition raise {A} (e : exn) : action A := ([], Raising e).
Definition call {A} (o : outcome A) : action A := ([], o).
Definition lift {A} (r : result A) : action A :=
  ([], match r with Ok a => Returned a | Raise e => Raising e end).

(** ** Running an action *)

Lemma action_returned {A B} (f : A -> action B) (m : action A) es b :
  (m ≫= f) = (es, Returned b) <->
  exists es1 a es2, m = (es1, Returned a) /\ f a = (es2, Returned b) /\ es = es1 ++ es2.
Proof.
  unfold mbind, action_bind. destruct m as [es1 [a|r|e]].
  - destruct (f a) as [es2 o] eqn:Hf. split; [intros [= <- ->]; eauto 8|].
    intros (es1' & a' & es2' & [= <- <-] & Hf' & ->). rewrite Hf in Hf'. by simplify_eq.
  - split; [done|]. by intros (? & ? & ? & ? & _).
  - split; [done|]. by intros (? & ? & ? & ? & _).
Qed.

Lemma action_refusing {A B} (f : A -> action B) (m : action A) es r :
  (m ≫= f) = (es, Refusing r) ->
  m = (es, Refusing r) \/
  exists es1 a es2, m = (es1, Returned a) /\ f a = (es2, Refusing r) /\ es = es1 ++ es2.
Proof.
  unfold mbind, action_bind. destruct m as [es1 [a|r'|e]]; [|intros [= -> ->]; by left|done].
  destruct (f a) as [es2 o] eqn:Hf. intros [= <- ->]. right. eauto 8.
Qed.

(** An action that never refuses. *)
Definition refuses_not {A} (m : action A) : Prop := forall es r, m <> (es, Refusing r).

Lemma refuses_not_bind {A B} (f : A -> action B) m :
  refuses_not m -> (forall a, refuses_not (f a)) -> refuses_not (m ≫= f).
Proof. intros Hm Hf es r [?|(es1 & a & es2 & _ & Ha & _)]%action_refusing; [by eapply Hm|by eapply Hf]. Qed.

Lemma refuses_not_lift {A} (r : result A) : refuses_not (lift r).
Proof. by intros es r'; destruct r. Qed.
Lemma refuses_not_emit e : refuses_not (emit e).
Proof. done. Qed.
Lemma refuses_not_ret {A} (a : A) : refuses_not (mret a : action A).
Proof. done. Qed.
Lemma refuses_not_raise {A} e : refuses_not (raise e : action A).
Proof. done. Qed.

(** An action without events. *)
Definition quiet {A} (m : action A) : Prop := m.1 = [].

Lemma quiet_bind {A B} (f : A -> action B) m : quiet m -> (forall a, quiet (f a)) -> quiet (m ≫= f).
Proof.
  unfold quiet, mbind, action_bind. destruct m as [es [a|r|e]]; simpl; [|done..].
  intros -> Hf. specialize (Hf a). destruct (f a). done.
Qed.

Lemma quiet_lift {A} (r : result A) : quiet (lift r).
Proof. done. Qed.
Lemma quiet_ret {A} (a : A) : quiet (mret a : action A).
Proof. done. Qed.
Lemma quiet_call {A} (o : outcome A) : quiet (call o).
Proof. done. Qed.

Create HintDb actions.
#[export] Hint Resolve refuses_not_bind refuses_not_lift refuses_not_emit refuses_not_ret refuses_not_raise : actions.
#[export] Hint Resolve quiet_bind quiet_lift quiet_ret quiet_call : actions.

(** Split a bind whose run is known. *)
Tactic Notation "run" hyp(H) "as" simple_intropattern(p) ident(Hx) :=
  apply action_returned in H as (? & p & ? & Hx & H & ?).

(** ** The store, the embedder, the request *)

Abbreviation fields := (list (string * string)).

(** What the calibration repository answers: a status and, when certified, the
    artifact; [ar_runtime] builds a [Calibration] and may raise. *)
Record CalibrationArtifact := {
  ar_runtime : result Calibration;
  ar_calibration_id : string;
  ar_query_set_digest : string
}.

Record CalibrationResolution := {
  res_status : CalibrationStatus;
  res_artifact : option CalibrationArtifact
}.

(** A store is duck-typed: a method it lacks is [None]. *)
Record Store := {
  st_tenant : option string;
  st_generation_id : option string;
  st_snapshot : bool;
  st_dependency_mode : option (outcome (option string));
  st_binding : option (outcome (option fields));
  st_resolve_calibration : option (outcome CalibrationResolution);
  st_dependency_projection : option (option datetime -> option datetime -> outcome (option DependencyProjection));
  st_current_state : option datetime -> option datetime -> outcome (option DependencyProjection);
  st_supersession_graph : result (option SupersessionGraph);
  st_supersession_all : option (result (gmap string string * gset string * EdgeCandidates));
  st_supersession : result (gmap string string * gset string);
  st_unknown_terms : option (list string -> result (list string))
}.

Record Embedder := {
  em_name : string;
  em_dim : string;
  em_profile_id : string;
  em_profile_fingerprint : string
}.

(** A [SuccessorExpansionPolicy], with the expansion it configures. *)
Record SuccessorExpansion := {
  se_ordering : string;
  se_expand : (string -> option string) -> RetrievalResult -> result RetrievalResult
}.

(** The arguments of a search; those only forwarded to the retriever are part of it. *)
Record Request := {
  rq_query : string;
  rq_k : Z;
  rq_source : option string;
  rq_scope : option Scope;
  rq_calibration : option Calibration;
  rq_now : option datetime;
  rq_known_as_of : option datetime;
  rq_policy : option TrustPolicy;
  rq_document_expansion : option (RetrievalResult -> result RetrievalResult);
  rq_structural_expansion : option (RetrievalResult -> result RetrievalResult);
  rq_successor_expansion : option SuccessorExpansion;
  rq_dependency_mode : option string;
  rq_security_policy : option SourceSecurityPolicy;
  rq_access_context : option AccessContext;
  rq_pre_trust_transform : option (RetrievalResult -> result RetrievalResult);
  rq_trace : bool
}.

(** ** The pieces of [trust.py] *)

(** [_without_non_finite_dense]. *)
Definition comparable (hit : ScoredChunk) : bool :=
  match sc_kind hit with DenseCosine => isfinite (sc_score hit) | Structural => true end.

Definition without_non_finite_dense (r : RetrievalResult) : RetrievalResult :=
  {| rr_query := rr_query r; rr_hits := filter (fun h => comparable h = true) (rr_hits r);
     rr_gap_warning := rr_gap_warning r; rr_staleness := rr_staleness r; rr_diagnostics := rr_diagnostics r |}.

(** [_WITHHELD]. *)
Definition WITHHELD : string := "<withheld>".

Section withhold.
Context (py_str : value -> string).
Context (policy : SourceSecurityPolicy) (context : AccessContext) (collided : gset string).

(** [str(metadata.get("file") or source)]. *)
Definition falsy (v : value) : bool :=
  match v with
  | VNone | VBool false | VInt 0 => true
  | VStr s => bool_decide (s = "")
  | VFloat f => fle f zero && fle zero f
  | VList l => bool_decide (l = [])
  | VDict l => bool_decide (l = [])
  | _ => false
  end.

Definition str_value (v : value) : string := match v with VStr s => s | _ => py_str v end.

Definition hit_file_name (c : Chunk) : string :=
  let file := meta_get "file" (c_metadata c) in if falsy file then c_source c else str_value file.

(** [file_of_source]: a later hit of one source overwrites an earlier one. *)
Definition file_of_source (hits : list TrustedHit) : list (string * string) :=
  foldl (fun d h => odict_set (c_source (th_chunk h)) (hit_file_name (th_chunk h)) d) [] hits.

Definition denied (files : list (string * string)) (k : string) : bool :=
  match place_graph_key k files collided with
  | None => true
  | Some file => negb (pd_allowed (policy_decide policy file context))
  end.

Definition withhold_name (files : list (string * string)) (name : string) : string :=
  if denied files name then WITHHELD else name.

(** One turn of the loop: a replaced value equal to the old one changes nothing. *)
Definition withhold_hit (files : list (string * string)) (h : TrustedHit) : TrustedHit :=
  {| th_chunk := th_chunk h; th_cosine := th_cosine h; th_confidence := th_confidence h;
     th_verdict := th_verdict h; th_provenance := th_provenance h;
     th_validity :=
       {| va_from := va_from (th_validity h); va_until := va_until (th_validity h);
          va_superseded_by := (fun s => if decide (s = "") then s else withhold_name files s)
                              <$> va_superseded_by (th_validity h) |};
     th_authority := th_authority h; th_dependencies := th_dependencies h;
     th_invalidation :=
       (fun r => {| ir_dependency := withhold_name files (ir_dependency r); ir_cause := ir_cause r;
                    ir_path := map (withhold_name files) (ir_path r); ir_authority := ir_authority r;
                    ir_generation := ir_generation r; ir_as_of := ir_as_of r;
                    ir_known_as_of := ir_known_as_of r |}) <$> th_invalidation h |}.

(** [changed]: some name of the hit was replaced. *)
Definition hit_changed (files : list (string * string)) (h : TrustedHit) : bool :=
  match va_superseded_by (th_validity h) with
  | Some s => negb (bool_decide (s = "")) && denied files s
  | None => false
  end ||
  match th_invalidation h with
  | Some r => negb (bool_decide (withhold_name files (ir_dependency r) = ir_dependency r)) ||
              negb (bool_decide (map (withhold_name files) (ir_path r) = ir_path r))
  | None => false
  end.

(** [_withhold_unauthorized_names]. *)
Definition withhold_unauthorized_names (trusted : TrustedResult) : TrustedResult :=
  let files := file_of_source (tres_hits trusted) in
  if existsb (hit_changed files) (tres_hits trusted) then
    let hits := map (withhold_hit files) (tres_hits trusted) in
    with_decision trusted hits (tres_abstained trusted)
      (if tres_abstained trusted then Some (abstain_reason py_str hits) else tres_reason trusted)
      (tres_decision_state trusted)
  else trusted.
End withhold.

(** [_degraded]. *)
Definition with_failure (r : TrustedResult) (code : TrustFailureCode) : TrustedResult :=
  {| tres_query := tres_query r; tres_hits := tres_hits r; tres_abstained := tres_abstained r;
     tres_reason := tres_reason r; tres_gap_warning := tres_gap_warning r; tres_staleness := tres_staleness r;
     tres_decision_state := tres_decision_state r; tres_diagnostics := tres_diagnostics r;
     tres_calibration_id := tres_calibration_id r; tres_calibration_status := tres_calibration_status r;
     tres_tenant_id := tres_tenant_id r; tres_generation_id := tres_generation_id r;
     tres_pipeline_fingerprint := tres_pipeline_fingerprint r;
     tres_corpus_fingerprint := tres_corpus_fingerprint r; tres_query_set_digest := tres_query_set_digest r;
     tres_trust_state := state_value Degraded; tres_failure_code := Some (code_value code) |}.

Definition degraded (trusted : TrustedResult) (code : TrustFailureCode) (calibration_missing : bool) : TrustedResult :=
  let marked := with_failure trusted code in
  if negb calibration_missing then marked
  else
    let unverified := map (fun h => with_verdict h Unverified) (tres_hits marked) in
    with_decision marked unverified false None (Some (decision_state_for unverified (tres_gap_warning trusted))).

(** [_with_stage_ms]. *)
Definition with_stage_ms (r : TrustedResult) (stage : string) (ms : float) : TrustedResult :=
  let d := tres_diagnostics r in
  with_diagnostics r
    {| rd_embedding_profile := rd_embedding_profile d; rd_retrieval_profile := rd_retrieval_profile d;
       rd_index_generation := rd_index_generation d; rd_candidate_pool_size := rd_candidate_pool_size d;
       rd_reranking_ran := rd_reranking_ran d; rd_stage_ms := odict_set stage ms (rd_stage_ms d);
       rd_max_dense_score := rd_max_dense_score d; rd_unknown_term_check := rd_unknown_term_check d;
       rd_unknown_terms := rd_unknown_terms d |}.

(** [profile_lineage_mismatch] (src/recall/embedding_core.py): whether there is one. *)
Definition nonempty (o : option string) : option string :=
  match o with Some s => if decide (s = "") then None else Some s | None => None end.

Definition profile_lineage_mismatch (e : Embedder) (profile_id profile_fingerprint : option string) : bool :=
  match nonempty profile_id with
  | None => false
  | Some pid =>
      if decide (em_profile_id e <> pid) then true
      else match nonempty profile_fingerprint with
           | Some f => bool_decide (em_profile_fingerprint e <> f)
           | None => false
           end
  end.

(** ** The gate *)

(** What the gate hands to the search. *)
Record Gate := {
  ga_binding : fields;
  ga_bound : option fields;
  ga_calibration : option Calibration;
  ga_calibration_id : option string;
  ga_status : string;
  ga_digest : option string;
  ga_mode : string;
  ga_projection : option DependencyProjection;
  ga_failure : option TrustFailureCode
}.

Section search.
Context (py_str : value -> string) (exp : float -> float).
(** The retriever: query, k, scope, gap threshold, and whether the atomic rescue is
    active; it answers the pool and the candidate traces it captured. *)
Context (retrieve : string -> Z -> Scope -> float -> bool -> result (RetrievalResult * list RetrievalResult)).
(** Loading the rescue artifact of a generation and checking its lineage. *)
Context (load_rescue : string -> string -> option string -> fields -> result ()).
(** The wall clock, and the two stage timings. *)
Context (utc_now : datetime) (trust_ms trace_ms : float).
Context (env : fields) (store : Store) (embedder : Embedder).

Definition policy_of (rq : Request) : TrustPolicy := default strict_policy (rq_policy rq).

(** The dependency mode: the argument, the store's, the environment's. *)
Definition configured_mode (rq : Request) : action string :=
  given ← match rq_dependency_mode rq with
          | Some m => mret (Some m)
          | None => match st_dependency_mode store with Some o => call o | None => mret None end
          end;
  match given with
  | None => lift (dependency_mode_from_env env)
  | Some m => if decide (m ∈ DEPENDENCY_MODES) then mret m
              else raise (ValueError "dependency_mode must be 'off' or 'enforce'")
  end.

(** [binding.get("tenant_id") or getattr(store, "tenant", None)]. *)
Definition tenant_of (binding : fields) : option string :=
  match nonempty (odict_get "tenant_id" binding) with Some t => Some t | None => st_tenant store end.

(** The refusal for an outage while the binding or the calibration was read. *)
Definition outage (binding : fields) (status : string) : TrustRefusal :=
  {| tr_code := DependencyUnavailable; tr_calibration_status := status; tr_tenant_id := tenant_of binding;
     tr_generation_id := odict_get "generation_id" binding; tr_calibration_id := None;
     tr_pipeline_fingerprint := None; tr_corpus_fingerprint := None; tr_query_set_digest := None |}.

(** The refusal that names everything known. *)
Definition refusal (code : TrustFailureCode) (binding : fields) (status : string)
    (calibration_id digest : option string) : TrustRefusal :=
  {| tr_code := code; tr_calibration_status := status; tr_tenant_id := tenant_of binding;
     tr_generation_id := odict_get "generation_id" binding; tr_calibration_id := calibration_id;
     tr_pipeline_fingerprint := odict_get "pipeline_fingerprint" binding;
     tr_corpus_fingerprint := odict_get "corpus_fingerprint" binding; tr_query_set_digest := digest |}.

(** A store without the hook: the identities it exposes. *)
Definition legacy_binding : fields :=
  omap (fun kv : string * option string => pair kv.1 <$> nonempty kv.2)
       [("tenant_id", st_tenant store); ("generation_id", st_generation_id store)].

(** A read inside the [try]: its own refusal passes, any other exception is an outage. *)
Definition guarded {A} (o : outcome A) (binding : fields) (status : string) : action A :=
  match o with Raising _ => refuse (outage binding status) | _ => call o end.

Definition read_binding (status : string) : action (option fields) :=
  match st_binding store with
  | Some o => guarded o [] status
  | None => mret (Some legacy_binding)
  end.

(** What the calibration is resolved to: its threshold, id, status and query set. *)
Definition resolve_calibration (rq : Request) (binding : fields) (status : string) :
    action (option Calibration * option string * string * option string) :=
  match rq_calibration rq, st_resolve_calibration store with
  | None, Some o =>
      resolution ← guarded o binding status;
      let status := status_value (res_status resolution) in
      match res_artifact resolution with
      | None => mret (None, None, status, None)
      | Some artifact =>
          runtime ← guarded (match ar_runtime artifact with Ok c => Returned c | Raise e => Raising e end)
                            binding status;
          mret (Some runtime, Some (ar_calibration_id artifact), status, Some (ar_query_set_digest artifact))
      end
  | c, _ => mret (c, None, status, None)
  end.

(** The projection [enforce] needs, read over the whole corpus; any exception, a refusal
    included, is an outage. *)
Definition read_projection (rq : Request) : action (option DependencyProjection) :=
  match st_dependency_projection store with
  | Some reader => _ ← emit AskProjection; call (reader (rq_now rq) (rq_known_as_of rq))
  | None => _ ← emit ScanCorpus; call (st_current_state store (rq_now rq) (rq_known_as_of rq))
  end.

Definition enforced_projection (rq : Request) (mode : string) (on_outage : TrustRefusal) :
    action (option DependencyProjection * option TrustFailureCode) :=
  if decide (mode = "enforce") then
    match read_projection rq with
    | (es, Returned (Some p)) => (es, Returned (Some p, None))
    | (es, Returned None) => (es, Returned (None, Some DependencyGraphNotReady))
    | (es, Refusing _) | (es, Raising _) => (es, Refusing on_outage)
    end
  else mret (None, None).

(** [model_mismatch]. *)
Definition model_mismatch (binding : fields) : bool :=
  match odict_get "embedder_model" binding with Some m => bool_decide (em_name embedder <> m) | None => false end ||
  match odict_get "embedder_dimension" binding with Some d => bool_decide (em_dim embedder <> d) | None => false end ||
  profile_lineage_mismatch embedder (odict_get "embedder_profile_id" binding)
    (odict_get "embedder_profile_fingerprint" binding).

(** The one failure code, in the order the gate ranks them. *)
Definition failure_of (dependency : option TrustFailureCode) (status : string) (mismatch : bool) (binding : fields) :
    option TrustFailureCode :=
  let code := match dependency with Some c => Some c | None => code_for_status (inr status) end in
  let code := if mismatch then Some LineageMismatch else code in
  match code with
  | None => None
  | Some c => match nonempty (odict_get "generation_id" binding) with
              | None => Some IndexNotReady
              | Some _ => Some c
              end
  end.

Definition gate_of (rq : Request) : action Gate :=
  let status0 := status_value (match rq_calibration rq with Some _ => StatusLegacyUnbound | None => StatusMissing end) in
  mode ← configured_mode rq;
  bound ← read_binding status0;
  let binding := default [] bound in
  '(calibration, calibration_id, status, digest) ← resolve_calibration rq binding status0;
  '(projection, dependency) ← enforced_projection rq mode
     (refusal DependencyUnavailable binding status calibration_id digest);
  let mismatch := model_mismatch binding in
  let calibration := if mismatch then None else calibration in
  let calibration_id := if mismatch then None else calibration_id in
  let failure := failure_of dependency status mismatch binding in
  match failure with
  | Some code =>
      if strict (policy_of rq) then refuse (refusal code binding status calibration_id digest)
      else mret {| ga_binding := binding; ga_bound := bound; ga_calibration := calibration;
                   ga_calibration_id := calibration_id; ga_status := status; ga_digest := digest;
                   ga_mode := mode; ga_projection := projection; ga_failure := failure |}
  | None =>
      mret {| ga_binding := binding; ga_bound := bound; ga_calibration := calibration;
              ga_calibration_id := calibration_id; ga_status := status; ga_digest := digest;
              ga_mode := mode; ga_projection := projection; ga_failure := failure |}
  end.

(** ** Before the gate *)

(** The checks on the arguments, and the scope a source policy leaves: the expansions
    query sources by themselves, so a constrained search runs none. *)
Definition prepare (rq : Request) : result Request :=
  if rq_k rq <? 1 then Raise (ValueError "k must be >= 1")
  else match rq_security_policy rq with
  | None => Ok rq
  | Some policy =>
      match rq_access_context rq with
      | None => Raise (ValueError "access_context is required when security_policy is configured")
      | Some context =>
          if decide (st_tenant store <> None /\ st_tenant store <> Some (ac_tenant context))
          then Raise (PermissionError "access context tenant does not match the serving store")
          else
            requested ← coerce_scope (rq_scope rq) (rq_source rq);
            scope ← constrain_scope policy (Some requested) context;
            Ok {| rq_query := rq_query rq; rq_k := rq_k rq; rq_source := None; rq_scope := Some scope;
                  rq_calibration := rq_calibration rq; rq_now := rq_now rq; rq_known_as_of := rq_known_as_of rq;
                  rq_policy := rq_policy rq; rq_document_expansion := None; rq_structural_expansion := None;
                  rq_successor_expansion := None; rq_dependency_mode := rq_dependency_mode rq;
                  rq_security_policy := Some policy; rq_access_context := Some context;
                  rq_pre_trust_transform := rq_pre_trust_transform rq; rq_trace := rq_trace rq |}
      end
  end.

(** ** After the gate *)

(** A scope a bare source can express. *)
Definition source_only (s : Scope) : bool :=
  bool_decide (scp_folder s = None /\ scp_facet s = None /\ scp_source_prefixes s = None /\
               scp_security_policy_digest s = None).

(** The atomic rescue: its two settings are checked, and an active one on an
    unrestricted search needs its artifact. *)
Definition atomic_rescue (rq : Request) (effective : Scope) (g : Gate) : result bool :=
  let mode := lower (strip (default "off" (odict_get "RECALL_ATOMIC_RESCUE_MODE" env))) in
  let placement := lower (strip (default "dense" (odict_get "RECALL_ATOMIC_RESCUE_PLACEMENT" env))) in
  if decide (mode ∉ ["off" : string; "shadow"; "active"]) then Raise (ValueError "RECALL_ATOMIC_RESCUE_MODE is invalid")
  else if decide (placement ∉ ["dense" : string; "fused"]) then Raise (ValueError "RECALL_ATOMIC_RESCUE_PLACEMENT is invalid")
  else if decide (mode = "active" /\ source_only effective = true /\ scp_source effective = None /\
                  rq_security_policy rq = None /\ rq_access_context rq = None) then
    let root := strip (default "" (odict_get "RECALL_ATOMIC_RESCUE_ARTIFACT_ROOT" env)) in
    match nonempty (Some root), nonempty (odict_get "generation_id" (ga_binding g)) with
    | Some root, Some generation =>
        _ ← load_rescue root generation (ga_calibration_id g) (ga_binding g); Ok true
    | _, _ => Raise (ValueError "active atomic rescue requires an artifact root and generation identity")
    end
  else Ok false.

(** [_read_edges]: the graph, or a plain map with or without dates. *)
Definition read_edges (known_as_of : option datetime) :
    result (supersession_arg * gset string * option EdgeCandidates) :=
  graph ← st_supersession_graph store;
  match graph with
  | Some g => Ok (OfGraph g, ∅, None)
  | None =>
      match known_as_of, st_supersession_all store with
      | Some _, Some all => r ← all; let '(edges, unresolved, candidates) := r in Ok (PlainEdges edges, unresolved, Some candidates)
      | _, _ => r ← st_supersession store; Ok (PlainEdges r.1, r.2, None)
      end
  end.

(** [_resolve]: the successor a file's hit is about to be demoted for. *)
Definition expansion_successor (sup : supersession_arg) (unresolved : gset string) (ec : option EdgeCandidates)
    (now : datetime) (known_as_of : option datetime) (file : string) : option string :=
  match sup with
  | OfGraph g =>
      if decide (file ∈ g_unresolved g \/ file ∈ g_collided g) then None
      else graph_successor g file (Some now) known_as_of
  | PlainEdges edges =>
      if decide (file ∈ unresolved) then None else resolve_successor edges ec known_as_of None None file
  end.

(** An optional expansion of the pool: it retrieves. *)
Definition expand (f : option (RetrievalResult -> result RetrievalResult)) (r : RetrievalResult) :
    action RetrievalResult :=
  match f with None => mret r | Some f => _ ← emit Retrieve; lift (f r) end.

(** The pool, the edges read for it, and the candidate traces. *)
Definition edges_arg : Type := (supersession_arg * gset string * option EdgeCandidates)%type.

Definition no_edges : edges_arg := (PlainEdges ∅, ∅, None).

Definition edges_for (hits : list ScoredChunk) (known_as_of : option datetime) : action (option edges_arg) :=
  match hits with [] => mret None | _ => _ ← emit ReadEdges; e ← lift (read_edges known_as_of); mret (Some e) end.

Definition retrieve_pool (rq : Request) (g : Gate) (effective : Scope) (now : datetime) :
    action (RetrievalResult * edges_arg * list RetrievalResult) :=
  rescue ← lift (atomic_rescue rq effective g);
  _ ← emit Retrieve;
  found ← lift (retrieve (rq_query rq) (rq_k rq) effective (cal_threshold (default uncalibrated (ga_calibration g))) rescue);
  let '(r, traces) := found in
  r ← expand (rq_document_expansion rq) r;
  r ← expand (rq_structural_expansion rq) r;
  read ← edges_for (rr_hits r) (rq_known_as_of rq);
  let '(sup, unresolved, ec) := default no_edges read in
  r ← expand ((fun se => se_expand se (expansion_successor sup unresolved ec now (rq_known_as_of rq)))
              <$> rq_successor_expansion rq) r;
  r ← match rq_pre_trust_transform rq with None => mret r | Some f => _ ← emit Transform; lift (f r) end;
  let r := without_non_finite_dense r in
  late ← match read with Some e => mret (Some e) | None => edges_for (rr_hits r) (rq_known_as_of rq) end;
  mret (r, default no_edges late, traces).

(** The verdicts on a pool: one set of inputs for the served pool and its trace. *)
Definition bound_of (b : fields) : binding :=
  {| b_tenant_id := odict_get "tenant_id" b; b_generation_id := odict_get "generation_id" b;
     b_pipeline_fingerprint := odict_get "pipeline_fingerprint" b;
     b_corpus_fingerprint := odict_get "corpus_fingerprint" b |}.

Definition judge_pool (rq : Request) (g : Gate) (now : datetime) (edges : edges_arg) (r : RetrievalResult) :
    result TrustedResult :=
  let '(sup, unresolved, ec) := edges in
  evaluate py_str exp (ga_calibration g) now (rq_known_as_of rq) (ga_projection g) (ga_mode g) r sup unresolved ec
    (ga_calibration_id g) (Some (ga_status g)) (bound_of (ga_binding g)) (ga_digest g).

Definition collided_of (sup : supersession_arg) (p : option DependencyProjection) : gset string :=
  match sup with OfGraph g => g_collided g | PlainEdges _ => ∅ end ∪
  match p with Some p => dp_collided p | None => ∅ end.

Definition withhold_for (rq : Request) (g : Gate) (edges : edges_arg) (r : TrustedResult) : TrustedResult :=
  match rq_security_policy rq, rq_access_context rq with
  | Some policy, Some context =>
      withhold_unauthorized_names py_str policy context (collided_of edges.1.1 (ga_projection g)) r
  | _, _ => r
  end.

Definition degrade_for (g : Gate) (r : TrustedResult) : TrustedResult :=
  match ga_failure g with
  | Some code => degraded r code (bool_decide (ga_calibration g = None))
  | None => r
  end.

(** [{hit.chunk.id: index ...}]: a repeated id keeps its last index. *)
Definition pool_index (hits : list ScoredChunk) : gmap string Z :=
  foldl (fun m ih => <[ c_id (sc_chunk ih.2) := Z.of_nat ih.1 ]> m) ∅ (imap pair hits).

Definition order_for (rq : Request) (r : RetrievalResult) (t : TrustedResult) : TrustedResult :=
  match rq_successor_expansion rq with
  | Some se => if decide (se_ordering se = "pool") then t else order_promoted t (pool_index (rr_hits r)) (se_ordering se)
  | None => t
  end.

(** The candidate trace, judged as the served pool was. *)
Definition deliver_trace (rq : Request) (g : Gate) (now : datetime) (edges : edges_arg) (check : UnknownTermCheck)
    (traces : list RetrievalResult) : action () :=
  if rq_trace rq then
    match traces with
    | [trace] =>
        let trace := without_non_finite_dense trace in
        t ← lift (judge_pool rq g now edges trace);
        let t := degrade_for g (apply_unknown_term_gate (withhold_for rq g edges t) check) in
        emit (DeliverTrace trace (with_stage_ms t "source_conditioning_trace_trust" trace_ms)
                (default uncalibrated (ga_calibration g)))
    | _ => raise (RuntimeError "candidate trace capture did not produce exactly one trace")
    end
  else mret ().

Definition check_vocabulary (rq : Request) (effective : Scope) : action UnknownTermCheck :=
  _ ← emit Vocabulary; lift (check_unknown_terms (st_unknown_terms store) (rq_query rq) env (Some effective)).

Definition answer (rq : Request) (g : Gate) : action TrustedResult :=
  effective ← lift (coerce_scope (rq_scope rq) (rq_source rq));
  let now := default utc_now (rq_now rq) in
  found ← retrieve_pool rq g effective now;
  let '(r, edges, traces) := found in
  t ← lift (judge_pool rq g now edges r);
  let t := with_stage_ms t "trust_evaluation" trust_ms in
  let t := withhold_for rq g edges (order_for rq r t) in
  check ← check_vocabulary rq effective;
  let t := degrade_for g (apply_unknown_term_gate t check) in
  _ ← deliver_trace rq g now edges check traces;
  mret t.

(** One run with its arguments prepared. *)
Definition gated (rq : Request) : action TrustedResult := g ← gate_of rq; answer rq g.

(** [_trusted_search]: under a store snapshot the whole call runs again inside it,
    with the scope already constrained. *)
Definition search_once (rq : Request) : action TrustedResult :=
  rq ← lift (prepare rq);
  if st_snapshot store then rq ← lift (prepare rq); gated rq else gated rq.

(** [trusted_search]: the evaluation clock, and the ledger that only witnesses. *)
Definition with_clock (clock : option datetime) (rq : Request) : Request :=
  {| rq_query := rq_query rq; rq_k := rq_k rq; rq_source := rq_source rq; rq_scope := rq_scope rq;
     rq_calibration := rq_calibration rq;
     rq_now := match rq_now rq with Some n => Some n | None => clock end;
     rq_known_as_of := match rq_known_as_of rq with Some n => Some n | None => clock end;
     rq_policy := rq_policy rq; rq_document_expansion := rq_document_expansion rq;
     rq_structural_expansion := rq_structural_expansion rq; rq_successor_expansion := rq_successor_expansion rq;
     rq_dependency_mode := rq_dependency_mode rq; rq_security_policy := rq_security_policy rq;
     rq_access_context := rq_access_context rq; rq_pre_trust_transform := rq_pre_trust_transform rq;
     rq_trace := rq_trace rq |}.

Definition trusted_search (clock : option datetime) (ledger : bool) (rq : Request) : action TrustedResult :=
  match search_once (with_clock clock rq) with
  | (es, Returned r) => if ledger then (es ++ [RecordDecision r], Returned r) else (es, Returned r)
  | (es, Refusing r) => if ledger then (es ++ [RecordRefusal r], Refusing r) else (es, Refusing r)
  | (es, Raising e) => (es, Raising e)
  end.

(** ** What refuses, and what is quiet *)

Lemma expand_refuses_not f r : refuses_not (expand f r).
Proof. unfold expand. destruct f; auto with actions. Qed.

Lemma edges_for_refuses_not hits known : refuses_not (edges_for hits known).
Proof. unfold edges_for. destruct hits; auto with actions. Qed.

Lemma retrieve_pool_refuses_not rq g effective now : refuses_not (retrieve_pool rq g effective now).
Proof.
  unfold retrieve_pool. apply refuses_not_bind; [auto with actions|intros rescue].
  apply refuses_not_bind; [auto with actions|intros _]. apply refuses_not_bind; [auto with actions|intros [r traces]].
  do 2 (apply refuses_not_bind; [apply expand_refuses_not|intros ?]).
  apply refuses_not_bind; [apply edges_for_refuses_not|intros read].
  destruct (default no_edges read) as [[sup unresolved] ec].
  apply refuses_not_bind; [apply expand_refuses_not|intros ?].
  apply refuses_not_bind; [destruct (rq_pre_trust_transform rq); auto with actions|intros ?].
  apply refuses_not_bind; [|auto with actions].
  destruct read; [auto with actions|apply edges_for_refuses_not].
Qed.

Lemma deliver_trace_refuses_not rq g now edges check traces : refuses_not (deliver_trace rq g now edges check traces).
Proof.
  unfold deliver_trace. destruct (rq_trace rq); [|auto with actions].
  destruct traces as [|t [|]]; auto with actions.
Qed.

(** Past the gate nothing refuses. *)
Lemma answer_refuses_not rq g : refuses_not (answer rq g).
Proof.
  unfold answer. apply refuses_not_bind; [auto with actions|intros effective].
  apply refuses_not_bind; [apply retrieve_pool_refuses_not|intros [[r edges] traces]].
  apply refuses_not_bind; [auto with actions|intros t].
  apply refuses_not_bind; [unfold check_vocabulary; auto with actions|intros check].
  apply refuses_not_bind; [apply deliver_trace_refuses_not|auto with actions].
Qed.

Lemma guarded_quiet {A} (o : outcome A) binding status : quiet (guarded o binding status).
Proof. by destruct o. Qed.

(** An action whose events come from its end alone. *)
Lemma quiet_bind_r {A B} (f : A -> action B) m es o :
  quiet m -> (m ≫= f) = (es, o) -> es = [] \/ exists a, m = ([], Returned a) /\ f a = (es, o).
Proof.
  unfold quiet, mbind, action_bind. destruct m as [es0 [a|r|e]]; simpl; intros ->; [|intros [= <- _]; by left..].
  destruct (f a) as [es2 o2] eqn:Hf. intros [= <- <-]. right. by exists a.
Qed.

Lemma bind_quiet_tail {A B} (f : A -> action B) m : (forall a, quiet (f a)) -> (m ≫= f).1 = m.1.
Proof.
  unfold quiet, mbind, action_bind. destruct m as [es [a|r|e]]; [|done..]. intros Hf. specialize (Hf a).
  destruct (f a) as [es' o]. simpl in *. subst es'. by rewrite app_nil_r.
Qed.

(** The one read of the corpus before the gate has spoken. *)
Definition projection_read : event :=
  match st_dependency_projection store with Some _ => AskProjection | None => ScanCorpus end.

Lemma read_projection_events rq : exists o, read_projection rq = ([projection_read], o).
Proof. unfold read_projection, projection_read. destruct (st_dependency_projection store); by eexists. Qed.

Lemma enforced_events rq mode on_outage :
  (enforced_projection rq mode on_outage).1 = if decide (mode = "enforce") then [projection_read] else [].
Proof.
  unfold enforced_projection. case_decide; [|done]. destruct (read_projection_events rq) as [o ->].
  by destruct o as [[?|]|?|?].
Qed.

Lemma configured_mode_quiet rq : quiet (configured_mode rq).
Proof.
  unfold configured_mode. apply quiet_bind.
  - destruct (rq_dependency_mode rq); [done|]. by destruct (st_dependency_mode store).
  - intros [m|]; [|done]. by case_decide.
Qed.

Lemma read_binding_quiet status : quiet (read_binding status).
Proof. unfold read_binding. destruct (st_binding store); [apply guarded_quiet|done]. Qed.

Lemma resolve_calibration_quiet rq binding status : quiet (resolve_calibration rq binding status).
Proof.
  unfold resolve_calibration. destruct (rq_calibration rq); [done|].
  destruct (st_resolve_calibration store); [|done]. apply quiet_bind; [apply guarded_quiet|].
  intros res. destruct (res_artifact res); [|done]. apply quiet_bind; [apply guarded_quiet|done].
Qed.

(** The gate reads the corpus for the enforced projection alone, once, after the binding and the
    calibration were read. *)
Lemma gate_events rq es o :
  gate_of rq = (es, o) ->
  es = [] \/ es = [projection_read] /\ configured_mode rq = ([], Returned "enforce").
Proof.
  unfold gate_of. intros H. apply quiet_bind_r in H as [->|(mode & Hmode & H)]; [by left| |apply configured_mode_quiet].
  apply quiet_bind_r in H as [->|(bound & _ & H)]; [by left| |apply read_binding_quiet].
  apply quiet_bind_r in H as [->|([[[c cid] status] digest] & _ & H)]; [by left| |apply resolve_calibration_quiet].
  apply (f_equal fst) in H. rewrite bind_quiet_tail in H.
  - simpl in H. rewrite enforced_events in H. subst es. case_decide as He; [subst mode; by right|by left].
  - intros [projection dependency]. destruct (failure_of _ _ _ _); [|done]. by destruct (strict _).
Qed.

(** ** What the gate lets through *)

Lemma failure_of_none dependency status mismatch binding :
  failure_of dependency status mismatch binding = None <->
  dependency = None /\ status = status_value StatusCertified /\ mismatch = false.
Proof.
  unfold failure_of. rewrite <-code_for_string_none.
  destruct mismatch; [split; [by destruct (nonempty _)|by intros (_ & _ & ?)]|].
  destruct dependency as [c|]; [split; [by destruct (nonempty _)|by intros (? & _)]|].
  destruct (code_for_status (inr status)); [|done].
  split; [by destruct (nonempty _)|by intros (_ & ? & _)].
Qed.

Lemma guarded_returned {A} (o : outcome A) binding status es a :
  guarded o binding status = (es, Returned a) -> o = Returned a.
Proof. destruct o; simpl; unfold guarded, call, refuse; by intros [= _ ->]. Qed.

Lemma guarded_refusing {A} (o : outcome A) binding status es r :
  guarded o binding status = (es, Refusing r) -> o = Refusing r \/ tr_code r = DependencyUnavailable.
Proof. destruct o; unfold guarded, call, refuse; intros [= _ <-]; auto. Qed.

(** A certified status comes from the store's resolver alone. *)
Lemma resolve_certified rq binding status0 es c cid digest :
  status0 = status_value (match rq_calibration rq with Some _ => StatusLegacyUnbound | None => StatusMissing end) ->
  resolve_calibration rq binding status0 = (es, Returned (c, cid, status_value StatusCertified, digest)) ->
  rq_calibration rq = None /\
  exists res, st_resolve_calibration store = Some (Returned res) /\ res_status res = StatusCertified /\
    match res_artifact res with
    | Some artifact => ar_runtime artifact = Ok (default uncalibrated c) /\ cid = Some (ar_calibration_id artifact)
    | None => c = None
    end.
Proof.
  intros Hs. unfold resolve_calibration. destruct (rq_calibration rq) as [c0|]; [intros [= _ _ _ Hst _]; by subst|].
  destruct (st_resolve_calibration store) as [o|]; [|intros [= _ _ _ Hst _]; by subst].
  intros H. run H as a Ho. apply guarded_returned in Ho as ->.
  assert (Hinj : forall s, status_value s = status_value StatusCertified -> s = StatusCertified).
  { by intros []. }
  destruct (res_artifact a) as [artifact|] eqn:Har.
  - run H as runtime Hr. apply guarded_returned in Hr. injection H as _ <- <- Hst _. apply Hinj in Hst.
    split; [done|]. exists a. rewrite Har. destruct (ar_runtime artifact); by simplify_eq/=.
  - injection H as _ <- _ Hst _. apply Hinj in Hst. split; [done|]. exists a. by rewrite Har.
Qed.

Lemma enforced_ready rq mode on_outage es projection dependency :
  enforced_projection rq mode on_outage = (es, Returned (projection, dependency)) ->
  dependency = None <->
  (mode = "enforce" -> exists p, projection = Some p /\ (read_projection rq).2 = Returned (Some p)).
Proof.
  unfold enforced_projection. case_decide as Hm.
  - destruct (read_projection rq) as [es' [[p|]|r|e]]; intros [= _ <- <-].
    + split; [|done]. intros _ _. eauto.
    + split; [done|]. by intros (? & ? & _).
  - by intros [= _ <- <-].
Qed.

Lemma enforced_refusing rq mode on_outage es r :
  enforced_projection rq mode on_outage = (es, Refusing r) -> r = on_outage.
Proof.
  unfold enforced_projection. case_decide; [|done].
  destruct (read_projection rq) as [es' [[p|]|r'|e]]; by intros [= _ <-].
Qed.

(** What an open gate without a failure code has established. *)
Definition cleared (rq : Request) (g : Gate) : Prop :=
  ga_status g = status_value StatusCertified /\ rq_calibration rq = None /\
  model_mismatch (ga_binding g) = false /\
  (ga_mode g = "enforce" -> exists p, ga_projection g = Some p /\ (read_projection rq).2 = Returned (Some p)) /\
  exists res, st_resolve_calibration store = Some (Returned res) /\ res_status res = StatusCertified /\
    match res_artifact res with
    | Some artifact => ar_runtime artifact = Ok (default uncalibrated (ga_calibration g)) /\
                       ga_calibration_id g = Some (ar_calibration_id artifact)
    | None => ga_calibration g = None
    end.

Lemma gate_returned rq es g :
  gate_of rq = (es, Returned g) ->
  (ga_failure g = None \/ strict (policy_of rq) = false) /\
  (ga_failure g = None <-> cleared rq g).
Proof.
  unfold gate_of. set (status0 := status_value _). intros H. run H as mode Hmode. run H as bound Hbound.
  run H as [[[c cid] status] digest] Hres. run H as [projection dependency] Hproj.
  set (mismatch := model_mismatch _) in *. set (failure := failure_of _ _ _ _) in *.
  assert (Hg : g = {| ga_binding := default [] bound; ga_bound := bound;
             ga_calibration := if mismatch then None else c; ga_calibration_id := if mismatch then None else cid;
             ga_status := status; ga_digest := digest; ga_mode := mode; ga_projection := projection;
             ga_failure := failure |} /\ (failure = None \/ strict (policy_of rq) = false)).
  { destruct failure; [destruct (strict (policy_of rq)); [done|]|]; injection H as _ <-; auto. }
  destruct Hg as [-> Hstrict]. split; [done|]. unfold cleared. cbn [ga_failure ga_status ga_binding ga_mode
    ga_projection ga_calibration ga_calibration_id]. fold mismatch. unfold failure.
  rewrite failure_of_none, (enforced_ready _ _ _ _ _ _ Hproj). split.
  - intros (Henf & -> & ->). eapply resolve_certified in Hres as (Hc & res & Hr); [|done].
    split_and!; [done..|by exists res].
  - intros (-> & _ & -> & Henf & _). done.
Qed.

Lemma gate_refusing rq es r :
  gate_of rq = (es, Refusing r) ->
  tr_code r = DependencyUnavailable \/ strict (policy_of rq) = true \/
  st_dependency_mode store = Some (Refusing r) \/ st_binding store = Some (Refusing r) \/
  st_resolve_calibration store = Some (Refusing r).
Proof.
  unfold gate_of. intros [Hm|(? & mode & ? & _ & H & _)]%action_refusing.
  { right; right; left. unfold configured_mode in Hm. apply action_refusing in Hm as [Hm|(? & m & ? & _ & Hm & _)].
    - destruct (rq_dependency_mode rq); [done|]. destruct (st_dependency_mode store) as [o|]; [|done].
      unfold call in Hm. by injection Hm as _ ->.
    - destruct m; [by case_decide|]. unfold lift in Hm. by destruct (dependency_mode_from_env env). }
  apply action_refusing in H as [Hb|(? & bound & ? & _ & H & _)].
  { unfold read_binding in Hb. destruct (st_binding store) as [o|]; [|done].
    apply guarded_refusing in Hb as [->|?]; auto. }
  apply action_refusing in H as [Hc|(? & [[[c cid] status] digest] & ? & _ & H & _)].
  { unfold resolve_calibration in Hc. destruct (rq_calibration rq); [done|].
    destruct (st_resolve_calibration store) as [o|]; [|done].
    apply action_refusing in Hc as [Hc|(? & res & ? & _ & Hc & _)].
    - apply guarded_refusing in Hc as [->|?]; auto.
    - destruct (res_artifact res) as [ar|]; [|done].
      apply action_refusing in Hc as [Hc|(? & ? & ? & _ & Hc & _)]; [|done].
      apply guarded_refusing in Hc as [Hc|?]; [by destruct (ar_runtime ar)|auto]. }
  apply action_refusing in H as [->%enforced_refusing|(? & [projection dependency] & ? & _ & H & _)]; [by left|].
  destruct (failure_of _ _ _ _); [|done]. destruct (strict (policy_of rq)) eqn:Hs; [auto|done].
Qed.

(** ** What an answer carries *)

(** The fields the gate stamps on a result. *)
Definition stamp (r : TrustedResult) : string * option string * string * option string :=
  (tres_trust_state r, tres_failure_code r, tres_calibration_status r, tres_calibration_id r).

Lemma judge_pool_stamp rq g now edges r t :
  judge_pool rq g now edges r = Ok t -> stamp t = (state_value Trusted, None, ga_status g, ga_calibration_id g).
Proof.
  unfold judge_pool, evaluate. destruct edges as [[[e|gr] unresolved] [ec|]]; [..|done|];
    intros (judged & _ & [= <-])%bind_ok; done.
Qed.

Lemma withhold_for_stamp rq g edges r : stamp (withhold_for rq g edges r) = stamp r.
Proof.
  unfold withhold_for. destruct (rq_security_policy rq), (rq_access_context rq); try done.
  unfold withhold_unauthorized_names. by destruct (existsb _ _).
Qed.

Lemma order_for_stamp rq r t : stamp (order_for rq r t) = stamp t.
Proof.
  unfold order_for. destruct (rq_successor_expansion rq) as [se|]; [|done]. case_decide; [done|].
  unfold order_promoted. by repeat case_decide.
Qed.

Lemma unknown_gate_stamp t check : stamp (apply_unknown_term_gate t check) = stamp t.
Proof. unfold apply_unknown_term_gate. by destruct (uc_unknown check). Qed.

(** What degradation leaves: the gate's own failure code, and nothing verified when
    there was no calibration. *)
Lemma degrade_for_spec g t :
  stamp t = (state_value Trusted, None, ga_status g, ga_calibration_id g) ->
  let r := degrade_for g t in
  tres_calibration_status r = ga_status g /\ tres_calibration_id r = ga_calibration_id g /\
  match ga_failure g with
  | None => tres_trust_state r = state_value Trusted /\ tres_failure_code r = None
  | Some code =>
      tres_trust_state r = state_value Degraded /\ tres_failure_code r = Some (code_value code) /\
      (ga_calibration g = None ->
         tres_abstained r = false /\ tres_reason r = None /\
         Forall (fun h => th_verdict h = Unverified) (tres_hits r))
  end.
Proof.
  unfold stamp. intros [= Hs Hf Hst Hid]. unfold degrade_for. destruct (ga_failure g) as [code|]; [|done].
  unfold degraded. case_bool_decide as Hc; simpl; split_and!; try done.
  intros _. split_and!; [done..|]. apply Forall_map, Forall_true. done.
Qed.

Lemma answer_returned rq g es r :
  answer rq g = (es, Returned r) ->
  exists t, r = degrade_for g t /\ stamp t = (state_value Trusted, None, ga_status g, ga_calibration_id g).
Proof.
  unfold answer. intros H. run H as effective He. run H as [[pool edges] traces] Hp. run H as t Ht.
  run H as check Hc. run H as u Hd. injection H as _ <-. eexists. split; [done|].
  unfold lift in Ht. injection Ht as _ Ht. destruct (judge_pool _ _ _ _ _) as [t'|] eqn:Hj; [|done].
  injection Ht as ->. rewrite unknown_gate_stamp, withhold_for_stamp, order_for_stamp.
  by apply judge_pool_stamp in Hj as <-.
Qed.

(** Preparing a request leaves the gate as it was. *)
Lemma prepare_gate rq rq' :
  prepare rq = Ok rq' ->
  gate_of rq' = gate_of rq /\ policy_of rq' = policy_of rq /\ (cleared rq' = cleared rq).
Proof.
  unfold prepare. destruct (rq_k rq <? 1); [done|]. destruct (rq_security_policy rq) as [policy|]; [|by intros [= <-]].
  destruct (rq_access_context rq) as [context|]; [|done]. case_decide; [done|].
  intros (requested & _ & H2)%bind_ok. apply bind_ok in H2 as (scope & _ & [= <-]). done.
Qed.

(** Every run is the gate and then, if it lets through, an answer. *)
Lemma search_once_gated rq es o :
  search_once rq = (es, o) -> (exists e, o = Raising e /\ es = []) \/
  exists rq', gate_of rq' = gate_of rq /\ policy_of rq' = policy_of rq /\ cleared rq' = cleared rq /\
    gated rq' = (es, o).
Proof.
  unfold search_once, mbind, action_bind, lift. destruct (prepare rq) as [rq1|e] eqn:H1; [|naive_solver].
  pose proof (prepare_gate _ _ H1) as (Hg & Hp & Hc). destruct (st_snapshot store).
  - destruct (prepare rq1) as [rq2|e] eqn:H2; [|intros [= <- <-]; eauto].
    pose proof (prepare_gate _ _ H2) as (Hg' & Hp' & Hc'). destruct (gated rq2) as [es' o'] eqn:Hgd.
    intros [= <- <-]. right. exists rq2. by rewrite Hg', Hp', Hc', Hgd.
  - destruct (gated rq1) as [es' o'] eqn:Hgd. intros [= <- <-]. right. exists rq1. by rewrite Hgd.
Qed.
End search.

(** ** Withheld names *)
Section withheld.
Context (py_str : value -> string) (policy : SourceSecurityPolicy) (context : AccessContext).
Context (collided : gset string) (files : list (string * string)).

(** The policy lets the caller read the document a key stands for. *)
Definition may_name (k : string) : Prop :=
  exists file, place_graph_key k files collided = Some file /\
    pd_allowed (policy_decide policy file context) = true.

Lemma denied_may_name k : denied policy context collided files k = false <-> may_name k.
Proof.
  unfold denied, may_name. destruct (place_graph_key k files collided) as [file|]; [|naive_solver].
  rewrite negb_false_iff. naive_solver.
Qed.

(** What a result may show of a name the graph or the projection holds. *)
Definition shown (name : string) : Prop := name = WITHHELD \/ may_name name.

Lemma withhold_name_shown name : shown (withhold_name policy context collided files name).
Proof.
  unfold withhold_name, shown. destruct (denied _ _ _ _ _) eqn:Hd; [by left|].
  right. by apply denied_may_name.
Qed.

Definition hit_shown (h : TrustedHit) : Prop :=
  (forall s, va_superseded_by (th_validity h) = Some s -> s = "" \/ shown s) /\
  (forall r, th_invalidation h = Some r -> shown (ir_dependency r) /\ Forall shown (ir_path r)).

Lemma withhold_hit_shown h : hit_shown (withhold_hit policy context collided files h).
Proof.
  unfold hit_shown, withhold_hit. simpl. split.
  - intros s. destruct (va_superseded_by (th_validity h)) as [s'|]; simpl; [|done]. intros [= <-].
    case_decide; [by left|right; apply withhold_name_shown].
  - intros r. destruct (th_invalidation h) as [r'|]; simpl; [|done]. intros [= <-]. simpl.
    split; [apply withhold_name_shown|]. apply Forall_map, Forall_true. intros. apply withhold_name_shown.
Qed.

Lemma withhold_name_fixed name :
  withhold_name policy context collided files name = name -> shown name.
Proof. intros <-. apply withhold_name_shown. Qed.

Lemma unchanged_hit_shown h : hit_changed policy context collided files h = false -> hit_shown h.
Proof.
  unfold hit_changed, hit_shown. rewrite orb_false_iff. intros [Hs Hi]. split.
  - intros s Heq. rewrite Heq in Hs. destruct (decide (s = "")); [by left|]. right. right.
    apply denied_may_name. rewrite bool_decide_false in Hs by done. done.
  - intros r Heq. rewrite Heq, orb_false_iff, !negb_false_iff, !bool_decide_eq_true in Hi.
    destruct Hi as [Hd Hp]. split; [by apply withhold_name_fixed|].
    apply Forall_forall. intros n (i & Hn)%list_elem_of_lookup. apply withhold_name_fixed.
    pose proof Hn as Hm. rewrite <-Hp in Hm. change (map ?f ?l) with (f <$> l) in Hm.
    rewrite list_lookup_fmap, Hn in Hm. by injection Hm.
Qed.
End withheld.

(** ** Properties *)

Section theorems.
Context (py_str : value -> string) (exp : float -> float).
Context (retrieve : string -> Z -> Scope -> float -> bool -> result (RetrievalResult * list RetrievalResult)).
Context (load_rescue : string -> string -> option string -> fields -> result ()).
Context (utc_now : datetime) (trust_ms trace_ms : float) (env : fields) (store : Store) (embedder : Embedder).

Notation search := (trusted_search py_str exp retrieve load_rescue utc_now trust_ms trace_ms env store embedder).


(** C6: an answer says what the gate established.  A result is marked trusted exactly
    when the gate was clear: a certified status resolved by the store for this request,
    an embedder that matches the generation, and the enforced projection in hand; the
    strict policy answers nothing else.  Any other answer is marked degraded with a
    failure code and never reads as calibrated, and when there was no calibration no
    hit of it is verified and it does not abstain. *)
Theorem answer_is_gated (clock : option datetime) (ledger : bool) (rq : Request) es r :
  search clock ledger rq = (es, Returned r) ->
  exists reads g, gate_of env store embedder (with_clock clock rq) = (reads, Returned g) /\
    (reads = [] \/ reads = [projection_read store] /\ configured_mode env store (with_clock clock rq) = ([], Returned "enforce")) /\
    (exists rest, es = reads ++ rest) /\
    (tres_trust_state r = "trusted" <-> cleared store embedder (with_clock clock rq) g) /\
    (strict (policy_of rq) = true -> tres_trust_state r = "trusted") /\
    (tres_trust_state r = "trusted" -> tres_failure_code r = None /\ tres_calibration_status r = "certified") /\
    (tres_trust_state r <> "trusted" ->
       tres_trust_state r = "degraded" /\ is_Some (tres_failure_code r) /\ result_calibrated r = false /\
       (ga_calibration g = None ->
          tres_abstained r = false /\ Forall (fun h => th_verdict h = Unverified) (tres_hits r))).
Proof.
  unfold trusted_search. destruct (search_once _ _ _ _ _ _ _ _ _ _ _) as [es0 [t|r0|e]] eqn:Hs;
    [|by destruct ledger|done].
  intros H. assert (t = r /\ exists log, es = es0 ++ log) as [-> [log Hes]].
  { destruct ledger; injection H as <- <-; [by split; [|eexists]|]. split; [done|]. exists []. by rewrite app_nil_r. }
  clear H.
  apply search_once_gated in Hs as [(e & ? & _)|(rq' & Hg & Hp & Hc & Hrun)]; [done|].
  unfold gated in Hrun. apply action_returned in Hrun as (reads & g & es1 & Hgate & Hrun & Hes0). exists reads, g.
  pose proof (gate_returned _ _ _ _ _ _ Hgate) as [Hstrict Hcl]. rewrite Hp in Hstrict. rewrite Hc in Hcl.
  change (policy_of (with_clock clock rq)) with (policy_of rq) in Hstrict.
  apply answer_returned in Hrun as (t & -> & Hstamp). apply degrade_for_spec in Hstamp as (Hst & Hid & Hf).
  rewrite <-Hg. split; [done|]. rewrite Hg in Hgate. split; [by apply gate_events in Hgate|].
  split; [exists (es1 ++ log); by rewrite Hes, Hes0, <-app_assoc|]. destruct (ga_failure g) as [code|].
  - destruct Hf as (Hstate & Hcode & Hmiss). rewrite Hstate. simpl.
    assert (Hncl : ~ cleared store embedder (with_clock clock rq) g) by by rewrite <-Hcl.
    split; [by split|]. split; [destruct Hstrict; congruence|]. split; [done|]. intros _. split_and!.
    + done.
    + by rewrite Hcode.
    + unfold result_calibrated. rewrite Hstate. by rewrite !andb_false_r.
    + intros (? & _ & ?)%Hmiss. done.
  - destruct Hf as [Hstate Hcode]. rewrite Hstate. simpl.
    assert (Hcleared : cleared store embedder (with_clock clock rq) g) by by apply Hcl.
    split; [by split|]. split; [done|]. split; [|done]. intros _. split; [done|]. rewrite Hst. apply Hcleared.
Qed.

(** What a caller may not read is not named to it.  The result shows a successor,
    an invalidating dependency or a node of its path only when the policy lets the
    caller read the document it stands for; every other name is withheld.  The memories
    and their verdicts stay as they were, and the reason of an abstention is built from
    the hits as shown. *)
Theorem names_withheld (policy : SourceSecurityPolicy) (context : AccessContext) (collided : gset string)
    (t : TrustedResult) :
  let r := withhold_unauthorized_names py_str policy context collided t in
  Forall (hit_shown policy context collided (file_of_source py_str (tres_hits t))) (tres_hits r) /\
  Forall2 (fun h h' => th_chunk h' = th_chunk h /\ th_verdict h' = th_verdict h) (tres_hits t) (tres_hits r) /\
  tres_abstained r = tres_abstained t /\ tres_decision_state r = tres_decision_state t /\
  (tres_abstained t = true -> tres_reason t = Some (abstain_reason py_str (tres_hits t)) ->
   tres_reason r = Some (abstain_reason py_str (tres_hits r))).
Proof.
  cbn zeta. unfold withhold_unauthorized_names. set (files := file_of_source _ _).
  destruct (existsb (hit_changed policy context collided files) (tres_hits t)) eqn:He; simpl.
  - split; [apply Forall_map, Forall_true; intros; apply withhold_hit_shown|]. split; [|split_and!; [done..|]].
    + clearbody files. clear He. induction (tres_hits t); simpl; [apply Forall2_nil_2|by apply Forall2_cons_2].
    + by intros ->.
  - split; [|split_and!; [|done..]].
    + apply Forall_forall. intros h Hh. apply unchanged_hit_shown. apply not_true_iff_false. intros Hc.
      apply not_true_iff_false in He. apply He, existsb_exists. exists h. by rewrite <-list_elem_of_In.
    + clearbody files. clear He. induction (tres_hits t); simpl; [apply Forall2_nil_2|by apply Forall2_cons_2].
Qed.
End theorems.

(** ** A concrete store, with and without a certified calibration *)

Definition demo_runtime : Calibration :=
  {| cal_embedder := "bge"; cal_threshold := float_of_decimal 50 2; cal_scale := DEFAULT_SCALE;
     cal_separability := None; cal_n_answerable := None; cal_n_unanswerable := None |}.

Definition demo_store (certified : bool) : Store :=
  {| st_tenant := Some "t"; st_generation_id := Some "gen-1"; st_snapshot := true; st_dependency_mode := None;
     st_binding := None;
     st_resolve_calibration :=
       if certified
       then Some (Returned {| res_status := StatusCertified;
              res_artifact := Some {| ar_runtime := Ok demo_runtime; ar_calibration_id := "cal-1"; ar_query_set_digest := "d" |} |})
       else None;
     st_dependency_projection := None; st_current_state := fun _ _ => Returned None;
     st_supersession_graph := Ok None; st_supersession_all := None;
     st_supersession := Ok ({[ "old.md" := "new.md" ]}, ∅); st_unknown_terms := Some (fun _ => Ok []) |}.

Definition demo_embedder : Embedder :=
  {| em_name := "bge"; em_dim := "384"; em_profile_id := "bge"; em_profile_fingerprint := "" |}.

Definition demo_request (mode : string) : Request :=
  {| rq_query := "q"; rq_k := 5; rq_source := None; rq_scope := None; rq_calibration := None;
     rq_now := Some (Aware 10); rq_known_as_of := None; rq_policy := None; rq_document_expansion := None;
     rq_structural_expansion := None; rq_successor_expansion := None; rq_dependency_mode := Some mode;
     rq_security_policy := None; rq_access_context := None; rq_pre_trust_transform := None; rq_trace := false |}.

Definition demo_search (certified : bool) : action TrustedResult :=
  trusted_search (fun _ => "") (fun _ => one) (fun _ _ _ _ _ => Ok (demo_retrieval, [])) (fun _ _ _ _ => Ok ())
    (Aware 10) zero zero [] (demo_store certified) demo_embedder None true (demo_request (if certified then "off" else "enforce")).

Definition demo_refusal : TrustRefusal :=
  match demo_search false with (_, Refusing r) => r | _ => outage (demo_store false) [] "" end.

Definition demo_answer : TrustedResult :=
  match demo_search true with (_, Returned r) => r | _ => demo_trusted end.

Lemma demo_search_refuses : demo_search false = ([ScanCorpus; RecordRefusal demo_refusal], Refusing demo_refusal).
Proof. vm_compute. reflexivity. Qed.

Lemma demo_search_answers :
  demo_search true = ([Retrieve; ReadEdges; Vocabulary; RecordDecision demo_answer], Returned demo_answer).
Proof. vm_compute. reflexivity. Qed.


Lemma answer_is_gated_witness :
  result_calibrated demo_answer = true /\ map th_verdict (tres_hits demo_answer) = [VerdictOk; Superseded; LowConfidence] /\
  exists reads g, gate_of [] (demo_store true) demo_embedder (with_clock None (demo_request "off")) = (reads, Returned g) /\
    cleared (demo_store true) demo_embedder (with_clock None (demo_request "off")) g.
Proof.
  split; [vm_compute; reflexivity|]. split; [vm_compute; reflexivity|].
  destruct (answer_is_gated _ _ _ _ _ _ _ _ _ _ _ _ _ _ _ demo_search_answers) as (reads & g & Hg & _ & _ & Ht & Hs & _).
  exists reads, g. split; [exact Hg|]. apply Ht, Hs. reflexivity.
Defined.
