(* ===== verification/Retriever.v ===== *)
(** * Retriever: fusion, expansions and the two searches (src/recall/retriever.py)

    Reciprocal rank fusion of the legs of a query, the optional expansions of a result, the
    folder prior (src/recall/scope_prior.py), the order of the stages of [search] and
    [search_fused], and the rerankers that only reorder (src/recall/rerank.py).  The store, the
    embedder, the encoder, the cross-encoder's scores and the affinity of a query to the
    centroids are arguments; [elapsed] is the rounded duration of a stage in milliseconds. *)
From S2P Require Import Prelude Text Float64 Frontmatter Types Calibration Scope FrontmatterBlock FrontmatterWriters.

Local Open Scope Z_scope.

(** ** Expansions *)

Record DocumentExpansionPolicy := {
  dx_enabled : bool; dx_max_sources : Z; dx_chunks_per_source : Z; dx_relational_query_only : bool
}.

Record StructuralExpansionPolicy := {
  sx_enabled : bool; sx_max_sources : Z; sx_chunks_per_source : Z; sx_radius : Z; sx_relational_query_only : bool
}.

Inductive successor_ordering := PoolOrder | PromotedFirst | InheritOrder.

Record SuccessorExpansionPolicy := {
  ux_enabled : bool; ux_max_sources : Z; ux_chunks_per_source : Z; ux_ordering : successor_ordering
}.

(** [__post_init__] of the three policies. *)
Definition check_bounds (max_sources chunks_per_source : Z) : result () :=
  if max_sources <? 1 then Raise (ValueError "max_sources must be positive")
  else if chunks_per_source <? 1 then Raise (ValueError "chunks_per_source must be positive")
  else Ok ().

Definition document_policy (p : DocumentExpansionPolicy) : result DocumentExpansionPolicy :=
  _ ← check_bounds (dx_max_sources p) (dx_chunks_per_source p); Ok p.

Definition structural_policy (p : StructuralExpansionPolicy) : result StructuralExpansionPolicy :=
  _ ← check_bounds (sx_max_sources p) (sx_chunks_per_source p);
  if sx_radius p <? 0 then Raise (ValueError "radius must not be negative") else Ok p.

Definition successor_policy (p : SuccessorExpansionPolicy) : result SuccessorExpansionPolicy :=
  _ ← check_bounds (ux_max_sources p) (ux_chunks_per_source p); Ok p.

(** [\w] below U+0100. *)
Definition word_char (c : ascii) : bool :=
  let n := code c in
  ((48 <=? n) && (n <=? 57) || (65 <=? n) && (n <=? 90) || (n =? 95) || (97 <=? n) && (n <=? 122) ||
   (n =? 170) || (n =? 178) || (n =? 179) || (n =? 181) || (n =? 185) || (n =? 186) || (188 <=? n) && (n <=? 190) ||
   (192 <=? n) && (n <=? 214) || (216 <=? n) && (n <=? 246) || (248 <=? n))%nat.

Fixpoint words_from (word : list ascii) (l : list ascii) : list string :=
  let close := match word with [] => [] | _ => [unchars (reverse word)] end in
  match l with
  | [] => close
  | c :: l' => if word_char c then words_from (c :: word) l' else close ++ words_from [] l'
  end.

Definition RELATIONAL_WORDS : list string :=
  ["why"; "how"; "when"; "before"; "after"; "compare"; "comparison"; "difference"; "changed"; "change";
   "decision"; "decided"; "status"; "result"; "outcome"; "outcomes"; "happened"; "led"; "caused"; "consequence";
   "following"; "subsequent"; "entity"; "entities"; "each"; "per"; "this"; "that"; "it"; "they"; "them"].

(** [_needs_document_expansion]: a whole word of the query is one of these, in any case. *)
Definition needs_document_expansion (query : string) : bool :=
  existsb (fun w => bool_decide (lower w ∈ RELATIONAL_WORDS)) (words_from [] (chars query)).

Definition hit_id (h : ScoredChunk) : string := c_id (sc_chunk h).

Definition file_of (h : ScoredChunk) : option string :=
  match meta_get "file" (c_metadata (sc_chunk h)) with
  | VStr s => if decide (s = "") then None else Some s
  | _ => None
  end.

(** [_document_key]. *)
Definition document_key (h : ScoredChunk) : string := default (c_source (sc_chunk h)) (file_of h).

(** The loop that collects the documents of the hits, up to [max_sources]. *)
Fixpoint first_documents (max_sources : Z) (sources : list string) (hits : list ScoredChunk) : list string :=
  match hits with
  | [] => sources
  | h :: hits' =>
      let sources := if decide (document_key h ∈ sources) then sources else sources ++ [document_key h] in
      if max_sources <=? Z.of_nat (length sources) then sources else first_documents max_sources sources hits'
  end.

(** The hits of the result, then the others not seen before. *)
Definition merge_hit (st : list string * list ScoredChunk) (h : ScoredChunk) : list string * list ScoredChunk :=
  if decide (hit_id h ∈ st.1) then st else (st.1 ++ [hit_id h], st.2 ++ [h]).

Definition merge_hits (hits expanded : list ScoredChunk) : list ScoredChunk :=
  (foldl merge_hit (hit_id <$> hits, hits) expanded).2.

Section expansions.
Context (search : string -> Z -> option string -> result RetrievalResult) (elapsed : string -> float).

(** The scoped searches, what each contributes, and the result they make. *)
Definition expanded_result (stage : string) (r : RetrievalResult) (sources : list string)
    (scoped : list RetrievalResult) (expanded : list ScoredChunk) : RetrievalResult :=
  let d := rr_diagnostics r in
  let timings := odict_set (stage +:+ "_sources") (float_of_Z (Z.of_nat (length sources)))
                   (odict_set stage (elapsed stage) (rd_stage_ms d)) in
  {| rr_query := rr_query r; rr_hits := merge_hits (rr_hits r) expanded; rr_gap_warning := rr_gap_warning r;
     rr_staleness := rr_staleness r;
     rr_diagnostics :=
       {| rd_embedding_profile := rd_embedding_profile d; rd_retrieval_profile := rd_retrieval_profile d;
          rd_index_generation := rd_index_generation d; rd_candidate_pool_size := rd_candidate_pool_size d;
          rd_reranking_ran := rd_reranking_ran d || existsb (fun s => rd_reranking_ran (rr_diagnostics s)) scoped;
          rd_stage_ms := timings; rd_max_dense_score := rd_max_dense_score d;
          rd_unknown_term_check := rd_unknown_term_check d; rd_unknown_terms := rd_unknown_terms d |} |}.

Definition search_each (query : string) (chunks : Z) (sources : list string) : result (list RetrievalResult) :=
  result_mapM (fun source => search query chunks (Some source)) sources.

(** [expand_retrieval_by_source]. *)
Definition expand_retrieval_by_source (r : RetrievalResult) (p : DocumentExpansionPolicy) : result RetrievalResult :=
  if negb (dx_enabled p) || bool_decide (rr_hits r = []) then Ok r
  else if dx_relational_query_only p && negb (needs_document_expansion (rr_query r)) then Ok r
  else
    let sources := first_documents (dx_max_sources p) [] (rr_hits r) in
    scoped ← search_each (rr_query r) (dx_chunks_per_source p) sources;
    Ok (expanded_result "document_expansion" r sources scoped (scoped ≫= rr_hits)).

(** [isinstance(ordinal, int)]: a Boolean is one. *)
Definition as_int (v : value) : option Z :=
  match v with VInt z => Some z | VBool b => Some (if b then 1 else 0) | _ => None end.

Definition ordinal (h : ScoredChunk) : value := meta_get "ord" (c_metadata (sc_chunk h)).

(** [ordinal == terminal]: a float equals an integer when it is exactly that number. *)
Definition equals_int (v : value) (z : Z) : bool :=
  match v with
  | VFloat (S754_zero _) => z =? 0
  | VFloat (S754_finite s m e) =>
      let m := if s then Z.neg m else Z.pos m in
      if 0 <=? e then m * 2 ^ e =? z else m =? z * 2 ^ (- e)
  | VFloat _ => false
  | _ => match as_int v with Some n => n =? z | None => false end
  end.

(** The documents and the ordinals of their hits; a document past the bound is passed over. *)
Definition seed_step (max_sources : Z) (st : list string * list (string * list Z)) (h : ScoredChunk) :
    list string * list (string * list Z) :=
  let source := document_key h in
  if negb (bool_decide (source ∈ st.1)) && (max_sources <=? Z.of_nat (length st.1)) then st
  else
    let sources := if decide (source ∈ st.1) then st.1 else st.1 ++ [source] in
    (sources, match as_int (ordinal h) with Some o => odict_push source o st.2 | None => st.2 end).

Definition structural_keep (radius : Z) (seeds : list Z) (candidates : list ScoredChunk) : list ScoredChunk :=
  let terminal := match omap (fun h => as_int (ordinal h)) candidates with
                  | [] => None
                  | o :: os => Some (foldl Z.max o os)
                  end in
  List.filter (fun h =>
    match as_int (ordinal h) with Some o => existsb (fun seed => Z.abs (o - seed) <=? radius) seeds | None => false end ||
    match terminal with Some t => equals_int (ordinal h) t | None => false end ||
    match seeds with [] => true | _ => false end) candidates.

(** [expand_retrieval_by_structure]. *)
Definition expand_retrieval_by_structure (r : RetrievalResult) (p : StructuralExpansionPolicy) : result RetrievalResult :=
  if negb (sx_enabled p) || bool_decide (rr_hits r = []) then Ok r
  else if sx_relational_query_only p && negb (needs_document_expansion (rr_query r)) then Ok r
  else
    let '(sources, seeds) := foldl (seed_step (sx_max_sources p)) ([], []) (rr_hits r) in
    scoped ← search_each (rr_query r) (sx_chunks_per_source p) sources;
    let expanded := zip sources scoped ≫= (fun q =>
      structural_keep (sx_radius p) (default [] (odict_get q.1 seeds)) (rr_hits q.2)) in
    Ok (expanded_result "structural_expansion" r sources scoped expanded).

(** The declared successors that are not in the pool, up to [max_sources]. *)
Fixpoint successor_targets (resolve : string -> option string) (max_sources : Z) (present targets : list string)
    (hits : list ScoredChunk) : list string :=
  match hits with
  | [] => targets
  | h :: hits' =>
      match file_of h ≫= resolve with
      | None => successor_targets resolve max_sources present targets hits'
      | Some successor =>
          if decide (successor ∈ present) then successor_targets resolve max_sources present targets hits'
          else
            let targets := targets ++ [successor] in
            if max_sources <=? Z.of_nat (length targets) then targets
            else successor_targets resolve max_sources (successor :: present) targets hits'
      end
  end.

(** [expand_retrieval_by_successor]. *)
Definition expand_retrieval_by_successor (resolve : string -> option string) (r : RetrievalResult)
    (p : SuccessorExpansionPolicy) : result RetrievalResult :=
  if negb (ux_enabled p) || bool_decide (rr_hits r = []) then Ok r
  else
    let targets := successor_targets resolve (ux_max_sources p) (omap file_of (rr_hits r)) [] (rr_hits r) in
    if decide (targets = []) then Ok r
    else
      scoped ← search_each (rr_query r) (ux_chunks_per_source p) targets;
      Ok (expanded_result "successor_expansion" r targets scoped (scoped ≫= rr_hits)).
End expansions.

(** ** Fusion *)

Definition rrf_add (k : Z) (scores : list (string * float)) (entry : nat * string) : list (string * float) :=
  odict_set entry.2 (fadd (default zero (odict_get entry.2 scores)) (fdiv one (float_of_Z (k + Z.of_nat entry.1 + 1)))) scores.

(** [_rrf]. *)
Definition rrf (k : Z) (rankings : list (list string)) : list (string * float) :=
  foldl (fun scores ranking => foldl (rrf_add k) scores (imap pair ranking)) [] rankings.

Definition RRF_K : Z := 60.

(** [sorted(scores, key=lambda cid: scores[cid], reverse=True)]: stable, never lower before higher. *)
Definition by_score (scores : list (string * float)) : list string :=
  let score cid := default zero (odict_get cid scores) in
  stable_sort (fun a b => negb (flt (score a) (score b))) scores.*1.

(** [_rescored]. *)
Definition rescored (h : ScoredChunk) (score : float) : ScoredChunk :=
  {| sc_chunk := sc_chunk h; sc_score := score; sc_indexed_at := sc_indexed_at h;
     sc_first_indexed_at := sc_first_indexed_at h; sc_kind := sc_kind h |}.

(** ** The folder prior *)

Inductive prior_dimension := FolderDimension | FacetDimension.

Record ScopePrior := { sp_dimension : prior_dimension; sp_weight : float; sp_min_chunks : Z }.

(** [ScopePrior.enabled]. *)
Definition prior_enabled (p : ScopePrior) : bool := fgt (sp_weight p) zero.

(** [scope_value_of]. *)
Definition scope_value_of (h : ScoredChunk) (d : prior_dimension) : option string :=
  match d with
  | FolderDimension => folder_of <$> file_of h
  | FacetDimension =>
      match meta_get "type" (c_metadata (sc_chunk h)) with
      | VStr s => if decide (strip s = "") then None else Some (lower (strip s))
      | _ => None
      end
  end.

(** [key] in [apply_scope_prior]. *)
Definition prior_key (p : ScopePrior) (affinity_by_value : list (string * float)) (last : Z) (q : nat * ScoredChunk) :
    float * float :=
  let base := fdiv (float_of_Z (last - Z.of_nat q.1)) (float_of_Z last) in
  let affinity := match scope_value_of q.2 (sp_dimension p) with
                  | Some v => default zero (odict_get v affinity_by_value)
                  | None => zero
                  end in
  (fadd base (fmul (sp_weight p) affinity), affinity).

(** [a < b] on pairs of floats. *)
Definition pair_lt (a b : float * float) : bool := if SFeqb a.1 b.1 then flt a.2 b.2 else flt a.1 b.1.

(** [apply_scope_prior]. *)
Definition apply_scope_prior (hits : list ScoredChunk) (affinity_by_value : list (string * float)) (p : ScopePrior) :
    list ScoredChunk :=
  if negb (prior_enabled p) || (length hits <? 2)%nat then hits
  else
    let key := prior_key p affinity_by_value (Z.of_nat (length hits) - 1) in
    snd <$> stable_sort (fun a b => negb (pair_lt (key a) (key b))) (imap pair hits).

(** ** Rerankers *)

Class Reranker := rerank : string -> list ScoredChunk -> result (list ScoredChunk).

(** What a reranker promises: it reorders, and may leave some out. *)
Class Reorders (R : Reranker) : Prop :=
  reorders query hits out : rerank query hits = Ok out -> out ⊆+ hits.

Definition NoOpReranker : Reranker := fun _ hits => Ok hits.

(** [CrossEncoderReranker.rerank]; [predict] gives a score per hit. *)
Definition CrossEncoderReranker (predict : string -> list ScoredChunk -> result (list float)) : Reranker := fun query hits =>
  match hits with
  | [] => Ok hits
  | _ =>
      scores ← predict query hits;
      let score i := default zero (scores !! i) in
      Ok (omap (fun i => hits !! i) (stable_sort (fun i j => negb (flt (score i) (score j))) (seq 0 (length hits))))
  end.

(** [FallbackReranker.rerank]. *)
Definition FallbackReranker (primary fallback : Reranker) : Reranker := fun query hits =>
  match primary query hits with Ok out => Ok out | Raise _ => fallback query hits end.

(** ** The retriever *)

Inductive sparse_backend := Lexical | Splade | Both.

#[export] Instance sparse_backend_eq_dec : EqDecision sparse_backend.
Proof. solve_decision. Defined.

Definition DEFAULT_CANDIDATE_K : Z := 20.
Definition FUSED_RERANK_POOL_CAP : nat := 100.
Definition FUSED_HISTORY_MAX_CHARS : nat := 4096.

(** How a scope reaches the store: as a source where a source says it all. *)
Inductive scope_arg := BySource (source : option string) | ByScope (s : Scope).

Definition scope_arg_of (s : Scope) : scope_arg :=
  if decide (scp_folder s = None /\ scp_facet s = None /\ scp_source_prefixes s = None /\ scp_security_policy_digest s = None)
  then BySource (scp_source s) else ByScope s.

(** The leading speaker tag of a turn: a pipe, no pipe, a pipe, a colon and spaces. *)
Definition without_speaker_tag (l : list ascii) : list ascii :=
  match l with
  | "|"%char :: rest =>
      match drop_while (fun c => negb (bool_decide (c = "|"%char))) rest with
      | "|"%char :: ":"%char :: after => drop_while is_space after
      | _ => l
      end
  | _ => l
  end.

Fixpoint split_lines_of (l : list ascii) : list (list ascii) :=
  match l with
  | [] => [[]]
  | c :: l' =>
      if ends_line c then [] :: split_lines_of l'
      else match split_lines_of l' with [] => [[c]] | w :: ws => (c :: w) :: ws end
  end.

(** [build_history_query]; blank lines are left out, so that it does not matter that
    [splitlines] takes a carriage return and a line feed for one break. *)
Definition build_history_query (history : list string) : string :=
  join (unchars [LF])
    (filter (fun s => s <> "") ((fun l => unchars (strip_chars (without_speaker_tag l))) <$>
      (history ≫= fun turn => split_lines_of (chars turn)))).

Section retriever.
Context {vec weights centroids : Type}.

Record SparseEncoder := { en_encode : string -> result weights; en_empty : weights -> bool; en_profile_id : string }.

Record RetrieverStore := {
  query_dense : vec -> Z -> scope_arg -> result (list ScoredChunk);
  query_sparse : string -> Z -> vec -> scope_arg -> result (list ScoredChunk);
  query_learned_sparse : weights -> Z -> string -> vec -> scope_arg -> result (list ScoredChunk);
  newest_indexed_at : result (option datetime);
  cosines_for : list string -> vec -> result (list (string * float));
  scope_centroids : prior_dimension -> Z -> result centroids
}.

Record HybridRetriever := {
  hr_store : RetrieverStore;
  hr_embed_query : string -> result vec;
  hr_embedding_profile : string;
  hr_reranker : option Reranker;
  hr_gap_threshold : float;
  hr_max_age : Z;
  hr_candidate_k : Z;
  hr_use_sparse : bool;
  hr_use_dense : bool;
  hr_sparse_backend : sparse_backend;
  hr_sparse_encoder : option SparseEncoder;
  hr_retrieval_profile : string;
  hr_index_generation : string;
  hr_scope_prior : ScopePrior;
  hr_dense_transform : option (vec -> list ScoredChunk -> result (list ScoredChunk));
  hr_post_fusion_transform : option (vec -> list ScoredChunk -> list ScoredChunk -> result (list ScoredChunk))
}.

Definition wants_learned (r : HybridRetriever) : bool :=
  bool_decide (hr_sparse_backend r = Splade \/ hr_sparse_backend r = Both).

Definition wants_lexical (r : HybridRetriever) : bool :=
  bool_decide (hr_sparse_backend r = Lexical \/ hr_sparse_backend r = Both).

(** [HybridRetriever.__init__]; [recall_env] is the value of [RECALL_ENV]. *)
Definition hybrid_retriever (r : HybridRetriever) (recall_env : string) : result HybridRetriever :=
  if match hr_dense_transform r, hr_post_fusion_transform r with Some _, Some _ => true | _, _ => false end
  then Raise (ValueError "dense_transform and post_fusion_transform are mutually exclusive")
  else if negb (hr_use_dense r || hr_use_sparse r) then Raise (ValueError "at least one of use_dense / use_sparse must be True")
  else if wants_learned r && negb (bool_decide (is_Some (hr_sparse_encoder r))) then Raise (ValueError "needs a sparse_encoder")
  else if wants_learned r && bool_decide (lower (strip recall_env) = "production")
  then Raise (RuntimeError "the learned sparse leg is not available under RECALL_ENV=production")
  else Ok r.

(** [_Legs]; the stages are the names of what was timed. *)
Record Legs := {
  lg_qvec : vec; lg_dense : list ScoredChunk; lg_sparse : list ScoredChunk; lg_learned : list ScoredChunk; lg_stages : list string
}.

(** [_retrieve_legs]. *)
Definition retrieve_legs (r : HybridRetriever) (query : string) (report_vec : option vec) (effective : Scope) : result Legs :=
  let store := hr_store r in
  let where_ := scope_arg_of effective in
  let k := hr_candidate_k r in
  qvec ← hr_embed_query r query;
  let reporting := default qvec report_vec in
  dense ← (if hr_use_dense r then query_dense store qvec k where_ else Ok []);
  '(dense, rescue) ← (match hr_dense_transform r with
                      | Some transform =>
                          if Scope.is_empty effective then d ← transform qvec dense; Ok (d, ["atomic_rescue"]) else Ok (dense, [])
                      | None => Ok (dense, [])
                      end);
  sparse ← (if hr_use_sparse r && wants_lexical r then query_sparse store query k reporting where_ else Ok []);
  learned ← (if hr_use_sparse r && wants_learned r then
               match hr_sparse_encoder r with
               | None => Raise (RuntimeError "assert encoder is not None")
               | Some e =>
                   w ← en_encode e query;
                   if en_empty e w then Ok [] else query_learned_sparse store w k (en_profile_id e) reporting where_
               end
             else Ok []);
  Ok {| lg_qvec := qvec; lg_dense := dense; lg_sparse := sparse; lg_learned := learned;
        lg_stages := ["query_embedding"; "dense_retrieval"] ++ rescue ++ ["sparse_retrieval"; "learned_sparse_retrieval"] |}.

Definition by_hit_id (hits : list ScoredChunk) : list (string * ScoredChunk) :=
  foldl (fun d h => odict_set (hit_id h) h d) [] hits.

Definition set_default (d : list (string * ScoredChunk)) (h : ScoredChunk) : list (string * ScoredChunk) :=
  match odict_get (hit_id h) d with Some _ => d | None => odict_set (hit_id h) h d end.

Definition dense_scores (hits : list ScoredChunk) : list (string * float) :=
  foldl (fun d h => odict_set (hit_id h) (sc_score h) d) [] hits.

(** The hits of some ids, each with its dense cosine where the dense leg has one. *)
Definition pool_hits (held : list (string * ScoredChunk)) (dense : list (string * float)) (ids : list string) : list ScoredChunk :=
  omap (fun cid => h ← odict_get cid held; Some (rescored h (default (sc_score h) (odict_get cid dense)))) ids.

Definition leg_ids (l : Legs) : list (list string) := [hit_id <$> lg_dense l; hit_id <$> lg_sparse l; hit_id <$> lg_learned l].

(** The fused pool of one query, best first. *)
Definition fused_pool (l : Legs) : list ScoredChunk :=
  pool_hits (foldl set_default (by_hit_id (lg_dense l)) (lg_sparse l ++ lg_learned l)) (dense_scores (lg_dense l))
    (by_score (rrf RRF_K (leg_ids l))).

Definition max_dense (scores : list float) : option float :=
  match scores with [] => None | s :: rest => Some (max_score s rest) end.

Context (affinities : vec -> centroids -> result (list (string * float))) (no_centroids : centroids).
Context (elapsed : string -> float) (utc_now : datetime).

Definition stage_ms (stages : list string) : list (string * float) := foldl (fun d s => odict_set s (elapsed s) d) [] stages.

(** [_scope_centroids]: fetched once; a store that cannot answer leaves none. *)
Definition centroids_of (r : HybridRetriever) (cell : option centroids) : centroids :=
  match cell with
  | Some c => c
  | None =>
      match scope_centroids (hr_store r) (sp_dimension (hr_scope_prior r)) (sp_min_chunks (hr_scope_prior r)) with
      | Ok c => c
      | Raise _ => no_centroids
      end
  end.

Definition answer_of (r : HybridRetriever) (query : string) (hits : list ScoredChunk) (dense : list (string * float))
    (pool : Z) (reranking_ran : bool) (stages : list string) : result RetrievalResult :=
  newest ← newest_indexed_at (hr_store r);
  stale ← staleness newest utc_now (hr_max_age r);
  Ok {| rr_query := query; rr_hits := hits; rr_gap_warning := gap_warning dense.*2 (hr_gap_threshold r); rr_staleness := stale;
        rr_diagnostics :=
          {| rd_embedding_profile := hr_embedding_profile r; rd_retrieval_profile := hr_retrieval_profile r;
             rd_index_generation := hr_index_generation r; rd_candidate_pool_size := pool; rd_reranking_ran := reranking_ran;
             rd_stage_ms := stage_ms stages; rd_max_dense_score := max_dense dense.*2;
             rd_unknown_term_check := "not_run"; rd_unknown_terms := [] |} |}.

Definition with_hits (hits : list ScoredChunk) (a : RetrievalResult) : RetrievalResult :=
  {| rr_query := rr_query a; rr_hits := hits; rr_gap_warning := rr_gap_warning a; rr_staleness := rr_staleness a;
     rr_diagnostics := rr_diagnostics a |}.

(** [RetrievalCandidateTrace]. *)
Record RetrievalCandidateTrace := {
  ct_result : RetrievalResult; ct_dense : list ScoredChunk; ct_sparse : list ScoredChunk; ct_learned : list ScoredChunk
}.

(** The final order: the reranker, the folder prior, the transform, in that order. *)
Definition rerank_stage (r : HybridRetriever) (query : string) (hits : list ScoredChunk) : result (list ScoredChunk) :=
  match hr_reranker r with Some reranker => reranker query hits | None => Ok hits end.

Definition prior_stage (r : HybridRetriever) (cell : option centroids) (qvec : vec) (hits : list ScoredChunk) :
    result (list ScoredChunk * list string) :=
  if prior_enabled (hr_scope_prior r) then
    a ← affinities qvec (centroids_of r cell); Ok (apply_scope_prior hits a (hr_scope_prior r), ["scope_prior"])
  else Ok (hits, []).

Definition transform_stage (r : HybridRetriever) (effective : Scope) (l : Legs) (hits : list ScoredChunk) :
    result (list ScoredChunk * list string) :=
  match hr_post_fusion_transform r with
  | Some transform =>
      if Scope.is_empty effective then hits ← transform (lg_qvec l) (lg_dense l) hits; Ok (hits, ["atomic_rescue"]) else Ok (hits, [])
  | None => Ok (hits, [])
  end.

(** [search]: what is returned, and the trace a callback is given; [cell] holds the centroids of
    an earlier search ([centroids_of] is what it holds afterwards). *)
Definition search (r : HybridRetriever) (cell : option centroids) (query : string) (k : Z) (source : option string) (scope : option Scope) :
    result (RetrievalResult * RetrievalCandidateTrace) :=
  if k <? 1 then Raise (ValueError "k must be >= 1")
  else
    effective ← coerce_scope scope source;
    l ← retrieve_legs r query None effective;
    hits ← rerank_stage r query (fused_pool l);
    '(hits, tilted) ← prior_stage r cell (lg_qvec l) hits;
    '(hits, rescued) ← transform_stage r effective l hits;
    full ← answer_of r query hits (dense_scores (lg_dense l)) (hr_candidate_k r) (bool_decide (is_Some (hr_reranker r)))
             (lg_stages l ++ ["fusion"; "reranking"] ++ tilted ++ rescued);
    Ok (with_hits (take (Z.to_nat k) hits) full,
        {| ct_result := full; ct_dense := lg_dense l; ct_sparse := lg_sparse l; ct_learned := lg_learned l |}).

(** The hits of both queries, the ones of the query first. *)
Definition held_by_both (primary secondary : Legs) : list (string * ScoredChunk) :=
  foldl set_default [] ([primary; secondary] ≫= fun l => lg_dense l ++ lg_sparse l ++ lg_learned l).

Definition fused_ids (primary secondary : Legs) : list string :=
  by_score (rrf RRF_K [by_score (rrf RRF_K (leg_ids primary)); by_score (rrf RRF_K (leg_ids secondary))]).

(** [search_fused]. *)
Definition search_fused (r : HybridRetriever) (query : string) (history : list string) (k : Z) (source : option string)
    (scope : option Scope) : result RetrievalResult :=
  if k <? 1 then Raise (ValueError "k must be >= 1")
  else
    match hr_reranker r with
    | None => Raise (ValueError "search_fused requires a reranker")
    | Some reranker =>
        if decide (history = []) then Raise (ValueError "search_fused requires a non-empty history")
        else
          let history_query := build_history_query history in
          if (FUSED_HISTORY_MAX_CHARS <? length (chars history_query))%nat then Raise (ValueError "history over budget")
          else if decide (history_query = "") then Raise (ValueError "history contained no usable text")
          else
            effective ← coerce_scope scope source;
            primary ← retrieve_legs r query None effective;
            secondary ← retrieve_legs r history_query (Some (lg_qvec primary)) effective;
            let ranked := fused_ids primary secondary in
            let dense := dense_scores (lg_dense primary) in
            hits ← reranker query (pool_hits (held_by_both primary secondary) dense (take FUSED_RERANK_POOL_CAP ranked));
            let hits := take (Z.to_nat k) hits in
            fresh ← cosines_for (hr_store r) (hit_id <$> hits) (lg_qvec primary);
            let hits := omap (fun h => rescored h <$> odict_get (hit_id h) fresh) hits in
            answer_of r query hits dense (Z.of_nat (length ranked)) true
              (lg_stages primary ++ ["history_retrieval"; "outer_fusion"; "reranking"; "rescore"])
    end.
End retriever.

(** ** Runs *)

Definition demo_hit (id file : string) (score : float) : ScoredChunk :=
  {| sc_chunk := {| c_id := id; c_source := "/m/" +:+ file; c_text := ""; c_metadata := [("file", VStr file); ("ord", VInt 3)] |};
     sc_score := score; sc_indexed_at := None; sc_first_indexed_at := None; sc_kind := DenseCosine |}.

Example words_ex : needs_document_expansion "and WHEN did it land?" = true. Proof. reflexivity. Qed.
Example words_ex2 : needs_document_expansion "whenever decisions" = false. Proof. reflexivity. Qed.
Example history_ex :
  build_history_query ["|user|:  hello"; "|a | table |"; unchars [LF; " "%char; CR]] =
  "hello" +:+ unchars [LF] +:+ "|a | table |".
Proof. vm_compute. reflexivity. Qed.
Example rrf_ex : by_score (rrf RRF_K [["a"; "b"; "c"]; ["c"; "d"]; ["d"]]) = ["d"; "c"; "a"; "b"].
Proof. vm_compute. reflexivity. Qed.
