(* ===== verification/RetrieverFacts.v ===== *)
(** * RetrieverFacts: what the searches return

    The fused order is a total order on the scores reciprocal rank fusion makes; what a search
    returns was retrieved, carries a cosine of the query and heads the fused order; expansions
    only add, and only what was found in the documents they name. *)
From S2P Require Import Prelude Text Float64 Frontmatter Types Calibration Scope FrontmatterBlock FrontmatterWriters Retriever.

Local Open Scope Z_scope.

(** ** Scores are never NaN *)

(** Zero, a positive float or positive infinity. *)
Definition nonneg (x : float) : bool :=
  match x with S754_zero s | S754_infinity s | S754_finite s _ _ => negb s | S754_nan => false end.

Lemma round_aux_nonneg m e l : 0 <= m -> nonneg (binary_round_aux prec emax false m e l) = true.
Proof.
  intros Hm. unfold binary_round_aux.
  pose proof (shr_fexp_nonneg m e l Hm) as H1. destruct (shr_fexp prec emax m e l) as [r1 e1]. simpl in H1.
  set (m2 := round_nearest_even _ _).
  assert (Hm2 : 0 <= m2) by (unfold m2, round_nearest_even; repeat case_match; lia).
  pose proof (shr_fexp_nonneg m2 e1 loc_Exact Hm2) as H2.
  destruct (shr_fexp prec emax m2 e1 loc_Exact) as [r2 e2]. simpl in H2.
  destruct (shr_m r2) as [|p|p]; [done|by destruct (e2 <=? emax - prec)|lia].
Qed.

Lemma normalize_nonneg z e : 0 <= z -> nonneg (binary_normalize prec emax z e false) = true.
Proof.
  intros Hz. unfold binary_normalize. destruct z as [|p|p]; [done| |lia]. unfold binary_round.
  destruct (shl_align p e _) as [m e']. by apply round_aux_nonneg.
Qed.

Lemma fadd_nonneg x y : nonneg x = true -> nonneg y = true -> nonneg (fadd x y) = true.
Proof.
  unfold fadd, SFadd. destruct x as [[]|[]| |[] mx ex], y as [[]|[]| |[] my ey]; try done. intros _ _.
  apply normalize_nonneg. simpl. lia.
Qed.

Lemma fdiv_nonneg m e m' e' : nonneg (fdiv (S754_finite false m e) (S754_finite false m' e')) = true.
Proof.
  unfold fdiv, SFdiv. simpl xorb. unfold SFdiv_core_binary. cbn zeta.
  match goal with |- context [Z.div_eucl ?a ?b] =>
    assert (Hq : 0 <= a / b); [|unfold Z.div in Hq; destruct (Z.div_eucl a b) as [q r]; by apply round_aux_nonneg]
  end.
  apply Z.div_pos; [|lia]. destruct (_ - _ - Z.min _ _); [lia|apply Z.shiftl_nonneg; lia|lia].
Qed.

Lemma nonneg_not_nan x : nonneg x = true -> isnan x = false.
Proof. by destruct x. Qed.

(** Not below, on such floats: a total preorder. *)
Lemma not_below_trans x y z :
  nonneg x = true -> nonneg y = true -> nonneg z = true -> flt x y = false -> flt y z = false -> flt x z = false.
Proof.
  unfold flt, SFltb. destruct x as [[]|[]| |[] mx ex], y as [[]|[]| |[] my ey], z as [[]|[]| |[] mz ez]; try done.
  simpl. intros _ _ _. destruct (Z.compare_spec ex ey), (Z.compare_spec ey ez), (Z.compare_spec ex ez); try done; try lia;
  subst; rewrite <-?Pos.compare_cont_spec; simpl;
  repeat match goal with |- context [Pos.compare_cont Eq ?a ?b] => change (Pos.compare_cont Eq a b) with (Pos.compare a b) end;
  destruct (Pos.compare_spec mx my), (Pos.compare_spec my mz), (Pos.compare_spec mx mz); try done; lia.
Qed.

Lemma fdiv_one_nonneg x : nonneg x = true -> nonneg (fdiv one x) = true.
Proof. destruct x as [[]|[]| |[] m e]; try done. intros _. apply fdiv_nonneg. Qed.

Lemma float_of_Z_nonneg z : 0 <= z -> nonneg (float_of_Z z) = true.
Proof. apply normalize_nonneg. Qed.

(** ** Reciprocal rank fusion *)

Definition score_of (scores : list (string * float)) (cid : string) : float := default zero (odict_get cid scores).

(** What fusing keeps: one entry per id, no score below zero. *)
Definition fused (scores : list (string * float)) : Prop :=
  NoDup scores.*1 /\ forall cid, nonneg (score_of scores cid) = true.

Lemma rrf_add_fused k scores entry : 0 <= k -> fused scores -> fused (rrf_add k scores entry).
Proof.
  intros Hk [Hnd Hs]. split; [by apply odict_set_nodup|]. intros cid. unfold rrf_add, score_of. rewrite odict_get_set.
  case_decide; [|apply Hs]. apply fadd_nonneg; [apply Hs|]. apply fdiv_one_nonneg, float_of_Z_nonneg. lia.
Qed.

Lemma rrf_ranking_spec k scores entries :
  0 <= k -> fused scores ->
  fused (foldl (rrf_add k) scores entries) /\
  forall cid, cid ∈ (foldl (rrf_add k) scores entries).*1 <-> cid ∈ scores.*1 \/ cid ∈ entries.*2.
Proof.
  intros Hk. revert scores. induction entries as [|entry entries IH]; intros scores Hs; simpl; [split; [done|]; set_solver|].
  destruct (IH _ (rrf_add_fused k scores entry Hk Hs)) as [Hf Hin]. split; [done|]. intros cid. rewrite Hin, elem_of_cons.
  unfold rrf_add. rewrite odict_set_fst. tauto.
Qed.

Lemma imap_pair_snd {A} (l : list A) : (imap pair l).*2 = l.
Proof. apply list_eq. intros i. rewrite list_lookup_fmap, list_lookup_imap. by destruct (l !! i). Qed.

Lemma rrf_spec k rankings :
  0 <= k -> fused (rrf k rankings) /\ forall cid, cid ∈ (rrf k rankings).*1 <-> exists ranking, ranking ∈ rankings /\ cid ∈ ranking.
Proof.
  intros Hk. unfold rrf.
  assert (H : forall scores, fused scores ->
    fused (foldl (fun scores ranking => foldl (rrf_add k) scores (imap pair ranking)) scores rankings) /\
    forall cid, cid ∈ (foldl (fun scores ranking => foldl (rrf_add k) scores (imap pair ranking)) scores rankings).*1 <->
      cid ∈ scores.*1 \/ exists ranking, ranking ∈ rankings /\ cid ∈ ranking).
  { induction rankings as [|ranking rankings IH]; intros scores Hs; simpl.
    - split; [done|]. intros cid. split; [by left|]. intros [?|(? & ?%not_elem_of_nil & _)]; done.
    - destruct (rrf_ranking_spec k scores (imap pair ranking) Hk Hs) as [Hf Hin]. destruct (IH _ Hf) as [Hf' Hin'].
      split; [done|]. intros cid. rewrite Hin', Hin, imap_pair_snd. split.
      + intros [[?|?]|(q & ? & ?)]; [by left|right; exists ranking; split; [by left|done]|right; exists q; split; [by right|done]].
      + intros [?|(q & [->|Hq]%elem_of_cons & ?)]; [by left; left|by left; right|right; by exists q]. }
  destruct (H []) as [Hf Hin]; [split; [constructor|done]|]. split; [done|]. intros cid. rewrite Hin. split; [|by right].
  by intros [?%not_elem_of_nil|].
Qed.

(** Ordering by score keeps the ids and never puts a lower score first. *)
Lemma by_score_perm scores : by_score scores ≡ₚ scores.*1.
Proof. apply stable_sort_perm. Qed.

Lemma by_score_ordered scores :
  fused scores -> StronglySorted (fun a b => negb (flt (score_of scores a) (score_of scores b)) = true) (by_score scores).
Proof.
  intros [_ Hs]. apply Sorted_StronglySorted.
  - intros a b c Hab%negb_true_iff Hbc%negb_true_iff. apply negb_true_iff. by eapply not_below_trans; [apply Hs..| |].
  - apply (stable_sort_sorted (fun a b => negb (flt (score_of scores a) (score_of scores b)))).
    intros a b. destruct (flt (score_of scores a) (score_of scores b)) eqn:Hab; [|by left]. right.
    unfold flt, SFltb in *. assert (Ha := Hs a). assert (Hb := Hs b).
    destruct (SFcompare_swap (score_of scores a) (score_of scores b)) as (c & Hc & Hc'); [by apply nonneg_not_nan..|].
    rewrite Hc in Hab. rewrite Hc'. by destruct c.
Qed.

(** ** Expansions *)

Abbreviation ids hits := (hit_id <$> hits).

(** What a merge adds: hits found, each id once, none the result held already. *)
Lemma merge_hits_spec hits expanded :
  exists added, merge_hits hits expanded = hits ++ added /\ added `sublist_of` expanded /\ NoDup (ids added) /\
    (forall h, h ∈ added -> hit_id h ∉ ids hits) /\ (forall h, h ∈ expanded -> hit_id h ∈ ids (merge_hits hits expanded)).
Proof.
  unfold merge_hits.
  assert (H : forall held, exists added, foldl merge_hit (ids (hits ++ held), hits ++ held) expanded = (ids (hits ++ held ++ added), hits ++ held ++ added) /\
    added `sublist_of` expanded /\ NoDup (ids added) /\ (forall h, h ∈ added -> hit_id h ∉ ids (hits ++ held)) /\
    (forall h, h ∈ expanded -> hit_id h ∈ ids (hits ++ held ++ added))).
  { induction expanded as [|x expanded IH]; intros held; simpl.
    - exists []. rewrite !app_nil_r. split_and!; [done|constructor|constructor|set_solver|set_solver].
    - unfold merge_hit at 2. simpl. case_decide as Hx.
      + destruct (IH held) as (added & He & Hsub & Hnd & Hnew & Hall). exists added.
        split_and!; [done|by constructor|done..|]. intros h [->|Hh]%elem_of_cons; [|by apply Hall].
        rewrite (assoc_L (++)), fmap_app, elem_of_app. by left.
      + destruct (IH (held ++ [x])) as (added & He & Hsub & Hnd & Hnew & Hall). exists (x :: added).
        rewrite <-(assoc_L (++) held) in He, Hall. simpl in He, Hall.
        assert (Hids : ids (hits ++ held) ++ [hit_id x] = ids (hits ++ held ++ [x])) by (by rewrite !fmap_app, <-(assoc_L (++))).
        split_and!.
        * rewrite Hids, <-(assoc_L (++)). exact He.
        * by constructor.
        * rewrite fmap_cons. constructor; [|done]. intros (y & Hy & Hyin)%list_elem_of_fmap.
          apply (Hnew y Hyin). rewrite <-Hy, !fmap_app, !elem_of_app. right. right. by left.
        * intros h [->|Hh]%elem_of_cons; [done|]. intros Hin. apply (Hnew h Hh). rewrite (assoc_L (++)), fmap_app, elem_of_app. by left.
        * intros h [->|Hh]%elem_of_cons; [|by apply Hall]. rewrite !fmap_app, !elem_of_app, fmap_cons. right. right. by left. }
  destruct (H []) as (added & He & Hsub & Hnd & Hnew & Hall). simpl in *. rewrite app_nil_r in *. exists added. rewrite He. simpl.
  by split_and!.
Qed.

Section expansions.
Context (search : string -> Z -> option string -> result RetrievalResult) (elapsed : string -> float).

(** A search returns at most what it is asked for. *)
Context (search_bounded : forall q k s res, search q k s = Ok res -> Z.of_nat (length (rr_hits res)) <= k).

(** [r'] holds the hits of [r] first and then others, each once: at most [max] times [chunks],
    all of them found by searching for the same query within a document of [origin]. *)
Definition extends (max chunks : Z) (origin : string -> Prop) (r r' : RetrievalResult) : Prop :=
  rr_query r' = rr_query r /\ rr_gap_warning r' = rr_gap_warning r /\ rr_staleness r' = rr_staleness r /\
  exists added, rr_hits r' = rr_hits r ++ added /\ NoDup (ids added) /\ Z.of_nat (length added) <= max * chunks /\
    forall h, h ∈ added -> hit_id h ∉ ids (rr_hits r) /\
      exists source scoped, origin source /\ search (rr_query r) chunks (Some source) = Ok scoped /\ h ∈ rr_hits scoped.

Lemma extends_refl max chunks origin r : 0 <= max * chunks -> extends max chunks origin r r.
Proof.
  intros Hm. split_and!; [done..|]. exists []. rewrite app_nil_r. split_and!; [done|constructor|done|]. by intros h ?%not_elem_of_nil.
Qed.

Lemma length_bind_bound {A B} (f : A -> list B) (l : list A) (n : Z) :
  0 <= n -> (forall x, x ∈ l -> Z.of_nat (length (f x)) <= n) -> Z.of_nat (length (l ≫= f)) <= Z.of_nat (length l) * n.
Proof.
  intros Hn. induction l as [|x l IH]; intros Hf; [simpl; lia|]. rewrite bind_cons, length_app, length_cons.
  assert (Hx := Hf x ltac:(left)). specialize (IH ltac:(intros y Hy; apply Hf; by right)).
  rewrite Nat2Z.inj_succ, Z.mul_succ_l. lia.
Qed.

(** The searches of some documents, and a part of what each finds. *)
Lemma expanded_extends stage max chunks (origin : string -> Prop) (keep : string * RetrievalResult -> list ScoredChunk) r sources scoped :
  1 <= chunks -> Z.of_nat (length sources) <= max -> (forall s, s ∈ sources -> origin s) ->
  search_each search (rr_query r) chunks sources = Ok scoped ->
  (forall q, keep q `sublist_of` rr_hits q.2) ->
  extends max chunks origin r (expanded_result elapsed stage r sources scoped (zip sources scoped ≫= keep)).
Proof.
  intros Hc Hmax Horigin Hscoped Hkeep. apply result_mapM_ok in Hscoped. split_and!; [done..|].
  assert (Hlen : Z.of_nat (length (zip sources scoped ≫= keep)) <= Z.of_nat (length sources) * chunks).
  { rewrite <-(length_zip_with_l_eq pair sources scoped) by (by eapply Forall2_length). apply length_bind_bound; [lia|].
    intros [s q] Hq. assert (Hs : search (rr_query r) chunks (Some s) = Ok q).
    { apply list_elem_of_lookup in Hq as (i & Hi). apply lookup_zip_with_Some in Hi as (s' & q' & [= <- <-] & Hs & Hq).
      by eapply Forall2_lookup_lr in Hscoped. }
    assert (Hk := sublist_length _ _ (Hkeep (s, q))). apply search_bounded in Hs. simpl in *. lia. }
  destruct (merge_hits_spec (rr_hits r) (zip sources scoped ≫= keep)) as (added & He & Hsub & Hnd & Hnew & _).
  exists added. split_and!; [done..| |].
  - apply sublist_length in Hsub. nia.
  - intros h Hh. split; [by apply Hnew|]. apply (elem_of_sublist _ _ _ Hh) in Hsub.
    apply list_elem_of_bind in Hsub as ([s q] & Hq & Hin). apply list_elem_of_lookup in Hin as (i & Hi).
    apply lookup_zip_with_Some in Hi as (s' & q' & [= <- <-] & Hs & Hq'). exists s, q. split_and!.
    + apply Horigin. by eapply list_elem_of_lookup_2.
    + by eapply Forall2_lookup_lr in Hscoped.
    + exact (elem_of_sublist _ _ _ Hq (Hkeep (s, q))).
Qed.

Lemma zip_bind {A B C} (l : list A) (k : list B) (f : B -> list C) : length l = length k -> zip l k ≫= (fun q => f q.2) = k ≫= f.
Proof. revert k. induction l as [|x l IH]; intros [|y k] Hl; try done. simpl. f_equal. apply IH. by injection Hl. Qed.

Lemma first_documents_spec max sources hits :
  Z.of_nat (length sources) < max ->
  Z.of_nat (length (first_documents max sources hits)) <= max /\
  forall s, s ∈ first_documents max sources hits -> s ∈ sources \/ exists h, h ∈ hits /\ document_key h = s.
Proof.
  revert sources. induction hits as [|h hits IH]; intros sources Hs; cbn [first_documents]; [split; [lia|]; by left|].
  set (sources' := if decide (document_key h ∈ sources) then sources else sources ++ [document_key h]).
  assert (Hlen : Z.of_nat (length sources') <= max) by (unfold sources'; case_decide; rewrite ?length_app; simpl; lia).
  assert (Hin : forall s, s ∈ sources' -> s ∈ sources \/ exists h', h' ∈ h :: hits /\ document_key h' = s).
  { intros s. unfold sources'. case_decide; [by left|]. rewrite elem_of_app, list_elem_of_singleton.
    intros [?| ->]; [by left|right; exists h; split; [left|done]]. }
  destruct (Z.leb_spec max (Z.of_nat (length sources'))) as [Hle|Hlt]; [done|].
  destruct (IH sources' Hlt) as [Hb Ho]. split; [done|]. intros s [?|(h' & ? & ?)]%Ho; [by apply Hin|].
  right. exists h'. split; [by right|done].
Qed.

Lemma seed_step_spec max st hits :
  Z.of_nat (length st.1) <= max ->
  Z.of_nat (length (foldl (seed_step max) st hits).1) <= max /\
  forall s, s ∈ (foldl (seed_step max) st hits).1 -> s ∈ st.1 \/ exists h, h ∈ hits /\ document_key h = s.
Proof.
  revert st. induction hits as [|h hits IH]; intros st Hs; simpl; [split; [done|]; by left|].
  assert (Hst : Z.of_nat (length (seed_step max st h).1) <= max /\
    forall s, s ∈ (seed_step max st h).1 -> s ∈ st.1 \/ s = document_key h).
  { unfold seed_step. destruct (bool_decide_reflect (document_key h ∈ st.1)) as [Hin|Hin]; simpl.
    - rewrite decide_True by done. split; [done|]. by left.
    - destruct (Z.leb_spec max (Z.of_nat (length st.1))); simpl; [split; [done|]; by left|].
      rewrite decide_False by done. rewrite length_app. simpl. split; [lia|]. intros s. rewrite elem_of_app, list_elem_of_singleton. tauto. }
  destruct Hst as [Hlen Hkeys]. destruct (IH _ Hlen) as [Hb Ho]. split; [done|].
  intros s [[?| ->]%Hkeys|(h' & ? & ?)]%Ho; [by left|right; exists h; split; [left|done]|right; exists h'; split; [by right|done]].
Qed.

Lemma successor_targets_spec resolve max present targets hits :
  Z.of_nat (length targets) < max ->
  Z.of_nat (length (successor_targets resolve max present targets hits)) <= max /\
  forall s, s ∈ successor_targets resolve max present targets hits ->
    s ∈ targets \/ exists h, h ∈ hits /\ file_of h ≫= resolve = Some s /\ s ∉ present.
Proof.
  revert present targets. induction hits as [|h hits IH]; intros present targets Ht; cbn [successor_targets]; [split; [lia|]; by left|].
  assert (Hskip : forall present' : list string, (forall s : string, s ∉ present' -> s ∉ present) -> forall s,
    (s ∈ targets \/ exists h', h' ∈ hits /\ file_of h' ≫= resolve = Some s /\ s ∉ present') ->
    s ∈ targets \/ exists h', h' ∈ h :: hits /\ file_of h' ≫= resolve = Some s /\ s ∉ present).
  { intros present' Hp s [?|(h' & ? & ? & ?)]; [by left|]. right. exists h'. split_and!; [by right|done|by apply Hp]. }
  destruct (file_of h ≫= resolve) as [n|] eqn:Hn; [|destruct (IH present targets Ht); split; [done|]; intros s Hs; eapply Hskip; eauto].
  case_decide as Hin; [destruct (IH present targets Ht); split; [done|]; intros s Hs; eapply Hskip; eauto|].
  assert (Hlen : Z.of_nat (length (targets ++ [n])) <= max) by (rewrite length_app; simpl; lia).
  assert (Hnew : forall s, s ∈ targets ++ [n] -> s ∈ targets \/ exists h', h' ∈ h :: hits /\ file_of h' ≫= resolve = Some s /\ s ∉ present).
  { intros s. rewrite elem_of_app, list_elem_of_singleton. intros [?| ->]; [by left|right; exists h; split_and!; [left|done..]]. }
  destruct (Z.leb_spec max (Z.of_nat (length (targets ++ [n])))) as [Hle|Hlt]; [done|].
  destruct (IH (n :: present) (targets ++ [n]) Hlt) as [Hb Ho]. split; [done|].
  intros s [?|(h' & ? & ? & Hs)]%Ho; [by apply Hnew|]. right. exists h'. split_and!; [by right|done|].
  rewrite not_elem_of_cons in Hs. tauto.
Qed.

Lemma structural_keep_sublist radius seeds candidates : structural_keep radius seeds candidates `sublist_of` candidates.
Proof.
  unfold structural_keep. generalize (match omap (fun h => as_int (ordinal h)) candidates with [] => None | o :: os => Some (foldl Z.max o os) end).
  intros terminal. induction candidates as [|h l IH]; [constructor|]. cbn [List.filter].
  match goal with |- context [if ?b then _ else _] => destruct b end; by constructor.
Qed.

(** The three expansions only add to a result, within the bounds of their policy: the hits
    that were there stay first and untouched, nothing is listed twice, and what is added was
    found by a search for the same query within a document of the pool (or within a declared
    successor the pool did not hold), at most [max_sources] times [chunks_per_source] hits. *)
Theorem expansions_extend r r' :
  (forall p, document_policy p = Ok p -> expand_retrieval_by_source search elapsed r p = Ok r' ->
     extends (dx_max_sources p) (dx_chunks_per_source p) (fun s => exists h, h ∈ rr_hits r /\ document_key h = s) r r') /\
  (forall p, structural_policy p = Ok p -> expand_retrieval_by_structure search elapsed r p = Ok r' ->
     extends (sx_max_sources p) (sx_chunks_per_source p) (fun s => exists h, h ∈ rr_hits r /\ document_key h = s) r r') /\
  (forall p resolve, successor_policy p = Ok p -> expand_retrieval_by_successor search elapsed resolve r p = Ok r' ->
     extends (ux_max_sources p) (ux_chunks_per_source p)
       (fun s => (exists h, h ∈ rr_hits r /\ file_of h ≫= resolve = Some s) /\ s ∉ omap file_of (rr_hits r)) r r').
Proof.
  assert (Hpol : forall m c, check_bounds m c = Ok () -> 1 <= m /\ 1 <= c).
  { unfold check_bounds. intros m c. destruct (Z.ltb_spec m 1), (Z.ltb_spec c 1); try done; lia. }
  split_and!.
  - intros p Hp. unfold document_policy in Hp. destruct (check_bounds _ _) as [[]|] eqn:Hb; [|done]. apply Hpol in Hb as [Hm Hc].
    unfold expand_retrieval_by_source. destruct (negb _ || _); [intros [= <-]; apply extends_refl; nia|].
    destruct (_ && _); [intros [= <-]; apply extends_refl; nia|].
    destruct (first_documents_spec (dx_max_sources p) [] (rr_hits r)) as [Hlen Ho]; [simpl; lia|].
    destruct (search_each _ _ _ _) as [scoped|] eqn:Hs; [|done]. intros [= <-].
    rewrite <-(zip_bind (first_documents (dx_max_sources p) [] (rr_hits r)) scoped rr_hits)
      by (apply result_mapM_ok in Hs; by eapply Forall2_length).
    eapply expanded_extends; [done..| |done|done]. intros s [?%not_elem_of_nil|?]%Ho; done.
  - intros p Hp. unfold structural_policy in Hp. destruct (check_bounds _ _) as [[]|] eqn:Hb; [|done]. apply Hpol in Hb as [Hm Hc].
    unfold expand_retrieval_by_structure. destruct (negb _ || _); [intros [= <-]; apply extends_refl; nia|].
    destruct (_ && _); [intros [= <-]; apply extends_refl; nia|].
    destruct (seed_step_spec (sx_max_sources p) ([], []) (rr_hits r)) as [Hlen Ho]; [simpl; lia|].
    destruct (foldl _ _ _) as [sources seeds]. simpl in Hlen, Ho.
    destruct (search_each _ _ _ _) as [scoped|] eqn:Hs; [|done]. intros [= <-].
    eapply expanded_extends; [done..| |done|intros q; apply structural_keep_sublist]. intros s [?%not_elem_of_nil|?]%Ho; done.
  - intros p resolve Hp. unfold successor_policy in Hp. destruct (check_bounds _ _) as [[]|] eqn:Hb; [|done]. apply Hpol in Hb as [Hm Hc].
    unfold expand_retrieval_by_successor. destruct (negb _ || _); [intros [= <-]; apply extends_refl; nia|].
    destruct (successor_targets_spec resolve (ux_max_sources p) (omap file_of (rr_hits r)) [] (rr_hits r)) as [Hlen Ho]; [simpl; lia|].
    case_decide; [intros [= <-]; apply extends_refl; nia|].
    destruct (search_each _ _ _ _) as [scoped|] eqn:Hs; [|done]. intros [= <-].
    rewrite <-(zip_bind (successor_targets resolve (ux_max_sources p) (omap file_of (rr_hits r)) [] (rr_hits r)) scoped rr_hits)
      by (apply result_mapM_ok in Hs; by eapply Forall2_length).
    eapply expanded_extends; [done..| |done|done]. intros s [?%not_elem_of_nil|(h & ? & ? & ?)]%Ho; [done|]. split; [by exists h|done].
Qed.
End expansions.

(** ** The pool of a query *)

Lemma held_by_id hits cid h : odict_get cid (by_hit_id hits) = Some h -> h ∈ hits /\ hit_id h = cid.
Proof.
  unfold by_hit_id. induction hits as [|x hits IH] using rev_ind; [done|]. rewrite foldl_app. simpl. rewrite odict_get_set, elem_of_app.
  case_decide as Hc; [intros [= ->]; split; [right; left|done]|]. intros [? ?]%IH. split; [by left|done].
Qed.

Lemma held_by_id_some hits cid : cid ∈ ids hits -> is_Some (odict_get cid (by_hit_id hits)).
Proof.
  unfold by_hit_id. induction hits as [|x hits IH] using rev_ind; [by intros ?%not_elem_of_nil|]. rewrite foldl_app, fmap_app, elem_of_app.
  simpl. rewrite odict_get_set. intros [Hin| ->%list_elem_of_singleton]; case_decide; eauto; done.
Qed.

Lemma set_defaults_spec d hits cid :
  (forall h, odict_get cid (foldl set_default d hits) = Some h -> odict_get cid d = Some h \/ h ∈ hits /\ hit_id h = cid) /\
  (is_Some (odict_get cid d) \/ cid ∈ ids hits -> is_Some (odict_get cid (foldl set_default d hits))).
Proof.
  revert d. induction hits as [|x hits IH]; intros d; simpl; [split; [by left|]; by intros [?|?%not_elem_of_nil]|].
  destruct (IH (set_default d x)) as [Hs Ht].
  assert (Hx : forall h, odict_get cid (set_default d x) = Some h -> odict_get cid d = Some h \/ x = h /\ hit_id x = cid).
  { intros h. unfold set_default. destruct (odict_get (hit_id x) d); [by left|]. rewrite odict_get_set. case_decide; [|by left].
    intros [= ->]. by right. }
  assert (Hsome : is_Some (odict_get cid d) \/ cid = hit_id x -> is_Some (odict_get cid (set_default d x))).
  { unfold set_default. destruct (odict_get (hit_id x) d) as [y|] eqn:Hy.
    - intros [?| ->]; [done|by rewrite Hy].
    - rewrite odict_get_set. case_decide; [by eexists|]. by intros [?|?]. }
  split.
  - intros h [Hh|[? ?]]%Hs; [|right; split; [by right|done]]. apply Hx in Hh as [?|[-> ?]]; [by left|right; split; [left|done]].
  - rewrite elem_of_cons. intros [?|[?|?]]; apply Ht; [left; apply Hsome; by left|left; apply Hsome; by right|by right].
Qed.

Lemma dense_score_some hits cid x : odict_get cid (dense_scores hits) = Some x -> exists d, d ∈ hits /\ hit_id d = cid /\ sc_score d = x.
Proof.
  unfold dense_scores. induction hits as [|y hits IH] using rev_ind; [done|]. rewrite foldl_app. simpl. rewrite odict_get_set.
  case_decide as Hc; [intros [= <-]; exists y; split; [apply elem_of_app; right; left|done]|].
  intros (d & ? & ?)%IH. exists d. split; [apply elem_of_app; by left|done].
Qed.

(** A hit of the pool: a hit of a leg, with the dense cosine of its id where the dense leg has it. *)
Definition of_legs (hits dense : list ScoredChunk) (h : ScoredChunk) : Prop :=
  exists h0, h0 ∈ hits /\ sc_chunk h = sc_chunk h0 /\
    (sc_score h = sc_score h0 /\ hit_id h ∉ ids dense \/ exists d, d ∈ dense /\ hit_id d = hit_id h /\ sc_score h = sc_score d).

Lemma dense_score_none hits cid : odict_get cid (dense_scores hits) = None -> cid ∉ ids hits.
Proof.
  unfold dense_scores. induction hits as [|y hits IH] using rev_ind; [intros _; apply not_elem_of_nil|]. rewrite foldl_app, fmap_app. simpl.
  rewrite odict_get_set, not_elem_of_app. case_decide as Hc; [done|]. intros Hn%IH. split; [done|]. by rewrite list_elem_of_singleton.
Qed.

Lemma pool_hits_spec held dense cids hits :
  (forall cid h, odict_get cid held = Some h -> h ∈ hits /\ hit_id h = cid) ->
  (forall h, h ∈ pool_hits held (dense_scores dense) cids -> of_legs hits dense h) /\
  ids (pool_hits held (dense_scores dense) cids) `sublist_of` cids /\
  ((forall cid, cid ∈ cids -> is_Some (odict_get cid held)) -> ids (pool_hits held (dense_scores dense) cids) = cids).
Proof.
  intros Hheld. unfold pool_hits. induction cids as [|cid cids (IHin & IHsub & IHall)]; [split_and!; [by intros h ?%not_elem_of_nil|constructor|done]|].
  cbn [omap list_omap]. destruct (odict_get cid held) as [h0|] eqn:Hh0; simpl.
  - destruct (Hheld _ _ Hh0) as [Hin Hid]. split_and!.
    + intros h [->|Hh]%elem_of_cons; [|by apply IHin]. exists h0. split_and!; [done..|]. unfold rescored. simpl. unfold hit_id. simpl. fold (hit_id h0).
      rewrite Hid. destruct (odict_get cid (dense_scores dense)) as [x|] eqn:Hx; simpl.
      * right. destruct (dense_score_some _ _ _ Hx) as (d & ? & ? & ?). by exists d.
      * left. split; [done|]. by apply dense_score_none.
    + change (hit_id (rescored h0 (default (sc_score h0) (odict_get cid (dense_scores dense))))) with (hit_id h0). rewrite Hid. by constructor.
    + intros Hall. change (hit_id (rescored h0 (default (sc_score h0) (odict_get cid (dense_scores dense))))) with (hit_id h0). rewrite Hid.
      f_equal. apply IHall. intros c Hc. apply Hall. by right.
  - split_and!; [done|by constructor|]. intros Hall. destruct (Hall cid ltac:(left)). congruence.
Qed.

Lemma prior_perm hits a p : apply_scope_prior hits a p ≡ₚ hits.
Proof. unfold apply_scope_prior. destruct (negb _ || _); [done|]. rewrite stable_sort_perm. by rewrite imap_pair_snd. Qed.

Section searches.
Context {vec weights centroids : Type}.
Abbreviation retriever := (@HybridRetriever vec weights centroids).
Abbreviation legs := (@Legs vec).

Definition leg_hits (l : legs) : list ScoredChunk := lg_dense l ++ lg_sparse l ++ lg_learned l.

Lemma leg_ids_hits (l : legs) cid : (exists ranking, ranking ∈ leg_ids l /\ cid ∈ ranking) <-> cid ∈ ids (leg_hits l).
Proof.
  unfold leg_hits, leg_ids. rewrite !fmap_app, !elem_of_app. split.
  - intros (q & Hq & Hc). rewrite !elem_of_cons, elem_of_nil in Hq. destruct Hq as [->|[->|[->|[]]]]; tauto.
  - intros [?|[?|?]]; [exists (ids (lg_dense l))|exists (ids (lg_sparse l))|exists (ids (lg_learned l))];
      (split; [rewrite !elem_of_cons; tauto|done]).
Qed.

Lemma fused_pool_spec (l : legs) :
  ids (fused_pool l) = by_score (rrf RRF_K (leg_ids l)) /\ NoDup (ids (fused_pool l)) /\
  (forall cid, cid ∈ ids (fused_pool l) <-> cid ∈ ids (leg_hits l)) /\
  forall h, h ∈ fused_pool l -> of_legs (leg_hits l) (lg_dense l) h.
Proof.
  destruct (rrf_spec RRF_K (leg_ids l) ltac:(done)) as [[Hnd _] Hin].
  assert (Hheld : forall cid h, odict_get cid (foldl set_default (by_hit_id (lg_dense l)) (lg_sparse l ++ lg_learned l)) = Some h ->
    h ∈ leg_hits l /\ hit_id h = cid).
  { intros cid h Hh. apply set_defaults_spec in Hh as [[? ?]%held_by_id|[? ?]]; (split; [|done]); apply elem_of_app; tauto. }
  destruct (pool_hits_spec _ (lg_dense l) (by_score (rrf RRF_K (leg_ids l))) _ Hheld) as (Hof & _ & Hids).
  assert (Hall : ids (fused_pool l) = by_score (rrf RRF_K (leg_ids l))).
  { apply Hids. intros cid Hc. rewrite by_score_perm, Hin, leg_ids_hits in Hc. unfold leg_hits in Hc. rewrite fmap_app, elem_of_app in Hc.
    apply set_defaults_spec. destruct Hc; [left; by apply held_by_id_some|by right]. }
  rewrite Hall. split_and!; [done|by rewrite by_score_perm| |exact Hof].
  intros cid. by rewrite by_score_perm, Hin, leg_ids_hits.
Qed.

(** Each leg answers with at most [candidate_k] hits. *)
Record StoreLaws (s : @RetrieverStore vec weights centroids) : Prop := {
  dense_bounded v k w hits : 0 <= k -> query_dense s v k w = Ok hits -> Z.of_nat (length hits) <= k;
  sparse_bounded q k v w hits : 0 <= k -> query_sparse s q k v w = Ok hits -> Z.of_nat (length hits) <= k;
  learned_bounded x k p v w hits : 0 <= k -> query_learned_sparse s x k p v w = Ok hits -> Z.of_nat (length hits) <= k
}.

Lemma legs_bounded (r : retriever) query report effective l :
  StoreLaws (hr_store r) -> hr_dense_transform r = None -> 0 <= hr_candidate_k r ->
  retrieve_legs r query report effective = Ok l -> Z.of_nat (length (leg_hits l)) <= 3 * hr_candidate_k r.
Proof.
  intros Hs Ht Hk. unfold retrieve_legs. rewrite Ht. destruct (hr_embed_query r query) as [qvec|]; [|done]. cbn [mbind result_bind].
  destruct (if hr_use_dense r then _ else _) as [dense|] eqn:Hd; [|done]. cbn [mbind result_bind].
  destruct (if hr_use_sparse r && wants_lexical r then _ else _) as [sparse|] eqn:Hsp; [|done]. cbn [mbind result_bind].
  destruct (if hr_use_sparse r && wants_learned r then _ else _) as [learned|] eqn:Hl; [|done]. cbn [mbind result_bind].
  intros [= <-]. unfold leg_hits. simpl. rewrite !length_app.
  assert (Z.of_nat (length dense) <= hr_candidate_k r).
  { destruct (hr_use_dense r); [by eapply dense_bounded|by injection Hd as <-]. }
  assert (Z.of_nat (length sparse) <= hr_candidate_k r).
  { destruct (hr_use_sparse r && wants_lexical r); [by eapply sparse_bounded|by injection Hsp as <-]. }
  assert (Z.of_nat (length learned) <= hr_candidate_k r); [|lia].
  destruct (hr_use_sparse r && wants_learned r); [|by injection Hl as <-].
  destruct (hr_sparse_encoder r) as [e|]; [|done]. destruct (en_encode e query) as [w|]; [|done]. cbn [mbind result_bind] in Hl.
  destruct (en_empty e w); [by injection Hl as <-|by eapply learned_bounded].
Qed.

Context (affinities : vec -> centroids -> result (list (string * float))) (no_centroids : centroids).
Context (elapsed : string -> float) (utc_now : datetime).
#[local] Abbreviation search := (search affinities no_centroids elapsed utc_now).

Lemma answer_hits (r : retriever) query hits dense pool ran stages a :
  answer_of elapsed utc_now r query hits dense pool ran stages = Ok a -> rr_hits a = hits.
Proof.
  unfold answer_of. destruct (newest_indexed_at _); [|done]. cbn [mbind result_bind]. destruct (staleness _ _ _); [|done].
  by intros [= <-].
Qed.

Lemma take_not_below {A} (R : A -> A -> Prop) l n x y : StronglySorted R l -> x ∈ take n l -> y ∈ l -> y ∉ take n l -> R x y.
Proof.
  intros Hs Hx Hy Hny. rewrite <-(take_drop n l) in Hs, Hy. apply elem_of_app in Hy as [?|Hy]; [done|].
  clear Hny. induction (take n l) as [|z ls IH]; [by apply not_elem_of_nil in Hx|]. simpl in Hs. apply StronglySorted_inv in Hs as [Hs Hall].
  apply elem_of_cons in Hx as [->|Hx]; [|by apply IH]. rewrite Forall_forall in Hall. apply Hall. apply elem_of_app. by right.
Qed.

Lemma NoDup_ids_submseteq hits pool : NoDup (ids pool) -> hits ⊆+ pool -> NoDup (ids hits).
Proof.
  intros Hnd [rest Hp]%submseteq_Permutation. apply (fmap_Permutation hit_id) in Hp. rewrite Hp, fmap_app in Hnd.
  by apply NoDup_app in Hnd as (? & _).
Qed.

(** C31: what a search returns. Without atomic rescue and with a reranker that only reorders, the
    hits are at most [k] of a pool of at most three times [candidate_k] candidates, none twice;
    each was retrieved by a leg and carries its dense cosine where the dense leg found it, its
    leg's own cosine otherwise; and with neither reranker nor folder prior no candidate left out
    has a greater fused score than one returned. *)
Theorem search_returns (r : retriever) cell query k source scope a trace :
  StoreLaws (hr_store r) -> hr_dense_transform r = None -> hr_post_fusion_transform r = None ->
  (forall R, hr_reranker r = Some R -> Reorders R) -> 0 <= hr_candidate_k r ->
  search r cell query k source scope = Ok (a, trace) ->
  exists effective l, coerce_scope scope source = Ok effective /\ retrieve_legs r query None effective = Ok l /\
    Z.of_nat (length (rr_hits a)) <= k /\ Z.of_nat (length (fused_pool l)) <= 3 * hr_candidate_k r /\
    rr_hits a ⊆+ fused_pool l /\ NoDup (ids (rr_hits a)) /\
    (forall h, h ∈ rr_hits a -> of_legs (leg_hits l) (lg_dense l) h) /\
    (hr_reranker r = None -> prior_enabled (hr_scope_prior r) = false -> forall h c,
       h ∈ rr_hits a -> c ∈ ids (leg_hits l) -> c ∉ ids (rr_hits a) ->
       flt (score_of (rrf RRF_K (leg_ids l)) (hit_id h)) (score_of (rrf RRF_K (leg_ids l)) c) = false).
Proof.
  intros Hlaws Hdt Hpt Hre Hk. unfold Retriever.search. destruct (Z.ltb_spec k 1); [done|].
  destruct (coerce_scope scope source) as [effective|]; [|done]. cbn [mbind result_bind].
  destruct (retrieve_legs r query None effective) as [l|] eqn:Hl; [|done]. cbn [mbind result_bind].
  destruct (rerank_stage r query (fused_pool l)) as [reranked|] eqn:Hrr; [|done]. cbn [mbind result_bind].
  destruct (prior_stage _ _ r cell (lg_qvec l) reranked) as [[tilted stages]|] eqn:Hpr; [|done]. cbn [mbind result_bind].
  unfold transform_stage. rewrite Hpt. cbn [mbind result_bind].
  destruct (answer_of _ _ r query tilted _ _ _ _) as [full|] eqn:Hfull; [|done]. cbn [mbind result_bind]. intros [= <- <-].
  destruct (fused_pool_spec l) as (Hids & Hnd & Hin & Hof). exists effective, l. simpl rr_hits.
  assert (Hsub : tilted ⊆+ fused_pool l).
  { transitivity reranked.
    - unfold prior_stage in Hpr. destruct (prior_enabled _); [|by injection Hpr as <- _].
      destruct (affinities _ _); [|done]. injection Hpr as <- _. by rewrite prior_perm.
    - unfold rerank_stage in Hrr. destruct (hr_reranker r) as [R|]; [by eapply (Hre R eq_refl)|by injection Hrr as <-]. }
  assert (Htake : take (Z.to_nat k) tilted ⊆+ fused_pool l) by (etransitivity; [apply sublist_submseteq, sublist_take|done]).
  split_and!; [done|done| | |done| | |].
  - rewrite length_take. lia.
  - rewrite <-(length_fmap hit_id). transitivity (Z.of_nat (length (ids (leg_hits l)))); [|rewrite length_fmap; by eapply legs_bounded].
    apply inj_le, submseteq_length, NoDup_submseteq; [done|]. intros x. apply Hin.
  - by eapply NoDup_ids_submseteq.
  - intros h Hh. apply Hof. by eapply elem_of_submseteq.
  - intros Hno Hoff h c Hh Hc Hnc. unfold rerank_stage, prior_stage in *. rewrite Hno in Hrr. rewrite Hoff in Hpr.
    injection Hrr as <-. injection Hpr as <- _. rewrite <-Hin, Hids in Hc. rewrite fmap_take, Hids in Hnc.
    apply (list_elem_of_fmap_2 hit_id) in Hh. rewrite fmap_take, Hids in Hh.
    apply negb_true_iff. refine (take_not_below _ _ _ _ _ (by_score_ordered _ _) Hh Hc Hnc). by apply rrf_spec.
Qed.

Lemma retrieve_legs_embeds (r : retriever) query report effective l :
  retrieve_legs r query report effective = Ok l -> hr_embed_query r query = Ok (lg_qvec l).
Proof.
  unfold retrieve_legs. destruct (hr_embed_query r query) as [qvec|]; [|done]. cbn [mbind result_bind].
  destruct (if hr_use_dense r then _ else _) as [dense|]; [|done]. cbn [mbind result_bind].
  destruct (match hr_dense_transform r with Some _ => _ | None => _ end) as [[d rescue]|]; [|done]. cbn [mbind result_bind].
  destruct (if hr_use_sparse r && wants_lexical r then _ else _) as [sparse|]; [|done]. cbn [mbind result_bind].
  destruct (if hr_use_sparse r && wants_learned r then _ else _) as [learned|]; [|done]. cbn [mbind result_bind].
  by intros [= <-].
Qed.

Lemma held_by_both_spec (primary secondary : legs) cid h :
  odict_get cid (held_by_both primary secondary) = Some h -> h ∈ leg_hits primary ++ leg_hits secondary /\ hit_id h = cid.
Proof.
  unfold held_by_both. intros Hh. apply set_defaults_spec in Hh as [?|[Hh ?]]; [done|]. split; [|done].
  simpl in Hh. by rewrite app_nil_r in Hh.
Qed.

Lemma search_length (r : retriever) cell query k source scope a trace :
  search r cell query k source scope = Ok (a, trace) -> Z.of_nat (length (rr_hits a)) <= k.
Proof.
  unfold Retriever.search. destruct (Z.ltb_spec k 1); [done|].
  destruct (coerce_scope scope source) as [effective|]; [|done]. cbn [mbind result_bind].
  destruct (retrieve_legs r query None effective) as [l|]; [|done]. cbn [mbind result_bind].
  destruct (rerank_stage r query (fused_pool l)) as [reranked|]; [|done]. cbn [mbind result_bind].
  destruct (prior_stage _ _ r cell (lg_qvec l) reranked) as [[tilted stages]|]; [|done]. cbn [mbind result_bind].
  destruct (transform_stage r effective l tilted) as [[hits stages']|]; [|done]. cbn [mbind result_bind].
  destruct (answer_of _ _ r query hits _ _ _ _) as [full|]; [|done]. intros [= <- _]. simpl. rewrite length_take. lia.
Qed.

(** The scores of a fused search are all cosines of the query. With a reranker that only
    reorders, the hits are at most [k], none twice, of at most a hundred reranked candidates that
    the two queries retrieved; each carries what [cosines_for] answers for its id and the vector
    of the query (never of the history), and a hit it does not answer for is dropped. *)
Theorem search_fused_one_basis (r : retriever) query history k source scope a :
  (forall R, hr_reranker r = Some R -> Reorders R) ->
  search_fused elapsed utc_now r query history k source scope = Ok a ->
  exists effective primary secondary qvec asked fresh,
    coerce_scope scope source = Ok effective /\ hr_embed_query r query = Ok qvec /\
    retrieve_legs r query None effective = Ok primary /\
    retrieve_legs r (build_history_query history) (Some qvec) effective = Ok secondary /\
    cosines_for (hr_store r) asked qvec = Ok fresh /\ (length asked <= FUSED_RERANK_POOL_CAP)%nat /\
    Z.of_nat (length (rr_hits a)) <= k /\ NoDup (ids (rr_hits a)) /\
    forall h, h ∈ rr_hits a ->
      hit_id h ∈ asked /\ odict_get (hit_id h) fresh = Some (sc_score h) /\
      exists h0, h0 ∈ leg_hits primary ++ leg_hits secondary /\ sc_chunk h = sc_chunk h0.
Proof.
  intros Hre. unfold search_fused. destruct (Z.ltb_spec k 1); [done|].
  destruct (hr_reranker r) as [R|] eqn:HR; [|done]. case_decide; [done|]. destruct (_ <? _)%nat; [done|]. case_decide; [done|].
  destruct (coerce_scope scope source) as [effective|]; [|done]. cbn [mbind result_bind].
  destruct (retrieve_legs r query None effective) as [primary|] eqn:Hp; [|done]. cbn [mbind result_bind].
  destruct (retrieve_legs r _ (Some _) effective) as [secondary|] eqn:Hs; [|done]. cbn [mbind result_bind].
  set (pool := pool_hits _ _ _). destruct (R query pool) as [hits|] eqn:Hr; [|done]. cbn [mbind result_bind].
  destruct (cosines_for _ _ _) as [fresh|] eqn:Hc; [|done]. cbn [mbind result_bind]. intros Ha%answer_hits.
  destruct (pool_hits_spec _ (lg_dense primary) (take FUSED_RERANK_POOL_CAP (fused_ids primary secondary)) _
    (held_by_both_spec primary secondary)) as (Hof & Hsub & _). fold pool in Hof, Hsub.
  assert (Hcap : (length pool <= FUSED_RERANK_POOL_CAP)%nat).
  { apply sublist_length in Hsub. rewrite length_fmap, length_take in Hsub. lia. }
  assert (Hnd : NoDup (ids pool)).
  { eapply sublist_NoDup; [|exact Hsub]. apply (sublist_NoDup _ (fused_ids primary secondary)); [|apply sublist_take].
    unfold fused_ids. rewrite by_score_perm. by apply rrf_spec. }
  assert (Htake : take (Z.to_nat k) hits ⊆+ pool) by (etransitivity; [apply sublist_submseteq, sublist_take|by eapply (Hre R eq_refl)]).
  set (asked := take (Z.to_nat k) hits) in *.
  assert (Hout : ids (rr_hits a) `sublist_of` ids asked).
  { rewrite Ha. clear. induction asked as [|h l IH]; [constructor|]. cbn [omap list_omap].
    destruct (odict_get (hit_id h) fresh); simpl; by constructor. }
  exists effective, primary, secondary, (lg_qvec primary), (ids asked), fresh. split_and!; try done.
  - by eapply retrieve_legs_embeds.
  - apply submseteq_length in Htake. rewrite length_fmap. lia.
  - apply sublist_length in Hout. rewrite !length_fmap in Hout. unfold asked in Hout. rewrite length_take in Hout. lia.
  - eapply sublist_NoDup; [|exact Hout]. by eapply NoDup_ids_submseteq.
  - intros h Hh. rewrite Ha in Hh. apply list_elem_of_omap in Hh as (h0 & Hin & Hh0).
    destruct (odict_get (hit_id h0) fresh) as [x|] eqn:Hx; [|done]. injection Hh0 as <-. split_and!.
    + by apply (list_elem_of_fmap_2 hit_id) in Hin.
    + done.
    + apply (elem_of_submseteq _ _ _ Hin), Hof in Htake as (h1 & ? & ? & _). by exists h1.
Qed.
End searches.

(** ** Rerankers *)

#[export] Instance NoOpReranker_reorders : Reorders NoOpReranker.
Proof. by intros query hits out [= <-]. Qed.

Lemma omap_lookup_seq {A} (l : list A) : omap (fun i => l !! i) (seq 0 (length l)) = l.
Proof.
  induction l as [|x l IH]; [done|].
  assert (Hs : forall js : list nat, omap (fun i => (x :: l) !! i) (S <$> js) = omap (fun i => l !! i) js).
  { induction js as [|j js IHj]; [done|]. rewrite fmap_cons. cbn. by rewrite <-IHj. }
  change (x :: omap (fun i => (x :: l) !! i) (seq 1 (length l)) = x :: l). by rewrite <-fmap_S_seq, Hs, IH.
Qed.

#[export] Instance CrossEncoderReranker_reorders predict : Reorders (CrossEncoderReranker predict).
Proof.
  intros query hits out. unfold rerank, CrossEncoderReranker. destruct hits as [|h hits]; [by intros [= <-]|].
  generalize (h :: hits). intros l. destruct (predict query l) as [scores|]; [|done]. cbn [mbind result_bind]. intros [= <-].
  apply Permutation_submseteq. rewrite <-(omap_lookup_seq l) at 2. apply omap_Permutation, stable_sort_perm.
Qed.

#[export] Instance FallbackReranker_reorders primary fallback :
  Reorders primary -> Reorders fallback -> Reorders (FallbackReranker primary fallback).
Proof.
  intros Hp Hf query hits out. unfold rerank, FallbackReranker. destruct (primary query hits) as [o|] eqn:Ho.
  - intros [= <-]. by apply (Hp query).
  - by apply (Hf query).
Qed.

(** ** Runs *)

Definition ms (n : Z) : float := float_of_decimal n 3.

Definition demo_pool (prefix : string) : list ScoredChunk :=
  [demo_hit (prefix +:+ "1") "a.md" (ms 800); demo_hit (prefix +:+ "2") "b.md" (ms 700); demo_hit "x" "a.md" (ms 600)].

(** A store of two legs; it answers a source with the hits of its file. *)
Definition demo_leg (prefix : string) (k : Z) (w : scope_arg) : list ScoredChunk :=
  take (Z.to_nat k) (match w with
                     | BySource (Some f) => demo_hit (f +:+ "!") f (ms 500) :: filter (fun h => file_of h = Some f) (demo_pool prefix)
                     | _ => demo_pool prefix
                     end).

Definition demo_store : @RetrieverStore () () () :=
  {| query_dense _ k w := Ok (demo_leg "d" k w);
     query_sparse _ k _ w := Ok (demo_leg "s" k w);
     query_learned_sparse _ k _ _ w := Ok [];
     newest_indexed_at := Ok None;
     cosines_for cids _ := Ok ((fun c => (c, ms 650)) <$> filter (fun c => c <> "s2") cids);
     scope_centroids _ _ := Ok () |}.

Definition demo_retriever (R : option Reranker) : @HybridRetriever () () () :=
  {| hr_store := demo_store; hr_embed_query _ := Ok (); hr_embedding_profile := "p"; hr_reranker := R;
     hr_gap_threshold := ms 500; hr_max_age := 1; hr_candidate_k := 20; hr_use_sparse := true; hr_use_dense := true;
     hr_sparse_backend := Lexical; hr_sparse_encoder := None; hr_retrieval_profile := "legacy"; hr_index_generation := "g";
     hr_scope_prior := {| sp_dimension := FolderDimension; sp_weight := zero; sp_min_chunks := 5 |};
     hr_dense_transform := None; hr_post_fusion_transform := None |}.

Definition demo_elapsed (stage : string) : float := zero.
Definition demo_affinities (v : ()) (c : ()) : result (list (string * float)) := Ok [].
Definition demo_search := @search () () () demo_affinities () demo_elapsed (Aware 0).

Lemma demo_store_laws : StoreLaws demo_store.
Proof.
  assert (H : forall p k w, 0 <= k -> Z.of_nat (length (demo_leg p k w)) <= k) by (intros; unfold demo_leg; rewrite length_take; lia).
  constructor; intros; repeat match goal with E : _ = Ok _ |- _ => injection E as <- end; [by apply H..|done].
Qed.

Definition run_search (k : Z) (source : option string) : option (list (string * float)) :=
  match demo_search (demo_retriever None) None "why" k source None with
  | Ok (a, _) => Some ((fun h => (hit_id h, sc_score h)) <$> rr_hits a)
  | Raise _ => None
  end.

Example demo_search_ex : run_search 3 None = Some [("x", ms 600); ("d1", ms 800); ("s1", ms 800)].
Proof. vm_compute. reflexivity. Qed.

Definition demo_scoped (q : string) (k : Z) (source : option string) : result RetrievalResult :=
  '(a, _) ← demo_search (demo_retriever None) None q k source None; Ok a.

Lemma demo_scoped_bounded q k s res : demo_scoped q k s = Ok res -> Z.of_nat (length (rr_hits res)) <= k.
Proof.
  unfold demo_scoped, demo_search. destruct (search _ _ _ _ _ _ _ _ _ _) as [[a trace]|] eqn:Hs; [|done]. intros [= <-].
  by eapply search_length.
Qed.

Definition demo_first : RetrievalResult :=
  match demo_scoped "why" 3 None with
  | Ok a => a
  | Raise _ => {| rr_query := ""; rr_hits := []; rr_gap_warning := false;
                  rr_staleness := {| st_stale := true; st_newest := None; st_age := None; st_max_age := 1 |};
                  rr_diagnostics := {| rd_embedding_profile := ""; rd_retrieval_profile := ""; rd_index_generation := "";
                    rd_candidate_pool_size := 0; rd_reranking_ran := false; rd_stage_ms := []; rd_max_dense_score := None;
                    rd_unknown_term_check := ""; rd_unknown_terms := [] |} |}
  end.

Definition demo_expansion : DocumentExpansionPolicy :=
  {| dx_enabled := true; dx_max_sources := 2; dx_chunks_per_source := 3; dx_relational_query_only := true |}.

Definition demo_expanded : result RetrievalResult := expand_retrieval_by_source demo_scoped demo_elapsed demo_first demo_expansion.

Example demo_expanded_ids :
  (match demo_expanded with Ok a => map hit_id (rr_hits a) | Raise _ => [] end) = ["x"; "d1"; "s1"; "a.md!"].
Proof. vm_compute. reflexivity. Qed.

Lemma expansions_extend_witness :
  exists r', demo_expanded = Ok r' /\
    extends demo_scoped 2 3 (fun s => exists h, h ∈ rr_hits demo_first /\ document_key h = s) demo_first r'.
Proof.
  destruct demo_expanded as [r'|] eqn:He; [|vm_compute in He; discriminate]. exists r'. split; [done|].
  destruct (expansions_extend demo_scoped demo_elapsed demo_scoped_bounded demo_first r') as (H & _ & _).
  exact (H demo_expansion eq_refl He).
Defined.

Lemma search_returns_witness :
  exists a trace (l : @Legs ()), demo_search (demo_retriever None) None "why" 3 None None = Ok (a, trace) /\
    rr_hits a ⊆+ fused_pool l /\ NoDup (hit_id <$> rr_hits a).
Proof.
  destruct (demo_search (demo_retriever None) None "why" 3 None None) as [[a trace]|] eqn:Hs; [|vm_compute in Hs; discriminate].
  destruct (@search_returns () () () demo_affinities () demo_elapsed (Aware 0) (demo_retriever None) None "why" 3 None None a trace
    demo_store_laws eq_refl eq_refl ltac:(intros R [=]) ltac:(done) Hs) as (effective & l & _ & _ & _ & _ & Hsub & Hnd & _).
  by exists a, trace, l.
Defined.

(** The cross-encoder prefers the last of the pool; a candidate without a cosine is dropped. *)
Definition demo_predict (query : string) (hits : list ScoredChunk) : result (list float) :=
  Ok (imap (fun i _ => float_of_Z (Z.of_nat i)) hits).

Definition demo_fused : result RetrievalResult :=
  search_fused demo_elapsed (Aware 0) (demo_retriever (Some (CrossEncoderReranker demo_predict))) "why" ["|u|: hello"] 3 None None.

Example demo_fused_ids :
  (match demo_fused with Ok a => map (fun h => (hit_id h, sc_score h)) (rr_hits a) | Raise _ => [] end) =
  [("d2", ms 650); ("s1", ms 650)].
Proof. vm_compute. reflexivity. Qed.

Lemma search_fused_one_basis_witness :
  exists a, demo_fused = Ok a /\ Z.of_nat (length (rr_hits a)) <= 3.
Proof.
  destruct demo_fused as [a|] eqn:Hf; [|vm_compute in Hf; discriminate]. exists a. split; [done|].
  destruct (@search_fused_one_basis () () () demo_elapsed (Aware 0) (demo_retriever (Some (CrossEncoderReranker demo_predict)))
    "why" ["|u|: hello"] 3 None None a ltac:(intros R [= <-]; apply CrossEncoderReranker_reorders) Hf)
    as (? & ? & ? & ? & ? & ? & _ & _ & _ & _ & _ & _ & Hlen & _). exact Hlen.
Defined.
