(* ===== verification/Federation.v ===== *)
(** * Federation: bounded retrieval over isolated tenants (src/recall/federation.py)

    The configuration and its bounds, the legs, the request-scoped pool that hands legs to the
    shared executor, the check of each leg's result and the merge.  A leg's [retrieve] is the
    callable it carries; what the executor does with the submitted legs (which finish together,
    and whether the latency budget has passed) is a schedule, a list of rounds.  Durations and the
    SHA-256 digest are arguments; the metrics are not modelled. *)
From stdpp Require Import pretty.
From S2P Require Import Prelude Text Float64 Frontmatter Types TrustPolicy Calibration TrustVerdicts TrustGate Scope.

Local Open Scope recall_scope.
Local Open Scope Z_scope.

Definition MAX_FEDERATION_LEGS : Z := 8.
Definition MAX_FEDERATION_CONCURRENCY : Z := 8.
Definition MAX_FEDERATION_CANDIDATE_K : Z := 50.
Definition MAX_FEDERATION_RESULT_K : Z := 50.
Definition MAX_FEDERATION_RRF_K : Z := 1000000.
Definition MAX_FEDERATION_LATENCY_BUDGET_MS : Z := 120000.

(** ** Configuration *)

(** [FederationConfig]. *)
Record FederationConfig := {
  fc_mode : string;
  fc_max_legs : Z;
  fc_max_concurrency : Z;
  fc_candidate_k : Z;
  fc_result_k : Z;
  fc_primary_prefix : Z;
  fc_rescue_slots : Z;
  fc_rrf_k : Z;
  fc_invalid_leg_policy : string
}.

Definition default_config : FederationConfig :=
  {| fc_mode := "off"; fc_max_legs := 2; fc_max_concurrency := 2; fc_candidate_k := 20; fc_result_k := 5;
     fc_primary_prefix := 3; fc_rescue_slots := 1; fc_rrf_k := 60; fc_invalid_leg_policy := "omit" |}.

(** The names and values the loop [getattr(self, name) < 1] reads. *)
Definition positive_fields (c : FederationConfig) : list (string * Z) :=
  [("max_legs", fc_max_legs c); ("max_concurrency", fc_max_concurrency c); ("candidate_k", fc_candidate_k c);
   ("result_k", fc_result_k c); ("primary_prefix", fc_primary_prefix c)].

(** The names, values and maxima of the second loop. *)
Definition capped_fields (c : FederationConfig) : list (string * Z * Z) :=
  [("max_legs", fc_max_legs c, MAX_FEDERATION_LEGS);
   ("max_concurrency", fc_max_concurrency c, MAX_FEDERATION_CONCURRENCY);
   ("candidate_k", fc_candidate_k c, MAX_FEDERATION_CANDIDATE_K);
   ("result_k", fc_result_k c, MAX_FEDERATION_RESULT_K);
   ("primary_prefix", fc_primary_prefix c, MAX_FEDERATION_RESULT_K);
   ("rrf_k", fc_rrf_k c, MAX_FEDERATION_RRF_K)].

(** [raise FederationConfigurationError(msg)] unless the condition holds. *)
Definition config_check (b : bool) (msg : string) : result () :=
  if b then Ok () else Raise (ValueError msg).

(** [FederationConfig.__post_init__]. *)
Definition federation_config (c : FederationConfig) : result FederationConfig :=
  _ ← config_check (bool_decide (fc_mode c ∈ ["off"; "shadow"; "active"])) "mode must be off, shadow, or active";
  _ ← result_mapM (fun '(name, v) => config_check (negb (v <? 1)) (name +:+ " must be >= 1")) (positive_fields c);
  _ ← config_check (negb (fc_max_legs c <? fc_max_concurrency c)) "max_concurrency must be <= max_legs";
  _ ← result_mapM (fun '(name, v, maximum) => config_check (negb (maximum <? v)) (name +:+ " must be <= " +:+ pretty maximum))
        (capped_fields c);
  _ ← config_check (negb (fc_rrf_k c <? 0)) "rrf_k must be >= 0";
  _ ← config_check (negb (fc_rescue_slots c <? 0)) "rescue_slots must be >= 0";
  _ ← config_check (negb (fc_result_k c <? fc_rescue_slots c)) "rescue_slots must be <= result_k";
  _ ← config_check (negb (fc_result_k c <? fc_primary_prefix c + fc_rescue_slots c))
        "primary_prefix plus rescue_slots must be <= result_k";
  _ ← config_check (bool_decide (fc_invalid_leg_policy c ∈ ["omit"; "fail_closed"])) "invalid_leg_policy must be omit or fail_closed";
  Ok c.

(** [integer] of [from_env]. *)
Definition env_integer (env : environ) (name : string) (default_ minimum : Z) : result Z :=
  match env.[name] with
  | None => Ok default_
  | Some raw =>
      if blank raw then Ok default_
      else match py_int raw with
           | None => Raise (ValueError (name +:+ " must be an integer"))
           | Some value =>
               if value <? minimum then Raise (ValueError (name +:+ " must be >= " +:+ pretty minimum)) else Ok value
           end
  end.

(** [FederationConfig.from_env]. *)
Definition config_from_env (env : environ) : result FederationConfig :=
  let d := default_config in
  max_legs ← env_integer env "RECALL_FEDERATION_MAX_LEGS" (fc_max_legs d) 1;
  max_concurrency ← env_integer env "RECALL_FEDERATION_MAX_CONCURRENCY" (fc_max_concurrency d) 1;
  candidate_k ← env_integer env "RECALL_FEDERATION_CANDIDATE_K" (fc_candidate_k d) 1;
  result_k ← env_integer env "RECALL_FEDERATION_RESULT_K" (fc_result_k d) 1;
  primary_prefix ← env_integer env "RECALL_FEDERATION_PRIMARY_PREFIX" (fc_primary_prefix d) 1;
  rescue_slots ← env_integer env "RECALL_FEDERATION_RESCUE_SLOTS" (fc_rescue_slots d) 0;
  rrf_k ← env_integer env "RECALL_FEDERATION_RRF_K" (fc_rrf_k d) 0;
  federation_config
    {| fc_mode := lower (strip (default (fc_mode d) env.["RECALL_FEDERATION_MODE"]));
       fc_max_legs := max_legs; fc_max_concurrency := max_concurrency; fc_candidate_k := candidate_k;
       fc_result_k := result_k; fc_primary_prefix := primary_prefix; fc_rescue_slots := rescue_slots;
       fc_rrf_k := rrf_k;
       fc_invalid_leg_policy := lower (strip (default (fc_invalid_leg_policy d) env.["RECALL_FEDERATION_INVALID_LEG"])) |}.

(** ** Legs *)

(** [FederationLeg]. *)
Record FederationLeg := {
  fl_tenant_id : string;
  fl_generation_id : string;
  fl_embedding_profile : string;
  fl_calibration_id : option string;
  fl_calibration_status : string;
  fl_route : string;
  fl_retrieve : string -> Z -> result TrustedResult;
  fl_candidate_k : option Z;
  fl_pipeline_fingerprint : option string;
  fl_corpus_fingerprint : option string;
  fl_query_set_digest : option string
}.

(** [FederationLeg.__post_init__]. *)
Definition federation_leg (l : FederationLeg) : result FederationLeg :=
  _ ← result_mapM (fun '(name, v) => config_check (negb (blank v)) (name +:+ " must be non empty"))
        [("tenant_id", fl_tenant_id l); ("generation_id", fl_generation_id l);
         ("embedding_profile", fl_embedding_profile l); ("calibration_status", fl_calibration_status l);
         ("route", fl_route l)];
  _ ← config_check
        match fl_candidate_k l with
        | None => true
        | Some k => (1 <=? k) && (k <=? MAX_FEDERATION_CANDIDATE_K)
        end ("candidate_k must be between 1 and " +:+ pretty MAX_FEDERATION_CANDIDATE_K);
  Ok l.

(** [FederatedCandidate]. *)
Record FederatedCandidate := {
  fd_hit : TrustedHit;
  fd_tenant_id : string;
  fd_generation_id : string;
  fd_embedding_profile : string;
  fd_calibration_id : string;
  fd_calibration_status : string;
  fd_route : string;
  fd_leg_rank : Z;
  fd_fused_rank : Z;
  fd_fused_score : float;
  fd_pipeline_fingerprint : option string;
  fd_corpus_fingerprint : option string;
  fd_query_set_digest : option string
}.

(** [FederationLegDiagnostics]. *)
Record FederationLegDiagnostics := {
  ld_tenant_id : string;
  ld_route : string;
  ld_embedding_profile : string;
  ld_generation_id : string;
  ld_candidate_count : Z;
  ld_trusted_candidate_count : Z;
  ld_rejected_candidate_count : Z;
  ld_latency_ms : float;
  ld_accepted : bool;
  ld_rejection_reason : option string
}.

(** [FederationDiagnostics]. *)
Record FederationDiagnostics := {
  dg_mode : string;
  dg_fanout_count : Z;
  dg_executed_leg_count : Z;
  dg_candidate_count : Z;
  dg_fused_candidate_count : Z;
  dg_primary_prefix_count : Z;
  dg_rescue_count : Z;
  dg_rejected_leg_count : Z;
  dg_rejected_candidate_count : Z;
  dg_latency_ms : float;
  dg_max_concurrency : Z;
  dg_legs : list FederationLegDiagnostics
}.

(** [FederationResult]. *)
Record FederationResult := {
  fr_candidates : list FederatedCandidate;
  fr_served : list FederatedCandidate;
  fr_diagnostics : FederationDiagnostics;
  fr_active : bool
}.

(** ** Fusion *)

(** A candidate of one leg: its tenant and its chunk id. *)
Abbreviation candidate_id := (string * string)%type.

Definition rank_add (constant : Z) (scores : list (candidate_id * float)) (entry : nat * candidate_id) :
    list (candidate_id * float) :=
  odict_set entry.2 (fadd (default zero (odict_get entry.2 scores)) (fdiv one (float_of_Z (constant + Z.of_nat entry.1)))) scores.

(** [_rrf]. *)
Definition fuse_legs (rankings : list (list candidate_id)) (constant : Z) : list (candidate_id * float) :=
  foldl (fun scores ranking => foldl (rank_add constant) scores (imap (fun i c => (S i, c)) ranking)) [] rankings.

Definition pair_ltb (a b : candidate_id) : bool :=
  if decide (a.1 = b.1) then string_ltb a.2 b.2 else string_ltb a.1 b.1.

(** [(-fused_scores[a], a) < (-fused_scores[b], b)]. *)
Definition fused_lt (scores : list (candidate_id * float)) (a b : candidate_id) : bool :=
  let s c := fopp (default zero (odict_get c scores)) in
  if SFeqb (s a) (s b) then pair_ltb a b else flt (s a) (s b).

(** [fused_order]. *)
Definition fused_order (scores : list (candidate_id * float)) : list candidate_id :=
  stable_sort (fun a b => negb (fused_lt scores b a)) scores.*1.

(** [fused_rank]. *)
Definition fused_ranks (scores : list (candidate_id * float)) : list (candidate_id * Z) :=
  imap (fun i c => (c, Z.of_nat (S i))) (fused_order scores).

(** [_leg_rejection]. *)
Definition leg_rejection (leg : FederationLeg) (r : TrustedResult) : option string :=
  if decide (tres_tenant_id r <> Some (fl_tenant_id leg)) then Some "tenant_lineage_mismatch"
  else if decide (tres_generation_id r <> Some (fl_generation_id leg)) then Some "generation_lineage_mismatch"
  else if decide (rd_embedding_profile (tres_diagnostics r) <> fl_embedding_profile leg) then Some "embedding_lineage_mismatch"
  else if decide (tres_trust_state r <> "trusted") then Some "trust_not_certified"
  else if negb (result_calibrated r) then Some "calibration_not_certified"
  else if decide (tres_calibration_id r <> fl_calibration_id leg) then Some "calibration_lineage_mismatch"
  else if decide (tres_calibration_status r <> fl_calibration_status leg) then Some "calibration_status_mismatch"
  else if tres_gap_warning r then Some "tenant_gap_warning"
  else None.

(** ** The request-scoped pool *)

(** [leg.candidate_k or settings.candidate_k]. *)
Definition request_k (leg : FederationLeg) (settings : FederationConfig) : Z :=
  match fl_candidate_k leg with
  | Some k => if k =? 0 then fc_candidate_k settings else k
  | None => fc_candidate_k settings
  end.

(** [_run_leg]. *)
Definition run_leg (leg : FederationLeg) (query : string) (settings : FederationConfig) : result TrustedResult :=
  fl_retrieve leg query (request_k leg settings).

Definition fails_closed (settings : FederationConfig) : bool := bool_decide (fc_invalid_leg_policy settings = "fail_closed").

(** [raise FederationLegRejected(...)]. *)
Definition leg_rejected {A} (leg : FederationLeg) (reason : string) : result A :=
  Raise (RuntimeError ("tenant leg " +:+ fl_tenant_id leg +:+ " rejected: " +:+ reason)).

(** [_leg_failed]. *)
Definition leg_failed (leg : FederationLeg) (settings : FederationConfig) : result () :=
  if fails_closed settings then leg_rejected leg "failed" else Ok ().

(** [results]: what each leg that returned has returned. *)
Abbreviation leg_results := (gmap nat TrustedResult).

(** [results[index] = future.result()], or the failure policy when it raises. *)
Definition collect_leg (query : string) (settings : FederationConfig) (legs : list FederationLeg) (results : leg_results) (index : nat) :
    result leg_results :=
  match legs !! index with
  | None => Ok results
  | Some leg =>
      match run_leg leg query settings with
      | Ok r => Ok (<[index := r]> results)
      | Raise _ => _ ← leg_failed leg settings; Ok results
      end
  end.

(** One return of [wait]: the legs it reports done (none when the budget ran out), and whether
    the budget has passed by the time [submit_ready] looks at the clock. *)
Record Round := { rnd_done : list nat; rnd_late : bool }.

(** [waiting] and [running] of [federate], by leg index. *)
Record Pool := { pl_waiting : list nat; pl_running : list nat }.

(** The loop of [submit_ready]. *)
Fixpoint submit (max_concurrency : Z) (running waiting : list nat) : Pool :=
  match waiting with
  | [] => {| pl_waiting := []; pl_running := running |}
  | index :: rest =>
      if Z.of_nat (length running) <? max_concurrency then submit max_concurrency (running ++ [index]) rest
      else {| pl_waiting := waiting; pl_running := running |}
  end.

(** [submit_ready]; nothing is submitted once the budget has passed. *)
Definition submit_ready (max_concurrency : Z) (late : bool) (p : Pool) : Pool :=
  if late then p else submit max_concurrency (pl_running p) (pl_waiting p).

(** What [wait] may report: some of the running legs, or none when there is a budget. *)
Definition round_ok (p : Pool) (r : Round) : bool :=
  bool_decide (NoDup (rnd_done r)) && bool_decide (Forall (fun i => i ∈ pl_running p) (rnd_done r)).

Section execution.
Context (query : string) (settings : FederationConfig) (legs : list FederationLeg).

(** The loop [while running], with the budget [deadline] or none; the schedule says what each
    [wait] returns, and [None] is a schedule the executor cannot follow. *)
Fixpoint pool_loop (deadline : bool) (rounds : list Round) (p : Pool) (results : leg_results) :
    option (result (leg_results * gset nat)) :=
  if decide (pl_running p = []) then Some (Ok (results, list_to_set (pl_waiting p)))
  else
    match rounds with
    | [] => None
    | r :: rounds' =>
        if decide (rnd_done r = []) then
          if deadline then Some (Ok (results, list_to_set (pl_running p ++ pl_waiting p))) else None
        else if round_ok p r then
          match result_foldl (collect_leg query settings legs) results (rnd_done r) with
          | Raise e => Some (Raise e)
          | Ok results' =>
              pool_loop deadline rounds'
                (submit_ready (fc_max_concurrency settings) (deadline && rnd_late r)
                   {| pl_waiting := pl_waiting p; pl_running := filter (fun i => i ∉ rnd_done r) (pl_running p) |})
                results'
          end
        else None
    end.

(** The three ways [federate] runs its legs: one leg on the pool with a budget, one leg inline,
    several legs on the pool.  [first_late]: the budget had passed before the first submission. *)
Definition execute (budget : option Z) (first_late : bool) (rounds : list Round) : option (result (leg_results * gset nat)) :=
  let deadline := bool_decide (is_Some budget) in
  if decide (length legs = 1)%nat then
    if deadline then
      match rounds with
      | [] => None
      | r :: _ =>
          if decide (rnd_done r = []) then Some (Ok (∅, {[ 0%nat ]}))
          else if decide (rnd_done r = [0%nat]) then
            Some (results ← collect_leg query settings legs ∅ 0; Ok (results, ∅))
          else None
      end
    else Some (results ← collect_leg query settings legs ∅ 0; Ok (results, ∅))
  else
    pool_loop deadline rounds
      (submit_ready (fc_max_concurrency settings) (deadline && first_late)
         {| pl_waiting := seq 0 (length legs); pl_running := [] |}) ∅.
End execution.

(** ** The review of the legs *)

Record Review := {
  rv_diagnostics : list FederationLegDiagnostics;
  rv_valid : list (nat * list TrustedHit);
  rv_rejected_legs : Z;
  rv_rejected_candidates : Z
}.

Definition empty_review : Review :=
  {| rv_diagnostics := []; rv_valid := []; rv_rejected_legs := 0; rv_rejected_candidates := 0 |}.

Section federate.
Context (digest : string -> string) (leg_ms : nat -> float) (total_ms : float).

(** [if len(result.hits) > request_k: result = replace(result, hits=result.hits[:request_k])]. *)
Definition bounded_result (k : Z) (r : TrustedResult) : TrustedResult :=
  if k <? Z.of_nat (length (tres_hits r)) then with_hits r (take (Z.to_nat k) (tres_hits r)) else r.

Definition leg_diagnostics (leg : FederationLeg) (index : nat) (candidates trusted rejected : Z) (executed : bool) (reason : option string) :
    FederationLegDiagnostics :=
  {| ld_tenant_id := fl_tenant_id leg; ld_route := fl_route leg; ld_embedding_profile := fl_embedding_profile leg;
     ld_generation_id := fl_generation_id leg; ld_candidate_count := candidates; ld_trusted_candidate_count := trusted;
     ld_rejected_candidate_count := rejected; ld_latency_ms := if executed then leg_ms index else zero;
     ld_accepted := bool_decide (reason = None); ld_rejection_reason := reason |}.

(** One round of [for index, leg in enumerate(effective_legs)]. *)
Definition review_leg (settings : FederationConfig) (results : leg_results) (timed_out : gset nat) (rv : Review)
    (entry : nat * FederationLeg) : result Review :=
  let '(index, leg) := entry in
  match results !! index with
  | None =>
      let reason := if decide (index ∈ timed_out) then "latency_budget_exceeded" else "leg_failed" in
      if fails_closed settings then leg_rejected leg reason
      else Ok {| rv_diagnostics := rv_diagnostics rv ++ [leg_diagnostics leg index 0 0 0 false (Some reason)];
                 rv_valid := rv_valid rv; rv_rejected_legs := rv_rejected_legs rv + 1;
                 rv_rejected_candidates := rv_rejected_candidates rv |}
  | Some r =>
      let r := bounded_result (request_k leg settings) r in
      let reason := leg_rejection leg r in
      let hits := filter (fun h => is_trusted h = true) (tres_hits r) in
      let count := Z.of_nat (length (tres_hits r)) in
      match reason with
      | Some why =>
          if fails_closed settings then leg_rejected leg why
          else Ok {| rv_diagnostics := rv_diagnostics rv ++ [leg_diagnostics leg index count 0 count true reason];
                     rv_valid := rv_valid rv; rv_rejected_legs := rv_rejected_legs rv + 1;
                     rv_rejected_candidates := rv_rejected_candidates rv + count |}
      | None =>
          let trusted := Z.of_nat (length hits) in
          Ok {| rv_diagnostics := rv_diagnostics rv ++ [leg_diagnostics leg index count trusted (count - trusted) true reason];
                rv_valid := rv_valid rv ++ [(index, hits)]; rv_rejected_legs := rv_rejected_legs rv;
                rv_rejected_candidates := rv_rejected_candidates rv + (count - trusted) |}
      end
  end.

Definition review (settings : FederationConfig) (legs : list FederationLeg) (results : leg_results) (timed_out : gset nat) : result Review :=
  result_foldl (review_leg settings results timed_out) empty_review (imap pair legs).

(** ** The merge *)

Abbreviation content := (string * string)%type.
Abbreviation key := (string * content)%type.

(** [_candidate_keys]. *)
Definition content_key (h : TrustedHit) : content := (c_source (th_chunk h), digest (c_text (th_chunk h))).
Definition candidate_key (h : TrustedHit) : key := (c_id (th_chunk h), content_key h).

(** The candidates of an accepted leg, ranked from 1. *)
Definition candidate_of (scores : list (candidate_id * float)) (leg : FederationLeg) (entry : nat * TrustedHit) : FederatedCandidate :=
  let cid := (fl_tenant_id leg, c_id (th_chunk entry.2)) in
  {| fd_hit := entry.2; fd_tenant_id := fl_tenant_id leg; fd_generation_id := fl_generation_id leg;
     fd_embedding_profile := fl_embedding_profile leg; fd_calibration_id := default "" (fl_calibration_id leg);
     fd_calibration_status := fl_calibration_status leg; fd_route := fl_route leg; fd_leg_rank := Z.of_nat entry.1;
     fd_fused_rank := default (Z.of_nat (length (fused_order scores) + entry.1)) (odict_get cid (fused_ranks scores));
     fd_fused_score := default zero (odict_get cid scores); fd_pipeline_fingerprint := fl_pipeline_fingerprint leg;
     fd_corpus_fingerprint := fl_corpus_fingerprint leg; fd_query_set_digest := fl_query_set_digest leg |}.

Definition ranked (hits : list TrustedHit) : list (nat * TrustedHit) := imap (fun i h => (S i, h)) hits.

(** [for index in sorted(valid_hits)]: the accepted legs with their hits, in leg order (the
    review adds them in that order). *)
Definition accepted (legs : list FederationLeg) (valid : list (nat * list TrustedHit)) : list (nat * FederationLeg * list TrustedHit) :=
  valid ≫= fun e => match legs !! e.1 with Some leg => [(e.1, leg, e.2)] | None => [] end.

(** [all_rankings]. *)
Definition all_rankings (legs : list FederationLeg) (valid : list (nat * list TrustedHit)) : list (list candidate_id) :=
  map (fun '(_, leg, hits) => map (fun h => (fl_tenant_id leg, c_id (th_chunk h))) hits) (accepted legs valid).

Record Merge := {
  mg_by_key : list (key * FederatedCandidate);
  mg_primary_by_key : list (key * FederatedCandidate);
  mg_secondary : list FederatedCandidate
}.

(** [(candidate.fused_rank, candidate.tenant_id) < (previous.fused_rank, previous.tenant_id)]. *)
Definition ahead (a b : FederatedCandidate) : bool :=
  if decide (fd_fused_rank a = fd_fused_rank b) then string_ltb (fd_tenant_id a) (fd_tenant_id b)
  else fd_fused_rank a <? fd_fused_rank b.

(** The body of the loop over the hits of a leg. *)
Definition merge_candidate (primary_content : list content) (has_primary : bool) (index : nat) (m : Merge) (c : FederatedCandidate) : Merge :=
  let k := candidate_key (fd_hit c) in
  {| mg_by_key :=
       match odict_get k (mg_by_key m) with
       | None => odict_set k c (mg_by_key m)
       | Some previous => if ahead c previous then odict_set k c (mg_by_key m) else mg_by_key m
       end;
     mg_primary_by_key := if (index =? 0)%nat then odict_set k c (mg_primary_by_key m) else mg_primary_by_key m;
     mg_secondary :=
       if negb (index =? 0)%nat && has_primary && negb (bool_decide (k.2 ∈ primary_content)) then mg_secondary m ++ [c]
       else mg_secondary m |}.

(** [valid_hits.get(0, [])]. *)
Definition primary_hits (valid : list (nat * list TrustedHit)) : list TrustedHit :=
  default [] (odict_get 0%nat valid).

Definition merge_legs (legs : list FederationLeg) (valid : list (nat * list TrustedHit)) (scores : list (candidate_id * float)) : Merge :=
  foldl (fun m '(index, leg, hits) =>
      foldl (merge_candidate (content_key <$> primary_hits valid) (bool_decide (0%nat ∈ valid.*1)) index) m
        (candidate_of scores leg <$> ranked hits))
    {| mg_by_key := []; mg_primary_by_key := []; mg_secondary := [] |} (accepted legs valid).

(** [(fused_rank, leg_rank, tenant_id, id)], compared as tuples. *)
Definition rescue_lt (a b : FederatedCandidate) : bool :=
  if decide (fd_fused_rank a = fd_fused_rank b) then
    if decide (fd_leg_rank a = fd_leg_rank b) then
      pair_ltb (fd_tenant_id a, c_id (th_chunk (fd_hit a))) (fd_tenant_id b, c_id (th_chunk (fd_hit b)))
    else fd_leg_rank a <? fd_leg_rank b
  else fd_fused_rank a <? fd_fused_rank b.

Definition text_key (c : FederatedCandidate) : string * string * string :=
  let h := th_chunk (fd_hit c) in (c_id h, c_source h, c_text h).

(** [secondary_candidates], deduplicated by id, source and text (the last one wins) and sorted. *)
Definition secondary_candidates (l : list FederatedCandidate) : list FederatedCandidate :=
  stable_sort (fun a b => negb (rescue_lt b a)) (foldl (fun d c => odict_set (text_key c) c d) [] l).*2.

Definition primary_candidates (m : Merge) (hits : list TrustedHit) : list FederatedCandidate :=
  omap (fun h => odict_get (candidate_key h) (mg_primary_by_key m)) hits.

(** The merge of [federate], from the candidates of the accepted legs to its result. *)
Definition assemble (settings : FederationConfig) (effective : list FederationLeg) (results : leg_results) (rv : Review) : FederationResult :=
  let valid := rv_valid rv in
  let scores := fuse_legs (all_rankings effective valid) (fc_rrf_k settings) in
  let m := merge_legs effective valid scores in
  let primary := primary_hits valid in
  let rescue := take (Z.to_nat (fc_rescue_slots settings `min` fc_result_k settings)) (secondary_candidates (mg_secondary m)) in
  let primary_served := take (Z.to_nat (fc_result_k settings - Z.of_nat (length rescue))) (primary_candidates m primary) in
  {| fr_candidates := (mg_by_key m).*2;
     fr_served := take (Z.to_nat (fc_result_k settings)) (primary_served ++ rescue);
     fr_diagnostics :=
       {| dg_mode := fc_mode settings; dg_fanout_count := Z.of_nat (length effective);
          dg_executed_leg_count := Z.of_nat (size results);
          dg_candidate_count := Z.of_nat (length (valid ≫= snd));
          dg_fused_candidate_count := Z.of_nat (length (fused_order scores));
          dg_primary_prefix_count := fc_primary_prefix settings `min` Z.of_nat (length primary) `min` fc_result_k settings;
          dg_rescue_count := Z.of_nat (length rescue); dg_rejected_leg_count := rv_rejected_legs rv;
          dg_rejected_candidate_count := rv_rejected_candidates rv; dg_latency_ms := total_ms;
          dg_max_concurrency := fc_max_concurrency settings `min` Z.of_nat (length effective);
          dg_legs := rv_diagnostics rv |};
     fr_active := bool_decide (fc_mode settings = "active") |}.

(** [effective_legs]. *)
Definition effective_legs (settings : FederationConfig) (legs : list FederationLeg) : list FederationLeg :=
  if decide (fc_mode settings = "off") then take 1 legs else legs.

(** The checks [federate] makes before it runs a leg. *)
Definition check_request (settings : FederationConfig) (legs : list FederationLeg) (budget : option Z) : result () :=
  _ ← config_check
        match budget with Some b => (1 <=? b) && (b <=? MAX_FEDERATION_LATENCY_BUDGET_MS) | None => true end
        ("latency_budget_ms must be between 1 and " +:+ pretty MAX_FEDERATION_LATENCY_BUDGET_MS);
  _ ← config_check (negb (bool_decide (legs = []))) "at least one federation leg is required";
  config_check (negb (fc_max_legs settings <? Z.of_nat (length legs)))
    ("federation selected " +:+ pretty (length legs) +:+ " legs, over max_legs=" +:+ pretty (fc_max_legs settings)).

(** [federate]; [None] only for a schedule the executor cannot follow. *)
Definition federate (query : string) (legs : list FederationLeg) (config : option FederationConfig) (budget : option Z)
    (first_late : bool) (rounds : list Round) : option (result FederationResult) :=
  let settings := default default_config config in
  let effective := effective_legs settings legs in
  match check_request settings legs budget with
  | Raise e => Some (Raise e)
  | Ok _ =>
      executed ← execute query settings effective budget first_late rounds;
      Some (
        '(results, timed_out) ← executed;
        rv ← review settings effective results timed_out;
        Ok (assemble settings effective results rv))
  end.
End federate.

(** ** A request over two tenants *)

Definition demo_trusted_hit (id source text : string) (v : Verdict) : TrustedHit :=
  {| th_chunk := {| c_id := id; c_source := source; c_text := text; c_metadata := [] |};
     th_cosine := half; th_confidence := half; th_verdict := v;
     th_provenance := {| pv_source := source; pv_file := VNone; pv_ord := VNone; pv_indexed_at := None; pv_first_indexed_at := None |};
     th_validity := {| va_from := None; va_until := None; va_superseded_by := None |};
     th_authority := UnknownAuthority; th_dependencies := []; th_invalidation := None |}.

Definition demo_result (tenant : string) (gap : bool) (hits : list TrustedHit) : TrustedResult :=
  {| tres_query := "q"; tres_hits := hits; tres_abstained := false; tres_reason := None; tres_gap_warning := gap;
     tres_staleness := {| st_stale := false; st_newest := None; st_age := None; st_max_age := 0 |};
     tres_decision_state := Some Supported;
     tres_diagnostics := {| rd_embedding_profile := "e"; rd_retrieval_profile := "r"; rd_index_generation := "g"; rd_candidate_pool_size := 3;
       rd_reranking_ran := false; rd_stage_ms := []; rd_max_dense_score := None; rd_unknown_term_check := "off"; rd_unknown_terms := [] |};
     tres_calibration_id := Some "cal"; tres_calibration_status := "certified"; tres_tenant_id := Some tenant;
     tres_generation_id := Some "gen"; tres_pipeline_fingerprint := None; tres_corpus_fingerprint := None;
     tres_query_set_digest := None; tres_trust_state := "trusted"; tres_failure_code := None |}.

Definition demo_leg (tenant : string) (retrieve : string -> Z -> result TrustedResult) : FederationLeg :=
  {| fl_tenant_id := tenant; fl_generation_id := "gen"; fl_embedding_profile := "e"; fl_calibration_id := Some "cal";
     fl_calibration_status := "certified"; fl_route := "route"; fl_retrieve := retrieve; fl_candidate_k := None;
     fl_pipeline_fingerprint := None; fl_corpus_fingerprint := None; fl_query_set_digest := None |}.

Definition demo_config (mode policy : string) : FederationConfig :=
  {| fc_mode := mode; fc_max_legs := 3; fc_max_concurrency := 2; fc_candidate_k := 3; fc_result_k := 3;
     fc_primary_prefix := 2; fc_rescue_slots := 1; fc_rrf_k := 60; fc_invalid_leg_policy := policy |}.

Definition demo_legs : list FederationLeg :=
  [demo_leg "home" (fun _ _ => Ok (demo_result "home" false
     [demo_trusted_hit "1" "a" "alpha" VerdictOk; demo_trusted_hit "2" "b" "beta" LowConfidence;
      demo_trusted_hit "3" "c" "gamma" VerdictOk; demo_trusted_hit "4" "d" "delta" VerdictOk]));
   demo_leg "law" (fun _ _ => Ok (demo_result "law" false
     [demo_trusted_hit "9" "a" "alpha" VerdictOk; demo_trusted_hit "8" "x" "novel" VerdictOk]));
   demo_leg "lab" (fun _ _ => Raise (RuntimeError "down"))].

Definition demo_federate (mode policy : string) (budget : option Z) (rounds : list Round) : option (result FederationResult) :=
  federate (fun s => s) (fun _ => zero) zero "q" demo_legs (Some (demo_config mode policy)) budget false rounds.

Definition served_ids (o : option (result FederationResult)) : option (result (list (string * string))) :=
  fmap (M := result) (fun fr => (fun c => (fd_tenant_id c, c_id (th_chunk (fd_hit c)))) <$> fr_served fr) <$> o.

Example federate_ex :
  served_ids (demo_federate "active" "omit" None
    [{| rnd_done := [1%nat]; rnd_late := false |}; {| rnd_done := [2%nat; 0%nat]; rnd_late := false |}]) =
  Some (Ok [("home", "1"); ("home", "3"); ("law", "8")]).
Proof. vm_compute. reflexivity. Qed.

Example federate_off_ex : served_ids (demo_federate "off" "omit" None []) = Some (Ok [("home", "1"); ("home", "3")]).
Proof. vm_compute. reflexivity. Qed.

Example federate_closed_ex :
  served_ids (demo_federate "active" "fail_closed" (Some 50) [{| rnd_done := [0%nat]; rnd_late := true |}; {| rnd_done := []; rnd_late := true |}]) =
  Some (Raise (RuntimeError "tenant leg law rejected: latency_budget_exceeded")).
Proof. vm_compute. reflexivity. Qed.

Example config_ex :
  config_from_env [("RECALL_FEDERATION_MODE", " Active "); ("RECALL_FEDERATION_MAX_LEGS", "9")] = Raise (ValueError "max_legs must be <= 8") /\
  fc_mode <$> config_from_env [("RECALL_FEDERATION_MODE", " Active ")] = Ok "active" /\
  config_from_env [("RECALL_FEDERATION_RESCUE_SLOTS", "3")] = Raise (ValueError "primary_prefix plus rescue_slots must be <= result_k").
Proof. vm_compute. done. Qed.
