(* ===== verification/FederationPool.v ===== *)
(** * FederationPool: the configuration of a federated request and how its legs are run *)
From S2P Require Import Prelude Text Float64 Frontmatter Types TrustPolicy Calibration TrustVerdicts TrustGate Scope Federation.

Local Open Scope recall_scope.
Local Open Scope Z_scope.

(** ** Configuration *)

Lemma config_check_ok b msg : config_check b msg = Ok () <-> b = true.
Proof. by destruct b. Qed.

(** The bounds a configuration satisfies once it exists. *)
Record well_formed (c : FederationConfig) : Prop := {
  wf_mode : fc_mode c ∈ ["off"; "shadow"; "active"];
  wf_legs : 1 <= fc_max_legs c <= MAX_FEDERATION_LEGS;
  wf_concurrency : 1 <= fc_max_concurrency c <= fc_max_legs c;
  wf_candidates : 1 <= fc_candidate_k c <= MAX_FEDERATION_CANDIDATE_K;
  wf_result : fc_result_k c <= MAX_FEDERATION_RESULT_K;
  wf_prefix : 1 <= fc_primary_prefix c;
  wf_rescue : 0 <= fc_rescue_slots c;
  wf_split : fc_primary_prefix c + fc_rescue_slots c <= fc_result_k c;
  wf_rrf : 0 <= fc_rrf_k c <= MAX_FEDERATION_RRF_K;
  wf_policy : fc_invalid_leg_policy c ∈ ["omit"; "fail_closed"]
}.

Lemma federation_config_ok c c' : federation_config c = Ok c' <-> c' = c /\ well_formed c.
Proof.
  unfold federation_config, positive_fields, capped_fields. cbn [result_mapM]. unfold config_check.
  split.
  - intros H.
    repeat match type of H with
    | context [if ?b then Ok () else _] => destruct b eqn:?; cbn [mbind result_bind] in H; [|discriminate H]
    end.
    injection H as <-. split; [done|]. repeat match goal with Hb : negb _ = true |- _ => apply negb_true_iff in Hb; apply Z.ltb_ge in Hb end.
    repeat match goal with Hb : bool_decide _ = true |- _ => apply bool_decide_eq_true in Hb end.
    split; first [assumption | lia].
  - intros [-> []]. unfold MAX_FEDERATION_LEGS, MAX_FEDERATION_CONCURRENCY, MAX_FEDERATION_RESULT_K, MAX_FEDERATION_CANDIDATE_K in *.
    repeat match goal with
    | |- context [negb (?a <? ?b)] => rewrite (proj2 (Z.ltb_ge a b)) by lia; cbn [negb mbind result_bind]
    | |- context [bool_decide ?P] => rewrite (bool_decide_eq_true_2 P) by assumption; cbn [mbind result_bind]
    end. done.
Qed.

Lemma env_integer_bound env name d minimum v : minimum <= d -> env_integer env name d minimum = Ok v -> minimum <= v.
Proof.
  intros Hd. unfold env_integer. destruct (env.[name]) as [raw|]; [|by intros [= <-]].
  destruct (blank raw); [by intros [= <-]|]. destruct (py_int raw) as [n|]; [|done].
  destruct (n <? minimum) eqn:Hn; [done|]. intros [= <-]. by apply Z.ltb_ge.
Qed.

(** ** The pool *)

Section pool.
Context (query : string) (settings : FederationConfig) (legs : list FederationLeg).

Lemma submit_spec cap running waiting :
  let p := submit cap running waiting in
  pl_running p ++ pl_waiting p = running ++ waiting /\
  (Z.of_nat (length running) <= cap -> Z.of_nat (length (pl_running p)) <= cap) /\
  (running = [] -> waiting <> [] -> 1 <= cap -> pl_running p <> []) /\
  (running <> [] -> pl_running p <> []).
Proof.
  revert running; induction waiting as [|i waiting IH]; intros running; cbn [submit]; cbn zeta; [by cbn|].
  destruct (Z.of_nat (length running) <? cap) eqn:Hc; cbn [pl_running pl_waiting].
  - apply Z.ltb_lt in Hc. destruct (IH (running ++ [i])) as (Happ & Hcap & _ & Hne). rewrite Happ, <-(assoc_L (++)).
    split; [done|]. rewrite length_app in Hcap. simpl in Hcap.
    assert (pl_running (submit cap (running ++ [i]) waiting) <> []) by (apply Hne; by destruct running).
    split_and!; [intros; apply Hcap; lia|done..].
  - apply Z.ltb_ge in Hc. split_and!; [done..| |done]. intros -> _. simpl in Hc. lia.
Qed.

(** The legs of a pool: those running first, then those waiting. *)
Definition pool_pending (p : Pool) : list nat := pl_running p ++ pl_waiting p.

Lemma submit_ready_spec cap late p :
  pool_pending (submit_ready cap late p) = pool_pending p /\
  (Z.of_nat (length (pl_running p)) <= cap -> Z.of_nat (length (pl_running (submit_ready cap late p))) <= cap) /\
  (late = false -> pool_pending p <> [] -> 1 <= cap -> pl_running (submit_ready cap late p) <> []).
Proof.
  unfold submit_ready. destruct late; [done|].
  destruct (submit_spec cap (pl_running p) (pl_waiting p)) as (Happ & Hcap & Hempty & Hne).
  split_and!; [done..|]. intros _ Hp Hc. unfold pool_pending in Hp. destruct (pl_running p) as [|i running] eqn:Hr; [|by apply Hne].
  apply Hempty; [done| |done]. by destruct (pl_waiting p).
Qed.

(** What a round leaves running. *)
Definition finished (p : Pool) (r : Round) : Pool :=
  {| pl_waiting := pl_waiting p; pl_running := filter (fun i => i ∉ rnd_done r) (pl_running p) |}.

Definition next_pool (deadline : bool) (p : Pool) (r : Round) : Pool :=
  submit_ready (fc_max_concurrency settings) (deadline && rnd_late r) (finished p r).

(** One turn of the loop [while running]. *)
Inductive pool_step (deadline : bool) : Pool -> Pool -> Prop :=
| wait_round p r : pl_running p <> [] -> rnd_done r <> [] -> round_ok p r = true -> pool_step deadline p (next_pool deadline p r).

Definition first_pool (deadline first_late : bool) : Pool :=
  submit_ready (fc_max_concurrency settings) (deadline && first_late) {| pl_waiting := seq 0 (length legs); pl_running := [] |}.

Lemma finished_pending p r : pool_pending (finished p r) `sublist_of` pool_pending p.
Proof. unfold pool_pending, finished. cbn. apply sublist_app; [apply sublist_filter|done]. Qed.

Lemma round_ok_true p r : round_ok p r = true <-> NoDup (rnd_done r) /\ forall i, i ∈ rnd_done r -> i ∈ pl_running p.
Proof. unfold round_ok. rewrite andb_true_iff, !bool_decide_eq_true, Forall_forall. tauto. Qed.

Lemma finished_shrinks p r : rnd_done r <> [] -> round_ok p r = true -> (length (pool_pending (finished p r)) < length (pool_pending p))%nat.
Proof.
  intros Hd [_ Hin]%round_ok_true. unfold pool_pending, finished. cbn. rewrite !length_app.
  destruct (rnd_done r) as [|i js]; [done|]. apply Nat.add_lt_mono_r, (length_filter_lt _ _ i); [apply Hin; by left|].
  intros H. apply H. by left.
Qed.

Lemma pool_step_spec deadline p p' :
  pool_step deadline p p' ->
  pool_pending p' `sublist_of` pool_pending p /\ (length (pool_pending p') < length (pool_pending p))%nat /\
  (Z.of_nat (length (pl_running p)) <= fc_max_concurrency settings -> Z.of_nat (length (pl_running p')) <= fc_max_concurrency settings).
Proof.
  intros [q r Hr Hd Hok]. unfold next_pool. destruct (submit_ready_spec (fc_max_concurrency settings) (deadline && rnd_late r) (finished q r)) as (Hp & Hc & _).
  rewrite Hp. split_and!; [apply finished_pending|by apply finished_shrinks|]. intros Hq. apply Hc.
  unfold finished. cbn. pose proof (length_filter (fun i => i ∉ rnd_done r) (pl_running q)). lia.
Qed.

(** What a leg answers, when it answers. *)
Definition leg_answer (i : nat) : option TrustedResult :=
  leg ← legs !! i; match run_leg leg query settings with Ok r => Some r | Raise _ => None end.

Lemma answer_some i r : leg_answer i = Some r <-> exists leg, legs !! i = Some leg /\ run_leg leg query settings = Ok r.
Proof.
  unfold leg_answer. destruct (legs !! i) as [leg|]; cbn; [|split; [done|by intros (? & ? & _)]].
  destruct (run_leg leg query settings) as [r'|e] eqn:Hr; split.
  - intros [= ->]. by exists leg.
  - intros (? & [= <-] & Hr'). congruence.
  - done.
  - intros (? & [= <-] & Hr'). congruence.
Qed.

(** Legs are answered unless a failure is to be omitted. *)
Definition answered (i : nat) : Prop := fails_closed settings = true -> (i < length legs)%nat -> is_Some (leg_answer i).

Lemma collect_spec results i results' :
  collect_leg query settings legs results i = Ok results' ->
  results' = match leg_answer i with Some r => <[i := r]> results | None => results end /\ answered i.
Proof.
  unfold collect_leg, answered, leg_answer. destruct (legs !! i) as [leg|] eqn:Hi; cbn.
  - destruct (run_leg leg query settings) as [r|e] eqn:Hr; cbn; [intros [= <-]; split; [done|by eexists]|].
    unfold leg_failed, leg_rejected. destruct (fails_closed settings); [done|]. by intros [= <-].
  - intros [= <-]. split; [done|]. intros _ Hlt%lookup_lt_is_Some. rewrite Hi in Hlt. by destruct Hlt.
Qed.

Lemma collect_all_spec (results results' : leg_results) js :
  (forall i, i ∈ js -> results !! i = None) ->
  result_foldl (collect_leg query settings legs) results js = Ok results' ->
  forall i, results' !! i = (if decide (i ∈ js) then leg_answer i else results !! i) /\ (i ∈ js -> answered i).
Proof.
  intros Hnone Hfold.
  set (P := fun (pre : list nat) (res : leg_results) =>
    forall i, res !! i = (if decide (i ∈ pre) then leg_answer i else results !! i) /\ (i ∈ pre -> answered i)).
  change (P js results'). apply (result_foldl_inv (collect_leg query settings legs) P results); [|..|exact Hfold].
  - intros i. rewrite decide_False by apply not_elem_of_nil. split; [done|by intros ?%not_elem_of_nil].
  - intros pre x res res' HP Hx [-> Hans]%collect_spec i. destruct (HP i) as [Hi Hpre]. split.
    2:{ intros [?| ->%list_elem_of_singleton]%elem_of_app; [by apply Hpre|done]. }
    destruct (decide (i = x)) as [->|Hne].
    + rewrite (decide_True (P := x ∈ pre ++ [x])) by (apply elem_of_app; right; by left).
      destruct (leg_answer x) as [r|]; [by rewrite lookup_insert_eq|]. rewrite Hi. case_decide; [done|by apply Hnone].
    + rewrite (decide_ext (i ∈ pre ++ [x]) (i ∈ pre)) by (rewrite elem_of_app, list_elem_of_singleton; naive_solver).
      rewrite <-Hi. destruct (leg_answer x); [by rewrite lookup_insert_ne by done|done].
Qed.

(** The results hold the answers of the legs that are no longer pending, and of no other. *)
Definition collected (late : nat -> Prop) (results : leg_results) : Prop :=
  forall i, (late i -> results !! i = None) /\ (~ late i -> results !! i = leg_answer i /\ answered i).

Lemma collected_ext (P Q : nat -> Prop) results : (forall i, P i <-> Q i) -> collected P results -> collected Q results.
Proof. intros HPQ H i. destruct (H i). split; intros; [|rewrite <-HPQ in *]; naive_solver. Qed.

Lemma round_collected p r results results' :
  round_ok p r = true -> collected (fun i => i ∈ pool_pending p) results ->
  result_foldl (collect_leg query settings legs) results (rnd_done r) = Ok results' ->
  NoDup (pool_pending p) -> collected (fun i => i ∈ pool_pending (finished p r)) results'.
Proof.
  intros [Hnd Hin]%round_ok_true Hcol Hfold Hnodup.
  pose proof (collect_all_spec results results' (rnd_done r)) as Hspec.
  assert (Hspec' := Hspec (fun i Hi => proj1 (Hcol i) (proj2 (elem_of_app _ _ _) (or_introl (Hin i Hi)))) Hfold). clear Hspec.
  intros i. destruct (Hspec' i) as [Hi Hdone]. destruct (Hcol i) as [Hlate Hother].
  assert (Hiff : i ∈ pool_pending (finished p r) <-> i ∈ pool_pending p /\ i ∉ rnd_done r).
  { unfold pool_pending, finished. cbn. rewrite !elem_of_app, list_elem_of_filter. split; [|tauto].
    intros [[? ?]|Hw]; [tauto|]. split; [by right|]. intros Hd%Hin.
    apply NoDup_app in Hnodup as (_ & Hdis & _). by apply (Hdis i). }
  rewrite Hiff. split.
  - intros [Hp Hd]. rewrite Hi, decide_False by done. by apply Hlate.
  - intros Hn. rewrite Hi. case_decide as Hd; [by split; [|apply Hdone]|]. apply Hother. tauto.
Qed.

(** What the loop ends with: the answers of the legs it did not time out. *)
Definition executed (deadline : bool) (results : leg_results) (timed_out : gset nat) : Prop :=
  (forall i, i ∈ timed_out -> deadline = true /\ (i < length legs)%nat) /\ collected (fun i => i ∈ timed_out) results.

Definition sound_pool (deadline : bool) (p : Pool) : Prop :=
  pool_pending p `sublist_of` seq 0 (length legs) /\ (deadline = false -> pl_running p = [] -> pl_waiting p = []).

Lemma sound_next deadline p r :
  1 <= fc_max_concurrency settings -> sound_pool deadline p -> sound_pool deadline (next_pool deadline p r).
Proof.
  intros Hcap [Hsub _]. unfold next_pool.
  destruct (submit_ready_spec (fc_max_concurrency settings) (deadline && rnd_late r) (finished p r)) as (Hp & _ & Hrun). split.
  - rewrite Hp. by etrans; [apply finished_pending|].
  - intros ->. cbn [andb] in *. intros Hempty. destruct (decide (pool_pending (finished p r) = [])) as [Hn|Hn].
    + rewrite Hn in Hp. unfold pool_pending in Hp. by apply app_nil in Hp as [_ ?].
    + by destruct (Hrun eq_refl Hn Hcap).
Qed.

Lemma sound_first deadline first_late :
  1 <= fc_max_concurrency settings -> sound_pool deadline (first_pool deadline first_late).
Proof.
  intros Hcap. unfold first_pool. set (p := {| pl_waiting := _; pl_running := [] |}).
  destruct (submit_ready_spec (fc_max_concurrency settings) (deadline && first_late) p) as (Hp & _ & Hrun). split; [by rewrite Hp|].
  intros ->. cbn [andb] in *. intros Hempty. destruct (decide (pool_pending p = [])) as [Hn|Hn].
  - rewrite Hn in Hp. unfold pool_pending in Hp. by apply app_nil in Hp as [_ ?].
  - by destruct (Hrun eq_refl Hn Hcap).
Qed.

Lemma sound_nodup deadline p : sound_pool deadline p -> NoDup (pool_pending p).
Proof. intros [Hsub _]. eapply sublist_NoDup; [apply NoDup_seq|exact Hsub]. Qed.

Lemma sound_bound deadline p i : sound_pool deadline p -> i ∈ pool_pending p -> (i < length legs)%nat.
Proof. intros [Hsub _] Hi. eapply elem_of_sublist in Hi; [|exact Hsub]. apply elem_of_seq in Hi. lia. Qed.

Lemma pool_loop_spec deadline rounds p results results' timed_out :
  1 <= fc_max_concurrency settings -> sound_pool deadline p -> collected (fun i => i ∈ pool_pending p) results ->
  pool_loop query settings legs deadline rounds p results = Some (Ok (results', timed_out)) ->
  executed deadline results' timed_out.
Proof.
  intros Hcap. revert p results. induction rounds as [|r rounds IH]; intros p results Hsound Hcol; cbn [pool_loop].
  all: assert (Hstop : forall l : list nat, (forall i, i ∈ l <-> i ∈ pool_pending p) -> (deadline = false -> l = []) -> executed deadline results (list_to_set l)).
  1,3: intros l Hl Hnil; split; [|eapply collected_ext; [|exact Hcol]; intros i; by rewrite elem_of_list_to_set, Hl].
  1,2: intros i Hi%elem_of_list_to_set; split; [destruct deadline; [done|]; rewrite Hnil in Hi by done; by apply not_elem_of_nil in Hi|].
  1,2: eapply sound_bound; [exact Hsound|by apply Hl].
  - case_decide as Hr; [|done]. intros [= <- <-]. apply Hstop; [|intros; by apply Hsound].
    intros i. unfold pool_pending. by rewrite Hr.
  - case_decide as Hr.
    { intros [= <- <-]. apply Hstop; [|intros; by apply Hsound]. intros i. unfold pool_pending. by rewrite Hr. }
    case_decide as Hd; [destruct deadline; [|done]; intros [= <- <-]; by apply Hstop|].
    destruct (round_ok p r) eqn:Hok; [|done].
    destruct (result_foldl _ results (rnd_done r)) as [res|e] eqn:Hfold; [|done].
    apply IH; [by apply (sound_next deadline p r)|].
    eapply collected_ext; [|eapply round_collected; [exact Hok|exact Hcol|exact Hfold|by eapply sound_nodup]].
    intros i. fold (finished p r). fold (next_pool deadline p r). unfold next_pool.
    by rewrite (proj1 (submit_ready_spec _ _ _)).
Qed.

Lemma single_leg_collected results :
  length legs = 1%nat -> collect_leg query settings legs ∅ 0 = Ok results -> executed true results ∅ /\ executed false results ∅.
Proof.
  intros Hlen [-> Hans]%collect_spec.
  assert (H : collected (fun i => i ∈ (∅ : gset nat)) (match leg_answer 0 with Some r => <[0%nat := r]> ∅ | None => ∅ end)).
  { intros i. split; [by intros ?%not_elem_of_empty|]. intros _. destruct i as [|i].
    - split; [by destruct (leg_answer 0); rewrite ?lookup_insert_eq|done].
    - assert (Hi : legs !! S i = None) by (apply lookup_ge_None; lia). split.
      + unfold leg_answer at 2. rewrite Hi. cbn. by destruct (leg_answer 0); rewrite ?lookup_insert_ne by done.
      + intros _ Hlt. lia. }
  split; (split; [by intros ? ?%not_elem_of_empty|done]).
Qed.

(** However the executor schedules the legs, the results are answers of the legs, a leg without a
    result ran out of time or raised, and only a budget makes a leg run out of time. *)
Lemma execute_spec budget first_late rounds results timed_out :
  1 <= fc_max_concurrency settings ->
  execute query settings legs budget first_late rounds = Some (Ok (results, timed_out)) ->
  executed (bool_decide (is_Some budget)) results timed_out.
Proof.
  intros Hcap. unfold execute. cbn zeta. case_decide as Hlen.
  - destruct (bool_decide (is_Some budget)).
    + destruct rounds as [|r rounds]; [done|]. case_decide as Hd.
      * intros [= <- <-]. split; [intros i ->%elem_of_singleton; split; [done|lia]|].
        intros i. split; [done|]. intros Hi%not_elem_of_singleton.
        assert (Hn : legs !! i = None) by (apply lookup_ge_None; lia). split; [unfold leg_answer; by rewrite Hn|intros _ ?; lia].
      * case_decide; [|done]. intros [= Hex]. apply bind_ok in Hex as (res & Hc & [= <- <-]). by apply single_leg_collected in Hc as [??].
    + intros [= Hex]. apply bind_ok in Hex as (res & Hc & [= <- <-]). by apply single_leg_collected in Hc as [??].
  - intros Hex. eapply pool_loop_spec; [done|by apply (sound_first _ first_late)| |exact Hex].
    apply (collected_ext (fun i => i ∈ seq 0 (length legs))).
    { intros i. unfold first_pool. by rewrite (proj1 (submit_ready_spec _ _ _)). }
    intros i. split; [done|]. rewrite elem_of_seq. intros Hi.
    assert (Hn : legs !! i = None) by (apply lookup_ge_None; lia). split; [unfold leg_answer; by rewrite Hn|intros _ ?; lia].
Qed.

Lemma collect_omits results i : fails_closed settings = false -> exists results', collect_leg query settings legs results i = Ok results'.
Proof.
  intros Hf. unfold collect_leg, leg_failed. destruct (legs !! i) as [leg|]; [|by eexists].
  destruct (run_leg leg query settings); [by eexists|]. rewrite Hf. by eexists.
Qed.

Lemma collect_all_omits results js :
  fails_closed settings = false -> exists results', result_foldl (collect_leg query settings legs) results js = Ok results'.
Proof.
  intros Hf. destruct (result_foldl_total (collect_leg query settings legs) (fun _ => True) results js) as (r & Hr & _); [done| |by exists r].
  intros i b _ _. destruct (collect_omits b i Hf) as [b' ->]. by exists b'.
Qed.

Lemma pool_loop_omits deadline rounds p results e :
  fails_closed settings = false -> pool_loop query settings legs deadline rounds p results <> Some (Raise e).
Proof.
  intros Hf. revert p results. induction rounds as [|r rounds IH]; intros p results; cbn [pool_loop]; case_decide; try done.
  case_decide; [by destruct deadline|]. destruct (round_ok p r); [|done].
  destruct (collect_all_omits results (rnd_done r) Hf) as [res ->]. apply IH.
Qed.

Lemma execute_omits budget first_late rounds e :
  fails_closed settings = false -> execute query settings legs budget first_late rounds <> Some (Raise e).
Proof.
  intros Hf. unfold execute. cbn zeta. destruct (collect_omits ∅ 0 Hf) as [res ->]. case_decide; [|by apply pool_loop_omits].
  destruct (bool_decide _); [|done]. destruct rounds as [|r rounds]; [done|]. by repeat case_decide.
Qed.

(** From every pool some schedule runs the loop to its end, without a failure when failures are omitted. *)
Lemma pool_loop_ends deadline p results :
  exists rounds o, pool_loop query settings legs deadline rounds p results = Some o /\ (fails_closed settings = false -> Prelude.is_ok o = true).
Proof.
  remember (length (pool_pending p)) as n eqn:Hn. revert p results Hn. induction (lt_wf n) as [n _ IH]. intros p results ->.
  destruct (pl_running p) as [|i running] eqn:Hr.
  { exists [], (Ok (results, list_to_set (pl_waiting p))). cbn. by rewrite Hr. }
  set (r := {| rnd_done := [i]; rnd_late := false |}).
  assert (Hok : round_ok p r = true).
  { apply round_ok_true. split; [apply NoDup_singleton|]. intros j ->%list_elem_of_singleton. rewrite Hr. by left. }
  destruct (collect_leg query settings legs results i) as [res|e] eqn:Hc.
  - assert (Hlt : (length (pool_pending (next_pool deadline p r)) < length (pool_pending p))%nat).
    { unfold next_pool. rewrite (proj1 (submit_ready_spec _ _ _)). by apply finished_shrinks. }
    destruct (IH _ Hlt (next_pool deadline p r) res eq_refl) as (rounds & o & Ho & Hfine). exists (r :: rounds), o. split; [|done].
    cbn [pool_loop]. rewrite decide_False by (by rewrite Hr). rewrite decide_False by done. rewrite Hok.
    cbn [rnd_done r result_foldl]. rewrite Hc. exact Ho.
  - exists [r], (Raise e). split.
    + cbn [pool_loop]. rewrite decide_False by (by rewrite Hr). rewrite decide_False by done. rewrite Hok.
      cbn [rnd_done r result_foldl]. by rewrite Hc.
    + intros Hf. destruct (collect_omits results i Hf) as [? Hc']. congruence.
Qed.

Lemma execute_ends budget first_late :
  exists rounds o, execute query settings legs budget first_late rounds = Some o /\ (fails_closed settings = false -> Prelude.is_ok o = true).
Proof.
  unfold execute. cbn zeta. case_decide as Hlen; [|apply pool_loop_ends].
  exists [{| rnd_done := [0%nat]; rnd_late := false |}]. cbn [rnd_done]. rewrite decide_False, decide_True by done.
  assert (H : fails_closed settings = false -> Prelude.is_ok ('(results) ← collect_leg query settings legs ∅ 0; Ok (results, (∅ : gset nat))) = true).
  { intros Hf. by destruct (collect_omits ∅ 0 Hf) as [res ->]. }
  destruct (bool_decide _); by eexists.
Qed.
End pool.

(** ** The discipline of the pool *)

Lemma pool_loop_reaches query settings legs deadline rounds p results results' timed_out :
  pool_loop query settings legs deadline rounds p results = Some (Ok (results', timed_out)) ->
  exists p', rtc (pool_step settings deadline) p p' /\
    ((pl_running p' = [] /\ timed_out = list_to_set (pl_waiting p')) \/ (deadline = true /\ timed_out = list_to_set (pool_pending p'))).
Proof.
  revert p results. induction rounds as [|r rounds IH]; intros p results; cbn [pool_loop].
  - case_decide as Hr; [|done]. intros [= <- <-]. exists p. split; [done|by left].
  - case_decide as Hr; [intros [= <- <-]; exists p; split; [done|by left]|].
    case_decide as Hd; [destruct deadline; [|done]; intros [= <- <-]; exists p; split; [done|by right]|].
    destruct (round_ok p r) eqn:Hok; [|done]. destruct (result_foldl _ results (rnd_done r)); [|done].
    intros (p' & Hp' & Hend)%IH. exists p'. split; [|done]. eapply rtc_l; [|exact Hp']. by apply wait_round.
Qed.

Lemma pool_steps_spec settings legs deadline n p p' :
  1 <= fc_max_concurrency settings -> nsteps (pool_step settings deadline) n p p' ->
  sound_pool legs deadline p -> Z.of_nat (length (pl_running p)) <= fc_max_concurrency settings ->
  sound_pool legs deadline p' /\ Z.of_nat (length (pl_running p')) <= fc_max_concurrency settings /\
  (n + length (pool_pending p') <= length (pool_pending p))%nat.
Proof.
  intros Hcap. induction 1 as [p|n p q p' Hstep _ IH]; intros Hs Hc; [done|].
  destruct (pool_step_spec _ _ _ _ Hstep) as (_ & Hlt & Hrun).
  destruct IH as (Hs' & Hc' & Hn); [|by apply Hrun|by split_and!; [..|lia]].
  destruct Hstep as [p r Hr Hd Hok]. by apply sound_next.
Qed.

(** C35: the pool of a request never runs more than [max_concurrency] legs, hands each leg to the
    executor once and in order, never starts one after the budget has passed, and takes at most
    one round for each leg; without a budget it stops only when every leg has run, and what it
    times out is what was still pending. *)
Theorem pool_discipline query settings legs deadline first_late :
  1 <= fc_max_concurrency settings ->
  (forall n p, nsteps (pool_step settings deadline) n (first_pool settings legs deadline first_late) p ->
     Z.of_nat (length (pl_running p)) <= fc_max_concurrency settings /\ pool_pending p `sublist_of` seq 0 (length legs) /\
     (n + length (pool_pending p) <= length legs)%nat /\ (deadline = false -> pl_running p = [] -> pl_waiting p = [])) /\
  (forall p r, rnd_late r = true -> pl_waiting (next_pool settings true p r) = pl_waiting p) /\
  (forall rounds results' timed_out,
     pool_loop query settings legs deadline rounds (first_pool settings legs deadline first_late) ∅ = Some (Ok (results', timed_out)) ->
     exists p, rtc (pool_step settings deadline) (first_pool settings legs deadline first_late) p /\
       ((pl_running p = [] /\ timed_out = list_to_set (pl_waiting p)) \/ (deadline = true /\ timed_out = list_to_set (pool_pending p)))).
Proof.
  intros Hcap. split_and!.
  - intros n p Hsteps. set (q := {| pl_waiting := seq 0 (length legs); pl_running := [] |}).
    destruct (submit_ready_spec (fc_max_concurrency settings) (deadline && first_late) q) as (Hq & Hc & _).
    destruct (pool_steps_spec settings legs deadline n _ p Hcap Hsteps) as ([Hsub Hstop] & Hrun & Hlen); [by apply sound_first|apply Hc; cbn; lia|].
    unfold first_pool in Hlen. fold q in Hlen. rewrite Hq in Hlen. unfold pool_pending at 2 in Hlen. cbn [pl_running pl_waiting q app] in Hlen.
    rewrite length_seq in Hlen. by split_and!.
  - intros p r Hlate. unfold next_pool. rewrite Hlate. done.
  - intros rounds results' timed_out Hloop. by eapply pool_loop_reaches.
Qed.

(** ** The configuration *)

(** A configuration that is accepted, given or read from the environment, satisfies every
    bound, and one that satisfies them is accepted; the environment never widens the fanout
    silently: what is unset or blank is the default, anything else is an integer in its range. *)
Theorem configuration_well_formed c env :
  (federation_config c = Ok c <-> well_formed c) /\
  (forall c', config_from_env env = Ok c' -> well_formed c' /\
     forall name v, (name, v) ∈ [("RECALL_FEDERATION_MAX_LEGS", fc_max_legs c'); ("RECALL_FEDERATION_MAX_CONCURRENCY", fc_max_concurrency c');
         ("RECALL_FEDERATION_CANDIDATE_K", fc_candidate_k c'); ("RECALL_FEDERATION_RESULT_K", fc_result_k c')] ->
       match env.[name] with Some raw => blank raw = true \/ py_int raw = Some v | None => True end) /\
  ((forall name, odict_get name env = None) -> config_from_env env = Ok default_config).
Proof.
  split_and!.
  - rewrite federation_config_ok. tauto.
  - intros c' Hc. unfold config_from_env in Hc. cbn zeta in Hc.
    repeat match type of Hc with
    | (_ ≫= _) = Ok _ => let x := fresh "x" in let Hx := fresh "Hx" in apply bind_ok in Hc as (x & Hx & Hc)
    end.
    apply federation_config_ok in Hc as [-> Hwf]. split; [done|]. cbn.
    assert (Hread : forall name d m v, env_integer env name d m = Ok v -> match env.[name] with Some raw => blank raw = true \/ py_int raw = Some v | None => True end).
    { intros name d m v. unfold env_integer. destruct (env.[name]) as [raw|]; [|done]. destruct (blank raw); [by left|].
      destruct (py_int raw) as [z|]; [|done]. destruct (z <? m); [done|]. intros [= <-]. by right. }
    intros name v. rewrite !elem_of_cons. intros Hn. destruct_or! Hn; try (injection Hn as -> ->; by eapply Hread). by apply not_elem_of_nil in Hn.
  - intros Hnone. unfold config_from_env, env_integer. cbn zeta. rewrite !Hnone. reflexivity.
Qed.

(** ** Witnesses *)

Lemma pool_discipline_witness :
  let p := first_pool (demo_config "active" "omit") demo_legs true false in
  p = {| pl_waiting := [2%nat]; pl_running := [0%nat; 1%nat] |} /\ Z.of_nat (length (pl_running p)) <= 2.
Proof.
  split; [reflexivity|].
  destruct (pool_discipline "q" (demo_config "active" "omit") demo_legs true false) as [H _]; [by_decide|].
  apply (H 0%nat). constructor.
Defined.

Lemma configuration_well_formed_witness :
  config_from_env [("RECALL_FEDERATION_MODE", " Active ")] = Ok {| fc_mode := "active"; fc_max_legs := 2; fc_max_concurrency := 2;
    fc_candidate_k := 20; fc_result_k := 5; fc_primary_prefix := 3; fc_rescue_slots := 1; fc_rrf_k := 60; fc_invalid_leg_policy := "omit" |} /\
  fc_max_legs default_config <= MAX_FEDERATION_LEGS.
Proof.
  split; [reflexivity|]. destruct (configuration_well_formed default_config []) as (_ & _ & Hd).
  destruct (configuration_well_formed default_config []) as (_ & H & _).
  destruct (H default_config) as [[] _]; [by apply Hd|]. by destruct wf_legs0.
Defined.
