(* ===== verification/FederationFacts.v ===== *)
(** * FederationFacts: what a federated request serves *)
From S2P Require Import Prelude Text Float64 Frontmatter Types TrustPolicy Calibration TrustVerdicts TrustGate Scope Federation FederationPool.

Local Open Scope recall_scope.
Local Open Scope Z_scope.

(** ** The review *)

Section review.
Context (leg_ms : nat -> float) (settings : FederationConfig) (results : leg_results).

(** The entry an accepted leg adds to [valid_hits]. *)
Definition valid_entry (e : nat * FederationLeg) : list (nat * list TrustedHit) :=
  match results !! e.1 with
  | None => []
  | Some r =>
      let r := bounded_result (request_k e.2 settings) r in
      if decide (leg_rejection e.2 r = None) then [(e.1, filter (fun h => is_trusted h = true) (tres_hits r))] else []
  end.

Lemma review_spec legs timed_out rv :
  review leg_ms settings legs results timed_out = Ok rv ->
  rv_valid rv = imap pair legs ≫= valid_entry /\
  (fails_closed settings = true -> forall i leg, legs !! i = Some leg ->
     exists r, results !! i = Some r /\ leg_rejection leg (bounded_result (request_k leg settings) r) = None) /\
  length (rv_diagnostics rv) = length legs /\
  rv_rejected_legs rv + Z.of_nat (length (rv_valid rv)) = Z.of_nat (length legs).
Proof.
  unfold review. intros Hr.
  set (P := fun (pre : list (nat * FederationLeg)) (rv : Review) =>
    rv_valid rv = pre ≫= valid_entry /\
    (fails_closed settings = true -> forall e, e ∈ pre ->
       exists r, results !! e.1 = Some r /\ leg_rejection e.2 (bounded_result (request_k e.2 settings) r) = None) /\
    length (rv_diagnostics rv) = length pre /\
    rv_rejected_legs rv + Z.of_nat (length (rv_valid rv)) = Z.of_nat (length pre)).
  assert (HP : P (imap pair legs) rv).
  { apply (result_foldl_inv (review_leg leg_ms settings results timed_out) P empty_review); [|..|exact Hr].
    - split_and!; [done| |done|done]. by intros _ e ?%not_elem_of_nil.
    - intros pre [i leg] b b' (Hv & Hc & Hd & Hn) _. unfold review_leg. cbn zeta. intros Hb.
      unfold P. rewrite !bind_app, !length_app. cbn [length]. unfold valid_entry at 2. cbn [fst snd mbind list_bind].
      destruct (results !! i) as [r|] eqn:Hi.
      2:{ destruct (fails_closed settings) eqn:Hf; [done|]. injection Hb as <-. cbn. rewrite length_app, !app_nil_r, Hv in *. cbn [length].
          split_and!; [done|done|lia..]. }
      destruct (leg_rejection leg _) as [why|] eqn:Hrej.
      + destruct (fails_closed settings) eqn:Hf; [done|]. injection Hb as <-. cbn. rewrite length_app, !app_nil_r, Hv in *. cbn [length].
        split_and!; [done|done|lia..].
      + injection Hb as <-. cbn. rewrite !length_app, Hv in *. cbn [length app].
        split_and!; [done| |lia..]. intros Hf e [He| ->%list_elem_of_singleton]%elem_of_app; [by apply Hc|]. by exists r. }
  destruct HP as (Hv & Hc & Hd & Hn). rewrite length_imap in *. split_and!; [done| |done|done].
  intros Hf i leg Hi. apply (Hc Hf (i, leg)). apply list_elem_of_lookup. exists i. by rewrite list_lookup_imap, Hi.
Qed.

Definition total (f : FederationLegDiagnostics -> Z) (l : list FederationLegDiagnostics) : Z := foldr Z.add 0 (f <$> l).

Lemma total_snoc f l d : total f (l ++ [d]) = total f l + f d.
Proof. unfold total. induction l as [|x l IH]; cbn; [lia|]. unfold total in IH. rewrite IH. lia. Qed.

(** The counts of the diagnostics add up. *)
Record accounted (rv : Review) : Prop := {
  ac_legs : length (filter (fun l => ld_accepted l = true) (rv_diagnostics rv)) = length (rv_valid rv);
  ac_served : total ld_trusted_candidate_count (rv_diagnostics rv) = Z.of_nat (length (rv_valid rv ≫= snd));
  ac_rejected : total ld_rejected_candidate_count (rv_diagnostics rv) = rv_rejected_candidates rv;
  ac_split : Forall (fun d => ld_candidate_count d = ld_trusted_candidate_count d + ld_rejected_candidate_count d) (rv_diagnostics rv)
}.

Lemma review_accounted legs timed_out rv : review leg_ms settings legs results timed_out = Ok rv -> accounted rv.
Proof.
  unfold review. intros Hr. apply (result_foldl_inv (review_leg leg_ms settings results timed_out) (fun _ => accounted) empty_review (imap pair legs) rv); [by split| |exact Hr].
  intros pre [i leg] b b' [Hl Hs Hrej Hsplit] _. unfold review_leg. cbn zeta. intros Hb.
  assert (Hadd : forall d valid, b' = {| rv_diagnostics := rv_diagnostics b ++ [d]; rv_valid := rv_valid b ++ valid;
      rv_rejected_legs := rv_rejected_legs b'; rv_rejected_candidates := rv_rejected_candidates b + ld_rejected_candidate_count d |} ->
    length valid = (if ld_accepted d then 1 else 0)%nat -> Z.of_nat (length (valid ≫= snd)) = ld_trusted_candidate_count d ->
    ld_candidate_count d = ld_trusted_candidate_count d + ld_rejected_candidate_count d -> accounted b').
  { intros d valid -> Hlen Hcount Hd. split; cbn [rv_diagnostics rv_valid rv_rejected_candidates].
    - rewrite filter_app, filter_cons, filter_nil, !length_app, Hl, Hlen. by destruct (ld_accepted d).
    - rewrite total_snoc, bind_app, length_app, Hs, Nat2Z.inj_add. lia.
    - by rewrite total_snoc, Hrej.
    - apply Forall_app. split; [done|]. by repeat constructor. }
  destruct (results !! i) as [r|].
  2:{ destruct (fails_closed settings); [done|]. injection Hb as <-. eapply (Hadd (leg_diagnostics leg_ms leg i 0 0 0 false (Some (if decide (i ∈ timed_out) then "latency_budget_exceeded" else "leg_failed"))) []); [|done..].
      cbn [ld_rejected_candidate_count leg_diagnostics rv_rejected_legs]. by rewrite app_nil_r, Z.add_0_r. }
  destruct (leg_rejection leg _) as [why|].
  - destruct (fails_closed settings); [done|]. injection Hb as <-. set (count := Z.of_nat _). eapply (Hadd (leg_diagnostics leg_ms leg i count 0 count true (Some why)) []); [|done..]. by rewrite app_nil_r.
  - injection Hb as <-. set (hits := filter _ (tres_hits _)). set (count := Z.of_nat (length (tres_hits _))).
    apply (Hadd (leg_diagnostics leg_ms leg i count (Z.of_nat (length hits)) (count - Z.of_nat (length hits)) true None) [(i, hits)]);
      [done|done|cbn; by rewrite app_nil_r|cbn; lia].
Qed.

Lemma review_omits legs timed_out : fails_closed settings = false -> exists rv, review leg_ms settings legs results timed_out = Ok rv.
Proof.
  intros Hf. unfold review. destruct (result_foldl_total (review_leg leg_ms settings results timed_out) (fun _ => True) empty_review (imap pair legs)) as (rv & Hrv & _);
    [done| |by exists rv].
  intros [i leg] b _ _. unfold review_leg. cbn zeta. destruct (results !! i); [|rewrite Hf; by eexists].
  destruct (leg_rejection _ _); [rewrite Hf|]; by eexists.
Qed.

Lemma valid_entry_in legs i hits :
  (i, hits) ∈ imap pair legs ≫= valid_entry <->
  exists leg r, legs !! i = Some leg /\ results !! i = Some r /\
    leg_rejection leg (bounded_result (request_k leg settings) r) = None /\
    hits = filter (fun h => is_trusted h = true) (tres_hits (bounded_result (request_k leg settings) r)).
Proof.
  rewrite list_elem_of_bind. split.
  - intros ([j leg] & He & (k & Hk)%list_elem_of_lookup). rewrite list_lookup_imap in Hk.
    destruct (legs !! k) as [leg'|] eqn:Hleg; [|done]. injection Hk as -> ->.
    unfold valid_entry in He. cbn [fst snd] in He. destruct (results !! j) as [r|] eqn:Hr; [|by apply not_elem_of_nil in He].
    cbn zeta in He. case_decide as Hrej; [|by apply not_elem_of_nil in He]. apply list_elem_of_singleton in He as [= -> ->]. by exists leg, r.
  - intros (leg & r & Hleg & Hr & Hrej & ->). exists (i, leg). split.
    + unfold valid_entry. cbn [fst snd]. rewrite Hr. cbn zeta. rewrite decide_True by done. by left.
    + apply list_elem_of_lookup. exists i. by rewrite list_lookup_imap, Hleg.
Qed.
End review.

(** ** The merge *)

Lemma omap_forall2 {A B} (f : A -> option B) (R : B -> A -> Prop) l :
  (forall x, x ∈ l -> exists y, f x = Some y /\ R y x) -> Forall2 R (omap f l) l.
Proof.
  induction l as [|x l IH]; intros H; [constructor|]. destruct (H x) as (y & Hy & HR); [by left|].
  cbn. rewrite Hy. constructor; [done|]. apply IH. intros z Hz. apply H. by right.
Qed.

Lemma omap_imap {A B} (f : A -> option B) (g : nat -> A -> B) l :
  (forall n x, l !! n = Some x -> f x = Some (g n x)) -> omap f l = imap g l.
Proof.
  revert g; induction l as [|x l IH]; intros g H; [done|]. cbn. rewrite (H 0%nat x) by done. f_equal.
  apply IH. intros n y Hy. by apply (H (S n)).
Qed.

Lemma pair_ltb_weak : weak_order pair_ltb.
Proof. apply (lex_weak fst); [apply string_ltb_weak|]. apply (weak_order_map snd), string_ltb_weak. Qed.

Lemma ahead_weak : weak_order ahead.
Proof. apply (lex_weak fd_fused_rank); [apply Z_ltb_weak|]. apply (weak_order_map fd_tenant_id), string_ltb_weak. Qed.

Lemma rescue_lt_weak : weak_order rescue_lt.
Proof.
  apply (lex_weak fd_fused_rank); [apply Z_ltb_weak|]. apply (lex_weak fd_leg_rank); [apply Z_ltb_weak|].
  apply (weak_order_map (fun c => (fd_tenant_id c, c_id (th_chunk (fd_hit c))))), pair_ltb_weak.
Qed.

Section merge_legs.
Context (digest : string -> string) (legs : list FederationLeg) (valid : list (nat * list TrustedHit)) (scores : list (candidate_id * float)).

(** Every candidate of an accepted leg, with the leg's index, in the order of the loops. *)
Definition entries : list (nat * FederatedCandidate) :=
  accepted legs valid ≫= fun a => (fun e => (a.1.1, candidate_of scores a.1.2 e)) <$> ranked a.2.

Abbreviation key_of c := (candidate_key digest (fd_hit c)).
Abbreviation primary_content := (content_key digest <$> primary_hits valid).
Abbreviation has_primary := (bool_decide (0%nat ∈ valid.*1)).

Definition step (m : Merge) (e : nat * FederatedCandidate) : Merge :=
  merge_candidate digest primary_content has_primary e.1 m e.2.

Definition no_merge : Merge := {| mg_by_key := []; mg_primary_by_key := []; mg_secondary := [] |}.

Lemma merge_flat : merge_legs digest legs valid scores = foldl step no_merge entries.
Proof.
  unfold merge_legs, entries. fold no_merge. generalize no_merge. induction (accepted legs valid) as [|[[i leg] hits] l IH]; intros m; [done|].
  cbn [foldl mbind list_bind]. by rewrite foldl_app, !foldl_fmap, IH.
Qed.

Lemma merge_primary : mg_primary_by_key (merge_legs digest legs valid scores) = last_by (fun c => key_of c) (filter (fun e => e.1 = 0%nat) entries).*2.
Proof.
  rewrite merge_flat. induction entries as [|e l IH] using rev_ind; [done|].
  rewrite foldl_app, filter_app, fmap_app. cbn [foldl]. unfold step at 1, merge_candidate. cbn [mg_primary_by_key].
  rewrite IH, filter_cons, filter_nil. destruct (decide (e.1 = 0%nat)) as [->|Hne].
  - cbn. by rewrite last_by_snoc.
  - rewrite (proj2 (Nat.eqb_neq _ _)) by done. by rewrite app_nil_r.
Qed.

(** A rescue candidate: novel content of another leg, beside an accepted primary leg. *)
Definition novel (e : nat * FederatedCandidate) : Prop :=
  e.1 <> 0%nat /\ 0%nat ∈ valid.*1 /\ content_key digest (fd_hit e.2) ∉ primary_content.

#[local] Instance novel_dec e : Decision (novel e).
Proof. unfold novel. apply _. Defined.

Lemma merge_secondary : mg_secondary (merge_legs digest legs valid scores) = (filter novel entries).*2.
Proof.
  rewrite merge_flat. induction entries as [|e l IH] using rev_ind; [done|].
  rewrite foldl_app, filter_app, fmap_app. cbn [foldl]. unfold step at 1, merge_candidate. cbn [mg_secondary].
  rewrite IH, filter_cons, filter_nil.
  assert (Hb : negb (e.1 =? 0)%nat && has_primary && negb (bool_decide ((candidate_key digest (fd_hit e.2)).2 ∈ primary_content)) = bool_decide (novel e)).
  { apply eq_true_iff_eq. rewrite !andb_true_iff, !negb_true_iff, Nat.eqb_neq, !bool_decide_eq_true, bool_decide_eq_false.
    unfold novel. cbn. tauto. }
  rewrite Hb. clear Hb. destruct (decide (novel e)) as [Hn|Hn]; [by rewrite bool_decide_eq_true_2|].
  rewrite bool_decide_eq_false_2 by done. cbn. by rewrite app_nil_r.
Qed.

Lemma entries_elem i c :
  (i, c) ∈ entries <-> exists leg hits n h,
    legs !! i = Some leg /\ (i, hits) ∈ valid /\ hits !! n = Some h /\ c = candidate_of scores leg (S n, h).
Proof.
  unfold entries, accepted, ranked. rewrite list_elem_of_bind. setoid_rewrite list_elem_of_bind. split.
  - intros ([[j leg] hits] & Hc & ([k hits'] & Ha & Hv)).
    cbn [fst snd] in *. destruct (legs !! k) as [leg'|] eqn:Hleg; [|by apply not_elem_of_nil in Ha].
    apply list_elem_of_singleton in Ha as [= -> -> ->].
    apply list_elem_of_fmap in Hc as (e & [= -> ->] & (n & Hn)%list_elem_of_lookup).
    rewrite list_lookup_imap in Hn. destruct (hits' !! n) as [h|] eqn:Hh; [|done]. injection Hn as <-. by exists leg', hits', n, h.
  - intros (leg & hits & n & h & Hleg & Hv & Hh & ->). exists (i, leg, hits). split.
    + apply list_elem_of_fmap. exists (S n, h). split; [done|]. apply list_elem_of_lookup. exists n. cbn. by rewrite list_lookup_imap, Hh.
    + exists (i, hits). split; [|done]. cbn. rewrite Hleg. by left.
Qed.

Lemma length_ranked hits : length (ranked hits) = length hits.
Proof. apply length_imap. Qed.

(** The candidates of a leg are its hits, ranked from 1. *)
Lemma ranked_candidates leg hits :
  fd_hit <$> (candidate_of scores leg <$> ranked hits) = hits /\
  fd_leg_rank <$> (candidate_of scores leg <$> ranked hits) = (fun n => Z.of_nat (S n)) <$> seq 0 (length hits).
Proof.
  split; apply list_eq; intros k; unfold ranked; rewrite !list_lookup_fmap, list_lookup_imap.
  - by destruct (hits !! k).
  - destruct (hits !! k) as [h|] eqn:Hk; cbn.
    + rewrite lookup_seq_lt by (by apply lookup_lt_Some in Hk). done.
    + rewrite lookup_seq_ge by (by apply lookup_ge_None). done.
Qed.

(** The entries of the primary leg. *)
Lemma entries_primary leg hits :
  NoDup valid.*1 -> legs !! 0%nat = Some leg -> odict_get 0%nat valid = Some hits ->
  (filter (fun e => e.1 = 0%nat) entries).*2 = candidate_of scores leg <$> ranked hits.
Proof.
  intros Hnd Hleg Hget. unfold entries, accepted. induction valid as [|[i hs] l IH]; [done|].
  cbn [fmap list_fmap] in Hnd. inversion_clear Hnd as [|? ? Hi Hnd']. cbn [odict_get] in Hget.
  cbn [mbind list_bind fst snd]. rewrite bind_app, filter_app, fmap_app. case_decide as H0.
  - injection Hget as ->. subst i. rewrite Hleg. cbn [mbind list_bind fst snd]. rewrite app_nil_r.
    rewrite list_filter_all by (apply Forall_fmap, Forall_true; done). rewrite <-list_fmap_compose.
    rewrite (list_filter_none (fun e => e.1 = 0%nat)); [by rewrite app_nil_r|].
    apply Forall_forall. intros e (a & (e' & -> & _)%list_elem_of_fmap & (v & Ha & Hv)%list_elem_of_bind)%list_elem_of_bind. cbn.
    destruct (legs !! v.1); [|by apply not_elem_of_nil in Ha]. apply list_elem_of_singleton in Ha as ->. cbn. intros Heq.
    apply Hi. rewrite <-Heq. by apply list_elem_of_fmap_2.
  - rewrite (list_filter_none (fun e => e.1 = 0%nat)); [by apply IH|].
    apply Forall_forall. intros e (a & (e' & -> & _)%list_elem_of_fmap & Ha)%list_elem_of_bind. cbn.
    destruct (legs !! i); [|by apply not_elem_of_nil in Ha]. apply list_elem_of_singleton in Ha as ->. cbn. congruence.
Qed.

(** The best candidate of each key is kept, and there is one for each key. *)
Lemma merge_by_key :
  let d := mg_by_key (merge_legs digest legs valid scores) in
  NoDup d.*1 /\
  (forall k c, (k, c) ∈ d -> k = key_of c /\ c ∈ entries.*2 /\ forall c', c' ∈ entries.*2 -> key_of c' = k -> ahead c' c = false) /\
  (forall c, c ∈ entries.*2 -> key_of c ∈ d.*1).
Proof.
  cbn zeta. rewrite merge_flat. induction entries as [|e l IH] using rev_ind.
  { split_and!; [constructor|by intros ? ? ?%not_elem_of_nil|by intros ? ?%not_elem_of_nil]. }
  rewrite foldl_app, fmap_app. cbn [foldl fmap list_fmap]. set (m := foldl step no_merge l) in *.
  unfold step, merge_candidate. cbn [mg_by_key]. destruct e as [i c]. cbn [fst snd]. destruct IH as (Hnd & Hbest & Hall).
  assert (Hkeep : forall k c0, (k, c0) ∈ mg_by_key m -> (key_of c = k -> ahead c c0 = false) ->
    k = key_of c0 /\ c0 ∈ l.*2 ++ [c] /\ forall c', c' ∈ l.*2 ++ [c] -> key_of c' = k -> ahead c' c0 = false).
  { intros k c0 Hin Hnew. destruct (Hbest k c0 Hin) as (Hk & Hl & Hb). split_and!; [done|apply elem_of_app; by left|].
    intros c' [Hc'|Hc']%elem_of_app Heq; [by apply Hb|]. apply list_elem_of_singleton in Hc' as ->. by apply Hnew. }
  assert (Hset : (forall c0, odict_get (key_of c) (mg_by_key m) = Some c0 -> ahead c c0 = true) ->
    NoDup (odict_set (key_of c) c (mg_by_key m)).*1 /\
    (forall k c0, (k, c0) ∈ odict_set (key_of c) c (mg_by_key m) ->
       k = key_of c0 /\ c0 ∈ l.*2 ++ [c] /\ forall c', c' ∈ l.*2 ++ [c] -> key_of c' = k -> ahead c' c0 = false) /\
    (forall c0, c0 ∈ l.*2 ++ [c] -> key_of c0 ∈ (odict_set (key_of c) c (mg_by_key m)).*1)).
  { intros Hahead. pose proof (odict_set_nodup (key_of c) c _ Hnd) as Hnd'. split_and!; [done| |].
    - intros k c0 Hin. pose proof (proj2 (odict_get_some _ _ _ Hnd') Hin) as Hget. rewrite odict_get_set in Hget.
      case_decide as Hk.
      + injection Hget as <-. split_and!; [done|apply elem_of_app; right; by left|]. intros c' [Hc'|Hc']%elem_of_app Heq.
        * pose proof (Hall c' Hc') as Hin'. rewrite Heq, Hk in Hin'. apply odict_get_keys in Hin' as [c1 Hc1].
          destruct (Hbest _ _ (odict_get_in _ _ _ Hc1)) as (_ & _ & Hb).
          destruct (ahead c' c) eqn:Hc; [|done]. destruct (wo_cotrans _ ahead_weak c' c1 c Hc) as [Hx|Hx].
          -- by rewrite Hb in Hx by congruence.
          -- by rewrite (wo_asym _ ahead_weak c c1) in Hx by by apply Hahead.
        * apply list_elem_of_singleton in Hc' as ->. destruct (ahead c c) eqn:Hc; [|done]. by rewrite (wo_asym _ ahead_weak c c) in Hc.
      + apply Hkeep; [by apply odict_get_in|]. intros <-. done.
    - intros c0 [Hc0|Hc0]%elem_of_app; apply odict_set_fst; [right; by apply Hall|]. apply list_elem_of_singleton in Hc0 as ->. by left. }
  destruct (odict_get (key_of c) (mg_by_key m)) as [c1|] eqn:Hget; [|apply Hset; by intros ? [=]].
  destruct (ahead c c1) eqn:Hc1; [apply Hset; by intros ? [= <-]|]. split_and!; [done| |].
  - intros k c0 Hin. apply Hkeep; [done|]. intros <-. rewrite (proj2 (odict_get_some _ _ _ Hnd) Hin) in Hget. by injection Hget as ->.
  - intros c0 [Hc0|Hc0]%elem_of_app; [by apply Hall|]. apply list_elem_of_singleton in Hc0 as ->. apply odict_get_keys. by eexists.
Qed.

(** The primary candidates, one for each primary hit, in the order of the leg. *)
Lemma primary_spec leg hits :
  NoDup valid.*1 -> legs !! 0%nat = Some leg -> odict_get 0%nat valid = Some hits ->
  let own := primary_candidates digest (merge_legs digest legs valid scores) (primary_hits valid) in
  Forall2 (fun c h => key_of c = candidate_key digest h /\ c ∈ candidate_of scores leg <$> ranked hits) own hits /\
  (NoDup (candidate_key digest <$> hits) -> own = candidate_of scores leg <$> ranked hits).
Proof.
  intros Hnd Hleg Hget. unfold primary_candidates, primary_hits. rewrite merge_primary, (entries_primary leg hits), Hget by done.
  cbn [default]. set (cands := candidate_of scores leg <$> ranked hits).
  assert (Hcand : forall n h, hits !! n = Some h -> candidate_of scores leg (S n, h) ∈ cands).
  { intros n h Hn. apply list_elem_of_fmap. exists (S n, h). split; [done|]. apply list_elem_of_lookup. exists n.
    unfold ranked. by rewrite list_lookup_imap, Hn. }
  split.
  - apply omap_forall2. intros h (n & Hn)%list_elem_of_lookup.
    destruct (odict_get (candidate_key digest h) (last_by (fun c => key_of c) cands)) as [c|] eqn:Hc.
    + exists c. apply odict_get_in, last_by_elem in Hc as [Hc Hk]. by split_and!.
    + pose proof (last_by_complete (fun c => key_of c) cands _ (Hcand n h Hn)) as Hin. apply odict_get_keys in Hin as [c Hc'].
      cbn in Hc'. by rewrite Hc in Hc'.
  - intros Hdistinct. unfold cands at 2, ranked. rewrite fmap_imap. apply omap_imap. intros n h Hn. cbn.
    apply (last_by_distinct (fun c => key_of c) cands (candidate_of scores leg (S n, h))); [|by apply Hcand].
    replace ((fun c => key_of c) <$> cands) with (candidate_key digest <$> hits); [done|].
    apply list_eq. intros k. unfold cands, ranked. rewrite !list_lookup_fmap, list_lookup_imap. by destruct (hits !! k).
Qed.
End merge_legs.

(** ** What a request serves *)

(** What the check of a leg's result has certified. *)
Record certified_answer (leg : FederationLeg) (r : TrustedResult) : Prop := {
  ce_tenant : tres_tenant_id r = Some (fl_tenant_id leg);
  ce_generation : tres_generation_id r = Some (fl_generation_id leg);
  ce_profile : rd_embedding_profile (tres_diagnostics r) = fl_embedding_profile leg;
  ce_trusted : tres_trust_state r = "trusted";
  ce_calibrated : tres_calibration_status r = "certified" /\ is_Some (tres_calibration_id r);
  ce_calibration : tres_calibration_id r = fl_calibration_id leg;
  ce_status : tres_calibration_status r = fl_calibration_status leg;
  ce_gap : tres_gap_warning r = false
}.

Lemma leg_rejection_none leg r : leg_rejection leg r = None <-> certified_answer leg r.
Proof.
  unfold leg_rejection, result_calibrated. split.
  - destruct (_ && _ && _) eqn:Hc; cbn [negb]; [|by repeat case_decide].
    repeat case_decide; try done. destruct (tres_gap_warning r) eqn:Hg; [done|]. intros _.
    rewrite !andb_true_iff, !bool_decide_eq_true in Hc. destruct Hc as [[Hs Hid] _].
    split; try (by apply dec_stable); try done. split; [done|by apply not_eq_None_Some].
  - intros []. destruct ce_calibrated0 as [Hs Hid%not_eq_None_Some].
    repeat (rewrite decide_False by (intros Hn; by apply Hn)). rewrite !bool_decide_eq_true_2 by done. cbn [negb andb].
    repeat (rewrite decide_False by (intros Hn; by apply Hn)). by rewrite ce_gap0.
Qed.

Lemma bounded_certified k leg r : certified_answer leg (bounded_result k r) <-> certified_answer leg r.
Proof. unfold bounded_result. destruct (k <? _); [|done]. split; intros []; by split. Qed.

Lemma bounded_hits k r : 0 <= k -> tres_hits (bounded_result k r) = take (Z.to_nat k) (tres_hits r).
Proof.
  intros Hk. unfold bounded_result. destruct (k <? _) eqn:Hlt; [done|]. apply Z.ltb_ge in Hlt.
  by rewrite take_ge by lia.
Qed.

(** The hits a leg contributes. *)
Definition contribution (settings : FederationConfig) (leg : FederationLeg) (r : TrustedResult) : list TrustedHit :=
  filter (fun h => is_trusted h = true) (tres_hits (bounded_result (request_k leg settings) r)).

(** The identity a candidate carries is that of its leg. *)
Record of_leg (c : FederatedCandidate) (leg : FederationLeg) : Prop := {
  ol_tenant : fd_tenant_id c = fl_tenant_id leg;
  ol_generation : fd_generation_id c = fl_generation_id leg;
  ol_profile : fd_embedding_profile c = fl_embedding_profile leg;
  ol_calibration : Some (fd_calibration_id c) = fl_calibration_id leg;
  ol_status : fd_calibration_status c = fl_calibration_status leg;
  ol_route : fd_route c = fl_route leg;
  ol_fingerprints : (fd_pipeline_fingerprint c, fd_corpus_fingerprint c, fd_query_set_digest c) =
                    (fl_pipeline_fingerprint leg, fl_corpus_fingerprint leg, fl_query_set_digest leg)
}.

Lemma candidate_of_leg scores leg r e : certified_answer leg r -> of_leg (candidate_of scores leg e) leg.
Proof. intros H. split; [done..| | | |]; try done. cbn. rewrite <-(ce_calibration _ _ H). by destruct (ce_calibrated _ _ H) as [_ [id ->]]. Qed.

Section federated.
Context (digest : string -> string) (leg_ms : nat -> float) (total_ms : float).
Context (query : string) (legs : list FederationLeg) (config : option FederationConfig) (budget : option Z).

Abbreviation settings := (default default_config config).
Abbreviation effective := (effective_legs settings legs).

Lemma federate_inv first_late rounds fr :
  federate digest leg_ms total_ms query legs config budget first_late rounds = Some (Ok fr) ->
  exists results timed_out rv,
    execute query settings effective budget first_late rounds = Some (Ok (results, timed_out)) /\
    review leg_ms settings effective results timed_out = Ok rv /\
    fr = assemble digest total_ms settings effective results rv.
Proof.
  unfold federate. cbn zeta. destruct (check_request settings legs budget); [|done].
  destruct (execute _ _ _ _ _ _) as [[[results timed_out]|e]|]; cbn; [|done..].
  intros [= H]. apply bind_ok in H as (rv & Hrv & [= <-]). by exists results, timed_out, rv.
Qed.

Lemma default_well_formed : well_formed default_config.
Proof. apply (federation_config_ok default_config default_config). by vm_compute. Qed.

(** A candidate is a trusted hit, at its rank, of the certified answer of a leg. *)
Definition from_leg (i : nat) (c : FederatedCandidate) : Prop :=
  exists leg r n, effective !! i = Some leg /\ run_leg leg query settings = Ok r /\ certified_answer leg r /\ of_leg c leg /\
    contribution settings leg r !! n = Some (fd_hit c) /\ fd_leg_rank c = Z.of_nat (S n).

(** A leg that was heard in time, and whose answer is certified. *)
Definition heard (timed_out : gset nat) (i : nat) (leg : FederationLeg) (r : TrustedResult) : Prop :=
  effective !! i = Some leg /\ run_leg leg query settings = Ok r /\ certified_answer leg r /\ i ∉ timed_out.

Section one_run.
Context (deadline : bool) (results : leg_results) (timed_out : gset nat) (rv : Review) (scores : list (candidate_id * float)).
Context (Hexec : executed query settings effective deadline results timed_out).
Context (Hreview : review leg_ms settings effective results timed_out = Ok rv).

Lemma result_heard i leg r :
  effective !! i = Some leg -> (results !! i = Some r <-> run_leg leg query settings = Ok r /\ i ∉ timed_out).
Proof.
  intros Hleg. destruct (proj2 Hexec i) as [Hlate Hans]. destruct (decide (i ∈ timed_out)) as [Hi|Hi].
  - rewrite Hlate by done. split; [done|tauto].
  - rewrite (proj1 (Hans Hi)), answer_some. split.
    + intros (leg' & Hleg' & Hr). split; [|done]. congruence.
    + intros [Hr _]. by exists leg.
Qed.

Lemma valid_heard i hits :
  (i, hits) ∈ rv_valid rv <-> exists leg r, heard timed_out i leg r /\ hits = contribution settings leg r.
Proof.
  destruct (review_spec _ _ _ _ _ _ Hreview) as (-> & _). rewrite valid_entry_in. unfold heard. split.
  - intros (leg & r & Hleg & Hr & Hrej & ->). apply (result_heard i leg) in Hr; [|done].
    apply leg_rejection_none, bounded_certified in Hrej. exists leg, r. tauto.
  - intros (leg & r & (Hleg & Hr & Hce & Hi) & ->). exists leg, r. rewrite leg_rejection_none, bounded_certified.
    split_and!; [done|by apply (result_heard i leg)|done..].
Qed.

Lemma valid_nodup : NoDup (rv_valid rv).*1.
Proof.
  destruct (review_spec _ _ _ _ _ _ Hreview) as (-> & _).
  eapply sublist_NoDup; [apply (NoDup_seq 0 (length effective))|].
  assert (H : forall l k, (imap (fun i x => ((k + i)%nat, x)) l ≫= valid_entry settings results).*1 `sublist_of` seq k (length l)).
  { induction l as [|x l IH]; intros k; [constructor|]. cbn [imap mbind list_bind length seq].
    rewrite fmap_app. change (k :: seq (S k) (length l)) with ([k] ++ seq (S k) (length l)). apply sublist_app.
    - unfold valid_entry. cbn [fst snd]. destruct (results !! _); [|apply sublist_nil_l]. cbn zeta.
      case_decide; [|apply sublist_nil_l]. cbn. by rewrite Nat.add_0_r.
    - specialize (IH (S k)). erewrite imap_ext; [exact IH|]. intros j y _. cbn. f_equal. lia. }
  specialize (H effective 0%nat). by erewrite imap_ext; [exact H|].
Qed.

Lemma entries_heard i c : (i, c) ∈ entries effective (rv_valid rv) scores -> from_leg i c.
Proof.
  intros (leg & hits & n & h & Hleg & Hv & Hh & ->)%entries_elem.
  apply valid_heard in Hv as (leg' & r & (Hleg' & Hr & Hce & _) & ->). assert (leg' = leg) as -> by congruence.
  exists leg, r, n. split_and!; [done..|by eapply candidate_of_leg|done|done].
Qed.

Lemma primary_elem c h :
  odict_get (candidate_key digest h) (mg_primary_by_key (merge_legs digest effective (rv_valid rv) scores)) = Some c ->
  (0%nat, c) ∈ entries effective (rv_valid rv) scores.
Proof.
  intros Hc%odict_get_in. rewrite merge_primary in Hc. apply last_by_elem in Hc as [Hc _].
  apply list_elem_of_fmap in Hc as ([i c'] & -> & [Hi Hin]%list_elem_of_filter). cbn in Hi. by subst i.
Qed.

Lemma secondary_elem c :
  c ∈ secondary_candidates (mg_secondary (merge_legs digest effective (rv_valid rv) scores)) ->
  exists i, (i, c) ∈ entries effective (rv_valid rv) scores /\ novel digest (rv_valid rv) (i, c).
Proof.
  unfold secondary_candidates. rewrite stable_sort_perm. intros ([k c'] & -> & Hc)%list_elem_of_fmap.
  apply (last_by_elem text_key) in Hc as [Hc _]. rewrite merge_secondary in Hc.
  apply list_elem_of_fmap in Hc as ([i c''] & -> & [Hn Hin]%list_elem_of_filter). by exists i.
Qed.
End one_run.

(** C26: a federated answer holds only trusted hits of certified answers: each candidate, served
    or not, is an [ok] hit, at its rank among the trusted ones of the first [candidate_k], of an
    answer whose tenant, generation, embedding profile, calibration and status are those of the
    leg, trusted, certified and without a gap warning, and it carries that identity; [off] serves
    the first leg alone, [fail_closed] answers only when every leg is certified, and at most
    [result_k] hits are served, whatever the schedule. *)
Theorem federation_serves_certified first_late rounds fr :
  well_formed settings ->
  federate digest leg_ms total_ms query legs config budget first_late rounds = Some (Ok fr) ->
  (forall c, c ∈ fr_candidates fr ++ fr_served fr ->
     exists i, from_leg i c /\ is_trusted (fd_hit c) = true /\ (fc_mode settings = "off" -> i = 0%nat)) /\
  (fails_closed settings = true ->
     forall i leg, effective !! i = Some leg -> exists r, run_leg leg query settings = Ok r /\ certified_answer leg r) /\
  Z.of_nat (length (fr_served fr)) <= fc_result_k settings /\
  length (dg_legs (fr_diagnostics fr)) = length effective.
Proof.
  intros Hwf (results & timed_out & rv & Hex & Hrev & ->)%federate_inv.
  apply execute_spec in Hex; [|by destruct (wf_concurrency _ Hwf)].
  destruct (review_spec _ _ _ _ _ _ Hrev) as (_ & Hclosed & Hdiag & _).
  unfold assemble. cbn zeta. cbn [fr_candidates fr_served fr_diagnostics dg_legs].
  set (scores := fuse_legs _ _). split_and!; [| | |done].
  - assert (Hfrom : forall i c, (i, c) ∈ entries effective (rv_valid rv) scores ->
      exists i, from_leg i c /\ is_trusted (fd_hit c) = true /\ (fc_mode settings = "off" -> i = 0%nat)).
    { intros i c Hin. destruct (entries_heard _ _ _ _ _ Hex Hrev i c Hin) as (leg & r & n & Hleg & Hr & Hce & Hof & Hn & Hrank).
      exists i. split_and!; [by exists leg, r, n| |].
      - apply list_elem_of_lookup_2, list_elem_of_filter in Hn. tauto.
      - intros Hoff. unfold effective_legs in Hleg. rewrite decide_True in Hleg by done. apply lookup_lt_Some in Hleg.
        rewrite length_take in Hleg. lia. }
    intros c [Hc|Hc]%elem_of_app.
    + apply list_elem_of_fmap in Hc as ([k c'] & -> & Hc).
      apply merge_by_key in Hc as (_ & ([i c''] & Heq & Hin)%list_elem_of_fmap & _). cbn in Heq. subst c''. by eapply Hfrom.
    + apply elem_of_take in Hc as (n & Hc & _). apply list_elem_of_lookup_2 in Hc. apply elem_of_app in Hc as [Hc|Hc].
      * apply elem_of_take in Hc as (m & Hc & _). apply list_elem_of_lookup_2, list_elem_of_omap in Hc as (h & _ & Hc).
        by eapply Hfrom, primary_elem.
      * apply elem_of_take in Hc as (m & Hc & _). apply list_elem_of_lookup_2, secondary_elem in Hc as (i & Hin & _). by eapply Hfrom.
  - intros Hf i leg Hleg. destruct (Hclosed Hf i leg Hleg) as (r & Hr & Hrej). exists r.
    rewrite leg_rejection_none, bounded_certified in Hrej. split; [|done]. by apply (result_heard _ _ _ Hex i leg).
  - rewrite length_take. pose proof (wf_split _ Hwf). pose proof (wf_prefix _ Hwf). pose proof (wf_rescue _ Hwf). lia.
Qed.

Section shape.
Context (results : leg_results) (timed_out : gset nat) (rv : Review).
Context (Hexec : executed query settings effective (bool_decide (is_Some budget)) results timed_out).
Context (Hreview : review leg_ms settings effective results timed_out = Ok rv).
Context (scores : list (candidate_id * float)).

Abbreviation merged := (merge_legs digest effective (rv_valid rv) scores).

(** The rescue tail of a request. *)
Lemma rescue_spec :
  let all := secondary_candidates (mg_secondary merged) in
  NoDup (text_key <$> all) /\ StronglySorted (fun a b => rescue_lt b a = false) all /\
  Forall (fun c => content_key digest (fd_hit c) ∉ content_key digest <$> primary_hits (rv_valid rv) /\ exists i, i <> 0%nat /\ from_leg i c) all /\
  (0%nat ∈ (rv_valid rv).*1 -> forall i leg r h, i <> 0%nat -> heard timed_out i leg r -> h ∈ contribution settings leg r ->
     content_key digest h ∉ content_key digest <$> primary_hits (rv_valid rv) ->
     (c_id (th_chunk h), c_source (th_chunk h), c_text (th_chunk h)) ∈ text_key <$> all).
Proof.
  cbn zeta. split_and!.
  - unfold secondary_candidates. rewrite stable_sort_perm. fold (last_by text_key (mg_secondary merged)).
    rewrite last_by_keys. apply last_by_nodup.
  - apply stable_sort_weak, rescue_lt_weak.
  - apply Forall_forall. intros c (i & Hin & Hne & _ & Hnew)%secondary_elem. split; [done|].
    exists i. split; [done|]. by eapply entries_heard.
  - intros H0 i leg r h Hne Hheard (n & Hn)%list_elem_of_lookup Hnew.
    set (c := candidate_of scores leg (S n, h)). change (text_key c ∈ text_key <$> secondary_candidates (mg_secondary merged)).
    assert (Hsec : c ∈ mg_secondary merged).
    { rewrite merge_secondary. apply list_elem_of_fmap. exists (i, c). split; [done|]. apply list_elem_of_filter. split; [by split_and!|].
      apply entries_elem. exists leg, (contribution settings leg r), n, h. split_and!; [by destruct Hheard| |done|done].
      apply (valid_heard _ _ _ _ Hexec Hreview). by exists leg, r. }
    unfold secondary_candidates. rewrite stable_sort_perm. fold (last_by text_key (mg_secondary merged)).
    rewrite last_by_keys. by apply last_by_complete.
Qed.

(** What the first leg contributes. *)
Lemma primary_cases :
  (exists leg r, heard timed_out 0 leg r /\ odict_get 0%nat (rv_valid rv) = Some (contribution settings leg r)) \/
  (odict_get 0%nat (rv_valid rv) = None /\ mg_secondary merged = []).
Proof.
  pose proof (valid_nodup _ _ _ Hreview) as Hnd.
  destruct (odict_get 0%nat (rv_valid rv)) as [hits|] eqn:H0; [left|right].
  - apply odict_get_in, (valid_heard _ _ _ _ Hexec Hreview) in H0 as (leg & r & Hh & ->). by exists leg, r.
  - split; [done|]. rewrite merge_secondary, list_filter_none; [done|]. apply Forall_forall. intros e _ (_ & Hin & _).
    apply odict_get_keys in Hin as [? Hin]. by rewrite H0 in Hin.
Qed.

(** The hits of the first leg that are served when it is given [n] places. *)
Lemma own_spec leg r n :
  heard timed_out 0 leg r -> odict_get 0%nat (rv_valid rv) = Some (contribution settings leg r) ->
  let primary := contribution settings leg r in
  let own := take n (primary_candidates digest merged (primary_hits (rv_valid rv))) in
  length own = (n `min` length primary)%nat /\
  Forall2 (fun c h => candidate_key digest (fd_hit c) = candidate_key digest h /\ from_leg 0 c) own (take (length own) primary) /\
  (NoDup (candidate_key digest <$> primary) ->
     fd_hit <$> own = take (length own) primary /\ fd_leg_rank <$> own = (fun n => Z.of_nat (S n)) <$> seq 0 (length own)).
Proof.
  intros Hheard Hget primary. cbn zeta.
  destruct (primary_spec digest effective (rv_valid rv) scores leg primary) as [Hown Hexact]; [by eapply valid_nodup|by destruct Hheard|done|].
  set (own := primary_candidates _ _ _) in *. pose proof (Forall2_length _ _ _ Hown) as Hlen. rewrite length_take, Hlen.
  assert (Htake : take (n `min` length primary) primary = take n primary) by (by rewrite <-take_take, (take_ge primary (length primary))).
  rewrite Htake. split_and!; [done| |].
  - eapply Forall2_impl; [by apply Forall2_take|]. intros c h [Hk Hc]. split; [done|].
    eapply entries_heard; [exact Hexec|exact Hreview|].
    apply list_elem_of_fmap in Hc as ([m h'] & -> & (j & Hj)%list_elem_of_lookup).
    unfold ranked in Hj. rewrite list_lookup_imap in Hj. destruct (primary !! j) as [x|] eqn:Hx; [|done]. injection Hj as <- <-.
    apply entries_elem. exists leg, primary, j, x. split_and!; [by destruct Hheard|by apply odict_get_in|done|done].
  - intros Hdistinct. rewrite (Hexact Hdistinct). destruct (ranked_candidates scores leg primary) as [Hhits Hranks].
    rewrite !fmap_take, Hhits, Hranks. split; [done|]. by rewrite <-fmap_take, take_seq.
Qed.
End shape.

(** When no leg times out, the served hits are the first ones of the first leg, in its order
    and with their ranks, followed by at most [rescue_slots] hits of the other legs; a slot no
    rescue fills goes to the first leg, and its first [primary_prefix] hits are always served.
    The rescue is the best, by fused rank, of the novel trusted hits of the other legs: none has
    content the first leg has, no text is rescued twice, and without the first leg nothing is. *)
Theorem federation_merge_exact first_late rounds fr :
  well_formed settings -> budget = None ->
  federate digest leg_ms total_ms query legs config budget first_late rounds = Some (Ok fr) ->
  (forall leg, effective !! 0%nat = Some leg -> ~ (exists r, run_leg leg query settings = Ok r /\ certified_answer leg r) -> fr_served fr = []) /\
  forall leg r, effective !! 0%nat = Some leg -> run_leg leg query settings = Ok r -> certified_answer leg r ->
  let primary := contribution settings leg r in
  exists own rescue rest,
    fr_served fr = own ++ rescue /\
    (length own = length primary `min` (Z.to_nat (fc_result_k settings) - length rescue) /\
     Z.to_nat (fc_primary_prefix settings) `min` length primary <= length own)%nat /\
    Forall2 (fun c h => candidate_key digest (fd_hit c) = candidate_key digest h /\ from_leg 0 c) own (take (length own) primary) /\
    (NoDup (candidate_key digest <$> primary) ->
       fd_hit <$> own = take (length own) primary /\ fd_leg_rank <$> own = (fun n => Z.of_nat (S n)) <$> seq 0 (length own)) /\
    Z.of_nat (length rescue) <= fc_rescue_slots settings /\ (rest = [] \/ Z.of_nat (length rescue) = fc_rescue_slots settings) /\
    StronglySorted (fun a b => rescue_lt b a = false) (rescue ++ rest) /\ NoDup (text_key <$> rescue ++ rest) /\
    Forall (fun c => content_key digest (fd_hit c) ∉ content_key digest <$> primary /\ exists i, i <> 0%nat /\ from_leg i c) rescue /\
    (forall i leg' r' h, i <> 0%nat -> effective !! i = Some leg' -> run_leg leg' query settings = Ok r' -> certified_answer leg' r' ->
       h ∈ contribution settings leg' r' -> content_key digest h ∉ content_key digest <$> primary ->
       (c_id (th_chunk h), c_source (th_chunk h), c_text (th_chunk h)) ∈ text_key <$> rescue ++ rest).
Proof.
  intros Hwf Hbudget (results & timed_out & rv & Hex & Hrev & ->)%federate_inv.
  pose proof (wf_split _ Hwf). pose proof (wf_prefix _ Hwf). pose proof (wf_rescue _ Hwf).
  apply execute_spec in Hex; [|by destruct (wf_concurrency _ Hwf)].
  assert (Htime : forall i, i ∉ timed_out). { intros i Hi%(proj1 Hex). rewrite Hbudget in Hi. by destruct Hi. }
  unfold assemble. cbn zeta. cbn [fr_served]. set (scores := fuse_legs _ _).
  pose proof (valid_nodup _ _ _ Hrev) as Hnd.
  destruct (rescue_spec results timed_out rv Hex Hrev scores) as (Hdup & Hsorted & Hnovel & Hcomplete).
  rewrite (Z.min_l (fc_rescue_slots settings)) by lia. set (slots := Z.to_nat (fc_rescue_slots settings)).
  set (all := secondary_candidates _) in *.
  destruct (primary_cases results timed_out rv Hex Hrev scores) as [(leg & r & Hheard & Hget)|[Hget Hnone]].
  - split; [intros leg' Hleg' []; destruct Hheard as (Hleg & Hr & Hce & _); assert (leg' = leg) as -> by congruence; by exists r|].
    intros leg' r' Hleg' Hr' _. assert (leg' = leg) as -> by (destruct Hheard as (Hleg & _); congruence).
    assert (r' = r) as -> by (destruct Hheard as (_ & Hr & _); congruence). clear Hleg' Hr'. cbn zeta.
    assert (Hprimary : primary_hits (rv_valid rv) = contribution settings leg r) by (unfold primary_hits; by rewrite Hget).
    set (n := Z.to_nat (fc_result_k settings - Z.of_nat (length (take slots all)))).
    destruct (own_spec results timed_out rv Hex Hrev scores leg r n Hheard Hget) as (Hlen & Hown & Hexact).
    rewrite Hprimary in Hnovel, Hcomplete. set (own := take n _) in *. set (primary := contribution settings leg r) in *.
    assert (Hslots : (length (take slots all) <= slots)%nat) by (rewrite length_take; lia).
    exists own, (take slots all), (drop slots all). rewrite take_drop.
    split_and!; [apply take_ge; rewrite length_app; lia|lia|lia|done|done|lia| |done|done|by apply Forall_take|].
    + destruct (decide (length all <= slots)%nat); [left; by apply drop_ge|right]. rewrite length_take. lia.
    + intros i leg' r' h Hi Hleg' Hr' Hce' Hh Hnew. eapply Hcomplete; [|exact Hi| |exact Hh|exact Hnew].
      * apply odict_get_keys. by eexists.
      * by split_and!.
  - split.
    + intros _ _ _. assert (Hall : all = []) by (unfold all; by rewrite Hnone).
      unfold primary_hits. rewrite Hget, Hall. rewrite !take_nil. unfold primary_candidates. cbn. rewrite take_nil. apply take_nil.
    + intros leg r Hleg Hr Hce. exfalso.
      assert (Hin : (0%nat, contribution settings leg r) ∈ rv_valid rv).
      { apply (valid_heard _ _ _ _ Hex Hrev). exists leg, r. by split_and!. }
      apply odict_get_some in Hin; [|done]. by rewrite Hget in Hin.
Qed.

(** Under [omit] a request that is admitted always answers: every schedule the executor can
    follow ends in a result, some schedule exists, no leg's failure escapes, and the diagnostics
    account for each leg; a request outside the bounds is refused before any leg runs. *)
Theorem federation_answers first_late :
  well_formed settings -> fails_closed settings = false ->
  (check_request settings legs budget = Ok () <->
     legs <> [] /\ Z.of_nat (length legs) <= fc_max_legs settings /\ (forall b, budget = Some b -> 1 <= b <= MAX_FEDERATION_LATENCY_BUDGET_MS)) /\
  (forall e, check_request settings legs budget = Raise e ->
     forall rounds, federate digest leg_ms total_ms query legs config budget first_late rounds = Some (Raise e)) /\
  (check_request settings legs budget = Ok () ->
     (exists rounds fr, federate digest leg_ms total_ms query legs config budget first_late rounds = Some (Ok fr)) /\
     forall rounds o, federate digest leg_ms total_ms query legs config budget first_late rounds = Some o ->
       exists fr, o = Ok fr /\ let d := fr_diagnostics fr in
         dg_fanout_count d = Z.of_nat (length effective) /\ length (dg_legs d) = length effective /\
         dg_rejected_leg_count d + Z.of_nat (length (filter (fun l => ld_accepted l = true) (dg_legs d))) = dg_fanout_count d /\
         total ld_candidate_count (dg_legs d) = dg_candidate_count d + dg_rejected_candidate_count d).
Proof.
  intros Hwf Homit. split_and!.
  - unfold check_request, config_check. rewrite bind_ok. setoid_rewrite bind_ok. split.
    + intros ([] & Hb & [] & Hl & Hm). split_and!.
      * intros ->. done.
      * destruct (fc_max_legs settings <? _) eqn:H; [done|]. by apply Z.ltb_ge.
      * intros b ->. destruct (_ && _) eqn:H; [|done]. lia.
    + intros (Hl & Hm & Hb). exists (). split; [destruct budget as [b|]; [|done]; specialize (Hb b eq_refl)|exists (); split].
      * by replace ((1 <=? b) && (b <=? MAX_FEDERATION_LATENCY_BUDGET_MS)) with true by lia.
      * by rewrite bool_decide_eq_false_2.
      * by rewrite (proj2 (Z.ltb_ge _ _)).
  - intros e He rounds. unfold federate. cbn zeta. by rewrite He.
  - intros Hok. assert (Hrun : forall rounds o, federate digest leg_ms total_ms query legs config budget first_late rounds = Some o ->
      forall x, execute query settings effective budget first_late rounds = Some (Ok x) -> exists fr, o = Ok fr).
    { unfold federate. cbn zeta. rewrite Hok. intros rounds o Ho [results timed_out] Hex. rewrite Hex in Ho. injection Ho as <-.
      cbn [mbind result_bind]. destruct (review_omits leg_ms settings results effective timed_out Homit) as [rv ->]. by eexists. }
    split.
    + destruct (execute_ends query settings effective budget first_late) as (rounds & o & Ho & Hfine). specialize (Hfine Homit).
      destruct o as [x|e]; [|done]. destruct (federate digest leg_ms total_ms query legs config budget first_late rounds) as [o|] eqn:Hf.
      * destruct (Hrun _ _ Hf _ Ho) as [fr ->]. by exists rounds, fr.
      * unfold federate in Hf. cbn zeta in Hf. by rewrite Hok, Ho in Hf.
    + intros rounds o Ho. assert (Hex : exists x, execute query settings effective budget first_late rounds = Some (Ok x)).
      { unfold federate in Ho. cbn zeta in Ho. rewrite Hok in Ho. destruct (execute _ _ _ _ _ _) as [[x|e]|] eqn:Hex; [by exists x| |done].
        by apply execute_omits in Hex. }
      destruct Hex as [x Hex]. destruct (Hrun _ _ Ho _ Hex) as [fr ->]. exists fr. split; [done|]. cbn zeta.
      apply federate_inv in Ho as (results & timed_out & rv & _ & Hrev & ->). cbn.
      destruct (review_spec _ _ _ _ _ _ Hrev) as (_ & _ & Hdiag & Hcount). destruct (review_accounted _ _ _ _ _ _ Hrev) as [Hl Hs Hr Hsplit].
      split_and!; [done|done|by rewrite Hl|]. rewrite <-Hs, <-Hr. clear -Hsplit. unfold total. induction Hsplit as [|d l Hd _ IH]; cbn in *; lia.
Qed.
End federated.

(** ** Witnesses: three tenants, one of them down *)

Definition demo_rounds : list Round :=
  [{| rnd_done := [1%nat]; rnd_late := false |}; {| rnd_done := [2%nat; 0%nat]; rnd_late := false |}].

Definition demo_answer_of (mode policy : string) (budget : option Z) : option FederationResult :=
  match demo_federate mode policy budget demo_rounds with Some (Ok fr) => Some fr | _ => None end.

Definition demo_fr : FederationResult := Eval vm_compute in
  match demo_answer_of "active" "omit" None with Some fr => fr | None => {| fr_candidates := []; fr_served := []; fr_active := false;
    fr_diagnostics := {| dg_mode := ""; dg_fanout_count := 0; dg_executed_leg_count := 0; dg_candidate_count := 0; dg_fused_candidate_count := 0;
      dg_primary_prefix_count := 0; dg_rescue_count := 0; dg_rejected_leg_count := 0; dg_rejected_candidate_count := 0; dg_latency_ms := zero;
      dg_max_concurrency := 0; dg_legs := [] |} |} end.

Lemma demo_well_formed mode policy :
  mode ∈ ["off"; "shadow"; "active"] -> policy ∈ ["omit"; "fail_closed"] -> well_formed (demo_config mode policy).
Proof. intros. split; [done|cbn..|done]; try done. Qed.

Lemma demo_runs : demo_federate "active" "omit" None demo_rounds = Some (Ok demo_fr).
Proof. vm_compute. reflexivity. Qed.

Lemma federation_serves_certified_witness :
  demo_federate "active" "omit" None demo_rounds = Some (Ok demo_fr) /\
  length (fr_served demo_fr) = 3%nat /\ Z.of_nat (length (fr_served demo_fr)) <= 3.
Proof.
  split_and!; [exact demo_runs|reflexivity|].
  eapply (federation_serves_certified (fun s => s) (fun _ => zero) zero "q" demo_legs (Some (demo_config "active" "omit")) None false demo_rounds demo_fr);
    [|exact demo_runs]. apply demo_well_formed; by_decide.
Defined.

Lemma federation_merge_exact_witness :
  (fun c => fd_tenant_id c) <$> fr_served demo_fr = ["home"; "home"; "law"] /\
  exists own rescue : list FederatedCandidate, fr_served demo_fr = own ++ rescue /\ Z.of_nat (length rescue) <= 1.
Proof.
  split; [reflexivity|].
  destruct (federation_merge_exact (fun s => s) (fun _ => zero) zero "q" demo_legs (Some (demo_config "active" "omit")) None false demo_rounds demo_fr)
    as [_ H]; [apply demo_well_formed; by_decide|reflexivity|exact demo_runs|].
  edestruct H as (own & rescue & rest & Hserved & _ & _ & _ & Hlen & _); [reflexivity|reflexivity|apply leg_rejection_none; reflexivity|].
  exists own, rescue. split; [exact Hserved|exact Hlen].
Defined.

Lemma federation_answers_witness :
  check_request (demo_config "active" "omit") demo_legs (Some 50) = Ok () /\
  exists rounds fr, demo_federate "active" "omit" (Some 50) rounds = Some (Ok fr).
Proof.
  split; [reflexivity|].
  destruct (federation_answers (fun s => s) (fun _ => zero) zero "q" demo_legs (Some (demo_config "active" "omit")) (Some 50) false) as (_ & _ & H);
    [apply demo_well_formed; by_decide|reflexivity|]. destruct H as [(rounds & fr & H) _]; [reflexivity|]. exists rounds, fr. exact H.
Defined.
