(* ===== verification/Intervals.v ===== *)
(** * Intervals: validity windows and the time they cover (src/recall/fact_projection.py)

    The closed-open intervals a fact ledger computes with: a window as an interval,
    what is left of intervals outside a window, and the union of intervals in normal
    form.  Instants are microseconds, as everywhere. *)
From S2P Require Import Prelude.

Local Open Scope Z_scope.

(** [FactWindow]: half-open, either end absent when open. *)
Definition FactWindow : Type := (option Z * option Z)%type.

(** [Interval]: closed-open, on the whole time line. *)
Definition Interval : Type := (Z * Z)%type.

(** [_holds]: an unknown window holds at every instant. *)
Definition holds (window : option FactWindow) (instant : Z) : bool :=
  match window with
  | None => true
  | Some (start, end_) =>
      match start with Some s => s <=? instant | None => true end &&
      match end_ with Some e => instant <? e | None => true end
  end.

(** [_span]. *)
Definition span (window : option FactWindow) : Interval :=
  match window with
  | None => (EARLIEST, LATEST)
  | Some (start, end_) => (default EARLIEST start, default LATEST end_)
  end.

(** [_without]. *)
Definition cut (start end_ : Z) (i : Interval) : list Interval :=
  let '(low, high) := i in
  if (end_ <=? low) || (high <=? start) then [(low, high)]
  else (if low <? start then [(low, start)] else []) ++ (if end_ <? high then [(end_, high)] else []).

Definition without (intervals : list Interval) (window : option FactWindow) : list Interval :=
  match window with
  | None => []
  | Some (start, end_) => intervals ≫= cut (default EARLIEST start) (default LATEST end_)
  end.

(** [_merge]: the intervals are sorted as pairs; the merged ones are kept last first. *)
Definition pair_leb (a b : Interval) : bool := (a.1 <? b.1) || ((a.1 =? b.1) && (a.2 <=? b.2)).

Definition merge_step (merged : list Interval) (i : Interval) : list Interval :=
  let '(low, high) := i in
  if high <=? low then merged
  else match merged with
       | (l, h) :: rest =>
           if low <=? h then (if h <? high then (l, high) :: rest else merged) else (low, high) :: merged
       | [] => [(low, high)]
       end.

Definition merge (intervals : list Interval) : list Interval :=
  reverse (foldl merge_step [] (stable_sort pair_leb intervals)).

(** [intervals_overlap], on two windows (src/recall/provenance_controller.py). *)
Definition windows_overlap (left right : option FactWindow) : bool :=
  let '(ls, le) := span left in
  let '(rs, re) := span right in
  Z.max ls rs <? Z.min le re.

Example merge_ex : merge [(5, 9); (1, 3); (3, 4); (7, 7); (8, 12)] = [(1, 4); (5, 12)].
Proof. vm_compute. reflexivity. Qed.
Example without_ex : without [(0, 10)] (Some (Some 3, Some 5)) = [(0, 3); (5, 10)].
Proof. vm_compute. reflexivity. Qed.

(** ** The instants intervals cover *)

Definition inside (t : Z) (i : Interval) : Prop := i.1 <= t < i.2.

#[export] Instance inside_dec t i : Decision (inside t i).
Proof. unfold inside. apply _. Defined.

Definition covers_time (l : list Interval) (t : Z) : Prop := Exists (inside t) l.

#[export] Instance covers_time_dec l t : Decision (covers_time l t).
Proof. unfold covers_time. apply _. Defined.

(** The instants a [datetime] can be, the last one excepted. *)
Definition on_line (t : Z) : Prop := EARLIEST <= t < LATEST.

Lemma covers_time_app l k t : covers_time (l ++ k) t <-> covers_time l t \/ covers_time k t.
Proof. apply Exists_app. Qed.

Lemma covers_time_cons i l t : covers_time (i :: l) t <-> inside t i \/ covers_time l t.
Proof. apply Exists_cons. Qed.

Lemma covers_time_nil t : covers_time [] t <-> False.
Proof. apply Exists_nil. Qed.

Lemma covers_time_perm l k t : l ≡ₚ k -> covers_time l t <-> covers_time k t.
Proof. intros Hp. unfold covers_time. rewrite !Exists_exists. by setoid_rewrite Hp. Qed.

Lemma covers_time_bind {A} (f : A -> list Interval) l t :
  covers_time (l ≫= f) t <-> exists x, x ∈ l /\ covers_time (f x) t.
Proof.
  induction l as [|x l IH]; simpl.
  - rewrite covers_time_nil. setoid_rewrite elem_of_nil. naive_solver.
  - rewrite covers_time_app, IH. setoid_rewrite elem_of_cons. naive_solver.
Qed.

(** ** Normal form *)

(** Sorted, disjoint, not touching, none empty: [prev] bounds the list from below. *)
Fixpoint separated (prev : option Z) (l : list Interval) : Prop :=
  match l with
  | [] => True
  | (low, high) :: l' => low < high /\ (forall p, prev = Some p -> p < low) /\ separated (Some high) l'
  end.

(** The same, for a list kept last first. *)
Fixpoint separated_rev (l : list Interval) : Prop :=
  match l with
  | [] => True
  | (low, high) :: l' =>
      low < high /\ match l' with (_, h) :: _ => h < low | [] => True end /\ separated_rev l'
  end.

Lemma separated_weaken p l : separated p l -> separated None l.
Proof. destruct l as [|[a b] l]; simpl; [done|]. by intros (? & _ & ?). Qed.

Lemma separated_snoc p l low high :
  separated p l -> low < high -> (forall q, p = Some q -> l = [] -> q < low) ->
  (forall i, last l = Some i -> i.2 < low) -> separated p (l ++ [(low, high)]).
Proof.
  revert p; induction l as [|[a b] l IH]; intros p; simpl.
  - intros _ Hlh Hp _. split_and!; [done| |done]. intros q Hq. by apply Hp.
  - intros (Hab & Hq & Hs) Hlh _ Hlast. split_and!; [done..|]. apply IH; [done..| |].
    + intros q [= <-] ->. by apply (Hlast (a, b)).
    + intros i Hi. apply Hlast. destruct l; [done|]. by rewrite last_cons_cons.
Qed.

Lemma separated_reverse l : separated_rev l -> separated None (reverse l).
Proof.
  induction l as [|[low high] l IH]; [done|]. rewrite reverse_cons. intros (Hlh & Hhd & Hs).
  apply separated_snoc; [by apply IH|done..|].
  intros i Hi. rewrite last_reverse in Hi. destruct l as [|[a b] l]; simplify_eq/=. done.
Qed.

(** The loop: what is merged stays separated, begins no later than what comes, and
    covers what it has read. *)
Lemma merge_step_spec merged i :
  separated_rev merged -> (forall l h rest, merged = (l, h) :: rest -> l <= i.1) ->
  separated_rev (merge_step merged i) /\
  (forall l h rest, merge_step merged i = (l, h) :: rest -> l <= i.1) /\
  (forall t, covers_time (merge_step merged i) t <-> covers_time merged t \/ inside t i).
Proof.
  destruct i as [low high]. simpl. intros Hs Hle.
  destruct (Z.leb_spec high low) as [Hemp|Hne].
  { split_and!; [done|done|]. intros t. unfold inside; simpl. split; [auto|]. intros [?|?]; [done|lia]. }
  destruct merged as [|[l h] rest].
  { split_and!; [done| |].
    - intros l h rest [= -> _ _]. lia.
    - intros t. rewrite covers_time_cons, !covers_time_nil. unfold inside. simpl. tauto. }
  specialize (Hle l h rest eq_refl). simpl in Hs. destruct Hs as (Hlh & Hhd & Hs).
  destruct (Z.leb_spec low h) as [Htouch|Hapart]; [destruct (Z.ltb_spec h high) as [Hgrow|Hin]|].
  - split; [by simpl; split_and!; [lia|done|done]|]. split.
    + by intros ? ? ? [= <- _ _].
    + intros t. rewrite !covers_time_cons. unfold inside; simpl.
      destruct (decide (covers_time rest t)); [tauto|]. intuition lia.
  - split; [by simpl|]. split.
    + by intros ? ? ? [= <- _ _].
    + intros t. rewrite covers_time_cons. unfold inside; simpl.
      destruct (decide (covers_time rest t)); [tauto|]. intuition lia.
  - split; [by simpl|]. split.
    + intros ? ? ? [= <- _ _]. lia.
    + intros t. rewrite !covers_time_cons. tauto.
Qed.

Lemma pair_leb_total a b : pair_leb a b = true \/ pair_leb b a = true.
Proof. unfold pair_leb. rewrite !orb_true_iff, !andb_true_iff, !Z.ltb_lt, !Z.eqb_eq, !Z.leb_le. lia. Qed.

Lemma merge_fold l merged :
  StronglySorted (leb_le pair_leb) l -> separated_rev merged ->
  (forall low high rest i, merged = (low, high) :: rest -> i ∈ l -> low <= i.1) ->
  separated_rev (foldl merge_step merged l) /\
  (forall t, covers_time (foldl merge_step merged l) t <-> covers_time merged t \/ covers_time l t).
Proof.
  intros Hl. revert merged; induction Hl as [|i l _ IH Hall]; intros merged Hs Hle; simpl.
  { split; [done|]. intros t. rewrite covers_time_nil. tauto. }
  destruct (merge_step_spec merged i) as (Hs' & Hle' & Hc).
  { done. }
  { intros low high rest ->. eapply Hle; [done|]. by left. }
  destruct (IH (merge_step merged i)) as [Hfin Hcov]; [done| |].
  - intros low high rest j Heq Hj. specialize (Hle' _ _ _ Heq).
    rewrite Forall_forall in Hall. specialize (Hall j Hj). unfold leb_le, pair_leb in Hall.
    rewrite orb_true_iff, andb_true_iff, Z.ltb_lt, Z.eqb_eq in Hall. lia.
  - split; [done|]. intros t. rewrite Hcov, Hc, covers_time_cons. tauto.
Qed.

Lemma merge_spec l : separated None (merge l) /\ forall t, covers_time (merge l) t <-> covers_time l t.
Proof.
  unfold merge. destruct (merge_fold (stable_sort pair_leb l) []) as [Hs Hc].
  - apply Sorted_StronglySorted; [|apply stable_sort_sorted, pair_leb_total].
    intros a b c. unfold leb_le, pair_leb.
    rewrite !orb_true_iff, !andb_true_iff, !Z.ltb_lt, !Z.eqb_eq, !Z.leb_le. lia.
  - done.
  - done.
  - split; [by apply separated_reverse|]. intros t.
    rewrite (covers_time_perm _ _ _ (reverse_Permutation _)), Hc, covers_time_nil.
    rewrite (covers_time_perm _ _ _ (stable_sort_perm pair_leb l)). tauto.
Qed.

Lemma covers_merge l t : covers_time (merge l) t <-> covers_time l t.
Proof. apply merge_spec. Qed.

(** A separated list starts where its cover starts. *)
Lemma separated_above prev l t p :
  separated prev l -> prev = Some p -> covers_time l t -> p < t.
Proof.
  revert prev p; induction l as [|[a b] l IH]; intros prev p; simpl; [by rewrite covers_time_nil|].
  intros (Hab & Hp & Hs) -> Ht. specialize (Hp p eq_refl).
  apply covers_time_cons in Ht as [Ht|Ht]; [unfold inside in Ht; simpl in Ht; lia|].
  specialize (IH (Some b) b Hs eq_refl Ht). lia.
Qed.

(** Lists in normal form are determined by what they cover. *)
Lemma separated_unique l k :
  separated None l -> separated None k -> (forall t, covers_time l t <-> covers_time k t) -> l = k.
Proof.
  revert k; induction l as [|[a b] l IH]; intros [|[c d] k] Hl Hk Heq; [done|..].
  - destruct Hk as (Hcd & _). exfalso. apply (covers_time_nil c). apply Heq, covers_time_cons.
    left. unfold inside; simpl; lia.
  - destruct Hl as (Hab & _). exfalso. apply (covers_time_nil a). apply Heq, covers_time_cons.
    left. unfold inside; simpl; lia.
  - destruct Hl as (Hab & _ & Hl), Hk as (Hcd & _ & Hk).
    assert (Hin : forall t, covers_time ((a, b) :: l) t <-> a <= t < b \/ covers_time l t).
    { intros t. apply covers_time_cons. }
    assert (Hin' : forall t, covers_time ((c, d) :: k) t <-> c <= t < d \/ covers_time k t).
    { intros t. apply covers_time_cons. }
    assert (Hla : forall t, covers_time l t -> b < t) by (intros t; by eapply separated_above).
    assert (Hka : forall t, covers_time k t -> d < t) by (intros t; by eapply separated_above).
    assert (a = c) as ->.
    { assert (Hac : covers_time ((c, d) :: k) a) by (apply Heq, Hin; lia).
      assert (Hca : covers_time ((a, b) :: l) c) by (apply Heq, Hin'; lia).
      apply Hin' in Hac as [?|?%Hka]; apply Hin in Hca as [?|?%Hla]; lia. }
    assert (b = d) as ->.
    { destruct (Z.lt_trichotomy b d) as [Hlt|[?|Hlt]]; [|done|].
      - assert (Hb : covers_time ((c, b) :: l) b) by (apply Heq, Hin'; lia).
        apply Hin in Hb as [?|?%Hla]; lia.
      - assert (Hd : covers_time ((c, d) :: k) d) by (apply Heq, Hin; lia).
        apply Hin' in Hd as [?|?%Hka]; lia. }
    f_equal. apply IH; [by eapply separated_weaken..|]. intros t. split; intros Ht.
    + assert (Ht' : covers_time ((c, d) :: k) t) by (apply Heq, Hin; auto).
      apply Hin' in Ht' as [?|?]; [apply Hla in Ht; lia|done].
    + assert (Ht' : covers_time ((c, d) :: l) t) by (apply Heq, Hin'; auto).
      apply Hin in Ht' as [?|?]; [apply Hka in Ht; lia|done].
Qed.

Lemma merge_canonical l k : (forall t, covers_time l t <-> covers_time k t) -> merge l = merge k.
Proof.
  intros Heq. destruct (merge_spec l) as [Hl Hcl], (merge_spec k) as [Hk Hck].
  apply separated_unique; [done..|]. intros t. by rewrite Hcl, Hck.
Qed.

(** ** Windows *)

Lemma span_holds w t : on_line t -> inside t (span w) <-> holds w t = true.
Proof.
  unfold on_line, inside, span, holds. intros Ht. destruct w as [[[s|] [e|]]|]; simpl;
    rewrite ?andb_true_iff, ?Z.leb_le, ?Z.ltb_lt; lia.
Qed.

Lemma cut_spec start end_ i t :
  covers_time (cut start end_ i) t <-> inside t i /\ ~ (start <= t < end_).
Proof.
  destruct i as [low high]. unfold cut. destruct (orb _ _) eqn:Ho.
  - rewrite covers_time_cons, covers_time_nil. unfold inside; simpl.
    rewrite orb_true_iff, !Z.leb_le in Ho. lia.
  - rewrite orb_false_iff, !Z.leb_gt in Ho. rewrite covers_time_app.
    destruct (Z.ltb_spec low start), (Z.ltb_spec end_ high);
      rewrite ?covers_time_cons, ?covers_time_nil; unfold inside; simpl; lia.
Qed.

Lemma without_spec l w t :
  on_line t -> covers_time (without l w) t <-> covers_time l t /\ holds w t = false.
Proof.
  intros Ht. destruct w as [[start end_]|].
  2:{ simpl. rewrite covers_time_nil. split; [done|]. by intros [_ ?]. }
  rewrite <-not_true_iff_false, <-(span_holds (Some (start, end_)) t Ht). simpl.
  rewrite covers_time_bind. setoid_rewrite cut_spec. unfold covers_time at 1. rewrite Exists_exists.
  unfold inside at 3. simpl. naive_solver.
Qed.

(** Unions of intervals are in normal form.  What [_merge] answers is sorted and
    disjoint with no empty or touching intervals, covers exactly the instants its
    argument covers, and is the only such list: two lists of intervals that cover the
    same instants merge to the same list. *)
Theorem merge_normal_form (l : list Interval) :
  separated None (merge l) /\ (forall t, covers_time (merge l) t <-> covers_time l t) /\
  (forall k, separated None k -> (forall t, covers_time k t <-> covers_time l t) -> k = merge l).
Proof.
  destruct (merge_spec l) as [Hs Hc]. split_and!; [done..|]. intros k Hk Hck.
  apply separated_unique; [done..|]. intros t. by rewrite Hck, Hc.
Qed.

(** Removing a window removes exactly its instants, and two windows overlap
    exactly when some instant lies in both: an absent bound, an unknown window and a
    window that ends before it starts included. *)
Theorem windows_exact (l : list Interval) (w w' : option FactWindow) :
  (forall t, on_line t -> covers_time (without l w) t <-> covers_time l t /\ holds w t = false) /\
  (windows_overlap w w' = true <-> exists t, inside t (span w) /\ inside t (span w')) /\
  ((exists t, on_line t /\ holds w t = true /\ holds w' t = true) -> windows_overlap w w' = true).
Proof.
  assert (Hov : windows_overlap w w' = true <-> exists t, inside t (span w) /\ inside t (span w')).
  { unfold windows_overlap, inside. destruct (span w) as [a b], (span w') as [c d]. simpl. rewrite Z.ltb_lt.
    split; [intros; exists (Z.max a c); lia|]. intros (t & ? & ?). lia. }
  split_and!; [intros t; apply without_spec|done|].
  intros (t & Ht & H1 & H2). apply Hov. exists t. by rewrite !span_holds.
Qed.
