(* ===== verification/FactEvents.v ===== *)
(** * FactEvents: the fact ledger's vocabulary
    (src/recall/fact_events.py, src/recall/types.py)

    Facts, evidence cards, decision codes and the immutable ledger row.  A fact's
    identity is the SHA-256 of its canonical JSON: [json_text] stands for
    [json.dumps] of canonical data and [sha256_hex] for the digest, both of which the
    code takes from the standard library.  A fact's values are JSON data whose numbers
    are finite; [canonical_json] raises on any other. *)
From S2P Require Import Prelude Text Float64 Frontmatter Intervals.

(** [DecisionCode]. *)
Inductive DecisionCode :=
| APPLIED | DUPLICATE | CARD_NOT_FOUND | CARD_TAMPERED | SOURCE_CHANGED | VALIDITY_EXPIRED
| VALIDITY_NOT_STARTED | GENERATION_MISMATCH | LINEAGE_MISMATCH | TRUST_UNAVAILABLE
| UNSUPPORTED_CLAIM | CONTRADICTION_WITHOUT_SUPERSESSION | FRESH_SEARCH_UNAVAILABLE
| FRESH_SEARCH_INSUFFICIENT | LEDGER_UNAVAILABLE | MATERIALIZATION_UNAVAILABLE
| SOURCE_FORGOTTEN | SOURCE_REMOVED | WITHDRAWN | REQUEST_ID_REUSED | REQUEST_ID_RESERVED.

#[export] Instance DecisionCode_eq_dec : EqDecision DecisionCode.
Proof. solve_decision. Defined.

Definition code_text (c : DecisionCode) : string :=
  match c with
  | APPLIED => "APPLIED"
  | DUPLICATE => "DUPLICATE"
  | CARD_NOT_FOUND => "CARD_NOT_FOUND"
  | CARD_TAMPERED => "CARD_TAMPERED"
  | SOURCE_CHANGED => "SOURCE_CHANGED"
  | VALIDITY_EXPIRED => "VALIDITY_EXPIRED"
  | VALIDITY_NOT_STARTED => "VALIDITY_NOT_STARTED"
  | GENERATION_MISMATCH => "GENERATION_MISMATCH"
  | LINEAGE_MISMATCH => "LINEAGE_MISMATCH"
  | TRUST_UNAVAILABLE => "TRUST_UNAVAILABLE"
  | UNSUPPORTED_CLAIM => "UNSUPPORTED_CLAIM"
  | CONTRADICTION_WITHOUT_SUPERSESSION => "CONTRADICTION_WITHOUT_SUPERSESSION"
  | FRESH_SEARCH_UNAVAILABLE => "FRESH_SEARCH_UNAVAILABLE"
  | FRESH_SEARCH_INSUFFICIENT => "FRESH_SEARCH_INSUFFICIENT"
  | LEDGER_UNAVAILABLE => "LEDGER_UNAVAILABLE"
  | MATERIALIZATION_UNAVAILABLE => "MATERIALIZATION_UNAVAILABLE"
  | SOURCE_FORGOTTEN => "SOURCE_FORGOTTEN"
  | SOURCE_REMOVED => "SOURCE_REMOVED"
  | WITHDRAWN => "WITHDRAWN"
  | REQUEST_ID_REUSED => "REQUEST_ID_REUSED"
  | REQUEST_ID_RESERVED => "REQUEST_ID_RESERVED"
  end.

(** The two decisions that let an application through. *)
Definition allowed_code (c : DecisionCode) : bool :=
  match c with APPLIED | DUPLICATE => true | _ => false end.

(** [FactCardinality]. *)
Inductive FactCardinality := Single | SetValued | EventValued.

#[export] Instance FactCardinality_eq_dec : EqDecision FactCardinality.
Proof. solve_decision. Defined.

(** [AtomicFact]; the bounds are UTC instants. *)
Record AtomicFact := {
  af_namespace : string;
  af_subject : string;
  af_predicate : string;
  af_object : value;
  af_context : metadata;
  af_valid_from : option Z;
  af_valid_until : option Z;
  af_cardinality : option FactCardinality
}.

(** [_utc_datetime]: a naive bound is read as UTC. *)
Definition utc_datetime (d : option datetime) : option Z := instant <$> d.

(** [AtomicFact.__post_init__]. *)
Definition named_field (name value : string) : result string :=
  if decide (strip value = "") then Raise (ValueError (name +:+ " must be a non-empty string"))
  else Ok (nfc (strip value)).

Definition atomic_fact (namespace subject predicate : string) (object : value) (context : metadata)
    (valid_from valid_until : option datetime) (cardinality : option FactCardinality) : result AtomicFact :=
  ns ← named_field "namespace" namespace;
  sj ← named_field "subject" subject;
  pr ← named_field "predicate" predicate;
  let from := utc_datetime valid_from in
  let until := utc_datetime valid_until in
  if match from, until with Some f, Some u => bool_decide (u <= f)%Z | _, _ => false end
  then Raise (ValueError "valid_until must be after valid_from")
  else Ok {| af_namespace := ns; af_subject := sj; af_predicate := pr; af_object := object;
             af_context := context; af_valid_from := from; af_valid_until := until;
             af_cardinality := cardinality |}.

(** [fact_window]. *)
Definition fact_window (f : AtomicFact) : FactWindow := (af_valid_from f, af_valid_until f).

(** [EvidenceCard], by the fields the ledger and its projections read; [ec_redacted] tells a
    [RedactedEvidenceCard]. *)
Record EvidenceCard := {
  ec_card_id : string;
  ec_chunk_id : string;
  ec_source : string;
  ec_source_digest : string;
  ec_valid_from : option Z;
  ec_valid_until : option Z;
  ec_tenant_id : string;
  ec_generation_id : string;
  ec_calibration_id : option string;
  ec_calibration_status : string;
  ec_trust_state : string;
  ec_verdict : string;
  ec_supersession_links : list string;
  ec_structured_facts : list AtomicFact;
  ec_redacted : bool
}.

(** [EvidenceCard.calibrated], [has_usable_support] and [trusted_for_application]. *)
Definition calibrated (c : EvidenceCard) : bool :=
  bool_decide (ec_calibration_status c = "certified") && bool_decide (is_Some (ec_calibration_id c)) &&
  bool_decide (ec_trust_state c = "trusted").

Definition has_usable_support (c : EvidenceCard) : bool :=
  negb (bool_decide (length (ec_structured_facts c) = 0)) &&
  forallb (fun v => negb (bool_decide (strip v = "")))
    [ec_card_id c; ec_chunk_id c; ec_source c; ec_source_digest c].

Definition trusted_for_application (c : EvidenceCard) : bool :=
  has_usable_support c && bool_decide (ec_trust_state c = "trusted") &&
  bool_decide (ec_verdict c = "ok") && calibrated c.

(** The types an event has. *)
Inductive event_type := Asserted | SupersededEvent | Retracted | Withdrawn | Rejected | Abstained.

#[export] Instance event_type_eq_dec : EqDecision event_type.
Proof. solve_decision. Defined.

(** [FactEvent]: one immutable ledger row.  [created_at] is read as UTC wherever it is
    read ([_as_utc]); it is kept as that instant.  The policy and controller versions and the
    redaction id, which nothing modelled here reads, are left out. *)
Record FactEvent := {
  event_id : string;
  ev_type : event_type;
  tenant_id : string;
  generation_id : string;
  ev_fact : option AtomicFact;
  fact_id : option string;
  evidence_cards : list EvidenceCard;
  supersedes_fact_ids : list string;
  request_id : string;
  writer : string;
  decision_code : DecisionCode;
  created_at : Z;
  lease_token : option string
}.

(** ** Canonical identity *)

(** [_canonical]: mappings in key order. *)
Definition key_leb (a b : string * value) : bool := String.leb a.1 b.1.

Fixpoint canonical (v : value) : value :=
  match v with
  | VStr s => VStr (nfc s)
  | VDict l => VDict (stable_sort key_leb (map (fun '(k, w) => (nfc k, canonical w)) l))
  | VList l => VList (map canonical l)
  | w => w
  end.

(** [predicate_cardinality] (src/recall/provenance_controller.py). *)
Definition set_predicates : list string :=
  ["email"; "emails"; "email_address"; "phone"; "phones"; "phone_number"; "alias";
   "aliases"; "nickname"; "nicknames"; "tag"; "tags"; "language"; "languages";
   "skill"; "skills"; "member_of"; "child"; "children"; "pet"; "pets"].

Definition event_predicates : list string := ["event"; "visited"; "attended"; "met"; "occurred"].

Definition predicate_cardinality (f : AtomicFact) : FactCardinality :=
  match af_cardinality f with
  | Some c => c
  | None =>
      if decide (casefold (af_predicate f) ∈ event_predicates) then EventValued
      else if decide (casefold (af_predicate f) ∈ set_predicates) then SetValued
      else Single
  end.

(** [intervals_overlap]. *)
Definition intervals_overlap (left right : AtomicFact) : bool :=
  windows_overlap (Some (fact_window left)) (Some (fact_window right)).

Section identity.
Context (json_text : value -> string) (sha256_hex : string -> string) (isoformat : Z -> string).

Definition canonical_json (v : value) : string := json_text (canonical v).

(** [AtomicFact.to_payload]. *)
Definition cardinality_name (c : FactCardinality) : string :=
  match c with Single => "single" | SetValued => "set" | EventValued => "event" end.

Definition time_value (t : option Z) : value :=
  match t with Some us => VStr (isoformat us) | None => VNone end.

Definition to_payload (f : AtomicFact) : value :=
  VDict ([("namespace", VStr (af_namespace f)); ("subject", VStr (af_subject f));
          ("predicate", VStr (af_predicate f)); ("object", af_object f); ("context", VDict (af_context f));
          ("valid_from", time_value (af_valid_from f)); ("valid_until", time_value (af_valid_until f))] ++
         match af_cardinality f with Some c => [("cardinality", VStr (cardinality_name c))] | None => [] end).

(** [fact_identity] and [fact_conflict_key]. *)
Definition fact_identity (f : AtomicFact) : string :=
  "fact_" +:+ String.substring 0 32 (sha256_hex (canonical_json (to_payload f))).

Definition fact_conflict_key (f : AtomicFact) : string :=
  "conflict_" +:+ String.substring 0 32 (sha256_hex (canonical_json
    (VDict [("namespace", VStr (af_namespace f)); ("subject", VStr (af_subject f));
            ("predicate", VStr (af_predicate f)); ("context", VDict (af_context f))]))).

(** [facts_conflict]. *)
Definition facts_conflict (left right : AtomicFact) : bool :=
  bool_decide (af_namespace left = af_namespace right) &&
  bool_decide (af_subject left = af_subject right) &&
  bool_decide (af_predicate left = af_predicate right) &&
  bool_decide (canonical_json (VDict (af_context left)) = canonical_json (VDict (af_context right))) &&
  negb (bool_decide (canonical_json (af_object left) = canonical_json (af_object right))) &&
  (bool_decide (predicate_cardinality left = Single) ||
   negb (bool_decide (predicate_cardinality left = predicate_cardinality right))) &&
  intervals_overlap left right.
End identity.
