(* ===== verification/SegmentTree.v ===== *)
(** * SegmentTree: the implicit binary trees of a fact's successor index
    (src/recall/fact_projection.py, [_FactSuccessorIndex])

    A tree over [size] leaves is an array of [2 * size] nodes: node [n] has the children
    [2n] and [2n+1], the root is node 1 and the leaves are the nodes from [size] on.  The
    index keeps two of them; the operations they share are stated once, for a value type
    and the function that combines two children. *)
From S2P Require Import Prelude.

Section tree.
Context {A : Type} (neutral : A) (op : A -> A -> A).

(** [tree[node]]: the nodes the code reads are in range ([tree_ok]). *)
Definition node_at (tree : list A) (node : nat) : A := default neutral (tree !! node).

(** One node from its children. *)
Definition refresh (tree : list A) (node : nat) : list A :=
  <[node := op (node_at tree (2 * node)) (node_at tree (2 * node + 1))]> tree.

(** [for node in range(size - 1, 0, -1)]: every inner node, the lowest first. *)
Definition build (size : nat) (tree : list A) : list A := foldl refresh tree (reverse (seq 1 (size - 1))).

(** [while node > 1: node //= 2; refresh(node)]; a node is fuel enough. *)
Fixpoint climb (fuel node : nat) (tree : list A) : list A :=
  match fuel with
  | 0 => tree
  | S fuel =>
      if decide (1 < node) then climb fuel (node / 2) (refresh tree (node / 2)) else tree
  end.

Definition set_leaf (node : nat) (a : A) (tree : list A) : list A := climb node node (<[node := a]> tree).

(** [while node < size]: to the left child when it satisfies [p], else to the right. *)
Fixpoint descend (fuel size : nat) (p : A -> bool) (tree : list A) (node : nat) : nat :=
  match fuel with
  | 0 => node
  | S fuel =>
      if decide (node < size) then
        descend fuel size p tree (if p (node_at tree (2 * node)) then 2 * node else 2 * node + 1)
      else node
  end.

(** ** The invariant: every inner node combines its children *)

Definition combined (tree : list A) (node : nat) : Prop :=
  node_at tree node = op (node_at tree (2 * node)) (node_at tree (2 * node + 1)).

Record tree_ok (size : nat) (tree : list A) : Prop := {
  tree_length : length tree = 2 * size;
  tree_combined : forall node, 1 <= node < size -> combined tree node
}.

Lemma node_at_insert tree i j a :
  i < length tree -> node_at (<[i := a]> tree) j = if decide (i = j) then a else node_at tree j.
Proof using Type.
  intros Hi. unfold node_at. rewrite list_lookup_insert. repeat case_decide; try done; lia.
Qed.

Lemma length_refresh tree node : length (refresh tree node) = length tree.
Proof. apply length_insert. Qed.

(** A refreshed node combines its children, and only its parent can notice. *)
Lemma refresh_combined tree node :
  1 <= node < length tree -> combined (refresh tree node) node.
Proof.
  intros Hn. unfold combined, refresh. rewrite !node_at_insert by lia.
  rewrite decide_True by done. rewrite !decide_False by lia. done.
Qed.

Lemma insert_combined tree i a node :
  i < length tree -> combined tree node -> i <> node -> i / 2 <> node -> combined (<[i := a]> tree) node.
Proof.
  intros Hi Hc Hne Hup. unfold combined. rewrite !node_at_insert by done.
  rewrite decide_False by done. rewrite !decide_False; [done|..]; intros ->; apply Hup.
  - by rewrite (Nat.mul_comm 2 node), Nat.div_add_l, Nat.add_0_r.
  - by rewrite (Nat.mul_comm 2 node), Nat.div_mul.
Qed.

Lemma half_bounds n : 2 * (n / 2) <= n < 2 * (n / 2) + 2.
Proof. pose proof (Nat.div_mod_eq n 2). pose proof (Nat.mod_upper_bound n 2). lia. Qed.

Lemma build_from size tree nodes :
  length tree = 2 * size -> (forall n, n ∈ nodes -> 1 <= n < size) ->
  length (foldl refresh tree nodes) = 2 * size /\
  forall leaf, size <= leaf -> node_at (foldl refresh tree nodes) leaf = node_at tree leaf.
Proof.
  revert tree; induction nodes as [|n nodes IH]; intros tree Hlen Hin; simpl; [done|].
  assert (Hn : 1 <= n < size) by (apply Hin; left).
  destruct (IH (refresh tree n)) as [Hl Hleaf].
  - by rewrite length_refresh.
  - intros m Hm. apply Hin. by right.
  - split; [done|]. intros leaf Hge. rewrite Hleaf by done. unfold refresh.
    rewrite node_at_insert by lia. by rewrite decide_False by lia.
Qed.

Lemma build_ok size tree :
  length tree = 2 * size ->
  tree_ok size (build size tree) /\
  forall leaf, size <= leaf -> node_at (build size tree) leaf = node_at tree leaf.
Proof.
  intros Hlen. unfold build.
  destruct (build_from size tree (reverse (seq 1 (size - 1)))) as [Hl Hleaf]; [done| |].
  { intros n. rewrite elem_of_reverse, elem_of_seq. lia. }
  split; [split; [done|]|done].
  assert (Hgen : forall k, k <= size - 1 -> forall node, size - k <= node < size ->
            combined (foldl refresh tree (reverse (seq (size - k) k))) node).
  { induction k as [|k IH]; intros Hk node Hnode; [lia|].
    replace (seq (size - S k) (S k)) with ((size - S k) :: seq (size - k) k)
      by (simpl; do 2 f_equal; lia).
    rewrite reverse_cons, foldl_app. simpl.
    destruct (build_from size tree (reverse (seq (size - k) k))) as [Hlk _]; [done| |].
    { intros n. rewrite elem_of_reverse, elem_of_seq. lia. }
    destruct (decide (node = size - S k)) as [->|Hne]; [apply refresh_combined; lia|].
    apply insert_combined; [lia|apply IH; lia|lia|].
    pose proof (half_bounds (size - S k)). lia. }
  intros node Hnode. specialize (Hgen (size - 1)).
  replace (size - (size - 1)) with 1 in Hgen by lia. apply Hgen; lia.
Qed.

(** The climb restores the invariant, one broken node at a time. *)
Lemma climb_ok fuel size node tree :
  node <= fuel -> length tree = 2 * size -> node < 2 * size ->
  (forall n, 1 <= n < size -> n <> node / 2 -> combined tree n) ->
  tree_ok size (climb fuel node tree) /\
  forall leaf, size <= leaf -> node_at (climb fuel node tree) leaf = node_at tree leaf.
Proof.
  revert node tree; induction fuel as [|fuel IH]; intros node tree Hfuel Hlen Hnode Hc; simpl.
  { split; [|done]. split; [done|]. intros n Hn. apply Hc; [done|].
    replace node with 0 by lia. simpl. lia. }
  pose proof (half_bounds node) as Hhalf. case_decide as H1.
  - pose proof (half_bounds (node / 2)) as Hhalf'.
    destruct (IH (node / 2) (refresh tree (node / 2))) as [Hok Hleaf].
    + lia.
    + by rewrite length_refresh.
    + lia.
    + intros n Hn Hup. destruct (decide (n = node / 2)) as [->|Hne]; [apply refresh_combined; lia|].
      apply insert_combined; [lia|by apply Hc|lia|lia].
    + split; [done|]. intros leaf Hge. rewrite Hleaf by done. unfold refresh.
      rewrite node_at_insert by lia. by rewrite decide_False by lia.
  - split; [|done]. split; [done|]. intros n Hn. apply Hc; [done|]. lia.
Qed.

Lemma set_leaf_ok size node a tree :
  tree_ok size tree -> size <= node < 2 * size ->
  tree_ok size (set_leaf node a tree) /\
  forall leaf, size <= leaf ->
    node_at (set_leaf node a tree) leaf = if decide (node = leaf) then a else node_at tree leaf.
Proof.
  intros [Hlen Hc] Hnode. unfold set_leaf.
  destruct (climb_ok node size node (<[node := a]> tree)) as [Hok Hleaf].
  - done.
  - by rewrite length_insert.
  - lia.
  - intros n Hn Hup. apply insert_combined; [lia|by apply Hc|lia|lia].
  - split; [done|]. intros leaf Hge. rewrite Hleaf by done. apply node_at_insert. lia.
Qed.

(** ** What a node knows of its leaves *)
Section reading.
Context (P : A -> Prop) (P_op : forall a b, P (op a b) <-> P a \/ P b).

Lemma node_spec size tree h node :
  tree_ok size tree -> size <= node * 2 ^ h -> (node + 1) * 2 ^ h <= 2 * size -> 1 <= node ->
  P (node_at tree node) <->
  exists leaf, node * 2 ^ h <= leaf < (node + 1) * 2 ^ h /\ P (node_at tree leaf).
Proof.
  intros Hok. revert node; induction h as [|h IH]; intros node Hlow Hhigh Hpos.
  { rewrite Nat.pow_0_r in *. split.
    - intros HP. exists node. split; [lia|done].
    - intros (leaf & Hleaf & HP). by replace node with leaf by lia. }
  rewrite Nat.pow_succ_r' in *.
  assert (0 < 2 ^ h) by (apply Nat.neq_0_lt_0, Nat.pow_nonzero; lia).
  rewrite (tree_combined _ _ Hok) by nia.
  rewrite P_op, !IH by nia. split.
  - intros [(leaf & ? & ?)|(leaf & ? & ?)]; exists leaf; (split; [nia|done]).
  - intros (leaf & ? & ?). destruct (decide (leaf < (2 * node + 1) * 2 ^ h)); [left|right];
      exists leaf; (split; [nia|done]).
Qed.

(** The descent finds the first leaf that satisfies [P]. *)
Lemma descend_spec fuel size p tree h node :
  (forall a, p a = true <-> P a) ->
  tree_ok size tree -> size <= node * 2 ^ h -> (node + 1) * 2 ^ h <= 2 * size -> 1 <= node ->
  h <= fuel -> P (node_at tree node) ->
  let leaf := descend fuel size p tree node in
  node * 2 ^ h <= leaf < (node + 1) * 2 ^ h /\ P (node_at tree leaf) /\
  forall other, node * 2 ^ h <= other < leaf -> ~ P (node_at tree other).
Proof.
  intros Hp Hok. revert fuel node; induction h as [|h IH]; intros fuel node Hlow Hhigh Hpos Hfuel HP.
  { rewrite Nat.pow_0_r in *. assert (Hd : descend fuel size p tree node = node).
    { destruct fuel; [done|]. simpl. by rewrite decide_False by lia. }
    cbv zeta. rewrite Hd. split_and!; [lia|lia|done|]. intros other. lia. }
  rewrite Nat.pow_succ_r' in *.
  assert (0 < 2 ^ h) by (apply Nat.neq_0_lt_0, Nat.pow_nonzero; lia).
  destruct fuel as [|fuel]; [lia|]. cbv zeta. cbn [descend]. rewrite decide_True by nia.
  rewrite (tree_combined _ _ Hok), P_op in HP by nia.
  destruct (p (node_at tree (2 * node))) eqn:Hpl.
  - apply Hp in Hpl. destruct (IH fuel (2 * node)) as (Hin & HPl & Hfirst); [nia..|lia|done|].
    split_and!; [nia|nia|done|]. intros other Ho. apply Hfirst. nia.
  - destruct HP as [HP|HP]; [by apply Hp in HP; congruence|].
    destruct (IH fuel (2 * node + 1)) as (Hin & HPr & Hfirst); [nia..|lia|done|].
    split_and!; [nia|nia|done|]. intros other Ho.
    destruct (decide ((2 * node + 1) * 2 ^ h <= other)); [apply Hfirst; nia|].
    intros HPo. assert (p (node_at tree (2 * node)) = true); [|congruence].
    apply Hp. rewrite (node_spec size tree h (2 * node)) by (done || nia).
    exists other. split; [nia|done].
Qed.
End reading.
End tree.
