(* ===== verification/SuccessorIndex.v ===== *)
(** * SuccessorIndex: one fact identity's successors
    (src/recall/fact_projection.py, [_FactSuccessorIndex])

    The index answers three questions about the claims that supersede one fact without
    scanning them: which claim comes first, which assertion to visit next, and over which
    instants an assertion written at some time is hidden.  It is modelled as it is built,
    arrays and descents included; [scan] is the list of claims it stands for, whose
    operations read every claim, and the simulation below relates the two. *)
From S2P Require Import Prelude Intervals SegmentTree.

Local Open Scope nat_scope.

Record FactSuccessorIndex := Index {
  ix_claims : list nat;
  ix_position : gmap nat nat;
  ix_times : list Z;
  ix_time_position : gmap nat nat;
  ix_first : list (list nat);
  ix_size : nat;
  ix_active : list (option Z);
  ix_unions : list (list Interval)
}.

(** [{claim: position for position, claim in enumerate(claims)}]. *)
Definition positions (claims : list nat) : gmap nat nat :=
  foldl (fun m ic => <[ic.2 := ic.1]> m) ∅ (imap pair claims).

(** [_refresh_active] and the union of two children. *)
Definition later_active (left right : option Z) : option Z :=
  match left, right with
  | None, r => r
  | l, None => l
  | Some a, Some b => Some (Z.max a b)
  end.

Definition union_of (left right : list Interval) : list Interval := merge (left ++ right).

(** [bisect_left] on a sorted list. *)
Fixpoint bisect_left (times : list Z) (x : Z) : nat :=
  match times with
  | [] => 0
  | y :: times' => if (y <? x)%Z then S (bisect_left times' x) else 0
  end.

(** [int.bit_length]. *)
Definition bit_length (z : Z) : nat := if decide (z = 0)%Z then 0 else S (Z.to_nat (Z.log2 (Z.abs z))).

(** The two lowest claims of each suffix of the claims in time order. *)
Definition two_lowest (l : list nat) : list nat := take 2 (stable_sort Nat.leb l).

Definition firsts (ordered : list nat) : list (list nat) :=
  foldr (fun claim acc => two_lowest (default [] (head acc) ++ [claim]) :: acc) [[]] ordered.

(** [tree[size + position] = value] for each claim that has one. *)
Definition fill {A} (size : nat) (f : nat -> option A) (l : list nat) (tree : list A) : list A :=
  foldl (fun t ic => match f ic.2 with Some a => <[size + ic.1 := a]> t | None => t end) tree (imap pair l).

Section index.
(** The recorded time of each claim, read from [successors]. *)
Context (time : nat -> Z).

Definition claim_leb (a b : nat) : bool :=
  (time a <? time b)%Z || ((time a =? time b)%Z && (a <=? b)).

Definition in_time_order (claims : list nat) : list nat := stable_sort claim_leb claims.

(** [__init__]. *)
Definition new_index (claims : list nat) (has_child : nat -> bool) (own_windows : nat -> list Interval) :
    FactSuccessorIndex :=
  let ordered := in_time_order claims in
  let size := 2 ^ bit_length (Z.of_nat (length claims) - 1) in
  {| ix_claims := claims;
     ix_position := positions claims;
     ix_times := map time ordered;
     ix_time_position := positions ordered;
     ix_first := firsts ordered;
     ix_size := size;
     ix_active := build None later_active size
       (fill size (fun c => if has_child c then Some (Some (time c)) else None) claims
             (replicate (2 * size) None));
     ix_unions := build [] union_of size
       (fill size (fun c => Some (own_windows c)) ordered (replicate (2 * size) [])) |}.

(** [first_claim]. *)
Definition first_claim (idx : FactSuccessorIndex) (written : Z) (own : option nat) : option nat :=
  head (filter (fun c => Some c <> own) (default [] (ix_first idx !! bisect_left (ix_times idx) written))).

(** [next_assertion]. *)
Definition reaches (written : Z) (a : option Z) : bool :=
  match a with Some v => (written <=? v)%Z | None => false end.

Definition next_assertion (idx : FactSuccessorIndex) (written : Z) : result (option nat) :=
  if reaches written (node_at None (ix_active idx) 1) then
    let node := descend None (ix_size idx) (ix_size idx) (reaches written) (ix_active idx) 1 in
    match ix_claims idx !! (node - ix_size idx) with
    | Some c => Ok (Some c)
    | None => Raise IndexError
    end
  else Ok None.

(** [enter]. *)
Definition enter (idx : FactSuccessorIndex) (claim : nat) : result FactSuccessorIndex :=
  match ix_position idx !! claim with
  | Some p =>
      Ok {| ix_claims := ix_claims idx; ix_position := ix_position idx; ix_times := ix_times idx;
            ix_time_position := ix_time_position idx; ix_first := ix_first idx; ix_size := ix_size idx;
            ix_active := set_leaf None later_active (ix_size idx + p) None (ix_active idx);
            ix_unions := ix_unions idx |}
  | None => Raise (KeyError "claim")
  end.

(** [publish]. *)
Definition publish (idx : FactSuccessorIndex) (claim : nat) (impact : list Interval) :
    result FactSuccessorIndex :=
  match ix_time_position idx !! claim with
  | Some p =>
      Ok {| ix_claims := ix_claims idx; ix_position := ix_position idx; ix_times := ix_times idx;
            ix_time_position := ix_time_position idx; ix_first := ix_first idx; ix_size := ix_size idx;
            ix_active := ix_active idx;
            ix_unions := set_leaf [] union_of (ix_size idx + p) impact (ix_unions idx) |}
  | None => Raise (KeyError "claim")
  end.

(** [_range]; the upper node is fuel enough. *)
Fixpoint range_spans (fuel : nat) (unions : list (list Interval)) (low high : nat) (spans : list Interval) :
    list Interval :=
  match fuel with
  | 0 => spans
  | S fuel =>
      if decide (low < high) then
        let '(spans, low) := if Nat.odd low then (spans ++ node_at [] unions low, S low) else (spans, low) in
        let '(spans, high) := if Nat.odd high then (spans ++ node_at [] unions (high - 1), high - 1)
                              else (spans, high) in
        range_spans fuel unions (low / 2) (high / 2) spans
      else spans
  end.

Definition range_ (idx : FactSuccessorIndex) (low high : nat) : list Interval :=
  merge (range_spans (high + ix_size idx) (ix_unions idx) (low + ix_size idx) (high + ix_size idx) []).

(** [hidden]. *)
Definition hidden (idx : FactSuccessorIndex) (written : Z) (own : option nat) : list Interval :=
  let low := bisect_left (ix_times idx) written in
  match own ≫= (fun c => ix_time_position idx !! c) with
  | Some p =>
      if decide (low <= p) then merge (range_ idx low p ++ range_ idx (S p) (length (ix_times idx)))
      else range_ idx low (length (ix_times idx))
  | None => range_ idx low (length (ix_times idx))
  end.

(** ** The claims the index stands for *)

(** A plain list of claims: which are still to be visited, and over which instants each
    hides what it supersedes so far. *)
Record scan := Scan {
  sc_claims : list nat;
  sc_active : nat -> bool;
  sc_impact : nat -> list Interval
}.

(** The claims recorded at [written] or later, the assertion's own excepted. *)
Definition eligible (written : Z) (own : option nat) (claim : nat) : Prop :=
  (written <= time claim)%Z /\ Some claim <> own.

#[export] Instance eligible_dec written own c : Decision (eligible written own c).
Proof. unfold eligible. apply _. Defined.

Definition scan_first (s : scan) (written : Z) (own : option nat) : option nat :=
  head (filter (eligible written own) (sc_claims s)).

Definition scan_next (s : scan) (written : Z) : option nat :=
  head (filter (fun c => sc_active s c = true /\ (written <= time c)%Z) (sc_claims s)).

Definition scan_hidden (s : scan) (written : Z) (own : option nat) : list Interval :=
  merge (filter (eligible written own) (sc_claims s) ≫= sc_impact s).

Definition scan_enter (s : scan) (claim : nat) : scan :=
  Scan (sc_claims s) (fun c => if decide (c = claim) then false else sc_active s c) (sc_impact s).

Definition scan_publish (s : scan) (claim : nat) (impact : list Interval) : scan :=
  Scan (sc_claims s) (sc_active s) (fun c => if decide (c = claim) then impact else sc_impact s c).

(** The index stands for the claims of [s], in the order they were recorded in. *)
Record represents (s : scan) (idx : FactSuccessorIndex) : Prop := {
  rp_ascending : StronglySorted lt (sc_claims s);
  rp_claims : ix_claims idx = sc_claims s;
  rp_position : ix_position idx = positions (sc_claims s);
  rp_times : ix_times idx = map time (in_time_order (sc_claims s));
  rp_time_position : ix_time_position idx = positions (in_time_order (sc_claims s));
  rp_first : ix_first idx = firsts (in_time_order (sc_claims s));
  rp_size : exists k, ix_size idx = 2 ^ k;
  rp_room : length (sc_claims s) <= ix_size idx;
  rp_active_ok : tree_ok None later_active (ix_size idx) (ix_active idx);
  rp_active : forall i, i < ix_size idx ->
    node_at None (ix_active idx) (ix_size idx + i) =
    match sc_claims s !! i with
    | Some c => if sc_active s c then Some (time c) else None
    | None => None
    end;
  rp_unions_ok : tree_ok [] union_of (ix_size idx) (ix_unions idx);
  rp_unions : forall i, i < ix_size idx ->
    node_at [] (ix_unions idx) (ix_size idx + i) =
    match in_time_order (sc_claims s) !! i with Some c => sc_impact s c | None => [] end
}.

(** ** Sorted lists and searches in them *)

Lemma claim_leb_total a b : claim_leb a b = true \/ claim_leb b a = true.
Proof.
  unfold claim_leb. rewrite !orb_true_iff, !andb_true_iff, !Z.ltb_lt, !Z.eqb_eq, !Nat.leb_le. lia.
Qed.

Lemma in_time_order_perm claims : in_time_order claims ≡ₚ claims.
Proof. apply stable_sort_perm. Qed.

Lemma in_time_order_sorted claims : Sorted Z.le (map time (in_time_order claims)).
Proof.
  unfold in_time_order. generalize (stable_sort_sorted claim_leb claim_leb_total claims).
  generalize (stable_sort claim_leb claims). intros l Hl.
  induction Hl as [|c l Hl IH Hhd]; simpl; [constructor|]. constructor; [done|].
  destruct Hhd as [|d l Hcd]; simpl; constructor. unfold leb_le, claim_leb in Hcd.
  rewrite orb_true_iff, andb_true_iff, Z.ltb_lt, Z.eqb_eq in Hcd. lia.
Qed.
End index.

Lemma bisect_left_le times x : bisect_left times x <= length times.
Proof. induction times as [|y l IH]; simpl; [lia|]. destruct (_ <? _)%Z; lia. Qed.

Lemma bisect_left_spec times x i v :
  Sorted Z.le times -> times !! i = Some v -> bisect_left times x <= i <-> (x <= v)%Z.
Proof.
  intros Hs%Sorted_StronglySorted; [|intros ???; lia].
  revert i; induction Hs as [|y l _ IH Hall]; intros i Hi; [done|]. simpl.
  destruct (Z.ltb_spec y x) as [Hlt|Hge].
  - destruct i as [|i]; simplify_eq/=; [lia|]. rewrite <-IH by done. lia.
  - split; [|lia]. intros _. destruct i as [|i]; simplify_eq/=; [lia|].
    rewrite Forall_forall in Hall. apply list_elem_of_lookup_2, Hall in Hi. lia.
Qed.

Lemma imap_pair_snoc {B} (l : list B) x : imap pair (l ++ [x]) = imap pair l ++ [(length l, x)].
Proof. rewrite imap_app. simpl. by rewrite Nat.add_0_r. Qed.

Lemma positions_lookup claims c i :
  NoDup claims -> positions claims !! c = Some i <-> claims !! i = Some c.
Proof.
  unfold positions. revert i; induction claims as [|x l IH] using rev_ind; intros i Hnd; simpl; [done|].
  apply NoDup_app in Hnd as (Hl & Hx & _). rewrite imap_pair_snoc, foldl_app. simpl.
  rewrite lookup_insert. case_decide as Hc.
  - subst. split.
    + intros [= <-]. by rewrite lookup_app_r, Nat.sub_diag.
    + intros Hi. apply lookup_app_Some in Hi as [Hi|[Hge Hi]].
      * apply list_elem_of_lookup_2 in Hi. destruct (Hx c Hi). by left.
      * apply lookup_lt_Some in Hi as Hlt. simpl in Hlt. f_equal. lia.
  - rewrite IH by done. rewrite lookup_app_Some. split; [by left|].
    intros [?|[Hge Hi]]; [done|]. destruct (i - length l) as [|n]; simplify_eq/=.
Qed.

Lemma fill_spec {A} (neutral : A) size (f : nat -> option A) l tree :
  size + length l <= length tree ->
  length (fill size f l tree) = length tree /\
  forall i, node_at neutral (fill size f l tree) (size + i) =
    match l !! i ≫= f with Some a => a | None => node_at neutral tree (size + i) end.
Proof.
  unfold fill. induction l as [|c l IH] using rev_ind; intros Hlen; [done|].
  rewrite length_app in Hlen. simpl in Hlen. rewrite imap_pair_snoc, foldl_app. simpl.
  destruct IH as [IHl IHn]; [lia|]. split; [destruct (f c); [rewrite length_insert|]; done|].
  intros i. specialize (IHn i). destruct (f c) as [a|] eqn:Hf.
  - rewrite node_at_insert by (rewrite IHl; lia). case_decide as Heq.
    + replace i with (length l) by lia. by rewrite lookup_app_r, Nat.sub_diag by lia; simpl; rewrite ?Hf.
    + rewrite IHn. destruct (decide (i < length l)).
      * by rewrite lookup_app_l.
      * rewrite !lookup_ge_None_2; [done|..]; rewrite ?length_app; simpl; lia.
  - rewrite IHn. destruct (decide (i < length l)); [by rewrite lookup_app_l|].
    rewrite (lookup_ge_None_2 l) by lia. destruct (decide (i = length l)) as [->|].
    + by rewrite lookup_app_r, Nat.sub_diag by lia; simpl; rewrite ?Hf.
    + rewrite lookup_ge_None_2; [done|]. rewrite length_app. simpl. lia.
Qed.

(** The first claim of a filtered list, by position and by value. *)
Lemma head_filter_first (P : nat -> Prop) `{!forall c, Decision (P c)} l i c :
  l !! i = Some c -> P c -> (forall j d, j < i -> l !! j = Some d -> ~ P d) -> head (filter P l) = Some c.
Proof.
  revert i; induction l as [|x l IH]; intros i Hi HP Hbefore; [done|]. rewrite filter_cons.
  destruct i as [|i]; simplify_eq/=; [by rewrite decide_True|].
  rewrite decide_False by (apply (Hbefore 0 x); [lia|done]). apply (IH i); [done..|].
  intros j d Hj Hd. apply (Hbefore (S j)); [lia|done].
Qed.

Definition least (r : option nat) (S : nat -> Prop) : Prop :=
  match r with Some m => S m /\ forall c, S c -> m <= c | None => forall c, ~ S c end.

Lemma least_unique r r' S : least r S -> least r' S -> r = r'.
Proof.
  destruct r as [m|], r' as [m'|]; simpl; intros H H'; [|naive_solver..|done].
  destruct H as [Hm Hle], H' as [Hm' Hle']. f_equal. specialize (Hle _ Hm'). specialize (Hle' _ Hm). lia.
Qed.

Lemma least_ext r S S' : (forall c, S c <-> S' c) -> least r S -> least r S'.
Proof. destruct r; simpl; naive_solver. Qed.

Lemma least_filter (P : nat -> Prop) `{!forall c, Decision (P c)} l :
  StronglySorted lt l -> least (head (filter P l)) (fun c => P c /\ c ∈ l).
Proof.
  induction 1 as [|x l Hs IH Hall]; [by intros c [_ ?%not_elem_of_nil]|]. rewrite filter_cons.
  rewrite Forall_forall in Hall. case_decide as HP; simpl.
  - split; [split; [done|by left]|]. intros c [_ [->|Hc]%elem_of_cons]; [lia|]. apply Hall in Hc. lia.
  - eapply least_ext; [|exact IH]. intros c. rewrite elem_of_cons. naive_solver.
Qed.

(** ** The two lowest claims of a suffix *)

Record lowest_two (l X : list nat) : Prop := {
  lt_sorted : StronglySorted lt l;
  lt_within : forall x, x ∈ l -> x ∈ X;
  lt_rest : forall x, x ∈ X -> x ∈ l \/ (length l = 2 /\ forall y, y ∈ l -> y < x)
}.

Lemma two_lowest_step l X c :
  lowest_two l X -> length l <= 2 -> c ∉ X ->
  lowest_two (two_lowest (l ++ [c])) (c :: X) /\ length (two_lowest (l ++ [c])) <= 2.
Proof.
  intros [Hs Hin Hrest] Hlen Hc. split; [|apply length_take_le_l || (unfold two_lowest; rewrite length_take; lia)].
  assert (Hne : forall x, x ∈ l -> x <> c) by (intros x Hx ->; by apply Hc, Hin).
  destruct l as [|a [|b [|]]]; simpl in Hlen; [..|lia].
  - split.
    + repeat constructor.
    + intros x. unfold two_lowest. simpl. rewrite list_elem_of_singleton, elem_of_cons. tauto.
    + intros x [->|Hx]%elem_of_cons; [left; by left|]. destruct (Hrest x Hx) as [?%not_elem_of_nil|[? _]]; done.
  - assert (a <> c) by (apply Hne; left). unfold two_lowest. simpl.
    assert (Ha : a ∈ X) by (apply Hin; left).
    assert (Hal : forall x, x ∈ X -> x = a).
    { intros x Hx. destruct (Hrest x Hx) as [?%list_elem_of_singleton|[? _]]; done. }
    destruct (Nat.leb_spec a c); simpl; split;
      [repeat constructor; lia|set_solver|set_solver|repeat constructor; lia|set_solver|set_solver].
  - assert (a <> c) by (apply Hne; left). assert (b <> c) by (apply Hne; right; left).
    inversion_clear Hs as [|? ? _ Hab]. inversion_clear Hab as [|? ? Hlt _].
    assert (Ha : a ∈ X) by (apply Hin; left). assert (Hb : b ∈ X) by (apply Hin; right; left).
    assert (Hx2 : forall x, x ∈ X -> x = a \/ x = b \/ (a < x /\ b < x)).
    { intros x Hx. destruct (Hrest x Hx) as [Hx'|[_ Hx']].
      - rewrite !elem_of_cons in Hx'. destruct Hx' as [?|[?|?%not_elem_of_nil]]; auto; done.
      - right; right. split; apply Hx'; [left|right; left]. }
    assert (Hle : (a <=? b) = true) by (apply Nat.leb_le; lia).
    unfold two_lowest. simpl.
    destruct (Nat.leb_spec b c); simpl; [|destruct (Nat.leb_spec a c); simpl]; rewrite ?Hle; simpl;
      (split; [repeat constructor; lia|set_solver|]);
      intros x [->|Hx]%elem_of_cons; rewrite ?elem_of_cons;
      try (destruct (Hx2 x Hx) as [->|[->|[??]]]);
      first [by left; auto|by right; split; [done|]; intros y; rewrite !elem_of_cons, elem_of_nil; intuition lia].
Qed.

Lemma firsts_spec ordered p :
  NoDup ordered -> p <= length ordered ->
  exists l, firsts ordered !! p = Some l /\ lowest_two l (drop p ordered) /\ length l <= 2.
Proof.
  intros Hnd. revert p; induction Hnd as [|c X Hc Hnd IH]; intros p Hp; simpl in *.
  { exists []. replace p with 0 by lia. split_and!; [done| |simpl; lia].
    split; [constructor|by intros ? ?%not_elem_of_nil..]. }
  destruct p as [|p]; [|apply IH; lia].
  destruct (IH 0) as (l & Hl & Hlow & Hlen); [lia|]. destruct (firsts X) as [|l' rest]; simplify_eq/=.
  destruct (two_lowest_step l X c) as [? ?]; [done..|]. by eexists.
Qed.

Lemma least_lowest_two l X own :
  lowest_two l X -> least (head (filter (fun c => Some c <> own) l)) (fun c => c ∈ X /\ Some c <> own).
Proof.
  intros [Hs Hin Hrest]. pose proof (least_filter (fun c => Some c <> own) l Hs) as Hl.
  destruct (head _) as [m|]; simpl in *.
  - destruct Hl as [[Hm Hml] Hle]. split; [by auto|]. intros c [Hc Hown].
    destruct (Hrest c Hc) as [?|[_ Hlt]]; [by apply Hle|]. specialize (Hlt m Hml). lia.
  - intros c [Hc Hown]. destruct (Hrest c Hc) as [?|[Hlen _]]; [by eapply Hl|].
    destruct l as [|a [|b [|]]]; simplify_eq/=. inversion_clear Hs as [|? ? _ Hall].
    inversion_clear Hall as [|? ? Hab _].
    assert (Hboth : forall x, x ∈ [a; b] -> Some x = own).
    { intros x Hx. destruct (decide (Some x = own)); [done|]. exfalso. by eapply (Hl x). }
    assert (Some a = Some b) as [= ->]; [|lia].
    rewrite (Hboth a), (Hboth b); [done|right; left|left].
Qed.

(** ** The index answers as the claims it stands for *)
Section refinement.
Context (time : nat -> Z).

Lemma ascending_nodup (l : list nat) : StronglySorted lt l -> NoDup l.
Proof.
  induction 1 as [|x l _ IH Hall]; constructor; [|done]. rewrite Forall_forall in Hall.
  intros Hx. specialize (Hall x Hx). lia.
Qed.

Lemma elem_of_in_time_order claims c : c ∈ in_time_order time claims <-> c ∈ claims.
Proof. by rewrite in_time_order_perm. Qed.

Section read.
Context (s : scan) (idx : FactSuccessorIndex) (Hr : represents time s idx).

Lemma ordered_nodup : NoDup (in_time_order time (sc_claims s)).
Proof. rewrite in_time_order_perm. by eapply ascending_nodup, rp_ascending. Qed.

(** The claims from position [bisect_left] on are the ones recorded at [written] or later. *)
Lemma from_written written i c :
  in_time_order time (sc_claims s) !! i = Some c ->
  bisect_left (ix_times idx) written <= i <-> (written <= time c)%Z.
Proof.
  intros Hi. rewrite (rp_times _ _ _ Hr). apply bisect_left_spec; [apply in_time_order_sorted|].
  by rewrite list_lookup_fmap, Hi.
Qed.

Lemma first_claim_scan written own : first_claim idx written own = scan_first time s written own.
Proof.
  apply (least_unique _ _ (fun c => eligible time written own c /\ c ∈ sc_claims s));
    [|apply least_filter, (rp_ascending _ _ _ Hr)].
  unfold first_claim. rewrite (rp_first _ _ _ Hr).
  set (b := bisect_left (ix_times idx) written).
  destruct (firsts_spec (in_time_order time (sc_claims s)) b) as (l & -> & Hlow & _).
  { apply ordered_nodup. }
  { unfold b. rewrite (rp_times _ _ _ Hr). etrans; [apply bisect_left_le|]. by rewrite length_map. }
  simpl. eapply least_ext; [|by apply least_lowest_two].
  intros c. unfold eligible. rewrite <-(elem_of_in_time_order (sc_claims s) c).
  rewrite !list_elem_of_lookup. setoid_rewrite lookup_drop. split.
  - intros [[i Hi] Hown]. assert (b <= b + i) as Hw%(from_written _ _ _ Hi) by lia. eauto.
  - intros [[Hw Hown] [i Hi]]. apply (from_written _ _ _ Hi) in Hw. split; [|done].
    exists (i - b). by replace (b + (i - b)) with i by (unfold b; lia).
Qed.

Lemma reaches_latest written a b :
  reaches written (later_active a b) = true <-> reaches written a = true \/ reaches written b = true.
Proof. destruct a, b; simpl; rewrite ?Z.leb_le; intuition (lia || done). Qed.

(** A leaf that reaches [written] is an active claim recorded at [written] or later. *)
Lemma active_leaf written i :
  i < ix_size idx ->
  reaches written (node_at None (ix_active idx) (ix_size idx + i)) = true <->
  exists c, sc_claims s !! i = Some c /\ sc_active s c = true /\ (written <= time c)%Z.
Proof.
  intros Hi. rewrite (rp_active _ _ _ Hr) by done. destruct (sc_claims s !! i) as [c|]; simpl.
  - destruct (sc_active s c) eqn:Ha; simpl; rewrite ?Z.leb_le; naive_solver.
  - naive_solver.
Qed.

Lemma next_assertion_scan written : next_assertion idx written = Ok (scan_next time s written).
Proof.
  destruct (rp_size _ _ _ Hr) as [k Hk]. pose proof (rp_active_ok _ _ _ Hr) as Hok.
  pose proof (rp_room _ _ _ Hr) as Hroom.
  assert (Hroot : reaches written (node_at None (ix_active idx) 1) = true <-> exists leaf,
            1 * 2 ^ k <= leaf < (1 + 1) * 2 ^ k /\ reaches written (node_at None (ix_active idx) leaf) = true).
  { apply (node_spec None later_active (fun a => reaches written a = true) (reaches_latest written)
             (ix_size idx)); [done|lia..]. }
  unfold next_assertion, scan_next. destruct (reaches written (node_at None _ 1)) eqn:Hreach.
  - destruct (descend_spec None later_active (fun a => reaches written a = true) (reaches_latest written)
                (ix_size idx) (ix_size idx) (reaches written) (ix_active idx) k 1) as (Hin & Hleaf & Hfirst).
    + done.
    + done.
    + lia.
    + lia.
    + lia.
    + rewrite Hk. apply Nat.lt_le_incl, Nat.pow_gt_lin_r. lia.
    + done.
    + set (node := descend _ _ _ _ _ _) in *. replace node with (ix_size idx + (node - ix_size idx)) in Hleaf by lia.
      apply active_leaf in Hleaf as (c & Hc & Ha & Hw); [|lia].
      rewrite (rp_claims _ _ _ Hr), Hc. do 2 f_equal. symmetry.
      eapply head_filter_first; [exact Hc|done|]. intros j d Hj Hd HP.
      apply (Hfirst (ix_size idx + j)); [lia|]. apply active_leaf; [lia|]. by exists d.
  - f_equal. symmetry. rewrite list_filter_none; [done|]. apply Forall_forall. intros c Hc [Ha Hw].
    apply list_elem_of_lookup in Hc as [i Hi]. apply lookup_lt_Some in Hi as Hlt.
    assert (false = true); [|done]. apply Hroot. exists (ix_size idx + i). split; [lia|].
    apply active_leaf; [lia|]. by exists c.
Qed.

(** *** Over which instants a range of claims hides *)

Definition leaf_covers (low high : nat) (t : Z) : Prop :=
  exists leaf, low <= leaf < high /\ covers_time (node_at [] (ix_unions idx) leaf) t.

Lemma leaf_covers_split low mid high t :
  low <= mid <= high -> leaf_covers low high t <-> leaf_covers low mid t \/ leaf_covers mid high t.
Proof.
  intros Hm. unfold leaf_covers. split.
  - intros (leaf & ? & ?). destruct (decide (leaf < mid)); [left|right]; exists leaf; (split; [lia|done]).
  - intros [(leaf & ? & ?)|(leaf & ? & ?)]; exists leaf; (split; [lia|done]).
Qed.

Lemma leaf_covers_mul x low mid high t :
  low <= mid <= high ->
  leaf_covers (low * x) (high * x) t <-> leaf_covers (low * x) (mid * x) t \/ leaf_covers (mid * x) (high * x) t.
Proof. intros [??]. apply leaf_covers_split. split; by apply Nat.mul_le_mono_r. Qed.

Lemma node_covers h node t :
  ix_size idx <= node * 2 ^ h -> (node + 1) * 2 ^ h <= 2 * ix_size idx -> 1 <= node ->
  covers_time (node_at [] (ix_unions idx) node) t <-> leaf_covers (node * 2 ^ h) ((node + 1) * 2 ^ h) t.
Proof.
  intros. apply (node_spec [] union_of (fun l => covers_time l t)) with (size := ix_size idx); [|by apply Hr|done..].
  intros a b. unfold union_of. by rewrite covers_merge, covers_time_app.
Qed.

Lemma odd_half n : n = 2 * (n / 2) + (if Nat.odd n then 1 else 0).
Proof.
  pose proof (Nat.div_mod_eq n 2). rewrite <-Nat.bit0_mod in *. rewrite Nat.bit0_odd in *.
  destruct (Nat.odd n); simpl in *; lia.
Qed.

Lemma range_spans_spec fuel h low high spans t :
  ix_size idx <= low * 2 ^ h -> high * 2 ^ h <= 2 * ix_size idx -> 1 <= low -> high <= fuel ->
  covers_time (range_spans fuel (ix_unions idx) low high spans) t <->
  covers_time spans t \/ leaf_covers (low * 2 ^ h) (high * 2 ^ h) t.
Proof.
  revert h low high spans; induction fuel as [|fuel IH]; intros h low high spans Hlow Hhigh Hpos Hfuel;
    cbn [range_spans].
  { split; [by left|]. intros [?|(leaf & ? & _)]; [done|lia]. }
  assert (0 < 2 ^ h) by (apply Nat.neq_0_lt_0, Nat.pow_nonzero; lia).
  case_decide as Hlt; [|split; [by left|]; intros [?|(leaf & ? & _)]; [done|nia]].
  pose proof (odd_half low) as Hl. pose proof (odd_half high) as Hh.
  assert (Hrec : forall low' high' spans', low <= low' <= low + 1 -> high' <= high <= high' + 1 ->
            low' = 2 * (low' / 2) -> high' = 2 * (high' / 2) -> low' <= high' ->
            covers_time (range_spans fuel (ix_unions idx) (low' / 2) (high' / 2) spans') t <->
            covers_time spans' t \/ leaf_covers (low' * 2 ^ h) (high' * 2 ^ h) t).
  { intros low' high' spans' ?????.
    rewrite (IH (S h)); [|rewrite ?Nat.pow_succ_r'; nia..|nia|nia].
    rewrite Nat.pow_succ_r'. by replace (low' / 2 * (2 * 2 ^ h)) with (low' * 2 ^ h) by nia;
      replace (high' / 2 * (2 * 2 ^ h)) with (high' * 2 ^ h) by nia. }
  assert (Hhalf : forall n, S (2 * n) / 2 = n /\ 2 * n / 2 = n /\ S (S (2 * n)) / 2 = S n).
  { intros n. pose proof (half_bounds (S (2 * n))). pose proof (half_bounds (2 * n)).
    pose proof (half_bounds (S (S (2 * n)))). lia. }
  assert (Hnode : forall n, low <= n < high -> covers_time (node_at [] (ix_unions idx) n) t <->
            leaf_covers (n * 2 ^ h) ((n + 1) * 2 ^ h) t) by (intros n Hn; apply node_covers; nia).
  set (l := low / 2) in *. set (k := high / 2) in *.
  destruct (Nat.odd low), (Nat.odd high); cbv beta iota in Hl, Hh |- *.
  - replace (high - 1) with (2 * k) by lia. replace (S low) with (2 * S l) by lia.
    rewrite Hrec; [|pose proof (Hhalf k); pose proof (Hhalf (S l)); lia..].
    rewrite !covers_time_app, !Hnode by lia.
    rewrite (leaf_covers_mul (2 ^ h) low (2 * S l) high) by lia.
    rewrite (leaf_covers_mul (2 ^ h) (2 * S l) (2 * k) high) by lia.
    replace (low + 1) with (2 * S l) by lia. replace (2 * k + 1) with high by lia. tauto.
  - replace (S low) with (2 * S l) by lia.
    rewrite Hrec; [|pose proof (Hhalf k); pose proof (Hhalf (S l)); lia..].
    rewrite !covers_time_app, !Hnode by lia.
    rewrite (leaf_covers_mul (2 ^ h) low (2 * S l) high) by lia.
    replace (low + 1) with (2 * S l) by lia. tauto.
  - replace (high - 1) with (2 * k) by lia.
    rewrite Hrec; [|pose proof (Hhalf k); pose proof (Hhalf l); lia..].
    rewrite !covers_time_app, !Hnode by lia.
    rewrite (leaf_covers_mul (2 ^ h) low (2 * k) high) by lia.
    replace (2 * k + 1) with high by lia. tauto.
  - apply Hrec; lia.
Qed.

Lemma length_ordered : length (in_time_order time (sc_claims s)) = length (sc_claims s).
Proof. by rewrite in_time_order_perm. Qed.

Lemma range_covers low high t :
  high <= length (sc_claims s) ->
  covers_time (range_ idx low high) t <->
  exists i c, low <= i < high /\ in_time_order time (sc_claims s) !! i = Some c /\ covers_time (sc_impact s c) t.
Proof.
  intros Hhigh. pose proof (rp_room _ _ _ Hr) as Hroom. destruct (rp_size _ _ _ Hr) as [k Hk].
  assert (0 < 2 ^ k) by (apply Nat.neq_0_lt_0, Nat.pow_nonzero; lia).
  unfold range_. rewrite covers_merge, (range_spans_spec _ 0), covers_time_nil by (simpl; lia).
  rewrite Nat.pow_0_r, !Nat.mul_1_r. split.
  - intros [[]|(leaf & Hin & Ht)]. replace leaf with (ix_size idx + (leaf - ix_size idx)) in Ht by lia.
    rewrite (rp_unions _ _ _ Hr) in Ht by lia.
    destruct (_ !! _) as [c|] eqn:Hc; [|by apply covers_time_nil in Ht].
    exists (leaf - ix_size idx), c. split_and!; [lia|lia|done|done].
  - intros (i & c & Hi & Hc & Ht). right. exists (ix_size idx + i). split; [lia|].
    rewrite (rp_unions _ _ _ Hr) by lia. by rewrite Hc.
Qed.

Lemma hidden_scan written own : hidden idx written own = scan_hidden time s written own.
Proof.
  pose proof ordered_nodup as Hnd. set (ordered := in_time_order time (sc_claims s)) in *.
  assert (Hlen : length (ix_times idx) = length (sc_claims s)).
  { by rewrite (rp_times _ _ _ Hr), length_map, length_ordered. }
  assert (Hscan : forall t, covers_time (filter (eligible time written own) (sc_claims s) ≫= sc_impact s) t <->
            exists i c, bisect_left (ix_times idx) written <= i /\ ordered !! i = Some c /\ Some c <> own /\
              covers_time (sc_impact s c) t).
  { intros t. rewrite covers_time_bind. split.
    - intros (c & [[Hw Hown] Hc]%list_elem_of_filter & Ht).
      apply elem_of_in_time_order, list_elem_of_lookup in Hc as [i Hi].
      exists i, c. split_and!; [by eapply from_written|done..].
    - intros (i & c & Hi & Hc & Hown & Ht). exists c. split; [|done]. apply list_elem_of_filter.
      split; [split; [by eapply from_written|done]|].
      apply elem_of_in_time_order. by apply list_elem_of_lookup_2 in Hc. }
  set (low := bisect_left _ _) in *. unfold hidden, scan_hidden. fold low.
  assert (Hlong : forall i c, ordered !! i = Some c -> i < length (sc_claims s)).
  { intros i c Hc%lookup_lt_Some. unfold ordered in Hc. by rewrite length_ordered in Hc. }
  (* The assertion's own claim is not in the range: the whole suffix is read at once. *)
  assert (Hwhole : (forall i c, low <= i -> ordered !! i = Some c -> Some c <> own) ->
            range_ idx low (length (ix_times idx)) =
            merge (filter (eligible time written own) (sc_claims s) ≫= sc_impact s)).
  { intros Hno. rewrite <-(merge_canonical (range_ idx low (length (ix_times idx)))).
    - unfold range_. apply merge_canonical. intros t. by rewrite covers_merge.
    - intros t. rewrite Hscan, range_covers by lia. fold ordered. split.
      + intros (i & c & Hi & Hc & Ht). exists i, c. split_and!; [lia|done|eapply Hno; [|done]; lia|done].
      + intros (i & c & Hi & Hc & Hown & Ht). pose proof (Hlong _ _ Hc). exists i, c. split; [lia|done]. }
  assert (Hpos : forall o i, ix_time_position idx !! o = Some i <-> ordered !! i = Some o).
  { intros o i. rewrite (rp_time_position _ _ _ Hr). by apply positions_lookup. }
  destruct (own ≫= _) as [p|] eqn:Hp; [case_decide as Hlow|].
  - destruct own as [o|]; [|done]. simpl in Hp. apply Hpos in Hp.
    apply merge_canonical. intros t. pose proof (Hlong _ _ Hp).
    rewrite Hscan, covers_time_app, !range_covers by lia. fold ordered. split.
    + intros [(i & c & Hi & Hc & Ht)|(i & c & Hi & Hc & Ht)]; exists i, c; (split_and!; [lia|done| |done]);
        intros [= ->]; assert (i = p) by (by eapply NoDup_lookup); lia.
    + intros (i & c & Hi & Hc & Hown & Ht). pose proof (Hlong _ _ Hc).
      assert (i <> p) by congruence.
      destruct (decide (i < p)); [left|right]; exists i, c; (split; [lia|done]).
  - destruct own as [o|]; [|done]. simpl in Hp. apply Hpos in Hp. apply Hwhole.
    intros i c Hi Hc [= ->]. assert (i = p) by (by eapply NoDup_lookup). lia.
  - apply Hwhole. intros i c Hi Hc <-. simpl in Hp. apply Hpos in Hc. congruence.
Qed.

(** *** Updates *)

Lemma claim_position (l : list nat) c :
  NoDup l -> c ∈ l -> exists p, positions l !! c = Some p /\ l !! p = Some c /\ p < length l.
Proof.
  intros Hnd [p Hp]%list_elem_of_lookup. exists p. apply lookup_lt_Some in Hp as Hlt.
  split; [by apply positions_lookup|done].
Qed.

Lemma enter_represents c :
  c ∈ sc_claims s -> exists idx', enter idx c = Ok idx' /\ represents time (scan_enter s c) idx'.
Proof.
  intros Hc. pose proof (rp_room _ _ _ Hr) as Hroom.
  destruct (claim_position (sc_claims s) c) as (p & Hp & Hpc & Hlt); [by eapply ascending_nodup, rp_ascending|done|].
  unfold enter. rewrite (rp_position _ _ _ Hr), Hp. eexists; split; [done|].
  destruct (set_leaf_ok None later_active (ix_size idx) (ix_size idx + p) None (ix_active idx)) as [Hok Hleaf];
    [apply Hr|lia|].
  split; simpl; try apply Hr; try done.
  intros i Hi. rewrite Hleaf, (rp_active _ _ _ Hr) by lia. case_decide as Heq.
  - replace i with p by lia. by rewrite Hpc, decide_True by done.
  - destruct (sc_claims s !! i) as [d|] eqn:Hd; [|done]. rewrite decide_False; [done|]. intros ->.
    apply Heq. f_equal. eapply NoDup_lookup; [by eapply ascending_nodup, rp_ascending|done..].
Qed.

Lemma publish_represents c impact :
  c ∈ sc_claims s -> exists idx', publish idx c impact = Ok idx' /\ represents time (scan_publish s c impact) idx'.
Proof.
  intros Hc. pose proof (rp_room _ _ _ Hr) as Hroom.
  destruct (claim_position (in_time_order time (sc_claims s)) c) as (p & Hp & Hpc & Hlt);
    [apply ordered_nodup|by apply elem_of_in_time_order|]. rewrite length_ordered in Hlt.
  unfold publish. rewrite (rp_time_position _ _ _ Hr), Hp. eexists; split; [done|].
  destruct (set_leaf_ok [] union_of (ix_size idx) (ix_size idx + p) impact (ix_unions idx)) as [Hok Hleaf];
    [apply Hr|lia|].
  split; simpl; try apply Hr; try done.
  intros i Hi. rewrite Hleaf, (rp_unions _ _ _ Hr) by lia. case_decide as Heq.
  - replace i with p by lia. by rewrite Hpc, decide_True by done.
  - destruct (_ !! i) as [d|] eqn:Hd; [|done]. rewrite decide_False; [done|]. intros ->.
    apply Heq. f_equal. eapply NoDup_lookup; [apply ordered_nodup|done..].
Qed.
End read.

(** *** The index as it is built *)

Definition new_scan (claims : list nat) (has_child : nat -> bool) (own_windows : nat -> list Interval) : scan :=
  Scan claims has_child own_windows.

Lemma bit_length_room n : n <= 2 ^ bit_length (Z.of_nat n - 1).
Proof.
  unfold bit_length. case_decide as H0; [simpl; lia|].
  destruct (decide (n = 0)) as [->|Hn]; [lia|].
  rewrite Z.abs_eq by lia. pose proof (Z.log2_spec (Z.of_nat n - 1)) as [_ Hlt]; [lia|].
  apply Nat2Z.inj_le. rewrite Nat2Z.inj_pow. change (Z.of_nat 2) with 2%Z.
  rewrite Nat2Z.inj_succ, Z2Nat.id by apply Z.log2_nonneg. lia.
Qed.

Lemma new_index_represents claims has_child own_windows :
  StronglySorted lt claims ->
  represents time (new_scan claims has_child own_windows) (new_index time claims has_child own_windows).
Proof.
  intros Hs. pose proof (bit_length_room (length claims)) as Hroom.
  set (size := 2 ^ bit_length (Z.of_nat (length claims) - 1)) in *.
  assert (Hrep : forall {A} (a : A) i, node_at a (replicate (2 * size) a) i = a).
  { intros A a i. unfold node_at. destruct (_ !! i) as [b|] eqn:Hb; [|done].
    by apply lookup_replicate in Hb as [-> _]. }
  assert (Hleaves : forall {A} (a : A) (op : A -> A -> A) f l, length l = length claims ->
            let tree := build a op size (fill size f l (replicate (2 * size) a)) in
            tree_ok a op size tree /\
            forall i, node_at a tree (size + i) = match l !! i ≫= f with Some v => v | None => a end).
  { intros A a op f l Hl. destruct (fill_spec a size f l (replicate (2 * size) a)) as [Hlen Hfill].
    { rewrite length_replicate. lia. }
    rewrite length_replicate in Hlen. destruct (build_ok a op size _ Hlen) as [Hok Hleaf].
    split; [done|]. intros i. rewrite Hleaf, Hfill by lia. by rewrite Hrep. }
  destruct (Hleaves _ None later_active (fun c => if has_child c then Some (Some (time c)) else None) claims eq_refl)
    as [Hact Hactl].
  destruct (Hleaves _ [] union_of (fun c => Some (own_windows c)) (in_time_order time claims)) as [Huni Hunil].
  { by rewrite in_time_order_perm. }
  split; try done.
  - by eexists.
  - intros i _. unfold new_index. cbn [ix_active ix_size sc_claims sc_active new_scan]. fold size.
    rewrite Hactl. destruct (claims !! i) as [c|]; simpl; [|done]. by destruct (has_child c).
  - intros i _. unfold new_index. cbn [ix_unions ix_size sc_claims sc_impact new_scan]. fold size.
    rewrite Hunil. by destruct (_ !! i).
Qed.

(** *** Any history of visits *)

Inductive index_op :=
| Enter (claim : nat)
| Publish (claim : nat) (impact : list Interval).

Definition op_claim (o : index_op) : nat := match o with Enter c | Publish c _ => c end.

Definition index_step (idx : FactSuccessorIndex) (o : index_op) : result FactSuccessorIndex :=
  match o with Enter c => enter idx c | Publish c impact => publish idx c impact end.

Definition scan_step (s : scan) (o : index_op) : scan :=
  match o with Enter c => scan_enter s c | Publish c impact => scan_publish s c impact end.

Lemma index_step_represents s idx o :
  represents time s idx -> op_claim o ∈ sc_claims s ->
  exists idx', index_step idx o = Ok idx' /\ represents time (scan_step s o) idx'.
Proof. destruct o; simpl; intros; [by apply enter_represents|by apply publish_represents]. Qed.

Lemma scan_step_claims s o : sc_claims (scan_step s o) = sc_claims s.
Proof. by destruct o. Qed.

Lemma index_run_represents s idx ops :
  represents time s idx -> Forall (fun o => op_claim o ∈ sc_claims s) ops ->
  exists idx', result_foldl index_step idx ops = Ok idx' /\ represents time (foldl scan_step s ops) idx'.
Proof.
  revert s idx; induction ops as [|o ops IH]; intros s idx Hr Hops; simpl; [by eexists|].
  inversion_clear Hops as [|? ? Ho Hrest].
  destruct (index_step_represents s idx o) as (idx' & -> & Hr'); [done..|]. simpl.
  apply IH; [done|]. by rewrite scan_step_claims.
Qed.

(** C10: the successor index is a scan of its claims.  Built from claims in the order they
    were recorded in and taken through any sequence of [enter] and [publish] on them, the
    index of two implicit trees and a table of lowest claims never raises, and answers
    [first_claim], [next_assertion] and [hidden] exactly as reading every claim does: the
    first eligible claim, the first claim still to be visited, and the union, in normal
    form, of the instants over which every eligible claim hides, the assertion's own claim
    excepted. *)
Theorem index_refines_scan claims has_child own_windows ops
    (Hclaims : StronglySorted lt claims) (Hops : Forall (fun o => op_claim o ∈ claims) ops) :
  let s := foldl scan_step (new_scan claims has_child own_windows) ops in
  exists idx, result_foldl index_step (new_index time claims has_child own_windows) ops = Ok idx /\
    forall written own,
      first_claim idx written own = scan_first time s written own /\
      next_assertion idx written = Ok (scan_next time s written) /\
      hidden idx written own = scan_hidden time s written own.
Proof.
  intros s. destruct (index_run_represents (new_scan claims has_child own_windows)
    (new_index time claims has_child own_windows) ops) as (idx & Hrun & Hr);
    [by apply new_index_represents|done|].
  exists idx. split; [done|]. intros written own.
  split_and!; [by apply first_claim_scan|by apply next_assertion_scan|by apply hidden_scan].
Qed.
End refinement.

Example index_ex :
  let time c := nth c [5; 3; 9]%Z 0%Z in
  let idx := new_index time [0; 1; 2] (fun _ => true) (fun c => [(Z.of_nat c, Z.of_nat c + 2)%Z]) in
  first_claim idx 4 (Some 0) = Some 2 /\ next_assertion idx 4 = Ok (Some 0) /\
  hidden idx 3 (Some 2) = [(0, 3)%Z].
Proof. vm_compute. done. Qed.

Lemma index_refines_scan_witness :
  let time c := nth c [5; 3; 9]%Z 0%Z in
  let ops := [Enter 0; Publish 1 [(4, 8)%Z]] in
  exists idx, result_foldl index_step (new_index time [0; 1; 2] (fun _ => true) (fun _ => [(1, 2)%Z])) ops = Ok idx /\
    next_assertion idx 2 = Ok (Some 1) /\ hidden idx 2 (Some 0) = [(1, 2); (4, 8)]%Z.
Proof.
  intros time ops.
  destruct (index_refines_scan time [0; 1; 2] (fun _ => true) (fun _ => [(1, 2)%Z]) ops) as (idx & Hrun & Hans).
  - repeat constructor.
  - repeat (constructor; [set_solver|]). constructor.
  - exists idx. split; [done|]. destruct (Hans 2%Z (Some 0)) as (_ & -> & ->). vm_compute. done.
Defined.
