(* ===== verification/FactProjection.v ===== *)
(** * FactProjection: what a ledger's history says (src/recall/fact_projection.py)

    Which assertions count, which are retracted or withdrawn, and over which instants each
    is hidden by the ones that supersede it.  [fact_supersession] is the code's iterative
    depth-first search over the successor indexes: a stack, a fuel of twice the number of
    claims, and exceptions as values; that it always returns, and what it returns, are
    theorems of FactProjectionFacts. *)
From S2P Require Import Prelude Text Float64 Frontmatter Intervals FactEvents SegmentTree SuccessorIndex.

(** ** Request ids the ledger mints *)

Definition SUPERSESSION_REQUEST_SUFFIX : string := ":supersession".
Definition RETRACTION_REQUEST_PREFIX : string := "retraction:".
Definition WITHDRAWAL_REQUEST_PREFIX : string := "withdrawal:".
Definition STATED_REQUEST_PREFIX : string := "stated:".

Definition reserved_request_id (id : string) : bool :=
  ends_with id SUPERSESSION_REQUEST_SUFFIX ||
  existsb (starts_with id) [RETRACTION_REQUEST_PREFIX; WITHDRAWAL_REQUEST_PREFIX; STATED_REQUEST_PREFIX].

(** ** Applications, retractions and withdrawals *)

Definition asserts_fact (e : FactEvent) : bool :=
  bool_decide (ev_type e = Asserted) && negb (bool_decide (decision_code e = DUPLICATE)).

Definition withdrawn_event_ids (events : list FactEvent) : gset string :=
  list_to_set (events ≫= fun e =>
    if bool_decide (ev_type e = Withdrawn) && starts_with (request_id e) WITHDRAWAL_REQUEST_PREFIX
    then [drop_first (String.length WITHDRAWAL_REQUEST_PREFIX) (request_id e)] else []).

(** [replace(event, supersedes_fact_ids=..., created_at=...)]: a duplicate that stands in
    for the application it repeats. *)
Definition standing_in (e repeated : FactEvent) : FactEvent :=
  {| event_id := event_id e; ev_type := ev_type e; tenant_id := tenant_id e;
     generation_id := generation_id e; ev_fact := ev_fact e; fact_id := fact_id e;
     evidence_cards := evidence_cards e; supersedes_fact_ids := supersedes_fact_ids repeated;
     request_id := request_id e; writer := writer e; decision_code := decision_code e;
     created_at := created_at repeated; lease_token := lease_token e |}.

Definition count_application (withdrawn : gset string)
    (st : list (string * FactEvent) * gmap string FactEvent) (e : FactEvent) :=
  let '(counted, latest) := st in
  let count e f := (odict_set (event_id e) e counted, <[f := e]> latest) in
  match ev_type e, fact_id e with
  | Asserted, Some f =>
      if asserts_fact e then count e f
      else match latest !! f with
           | Some repeated => if decide (event_id repeated ∈ withdrawn) then count (standing_in e repeated) f else st
           | None => st
           end
  | _, _ => st
  end.

(** [applications]: by event id, in ledger order. *)
Definition applications (events : list FactEvent) : list (string * FactEvent) :=
  (foldl (count_application (withdrawn_event_ids events)) ([], ∅) events).1.

Definition RetractionKey : Type := (option string * string * gset string)%type.

Definition card_ids (e : FactEvent) : gset string := list_to_set (ec_card_id <$> evidence_cards e).

Definition retraction_key (e : FactEvent) : RetractionKey := (fact_id e, generation_id e, card_ids e).

(** [retracted_keys], as a list that is only searched. *)
Definition retracted_keys (events : list FactEvent) : list RetractionKey :=
  (events ≫= fun e =>
     if decide (ev_type e = Retracted)
     then (fun f => (Some f, generation_id e, card_ids e)) <$> supersedes_fact_ids e else []) ++
  (retraction_key <$> filter (fun e => event_id e ∈ withdrawn_event_ids events) events).

(** ** Claims: what supersedes what *)

(** A successor, the assertion its windows pass through, and its own window. *)
Record claim := Claim {
  cl_event : FactEvent;
  cl_child : option FactEvent;
  cl_own : list Interval
}.

Record collected := Collected {
  co_by_fact : list (string * list FactEvent);
  co_successors : list (FactEvent * option FactWindow);
  co_paired : gset string
}.

Definition collect_application (st : collected) (e : FactEvent) : collected :=
  match fact_id e with
  | None => st
  | Some f =>
      let by_fact := odict_push f e (co_by_fact st) in
      match supersedes_fact_ids e, ev_fact e with
      | _ :: _, Some fact =>
          Collected by_fact (co_successors st ++ [(e, Some (fact_window fact))])
            ({[request_id e +:+ SUPERSESSION_REQUEST_SUFFIX]} ∪ co_paired st)
      | _ :: _, None =>
          Collected by_fact
            (if asserts_fact e then co_successors st else co_successors st ++ [(e, None)]) (co_paired st)
      | [], _ => Collected by_fact (co_successors st) (co_paired st)
      end
  end.

Definition collect_receipt (st : collected) (e : FactEvent) : collected :=
  if bool_decide (ev_type e = SupersededEvent) && negb (bool_decide (request_id e ∈ co_paired st))
  then Collected (co_by_fact st) (co_successors st ++ [(e, fact_window <$> ev_fact e)]) (co_paired st)
  else st.

Definition collect (events : list FactEvent) : collected :=
  foldl collect_receipt
    (foldl collect_application (Collected [] [] ∅) (applications events).*2) events.

(** [withdrawn_for]. *)
Definition withdrawn_for (withdrawn : gset string) (successor : FactEvent) : option string :=
  if decide (event_id successor ∈ withdrawn) then Some (event_id successor)
  else if bool_decide (ev_type successor = SupersededEvent) && ends_with (event_id successor) "_sup"
  then let holder := drop_last 4 (event_id successor) in
       if decide (holder ∈ withdrawn) then Some holder else None
  else None.

Definition events_by_id (events : list FactEvent) : gmap string FactEvent :=
  foldl (fun m e => <[event_id e := e]> m) ∅ events.

Definition claim_of (withdrawn : gset string) (by_id : gmap string FactEvent)
    (s : FactEvent * option FactWindow) : claim :=
  let holder := withdrawn_for withdrawn s.1 in
  Claim s.1
    (if decide (ev_type s.1 = Asserted) then Some s.1 else by_id !! default "" holder)
    (match holder with None => [span s.2] | Some _ => [] end).

(** ** The search *)

Abbreviation Indexes := (gmap string FactSuccessorIndex).

(** One update of each index a claim has an entry in. *)
Definition update_each (op : FactSuccessorIndex -> result FactSuccessorIndex) (keys : list string)
    (indexes : Indexes) : result Indexes :=
  result_foldl (fun (ix : Indexes) f =>
    match ix !! f with
    | Some idx => idx' ← op idx; Ok (<[f := idx']> ix)
    | None => Ok ix
    end) indexes keys.

Section search.
Context (cs : list claim).

Definition claim_numbers : list nat := seq 0 (length cs).

Definition claim_time (c : nat) : Z := match cs !! c with Some k => created_at (cl_event k) | None => 0 end.
Definition child (c : nat) : option FactEvent := cs !! c ≫= cl_child.
Definition own_windows (c : nat) : list Interval := match cs !! c with Some k => cl_own k | None => [] end.

(** [target_positions[claim]]: the facts a claim names, each at its first position. *)
Definition positions_of (ids : list string) : list (string * nat) :=
  foldl (fun acc '(i, f) => match odict_get f acc with Some _ => acc | None => odict_set f i acc end)
    [] (imap pair ids).

Definition target_positions (c : nat) : list (string * nat) :=
  match cs !! c with Some k => positions_of (supersedes_fact_ids (cl_event k)) | None => [] end.

Definition targets (c : nat) : list string := (target_positions c).*1.

(** [claims_by_child], [successor_by_event] and [claims]. *)
Definition claims_by_child : gmap string (list nat) :=
  group_by (fun p => event_id p.2) fst
    (claim_numbers ≫= fun c => match child c with Some e => [(c, e)] | None => [] end).

Definition children_claims (id : string) : list nat := default [] (claims_by_child !! id).

Definition successor_by_event : gmap string nat :=
  foldl (fun m c => match cs !! c with Some k => <[event_id (cl_event k) := c]> m | None => m end)
    ∅ claim_numbers.

Definition claims_by_fact : gmap string (list nat) :=
  group_by fst snd (claim_numbers ≫= fun c => (fun f => (f, c)) <$> targets c).

Context (by_fact : list (string * list FactEvent)).

Definition indexes : Indexes :=
  (fun group => new_index claim_time group (fun c => bool_decide (is_Some (child c))) own_windows) <$>
  filter (fun p => is_Some (odict_get p.1 by_fact)) claims_by_fact.

(** The roots, with the place each first had in the ledger's own order. *)
Definition root : Type := (nat * nat * nat * FactEvent)%type.

Definition roots_of (ix : Indexes) : list root :=
  by_fact ≫= fun '(f, assertions) =>
    match ix !! f with
    | None => []
    | Some idx =>
        mjoin (imap (fun position e =>
          match first_claim idx (created_at e) (successor_by_event !! event_id e) with
          | Some c => [(c, default 0 (odict_get f (target_positions c)), position, e)]
          | None => []
          end) assertions)
    end.

Definition root_leb (a b : root) : bool :=
  let '(a1, a2, a3, _) := a in
  let '(b1, b2, b3, _) := b in
  (a1 <? b1) || ((a1 =? b1) && ((a2 <? b2) || ((a2 =? b2) && (a3 <=? b3)))).

(** [enter]: the claims that pass through an assertion are visited with it. *)
Definition enter_event (ix : Indexes) (e : FactEvent) : result Indexes :=
  result_foldl (fun ix c => update_each (fun idx => enter idx c) (targets c) ix) ix
    (children_claims (event_id e)).

(** The impact of each claim of a resolved assertion. *)
Definition publish_event (ix : Indexes) (e : FactEvent) (hid : list Interval) : result Indexes :=
  result_foldl (fun ix c =>
    update_each (fun idx => publish idx c (merge (own_windows c ++ hid))) (targets c) ix) ix
    (children_claims (event_id e)).

Record search_state := Search {
  se_indexes : Indexes;
  se_resolved : gmap string (list Interval)
}.

Definition index_for (st : search_state) (e : FactEvent) : option FactSuccessorIndex :=
  fact_id e ≫= fun f => se_indexes st !! f.

(** The body of [while stack]. *)
Fixpoint resolve (fuel : nat) (st : search_state) (stack : list FactEvent) : result search_state :=
  match stack with
  | [] => Ok st
  | e :: rest =>
      match fuel with
      | 0 => Raise (RuntimeError "out of fuel")
      | S fuel =>
          next ← (match index_for st e with
                  | Some idx => next_assertion idx (created_at e)
                  | None => Ok None
                  end);
          match next with
          | Some c =>
              match child c with
              | None => Raise (RuntimeError "AssertionError")
              | Some e' =>
                  ix ← enter_event (se_indexes st) e';
                  resolve fuel (Search ix (se_resolved st)) (e' :: e :: rest)
              end
          | None =>
              let hid := match index_for st e with
                         | Some idx => hidden idx (created_at e) (successor_by_event !! event_id e)
                         | None => []
                         end in
              ix ← publish_event (se_indexes st) e hid;
              resolve fuel (Search ix (<[event_id e := hid]> (se_resolved st))) rest
          end
      end
  end.

Definition search_fuel : nat := 2 * length cs + 2.

Definition resolve_root (st : search_state) (r : root) : result search_state :=
  let e := r.2 in
  if decide (is_Some (se_resolved st !! event_id e)) then Ok st
  else ix ← enter_event (se_indexes st) e; resolve search_fuel (Search ix (se_resolved st)) [e].

Definition resolve_all : result search_state :=
  result_foldl resolve_root (Search indexes ∅) (stable_sort root_leb (roots_of indexes)).
End search.

(** [FactSupersession.hidden]. *)
Abbreviation FactSupersession := (gmap string (list Interval)).

Definition claims_of_history (events : list FactEvent) : list claim :=
  claim_of (withdrawn_event_ids events) (events_by_id events) <$> co_successors (collect events).

Definition fact_supersession (events : list FactEvent) : result FactSupersession :=
  se_resolved <$> resolve_all (claims_of_history events) (co_by_fact (collect events)).

(** [hidden_at], [in_force] and [overlaps]. *)
Definition hidden_of (index : FactSupersession) (e : FactEvent) : list Interval :=
  default [] (index !! event_id e).

Definition hidden_at (index : FactSupersession) (e : FactEvent) (moment : Z) : bool :=
  existsb (fun i => (i.1 <=? moment)%Z && (moment <? i.2)%Z) (hidden_of index e).

Fixpoint without_all (intervals : list Interval) (windows : list Interval) : list Interval :=
  match windows with
  | [] => intervals
  | w :: windows' =>
      match without intervals (Some (Some w.1, Some w.2)) with
      | [] => []
      | kept => without_all kept windows'
      end
  end.

Definition in_force (index : FactSupersession) (e : FactEvent) : list Interval :=
  match ev_fact e with
  | None => []
  | Some fact => without_all [span (Some (fact_window fact))] (hidden_of index e)
  end.

Definition overlaps (index : FactSupersession) (e : FactEvent) (fact : AtomicFact) : bool :=
  let '(low, high) := span (Some (fact_window fact)) in
  existsb (fun i => (Z.max i.1 low <? Z.min i.2 high)%Z) (in_force index e).

(** [ordered_after]: after every recorded event of the fact's conflict key. *)
Section ordering.
Context (json_text : value -> string) (sha256_hex : string -> string) (isoformat : Z -> string).
#[local] Abbreviation identity := (fact_identity json_text sha256_hex isoformat).
#[local] Abbreviation conflict_key := (fact_conflict_key json_text sha256_hex).

Definition key_members (history : list FactEvent) (fact : AtomicFact) : list FactEvent :=
  filter (fun e => match ev_fact e with
                   | Some f =>
                       bool_decide (af_subject f = af_subject fact /\ af_predicate f = af_predicate fact /\
                                    af_namespace f = af_namespace fact /\ conflict_key f = conflict_key fact)
                   | None => false
                   end = true) history.

Definition key_ids (history : list FactEvent) (fact : AtomicFact) : list (option string) :=
  Some (identity fact) :: (fact_id <$> key_members history fact).

Definition key_receipts (history : list FactEvent) (fact : AtomicFact) : list FactEvent :=
  filter (fun e => ~ is_Some (ev_fact e) /\ Exists (fun f => Some f ∈ key_ids history fact) (supersedes_fact_ids e))
    history.

Definition latest_time (events : list FactEvent) : option Z :=
  foldl (fun acc e => Some (match acc with Some m => Z.max m (created_at e) | None => created_at e end)) None events.

Definition ordered_after (moment : Z) (history : list FactEvent) (fact : AtomicFact) : Z :=
  match latest_time (key_members history fact ++ key_receipts history fact) with
  | Some latest => if (moment <=? latest)%Z then latest + 1 else moment
  | None => moment
  end.
End ordering.
