(* ===== verification/FactProjectionFacts.v ===== *)
(** * FactProjectionFacts: what the supersession search computes

    The search of FactProjection refines an abstract machine that reads every claim; the
    machine always halts, and on a history whose claims lead to later assertions it
    computes exactly the instants over which a chain of successors hides an assertion. *)
From S2P Require Import Prelude Text Float64 Frontmatter Intervals FactEvents SegmentTree SuccessorIndex FactProjection.

Local Open Scope nat_scope.

(** ** Grouping claims *)

Lemma positions_of_spec ids :
  NoDup (positions_of ids).*1 /\ forall f, f ∈ (positions_of ids).*1 <-> f ∈ ids.
Proof.
  unfold positions_of. induction ids as [|x ids [Hnd Hin]] using rev_ind; simpl.
  { split; [constructor|done]. }
  rewrite imap_pair_snoc, foldl_app. simpl. set (acc := foldl _ _ _) in *.
  destruct (odict_get x acc) as [p|] eqn:Hx.
  - split; [done|]. intros f. rewrite Hin, elem_of_app, list_elem_of_singleton.
    split; [by left|]. intros [?| ->]; [done|]. apply Hin. apply list_elem_of_fmap.
    exists (x, p). split; [done|]. by apply odict_get_in.
  - split; [by apply odict_set_nodup|]. intros f.
    rewrite odict_set_fst, Hin, elem_of_app, list_elem_of_singleton. tauto.
Qed.

Lemma group_one (f : string) (c : nat) (ks : list string) :
  NoDup ks ->
  snd <$> filter (fun x : string * nat => x.1 = f) ((fun g => (g, c)) <$> ks) = if decide (f ∈ ks) then [c] else [].
Proof.
  induction 1 as [|k ks Hk _ IH]; [by rewrite decide_False by apply not_elem_of_nil|].
  rewrite fmap_cons, filter_cons. csimpl. destruct (decide (k = f)) as [<-|Hf].
  - rewrite (decide_False _ _ Hk) in IH. rewrite fmap_cons, IH, decide_True by by left. done.
  - rewrite IH. apply decide_ext. rewrite elem_of_cons. naive_solver.
Qed.

Lemma filter_shrinks {A} (P P' : A -> Prop) `{!forall x, Decision (P x), !forall x, Decision (P' x)} l c :
  (forall x, P' x -> P x) -> c ∈ l -> P c -> ~ P' c -> length (filter P' l) < length (filter P l).
Proof.
  intros Hsub. assert (Hle : forall k, length (filter P' k) <= length (filter P k)).
  { induction k as [|x k IH]; [done|]. rewrite !filter_cons. repeat case_decide; simpl; [lia|naive_solver|lia..]. }
  induction l as [|x l IH]; [by intros ?%not_elem_of_nil|].
  intros [->|Hc]%elem_of_cons HP HP'; rewrite !filter_cons.
  - rewrite decide_False, decide_True by done. simpl. specialize (Hle l). lia.
  - specialize (IH Hc HP HP'). repeat case_decide; simpl; [lia|naive_solver|lia..].
Qed.

(** ** The indexes together *)
Section search_facts.
Context (cs : list claim) (by_fact : list (string * list FactEvent)).

Abbreviation time := (claim_time cs).
Abbreviation claim_child := (child cs).

(** The claims that name a fact, in the order they were recorded in. *)
Definition group (f : string) : list nat := filter (fun c => f ∈ targets cs c) (claim_numbers cs).

Lemma targets_nodup c : NoDup (targets cs c).
Proof.
  unfold targets, target_positions. destruct (cs !! c); [apply positions_of_spec|constructor].
Qed.

Lemma claims_by_fact_group f : default [] (claims_by_fact cs !! f) = group f.
Proof.
  unfold claims_by_fact, group. rewrite group_by_lookup.
  induction (claim_numbers cs) as [|c l IH]; [done|].
  rewrite bind_cons, filter_app, fmap_app, IH, group_one, filter_cons by apply targets_nodup.
  by case_decide.
Qed.

Lemma group_ascending f : StronglySorted lt (group f).
Proof.
  unfold group, claim_numbers. generalize 0. induction (length cs) as [|n IH]; intros a; [constructor|].
  cbn [seq]. rewrite filter_cons. case_decide; [|done]. constructor; [done|].
  apply Forall_forall. intros c [_ Hc%elem_of_seq]%list_elem_of_filter. lia.
Qed.

Lemma elem_of_group f c : c ∈ group f <-> c < length cs /\ f ∈ targets cs c.
Proof. unfold group, claim_numbers. rewrite list_elem_of_filter, elem_of_seq. naive_solver lia. Qed.

Lemma elem_of_children c id :
  c ∈ children_claims cs id <-> exists e, claim_child c = Some e /\ event_id e = id.
Proof.
  unfold children_claims, claims_by_child. rewrite group_by_lookup, list_elem_of_fmap. split.
  - intros ([d e] & -> & [Hid Hin]%list_elem_of_filter). apply list_elem_of_bind in Hin as (c & Hin & _).
    simpl in *. destruct (child cs c) as [e'|] eqn:He; [|by apply not_elem_of_nil in Hin].
    apply list_elem_of_singleton in Hin as [= -> ->]. eauto.
  - intros (e & He & Hid). exists (c, e). split; [done|]. apply list_elem_of_filter. split; [done|].
    apply list_elem_of_bind. exists c. rewrite He. split; [by left|].
    unfold claim_numbers. apply elem_of_seq. unfold child in He.
    destruct (cs !! c) as [k|] eqn:Hk; [|done]. apply lookup_lt_Some in Hk. lia.
Qed.

Lemma represents_ext s s' idx :
  sc_claims s = sc_claims s' ->
  (forall c, c ∈ sc_claims s -> sc_active s c = sc_active s' c /\ sc_impact s c = sc_impact s' c) ->
  represents time s idx -> represents time s' idx.
Proof.
  intros Hcl Hext Hr. split; rewrite <-?Hcl; try apply Hr.
  - intros i Hi. rewrite (rp_active _ _ _ Hr) by done. destruct (_ !! i) as [c|] eqn:Hc; [|done].
    apply list_elem_of_lookup_2 in Hc. by destruct (Hext c Hc) as [-> _].
  - intros i Hi. rewrite (rp_unions _ _ _ Hr) by done. destruct (_ !! i) as [c|] eqn:Hc; [|done].
    apply list_elem_of_lookup_2, elem_of_in_time_order in Hc. by destruct (Hext c Hc) as [_ ->].
Qed.

(** Every index stands for the claims that name its fact, under one view of which claims
    are to be visited and what each hides. *)
Record tracks (act : nat -> bool) (imp : nat -> list Interval) (ix : Indexes) : Prop := {
  tr_dom : forall f, is_Some (ix !! f) <-> is_Some (indexes cs by_fact !! f);
  tr_rep : forall f idx, ix !! f = Some idx -> represents time (Scan (group f) act imp) idx
}.

Lemma tracks_ext act imp act' imp' ix :
  (forall c, act c = act' c) -> (forall c, imp c = imp' c) -> tracks act imp ix -> tracks act' imp' ix.
Proof.
  intros Ha Hi [Hd Hr]. split; [done|]. intros f idx Hf. eapply represents_ext; [| |by apply Hr]; [done|].
  intros c _. simpl. by rewrite Ha, Hi.
Qed.

Lemma indexes_lookup f idx :
  indexes cs by_fact !! f = Some idx <->
  is_Some (odict_get f by_fact) /\ group f <> [] /\
  idx = new_index time (group f) (fun c => bool_decide (is_Some (claim_child c))) (own_windows cs) \/
  is_Some (odict_get f by_fact) /\ claims_by_fact cs !! f = Some [] /\
  idx = new_index time [] (fun c => bool_decide (is_Some (claim_child c))) (own_windows cs).
Proof.
  unfold indexes. rewrite lookup_fmap, fmap_Some. setoid_rewrite map_lookup_filter_Some. simpl.
  pose proof (claims_by_fact_group f) as Hg. split.
  - intros (g & [Hgf Hb] & ->). rewrite Hgf in Hg. simpl in Hg. subst g.
    destruct (group f) eqn:Hf; [right|left]; done.
  - intros [(Hb & Hne & ->)|(Hb & Hg' & ->)]; [|by exists []].
    exists (group f). split; [|done]. split; [|done].
    destruct (claims_by_fact cs !! f); simpl in Hg; congruence.
Qed.

Lemma indexes_tracks :
  tracks (fun c => bool_decide (is_Some (claim_child c))) (own_windows cs) (indexes cs by_fact).
Proof.
  split; [done|]. intros f idx Hf. pose proof (claims_by_fact_group f) as Hg.
  apply indexes_lookup in Hf as [(_ & _ & ->)|(_ & Hf & ->)].
  - apply new_index_represents, group_ascending.
  - rewrite Hf in Hg. simpl in Hg. rewrite <-Hg. apply new_index_represents. constructor.
Qed.

(** A fact that has assertions and claims is indexed. *)
Lemma indexed f c : is_Some (odict_get f by_fact) -> c ∈ group f -> is_Some (indexes cs by_fact !! f).
Proof.
  intros Hb Hc. eexists. apply indexes_lookup. left. split; [done|]. split; [|done].
  intros Hg. rewrite Hg in Hc. by apply not_elem_of_nil in Hc.
Qed.

Lemma indexed_by_fact f : is_Some (indexes cs by_fact !! f) -> is_Some (odict_get f by_fact).
Proof. intros [idx Hf]. by apply indexes_lookup in Hf as [(? & _)|(? & _)]. Qed.

Lemma update_each_spec op keys (ix : Indexes) (Q : string -> FactSuccessorIndex -> Prop) :
  NoDup keys ->
  (forall f idx, f ∈ keys -> ix !! f = Some idx -> exists idx', op idx = Ok idx' /\ Q f idx') ->
  exists ix', update_each op keys ix = Ok ix' /\ forall f,
    (is_Some (ix' !! f) <-> is_Some (ix !! f)) /\
    (f ∉ keys -> ix' !! f = ix !! f) /\
    (f ∈ keys -> forall idx, ix' !! f = Some idx -> Q f idx).
Proof.
  unfold update_each. intros Hnd. revert ix; induction Hnd as [|k keys Hk _ IH]; intros ix Hop; simpl.
  { exists ix. split; [done|]. intros f. split_and!; [done..|]. by intros ?%not_elem_of_nil. }
  assert (Hstep : exists ix1 : Indexes,
            (match ix !! k with Some idx => idx' ← op idx; Ok (<[k := idx']> ix) | None => Ok ix end) = Ok ix1 /\
            (forall f, f <> k -> ix1 !! f = ix !! f) /\ (is_Some (ix1 !! k) <-> is_Some (ix !! k)) /\
            (forall idx, ix1 !! k = Some idx -> Q k idx)).
  { destruct (ix !! k) as [idx|] eqn:Hix.
    - destruct (Hop k idx) as (idx' & Hop' & HQ); [by left|done|]. rewrite Hop'. simpl. eexists; split; [done|].
      rewrite !lookup_insert_eq. split_and!; [|by rewrite <-Hix|by intros ? [= <-]].
      intros f Hf. by rewrite lookup_insert_ne.
    - exists ix. rewrite Hix. done. }
  destruct Hstep as (ix1 & -> & Hne & Hk1 & HQ1). simpl.
  destruct (IH ix1) as (ix2 & -> & Hix2).
  { intros f idx Hf. rewrite Hne by (intros ->; done). apply Hop. by right. }
  exists ix2. split; [done|]. intros f. destruct (Hix2 f) as (Hdom & Hout & Hin).
  destruct (decide (f = k)) as [->|Hfk].
  - rewrite Hdom. split_and!; [done|by intros []; left|]. intros _ idx. rewrite Hout by done. apply HQ1.
  - rewrite Hdom, Hne by done. split_and!; [done| |].
    + intros Hnin. rewrite Hout, Hne; [done..|]. intros ?. apply Hnin. by right.
    + intros [?|?]%elem_of_cons; [done|by apply Hin].
Qed.

(** One claim's entries are updated in every index it is in. *)
Lemma update_claim op c act imp act' imp' ix :
  c < length cs ->
  (forall f idx, c ∈ group f -> represents time (Scan (group f) act imp) idx ->
     exists idx', op idx = Ok idx' /\ represents time (Scan (group f) act' imp') idx') ->
  (forall d, d <> c -> act d = act' d /\ imp d = imp' d) ->
  tracks act imp ix ->
  exists ix', update_each op (targets cs c) ix = Ok ix' /\ tracks act' imp' ix'.
Proof.
  intros Hc Hop Hsame [Hd Hr].
  destruct (update_each_spec op (targets cs c) ix (fun f idx => represents time (Scan (group f) act' imp') idx))
    as (ix' & Hrun & Hix'); [apply targets_nodup| |].
  { intros f idx Hf Hix. apply Hop; [by apply elem_of_group|by apply Hr]. }
  exists ix'. split; [done|]. split.
  - intros f. rewrite <-Hd. apply Hix'.
  - intros f idx Hf. destruct (Hix' f) as (_ & Hout & Hin).
    destruct (decide (f ∈ targets cs c)) as [Hfc|Hfc]; [by apply Hin|].
    rewrite Hout in Hf by done. eapply represents_ext; [| |by apply Hr]; [done|].
    intros d [_ Hd']%elem_of_group. simpl. apply Hsame. by intros ->.
Qed.

Lemma enter_event_tracks act imp ix e :
  tracks act imp ix ->
  exists ix', enter_event cs ix e = Ok ix' /\
    tracks (fun d => if decide (d ∈ children_claims cs (event_id e)) then false else act d) imp ix'.
Proof.
  unfold enter_event.
  assert (Hin : forall c, c ∈ children_claims cs (event_id e) -> c < length cs).
  { intros c (e' & He' & _)%elem_of_children. unfold child in He'.
    destruct (cs !! c) eqn:Hc; [|done]. by apply lookup_lt_Some in Hc. }
  revert act ix; induction (children_claims cs (event_id e)) as [|c l IH]; intros act ix Ht; simpl.
  { exists ix. split; [done|]. eapply tracks_ext; [| |done]; done. }
  destruct (update_claim (fun idx => enter idx c) c act imp
    (fun d => if decide (d = c) then false else act d) imp ix) as (ix1 & -> & Ht1).
  - apply Hin. by left.
  - intros f idx Hc Hr. by apply (enter_represents time _ _ Hr c).
  - intros d Hd. cbn beta. by rewrite decide_False.
  - done.
  - simpl. destruct (IH ltac:(intros d Hd; apply Hin; by right) _ _ Ht1) as (ix2 & -> & Ht2).
    exists ix2. split; [done|]. eapply tracks_ext; [| |exact Ht2]; [|done]. intros d. simpl.
    destruct (decide (d ∈ l)), (decide (d = c)), (decide (d ∈ c :: l)) as [Hn|Hn]; try done;
      rewrite elem_of_cons in Hn; naive_solver.
Qed.

Lemma publish_event_tracks act imp ix e hid :
  tracks act imp ix ->
  exists ix', publish_event cs ix e hid = Ok ix' /\
    tracks act (fun d => if decide (d ∈ children_claims cs (event_id e)) then merge (own_windows cs d ++ hid)
                         else imp d) ix'.
Proof.
  unfold publish_event.
  assert (Hin : forall c, c ∈ children_claims cs (event_id e) -> c < length cs).
  { intros c (e' & He' & _)%elem_of_children. unfold child in He'.
    destruct (cs !! c) eqn:Hc; [|done]. by apply lookup_lt_Some in Hc. }
  revert imp ix; induction (children_claims cs (event_id e)) as [|c l IH]; intros imp ix Ht; simpl.
  { exists ix. split; [done|]. eapply tracks_ext; [| |done]; done. }
  destruct (update_claim (fun idx => publish idx c (merge (own_windows cs c ++ hid))) c act imp act
    (fun d => if decide (d = c) then merge (own_windows cs c ++ hid) else imp d) ix) as (ix1 & -> & Ht1).
  - apply Hin. by left.
  - intros f idx Hc Hr. by apply (publish_represents time _ _ Hr c).
  - intros d Hd. cbn beta. by rewrite decide_False.
  - done.
  - simpl. destruct (IH ltac:(intros d Hd; apply Hin; by right) _ _ Ht1) as (ix2 & -> & Ht2).
    exists ix2. split; [done|]. eapply tracks_ext; [| |exact Ht2]; [done|]. intros d. simpl.
    destruct (decide (d ∈ l)), (decide (d = c)) as [Hdc|Hdc], (decide (d ∈ c :: l)) as [Hn|Hn]; try done;
      rewrite elem_of_cons in Hn; subst; naive_solver.
Qed.

(** ** The search as an abstract machine

    Its state is the assertions it has entered, what it has resolved, and its stack. *)
Definition act_of (entered : gset string) (c : nat) : bool :=
  match claim_child c with Some e => bool_decide (event_id e ∉ entered) | None => false end.

Definition imp_of (resolved : gmap string (list Interval)) (c : nat) : list Interval :=
  match claim_child c with
  | Some e =>
      match resolved !! event_id e with
      | Some hid => merge (own_windows cs c ++ hid)
      | None => own_windows cs c
      end
  | None => own_windows cs c
  end.

Definition view_for (entered : gset string) (resolved : gmap string (list Interval)) (e : FactEvent) :
    option scan :=
  f ← fact_id e;
  if decide (is_Some (indexes cs by_fact !! f)) then Some (Scan (group f) (act_of entered) (imp_of resolved))
  else None.

Definition next_of (entered : gset string) (resolved : gmap string (list Interval)) (e : FactEvent) : option nat :=
  s ← view_for entered resolved e; scan_next time s (created_at e).

Definition hidden_now (entered : gset string) (resolved : gmap string (list Interval)) (e : FactEvent) :
    list Interval :=
  match view_for entered resolved e with
  | Some s => scan_hidden time s (created_at e) (successor_by_event cs !! event_id e)
  | None => []
  end.

Definition machine : Type := (gset string * gmap string (list Interval) * list FactEvent)%type.

Inductive visit : machine -> machine -> Prop :=
| visit_child E R e rest c e' :
    next_of E R e = Some c -> claim_child c = Some e' ->
    visit (E, R, e :: rest) ({[event_id e']} ∪ E, R, e' :: e :: rest)
| visit_done E R e rest :
    next_of E R e = None ->
    visit (E, R, e :: rest) (E, <[event_id e := hidden_now E R e]> R, rest).

(** ** The search refines the machine, and halts *)

Definition in_step (E : gset string) (st : search_state) : Prop :=
  tracks (act_of E) (imp_of (se_resolved st)) (se_indexes st).

Definition pending (E : gset string) : nat := length (filter (fun c => act_of E c = true) (claim_numbers cs)).

Lemma index_for_view E st e :
  in_step E st ->
  match index_for st e, view_for E (se_resolved st) e with
  | Some idx, Some s => represents time s idx
  | None, None => True
  | _, _ => False
  end.
Proof.
  intros [Hdom Hrep]. unfold index_for, view_for. destruct (fact_id e) as [f|]; simpl; [|done].
  destruct (se_indexes st !! f) as [idx|] eqn:Hf.
  - rewrite decide_True by (apply Hdom; by eexists). by apply Hrep.
  - rewrite decide_False; [done|]. rewrite <-Hdom, Hf. by intros [].
Qed.

Lemma enter_event_in_step E R ix e :
  tracks (act_of E) (imp_of R) ix ->
  exists ix', enter_event cs ix e = Ok ix' /\ in_step ({[event_id e]} ∪ E) (Search ix' R).
Proof.
  intros Ht. destruct (enter_event_tracks _ _ _ e Ht) as (ix' & Hrun & Ht'). exists ix'. split; [done|].
  eapply tracks_ext; [|intros c; reflexivity|exact Ht']. intros c. cbn beta. unfold act_of.
  case_decide as Hc.
  - apply elem_of_children in Hc as (e' & -> & Hid). symmetry. apply bool_decide_eq_false. set_solver.
  - destruct (claim_child c) as [e'|] eqn:He'; [|done]. apply bool_decide_ext.
    assert (event_id e' <> event_id e) by (intros Hid; apply Hc, elem_of_children; eauto). set_solver.
Qed.

Lemma publish_event_in_step E R ix e hid :
  tracks (act_of E) (imp_of R) ix ->
  exists ix', publish_event cs ix e hid = Ok ix' /\ in_step E (Search ix' (<[event_id e := hid]> R)).
Proof.
  intros Ht. destruct (publish_event_tracks _ _ _ e hid Ht) as (ix' & Hrun & Ht'). exists ix'. split; [done|].
  eapply tracks_ext; [intros c; reflexivity| |exact Ht']. intros c. cbn. unfold imp_of.
  case_decide as Hc.
  - apply elem_of_children in Hc as (e' & -> & Hid). by rewrite Hid, lookup_insert_eq.
  - destruct (claim_child c) as [e'|] eqn:He'; [|done]. rewrite lookup_insert_ne; [done|].
    intros Hid. apply Hc, elem_of_children. eauto.
Qed.

(** A claim the machine moves to names the fact, was recorded no earlier and leads to an
    assertion not yet entered. *)
Lemma next_of_some E R e c :
  next_of E R e = Some c ->
  exists f e', fact_id e = Some f /\ is_Some (odict_get f by_fact) /\ c ∈ group f /\ (created_at e <= time c)%Z /\
    claim_child c = Some e' /\ event_id e' ∉ E.
Proof.
  unfold next_of, view_for. destruct (fact_id e) as [f|]; simpl; [|done]. case_decide as Hf; [|done]. simpl.
  unfold scan_next. intros [Ha Hc]%head_Some_elem_of%list_elem_of_filter. simpl in *. destruct Ha as [Ha Hw].
  unfold act_of in Ha. destruct (claim_child c) as [e'|] eqn:He'; [|done]. apply bool_decide_eq_true in Ha.
  exists f, e'. split_and!; try done. by apply indexed_by_fact.
Qed.

Lemma pending_decreases E R e c e' :
  next_of E R e = Some c -> claim_child c = Some e' -> pending ({[event_id e']} ∪ E) < pending E.
Proof.
  intros Hn He'. apply next_of_some in Hn as (f & e'' & _ & _ & Hg & _ & He'' & Hnin).
  rewrite He' in He''. injection He'' as <-. apply elem_of_group in Hg as [Hc _].
  unfold pending. apply (filter_shrinks _ _ _ c).
  - intros d. unfold act_of. destruct (claim_child d); [|done]. rewrite !bool_decide_eq_true. set_solver.
  - unfold claim_numbers. apply elem_of_seq. lia.
  - unfold act_of. rewrite He'. by apply bool_decide_eq_true.
  - unfold act_of. rewrite He', bool_decide_eq_true. set_solver.
Qed.

(** Enough fuel, and every run of the search is a run of the machine. *)
Lemma resolve_visits fuel E st stack :
  in_step E st -> 2 * pending E + length stack <= fuel ->
  exists E' st', resolve cs fuel st stack = Ok st' /\ in_step E' st' /\
    rtc visit (E, se_resolved st, stack) (E', se_resolved st', []).
Proof.
  revert E st stack; induction fuel as [|fuel IH]; intros E st stack Hst Hfuel.
  { destruct stack; [|simpl in Hfuel; lia]. exists E, st. split_and!; [done..|constructor]. }
  destruct stack as [|e rest]; [exists E, st; split_and!; [done..|constructor]|].
  cbn [resolve]. pose proof (index_for_view E st e Hst) as Hview. simpl in Hfuel.
  assert (Hnext : (match index_for st e with Some idx => next_assertion idx (created_at e) | None => Ok None end) =
            Ok (next_of E (se_resolved st) e)).
  { unfold next_of. destruct (index_for st e) as [idx|], (view_for E (se_resolved st) e) as [s|]; try done.
    by apply next_assertion_scan. }
  assert (Hhid : (match index_for st e with
                  | Some idx => hidden idx (created_at e) (successor_by_event cs !! event_id e)
                  | None => []
                  end) = hidden_now E (se_resolved st) e).
  { unfold hidden_now. destruct (index_for st e) as [idx|], (view_for E (se_resolved st) e) as [s|]; try done.
    by apply hidden_scan. }
  rewrite Hnext, Hhid. simpl. destruct (next_of E (se_resolved st) e) as [c|] eqn:Hn.
  - pose proof (next_of_some _ _ _ _ Hn) as (_ & e' & _ & _ & _ & _ & He' & _). rewrite He'.
    destruct (enter_event_in_step E (se_resolved st) (se_indexes st) e' Hst) as (ix & -> & Hin). simpl.
    pose proof (pending_decreases _ _ _ _ _ Hn He') as Hdec.
    destruct (IH _ _ (e' :: e :: rest) Hin) as (E' & st' & -> & Hst' & Hrun); [simpl; lia|].
    exists E', st'. split_and!; [done..|]. eapply rtc_l; [|exact Hrun]. by eapply visit_child.
  - destruct (publish_event_in_step E (se_resolved st) (se_indexes st) e (hidden_now E (se_resolved st) e) Hst)
      as (ix & -> & Hin). simpl.
    destruct (IH _ _ rest Hin) as (E' & st' & -> & Hst' & Hrun); [lia|].
    exists E', st'. split_and!; [done..|]. eapply rtc_l; [|exact Hrun]. by apply visit_done.
Qed.

Lemma resolve_root_visits E st (r : root) :
  in_step E st -> exists E' st', resolve_root cs st r = Ok st' /\ in_step E' st' /\
    (is_Some (se_resolved st !! event_id r.2) /\ E' = E /\ st' = st \/
     se_resolved st !! event_id r.2 = None /\
     rtc visit ({[event_id r.2]} ∪ E, se_resolved st, [r.2]) (E', se_resolved st', [])).
Proof.
  intros Hst. unfold resolve_root. case_decide as Hr; [exists E, st; split_and!; [done..|by left]|].
  destruct (enter_event_in_step E (se_resolved st) (se_indexes st) r.2 Hst) as (ix & -> & Hin). simpl.
  destruct (resolve_visits (search_fuel cs) _ _ [r.2] Hin) as (E' & st' & -> & Hst' & Hrun).
  - assert (pending ({[event_id r.2]} ∪ E) <= length cs); [|unfold search_fuel; simpl; lia].
    unfold pending. etrans; [apply length_filter|]. unfold claim_numbers. by rewrite length_seq.
  - exists E', st'. split_and!; [done..|]. right. split; [by apply eq_None_not_Some|done].
Qed.

Lemma search_starts : in_step ∅ (Search (indexes cs by_fact) ∅).
Proof.
  eapply tracks_ext; [| |apply indexes_tracks].
  - intros c. unfold act_of. destruct (claim_child c) as [e|]; [|by apply bool_decide_eq_false_2; intros []].
    rewrite bool_decide_eq_true_2 by by eexists. symmetry. apply bool_decide_eq_true. set_solver.
  - intros c. unfold imp_of. by destruct (claim_child c); rewrite ?lookup_empty.
Qed.

Lemma resolve_roots_total E st rs :
  in_step E st -> exists E' st', result_foldl (resolve_root cs) st rs = Ok st' /\ in_step E' st'.
Proof.
  revert E st; induction rs as [|r rs IH]; intros E st Hst; simpl; [by exists E, st|].
  destruct (resolve_root_visits E st r Hst) as (E' & st' & -> & Hst' & _). simpl. by eapply IH.
Qed.

Lemma resolve_all_total : exists st, resolve_all cs by_fact = Ok st.
Proof.
  unfold resolve_all.
  destruct (resolve_roots_total ∅ _ (stable_sort root_leb (roots_of cs by_fact (indexes cs by_fact))) search_starts)
    as (E & st & -> & _). by exists st.
Qed.

(** ** What it resolves *)

(** The assertions the search can meet. *)
Definition node (e : FactEvent) : Prop :=
  (exists f l, (f, l) ∈ by_fact /\ e ∈ l) \/ exists k, k ∈ cs /\ cl_child k = Some e.

(** A claim names the fact of an assertion recorded no later. *)
Definition names (k : claim) (e : FactEvent) : Prop :=
  exists f, fact_id e = Some f /\ f ∈ supersedes_fact_ids (cl_event k) /\
    (created_at e <= created_at (cl_event k))%Z.

(** Hidden at an instant: a successor other than the assertion itself names it, and the
    instant lies in the successor's own window, or what the successor passes through is
    itself hidden then. *)
Inductive hidden_by_chain (t : Z) : FactEvent -> Prop :=
| hidden_own e k :
    k ∈ cs -> names k e -> event_id (cl_event k) <> event_id e -> covers_time (cl_own k) t -> hidden_by_chain t e
| hidden_through e k e' :
    k ∈ cs -> names k e -> event_id (cl_event k) <> event_id e -> cl_child k = Some e' ->
    hidden_by_chain t e' -> hidden_by_chain t e.

(** Claims of distinct events, one record per event id, counted children, and claims that
    lead to later assertions: what a ledger that orders the events of a key keeps. *)
Record orderly : Prop := {
  or_keys : NoDup by_fact.*1;
  or_facts : forall f l e, (f, l) ∈ by_fact -> e ∈ l -> fact_id e = Some f;
  or_distinct : NoDup ((fun k => event_id (cl_event k)) <$> cs);
  or_records : forall e e', node e -> node e' -> event_id e = event_id e' -> e = e';
  or_counted : forall e f, node e -> fact_id e = Some f -> is_Some (odict_get f by_fact);
  or_later : forall k e e', k ∈ cs -> node e -> names k e -> cl_child k = Some e' ->
    e' = e \/ (created_at e < created_at e')%Z
}.

Lemma claim_at c k : cs !! c = Some k ->
  claim_child c = cl_child k /\ own_windows cs c = cl_own k /\ time c = created_at (cl_event k) /\
  forall f, f ∈ targets cs c <-> f ∈ supersedes_fact_ids (cl_event k).
Proof.
  intros Hc. unfold child, own_windows, claim_time, targets, target_positions. rewrite Hc. simpl.
  split_and!; [done..|apply positions_of_spec].
Qed.

Lemma successor_by_event_prefix n id c :
  n <= length cs ->
  foldl (fun m c => match cs !! c with Some k => <[event_id (cl_event k) := c]> m | None => m end)
    (∅ : gmap string nat) (seq 0 n) !! id = Some c ->
  exists k, cs !! c = Some k /\ event_id (cl_event k) = id /\ c < n.
Proof.
  induction n as [|n IH]; intros Hn; [simpl; by rewrite lookup_empty|].
  rewrite seq_S, foldl_app. simpl.
  destruct (lookup_lt_is_Some_2 cs n) as [k Hk]; [lia|]. rewrite Hk, lookup_insert. case_decide as Hid.
  - intros [= <-]. exists k. split_and!; [done..|lia].
  - intros Hc. destruct (IH ltac:(lia) Hc) as (k' & ? & ? & ?). exists k'. split_and!; [done..|lia].
Qed.

Lemma successor_by_event_domain n c k :
  n <= length cs -> c < n -> cs !! c = Some k ->
  is_Some (foldl (fun m c => match cs !! c with Some k => <[event_id (cl_event k) := c]> m | None => m end)
    (∅ : gmap string nat) (seq 0 n) !! event_id (cl_event k)).
Proof.
  induction n as [|n IH]; intros Hn Hc Hk; [lia|]. rewrite seq_S, foldl_app. simpl.
  destruct (lookup_lt_is_Some_2 cs n) as [k' Hk']; [lia|]. rewrite Hk', lookup_insert. case_decide as Hid; [by eexists|].
  apply IH; [lia| |done]. assert (c <> n) by congruence. lia.
Qed.

Section exact.
Context (Hw : orderly).

(** The assertion's own claim is the one recorded under its id. *)
Lemma own_claim c k e :
  cs !! c = Some k -> Some c <> successor_by_event cs !! event_id e <-> event_id (cl_event k) <> event_id e.
Proof.
  intros Hk. unfold successor_by_event, claim_numbers. pose proof (lookup_lt_Some _ _ _ Hk) as Hlt.
  split; intros Hne Heq.
  - destruct (successor_by_event_domain (length cs) c k) as [d Hd]; [lia|done|done|].
    rewrite Heq in Hd. apply Hne. rewrite Hd. f_equal.
    destruct (successor_by_event_prefix _ _ _ (le_n _) Hd) as (k' & Hk' & Hid & _).
    eapply (NoDup_lookup _ _ _ (event_id (cl_event k)) (or_distinct Hw)); rewrite list_lookup_fmap, ?Hk, ?Hk'; simpl; congruence.
  - apply Hne. symmetry in Heq. destruct (successor_by_event_prefix _ _ _ (le_n _) Heq) as (k' & Hk' & Hid & _).
    congruence.
Qed.

Lemma elem_of_claims k : k ∈ cs <-> exists c, cs !! c = Some k.
Proof. apply list_elem_of_lookup. Qed.

Lemma child_node c e : claim_child c = Some e -> node e.
Proof.
  unfold child. destruct (cs !! c) as [k|] eqn:Hk; [|done]. simpl. intros Hc. right. exists k.
  split; [by apply list_elem_of_lookup_2 in Hk|done].
Qed.

(** The claims the machine reads for an assertion are the ones that name it. *)
Lemma view_names e c k :
  node e -> cs !! c = Some k ->
  names k e <-> exists f, fact_id e = Some f /\ is_Some (indexes cs by_fact !! f) /\ c ∈ group f /\
    (created_at e <= time c)%Z.
Proof.
  intros He Hk. destruct (claim_at c k Hk) as (_ & _ & Ht & Htar). unfold names. rewrite Ht. split.
  - intros (f & Hf & Hin & Hle). exists f.
    assert (Hg : c ∈ group f) by (apply elem_of_group; split; [by apply lookup_lt_Some in Hk|by apply Htar]).
    split_and!; [done| |done|done]. eapply indexed; [by eapply or_counted|exact Hg].
  - intros (f & Hf & _ & [_ Hin]%elem_of_group & Hle). exists f. split_and!; [done|by apply Htar|done].
Qed.

(** What is on record when an assertion is resolved. *)
Lemma hidden_now_covers E R e t :
  node e ->
  covers_time (hidden_now E R e) t <->
  exists c k, cs !! c = Some k /\ names k e /\ event_id (cl_event k) <> event_id e /\ covers_time (imp_of R c) t.
Proof.
  intros He. unfold hidden_now, view_for. split.
  - destruct (fact_id e) as [f|] eqn:Hf; simpl; [case_decide as Hix|]; try by rewrite covers_time_nil.
    unfold scan_hidden. rewrite covers_merge, covers_time_bind. simpl.
    intros (c & [[Hle Hown] Hc]%list_elem_of_filter & Ht). pose proof Hc as [Hlt _]%elem_of_group.
    destruct (lookup_lt_is_Some_2 cs c Hlt) as [k Hk]. exists c, k.
    split_and!; [done| |by eapply own_claim|done]. apply (view_names e c k He Hk). by exists f.
  - intros (c & k & Hk & Hn & Hne & Ht). apply (view_names e c k He Hk) in Hn as (f & Hf & Hix & Hg & Hle).
    rewrite Hf. simpl. rewrite decide_True by done. unfold scan_hidden. rewrite covers_merge, covers_time_bind. simpl.
    exists c. split; [|done]. apply list_elem_of_filter. split; [|done]. split; [done|by eapply own_claim].
Qed.

(** The machine's invariant: later assertions above earlier ones on the stack, the entered
    assertions are the resolved ones and the stack, and what is resolved is exact. *)
Record machine_ok (m : machine) : Prop := {
  mo_nodes : Forall node m.2;
  mo_order : StronglySorted (fun a b => created_at b < created_at a)%Z m.2;
  mo_entered : forall id, id ∈ m.1.1 <-> is_Some (m.1.2 !! id) \/ id ∈ event_id <$> m.2;
  mo_exact : forall e hid, node e -> m.1.2 !! event_id e = Some hid ->
    forall t, covers_time hid t <-> hidden_by_chain t e
}.

(** An assertion whose claims are all entered is hidden exactly where the machine says. *)
Lemma resolved_exact E R e rest t :
  machine_ok (E, R, e :: rest) -> next_of E R e = None ->
  covers_time (hidden_now E R e) t <-> hidden_by_chain t e.
Proof.
  intros [Hnodes Hord Hent Hex] Hnone. simpl in *. inversion_clear Hnodes as [|? ? He Hrest].
  inversion_clear Hord as [|? ? Hord' Hbelow]. rewrite (hidden_now_covers _ _ _ _ He). split.
  - intros (c & k & Hk & Hn & Hne & Ht). destruct (claim_at c k Hk) as (Hch & Hown & _ & _).
    assert (Hin : k ∈ cs) by (by apply list_elem_of_lookup_2 in Hk).
    unfold imp_of in Ht. rewrite Hch, Hown in Ht. destruct (cl_child k) as [e'|] eqn:He'; [|by eapply hidden_own].
    destruct (R !! event_id e') as [hid|] eqn:HR; [|by eapply hidden_own].
    apply covers_merge, covers_time_app in Ht as [Ht|Ht]; [by eapply hidden_own|].
    eapply hidden_through; [done..|]. eapply Hex; [|done|done]. right. by exists k.
  - intros Hhid. assert (Hgen : forall e0, hidden_by_chain t e0 -> e0 = e ->
      exists c k, cs !! c = Some k /\ names k e /\ event_id (cl_event k) <> event_id e /\ covers_time (imp_of R c) t);
      [|by eapply Hgen].
    clear Hhid. induction 1 as [e0 k Hk Hn Hne Ht|e0 k e' Hk Hn Hne He' Hh IH]; intros ->;
      pose proof Hk as [c Hc]%elem_of_claims; destruct (claim_at c k Hc) as (Hch & Hown & Htime & _).
    + exists c, k. split_and!; [done..|]. unfold imp_of. rewrite Hch, Hown.
      destruct (cl_child k) as [e'|]; [|done]. destruct (R !! event_id e'); [|done].
      apply covers_merge, covers_time_app. by left.
    + destruct (or_later Hw k e e') as [->|Hlater]; [done..|by apply IH|].
      exists c, k. split_and!; [done..|]. unfold imp_of. rewrite Hch, Hown, He'.
      assert (Hnode' : node e') by (right; by exists k).
      assert (Hentered : event_id e' ∈ E).
      { apply (view_names e c k He Hc) in Hn as (f & Hf & Hix & Hg & Hle).
        unfold next_of, view_for in Hnone. rewrite Hf in Hnone. simpl in Hnone.
        rewrite decide_True in Hnone by done. simpl in Hnone. unfold scan_next in Hnone.
        destruct (decide (event_id e' ∈ E)) as [|Hnin]; [done|]. exfalso.
        assert (Hin : c ∈ filter (fun c => act_of E c = true /\ (created_at e <= time c)%Z) (group f)).
        { apply list_elem_of_filter. split; [|done]. split; [|done]. unfold act_of. rewrite Hch, He'.
          by apply bool_decide_eq_true. }
        simpl in Hnone. destruct (filter _ _); [by apply not_elem_of_nil in Hin|done]. }
      apply Hent in Hentered as [[hid HR]|Hstack].
      { rewrite HR. apply covers_merge, covers_time_app. right. by eapply Hex. }
      exfalso. apply elem_of_cons in Hstack as [Hid|Hs].
      { rewrite (or_records Hw e' e Hnode' He Hid) in Hlater. lia. }
      apply (list_elem_of_fmap event_id rest) in Hs as (s & Hid & Hs).
      rewrite Forall_forall in Hbelow, Hrest. specialize (Hbelow s Hs).
      rewrite (or_records Hw e' s Hnode' (Hrest s Hs) Hid) in Hlater. lia.
Qed.

Lemma visit_ok m m' : machine_ok m -> visit m m' -> machine_ok m' /\ m.1.1 ⊆ m'.1.1.
Proof.
  intros Hm Hv. destruct Hv as [E R e rest c e' Hn He'|E R e rest Hn]; pose proof Hm as [Hnodes Hord Hent Hex];
    simpl in *; inversion_clear Hnodes as [|? ? He Hrest]; inversion_clear Hord as [|? ? Hord' Hbelow].
  - pose proof (next_of_some _ _ _ _ Hn) as (f & e'' & Hf & Hb & Hg & Hle & He'' & Hnin).
    rewrite He' in He''. injection He'' as <-.
    pose proof Hg as [Hlt _]%elem_of_group. destruct (lookup_lt_is_Some_2 cs c Hlt) as [k Hk].
    destruct (claim_at c k Hk) as (Hch & _ & _ & _).
    assert (Hnames : names k e).
    { apply (view_names e c k He Hk). exists f. split_and!; [done|by eapply indexed|done..]. }
    assert (Hlater : (created_at e < created_at e')%Z).
    { destruct (or_later Hw k e e') as [->|?]; [by apply list_elem_of_lookup_2 in Hk|done|done|congruence| |done].
      destruct Hnin. apply Hent. right. left. }
    split; [|set_solver]. split; simpl.
    + constructor; [by eapply child_node|by constructor].
    + constructor; [by constructor|]. constructor; [done|]. eapply Forall_impl; [exact Hbelow|]. simpl. lia.
    + intros id. rewrite elem_of_union, elem_of_singleton, Hent, !elem_of_cons. tauto.
    + done.
  - split; [|done]. split; simpl; [done|done| |].
    + intros id. rewrite Hent, elem_of_cons, lookup_insert_is_Some. destruct (decide (event_id e = id)); naive_solver.
    + intros e0 hid He0. rewrite lookup_insert. case_decide as Hid; [|by apply Hex].
      intros [= <-] t. rewrite <-(or_records Hw e e0 He He0 Hid). by eapply resolved_exact.
Qed.

Lemma visits_ok m m' : machine_ok m -> rtc visit m m' -> machine_ok m' /\ m.1.1 ⊆ m'.1.1.
Proof.
  intros Hm Hv. revert Hm. induction Hv as [m|m m1 m' Hstep _ IH]; intros Hm; [by split|].
  destruct (visit_ok _ _ Hm Hstep) as [Hm1 Hsub]. destruct (IH Hm1) as [? ?]. split; [done|]. by etrans.
Qed.

Lemma enter_root_ok E R e : machine_ok (E, R, []) -> node e -> machine_ok ({[event_id e]} ∪ E, R, [e]).
Proof.
  intros [_ _ Hent Hex] He. split; simpl; [by apply Forall_singleton|repeat constructor| |done].
  intros id. rewrite elem_of_union, elem_of_singleton, Hent. simpl.
  rewrite list_elem_of_singleton, elem_of_nil. tauto.
Qed.

Lemma resolve_roots_exact E st rs :
  in_step E st -> machine_ok (E, se_resolved st, []) -> Forall (fun r : root => node r.2) rs ->
  exists E' st', result_foldl (resolve_root cs) st rs = Ok st' /\ machine_ok (E', se_resolved st', []) /\
    E ⊆ E' /\ forall r, r ∈ rs -> event_id r.2 ∈ E'.
Proof.
  revert E st; induction rs as [|r rs IH]; intros E st Hst Hm Hrs; simpl.
  { exists E, st. split_and!; try done. by intros r ?%not_elem_of_nil. }
  inversion_clear Hrs as [|? ? Hr Hrs'].
  destruct (resolve_root_visits E st r Hst) as (E1 & st1 & -> & Hst1 & Hcase). simpl.
  assert (Hone : machine_ok (E1, se_resolved st1, []) /\ E ⊆ E1 /\ event_id r.2 ∈ E1).
  { destruct Hcase as [(Hres & -> & ->)|(Hres & Hrun)].
    - split_and!; [done..|]. apply (mo_entered _ Hm). by left.
    - destruct (visits_ok _ _ (enter_root_ok _ _ _ Hm Hr) Hrun) as [Hm1 Hsub].
      simpl in Hsub. split_and!; [done|set_solver..]. }
  destruct Hone as (Hm1 & Hsub1 & Hin1). destruct (IH E1 st1) as (E2 & st2 & -> & Hm2 & Hsub2 & Hin2); [done..|].
  exists E2, st2. split_and!; [done..|by etrans|].
  intros r' [->|Hr']%elem_of_cons; [by apply Hsub2|by apply Hin2].
Qed.

Lemma elem_of_roots f l e c :
  (f, l) ∈ by_fact -> e ∈ l ->
  (exists idx, indexes cs by_fact !! f = Some idx /\
     first_claim idx (created_at e) (successor_by_event cs !! event_id e) = Some c) ->
  exists r, r ∈ roots_of cs by_fact (indexes cs by_fact) /\ r.2 = e.
Proof.
  intros Hf [i Hi]%list_elem_of_lookup (idx & Hidx & Hc). eexists (_, i, e). split; [|done].
  unfold roots_of. apply list_elem_of_bind. exists (f, l). split; [|done]. cbn beta iota. rewrite Hidx.
  apply list_elem_of_join. eexists. split; [|apply list_elem_of_lookup; exists i; by rewrite list_lookup_imap, Hi].
  simpl. rewrite Hc. by left.
Qed.

Lemma roots_nodes : Forall (fun r : root => node r.2) (stable_sort root_leb (roots_of cs by_fact (indexes cs by_fact))).
Proof.
  apply Forall_forall. intros r. rewrite stable_sort_perm. unfold roots_of. intros Hr.
  apply list_elem_of_bind in Hr as ([f l] & Hr & Hf). cbn beta iota in Hr.
  destruct (indexes cs by_fact !! f) as [idx|]; [|by apply not_elem_of_nil in Hr].
  apply list_elem_of_join in Hr as (group0 & Hr & Hg). apply list_elem_of_lookup in Hg as [i Hi].
  rewrite list_lookup_imap in Hi. destruct (l !! i) as [e|] eqn:He; simplify_eq/=.
  destruct (first_claim _ _ _); [|by apply not_elem_of_nil in Hr]. apply list_elem_of_singleton in Hr as ->.
  left. exists f, l. split; [done|]. by apply list_elem_of_lookup_2 in He.
Qed.

(** The search resolves every counted assertion exactly. *)
Lemma resolve_all_exact :
  exists st, resolve_all cs by_fact = Ok st /\ forall f l e t, (f, l) ∈ by_fact -> e ∈ l ->
    covers_time (default [] (se_resolved st !! event_id e)) t <-> hidden_by_chain t e.
Proof.
  unfold resolve_all.
  destruct (resolve_roots_exact ∅ (Search (indexes cs by_fact) ∅)
    (stable_sort root_leb (roots_of cs by_fact (indexes cs by_fact)))) as (E & st & -> & Hm & _ & Hroots).
  - apply search_starts.
  - split; simpl; [constructor|constructor| |].
    + intros id. rewrite elem_of_nil, lookup_empty. split; [by intros ?%elem_of_empty|]. by intros [[]|].
    + intros e hid _. by rewrite lookup_empty.
  - apply roots_nodes.
  - exists st. split; [done|]. intros f l e t Hf He. assert (Hnode : node e) by (left; eauto).
    destruct (se_resolved st !! event_id e) as [hid|] eqn:HR; simpl; [by eapply (mo_exact _ Hm)|].
    rewrite covers_time_nil. split; [done|]. intros Hh.
    assert (Hsome : exists k, k ∈ cs /\ names k e /\ event_id (cl_event k) <> event_id e)
      by (destruct Hh as [? k|? k]; exists k; done).
    destruct Hsome as (k & [c Hc]%elem_of_claims & Hn & Hne).
    apply (view_names e c k Hnode Hc) in Hn as (f' & Hf' & [idx Hix] & Hg & Hle).
    assert (f' = f) as -> by (pose proof (or_facts Hw f l e Hf He); congruence).
    assert (Hel : eligible time (created_at e) (successor_by_event cs !! event_id e) c)
      by (split; [done|by eapply own_claim]).
    destruct search_starts as [_ Hrep]. specialize (Hrep f idx Hix).
    pose proof (first_claim_scan time _ _ Hrep (created_at e) (successor_by_event cs !! event_id e)) as Hfc.
    unfold scan_first in Hfc. simpl in Hfc.
    assert (Hin : c ∈ filter (eligible time (created_at e) (successor_by_event cs !! event_id e)) (group f))
      by (by apply list_elem_of_filter).
    destruct (filter _ (group f)) as [|c0 rest]; [by apply not_elem_of_nil in Hin|]. simpl in Hfc.
    destruct (elem_of_roots f l e c0 Hf He) as (r & Hr & Hre); [by exists idx|].
    assert (Hent : event_id e ∈ E).
    { rewrite <-Hre. apply Hroots. by rewrite stable_sort_perm. }
    apply (mo_entered _ Hm) in Hent as [[h Hh']|[]%elem_of_nil]. simpl in Hh'. congruence.
Qed.
End exact.
End search_facts.

(** ** Histories *)

Section applications.
Context (withdrawn : gset string).

Record applied (events : list FactEvent) (st : list (string * FactEvent) * gmap string FactEvent) : Prop := {
  ap_keys : NoDup st.1.*1;
  ap_ids : forall k e, (k, e) ∈ st.1 -> event_id e = k /\ ev_type e = Asserted /\ is_Some (fact_id e) /\
    exists e0, e0 ∈ events /\ event_id e0 = k /\ ev_type e0 = Asserted
}.

Lemma count_application_ok events e st :
  applied events st -> applied (events ++ [e]) (count_application withdrawn st e).
Proof.
  intros Hap. destruct st as [counted latest].
  assert (Hsame : applied (events ++ [e]) (counted, latest)).
  { destruct Hap as [Hk Hi]. split; [done|]. intros k x Hx. destruct (Hi k x Hx) as (? & ? & ? & e0 & ? & ?).
    split_and!; [done..|]. exists e0. split; [apply elem_of_app; by left|done]. }
  unfold count_application. destruct (ev_type e) eqn:Ht; try done.
  destruct (fact_id e) as [f|] eqn:Hf; [|done].
  assert (Hcount : forall e' lat, event_id e' = event_id e -> ev_type e' = Asserted -> is_Some (fact_id e') ->
            applied (events ++ [e]) (odict_set (event_id e') e' counted, lat)).
  { intros e' lat Hid Ht' Hf'. destruct Hsame as [Hk Hi]. split; [by apply odict_set_nodup|].
    intros k x [[= -> ->]|Hx]%odict_set_elem; [|by apply Hi]. split_and!; [done..|].
    exists e. split; [apply elem_of_app; right; by apply list_elem_of_singleton|done]. }
  destruct (asserts_fact e); [apply Hcount; [done..|by eexists]|].
  destruct (latest !! f) as [r|]; [|done]. case_decide; [|done]. apply Hcount; [done..|by eexists].
Qed.
End applications.

Lemma applications_ok events :
  NoDup (applications events).*1 /\
  forall k e, (k, e) ∈ applications events -> event_id e = k /\ ev_type e = Asserted /\ is_Some (fact_id e) /\
    exists e0, e0 ∈ events /\ event_id e0 = k /\ ev_type e0 = Asserted.
Proof.
  unfold applications. generalize (withdrawn_event_ids events). intros w.
  assert (Hap : applied events (foldl (count_application w) ([], ∅) events)); [|by destruct Hap].
  induction events as [|e events IH] using rev_ind.
  - split; [constructor|]. intros k e Hx. by apply not_elem_of_nil in Hx.
  - rewrite foldl_app. by apply count_application_ok.
Qed.

(** Collecting groups the applications by fact and keeps the successors in order. *)
Record grouped (apps : list FactEvent) (st : collected) : Prop := {
  gr_keys : NoDup (co_by_fact st).*1;
  gr_elem : forall f e, e ∈ default [] (odict_get f (co_by_fact st)) <-> e ∈ apps /\ fact_id e = Some f;
  gr_succ : (co_successors st).*1 `sublist_of` apps
}.

Lemma collect_application_ok apps e st : grouped apps st -> grouped (apps ++ [e]) (collect_application st e).
Proof.
  intros [Hk He Hs]. unfold collect_application.
  assert (Hskip : (co_successors st).*1 `sublist_of` apps ++ [e]) by by apply sublist_inserts_r.
  assert (Htake : forall w, (co_successors st ++ [(e, w)]).*1 `sublist_of` apps ++ [e])
    by (intros w; rewrite fmap_app; by apply sublist_app).
  destruct (fact_id e) as [f|] eqn:Hf.
  - assert (Hin : forall f' x, x ∈ default [] (odict_get f' (odict_push f e (co_by_fact st))) <->
              x ∈ apps ++ [e] /\ fact_id x = Some f').
    { intros f' x. rewrite elem_of_odict_push, He, elem_of_app, list_elem_of_singleton. naive_solver. }
    destruct (supersedes_fact_ids e); [|destruct (ev_fact e); [|destruct (asserts_fact e)]];
      (split; simpl; [by apply odict_push_nodup|exact Hin|auto]).
  - split; [done| |done]. intros f' x. rewrite He, elem_of_app, list_elem_of_singleton. naive_solver.
Qed.

Lemma collect_receipts_ok events st :
  let st' := foldl collect_receipt st events in
  co_by_fact st' = co_by_fact st /\
  exists l, (co_successors st').*1 = (co_successors st).*1 ++ l /\
    l `sublist_of` filter (fun e => ev_type e = SupersededEvent) events.
Proof.
  revert st; induction events as [|e events IH]; intros st; simpl.
  { split; [done|]. exists []. by rewrite app_nil_r. }
  destruct (IH (collect_receipt st e)) as (Hby & l & Hl & Hsub). rewrite Hby, Hl, filter_cons.
  unfold collect_receipt. destruct (bool_decide (ev_type e = SupersededEvent)) eqn:Ht; simpl.
  - apply bool_decide_eq_true in Ht. rewrite decide_True by done. destruct (negb _); simpl.
    + split; [done|]. exists (e :: l). rewrite fmap_app, <-(assoc_L (++)). split; [done|by constructor].
    + split; [done|]. exists l. split; [done|by constructor].
  - apply bool_decide_eq_false in Ht. rewrite decide_False by done. split; [done|]. by exists l.
Qed.

Lemma collect_ok events :
  NoDup (co_by_fact (collect events)).*1 /\
  (forall f e, e ∈ default [] (odict_get f (co_by_fact (collect events))) <->
     e ∈ (applications events).*2 /\ fact_id e = Some f) /\
  exists l, (co_successors (collect events)).*1 `sublist_of` (applications events).*2 ++ l /\
    l `sublist_of` filter (fun e => ev_type e = SupersededEvent) events.
Proof.
  unfold collect. set (st := foldl collect_application _ _).
  assert (Hst : grouped (applications events).*2 st).
  { unfold st. generalize (applications events).*2. intros apps.
    induction apps as [|e apps IH] using rev_ind; [|rewrite foldl_app; by apply collect_application_ok].
    split; [constructor| |constructor]. intros f e. simpl. rewrite !elem_of_nil. naive_solver. }
  destruct Hst as [Hk He Hs]. destruct (collect_receipts_ok events st) as (Hby & l & Hl & Hsub).
  rewrite Hby, Hl. split_and!; [done..|]. exists l. split; [by apply sublist_app|done].
Qed.

(** A history as a ledger keeps it: distinct events, every assertion a claim passes
    through counted as it is, and claims that lead to later assertions. *)
Record orderly_history (events : list FactEvent) : Prop := {
  oh_ids : NoDup (event_id <$> events);
  oh_children : forall k e', k ∈ claims_of_history events -> cl_child k = Some e' -> e' ∈ (applications events).*2;
  oh_later : forall k e e', k ∈ claims_of_history events -> e ∈ (applications events).*2 -> names k e ->
    cl_child k = Some e' -> e' = e \/ (created_at e < created_at e')%Z
}.

Lemma NoDup_fmap_inj {A B} (f : A -> B) l x y : NoDup (f <$> l) -> x ∈ l -> y ∈ l -> f x = f y -> x = y.
Proof.
  intros Hnd [i Hi]%list_elem_of_lookup [j Hj]%list_elem_of_lookup Hf.
  assert (i = j) as ->; [|congruence].
  eapply NoDup_lookup; [exact Hnd|..]; rewrite list_lookup_fmap; [by rewrite Hi|by rewrite Hj, Hf].
Qed.

Lemma application_ids events : NoDup (event_id <$> (applications events).*2).
Proof.
  destruct (applications_ok events) as [Hnd Hids].
  replace (event_id <$> (applications events).*2) with (applications events).*1; [done|].
  rewrite <-list_fmap_compose. apply list_fmap_ext. intros i [k e] Hx. simpl. symmetry.
  apply (Hids k e). by apply list_elem_of_lookup_2 in Hx.
Qed.

Lemma orderly_history_orderly events :
  orderly_history events -> orderly (claims_of_history events) (co_by_fact (collect events)).
Proof.
  intros [Hids Hch Hlater]. destruct (collect_ok events) as (Hk & He & l & Hs & Hl).
  destruct (applications_ok events) as [_ Hap]. pose proof (application_ids events) as Hnd.
  assert (Hgroup : forall f g e, (f, g) ∈ co_by_fact (collect events) -> e ∈ g ->
            e ∈ (applications events).*2 /\ fact_id e = Some f).
  { intros f g e Hf Hg. apply He. apply (odict_get_some f g _ Hk) in Hf. by rewrite Hf. }
  assert (Hnode : forall e, node (claims_of_history events) (co_by_fact (collect events)) e ->
            e ∈ (applications events).*2).
  { intros e [(f & g & Hf & Hg)|(k & Hkin & Hc)]; [by eapply Hgroup|by eapply Hch]. }
  split.
  - done.
  - intros f g e Hf Hg. by eapply Hgroup.
  - unfold claims_of_history. rewrite <-list_fmap_compose.
    rewrite (list_fmap_ext _ (event_id ∘ fst)) by done.
    rewrite list_fmap_compose. eapply sublist_NoDup; [|by apply fmap_sublist].
    rewrite fmap_app. apply NoDup_app. split; [done|]. split.
    + intros id Hid Hl'. apply list_elem_of_fmap in Hid as (a & -> & Ha).
      apply list_elem_of_fmap in Hl' as (r & Heq & Hr).
      apply list_elem_of_fmap in Ha as ([k a'] & -> & Ha). simpl in *.
      destruct (Hap k a' Ha) as (Hk' & _ & _ & e0 & He0 & Hide0 & Ht0).
      eapply elem_of_submseteq in Hr; [|by apply sublist_submseteq].
      apply list_elem_of_filter in Hr as [Htr Hr].
      assert (e0 = r) as -> by (eapply (NoDup_fmap_inj event_id); [exact Hids|done|done|congruence]). congruence.
    + eapply sublist_NoDup; [|apply fmap_sublist; etrans; [exact Hl|apply sublist_filter]]. done.
  - intros e e' H1%Hnode H2%Hnode Hid. by eapply (NoDup_fmap_inj event_id).
  - intros e f Hn%Hnode Hf. assert (Hin : e ∈ default [] (odict_get f (co_by_fact (collect events)))) by by apply He.
    destruct (odict_get f _); [by eexists|by apply not_elem_of_nil in Hin].
  - intros k e e' Hkin Hn%Hnode. by apply Hlater.
Qed.

Lemma hidden_at_covers index e t : hidden_at index e t = true <-> covers_time (hidden_of index e) t.
Proof.
  unfold hidden_at, covers_time. rewrite existsb_exists, Exists_exists. setoid_rewrite list_elem_of_In.
  unfold inside. split; intros (i & ? & Hi); exists i; (split; [done|]).
  - by apply andb_true_iff in Hi as [?%Z.leb_le ?%Z.ltb_lt].
  - apply andb_true_iff. by rewrite Z.leb_le, Z.ltb_lt.
Qed.

Lemma fact_supersession_ok (events : list FactEvent) : exists index, fact_supersession events = Ok index.
Proof.
  unfold fact_supersession.
  destruct (resolve_all_total (claims_of_history events) (co_by_fact (collect events))) as (st & ->).
  by exists (se_resolved st).
Qed.

(** Reading the supersession of a history always ends.  Whatever events it is given,
    cycles of equal timestamps, repeated ids and unpaired receipts included, the iterative
    search of [fact_supersession] neither runs forever nor raises: no claim is missing
    from an index, every claim it moves to leads somewhere, and twice the number of
    claims bounds its steps. *)
Theorem fact_supersession_total (events : list FactEvent) :
  exists index, fact_supersession events = Ok index.
Proof.
  apply fact_supersession_ok.
Qed.

Lemma history_exact (events : list FactEvent) :
  orderly_history events ->
  exists index, fact_supersession events = Ok index /\
    forall e t, e ∈ (applications events).*2 ->
      hidden_at index e t = true <-> hidden_by_chain (claims_of_history events) t e.
Proof.
  intros H.
  destruct (resolve_all_exact (claims_of_history events) (co_by_fact (collect events))) as (st & Hst & Hex).
  { by apply orderly_history_orderly. }
  unfold fact_supersession. rewrite Hst. exists (se_resolved st). split; [done|].
  intros e t He. rewrite hidden_at_covers. unfold hidden_of.
  destruct (applications_ok events) as [_ Hap]. destruct (collect_ok events) as (Hk & Hin & _).
  pose proof He as ([k e'] & -> & Hke)%list_elem_of_fmap. destruct (Hap k e' Hke) as (_ & _ & [f Hf] & _). simpl in *.
  assert (Hg : e' ∈ default [] (odict_get f (co_by_fact (collect events)))) by by apply Hin.
  destruct (odict_get f _) as [g|] eqn:Hget; [|by apply not_elem_of_nil in Hg]. simpl in Hg.
  eapply Hex; [|exact Hg]. by apply odict_get_some.
Qed.

(** C9: supersession is exact.  On an orderly history, a counted assertion is hidden at an
    instant exactly when a chain of successors hides it: a claim recorded no earlier names
    its fact, is not the assertion itself, and either holds at that instant in its own
    window or passes through an assertion that is itself hidden then.  A withdrawn
    successor has no window of its own, so it only passes on what hides it. *)
Theorem supersession_exact (events : list FactEvent) (H : orderly_history events) :
  exists index, fact_supersession events = Ok index /\
    forall e t, e ∈ (applications events).*2 ->
      hidden_at index e t = true <-> hidden_by_chain (claims_of_history events) t e.
Proof.
  by apply history_exact.
Qed.

(** ** What is left in force *)

Lemma without_all_covers windows intervals t :
  on_line t ->
  covers_time (without_all intervals windows) t <-> covers_time intervals t /\ ~ covers_time windows t.
Proof.
  intros Ht. revert intervals; induction windows as [|w windows IH]; intros intervals; cbn [without_all].
  { rewrite covers_time_nil. tauto. }
  pose proof (without_spec intervals (Some (Some w.1, Some w.2)) t Ht) as Hw.
  rewrite <-not_true_iff_false in Hw. unfold holds in Hw. rewrite andb_true_iff, Z.leb_le, Z.ltb_lt in Hw.
  rewrite covers_time_cons. unfold inside. destruct (without _ _) as [|i kept].
  - rewrite !covers_time_nil in *. tauto.
  - rewrite IH, Hw. tauto.
Qed.

(** What is in force.  An assertion is in force exactly at the instants its fact holds
    and no successor hides it, and it overlaps a claim exactly when one of its intervals
    in force shares an instant with the claim's window; an erased assertion is never in
    force. *)
Theorem in_force_exact (index : FactSupersession) (e : FactEvent) (claimed : AtomicFact) :
  (forall t, on_line t -> covers_time (in_force index e) t <->
     exists fact, ev_fact e = Some fact /\ holds (Some (fact_window fact)) t = true /\ hidden_at index e t = false) /\
  (overlaps index e claimed = true <->
     exists t i, i ∈ in_force index e /\ inside t i /\ inside t (span (Some (fact_window claimed)))).
Proof.
  split.
  - intros t Ht. unfold in_force. destruct (ev_fact e) as [fact|].
    2:{ rewrite covers_time_nil. split; [done|]. by intros (? & ? & _). }
    rewrite (without_all_covers _ _ _ Ht), covers_time_cons, covers_time_nil, (span_holds _ _ Ht).
    rewrite <-hidden_at_covers, not_true_iff_false. naive_solver.
  - unfold overlaps. destruct (span (Some (fact_window claimed))) as [low high]. rewrite existsb_exists.
    setoid_rewrite <-list_elem_of_In. unfold inside. split.
    + intros ([a b] & Hi & Hlt%Z.ltb_lt). simpl in *. exists (Z.max a low), (a, b). simpl. split; [done|lia].
    + intros (t & [a b] & Hi & H1 & H2). exists (a, b). simpl in *. split; [done|]. apply Z.ltb_lt. lia.
Qed.

(** ** Write ordering *)

Lemma latest_time_spec events :
  match latest_time events with
  | Some m => (exists e, e ∈ events /\ created_at e = m) /\ forall e, e ∈ events -> (created_at e <= m)%Z
  | None => events = []
  end.
Proof.
  unfold latest_time. induction events as [|e events IH] using rev_ind; [done|].
  rewrite foldl_app. simpl. destruct (foldl _ _ _) as [m|].
  - destruct IH as [(x & Hx & Hm) Hle]. split.
    + destruct (Z.max_spec m (created_at e)) as [[_ ->]|[_ ->]]; [exists e|exists x]; rewrite elem_of_app;
        rewrite ?list_elem_of_singleton; auto.
    + intros y [Hy| ->%list_elem_of_singleton]%elem_of_app; [specialize (Hle y Hy)|]; lia.
  - subst. split; [exists e; split; [by left|done]|]. by intros y ->%list_elem_of_singleton.
Qed.

(** One key's events are recorded in the order they were written.  The time an
    assertion is stamped with is never earlier than the clock, strictly later than every
    recorded event of the fact's conflict key, receipts of its facts included, and moved
    past the clock only by as little as that needs. *)
Theorem ordered_after_strict json_text sha256_hex isoformat (moment : Z) (history : list FactEvent) (fact : AtomicFact) :
  let stamped := ordered_after json_text sha256_hex isoformat moment history fact in
  let recorded := key_members json_text sha256_hex history fact ++
                  key_receipts json_text sha256_hex isoformat history fact in
  (moment <= stamped)%Z /\ (forall e, e ∈ recorded -> (created_at e < stamped)%Z) /\
  (stamped = moment \/ exists e, e ∈ recorded /\ (moment <= created_at e)%Z /\ stamped = (created_at e + 1)%Z).
Proof.
  cbv zeta. unfold ordered_after. pose proof (latest_time_spec (key_members json_text sha256_hex history fact ++
    key_receipts json_text sha256_hex isoformat history fact)) as Hl.
  destruct (latest_time _) as [m|]; [destruct Hl as [(e & He & Hm) Hle]; destruct (Z.leb_spec moment m)|].
  - split_and!; [lia|intros x Hx; specialize (Hle x Hx); lia|]. right. exists e. split_and!; [done|lia|lia].
  - split_and!; [lia|intros x Hx; specialize (Hle x Hx); lia|by left].
  - rewrite Hl. split_and!; [lia|by intros x ?%not_elem_of_nil|by left].
Qed.

(** Paris; then Rome for a season, superseding it; then Oslo from mid-season, superseding
    Rome; then Rome is withdrawn: Paris stays hidden while Oslo holds, and only then. *)
Definition demo_fact (city : string) (window : FactWindow) : AtomicFact :=
  {| af_namespace := "memory"; af_subject := "ada"; af_predicate := "lives_in"; af_object := VStr city;
     af_context := []; af_valid_from := window.1; af_valid_until := window.2; af_cardinality := None |}.

Definition demo_event (id : string) (type : event_type) (fact : option AtomicFact) (fid : option string)
    (supersedes : list string) (request : string) (at_ : Z) : FactEvent :=
  {| event_id := id; ev_type := type; tenant_id := "t"; generation_id := "g"; ev_fact := fact; fact_id := fid;
     evidence_cards := []; supersedes_fact_ids := supersedes; request_id := request; writer := "w";
     decision_code := APPLIED; created_at := at_; lease_token := None |}.

Definition demo_paris := demo_event "e1" Asserted (Some (demo_fact "Paris" (None, None))) (Some "f1") [] "r1" 1.

Definition demo_history : list FactEvent :=
  [demo_paris;
   demo_event "e2" Asserted (Some (demo_fact "Rome" (Some 10%Z, Some 30%Z))) (Some "f2") ["f1"] "r2" 2;
   demo_event "e2_sup" SupersededEvent (Some (demo_fact "Rome" (Some 10%Z, Some 30%Z))) (Some "f2") ["f1"]
     "r2:supersession" 2;
   demo_event "e3" Asserted (Some (demo_fact "Oslo" (Some 20%Z, Some 40%Z))) (Some "f3") ["f2"] "r3" 3;
   demo_event "e4" Withdrawn None None [] "withdrawal:e2" 4].

Example demo_supersession :
  fact_supersession demo_history = Ok (<["e1" := [(20%Z, 40%Z)]]> (<["e2" := [(20%Z, 40%Z)]]> (<["e3" := []]> ∅))).
Proof. vm_compute. reflexivity. Qed.


Definition demo_rome := demo_event "e2" Asserted (Some (demo_fact "Rome" (Some 10%Z, Some 30%Z))) (Some "f2") ["f1"] "r2" 2.
Definition demo_oslo := demo_event "e3" Asserted (Some (demo_fact "Oslo" (Some 20%Z, Some 40%Z))) (Some "f3") ["f2"] "r3" 3.

Lemma demo_applications : (applications demo_history).*2 = [demo_paris; demo_rome; demo_oslo].
Proof. vm_compute. reflexivity. Qed.

Lemma demo_claims :
  claims_of_history demo_history =
  [Claim demo_rome (Some demo_rome) []; Claim demo_oslo (Some demo_oslo) [(20, 40)%Z]].
Proof. vm_compute. reflexivity. Qed.

Lemma demo_orderly : orderly_history demo_history.
Proof.
  split.
  - by_decide.
  - rewrite demo_claims, demo_applications. intros k e'.
    rewrite !elem_of_cons, elem_of_nil. intros [->|[->|[]]] [= <-]; auto.
  - rewrite demo_claims, demo_applications. intros k e e'. rewrite !elem_of_cons, !elem_of_nil.
    intros [->|[->|[]]] [->|[->|[->|[]]]] (f & Hf & Hin & Hle) [= <-]; simpl in *; simplify_eq;
      try (by left); try (right; lia); try lia; set_solver.
Qed.

Lemma supersession_exact_witness :
  exists index, fact_supersession demo_history = Ok index /\
    (hidden_at index demo_paris 25 = true <-> hidden_by_chain (claims_of_history demo_history) 25 demo_paris).
Proof.
  destruct (supersession_exact demo_history demo_orderly) as (index & Hrun & Hexact).
  exists index. split; [done|]. apply Hexact. rewrite demo_applications. by left.
Defined.
