(* ===== verification/Outbox.v ===== *)
(** * Outbox: durable delivery of ledger events
    (src/recall/fact_ledger.py, src/recall/provenance_controller.py)

    An event is enqueued once, claimed under a lease that expires, delivered, and marked
    applied or failed by the lease's holder.  [FactMaterializationOutbox] is the protocol
    the recovery relies on, as a class with its laws; the in-memory and the SQLite queues
    are its two implementations.  A SQLite queue is its table and the worker's copy of it;
    a row holds the event itself, which its JSON snapshot stands for. *)
From S2P Require Import Prelude Text Float64 Frontmatter Intervals FactEvents.

Inductive delivery := Pending | Processing | Failed | Applied.

#[export] Instance delivery_eq_dec : EqDecision delivery.
Proof. solve_decision. Defined.

(** [(status, attempts, lease_until, error)]. *)
Record entry := Entry {
  en_status : delivery;
  en_attempts : nat;
  en_lease : option Z;
  en_error : option string
}.

(** A claimed event carries its lease; a stored one does not. *)
Definition with_lease (e : FactEvent) (token : option string) : FactEvent :=
  {| event_id := event_id e; ev_type := ev_type e; tenant_id := tenant_id e;
     generation_id := generation_id e; ev_fact := ev_fact e; fact_id := fact_id e;
     evidence_cards := evidence_cards e; supersedes_fact_ids := supersedes_fact_ids e;
     request_id := request_id e; writer := writer e; decision_code := decision_code e;
     created_at := created_at e; lease_token := token |}.

Definition valid_limit (limit : Z) : bool := ((1 <=? limit) && (limit <=? 1000))%Z.

Definition error_text (error : string) : string := String.substring 0 2000 error.

(** ** The in-memory queue *)

Record MemoryOutbox := Memory {
  mo_events : list (string * FactEvent);
  mo_state : gmap string entry;
  mo_tokens : gmap string string
}.

Definition new_memory_outbox (lease_seconds : Z) : result MemoryOutbox :=
  if (lease_seconds <? 1)%Z then Raise (ValueError "lease_seconds must be positive")
  else Ok (Memory [] ∅ ∅).

Section memory.
(** Whether two rows have the same payload ([_event_to_payload] compared), the lease a
    claim takes in microseconds, and the token [uuid4] mints for each event it claims. *)
Context (same_payload : FactEvent -> FactEvent -> bool) (lease : Z).

Definition memory_enqueue (o : MemoryOutbox) (e : FactEvent) : result MemoryOutbox :=
  match odict_get (event_id e) (mo_events o) with
  | Some prior =>
      if same_payload prior e then Ok o else Raise (ValueError "materialization event collision")
  | None =>
      Ok (Memory (odict_set (event_id e) e (mo_events o))
                 (<[event_id e := Entry Pending 0 None None]> (mo_state o)) (mo_tokens o))
  end.

(** Not applied, and not under a lease that still runs. *)
Definition due (moment : Z) (n : entry) : bool :=
  match en_status n with
  | Applied => false
  | Processing => match en_lease n with Some until => (until <=? moment)%Z | None => true end
  | _ => true
  end.

Definition claimed_entry (moment : Z) (n : entry) : entry :=
  Entry Processing (S (en_attempts n)) (Some (moment + lease)%Z) (en_error n).

Fixpoint memory_claim_loop (mint : string -> string) (tenant : string) (only : option string) (limit : Z)
    (moment : Z) (items : list (string * FactEvent)) (o : MemoryOutbox) (selected : list FactEvent) :
    result (MemoryOutbox * list FactEvent) :=
  match items with
  | [] => Ok (o, selected)
  | (key, e) :: items' =>
      if negb (bool_decide (tenant_id e = tenant)) ||
         match only with Some id => negb (bool_decide (key = id)) | None => false end
      then memory_claim_loop mint tenant only limit moment items' o selected
      else match mo_state o !! key with
           | None => Raise (KeyError key)
           | Some n =>
               if due moment n then
                 let o' := Memory (mo_events o) (<[key := claimed_entry moment n]> (mo_state o))
                                  (<[key := mint key]> (mo_tokens o)) in
                 let selected' := selected ++ [with_lease e (Some (mint key))] in
                 if (limit <=? Z.of_nat (length selected'))%Z then Ok (o', selected')
                 else memory_claim_loop mint tenant only limit moment items' o' selected'
               else memory_claim_loop mint tenant only limit moment items' o selected
           end
  end.

Definition memory_claim (mint : string -> string) (o : MemoryOutbox) (tenant : string) (only : option string)
    (limit now : Z) : result (MemoryOutbox * list FactEvent) :=
  if decide (tenant = "") then Raise (ValueError "outbox tenant must be non-empty")
  else if negb (valid_limit limit) then Raise (ValueError "limit must be between 1 and 1000")
  else memory_claim_loop mint tenant only limit now (mo_events o) o [].

(** [mark_applied] and [mark_failed] are one check and two entries. *)
Definition memory_mark (entry_of : entry -> entry) (o : MemoryOutbox) (tenant id : string)
    (token : option string) : result MemoryOutbox :=
  match odict_get id (mo_events o) with
  | None => Raise (KeyError id)
  | Some e =>
      if negb (bool_decide (tenant_id e = tenant)) then Raise (KeyError id)
      else if match token with Some t => negb (bool_decide (mo_tokens o !! id = Some t)) | None => false end
      then Raise (ValueError "outbox lease lost")
      else match mo_state o !! id with
           | None => Raise (KeyError id)
           | Some n => Ok (Memory (mo_events o) (<[id := entry_of n]> (mo_state o)) (mo_tokens o))
           end
  end.

Definition applied_entry (n : entry) : entry := Entry Applied (en_attempts n) None (en_error n).
Definition failed_entry (error : string) (n : entry) : entry :=
  Entry Failed (en_attempts n) None (Some (error_text error)).

Definition memory_mark_applied := memory_mark applied_entry.
Definition memory_mark_failed (error : string) := memory_mark (failed_entry error).

Definition memory_status (o : MemoryOutbox) (id : string) : result (option delivery) :=
  match mo_state o !! id with Some n => Ok (Some (en_status n)) | None => Raise (KeyError id) end.

(** ** The SQLite queue *)

(** A row of [recall_fact_materialization_outbox]; [tr_created] is the text it is ordered by. *)
Record table_row := TableRow {
  tr_event : FactEvent;
  tr_entry : entry;
  tr_token : option string;
  tr_created : string
}.

Record SQLiteOutbox := SQLite {
  sq_tenant : string;
  sq_rows : list table_row;
  sq_cache : MemoryOutbox
}.

Context (isoformat : Z -> string).

Definition row_id (r : table_row) : string := event_id (tr_event r).

Definition row_leb (a b : table_row) : bool :=
  if decide (tr_created a = tr_created b) then String.leb (row_id a) (row_id b)
  else String.leb (tr_created a) (tr_created b).

(** [SELECT ... WHERE tenant_id = ? ORDER BY created_at, event_id]. *)
Definition tenant_rows (tenant : string) (rows : list table_row) : list table_row :=
  stable_sort row_leb (filter (fun r => tenant_id (tr_event r) = tenant) rows).

(** [__init__]: the worker's copy is read from the table. *)
Definition load_row (c : MemoryOutbox) (r : table_row) : MemoryOutbox :=
  Memory (odict_set (row_id r) (tr_event r) (mo_events c)) (<[row_id r := tr_entry r]> (mo_state c))
    (match tr_token r with
     | Some t => if decide (t = "") then mo_tokens c else <[row_id r := t]> (mo_tokens c)
     | None => mo_tokens c
     end).

Definition open_sqlite (tenant : string) (rows : list table_row) : result SQLiteOutbox :=
  if decide (tenant = "") then Raise (ValueError "path and tenant_id must be non-empty")
  else Ok (SQLite tenant rows (foldl load_row (Memory [] ∅ ∅) (tenant_rows tenant rows))).

(** [INSERT ... ON CONFLICT(event_id) DO NOTHING]. *)
Definition insert_row (rows : list table_row) (e : FactEvent) : list table_row :=
  if existsb (fun r => bool_decide (row_id r = event_id e)) rows then rows
  else rows ++ [TableRow (with_lease e None) (Entry Pending 0 None None) None (isoformat (created_at e))].

Definition sqlite_enqueue (o : SQLiteOutbox) (e : FactEvent) : result SQLiteOutbox :=
  if negb (bool_decide (tenant_id e = sq_tenant o)) then Raise (ValueError "outbox tenant mismatch")
  else c ← memory_enqueue (sq_cache o) e; Ok (SQLite (sq_tenant o) (insert_row (sq_rows o) e) c).

(** The rows a claim may take, and the ones it takes. *)
Definition row_due (moment : Z) (r : table_row) : bool :=
  match en_status (tr_entry r) with
  | Applied => false
  | Processing => match en_lease (tr_entry r) with Some until => (until <=? moment)%Z | None => false end
  | _ => true
  end.

Definition claimable (o : SQLiteOutbox) (only : option string) (moment : Z) : list table_row :=
  filter (fun r => row_due moment r = true)
    (filter (fun r => match only with Some id => bool_decide (row_id r = id) | None => true end = true)
      (tenant_rows (sq_tenant o) (sq_rows o))).

(** [UPDATE ... WHERE event_id = ? AND tenant_id = ?], by a function of the row. *)
Definition update_rows (f : table_row -> table_row) (id tenant : string) (rows : list table_row) : list table_row :=
  map (fun r => if bool_decide (row_id r = id /\ tenant_id (tr_event r) = tenant) then f r else r) rows.

Definition claimed_row (moment : Z) (token : string) (r : table_row) : table_row :=
  TableRow (tr_event r) (claimed_entry moment (tr_entry r)) (Some token) (tr_created r).

Definition claim_row (mint : string -> string) (moment : Z) (st : SQLiteOutbox * list FactEvent)
    (r : table_row) : SQLiteOutbox * list FactEvent :=
  let '(o, events) := st in
  let token := mint (row_id r) in
  let c := sq_cache o in
  (SQLite (sq_tenant o) (update_rows (claimed_row moment token) (row_id r) (sq_tenant o) (sq_rows o))
     (Memory (odict_set (row_id r) (tr_event r) (mo_events c))
        (<[row_id r := claimed_entry moment (tr_entry r)]> (mo_state c))
        (<[row_id r := token]> (mo_tokens c))),
   events ++ [with_lease (tr_event r) (Some token)]).

Definition sqlite_claim (mint : string -> string) (o : SQLiteOutbox) (tenant : string) (only : option string)
    (limit now : Z) : result (SQLiteOutbox * list FactEvent) :=
  if negb (bool_decide (tenant = sq_tenant o)) then Raise (ValueError "outbox tenant mismatch")
  else if negb (valid_limit limit) then Raise (ValueError "limit must be between 1 and 1000")
  else Ok (foldl (claim_row mint now) (o, []) (take (Z.to_nat limit) (claimable o only now))).

(** The row a mark updates: the tenant's, under the lease when one is named. *)
Definition marks (tenant id : string) (token : option string) (r : table_row) : bool :=
  bool_decide (row_id r = id) && bool_decide (tenant_id (tr_event r) = tenant) &&
  match token with Some t => bool_decide (tr_token r = Some t) | None => true end.

(** The table is updated before the worker's copy is checked: a copy that disagrees raises
    after the row has changed. *)
Definition sqlite_mark (entry_of : entry -> entry) (o : SQLiteOutbox) (tenant id : string)
    (token : option string) : SQLiteOutbox * result unit :=
  match mo_state (sq_cache o) !! id with
  | None => (o, Raise (KeyError id))
  | Some n =>
      if existsb (marks tenant id token) (sq_rows o) then
        let rows := map (fun r => if marks tenant id token r
                                  then TableRow (tr_event r) (entry_of n) None (tr_created r) else r) (sq_rows o) in
        match memory_mark entry_of (sq_cache o) tenant id token with
        | Ok c => (SQLite (sq_tenant o) rows c, Ok tt)
        | Raise ex => (SQLite (sq_tenant o) rows (sq_cache o), Raise ex)
        end
      else (o, Raise (ValueError "outbox lease lost"))
  end.

Definition sqlite_mark_applied := sqlite_mark applied_entry.
Definition sqlite_mark_failed (error : string) := sqlite_mark (failed_entry error).

Definition sqlite_status (o : SQLiteOutbox) (id : string) : option delivery :=
  (fun r => en_status (tr_entry r)) <$>
  head (filter (fun r => row_id r = id /\ tenant_id (tr_event r) = sq_tenant o) (sq_rows o)).
End memory.

(** ** The protocol *)

Record held := Held { hd_event : FactEvent; hd_entry : entry; hd_token : option string }.

(** [FactMaterializationOutbox]: a call returns or raises, and either way leaves a state. *)
Class FactMaterializationOutbox (S : Type) := {
  ob_enqueue : S -> FactEvent -> S * result unit;
  ob_claim : (string -> string) -> S -> string -> option string -> Z -> Z -> S * result (list FactEvent);
  ob_mark_applied : S -> string -> string -> option string -> S * result unit;
  ob_mark_failed : string -> S -> string -> string -> option string -> S * result unit
}.

(** What an implementation promises one tenant: with an invariant [ob_ok] and what it holds
    under each event id [ob_view], what each call does. *)
Class OutboxLaws (same_payload : FactEvent -> FactEvent -> bool) (lease : Z) (tenant : string)
    {S : Type} `{FactMaterializationOutbox S} (ob_ok : S -> Prop) (ob_view : S -> string -> option held) : Prop := {
  ob_view_id : forall s id h, ob_ok s -> ob_view s id = Some h ->
    event_id (hd_event h) = id /\ lease_token (hd_event h) = None;
  ob_enqueue_new : forall s e, ob_ok s -> tenant_id e = tenant -> lease_token e = None -> ob_view s (event_id e) = None ->
    exists s' token', ob_enqueue s e = (s', Ok tt) /\ ob_ok s' /\
      ob_view s' (event_id e) = Some (Held e (Entry Pending 0 None None) token') /\
      forall id, id <> event_id e -> ob_view s' id = ob_view s id;
  ob_enqueue_again : forall s e h, ob_ok s -> tenant_id e = tenant -> ob_view s (event_id e) = Some h ->
    same_payload (hd_event h) e = true ->
    exists s', ob_enqueue s e = (s', Ok tt) /\ ob_ok s' /\ forall id, ob_view s' id = ob_view s id;
  ob_claim_due : forall s mint limit now, ob_ok s -> valid_limit limit = true ->
    exists s' events dues, ob_claim mint s tenant None limit now = (s', Ok events) /\ ob_ok s' /\
      NoDup dues /\ (forall id, id ∈ dues <-> exists h, ob_view s id = Some h /\ due now (hd_entry h) = true) /\
      event_id <$> events = take (Z.to_nat limit) dues /\
      (forall e h, e ∈ events -> ob_view s (event_id e) = Some h ->
         e = with_lease (hd_event h) (Some (mint (event_id e))) /\
         ob_view s' (event_id e) = Some (Held (hd_event h) (claimed_entry lease now (hd_entry h)) (Some (mint (event_id e))))) /\
      (forall id, id ∉ event_id <$> events -> ob_view s' id = ob_view s id);
  ob_mark_held : forall s id h token, ob_ok s -> ob_view s id = Some h -> hd_token h = Some token ->
    (exists s' token', ob_mark_applied s tenant id (Some token) = (s', Ok tt) /\ ob_ok s' /\
       ob_view s' id = Some (Held (hd_event h) (applied_entry (hd_entry h)) token') /\
       forall id', id' <> id -> ob_view s' id' = ob_view s id') /\
    (forall error, exists s' token', ob_mark_failed error s tenant id (Some token) = (s', Ok tt) /\ ob_ok s' /\
       ob_view s' id = Some (Held (hd_event h) (failed_entry error (hd_entry h)) token') /\
       forall id', id' <> id -> ob_view s' id' = ob_view s id');
  ob_mark_lost : forall s id h token, ob_ok s -> ob_view s id = Some h -> hd_token h <> Some token ->
    (exists ex, ob_mark_applied s tenant id (Some token) = (s, Raise ex)) /\
    (forall error, exists ex, ob_mark_failed error s tenant id (Some token) = (s, Raise ex))
}.

(** ** Recovery *)
Section recovery.
Context {S : Type} `{FactMaterializationOutbox S}.
(** The materializer, its wanted event types, and the text an exception is recorded as. *)
Context (materialize : FactEvent -> result unit) (materializes : event_type -> bool) (describe : exn -> string).

(** [MaterializationRecovery.run_once]: the loop over what was claimed. *)
Fixpoint deliver_all (tenant : string) (s : S) (events : list FactEvent) (delivered : nat) : S * result nat :=
  match events with
  | [] => (s, Ok delivered)
  | e :: events' =>
      match materialize e with
      | Raise ex =>
          match ob_mark_failed (error_text (describe ex)) s tenant (event_id e) (lease_token e) with
          | (s', Ok _) => deliver_all tenant s' events' delivered
          | (s', Raise ex') => (s', Raise ex')
          end
      | Ok _ =>
          match ob_mark_applied s tenant (event_id e) (lease_token e) with
          | (s', Ok _) => deliver_all tenant s' events' (Datatypes.S delivered)
          | (s', Raise ex') => (s', Raise ex')
          end
      end
  end.

Definition run_once (mint : string -> string) (tenant : string) (s : S) (limit now : Z) : S * result nat :=
  if negb (valid_limit limit) then (s, Raise (ValueError "limit must be between 1 and 1000"))
  else match ob_claim mint s tenant None limit now with
       | (s', Ok events) => deliver_all tenant s' events 0
       | (s', Raise ex) => (s', Raise ex)
       end.

(** [reconcile]: the missing rows are rebuilt from the ledger, then delivered. *)
Definition event_leb (a b : FactEvent) : bool :=
  (created_at a <? created_at b)%Z || ((created_at a =? created_at b)%Z && String.leb (event_id a) (event_id b)).

Fixpoint enqueue_all (tenant : string) (s : S) (events : list FactEvent) : S * result unit :=
  match events with
  | [] => (s, Ok tt)
  | e :: events' =>
      if negb (bool_decide (tenant_id e = tenant)) then (s, Raise (ValueError "ledger event tenant mismatch"))
      else if materializes (ev_type e) then
        match ob_enqueue s e with
        | (s', Ok _) => enqueue_all tenant s' events'
        | (s', Raise ex) => (s', Raise ex)
        end
      else enqueue_all tenant s events'
  end.

Definition reconcile (mint : string -> string) (tenant : string) (s : S) (events : list FactEvent)
    (limit now : Z) : S * result nat :=
  if negb (valid_limit limit) then (s, Raise (ValueError "limit must be between 1 and 1000"))
  else match enqueue_all tenant s (stable_sort event_leb events) with
       | (s', Ok _) => run_once mint tenant s' limit now
       | (s', Raise ex) => (s', Raise ex)
       end.
End recovery.

(** [DEFAULT_MATERIALIZED_TYPES]. *)
Definition default_materialized (t : event_type) : bool := bool_decide (t = Asserted).
