(* ===== verification/OutboxFacts.v ===== *)
(** * OutboxFacts: both queues keep the protocol, and recovery delivers *)
From S2P Require Import Prelude Text Float64 Frontmatter Intervals FactEvents Outbox.

Lemma with_lease_id e t : event_id (with_lease e t) = event_id e.
Proof. done. Qed.

Lemma with_lease_none e : lease_token e = None -> with_lease e None = e.
Proof. destruct e; simpl. by intros ->. Qed.

(** A call of the in-memory queue leaves its state alone when it raises. *)
Definition leave {S} (s : S) (r : result S) : S * result unit :=
  match r with Ok s' => (s', Ok tt) | Raise ex => (s, Raise ex) end.

Section laws.
Context (same_payload : FactEvent -> FactEvent -> bool) (lease : Z) (tenant : string).

(** ** The in-memory queue *)

#[export] Instance memory_outbox : FactMaterializationOutbox MemoryOutbox := {
  ob_enqueue o e := leave o (memory_enqueue same_payload o e);
  ob_claim mint o t only limit now :=
    match memory_claim lease mint o t only limit now with
    | Ok (o', events) => (o', Ok events)
    | Raise ex => (o, Raise ex)
    end;
  ob_mark_applied o t id token := leave o (memory_mark_applied o t id token);
  ob_mark_failed error o t id token := leave o (memory_mark_failed error o t id token)
}.

(** One tenant's queue: an entry per event, each event under its own id. *)
Record memory_ok (o : MemoryOutbox) : Prop := {
  mk_keys : NoDup (mo_events o).*1;
  mk_events : forall k e, (k, e) ∈ mo_events o -> event_id e = k /\ tenant_id e = tenant /\ lease_token e = None;
  mk_state : forall k, is_Some (mo_state o !! k) <-> k ∈ (mo_events o).*1
}.

Definition memory_view (o : MemoryOutbox) (id : string) : option held :=
  e ← odict_get id (mo_events o); n ← mo_state o !! id; Some (Held e n (mo_tokens o !! id)).

Lemma memory_view_some o id h :
  memory_ok o -> memory_view o id = Some h <->
  (id, hd_event h) ∈ mo_events o /\ mo_state o !! id = Some (hd_entry h) /\ hd_token h = mo_tokens o !! id.
Proof.
  intros Hok. rewrite <-(odict_get_some id (hd_event h) _ (mk_keys _ Hok)). unfold memory_view.
  destruct (odict_get id (mo_events o)) as [e|]; simpl; [|naive_solver].
  destruct (mo_state o !! id) as [n|]; simpl; [|naive_solver]. destruct h; naive_solver.
Qed.

Lemma memory_entry o k e : memory_ok o -> (k, e) ∈ mo_events o -> exists n, mo_state o !! k = Some n.
Proof.
  intros Hok Hin. apply (mk_state _ Hok). apply list_elem_of_fmap. by exists (k, e).
Qed.

(** What a claim takes from the items it reads. *)
Definition due_items (o : MemoryOutbox) (now : Z) (items : list (string * FactEvent)) : list (string * FactEvent) :=
  filter (fun ke => match mo_state o !! ke.1 with Some n => due now n | None => false end = true) items.

Definition hand_out (mint : string -> string) (ke : string * FactEvent) : FactEvent :=
  with_lease ke.2 (Some (mint ke.1)).

Lemma due_items_update o o' now items :
  (forall k e, (k, e) ∈ items -> mo_state o' !! k = mo_state o !! k) -> due_items o' now items = due_items o now items.
Proof.
  unfold due_items. induction items as [|[k e] items IH]; intros Hsame; [done|]. rewrite !filter_cons. simpl.
  rewrite (Hsame k e) by by left. rewrite IH; [done|]. intros k' e' Hin. apply (Hsame k' e'). by right.
Qed.

Lemma memory_claim_loop_spec mint limit now items o selected :
  NoDup items.*1 ->
  (forall k e, (k, e) ∈ items -> tenant_id e = tenant /\ exists n, mo_state o !! k = Some n) ->
  (Z.of_nat (length selected) < limit)%Z ->
  let taken := take (Z.to_nat limit - length selected) (due_items o now items) in
  exists o', memory_claim_loop lease mint tenant None limit now items o selected =
    Ok (o', selected ++ (hand_out mint <$> taken)) /\ mo_events o' = mo_events o /\
    (forall k, k ∈ taken.*1 -> mo_state o' !! k = claimed_entry lease now <$> mo_state o !! k /\
                               mo_tokens o' !! k = Some (mint k)) /\
    (forall k, k ∉ taken.*1 -> mo_state o' !! k = mo_state o !! k /\ mo_tokens o' !! k = mo_tokens o !! k).
Proof.
  revert o selected; induction items as [|[k e] items IH]; intros o selected Hnd Hitems Hlen taken.
  { unfold taken. change (due_items o now []) with (@nil (string * FactEvent)). rewrite take_nil. simpl. rewrite app_nil_r. exists o. split_and!; try done.
    by intros k ?%not_elem_of_nil. }
  inversion_clear Hnd as [|? ? Hk Hnd'].
  destruct (Hitems k e) as (Ht & n & Hn); [by left|]. cbn [memory_claim_loop].
  rewrite bool_decide_eq_true_2, Hn by done. simpl. unfold taken, due_items. rewrite filter_cons. simpl. rewrite Hn.
  assert (Hrest : forall k0 e0, (k0, e0) ∈ items -> tenant_id e0 = tenant /\ exists n, mo_state o !! k0 = Some n)
    by (intros k0 e0 Hin; apply (Hitems k0 e0); by right).
  destruct (due now n) eqn:Hdue.
  2:{ rewrite decide_False by done. by apply IH. }
  rewrite decide_True by done.
  replace (Z.to_nat limit - length selected) with (S (Z.to_nat limit - S (length selected))) by lia.
  rewrite firstn_cons, !fmap_cons. rewrite length_app. simpl.
  set (o1 := Memory _ _ _).
  assert (Ho1 : forall k0, k0 <> k -> mo_state o1 !! k0 = mo_state o !! k0 /\ mo_tokens o1 !! k0 = mo_tokens o !! k0)
    by (intros k0 Hne; unfold o1; simpl; by rewrite !lookup_insert_ne).
  assert (Hk1 : mo_state o1 !! k = claimed_entry lease now <$> mo_state o !! k /\ mo_tokens o1 !! k = Some (mint k)
                /\ mo_events o1 = mo_events o)
    by (unfold o1; simpl; by rewrite !lookup_insert_eq, Hn).
  clearbody o1. destruct Hk1 as (Hst1 & Htok1 & Hev1).
  assert (Hfresh : forall k0 e0, (k0, e0) ∈ items -> k0 <> k).
  { intros k0 e0 Hin ->. apply Hk. apply list_elem_of_fmap. by exists (k, e0). }
  change (with_lease e (Some (mint k))) with (hand_out mint (k, e)).
  case_match eqn:Hfull.
  - apply Z.leb_le in Hfull. replace (Z.to_nat limit - S (length selected)) with 0 by lia. simpl.
    exists o1. split_and!; [done|done| |].
    + by intros k0 ->%list_elem_of_singleton.
    + intros k0 Hk0. apply Ho1. by intros ->; apply Hk0, list_elem_of_singleton.
  - apply Z.leb_gt in Hfull.
    destruct (IH o1 (selected ++ [hand_out mint (k, e)])) as (o2 & Hrun & Hev & Hin & Hout).
    + done.
    + intros k0 e0 Hin. destruct (Hrest k0 e0 Hin) as (? & n0 & Hn0). split; [done|]. exists n0.
      by rewrite (proj1 (Ho1 k0 (Hfresh k0 e0 Hin))).
    + rewrite length_app. simpl. lia.
    + rewrite (due_items_update o o1) in Hrun, Hin, Hout by (intros k0 e0 Hin0; apply Ho1; by eapply Hfresh).
      rewrite length_app in Hrun, Hin, Hout. simpl in Hrun, Hin, Hout. rewrite Nat.add_1_r in Hrun, Hin, Hout.
      exists o2. rewrite Hrun, <-(assoc_L (++)). split_and!; [done|congruence| |].
      * intros k0 [->|Hk0]%elem_of_cons.
        -- destruct (Hout k) as [-> ->].
           { intros Hin0. apply list_elem_of_fmap in Hin0 as ([k1 e1] & -> & Hin0).
             eapply elem_of_take in Hin0 as (i & Hi & _). apply list_elem_of_lookup_2, list_elem_of_filter in Hi as [_ Hi].
             by eapply Hfresh. }
           done.
        -- destruct (Hin k0 Hk0) as [-> ->]. destruct (Ho1 k0) as [-> _]; [|done]. intros ->.
           apply list_elem_of_fmap in Hk0 as ([k1 e1] & -> & Hin0).
           eapply elem_of_take in Hin0 as (i & Hi & _). apply list_elem_of_lookup_2, list_elem_of_filter in Hi as [_ Hi].
           by eapply Hfresh.
      * intros k0 Hk0. rewrite not_elem_of_cons in Hk0. destruct Hk0 as [Hne Hk0].
        destruct (Hout k0 Hk0) as [-> ->]. by apply Ho1.
Qed.

Lemma memory_enqueue_new o e :
  memory_ok o -> tenant_id e = tenant -> lease_token e = None -> memory_view o (event_id e) = None ->
  exists o', memory_enqueue same_payload o e = Ok o' /\ memory_ok o' /\
    memory_view o' (event_id e) = Some (Held e (Entry Pending 0 None None) (mo_tokens o !! event_id e)) /\
    forall id, id <> event_id e -> memory_view o' id = memory_view o id.
Proof.
  intros Hok Ht Hl Hview. unfold memory_enqueue.
  destruct (odict_get (event_id e) (mo_events o)) as [prior|] eqn:Hget.
  { exfalso. pose proof (odict_get_in _ _ _ Hget) as Hin. destruct (memory_entry o _ _ Hok Hin) as [n Hn].
    unfold memory_view in Hview. rewrite Hget in Hview. simpl in Hview. by rewrite Hn in Hview. }
  eexists; split; [done|]. split_and!.
  - split; simpl.
    + by apply odict_set_nodup, mk_keys.
    + rewrite (odict_set_new _ _ _ Hget). intros k x [Hx|[= -> ->]%list_elem_of_singleton]%elem_of_app; [|done].
      by apply (mk_events _ Hok).
    + intros k. rewrite odict_set_fst, <-(mk_state _ Hok), lookup_insert_is_Some.
      destruct (decide (event_id e = k)); naive_solver.
  - unfold memory_view; simpl. by rewrite odict_get_set_eq, lookup_insert_eq.
  - intros id Hid. unfold memory_view; simpl. by rewrite odict_get_set_ne, lookup_insert_ne.
Qed.

Lemma memory_mark_held entry_of o id h token :
  memory_ok o -> memory_view o id = Some h -> hd_token h = Some token ->
  exists o', memory_mark entry_of o tenant id (Some token) = Ok o' /\ memory_ok o' /\
    memory_view o' id = Some (Held (hd_event h) (entry_of (hd_entry h)) (Some token)) /\
    forall id', id' <> id -> memory_view o' id' = memory_view o id'.
Proof.
  intros Hok Hv Htok. apply (memory_view_some _ _ _ Hok) in Hv as (Hin & Hst & Htk). rewrite Htok in Htk.
  pose proof (proj2 (odict_get_some _ _ _ (mk_keys _ Hok)) Hin) as Hget.
  destruct (mk_events _ Hok _ _ Hin) as (_ & Ht & _).
  unfold memory_mark. rewrite Hget, bool_decide_eq_true_2 by done. simpl.
  rewrite bool_decide_eq_true_2 by done. simpl. rewrite Hst. eexists; split; [done|]. split_and!.
  - split; simpl; [apply Hok|apply Hok|]. intros k. rewrite <-(mk_state _ Hok), lookup_insert_is_Some.
    destruct (decide (id = k)) as [<-|]; [|naive_solver]. rewrite Hst. naive_solver.
  - unfold memory_view; simpl. by rewrite Hget; simpl; rewrite lookup_insert_eq, <-Htk.
  - intros id' Hid. unfold memory_view; simpl. by rewrite lookup_insert_ne.
Qed.

Lemma memory_mark_lost entry_of o id h token :
  memory_ok o -> memory_view o id = Some h -> hd_token h <> Some token ->
  exists ex, memory_mark entry_of o tenant id (Some token) = Raise ex.
Proof.
  intros Hok Hv Htok. apply (memory_view_some _ _ _ Hok) in Hv as (Hin & Hst & Htk).
  unfold memory_mark. rewrite (proj2 (odict_get_some _ _ _ (mk_keys _ Hok)) Hin).
  destruct (negb _); [by eexists|]. rewrite bool_decide_eq_false_2 by congruence. by eexists.
Qed.

Lemma memory_claim_due o mint limit now :
  memory_ok o -> tenant <> "" -> valid_limit limit = true ->
  exists o' events dues, memory_claim lease mint o tenant None limit now = Ok (o', events) /\ memory_ok o' /\
    NoDup dues /\ (forall id, id ∈ dues <-> exists h, memory_view o id = Some h /\ due now (hd_entry h) = true) /\
    event_id <$> events = take (Z.to_nat limit) dues /\
    (forall e h, e ∈ events -> memory_view o (event_id e) = Some h ->
       e = with_lease (hd_event h) (Some (mint (event_id e))) /\
       memory_view o' (event_id e) = Some (Held (hd_event h) (claimed_entry lease now (hd_entry h)) (Some (mint (event_id e))))) /\
    (forall id, id ∉ event_id <$> events -> memory_view o' id = memory_view o id).
Proof.
  intros Hok Hne Hlim. unfold memory_claim. rewrite decide_False, Hlim by done. simpl.
  unfold valid_limit in Hlim. apply andb_true_iff in Hlim as [Hlow%Z.leb_le _].
  destruct (memory_claim_loop_spec mint limit now (mo_events o) o []) as (o' & Hrun & Hev & Hin & Hout).
  { apply Hok. }
  { intros k e Hke. split; [by apply (mk_events _ Hok) in Hke as (_ & ? & _)|by eapply memory_entry]. }
  { simpl. lia. }
  simpl in Hrun, Hin, Hout. rewrite Nat.sub_0_r in Hrun, Hin, Hout.
  set (taken := take (Z.to_nat limit) (due_items o now (mo_events o))) in *.
  assert (Hids : event_id <$> (hand_out mint <$> taken) = taken.*1).
  { rewrite <-list_fmap_compose. apply list_fmap_ext. intros i [k e] Hi. simpl.
    apply list_elem_of_lookup_2, elem_of_take in Hi as (j & Hi & _).
    apply list_elem_of_lookup_2, list_elem_of_filter in Hi as [_ Hi]. by destruct (mk_events _ Hok _ _ Hi). }
  exists o', (hand_out mint <$> taken), (due_items o now (mo_events o)).*1.
  rewrite Hrun, Hids. split_and!.
  - done.
  - split; rewrite ?Hev; [apply Hok|apply Hok|]. intros k. rewrite <-(mk_state _ Hok).
    destruct (decide (k ∈ taken.*1)) as [Hk|Hk]; [destruct (Hin k Hk) as [-> _]; by rewrite fmap_is_Some|].
    by destruct (Hout k Hk) as [-> _].
  - unfold due_items. eapply sublist_NoDup; [apply (mk_keys _ Hok)|]. apply fmap_sublist, sublist_filter.
  - intros id. rewrite list_elem_of_fmap. unfold due_items. split.
    + intros ([k e] & -> & [Hd Hk]%list_elem_of_filter). simpl in *. destruct (memory_entry o k e Hok Hk) as [n Hn].
      rewrite Hn in Hd. exists (Held e n (mo_tokens o !! k)). split; [|done]. by apply memory_view_some.
    + intros (h & (Hk & Hst & _)%(memory_view_some _ _ _ Hok) & Hd). exists (id, hd_event h). split; [done|].
      apply list_elem_of_filter. simpl. by rewrite Hst.
  - unfold taken. by rewrite fmap_take.
  - intros e h He Hv. apply list_elem_of_fmap in He as ([k e0] & -> & Hk).
    assert (Hkt : k ∈ taken.*1) by (apply list_elem_of_fmap; by exists (k, e0)).
    pose proof Hk as (j & Hj%list_elem_of_lookup_2 & _)%elem_of_take. apply list_elem_of_filter in Hj as [_ Hj].
    destruct (mk_events _ Hok _ _ Hj) as (Hid & _). unfold hand_out in *. simpl in Hv |- *. rewrite Hid in Hv |- *.
    apply (memory_view_some _ _ _ Hok) in Hv as (Hv & Hst & _).
    assert (hd_event h = e0) as Heq.
    { apply (odict_get_some _ _ _ (mk_keys _ Hok)) in Hv, Hj. congruence. }
    rewrite Heq. split; [done|]. destruct (Hin k Hkt) as [Hst' Htok'].
    unfold memory_view. rewrite Hev, (proj2 (odict_get_some _ _ _ (mk_keys _ Hok)) Hj). simpl.
    by rewrite Hst', Hst, Htok'.
  - intros id Hid. destruct (Hout id Hid) as [Hst Htok]. unfold memory_view. by rewrite Hev, Hst, Htok.
Qed.

(** The in-memory queue keeps the protocol. *)
Lemma memory_laws : tenant <> "" -> OutboxLaws same_payload lease tenant memory_ok memory_view.
Proof.
  intros Htenant. split.
  - intros s id h Hok (Hin & _)%(memory_view_some _ _ _ Hok). by destruct (mk_events _ Hok _ _ Hin) as (? & _ & ?).
  - intros s e Hok Ht Hl Hv. destruct (memory_enqueue_new s e Hok Ht Hl Hv) as (s' & Hrun & Hok' & Hv' & Hrest).
    exists s', (mo_tokens s !! event_id e). simpl. by rewrite Hrun.
  - intros s e h Hok Ht (Hin & _)%(memory_view_some _ _ _ Hok) Hsame. exists s. simpl. unfold memory_enqueue.
    by rewrite (proj2 (odict_get_some _ _ _ (mk_keys _ Hok)) Hin), Hsame.
  - intros s mint limit now Hok Hlim.
    destruct (memory_claim_due s mint limit now Hok Htenant Hlim) as (s' & events & dues & Hrun & Hrest).
    exists s', events, dues. simpl. by rewrite Hrun.
  - intros s id h token Hok Hv Htok. split; [|intros error];
      [destruct (memory_mark_held applied_entry s id h token Hok Hv Htok) as (s' & Hrun & Hrest)
      |destruct (memory_mark_held (failed_entry error) s id h token Hok Hv Htok) as (s' & Hrun & Hrest)];
      exists s', (Some token); simpl; unfold memory_mark_applied, memory_mark_failed; by rewrite Hrun.
  - intros s id h token Hok Hv Htok. split; [|intros error];
      [destruct (memory_mark_lost applied_entry s id h token Hok Hv Htok) as (ex & Hrun)
      |destruct (memory_mark_lost (failed_entry error) s id h token Hok Hv Htok) as (ex & Hrun)];
      exists ex; simpl; unfold memory_mark_applied, memory_mark_failed; by rewrite Hrun.
Qed.

(** ** The SQLite queue *)
Context (isoformat : Z -> string).

#[export] Instance sqlite_outbox : FactMaterializationOutbox SQLiteOutbox := {
  ob_enqueue o e := leave o (sqlite_enqueue same_payload isoformat o e);
  ob_claim mint o t only limit now :=
    match sqlite_claim lease mint o t only limit now with
    | Ok (o', events) => (o', Ok events)
    | Raise ex => (o, Raise ex)
    end;
  ob_mark_applied o t id token := sqlite_mark_applied o t id token;
  ob_mark_failed error o t id token := sqlite_mark_failed error o t id token
}.

(** One tenant's table, and a worker whose copy of it is up to date. *)
Record sqlite_ok (o : SQLiteOutbox) : Prop := {
  sk_tenant : sq_tenant o = tenant;
  sk_ids : NoDup (row_id <$> sq_rows o);
  sk_rows : forall r, r ∈ sq_rows o -> tenant_id (tr_event r) = tenant /\ lease_token (tr_event r) = None /\
    (en_status (tr_entry r) = Processing -> is_Some (en_lease (tr_entry r)));
  sk_cache : memory_ok (sq_cache o);
  sk_copy : forall r, r ∈ sq_rows o ->
    (row_id r, tr_event r) ∈ mo_events (sq_cache o) /\ mo_state (sq_cache o) !! row_id r = Some (tr_entry r) /\
    forall t, tr_token r = Some t -> mo_tokens (sq_cache o) !! row_id r = Some t;
  sk_same : forall k, k ∈ (mo_events (sq_cache o)).*1 -> k ∈ row_id <$> sq_rows o
}.

Definition held_row (r : table_row) : held := Held (tr_event r) (tr_entry r) (tr_token r).

Definition sqlite_view (o : SQLiteOutbox) (id : string) : option held :=
  held_row <$> head (filter (fun r => row_id r = id) (sq_rows o)).

Lemma find_row (rows : list table_row) id r :
  NoDup (row_id <$> rows) -> head (filter (fun r => row_id r = id) rows) = Some r <-> r ∈ rows /\ row_id r = id.
Proof.
  induction rows as [|x rows IH]; intros Hnd.
  { simpl. split; [done|]. by intros [?%not_elem_of_nil _]. }
  inversion_clear Hnd as [|? ? Hx Hnd']. rewrite filter_cons, elem_of_cons.
  assert (Hno : forall y, y ∈ rows -> row_id y <> row_id x).
  { intros y Hy Heq. apply Hx. apply list_elem_of_fmap. by exists y. }
  case_decide as Hid; simpl; [|rewrite IH by done; naive_solver].
  split; [intros [= ->]; auto|]. intros [[->|Hr] Hrid]; [done|]. exfalso. apply (Hno r Hr). congruence.
Qed.

Lemma sqlite_view_some o id h :
  sqlite_ok o -> sqlite_view o id = Some h <-> exists r, r ∈ sq_rows o /\ row_id r = id /\ h = held_row r.
Proof.
  intros Hok. unfold sqlite_view. rewrite fmap_Some. setoid_rewrite (find_row _ _ _ (sk_ids _ Hok)). naive_solver.
Qed.

Lemma row_due_due o r now : sqlite_ok o -> r ∈ sq_rows o -> row_due now r = due now (tr_entry r).
Proof.
  intros Hok Hr. destruct (sk_rows _ Hok r Hr) as (_ & _ & Hl). unfold row_due, due.
  destruct (en_status (tr_entry r)); try done. destruct (Hl eq_refl) as [u ->]. done.
Qed.

Lemma rows_inj o r r' : sqlite_ok o -> r ∈ sq_rows o -> r' ∈ sq_rows o -> row_id r = row_id r' -> r = r'.
Proof.
  intros Hok Hr Hr' Heq. pose proof (find_row (sq_rows o) (row_id r)) as Hf.
  assert (Some r = Some r') as [= ->]; [|done].
  rewrite <-(proj2 (Hf r (sk_ids _ Hok)) (conj Hr eq_refl)). by apply Hf; [apply Hok|split; [|symmetry]].
Qed.

(** The table is one map over its rows; the copy follows it. *)
Lemma remap_ok o (f : table_row -> table_row) c :
  sqlite_ok o ->
  (forall r, r ∈ sq_rows o -> tr_event (f r) = tr_event r /\
     (en_status (tr_entry (f r)) = Processing -> is_Some (en_lease (tr_entry (f r))))) ->
  mo_events c = mo_events (sq_cache o) -> memory_ok c ->
  (forall r, r ∈ sq_rows o -> mo_state c !! row_id r = Some (tr_entry (f r)) /\
     forall t, tr_token (f r) = Some t -> mo_tokens c !! row_id r = Some t) ->
  sqlite_ok (SQLite (sq_tenant o) (map f (sq_rows o)) c) /\
  forall id, sqlite_view (SQLite (sq_tenant o) (map f (sq_rows o)) c) id =
    held_row <$> (f <$> head (filter (fun r => row_id r = id) (sq_rows o))).
Proof.
  intros Hok Hf Hev Hc Hcopy.
  assert (Hids : forall rows, (forall r, r ∈ rows -> r ∈ sq_rows o) -> row_id <$> map f rows = row_id <$> rows).
  { induction rows as [|r rows IH]; intros Hin; [done|]. csimpl. rewrite IH by (intros; apply Hin; by right).
    f_equal. unfold row_id. by destruct (Hf r) as [-> _]; [apply Hin; left|]. }
  assert (Hall : row_id <$> map f (sq_rows o) = row_id <$> sq_rows o) by by apply Hids.
  split.
  - split; simpl.
    + apply Hok.
    + rewrite Hall. apply Hok.
    + intros r (r0 & -> & Hr0)%list_elem_of_fmap. destruct (Hf r0 Hr0) as [-> Hl].
      destruct (sk_rows _ Hok r0 Hr0) as (? & ? & _). done.
    + done.
    + intros r (r0 & -> & Hr0)%list_elem_of_fmap. destruct (Hf r0 Hr0) as [He _].
      unfold row_id. rewrite He. rewrite Hev. destruct (sk_copy _ Hok r0 Hr0) as (? & _).
      destruct (Hcopy r0 Hr0) as [? ?]. done.
    + intros k. rewrite Hev, Hall. apply Hok.
  - intros id. unfold sqlite_view. simpl. f_equal.
    assert (Hgen : forall rows, (forall r, r ∈ rows -> r ∈ sq_rows o) ->
              head (filter (fun r => row_id r = id) (map f rows)) = f <$> head (filter (fun r => row_id r = id) rows)).
    { induction rows as [|r rows IH]; intros Hin; [done|]. csimpl. rewrite !filter_cons.
      assert (row_id (f r) = row_id r) as -> by (unfold row_id; by destruct (Hf r) as [-> _]; [apply Hin; left|]).
      case_decide; [done|]. apply IH. intros r' Hr'. apply Hin. by right. }
    by apply Hgen.
Qed.

Lemma sqlite_enqueue_new o e :
  sqlite_ok o -> tenant_id e = tenant -> lease_token e = None -> sqlite_view o (event_id e) = None ->
  exists o', sqlite_enqueue same_payload isoformat o e = Ok o' /\ sqlite_ok o' /\
    sqlite_view o' (event_id e) = Some (Held e (Entry Pending 0 None None) None) /\
    forall id, id <> event_id e -> sqlite_view o' id = sqlite_view o id.
Proof.
  intros Hok Ht Hl Hv.
  assert (Hnone : forall r, r ∈ sq_rows o -> row_id r <> event_id e).
  { intros r Hr Heq. assert (sqlite_view o (event_id e) = Some (held_row r)); [|congruence].
    apply sqlite_view_some; [done|]. by exists r. }
  assert (Hmv : memory_view (sq_cache o) (event_id e) = None).
  { destruct (memory_view (sq_cache o) (event_id e)) as [h|] eqn:Hh; [|done]. exfalso.
    apply (memory_view_some _ _ _ (sk_cache _ Hok)) in Hh as (Hin & _).
    assert (event_id e ∈ row_id <$> sq_rows o) as (r & Hid & Hr)%list_elem_of_fmap.
    { apply Hok. apply list_elem_of_fmap. by exists (event_id e, hd_event h). }
    by apply (Hnone r Hr). }
  destruct (memory_enqueue_new (sq_cache o) e (sk_cache _ Hok) Ht Hl Hmv) as (c & Hrun & Hc & Hvc & Hrest).
  unfold sqlite_enqueue. rewrite bool_decide_eq_true_2 by (by rewrite (sk_tenant _ Hok)). simpl. rewrite Hrun. simpl.
  unfold insert_row. destruct (existsb _ _) eqn:Hex.
  { exfalso. apply existsb_exists in Hex as (r & Hr & Heq%bool_decide_eq_true). by apply (Hnone r); [apply list_elem_of_In|]. }
  rewrite with_lease_none by done. set (r := TableRow _ _ _ _). eexists; split; [done|].
  assert (Hev : mo_events c = mo_events (sq_cache o) ++ [(event_id e, e)] /\
                mo_state c = <[event_id e := Entry Pending 0 None None]> (mo_state (sq_cache o)) /\
                mo_tokens c = mo_tokens (sq_cache o)).
  { unfold memory_enqueue in Hrun. destruct (odict_get _ _) as [prior|] eqn:Hget.
    - exfalso. unfold memory_view in Hmv. rewrite Hget in Hmv. simpl in Hmv.
      destruct (memory_entry _ _ _ (sk_cache _ Hok) (odict_get_in _ _ _ Hget)) as [n Hn]. by rewrite Hn in Hmv.
    - injection Hrun as <-. simpl. by rewrite (odict_set_new _ _ _ Hget). }
  destruct Hev as (Hev & Hst & Htok).
  assert (Hok' : sqlite_ok (SQLite (sq_tenant o) (sq_rows o ++ [r]) c)).
  { split; simpl.
    - apply Hok.
    - rewrite fmap_app. apply NoDup_app. split; [apply Hok|]. split; [|apply NoDup_singleton].
      intros id (x & -> & Hx)%list_elem_of_fmap Hid%list_elem_of_singleton. by apply (Hnone x).
    - intros x [Hx| ->%list_elem_of_singleton]%elem_of_app; [by apply Hok|]. done.
    - done.
    - intros x [Hx| ->%list_elem_of_singleton]%elem_of_app.
      + destruct (sk_copy _ Hok x Hx) as (Hin & Hs & Ht'). rewrite Hev, Hst, Htok. split; [apply elem_of_app; by left|].
        by rewrite lookup_insert_ne by (by intros Heq; apply (Hnone x)).
      + rewrite Hev, Hst. split; [apply elem_of_app; right; by left|]. split; [apply lookup_insert_eq|done].
    - intros k. rewrite Hev, !fmap_app, !elem_of_app. intros [Hk|Hk]; [left; by apply Hok|right; done]. }
  split_and!; [done| |].
  - apply sqlite_view_some; [done|]. exists r. split; [apply elem_of_app; right; by left|done].
  - intros id Hid. unfold sqlite_view. simpl. rewrite filter_app, filter_cons, filter_nil.
    rewrite decide_False by (intros <-; by apply Hid). by rewrite app_nil_r.
Qed.

Lemma sqlite_enqueue_again o e h :
  sqlite_ok o -> tenant_id e = tenant -> sqlite_view o (event_id e) = Some h ->
  same_payload (hd_event h) e = true -> sqlite_enqueue same_payload isoformat o e = Ok o.
Proof.
  intros Hok Ht Hv Hsame. apply (sqlite_view_some _ _ _ Hok) in Hv as (r & Hr & Hid & ->).
  destruct (sk_copy _ Hok r Hr) as (Hin & _). unfold sqlite_enqueue.
  rewrite bool_decide_eq_true_2 by (by rewrite (sk_tenant _ Hok)). simpl. unfold memory_enqueue.
  rewrite <-Hid, (proj2 (odict_get_some _ _ _ (mk_keys _ (sk_cache _ Hok))) Hin). simpl in Hsame. rewrite Hsame. simpl.
  unfold insert_row. rewrite (proj2 (existsb_exists _ _)); [by destruct o|].
  exists r. split; [by apply list_elem_of_In|]. by apply bool_decide_eq_true.
Qed.

(** One claimed row, and then all of them. *)
Definition claim_into (mint : string -> string) (now : Z) (ids : list string) (r : table_row) : table_row :=
  if decide (row_id r ∈ ids) then claimed_row lease now (mint (row_id r)) r else r.

Lemma claim_rows_spec mint now o events picked :
  sqlite_ok o -> NoDup (row_id <$> picked) -> (forall r, r ∈ picked -> r ∈ sq_rows o) ->
  exists o', foldl (claim_row lease mint now) (o, events) picked =
    (o', events ++ ((fun r => with_lease (tr_event r) (Some (mint (row_id r)))) <$> picked)) /\ sqlite_ok o' /\
    sq_tenant o' = sq_tenant o /\ sq_rows o' = map (claim_into mint now (row_id <$> picked)) (sq_rows o).
Proof.
  revert o events; induction picked as [|r picked IH]; intros o events Hok Hnd Hin.
  { exists o. simpl. rewrite app_nil_r. split_and!; [done..|]. symmetry. etrans; [|apply map_id]. apply map_ext. intros r.
    unfold claim_into. by rewrite decide_False by apply not_elem_of_nil. }
  inversion_clear Hnd as [|? ? Hr Hnd']. cbn [foldl]. unfold claim_row at 2. cbv zeta.
  assert (Hrin : r ∈ sq_rows o) by (apply Hin; by left).
  destruct (sk_copy _ Hok r Hrin) as (Hcin & Hcst & _).
  set (c1 := Memory _ _ _).
  set (f := fun x => if bool_decide (row_id x = row_id r /\ tenant_id (tr_event x) = sq_tenant o)
                     then claimed_row lease now (mint (row_id r)) x else x).
  assert (Hf : forall x, x ∈ sq_rows o -> f x = claim_into mint now [row_id r] x).
  { intros x Hx. destruct (sk_rows _ Hok x Hx) as (Htx & _). unfold f, claim_into. rewrite (sk_tenant _ Hok).
    destruct (decide (row_id x ∈ [row_id r])) as [Hd|Hd]; rewrite list_elem_of_singleton in Hd.
    - by rewrite bool_decide_eq_true_2, Hd by done.
    - rewrite bool_decide_eq_false_2; [done|]. by intros [? _]. }
  assert (Hstep : sqlite_ok (SQLite (sq_tenant o) (map f (sq_rows o)) c1)).
  { apply remap_ok; [done| | | |].
    - intros x Hx. rewrite Hf by done. unfold claim_into. destruct (sk_rows _ Hok x Hx) as (_ & _ & ?).
      case_decide; simpl; [|done]. split; [done|]. by eexists.
    - unfold c1; simpl. apply odict_set_same, odict_get_some; [apply Hok|done].
    - assert (Hsame : odict_set (row_id r) (tr_event r) (mo_events (sq_cache o)) = mo_events (sq_cache o)).
      { apply odict_set_same, odict_get_some; [apply (sk_cache _ Hok)|done]. }
      unfold c1. rewrite Hsame. split; simpl; [apply (sk_cache _ Hok)|apply (sk_cache _ Hok)|].
      intros k. rewrite <-(mk_state _ (sk_cache _ Hok)), lookup_insert_is_Some.
      destruct (decide (row_id r = k)) as [<-|]; [|naive_solver]. rewrite Hcst. naive_solver.
    - intros x Hx. rewrite Hf by done. destruct (sk_copy _ Hok x Hx) as (_ & Hst & Htok). unfold claim_into, c1. simpl.
      destruct (decide (row_id x ∈ [row_id r])) as [Hd|Hd]; rewrite list_elem_of_singleton in Hd.
      + assert (x = r) as -> by (by eapply rows_inj). rewrite !lookup_insert_eq. split; [done|]. by intros t [= <-].
      + by rewrite !lookup_insert_ne. }
  destruct (IH (SQLite (sq_tenant o) (map f (sq_rows o)) c1)
    (events ++ [with_lease (tr_event r) (Some (mint (row_id r)))]) Hstep Hnd') as (o' & Hrun & Hok' & Ht' & Hrows').
  { intros x Hx. simpl. apply list_elem_of_fmap. exists x. split; [|apply Hin; by right].
    rewrite Hf by (apply Hin; by right). unfold claim_into. rewrite decide_False; [done|].
    intros Heq%list_elem_of_singleton. apply Hr. apply list_elem_of_fmap. exists x. by rewrite Heq. }
  exists o'. unfold update_rows. fold f. rewrite Hrun. split_and!; [by rewrite <-(assoc_L (++))|done|done|].
  rewrite Hrows'. simpl. rewrite map_map. apply map_ext_in. intros x Hx%list_elem_of_In.
  rewrite Hf by done. unfold claim_into. destruct (decide (row_id x ∈ [row_id r])) as [Hd|Hd];
    rewrite list_elem_of_singleton in Hd.
  - rewrite (decide_True (P := row_id x ∈ row_id r :: _)) by (rewrite Hd; by left).
    rewrite decide_False; [done|]. unfold row_id at 1; simpl. fold (row_id x). by rewrite Hd.
  - apply decide_ext. rewrite elem_of_cons. naive_solver.
Qed.

Lemma claimable_spec o now :
  sqlite_ok o -> NoDup (row_id <$> claimable o None now) /\
  forall r, r ∈ claimable o None now <-> r ∈ sq_rows o /\ due now (tr_entry r) = true.
Proof.
  intros Hok. unfold claimable. split.
  - eapply sublist_NoDup; [|apply fmap_sublist; etrans; apply sublist_filter].
    unfold tenant_rows. rewrite stable_sort_perm.
    eapply sublist_NoDup; [apply (sk_ids _ Hok)|]. apply fmap_sublist, sublist_filter.
  - intros r. rewrite !list_elem_of_filter. unfold tenant_rows. rewrite stable_sort_perm, list_elem_of_filter.
    split.
    + intros (Hd & _ & _ & Hr). split; [done|]. by rewrite <-(row_due_due o).
    + intros [Hr Hd]. destruct (sk_rows _ Hok r Hr) as (Ht & _). rewrite (row_due_due o) by done.
      rewrite (sk_tenant _ Hok). done.
Qed.

Lemma sqlite_claim_due o mint limit now :
  sqlite_ok o -> valid_limit limit = true ->
  exists o' events dues, sqlite_claim lease mint o tenant None limit now = Ok (o', events) /\ sqlite_ok o' /\
    NoDup dues /\ (forall id, id ∈ dues <-> exists h, sqlite_view o id = Some h /\ due now (hd_entry h) = true) /\
    event_id <$> events = take (Z.to_nat limit) dues /\
    (forall e h, e ∈ events -> sqlite_view o (event_id e) = Some h ->
       e = with_lease (hd_event h) (Some (mint (event_id e))) /\
       sqlite_view o' (event_id e) = Some (Held (hd_event h) (claimed_entry lease now (hd_entry h)) (Some (mint (event_id e))))) /\
    (forall id, id ∉ event_id <$> events -> sqlite_view o' id = sqlite_view o id).
Proof.
  intros Hok Hlim. destruct (claimable_spec o now Hok) as [Hnd Hdue].
  set (picked := take (Z.to_nat limit) (claimable o None now)).
  assert (Hpicked : forall r, r ∈ picked -> r ∈ sq_rows o).
  { intros r (i & Hi%list_elem_of_lookup_2 & _)%elem_of_take. by apply Hdue in Hi as [? _]. }
  assert (Hndp : NoDup (row_id <$> picked)).
  { unfold picked. rewrite fmap_take. eapply sublist_NoDup; [exact Hnd|]. apply sublist_take. }
  destruct (claim_rows_spec mint now o [] picked Hok Hndp Hpicked) as (o' & Hrun & Hok' & Ht' & Hrows').
  unfold sqlite_claim. rewrite bool_decide_eq_true_2, Hlim by (by rewrite (sk_tenant _ Hok)). simpl.
  fold picked. rewrite Hrun. simpl. set (events := _ <$> picked).
  assert (Hids : event_id <$> events = row_id <$> picked) by (unfold events; rewrite <-list_fmap_compose; done).
  assert (Hview : forall r, r ∈ sq_rows o -> sqlite_view o' (row_id r) = Some (held_row (claim_into mint now (row_id <$> picked) r))).
  { intros r Hr. apply sqlite_view_some; [done|]. exists (claim_into mint now (row_id <$> picked) r).
    rewrite Hrows'. split_and!; [by apply list_elem_of_fmap; exists r|by unfold claim_into; case_decide|done]. }
  exists o', events, (row_id <$> claimable o None now). split_and!; try done.
  - intros id. rewrite list_elem_of_fmap. split.
    + intros (r & -> & [Hr Hd]%Hdue). exists (held_row r). split; [|done]. apply sqlite_view_some; [done|]. by exists r.
    + intros (h & (r & Hr & <- & ->)%(sqlite_view_some _ _ _ Hok) & Hd). exists r. split; [done|]. by apply Hdue.
  - by rewrite Hids; unfold picked; rewrite fmap_take.
  - intros e h He (r & Hr & Hid & ->)%(sqlite_view_some _ _ _ Hok).
    apply list_elem_of_fmap in He as (r' & -> & Hr'). simpl in *. fold (row_id r') in *.
    assert (r = r') as -> by (apply (rows_inj o); [done|done|by apply Hpicked|done]). split; [done|].
    rewrite (Hview r' Hr). unfold claim_into. rewrite decide_True by (apply list_elem_of_fmap; by exists r'). done.
  - intros id. rewrite Hids. intros Hid.
    destruct (sqlite_view o id) as [h|] eqn:Hv.
    + apply (sqlite_view_some _ _ _ Hok) in Hv as (r & Hr & <- & ->). rewrite (Hview r Hr). unfold claim_into.
      by rewrite decide_False.
    + destruct (sqlite_view o' id) as [h|] eqn:Hv'; [|done]. exfalso.
      apply (sqlite_view_some _ _ _ Hok') in Hv' as (r & Hr & Hrid & _). rewrite Hrows' in Hr.
      apply list_elem_of_fmap in Hr as (r0 & -> & Hr0).
      assert (sqlite_view o id = Some (held_row r0)); [|congruence]. apply sqlite_view_some; [done|]. exists r0.
      split_and!; [done| |done]. rewrite <-Hrid. unfold claim_into. by case_decide.
Qed.

Lemma marks_row o id token r h :
  sqlite_ok o -> sqlite_view o id = Some h -> hd_token h = Some token -> r ∈ sq_rows o ->
  marks tenant id (Some token) r = true <-> row_id r = id.
Proof.
  intros Hok (r0 & Hr0 & <- & ->)%(sqlite_view_some _ _ _ Hok) Htok Hr. unfold marks.
  rewrite !andb_true_iff, !bool_decide_eq_true. split; [by intros [[? _] _]|]. intros Hid.
  assert (r = r0) as -> by by eapply rows_inj. by destruct (sk_rows _ Hok r0 Hr0) as (? & _).
Qed.

Lemma sqlite_mark_held entry_of o id h token :
  (forall n, en_status (entry_of n) <> Processing) ->
  sqlite_ok o -> sqlite_view o id = Some h -> hd_token h = Some token ->
  exists o', sqlite_mark entry_of o tenant id (Some token) = (o', Ok tt) /\ sqlite_ok o' /\
    sqlite_view o' id = Some (Held (hd_event h) (entry_of (hd_entry h)) None) /\
    forall id', id' <> id -> sqlite_view o' id' = sqlite_view o id'.
Proof.
  intros Hentry Hok Hv Htok. pose proof Hv as (r & Hr & <- & ->)%(sqlite_view_some _ _ _ Hok). simpl in *.
  destruct (sk_copy _ Hok r Hr) as (Hin & Hst & Htk). specialize (Htk token Htok).
  assert (Hmv : memory_view (sq_cache o) (row_id r) = Some (Held (tr_event r) (tr_entry r) (Some token))).
  { apply (memory_view_some _ _ _ (sk_cache _ Hok)). done. }
  destruct (memory_mark_held entry_of (sq_cache o) (row_id r) _ token (sk_cache _ Hok) Hmv eq_refl)
    as (c & Hrun & Hc & Hvc & Hrest).
  pose proof (marks_row o (row_id r) token) as Hmarks.
  unfold sqlite_mark. rewrite Hst, (proj2 (existsb_exists _ _)).
  2:{ exists r. split; [by apply list_elem_of_In|]. by eapply Hmarks. }
  cbv zeta. rewrite Hrun. set (f := fun x => if marks _ _ _ x then _ else x). eexists; split; [done|].
  assert (Hf : forall x, x ∈ sq_rows o -> x <> r -> f x = x).
  { intros x Hx Hne. unfold f. destruct (marks tenant (row_id r) (Some token) x) eqn:Hm; [|done].
    apply (Hmarks x _ Hok Hv Htok Hx) in Hm. by apply (rows_inj o) in Hm. }
  assert (Hfr : f r = TableRow (tr_event r) (entry_of (tr_entry r)) None (tr_created r)).
  { unfold f. by rewrite (proj2 (Hmarks r _ Hok Hv Htok Hr) eq_refl). }
  assert (Heq : forall x, x ∈ sq_rows o -> x = r \/ x <> r).
  { intros x Hx. destruct (decide (row_id x = row_id r)) as [Hid|Hid]; [left; by eapply rows_inj|right; congruence]. }
  destruct (remap_ok o f c) as [Hok' Hview']; [done| | |done| |].
  - intros x Hx. destruct (Heq x Hx) as [->|Hne]; [rewrite Hfr|rewrite (Hf x Hx Hne)]; simpl.
    + split; [done|]. intros Hp. by apply Hentry in Hp.
    + split; [done|]. by destruct (sk_rows _ Hok x Hx) as (_ & _ & ?).
  - unfold memory_mark in Hrun. repeat (case_match; simplify_eq/=); done.
  - intros x Hx. destruct (Heq x Hx) as [->|Hne].
    + rewrite Hfr. simpl. split; [|done]. apply (memory_view_some _ _ _ Hc) in Hvc as (_ & ? & _). done.
    + rewrite (Hf x Hx Hne). assert (Hid : row_id x <> row_id r) by (intros Hid; by apply (rows_inj o) in Hid).
      destruct (sk_copy _ Hok x Hx) as (Hinx & Hstx & Htkx).
      assert (Hmx : memory_view c (row_id x) = Some (Held (tr_event x) (tr_entry x) (mo_tokens (sq_cache o) !! row_id x))).
      { rewrite Hrest by done. by apply (memory_view_some _ _ _ (sk_cache _ Hok)). }
      apply (memory_view_some _ _ _ Hc) in Hmx as (_ & Hs & Ht). simpl in *. rewrite <-Ht. done.
  - split_and!; [done| |].
    + rewrite Hview', (proj2 (find_row _ _ _ (sk_ids _ Hok)) (conj Hr eq_refl)). simpl. by rewrite Hfr.
    + intros id' Hid'. rewrite Hview'. unfold sqlite_view. destruct (head _) as [x|] eqn:Hx; [|done].
      apply (find_row _ _ _ (sk_ids _ Hok)) in Hx as [Hx <-]. simpl. by rewrite Hf by congruence.
Qed.

Lemma sqlite_mark_lost entry_of o id h token :
  sqlite_ok o -> sqlite_view o id = Some h -> hd_token h <> Some token ->
  exists ex, sqlite_mark entry_of o tenant id (Some token) = (o, Raise ex).
Proof.
  intros Hok (r & Hr & <- & ->)%(sqlite_view_some _ _ _ Hok) Htok. unfold sqlite_mark.
  destruct (mo_state _ !! _); [|by eexists]. destruct (existsb _ _) eqn:Hex; [|by eexists]. exfalso.
  apply existsb_exists in Hex as (x & Hx%list_elem_of_In & Hm). unfold marks in Hm.
  rewrite !andb_true_iff, !bool_decide_eq_true in Hm. destruct Hm as [[Hid _] Ht].
  apply (rows_inj o) in Hid as ->; [|done..]. by apply Htok.
Qed.

(** The durable queue keeps the delivery protocol.  A SQLite table and a worker's copy
    of it hold each event once, under its own id and with an expiry whenever it is being
    processed; enqueueing is idempotent; a claim takes the due events in order up to its
    limit and leases exactly those, leaving every other row as it was; a mark under the
    lease the row holds records the outcome and releases the lease, and a mark under any
    other lease raises and changes nothing. *)
Theorem sqlite_queue_keeps_protocol : OutboxLaws same_payload lease tenant sqlite_ok sqlite_view.
Proof.
  split.
  - intros s id h Hok (r & Hr & <- & ->)%(sqlite_view_some _ _ _ Hok).
    by destruct (sk_rows _ Hok r Hr) as (_ & ? & _).
  - intros s e Hok Ht Hl Hv. destruct (sqlite_enqueue_new s e Hok Ht Hl Hv) as (s' & Hrun & Hrest).
    exists s', None. simpl. by rewrite Hrun.
  - intros s e h Hok Ht Hv Hsame. exists s. simpl. by rewrite (sqlite_enqueue_again s e h Hok Ht Hv Hsame).
  - intros s mint limit now Hok Hlim.
    destruct (sqlite_claim_due s mint limit now Hok Hlim) as (s' & events & dues & Hrun & Hrest).
    exists s', events, dues. simpl. by rewrite Hrun.
  - intros s id h token Hok Hv Htok. split; [|intros error].
    + destruct (sqlite_mark_held applied_entry s id h token) as (s' & Hrun & Hrest); [done..|].
      by exists s', None.
    + destruct (sqlite_mark_held (failed_entry error) s id h token) as (s' & Hrun & Hrest); [done..|].
      by exists s', None.
  - intros s id h token Hok Hv Htok. split; [|intros error]; by eapply sqlite_mark_lost.
Qed.
End laws.

(** ** Recovery *)
Section recovery_facts.
Context (same_payload : FactEvent -> FactEvent -> bool) (lease : Z) (tenant : string).
Context {S : Type} `{FactMaterializationOutbox S} (ok : S -> Prop) (view : S -> string -> option held).
Context `{Hlaws : !OutboxLaws same_payload lease tenant ok view}.
Context (materialize : FactEvent -> result unit) (materializes : event_type -> bool) (describe : exn -> string).

(** What delivering an event does to its entry. *)
Definition outcome (e : FactEvent) (n : entry) : entry :=
  match materialize e with
  | Ok _ => applied_entry n
  | Raise ex => failed_entry (error_text (describe ex)) n
  end.

Definition succeeded (e : FactEvent) : Prop := is_ok (materialize e) = true.

Lemma deliver_all_spec events s delivered :
  ok s -> NoDup (event_id <$> events) ->
  (forall e, e ∈ events -> exists h token, view s (event_id e) = Some h /\ hd_token h = Some token /\
     lease_token e = Some token) ->
  exists s', deliver_all materialize describe tenant s events delivered =
    (s', Ok (delivered + length (filter succeeded events))) /\ ok s' /\
    (forall e h, e ∈ events -> view s (event_id e) = Some h ->
       exists token', view s' (event_id e) = Some (Held (hd_event h) (outcome e (hd_entry h)) token')) /\
    (forall id, id ∉ event_id <$> events -> view s' id = view s id).
Proof.
  revert s delivered; induction events as [|e events IH]; intros s delivered Hok Hnd Hheld; cbn [deliver_all].
  { exists s. rewrite filter_nil, Nat.add_0_r. split_and!; try done. by intros e h ?%not_elem_of_nil. }
  inversion_clear Hnd as [|? ? He Hnd'].
  destruct (Hheld e) as (h & token & Hv & Htok & Hlease); [by left|].
  destruct (ob_mark_held s (event_id e) h token Hok Hv Htok) as [Happ Hfail]. rewrite Hlease.
  assert (Hstep : exists s1 token' n, (match materialize e with
      | Raise ex => match ob_mark_failed (error_text (describe ex)) s tenant (event_id e) (Some token) with
                    | (s', Ok _) => deliver_all materialize describe tenant s' events delivered
                    | (s', Raise ex') => (s', Raise ex') end
      | Ok _ => match ob_mark_applied s tenant (event_id e) (Some token) with
                | (s', Ok _) => deliver_all materialize describe tenant s' events (Datatypes.S delivered)
                | (s', Raise ex') => (s', Raise ex') end
      end) = deliver_all materialize describe tenant s1 events n /\
      n + length (filter succeeded events) = delivered + length (filter succeeded (e :: events)) /\ ok s1 /\
      view s1 (event_id e) = Some (Held (hd_event h) (outcome e (hd_entry h)) token') /\
      forall id, id <> event_id e -> view s1 id = view s id).
  { unfold outcome. rewrite filter_cons. destruct (decide (succeeded e)) as [Hs|Hs]; unfold succeeded in Hs;
      destruct (materialize e) as [u|ex]; try done.
    - destruct Happ as (s1 & token' & -> & Hok1 & Hv1 & Hrest). exists s1, token', (Datatypes.S delivered).
      split_and!; [done|simpl; lia|done..].
    - destruct (Hfail (error_text (describe ex))) as (s1 & token' & -> & Hok1 & Hv1 & Hrest). by exists s1, token', delivered. }
  destruct Hstep as (s1 & token' & n & -> & Hn & Hok1 & Hv1 & Hrest1).
  assert (Hother : forall e', e' ∈ events -> event_id e' <> event_id e).
  { intros e' He' Heq. apply He. rewrite <-Heq. by apply list_elem_of_fmap_2. }
  destruct (IH s1 n Hok1 Hnd') as (s2 & -> & Hok2 & Hin2 & Hout2).
  { intros e' He'. rewrite Hrest1 by by apply Hother. apply Hheld. by right. }
  exists s2. rewrite Hn. split_and!; [done|done| |].
  - intros e' h' [->|He']%elem_of_cons Hv'.
    + rewrite Hv in Hv'. injection Hv' as <-. exists token'. by rewrite Hout2.
    + apply Hin2; [done|]. by rewrite Hrest1 by by apply Hother.
  - intros id Hid. apply not_elem_of_cons in Hid as [Hne Hid]. by rewrite Hout2, Hrest1.
Qed.

(** One pass: the events it takes, and what becomes of them. *)
Lemma run_once_spec s mint limit now :
  ok s -> valid_limit limit = true ->
  exists s' dues delivered, run_once materialize describe mint tenant s limit now = (s', Ok delivered) /\ ok s' /\
    NoDup dues /\ (forall id, id ∈ dues <-> exists h, view s id = Some h /\ due now (hd_entry h) = true) /\
    (forall id h, id ∈ take (Z.to_nat limit) dues -> view s id = Some h -> exists token',
       view s' id = Some (Held (hd_event h)
         (outcome (with_lease (hd_event h) (Some (mint id))) (claimed_entry lease now (hd_entry h))) token')) /\
    (forall id, id ∉ take (Z.to_nat limit) dues -> view s' id = view s id).
Proof.
  intros Hok Hlim. unfold run_once. rewrite Hlim. simpl.
  destruct (ob_claim_due s mint limit now Hok Hlim) as (s1 & events & dues & -> & Hok1 & Hnd & Hdue & Hids & Hev & Hrest).
  assert (Hview : forall e, e ∈ events -> exists h, view s (event_id e) = Some h).
  { intros e He. assert (event_id e ∈ dues) as (h & Hv & _)%Hdue; [|by exists h].
    pose proof (list_elem_of_fmap_2 event_id events e He) as Hin. rewrite Hids in Hin.
    by apply elem_of_take in Hin as (i & Hi%list_elem_of_lookup_2 & _). }
  destruct (deliver_all_spec events s1 0) as (s2 & Hrun & Hok2 & Hin2 & Hout2); [done| | |].
  - rewrite Hids. eapply sublist_NoDup; [exact Hnd|]. apply sublist_take.
  - intros e He. destruct (Hview e He) as [h Hv]. destruct (Hev e h He Hv) as [Heq Hv1].
    exists (Held (hd_event h) (claimed_entry lease now (hd_entry h)) (Some (mint (event_id e)))), (mint (event_id e)).
    split_and!; [done..|]. by rewrite Heq at 1.
  - exists s2, dues, (0 + length (filter succeeded events)). rewrite Hrun, <-Hids. split_and!; [done..| |].
    + intros id h Hid Hv. apply list_elem_of_fmap in Hid as (e & -> & He).
      destruct (Hev e h He Hv) as [Heq Hv1]. destruct (Hin2 e _ He Hv1) as (token' & Hv2). exists token'.
      rewrite Hv2. simpl. by rewrite <-Heq.
    + intros id Hid. by rewrite Hout2, Hrest.
Qed.

(** Every wanted event is in the queue once the ledger has been read. *)
Lemma enqueue_all_spec events s :
  ok s -> NoDup (event_id <$> events) ->
  (forall e, e ∈ events -> tenant_id e = tenant /\ lease_token e = None) ->
  (forall e h, e ∈ events -> view s (event_id e) = Some h -> same_payload (hd_event h) e = true) ->
  exists s', enqueue_all materializes tenant s events = (s', Ok tt) /\ ok s' /\
    (forall id h, view s id = Some h -> view s' id = Some h) /\
    (forall e, e ∈ events -> materializes (ev_type e) = true -> view s (event_id e) = None ->
       exists token', view s' (event_id e) = Some (Held e (Entry Pending 0 None None) token')) /\
    (forall id, view s id = None -> id ∉ event_id <$> events -> view s' id = None).
Proof.
  revert s; induction events as [|e events IH]; intros s Hok Hnd Hall Hsame; cbn [enqueue_all].
  { exists s. split_and!; try done. by intros e ?%not_elem_of_nil. }
  inversion_clear Hnd as [|? ? He Hnd']. destruct (Hall e) as [Ht Hl]; [by left|].
  assert (Hother : forall e', e' ∈ events -> event_id e' <> event_id e).
  { intros e' He' Heq. apply He. rewrite <-Heq. by apply list_elem_of_fmap_2. }
  rewrite bool_decide_eq_true_2 by done. simpl.
  assert (Hstep : exists s1, (if materializes (ev_type e)
      then match ob_enqueue s e with
           | (s', Ok _) => enqueue_all materializes tenant s' events
           | (s', Raise ex) => (s', Raise ex) end
      else enqueue_all materializes tenant s events) = enqueue_all materializes tenant s1 events /\ ok s1 /\
      (materializes (ev_type e) = true -> view s (event_id e) = None ->
         exists token', view s1 (event_id e) = Some (Held e (Entry Pending 0 None None) token')) /\
      (forall h, view s (event_id e) = Some h -> view s1 (event_id e) = Some h) /\
      forall id, id <> event_id e -> view s1 id = view s id).
  { destruct (materializes (ev_type e)) eqn:Hm; [|by exists s].
    destruct (view s (event_id e)) as [h|] eqn:Hv.
    - destruct (ob_enqueue_again s e h Hok Ht Hv) as (s1 & -> & Hok1 & Hv1); [apply Hsame; [by left|done]|].
      exists s1. rewrite Hv1, Hv. done.
    - destruct (ob_enqueue_new s e Hok Ht Hl Hv) as (s1 & token' & -> & Hok1 & Hv1 & Hrest).
      exists s1. split_and!; [done|done|by exists token'|done|done]. }
  destruct Hstep as (s1 & -> & Hok1 & Hnew & Hold & Hrest1).
  destruct (IH s1 Hok1 Hnd') as (s2 & -> & Hok2 & Hkeep2 & Hnew2 & Hnone2).
  { intros e' He'. apply Hall. by right. }
  { intros e' h He' Hv. rewrite Hrest1 in Hv by by apply Hother. apply Hsame; [by right|done]. }
  exists s2. split_and!; [done|done| | |].
  - intros id h Hv. apply Hkeep2. destruct (decide (id = event_id e)) as [->|Hne]; [by apply Hold|by rewrite Hrest1].
  - intros e' [->|He']%elem_of_cons Hm Hv.
    + destruct (Hnew Hm Hv) as [token' Hv1]. exists token'. by apply Hkeep2.
    + apply Hnew2; [done..|]. by rewrite Hrest1 by by apply Hother.
  - intros id Hv Hid. apply not_elem_of_cons in Hid as [Hne Hid]. apply Hnone2; [by rewrite Hrest1|done].
Qed.

(** C17: recovery delivers.  Over any queue that keeps the protocol, reconciling a ledger
    whose events are the tenant's own, each under its own id and agreeing with what is
    queued, with a limit that has room for them, never raises; and with a materializer that
    accepts, every wanted event is applied at the end, whether it had been queued, lost
    between the ledger and the queue, failed before, or left by a worker whose lease ran
    out.  The only exception is an event another worker holds under a lease that still
    runs, which is left to it. *)
Theorem reconcile_delivers (s : S) (events : list FactEvent) (known : list string) (mint : string -> string)
    (limit now : Z) :
  ok s -> valid_limit limit = true ->
  (forall id h, view s id = Some h -> id ∈ known) -> (Z.of_nat (length known + length events) <= limit)%Z ->
  NoDup (event_id <$> events) -> (forall e, e ∈ events -> tenant_id e = tenant /\ lease_token e = None) ->
  (forall e h, e ∈ events -> view s (event_id e) = Some h -> same_payload (hd_event h) e = true) ->
  (forall e, materialize e = Ok tt) ->
  exists s' delivered, reconcile materialize materializes describe mint tenant s events limit now = (s', Ok delivered) /\
    ok s' /\
    forall e, e ∈ events -> materializes (ev_type e) = true -> exists h', view s' (event_id e) = Some h' /\
      (en_status (hd_entry h') = Applied \/
       en_status (hd_entry h') = Processing /\ view s (event_id e) = Some h' /\
       exists until, en_lease (hd_entry h') = Some until /\ (now < until)%Z).
Proof.
  intros Hok Hlim Hknown Hroom Hnd Hall Hsame Hmat. unfold reconcile. rewrite Hlim. simpl.
  pose proof (stable_sort_perm event_leb events) as Hperm. set (sorted := stable_sort event_leb events) in *.
  assert (Hin : forall e, e ∈ sorted <-> e ∈ events) by (intros e; by rewrite Hperm).
  destruct (enqueue_all_spec sorted s Hok) as (s1 & -> & Hok1 & Hkeep & Hnew & Hnone).
  { by rewrite Hperm. }
  { intros e He. by apply Hall, Hin. }
  { intros e h He. by apply Hsame, Hin. }
  destruct (run_once_spec s1 mint limit now Hok1 Hlim) as (s2 & dues & n & Hrun & Hok2 & Hndd & Hdue & Hdone & Hleft).
  exists s2, n. split_and!; [exact Hrun|done|]. intros e He Hm.
  assert (Hview : exists h, view s1 (event_id e) = Some h /\ (view s (event_id e) = Some h \/ due now (hd_entry h) = true)).
  { destruct (view s (event_id e)) as [h|] eqn:Hv; [exists h; split; [by apply Hkeep|by left]|].
    destruct (Hnew e) as [token' Hv1]; [by apply Hin|done|done|]. eexists; split; [exact Hv1|by right]. }
  destruct Hview as (h & Hv1 & Hcase).
  assert (Htake : take (Z.to_nat limit) dues = dues).
  { apply take_ge. assert (length dues <= length (known ++ (event_id <$> sorted))); [|].
    - apply NoDup_incl_length; [by apply NoDup_ListNoDup|]. intros id Hid%list_elem_of_In.
      apply list_elem_of_In, elem_of_app. apply Hdue in Hid as (h0 & Hv0 & _).
      destruct (view s id) as [h1|] eqn:Hv; [left; by eapply Hknown|]. right.
      destruct (decide (id ∈ event_id <$> sorted)) as [|Hn]; [done|]. rewrite (Hnone id Hv Hn) in Hv0. done.
    - rewrite length_app, length_fmap, (Permutation_length Hperm) in *. lia. }
  destruct (due now (hd_entry h)) eqn:Hd.
  - assert (Hid : event_id e ∈ take (Z.to_nat limit) dues) by (rewrite Htake; apply Hdue; by exists h).
    destruct (Hdone _ _ Hid Hv1) as (token' & Hv2). eexists; split; [exact Hv2|]. left. simpl. unfold outcome.
    by rewrite Hmat.
  - exists h. rewrite Hleft; [|rewrite Htake, Hdue; intros (h0 & Hv0 & Hd0); congruence]. split; [done|].
    destruct Hcase as [Hv|]; [|done]. unfold due in Hd. destruct (en_status (hd_entry h)); try done; [|by left].
    destruct (en_lease (hd_entry h)) as [until|]; [|done]. apply Z.leb_gt in Hd. right. split; [done|]. split; [done|].
    by exists until.
Qed.
End recovery_facts.

(** A ledger of two assertions and a receipt, a queue that lost one of them and whose
    other one's worker died holding a lease. *)
Definition demo_stored (id : string) (type : event_type) (at_ : Z) : FactEvent :=
  {| event_id := id; ev_type := type; tenant_id := "t"; generation_id := "g"; ev_fact := None; fact_id := Some "f";
     evidence_cards := []; supersedes_fact_ids := []; request_id := id; writer := "w"; decision_code := APPLIED;
     created_at := at_; lease_token := None |}.

Definition demo_ledger : list FactEvent :=
  [demo_stored "e1" Asserted 1; demo_stored "e1_sup" SupersededEvent 1; demo_stored "e2" Asserted 2].

Definition demo_queue : MemoryOutbox :=
  Memory [("e1", demo_stored "e1" Asserted 1)] (<["e1" := Entry Processing 1 (Some 50%Z) None]> ∅) (<["e1" := "dead"]> ∅).

Definition demo_same (a b : FactEvent) : bool := bool_decide (event_id a = event_id b).

Lemma demo_queue_ok : memory_ok "t" demo_queue.
Proof.
  split; simpl.
  - apply NoDup_singleton.
  - intros k e [= -> ->]%list_elem_of_singleton. done.
  - intros k. rewrite list_elem_of_singleton, lookup_insert_is_Some, lookup_empty.
    split; [intros [->|[_ []]]; done|]. intros ->. by left.
Qed.

Lemma reconcile_delivers_witness :
  exists s' delivered,
    @reconcile _ (memory_outbox demo_same 300) (fun _ => Ok tt) default_materialized (fun _ => "error")
      (fun id => "token-" +:+ id) "t" demo_queue demo_ledger 10 100 = (s', Ok delivered) /\
    (exists h', memory_view s' "e2" = Some h' /\ (en_status (hd_entry h') = Applied \/
       en_status (hd_entry h') = Processing /\ memory_view demo_queue "e2" = Some h' /\
       exists until, en_lease (hd_entry h') = Some until /\ (100 < until)%Z)).
Proof.
  pose proof (memory_laws demo_same 300 "t" ltac:(done)) as Hlaws.
  destruct (@reconcile_delivers demo_same 300 "t" MemoryOutbox (memory_outbox demo_same 300) (memory_ok "t") memory_view
    Hlaws (fun _ => Ok tt) default_materialized
    (fun _ => "error") demo_queue demo_ledger ["e1"] (fun id => "token-" +:+ id) 10 100) as (s' & n & Hrun & _ & Hall).
  - apply demo_queue_ok.
  - done.
  - intros id h Hv. unfold memory_view in Hv. simpl in Hv. case_decide as Hid; [subst; by left|done].
  - vm_compute. done.
  - by_decide.
  - intros e. unfold demo_ledger. rewrite !elem_of_cons, elem_of_nil. by intros [->|[->|[->|[]]]].
  - intros e h He Hv. unfold demo_same. apply bool_decide_eq_true.
    apply (memory_view_some demo_same "t" _ _ _ demo_queue_ok) in Hv as (Hin & _).
    by destruct (mk_events _ _ demo_queue_ok _ _ Hin).
  - done.
  - exists s', n. split; [exact Hrun|]. apply (Hall (demo_stored "e2" Asserted 2)); [|done].
    right; right; left.
Defined.
