(* ===== verification/FactLedger.v ===== *)
(** * FactLedger: the reference fact ledger (src/recall/provenance_controller.py)

    The projections every ledger refuses and lists on, the single-use permit, and the
    in-memory ledger: an append-only list of events and the request ids it has answered.
    What the store serves is a parameter ([ServedState]); times are instants. *)
From S2P Require Import Prelude Text Float64 Frontmatter Intervals FactEvents SegmentTree SuccessorIndex FactProjection.

Definition STATED_TRUST_STATE : string := "stated".

(** ** What the store serves *)

(** [ServedState], and a plain callable as one without its further hooks. *)
Record ServedState := Served {
  sv_served : gset string -> gset string;
  sv_content_hashes : option (gset string -> option (gmap string (gset string)));
  sv_superseded : option (gset string -> gset string);
  sv_stated_admitted : option (gset string -> gset string);
  sv_superseded_at : option (gset string -> option Z -> gset string)
}.

Definition content_hashes (s : ServedState) (names : gset string) : option (gmap string (gset string)) :=
  match sv_content_hashes s with None => None | Some hook => hook names end.

Definition superseded_names (s : ServedState) (names : gset string) (now : option Z) : gset string :=
  match sv_superseded_at s with
  | Some hook => hook names now
  | None => match sv_superseded s with None => ∅ | Some hook => hook names end
  end.

Definition stated_admitted (s : ServedState) (names : gset string) : option (gset string) :=
  (fun hook => hook names) <$> sv_stated_admitted s.

(** [card_liveness]. *)
Definition card_liveness (s : ServedState) (names : gset string) (now : option Z) (card : EvidenceCard) : bool :=
  let present := if decide (names = ∅) then ∅ else sv_served s names in
  let retired := if decide (names = ∅) then ∅ else superseded_names s names now in
  let hashes := if decide (names = ∅) then None else content_hashes s names in
  let admitted := if decide (names = ∅) then None else stated_admitted s names in
  if ec_redacted card then false
  else if bool_decide (ec_source card ∉ present) || bool_decide (ec_source card ∈ retired) then false
  else if decide (ec_trust_state card = STATED_TRUST_STATE) then
    match admitted with Some a => bool_decide (ec_source card ∈ a) | None => true end &&
    match hashes with
    | Some h => bool_decide (ec_source_digest card ∈ default ∅ (h !! ec_source card))
    | None => true
    end
  else true.

(** ** The cards behind a fact *)

Definition is_retracted (events : list FactEvent) (e : FactEvent) : bool :=
  bool_decide (retraction_key e ∈ retracted_keys events).

(** Per fact id, each card once, in ledger order. *)
Definition add_cards (cards : list EvidenceCard) (group : list (string * EvidenceCard)) :
    list (string * EvidenceCard) :=
  foldl (fun g c => match odict_get (ec_card_id c) g with Some _ => g | None => odict_set (ec_card_id c) c g end)
    group cards.

Record card_groups := Groups {
  cg_cards : list (string * list (string * EvidenceCard));
  cg_in_force : gmap string bool
}.

Definition nonempty {A} (l : list A) : bool := match l with [] => false | _ => true end.

Definition assertion_step (events : list FactEvent) (index : option FactSupersession)
    (st : card_groups) (e : FactEvent) : card_groups :=
  match ev_type e, fact_id e with
  | Asserted, Some f =>
      if is_retracted events e then st
      else
        let counted := existsb (fun x => bool_decide (x.1 = event_id e)) (applications events) in
        let in_force_now :=
          match index with
          | Some ix => if counted then <[f := nonempty (in_force ix e)]> (cg_in_force st) else cg_in_force st
          | None => cg_in_force st
          end in
        if match index with Some _ => default false (in_force_now !! f) | None => true end
        then Groups (odict_set f (add_cards (evidence_cards e) (default [] (odict_get f (cg_cards st)))) (cg_cards st))
                    in_force_now
        else Groups (cg_cards st) in_force_now
  | _, _ => st
  end.

Definition assertion_cards (events : list FactEvent) (index : option FactSupersession) :
    list (string * list EvidenceCard) :=
  (fun p => (p.1, p.2.*2)) <$> cg_cards (foldl (assertion_step events index) (Groups [] ∅) events).

(** [absent_fact_ids]. *)
Definition absent_fact_ids (events : list FactEvent) (served : option ServedState) (now : option Z) : gset string :=
  match served with
  | None => ∅
  | Some s =>
      let cards := assertion_cards events None in
      let names := list_to_set (cards.*2 ≫= fun group => ec_source <$> group) in
      list_to_set (filter (fun p => nonempty p.2 && negb (existsb (card_liveness s names now) p.2) = true) cards).*1
  end.

(** ** Projections *)

(** [project_current]. *)
Definition currently (events : list FactEvent) (index : FactSupersession) (absent : gset string) (now : Z)
    (e : FactEvent) : bool :=
  existsb (fun x => bool_decide (x.1 = event_id e)) (applications events) &&
  negb (is_retracted events e) &&
  match fact_id e with Some f => bool_decide (f ∉ absent) | None => true end &&
  match ev_fact e with Some fact => holds (Some (fact_window fact)) now | None => false end &&
  negb (hidden_at index e now).

Definition list_current (events : list FactEvent) (index : FactSupersession) (absent : gset string) (now : Z)
    (st : list (option string) * list FactEvent) (e : FactEvent) : list (option string) * list FactEvent :=
  let '(listed, current) := st in
  if currently events index absent now e && negb (bool_decide (fact_id e ∈ listed))
  then (fact_id e :: listed, current ++ [e]) else st.

Definition project_current (events : list FactEvent) (now : Z) (served : option ServedState) :
    result (list FactEvent) :=
  index ← fact_supersession events;
  Ok (foldl (list_current events index (absent_fact_ids events served (Some now)) now) ([], []) events).2.

(** [project_candidates]. *)
Definition project_candidates (events : list FactEvent) (index : FactSupersession) : list FactEvent :=
  filter (fun e => bool_decide (is_Some (ev_fact e)) && negb (is_retracted events e) && nonempty (in_force index e) = true)
    (applications events).*2.

Section ledger.
Context (json_text : value -> string) (sha256_hex : string -> string) (isoformat : Z -> string).
#[local] Abbreviation identity := (fact_identity json_text sha256_hex isoformat).
#[local] Abbreviation stamp := (ordered_after json_text sha256_hex isoformat).

(** [repeats_assertion]. *)
Definition repeats_assertion (candidates : list FactEvent) (fact : AtomicFact) (supersedes : list string) : bool :=
  existsb (fun e => bool_decide (fact_id e = Some (identity fact)) &&
                    forallb (fun f => bool_decide (f ∈ supersedes_fact_ids e)) supersedes) candidates.

(** [unresolved_conflicts]: judged as if the fact were recorded. *)
Definition PENDING : string := String Ascii.zero "pending".

Definition pending_event (like : FactEvent) (fact : AtomicFact) (supersedes : list string) (at_ : Z) : FactEvent :=
  {| event_id := PENDING; ev_type := Asserted; tenant_id := tenant_id like; generation_id := generation_id like;
     ev_fact := Some fact; fact_id := Some (identity fact); evidence_cards := [];
     supersedes_fact_ids := sorted_set supersedes; request_id := PENDING; writer := "";
     decision_code := APPLIED; created_at := at_; lease_token := None |}.

Definition contradicts (history : list FactEvent) (index : FactSupersession) (fact : AtomicFact)
    (supersedes : list string) (absent : gset string) (e : FactEvent) : bool :=
  match ev_fact e, fact_id e with
  | Some f, Some id =>
      bool_decide (id ∉ absent) && negb (bool_decide (id ∈ supersedes)) &&
      facts_conflict json_text f fact && overlaps index e fact
  | Some f, None => facts_conflict json_text f fact && overlaps index e fact
  | None, _ => false
  end.

Definition unresolved_conflicts (history : list FactEvent) (fact : AtomicFact) (supersedes : list string)
    (absent : gset string) (moment : Z) (index : FactSupersession) : result (list FactEvent) :=
  let remaining := filter (fun e => contradicts history index fact supersedes absent e = true)
                     (project_candidates history index) in
  match remaining, supersedes with
  | [], _ | _, [] => Ok remaining
  | like :: _, _ =>
      after ← fact_supersession (history ++ [pending_event like fact supersedes (stamp moment history fact)]);
      Ok (filter (fun e => overlaps after e fact = true) remaining)
  end.

(** ** Permits *)

(** [FactApplicationPermit]; [pm_minted] says its token is the controller's sentinel. *)
Record FactApplicationPermit := Permit {
  pm_tenant : string;
  pm_generation : string;
  pm_request : string;
  pm_fact_id : string;
  pm_card_ids : list string;
  pm_minted : bool;
  pm_used : bool
}.

Definition spend (p : FactApplicationPermit) : FactApplicationPermit :=
  Permit (pm_tenant p) (pm_generation p) (pm_request p) (pm_fact_id p) (pm_card_ids p) (pm_minted p) true.

(** [_consume_permit]. *)
Definition consume_permit (permit : option FactApplicationPermit) (tenant generation request : string)
    (fact : AtomicFact) (cards : list EvidenceCard) : result FactApplicationPermit :=
  match permit with
  | None => Raise (PermissionError "ledger assertion requires an unused controller permit")
  | Some p =>
      if negb (pm_minted p) || pm_used p || negb (bool_decide (pm_tenant p = tenant)) ||
         negb (bool_decide (pm_generation p = generation)) || negb (bool_decide (pm_request p = request)) ||
         negb (bool_decide (pm_fact_id p = identity fact)) ||
         negb (bool_decide (pm_card_ids p = ec_card_id <$> cards))
      then Raise (PermissionError "ledger assertion requires an unused controller permit")
      else Ok (spend p)
  end.

(** [replays_request]. *)
Definition replays_request (prior : FactEvent) (fact : AtomicFact) (cards : list EvidenceCard) : bool :=
  bool_decide (ev_type prior = Asserted) && bool_decide (fact_id prior = Some (identity fact)) &&
  bool_decide (card_ids prior = list_to_set (ec_card_id <$> cards)).

(** ** The in-memory ledger *)

Record InMemoryFactLedger := Ledger {
  lg_events : list FactEvent;
  lg_by_request : gmap (string * string) FactEvent
}.

Record LedgerApplyResult := Applied_ { ar_event : FactEvent; ar_duplicate : bool }.

Definition new_ledger : InMemoryFactLedger := Ledger [] ∅.

(** The text an event's id is the digest of: tenant, request, type and place. *)
Definition type_name (t : event_type) : string :=
  match t with
  | Asserted => "asserted"
  | SupersededEvent => "superseded"
  | Retracted => "retracted"
  | Withdrawn => "withdrawn"
  | Rejected => "rejected"
  | Abstained => "abstained"
  end.

Definition NUL : string := String Ascii.zero "".

Definition event_text (tenant request : string) (type : event_type) (place : nat) : string :=
  tenant +:+ NUL +:+ request +:+ NUL +:+ type_name type +:+ NUL +:+ pretty.pretty (N.of_nat place).

Definition new_event (l : InMemoryFactLedger) (type : event_type) (tenant generation request writer : string)
    (code : DecisionCode) (fact : option AtomicFact) (cards : list EvidenceCard) (supersedes : list string)
    (now : Z) : FactEvent :=
  {| event_id := "evt_" +:+ String.substring 0 32 (sha256_hex (event_text tenant request type (length (lg_events l))));
     ev_type := type; tenant_id := tenant; generation_id := generation; ev_fact := fact;
     fact_id := identity <$> fact; evidence_cards := cards; supersedes_fact_ids := supersedes;
     request_id := request; writer := writer; decision_code := code; created_at := now; lease_token := None |}.

(** Appended, and registered under its request. *)
Definition record_event (l : InMemoryFactLedger) (e : FactEvent) : InMemoryFactLedger :=
  Ledger (lg_events l ++ [e]) (<[(tenant_id e, request_id e) := e]> (lg_by_request l)).

Definition tenant_history (l : InMemoryFactLedger) (tenant : string) : list FactEvent :=
  filter (fun e => tenant_id e = tenant) (lg_events l).

Record assertion := Assertion {
  as_tenant : string;
  as_generation : string;
  as_fact : AtomicFact;
  as_cards : list EvidenceCard;
  as_request : string;
  as_writer : string;
  as_supersedes : list string;
  as_now : Z;
  as_served : option ServedState;
  as_stated : bool
}.

(** The body of [apply_assertion] once the permit is spent. *)
Definition apply_permitted (l : InMemoryFactLedger) (a : assertion) : InMemoryFactLedger * result LedgerApplyResult :=
  match lg_by_request l !! (as_tenant a, as_request a) with
  | Some prior =>
      if replays_request prior (as_fact a) (as_cards a) then (l, Ok (Applied_ prior true))
      else (l, Raise (ValueError (code_text REQUEST_ID_REUSED)))
  | None =>
      let history := tenant_history l (as_tenant a) in
      match fact_supersession history with
      | Raise ex => (l, Raise ex)
      | Ok index =>
          let candidates := project_candidates history index in
          let now := stamp (as_now a) history (as_fact a) in
          let event code supersedes :=
            new_event l Asserted (as_tenant a) (as_generation a) (as_request a) (as_writer a) code
              (Some (as_fact a)) (as_cards a) supersedes now in
          if repeats_assertion candidates (as_fact a) (as_supersedes a) then
            let e := event DUPLICATE [] in (record_event l e, Ok (Applied_ e true))
          else
            let absent := absent_fact_ids history (as_served a) (Some now) in
            match (if as_stated a then Ok []
                   else unresolved_conflicts history (as_fact a) (as_supersedes a) absent now index) with
            | Raise ex => (l, Raise ex)
            | Ok (_ :: _) => (l, Raise (ValueError (code_text CONTRADICTION_WITHOUT_SUPERSESSION)))
            | Ok [] =>
                let e := event APPLIED (as_supersedes a) in
                let l' := record_event l e in
                match as_supersedes a with
                | [] => (l', Ok (Applied_ e false))
                | _ =>
                    (record_event l'
                       (new_event l' SupersededEvent (as_tenant a) (as_generation a)
                          (as_request a +:+ SUPERSESSION_REQUEST_SUFFIX) (as_writer a) APPLIED
                          (Some (as_fact a)) (as_cards a) (as_supersedes a) now),
                     Ok (Applied_ e false))
                end
            end
      end
  end.

(** [apply_assertion]: the ledger, the permit as the call leaves it, and the answer. *)
Definition apply_assertion (l : InMemoryFactLedger) (permit : option FactApplicationPermit) (a : assertion) :
    InMemoryFactLedger * option FactApplicationPermit * result LedgerApplyResult :=
  match consume_permit permit (as_tenant a) (as_generation a) (as_request a) (as_fact a) (as_cards a) with
  | Raise ex => (l, permit, Raise ex)
  | Ok spent => let '(l', r) := apply_permitted l a in (l', Some spent, r)
  end.

(** [record_decision]. *)
Definition record_decision (l : InMemoryFactLedger) (tenant generation request writer : string)
    (code : DecisionCode) (fact : option AtomicFact) (cards : list EvidenceCard) (now : Z) :
    InMemoryFactLedger * FactEvent :=
  match lg_by_request l !! (tenant, request) with
  | Some prior => (l, prior)
  | None =>
      let e := new_event l (if decide (code = FRESH_SEARCH_INSUFFICIENT) then Abstained else Rejected)
                 tenant generation request writer code fact cards [] now in
      (record_event l e, e)
  end.

(** [request_event] and [current]. *)
Definition request_event (l : InMemoryFactLedger) (tenant request : string) : option FactEvent :=
  match lg_by_request l !! (tenant, request) with
  | Some e => if decide (tenant_id e = tenant) then Some e else None
  | None => None
  end.

Definition ledger_current (l : InMemoryFactLedger) (tenant : string) (now : Z) (served : option ServedState) :
    result (list FactEvent) :=
  project_current (tenant_history l tenant) now served.
End ledger.
