(* ===== verification/FactLedgerFacts.v ===== *)
(** * FactLedgerFacts: what the reference ledger keeps *)
From S2P Require Import Prelude Text Float64 Frontmatter Intervals FactEvents SegmentTree SuccessorIndex FactProjection FactProjectionFacts FactLedger.

Section ledger_facts.
Context (json_text : value -> string) (sha256_hex : string -> string) (isoformat : Z -> string).
Abbreviation identity := (fact_identity json_text sha256_hex isoformat).
Abbreviation conflict_key := (fact_conflict_key json_text sha256_hex).
Abbreviation permitted := (apply_permitted json_text sha256_hex isoformat).
Abbreviation apply := (apply_assertion json_text sha256_hex isoformat).
Abbreviation decide_and_record := (record_decision json_text sha256_hex isoformat).
Abbreviation stamp := (ordered_after json_text sha256_hex isoformat).

(** ** What one application does *)

Definition assertion_event (l : InMemoryFactLedger) (a : assertion) (code : DecisionCode) (supersedes : list string) :
    FactEvent :=
  new_event json_text sha256_hex isoformat l Asserted (as_tenant a) (as_generation a) (as_request a) (as_writer a) code
    (Some (as_fact a)) (as_cards a) supersedes (stamp (as_now a) (tenant_history l (as_tenant a)) (as_fact a)).

Definition receipt_event (l : InMemoryFactLedger) (a : assertion) : FactEvent :=
  new_event json_text sha256_hex isoformat (record_event l (assertion_event l a APPLIED (as_supersedes a)))
    SupersededEvent (as_tenant a) (as_generation a) (as_request a +:+ SUPERSESSION_REQUEST_SUFFIX) (as_writer a) APPLIED
    (Some (as_fact a)) (as_cards a) (as_supersedes a)
    (stamp (as_now a) (tenant_history l (as_tenant a)) (as_fact a)).

(** Every way an application can end. *)
Inductive applied_as (l : InMemoryFactLedger) (a : assertion) :
    InMemoryFactLedger -> result LedgerApplyResult -> Prop :=
| as_replay prior :
    lg_by_request l !! (as_tenant a, as_request a) = Some prior ->
    replays_request json_text sha256_hex isoformat prior (as_fact a) (as_cards a) = true ->
    applied_as l a l (Ok (Applied_ prior true))
| as_refused ex : applied_as l a l (Raise ex)
| as_duplicate :
    lg_by_request l !! (as_tenant a, as_request a) = None ->
    applied_as l a (record_event l (assertion_event l a DUPLICATE [])) (Ok (Applied_ (assertion_event l a DUPLICATE []) true))
| as_plain :
    lg_by_request l !! (as_tenant a, as_request a) = None -> as_supersedes a = [] ->
    applied_as l a (record_event l (assertion_event l a APPLIED []))
      (Ok (Applied_ (assertion_event l a APPLIED []) false))
| as_superseding :
    lg_by_request l !! (as_tenant a, as_request a) = None -> as_supersedes a <> [] ->
    applied_as l a
      (record_event (record_event l (assertion_event l a APPLIED (as_supersedes a))) (receipt_event l a))
      (Ok (Applied_ (assertion_event l a APPLIED (as_supersedes a)) false)).

Lemma permitted_applied l a l' r : permitted l a = (l', r) -> applied_as l a l' r.
Proof.
  unfold apply_permitted. destruct (lg_by_request l !! _) as [prior|] eqn:Hprior.
  { destruct (replays_request _ _ _ _ _ _) eqn:Hrep; intros [= <- <-]; by constructor. }
  destruct (fact_supersession _) as [index|ex]; [|intros [= <- <-]; constructor].
  destruct (repeats_assertion _ _ _ _ _ _); [intros [= <- <-]; by apply as_duplicate|].
  destruct (if as_stated a then _ else _) as [[|c cs]|ex]; [|intros [= <- <-]; constructor..].
  destruct (as_supersedes a) as [|f fs] eqn:Hs; intros [= <- <-].
  - by apply as_plain.
  - rewrite <-Hs. apply as_superseding; [done|]. by rewrite Hs.
Qed.

Lemma apply_cases l permit a l' permit' r :
  apply l permit a = (l', permit', r) ->
  (l' = l /\ permit' = permit /\ exists ex, r = Raise ex /\
     consume_permit json_text sha256_hex isoformat permit (as_tenant a) (as_generation a) (as_request a) (as_fact a)
       (as_cards a) = Raise ex) \/
  (exists spent, consume_permit json_text sha256_hex isoformat permit (as_tenant a) (as_generation a) (as_request a)
     (as_fact a) (as_cards a) = Ok spent /\ permit' = Some spent /\ applied_as l a l' r).
Proof.
  unfold apply_assertion. destruct (consume_permit _ _ _ _ _ _ _ _ _) as [spent|ex] eqn:Hc.
  - destruct (permitted l a) as [l1 r1] eqn:Hp. intros [= <- <- <-]. right. exists spent.
    split_and!; [done..|]. by apply permitted_applied.
  - intros [= <- <- <-]. left. split_and!; [done..|]. by exists ex.
Qed.

(** A permit that lets an application through was minted for exactly it, and is spent. *)
Lemma consume_permit_ok permit tenant generation request fact cards spent :
  consume_permit json_text sha256_hex isoformat permit tenant generation request fact cards = Ok spent <->
  exists p, permit = Some p /\ spent = spend p /\ pm_minted p = true /\ pm_used p = false /\ pm_tenant p = tenant /\
    pm_generation p = generation /\ pm_request p = request /\ pm_fact_id p = identity fact /\
    pm_card_ids p = ec_card_id <$> cards.
Proof.
  unfold consume_permit. destruct permit as [p|]; [|split; [done|]; by intros (p & ? & _)].
  destruct (_ || _) eqn:Ho.
  - split; [done|]. intros (p' & [= <-] & _ & Hm & Hu & Ht & Hg & Hr & Hf & Hc). exfalso.
    rewrite Hm, Hu in Ho. simpl in Ho. by rewrite !bool_decide_eq_true_2 in Ho.
  - rewrite !orb_false_iff, !negb_false_iff, !bool_decide_eq_true in Ho.
    destruct Ho as [[[[[[Hm Hu] Ht] Hg] Hr] Hf] Hc]. split.
    + intros [= <-]. by exists p.
    + intros (p' & [= <-] & -> & _). done.
Qed.

(** C34: a permit is a single-use capability.  An application that changes the ledger was
    handed an unused permit that the controller minted for that tenant, generation,
    request, fact and list of cards; the permit comes back spent, and with it the ledger
    can never be changed again, whatever is applied. *)
Theorem permit_single_use l permit a l' permit' r
    (Hrun : apply l permit a = (l', permit', r)) (Hchanged : lg_events l' <> lg_events l) :
  (exists p, permit = Some p /\ pm_minted p = true /\ pm_used p = false /\ pm_tenant p = as_tenant a /\
     pm_generation p = as_generation a /\ pm_request p = as_request a /\ pm_fact_id p = identity (as_fact a) /\
     pm_card_ids p = ec_card_id <$> as_cards a /\ permit' = Some (spend p)) /\
  forall l2 a2, exists ex, apply l2 permit' a2 = (l2, permit', Raise ex).
Proof.
  destruct (apply_cases _ _ _ _ _ _ Hrun) as [(-> & _)|(spent & Hc & -> & _)]; [done|].
  apply consume_permit_ok in Hc as (p & -> & -> & Hm & Hu & Ht & Hg & Hr & Hf & Hcards). split; [by exists p|].
  intros l2 a2. unfold apply_assertion, consume_permit. simpl. rewrite orb_true_r. simpl. by eexists.
Qed.

Lemma suffix_ne r : r +:+ SUPERSESSION_REQUEST_SUFFIX <> r.
Proof.
  intros H. apply (f_equal (fun s => length (chars s))) in H. rewrite length_chars_app in H.
  assert (length (chars SUPERSESSION_REQUEST_SUFFIX) = 13) by reflexivity. lia.
Qed.

Lemma replays_own (e : FactEvent) (fact : AtomicFact) (cards cards' : list EvidenceCard) :
  ev_type e = Asserted -> fact_id e = Some (identity fact) -> evidence_cards e = cards ->
  (list_to_set (ec_card_id <$> cards) : gset string) = list_to_set (ec_card_id <$> cards') ->
  replays_request json_text sha256_hex isoformat e fact cards' = true.
Proof.
  intros Ht Hf Hc Hsame. unfold replays_request, card_ids. rewrite Ht, Hf, Hc, Hsame.
  by rewrite !bool_decide_eq_true_2.
Qed.

(** Applying is idempotent per request.  Once an application has been answered, the
    same request for the same fact on the same set of cards, under a fresh permit, is
    answered with the same event, as a duplicate, and writes nothing. *)
Theorem apply_idempotent l permit a l' permit' answer cards p
    (Hrun : apply l permit a = (l', permit', Ok answer))
    (Hcards : (list_to_set (ec_card_id <$> as_cards a) : gset string) = list_to_set (ec_card_id <$> cards))
    (Hp : p = Permit (as_tenant a) (as_generation a) (as_request a) (identity (as_fact a)) (ec_card_id <$> cards) true false) :
  apply l' (Some p)
    (Assertion (as_tenant a) (as_generation a) (as_fact a) cards (as_request a) (as_writer a) (as_supersedes a)
       (as_now a) (as_served a) (as_stated a)) =
  (l', Some (spend p), Ok (Applied_ (ar_event answer) true)).
Proof.
  destruct (apply_cases _ _ _ _ _ _ Hrun) as [(_ & _ & ex & Hr & _)|(spent & _ & _ & Hcase)]; [done|].
  assert (Hreg : lg_by_request l' !! (as_tenant a, as_request a) = Some (ar_event answer) /\
                 replays_request json_text sha256_hex isoformat (ar_event answer) (as_fact a) cards = true).
  { inversion Hcase as [prior Hprior Hrep|ex|Hnone|Hnone Hs|Hnone Hs]; subst; simpl.
    - split; [done|]. unfold replays_request in *. by rewrite <-Hcards.
    - split; [apply lookup_insert_eq|]. by eapply replays_own.
    - split; [apply lookup_insert_eq|]. by eapply replays_own.
    - split; [|by eapply replays_own]. unfold record_event. simpl. rewrite lookup_insert_ne; [apply lookup_insert_eq|].
      intros [=]. by eapply suffix_ne. }
  destruct Hreg as [Hreg Hrep]. unfold apply_assertion.
  cbn [as_tenant as_generation as_fact as_cards as_request].
  rewrite (proj2 (consume_permit_ok (Some p) _ _ _ _ _ (spend p))).
  2:{ exists p. subst p. done. }
  unfold apply_permitted. cbn [as_tenant as_generation as_fact as_cards as_request]. by rewrite Hreg, Hrep.
Qed.

(** ** The ledger's invariant *)

(** One conflict key, as the stamp compares it. *)
Definition same_key (a b : FactEvent) : Prop :=
  match ev_fact a, ev_fact b with
  | Some f, Some g => af_subject f = af_subject g /\ af_predicate f = af_predicate g /\
                      af_namespace f = af_namespace g /\ conflict_key f = conflict_key g
  | _, _ => False
  end.

(** The earlier of two assertions of one key carries the earlier time. *)
Definition in_order (a b : FactEvent) : Prop :=
  tenant_id a = tenant_id b -> ev_type a = Asserted -> ev_type b = Asserted -> same_key a b ->
  (created_at a < created_at b)%Z.

(** The applied assertion a receipt speaks for. *)
Definition receipt_of (l : InMemoryFactLedger) (e : FactEvent) : Prop :=
  exists a, a ∈ lg_events l /\ tenant_id a = tenant_id e /\ request_id e = request_id a +:+ SUPERSESSION_REQUEST_SUFFIX /\
    asserts_fact a = true /\ supersedes_fact_ids a <> [] /\ is_Some (ev_fact a).

Record event_ok (l : InMemoryFactLedger) (e : FactEvent) : Prop := {
  eo_type : ev_type e = Asserted \/ ev_type e = SupersededEvent \/ ev_type e = Rejected \/ ev_type e = Abstained;
  eo_fact : ev_type e = Asserted -> exists fact, ev_fact e = Some fact /\ fact_id e = Some (identity fact);
  eo_receipt : ev_type e = SupersededEvent <-> ends_with (request_id e) SUPERSESSION_REQUEST_SUFFIX = true;
  eo_paired : ev_type e = SupersededEvent -> receipt_of l e;
  eo_lease : lease_token e = None
}.

Definition request_key (e : FactEvent) : string * string := (tenant_id e, request_id e).

Record ledger_ok (l : InMemoryFactLedger) : Prop := {
  lo_once : NoDup (request_key <$> lg_events l);
  lo_registered : forall e, e ∈ lg_events l -> lg_by_request l !! (tenant_id e, request_id e) = Some e;
  lo_recorded : forall key e, lg_by_request l !! key = Some e -> e ∈ lg_events l /\ key = (tenant_id e, request_id e);
  lo_events : forall e, e ∈ lg_events l -> event_ok l e;
  lo_order : StronglySorted in_order (lg_events l)
}.

Lemma new_ledger_ok : ledger_ok new_ledger.
Proof.
  split; simpl.
  - constructor.
  - by intros e ?%not_elem_of_nil.
  - intros key e. by rewrite lookup_empty.
  - by intros e ?%not_elem_of_nil.
  - constructor.
Qed.

Lemma StronglySorted_snoc {A} (R : A -> A -> Prop) l x :
  StronglySorted R l -> (forall y, y ∈ l -> R y x) -> StronglySorted R (l ++ [x]).
Proof.
  induction 1 as [|y l Hl IH Hall]; intros Hx; simpl; [repeat constructor|]. constructor.
  - apply IH. intros z Hz. apply Hx. by right.
  - apply Forall_app. split; [done|]. apply Forall_singleton, Hx. by left.
Qed.

Lemma record_event_ok l e :
  ledger_ok l -> lg_by_request l !! (tenant_id e, request_id e) = None -> event_ok l e ->
  (forall x, x ∈ lg_events l -> in_order x e) -> ledger_ok (record_event l e).
Proof.
  intros [Honce Hreg Hrec Hev Hord] Hnone [Ht Hf Hr Hp Hle] Hlast.
  assert (Hmono : forall x, receipt_of l x -> receipt_of (record_event l e) x).
  { intros x (a & Ha & Hrest). exists a. split; [apply elem_of_app; by left|done]. }
  split; simpl.
  - rewrite fmap_app. apply NoDup_app. split; [done|]. split; [|apply NoDup_singleton].
    intros key (x & -> & Hx)%list_elem_of_fmap Heq%list_elem_of_singleton.
    specialize (Hreg x Hx). unfold request_key in Heq. rewrite Heq in Hreg. congruence.
  - intros x [Hx| ->%list_elem_of_singleton]%elem_of_app; [|apply lookup_insert_eq].
    rewrite lookup_insert_ne; [by apply Hreg|]. intros Heq. specialize (Hreg x Hx). rewrite <-Heq in Hreg. congruence.
  - intros key x. rewrite lookup_insert. case_decide as Hk.
    + intros [= <-]. split; [apply elem_of_app; right; by left|done].
    + intros [Hx ->]%Hrec. split; [apply elem_of_app; by left|done].
  - intros x [Hx| ->%list_elem_of_singleton]%elem_of_app.
    + destruct (Hev x Hx) as [? ? ? Hpx ?]. split; try done. intros Hxt. apply Hmono, (Hpx Hxt).
    + split; try done. intros Hxt. apply Hmono, (Hp Hxt).
  - by apply StronglySorted_snoc.
Qed.

Lemma reserved_suffix r : reserved_request_id r = false -> ends_with r SUPERSESSION_REQUEST_SUFFIX = false.
Proof. unfold reserved_request_id. by intros [? _]%orb_false_iff. Qed.

(** The time an assertion is stamped with comes after every event of its key. *)
Lemma stamped_last l (a : assertion) code supersedes x :
  x ∈ lg_events l -> in_order x (assertion_event l a code supersedes).
Proof.
  intros Hx Ht _ _ Hkey. simpl in *. unfold same_key in Hkey. simpl in Hkey.
  destruct (ev_fact x) as [f|] eqn:Hf; [|done].
  assert (Hmem : x ∈ key_members json_text sha256_hex (tenant_history l (as_tenant a)) (as_fact a)).
  { apply list_elem_of_filter. split; [rewrite Hf; by apply bool_decide_eq_true|].
    apply list_elem_of_filter. by split. }
  unfold ordered_after.
  pose proof (latest_time_spec (key_members json_text sha256_hex (tenant_history l (as_tenant a)) (as_fact a) ++
    key_receipts json_text sha256_hex isoformat (tenant_history l (as_tenant a)) (as_fact a))) as Hl.
  destruct (latest_time _) as [m|].
  - destruct Hl as [_ Hle]. specialize (Hle x ltac:(apply elem_of_app; by left)).
    destruct (Z.leb_spec (as_now a) m); lia.
  - destruct (key_members _ _ _ _); [by apply not_elem_of_nil in Hmem|done].
Qed.

(** The requests clients send, and the refusals a controller records. *)
Inductive ledger_step (l : InMemoryFactLedger) : InMemoryFactLedger -> Prop :=
| step_apply permit a l' permit' r :
    reserved_request_id (as_request a) = false -> apply l permit a = (l', permit', r) -> ledger_step l l'
| step_decision tenant generation request writer code fact cards now l' e :
    reserved_request_id request = false ->
    decide_and_record l tenant generation request writer code fact cards now = (l', e) -> ledger_step l l'.

Lemma assertion_event_ok l (a : assertion) code supersedes :
  reserved_request_id (as_request a) = false -> event_ok l (assertion_event l a code supersedes).
Proof.
  intros Hres%reserved_suffix. split; simpl.
  - by left.
  - intros _. by eexists.
  - split; [done|]. by rewrite Hres.
  - done.
  - done.
Qed.

Lemma applied_ok l a l' r :
  ledger_ok l -> reserved_request_id (as_request a) = false -> applied_as l a l' r ->
  ledger_ok l' /\ (lg_events l `prefix_of` lg_events l') /\ lg_by_request l ⊆ lg_by_request l'.
Proof.
  intros Hok Hres Hcase. destruct Hcase as [prior Hprior Hrep|ex|Hnone|Hnone Hs|Hnone Hs]; [done|done| | |].
  - split_and!; [|by eexists|by apply insert_subseteq].
    apply record_event_ok; [done|done|by apply assertion_event_ok|by apply stamped_last].
  - split_and!; [|by eexists|by apply insert_subseteq].
    apply record_event_ok; [done|done|by apply assertion_event_ok|by apply stamped_last].
  - set (e := assertion_event l a APPLIED (as_supersedes a)). set (l1 := record_event l e).
    assert (Hok1 : ledger_ok l1).
    { apply record_event_ok; [done|done|by apply assertion_event_ok|by apply stamped_last]. }
    assert (Hfresh : lg_by_request l1 !! (as_tenant a, as_request a +:+ SUPERSESSION_REQUEST_SUFFIX) = None).
    { apply eq_None_not_Some. intros [x Hx]. unfold l1 in Hx. simpl in Hx.
      rewrite lookup_insert_ne in Hx by (intros [= Heq]; symmetry in Heq; by apply suffix_ne in Heq).
      destruct (lo_recorded _ Hok _ _ Hx) as [Hin [= Ht Hr]].
      assert (ends_with (request_id x) SUPERSESSION_REQUEST_SUFFIX = true) as Hend.
      { apply ends_with_spec. exists (as_request a). done. }
      destruct (lo_events _ Hok x Hin) as [_ _ Hrc Hp _]. apply Hrc, Hp in Hend as (b & Hb & Htb & Hrb & _).
      rewrite <-Hr in Hrb. apply string_app_inj_r in Hrb. apply (lo_registered _ Hok) in Hb.
      rewrite Htb, <-Ht, <-Hrb in Hb. congruence. }
    split_and!.
    + apply record_event_ok; [done|done| |].
      * split; simpl; [by right; left|done| | |done].
        -- split; [|done]. intros _. apply ends_with_spec. by eexists.
        -- intros _. exists e. split_and!; [apply elem_of_app; right; by left|done..|by eexists].
      * intros x _ _ _ Ht. done.
    + exists [e; receipt_event l a]. unfold l1. simpl. by rewrite <-(assoc_L (++)).
    + etrans; [|apply insert_subseteq, Hfresh]. by apply insert_subseteq.
Qed.

Lemma ledger_step_ok l l' :
  ledger_ok l -> ledger_step l l' ->
  ledger_ok l' /\ (lg_events l `prefix_of` lg_events l') /\ lg_by_request l ⊆ lg_by_request l'.
Proof.
  intros Hok [permit a l1 permit' r Hres Hrun|tenant generation request writer code fact cards now l1 e Hres Hrun].
  - destruct (apply_cases _ _ _ _ _ _ Hrun) as [(-> & _)|(_ & _ & _ & Hcase)]; [done|]. by eapply applied_ok.
  - unfold record_decision in Hrun. destruct (lg_by_request l !! (tenant, request)) eqn:Hnone; injection Hrun as <- <-; [done|].
    split_and!; [|by eexists|by apply insert_subseteq]. apply record_event_ok; [done|done| |].
    + split; simpl; [case_decide; auto|case_decide; discriminate| |case_decide; discriminate|done].
      rewrite (reserved_suffix _ Hres). split; [case_decide; discriminate|done].
    + intros x _ _ _ Ht. simpl in Ht. by case_decide.
Qed.

(** C15: the ledger is append-only and answers each request once.  Starting empty, whatever
    is applied or refused under ids clients may send, refused or accepted, events are only
    ever appended and registered requests never change; every event is the one registered
    under its tenant and request id, so no id names two; a receipt always follows the
    applied assertion it speaks for; and of two assertions of one conflict key the earlier
    carries the earlier time. *)
Theorem ledger_invariant l l' (Hl : rtc ledger_step new_ledger l) (Hl' : rtc ledger_step l l') :
  ledger_ok l' /\ (lg_events l `prefix_of` lg_events l') /\ lg_by_request l ⊆ lg_by_request l' /\
  NoDup (request_key <$> lg_events l').
Proof.
  assert (Hgen : forall m m', ledger_ok m -> rtc ledger_step m m' ->
            ledger_ok m' /\ (lg_events m `prefix_of` lg_events m') /\ lg_by_request m ⊆ lg_by_request m').
  { intros m m' Hm Hrun. induction Hrun as [m|m m1 m' Hstep _ IH]; [done|].
    destruct (ledger_step_ok _ _ Hm Hstep) as (Hm1 & Hpre & Hsub). destruct (IH Hm1) as (? & ? & ?).
    split_and!; [done|by etrans|by etrans]. }
  destruct (Hgen _ _ new_ledger_ok Hl) as (Hok & _). destruct (Hgen _ _ Hok Hl') as (Hok' & Hpre & Hsub).
  split_and!; [done..|]. apply Hok'.
Qed.

(** ** Its histories are orderly *)

(** Assertions supersede facts of their own key. *)
Definition within_key (history : list FactEvent) : Prop :=
  forall k e f, k ∈ history -> e ∈ history -> fact_id e = Some f -> f ∈ supersedes_fact_ids k ->
    ev_type k = Asserted -> ev_type e = Asserted -> same_key e k.

(** Hidden at an instant by assertions recorded later: one of them names the fact, and
    holds then or is itself superseded then. *)
Definition supersedes_later (k e : FactEvent) : Prop :=
  asserts_fact k = true /\ (exists f, fact_id e = Some f /\ f ∈ supersedes_fact_ids k) /\ (created_at e < created_at k)%Z.

Inductive superseded_at (history : list FactEvent) (t : Z) : FactEvent -> Prop :=
| superseded_by e k fact :
    k ∈ history -> supersedes_later k e -> ev_fact k = Some fact -> inside t (span (Some (fact_window fact))) ->
    superseded_at history t e
| superseded_through e k :
    k ∈ history -> supersedes_later k e -> superseded_at history t k -> superseded_at history t e.

Lemma count_application_plain events e st :
  NoDup (event_id <$> events ++ [e]) ->
  (forall x, (event_id x, x) ∈ st.1 <-> x ∈ events /\ asserts_fact x = true /\ is_Some (fact_id x)) ->
  (forall k x, (k, x) ∈ st.1 -> k = event_id x) ->
  let st' := count_application ∅ st e in
  (forall x, (event_id x, x) ∈ st'.1 <-> x ∈ events ++ [e] /\ asserts_fact x = true /\ is_Some (fact_id x)) /\
  (forall k x, (k, x) ∈ st'.1 -> k = event_id x).
Proof.
  intros Hnd Hst Hkeys. destruct st as [counted latest]. simpl in *.
  rewrite fmap_app in Hnd. apply NoDup_app in Hnd as (_ & Hfresh & _).
  assert (Hskip : asserts_fact e = false \/ fact_id e = None -> forall x, (event_id x, x) ∈ counted <->
            x ∈ events ++ [e] /\ asserts_fact x = true /\ is_Some (fact_id x)).
  { intros Hno x. rewrite Hst, elem_of_app, list_elem_of_singleton. split; [naive_solver|].
    intros ([?| ->] & Ha & [f Hf]); [by split_and!; [|done|exists f]|]. destruct Hno; congruence. }
  unfold count_application. destruct (ev_type e) eqn:Ht;
    try (split; [apply Hskip; left; unfold asserts_fact; by rewrite Ht|done]).
  destruct (fact_id e) as [f|] eqn:Hf; [|split; [apply Hskip; by right|done]].
  destruct (asserts_fact e) eqn:Ha.
  - assert (Hnew : odict_get (event_id e) counted = None).
    { apply eq_None_not_Some. intros [x Hx]. apply odict_get_in in Hx. pose proof (Hkeys _ _ Hx) as Hid.
      rewrite Hid in Hx. apply Hst in Hx as (Hx & _). apply (Hfresh (event_id x)); [by apply list_elem_of_fmap_2|].
      rewrite <-Hid. by left. }
    assert (Hset : odict_set (event_id e) e counted = counted ++ [(event_id e, e)]).
    { revert Hnew. clear. induction counted as [|[k v] d IH]; simpl; [done|]. case_decide; [done|]. intros ?. by rewrite IH. }
    simpl. rewrite Hset. split.
    + intros x. rewrite !elem_of_app, !list_elem_of_singleton, Hst. split.
      * intros [(? & ? & ?)| [= _ ->]]; [naive_solver|]. split_and!; [by right|done|by exists f].
      * intros ([?| ->] & ? & ?); [by left|by right].
    + intros k x [Hx| [= -> ->]%list_elem_of_singleton]%elem_of_app; [by apply Hkeys|done].
  - destruct (latest !! f) as [r|]; [|split; [apply Hskip; by left|done]].
    rewrite decide_False by set_solver. split; [apply Hskip; by left|done].
Qed.

Lemma applications_plain events :
  withdrawn_event_ids events = ∅ -> NoDup (event_id <$> events) ->
  forall x, x ∈ (applications events).*2 <-> x ∈ events /\ asserts_fact x = true /\ is_Some (fact_id x).
Proof.
  intros Hw Hnd. unfold applications. rewrite Hw. clear Hw.
  set (run := foldl (count_application ∅) ([], ∅)).
  assert (Hgen : (forall x, (event_id x, x) ∈ (run events).1 <-> x ∈ events /\ asserts_fact x = true /\ is_Some (fact_id x)) /\
                 (forall k x, (k, x) ∈ (run events).1 -> k = event_id x)).
  { unfold run. induction events as [|e events IH] using rev_ind.
    - split; [intros x; rewrite !elem_of_nil; naive_solver|by intros k x ?%not_elem_of_nil].
    - rewrite foldl_app. simpl. pose proof Hnd as Hnd'. rewrite fmap_app in Hnd'. apply NoDup_app in Hnd' as (Hnd' & _).
      destruct (IH Hnd') as [Hin Hk]. by apply count_application_plain. }
  destruct Hgen as [Hin Hk]. intros x. rewrite <-Hin, list_elem_of_fmap. split.
  - intros ([k y] & -> & Hy). simpl. by rewrite <-(Hk _ _ Hy).
  - intros Hx. by exists (event_id x, x).
Qed.

(** With every receipt paired, the claims are the superseding applications. *)
Lemma collect_applications_spec apps st :
  (forall x, x ∈ apps -> asserts_fact x = true /\ is_Some (fact_id x) /\ is_Some (ev_fact x)) ->
  let st' := foldl collect_application st apps in
  (forall s, s ∈ co_successors st' <-> s ∈ co_successors st \/ exists x fact, x ∈ apps /\ supersedes_fact_ids x <> [] /\
     ev_fact x = Some fact /\ s = (x, Some (fact_window fact))) /\
  (forall r, r ∈ co_paired st -> r ∈ co_paired st') /\
  (forall x, x ∈ apps -> supersedes_fact_ids x <> [] -> request_id x +:+ SUPERSESSION_REQUEST_SUFFIX ∈ co_paired st').
Proof.
  revert st; induction apps as [|x apps IH]; intros st Happ; cbn [foldl].
  { split_and!; [|done|by intros x ?%not_elem_of_nil]. intros s. split; [by left|].
    intros [?|(x & fact & ?%not_elem_of_nil & _)]; done. }
  destruct (Happ x) as (Ha & [f Hf] & [fact Hfact]); [by left|].
  destruct (IH (collect_application st x)) as (Hs & Hp & Hpx); [intros y Hy; apply Happ; by right|].
  unfold collect_application in Hs, Hp. unfold collect_application. rewrite Hf, Hfact in *.
  destruct (supersedes_fact_ids x) as [|i is_] eqn:Hsup; simpl in Hs, Hp; simpl.
  - split_and!; [|done|].
    + intros s. rewrite Hs. split; intros [?|(y & g & Hy & ? & ? & ->)]; [by left| |by left|].
      * right. exists y, g. split; [by right|done].
      * apply elem_of_cons in Hy as [-> |Hy]; [done|]. right. exists y, g. done.
    + intros y [-> |Hy]%elem_of_cons Hne; [done|]. unfold collect_application in Hpx. rewrite Hf, Hfact, Hsup in Hpx.
      by apply Hpx.
  - split_and!.
    + intros s. rewrite Hs, elem_of_app, list_elem_of_singleton. split.
      * intros [[?| ->]|(y & g & Hy & ? & ? & ->)]; [by left| |]; right; [exists x, fact|exists y, g];
          (split; [by constructor|]); [by rewrite Hsup|done].
      * intros [?|(y & g & [-> |Hy]%elem_of_cons & ? & Hg & ->)]; [by left; left| |].
        -- left; right. congruence.
        -- right. exists y, g. done.
    + intros r Hr. apply Hp. set_solver.
    + intros y [-> |Hy]%elem_of_cons Hne; [apply Hp; set_solver|].
      unfold collect_application in Hpx. rewrite Hf, Hfact, Hsup in Hpx. by apply Hpx.
Qed.

Lemma paired_receipts events st :
  (forall e, e ∈ events -> ev_type e = SupersededEvent -> request_id e ∈ co_paired st) ->
  foldl collect_receipt st events = st.
Proof.
  induction events as [|e events IH]; intros Hp; simpl; [done|].
  assert (collect_receipt st e = st) as ->; [|apply IH; intros x Hx; apply Hp; by right].
  unfold collect_receipt. destruct (decide (ev_type e = SupersededEvent)) as [Ht|Ht].
  - rewrite bool_decide_eq_true_2 by done. rewrite (bool_decide_eq_true_2 (request_id e ∈ _)); [done|].
    apply Hp; [by left|done].
  - by rewrite bool_decide_eq_false_2.
Qed.

Lemma strongly_sorted_cases {A} (R : A -> A -> Prop) l x y :
  StronglySorted R l -> x ∈ l -> y ∈ l -> x = y \/ R x y \/ R y x.
Proof.
  induction 1 as [|z l Hl IH Hall]; [by intros ?%not_elem_of_nil|]. rewrite Forall_forall in Hall.
  intros [->|Hx]%elem_of_cons [->|Hy]%elem_of_cons; auto.
Qed.

Lemma asserts_fact_type e : asserts_fact e = true -> ev_type e = Asserted.
Proof. unfold asserts_fact. by destruct (ev_type e). Qed.

Lemma ledger_reachable_ok l : rtc ledger_step new_ledger l -> ledger_ok l.
Proof.
  assert (Hgen : forall m m', rtc ledger_step m m' -> ledger_ok m -> ledger_ok m').
  { induction 1 as [m|m m1 m' Hstep _ IH]; [done|]. intros Hm. apply IH. by destruct (ledger_step_ok _ _ Hm Hstep). }
  intros H. by apply (Hgen new_ledger), new_ledger_ok.
Qed.

Section histories.
Context (l : InMemoryFactLedger) (tenant : string) (Hok : ledger_ok l).
#[local] Abbreviation history := (tenant_history l tenant).
Context (Hids : NoDup (event_id <$> history)).

Lemma history_event e : e ∈ history <-> e ∈ lg_events l /\ tenant_id e = tenant.
Proof. unfold tenant_history. rewrite list_elem_of_filter. tauto. Qed.

Lemma history_withdrawn : withdrawn_event_ids history = ∅.
Proof.
  apply set_eq. intros i. split; [|by intros ?%not_elem_of_empty]. unfold withdrawn_event_ids.
  rewrite elem_of_list_to_set, list_elem_of_bind. intros (e & Hi & He). exfalso.
  apply history_event in He as [He _]. destruct (lo_events _ Hok e He) as [Ht _ _ _ _].
  rewrite bool_decide_eq_false_2 in Hi by (intros Hw; rewrite Hw in Ht; naive_solver). by apply not_elem_of_nil in Hi.
Qed.

Lemma history_applications x :
  x ∈ (applications history).*2 <-> x ∈ history /\ asserts_fact x = true.
Proof.
  rewrite (applications_plain _ history_withdrawn Hids). split; [tauto|]. intros [Hx Ha]. split_and!; [done..|].
  apply history_event in Hx as [Hx _]. destruct (eo_fact _ _ (lo_events _ Hok x Hx)) as (fact & _ & ->).
  - by apply asserts_fact_type.
  - by eexists.
Qed.

(** The claims are the assertions that supersede something, each passing through itself. *)
Lemma history_claims k :
  k ∈ claims_of_history history <->
  exists x fact, x ∈ history /\ asserts_fact x = true /\ supersedes_fact_ids x <> [] /\ ev_fact x = Some fact /\
    k = Claim x (Some x) [span (Some (fact_window fact))].
Proof.
  unfold claims_of_history, collect. rewrite history_withdrawn.
  destruct (collect_applications_spec (applications history).*2 (Collected [] [] ∅)) as (Hs & _ & Hp).
  { intros x [Hx Ha]%history_applications. apply history_event in Hx as [Hx _].
    destruct (eo_fact _ _ (lo_events _ Hok x Hx)) as (fact & -> & ->); [by apply asserts_fact_type|].
    split_and!; [done|by eexists..]. }
  rewrite paired_receipts.
  2:{ intros e [He Hten]%history_event Ht. destruct (eo_paired _ _ (lo_events _ Hok e He) Ht) as (a & Ha & Hta & -> & Has & Hne & _).
      apply Hp; [|done]. apply history_applications. split; [|done]. apply history_event. split; [done|congruence]. }
  rewrite list_elem_of_fmap. split.
  - intros (s & -> & Hin). apply Hs in Hin as [?%not_elem_of_nil|(x & fact & Hx & Hne & Hf & ->)]; [done|].
    apply history_applications in Hx as [Hx Ha]. exists x, fact. split_and!; [done..|].
    unfold claim_of, withdrawn_for. simpl. rewrite (asserts_fact_type x Ha). simpl. done.
  - intros (x & fact & Hx & Ha & Hne & Hf & ->). exists (x, Some (fact_window fact)). split.
    + unfold claim_of, withdrawn_for. simpl. by rewrite (asserts_fact_type x Ha).
    + apply Hs. right. exists x, fact. split_and!; [|done..]. by apply history_applications.
Qed.

Lemma history_order x y fact f :
  within_key history -> x ∈ history -> y ∈ history -> asserts_fact x = true -> asserts_fact y = true ->
  ev_fact x = Some fact -> fact_id y = Some f -> f ∈ supersedes_fact_ids x -> (created_at y <= created_at x)%Z ->
  y = x \/ (created_at y < created_at x)%Z.
Proof.
  intros Hkey Hx Hy Hax Hay Hfx Hfy Hin Hle.
  apply asserts_fact_type in Hax. apply asserts_fact_type in Hay.
  specialize (Hkey x y f Hx Hy Hfy Hin Hax Hay).
  apply history_event in Hx as [Hx Htx]. apply history_event in Hy as [Hy Hty].
  destruct (strongly_sorted_cases _ _ y x (lo_order _ Hok) Hy Hx) as [?|[Ho|Ho]]; [by left| |].
  - right. apply Ho; [congruence|done..].
  - assert (created_at x < created_at y)%Z; [|lia]. apply Ho; [congruence|done..|].
    clear -Hkey. unfold same_key in *. destruct (ev_fact x), (ev_fact y); [|done..]. by destruct Hkey as (-> & -> & -> & ->).
Qed.

Lemma history_orderly : within_key history -> orderly_history history.
Proof.
  intros Hkey. split; [done| |].
  - intros k e' (x & fact & Hx & Ha & _ & _ & ->)%history_claims [= <-]. by apply history_applications.
  - intros k e e' (x & fact & Hx & Ha & _ & Hf & ->)%history_claims [He Hae]%history_applications
      (f & Hfe & Hin & Hle) [= <-].
    destruct (history_order x e fact f Hkey Hx He Ha Hae Hf Hfe Hin Hle); [by left|by right].
Qed.

Lemma later_claim k e :
  k ∈ history -> e ∈ history -> supersedes_later k e ->
  exists fact, ev_fact k = Some fact /\
    Claim k (Some k) [span (Some (fact_window fact))] ∈ claims_of_history history /\
    names (Claim k (Some k) [span (Some (fact_window fact))]) e /\ event_id k <> event_id e.
Proof.
  intros Hk He (Ha & (f & Hfe & Hin) & Hlt). apply history_event in Hk as Hkl. destruct Hkl as [Hkl _].
  destruct (eo_fact _ _ (lo_events _ Hok k Hkl) (asserts_fact_type _ Ha)) as (fact & Hf & _). exists fact.
  split_and!; [done| | |].
  - apply history_claims. exists k, fact. split_and!; [done..| |done|done]. intros Hnil. rewrite Hnil in Hin.
    by apply not_elem_of_nil in Hin.
  - exists f. simpl. split_and!; [done..|lia].
  - intros Hid. assert (k = e) as ->; [|lia]. by apply (NoDup_fmap_inj event_id history).
Qed.

Lemma history_hidden t e :
  within_key history -> e ∈ history -> asserts_fact e = true ->
  hidden_by_chain (claims_of_history history) t e <-> superseded_at history t e.
Proof.
  intros Hkey He Ha. split.
  - intros Hh. revert He Ha. induction Hh as [e k Hk Hn Hne Hc|e k e' Hk Hn Hne Hch Hh IH]; intros He Ha;
      apply history_claims in Hk as (x & fact & Hx & Hax & _ & Hf & ->); simpl in *;
      destruct Hn as (f & Hfe & Hin & Hle); simpl in *;
      (destruct (history_order x e fact f Hkey Hx He Hax Ha Hf Hfe Hin Hle) as [->|Hlt]; [done|]);
      (assert (Hl : supersedes_later x e) by (split_and!; [done|by exists f|done])).
    + apply (superseded_by _ _ e x fact); [done..|]. by apply covers_time_cons in Hc as [?|?%covers_time_nil].
    + injection Hch as <-. apply (superseded_through _ _ e x); [done..|by apply IH].
  - induction 1 as [e k fact Hk Hl Hf Ht|e k Hk Hl Hs IH];
      destruct (later_claim k e Hk He Hl) as (fact' & Hf' & Hc & Hn & Hne).
    + eapply hidden_own; [exact Hc|done|done|]. apply covers_time_cons. left. congruence.
    + eapply hidden_through; [exact Hc|done|done|done|]. apply IH; [done|]. by destruct Hl.
Qed.
End histories.

(** C4: what the ledger hides.  In every ledger the operations can build, a tenant's
    assertions are never left without an index, and an assertion is hidden at an instant
    exactly when a later assertion that supersedes its fact holds at that instant or is
    itself superseded then - for histories whose event ids do not collide and whose
    assertions supersede facts of their own conflict key. *)
Theorem ledger_supersession_exact l tenant (Hl : rtc ledger_step new_ledger l)
    (Hids : NoDup (event_id <$> tenant_history l tenant)) (Hkey : within_key (tenant_history l tenant)) :
  exists index, fact_supersession (tenant_history l tenant) = Ok index /\
    forall e t, e ∈ tenant_history l tenant -> asserts_fact e = true ->
      (hidden_at index e t = true <-> superseded_at (tenant_history l tenant) t e).
Proof.
  apply ledger_reachable_ok in Hl.
  destruct (history_exact _ (history_orderly l tenant Hl Hids Hkey)) as (index & Hix & Hex). exists index. split; [done|].
  intros e t He Ha. rewrite Hex by (by apply history_applications). by apply history_hidden.
Qed.
End ledger_facts.

(** ** A run: Paris, then Rome superseding it *)

Fixpoint demo_json (v : value) : string :=
  match v with
  | VStr s => s
  | VDict l => foldr (fun p s => demo_json p.2 +:+ s) "" l
  | _ => ""
  end.

Definition demo_digest (s : string) : string := s.
Definition demo_iso (t : Z) : string := "".

Definition demo_card (id : string) : EvidenceCard :=
  {| ec_card_id := id; ec_chunk_id := "c1"; ec_source := "ada.md"; ec_source_digest := "d1"; ec_valid_from := None;
     ec_valid_until := None; ec_tenant_id := "t"; ec_generation_id := "g"; ec_calibration_id := Some "k";
     ec_calibration_status := "certified"; ec_trust_state := "trusted"; ec_verdict := "ok";
     ec_supersession_links := []; ec_structured_facts := []; ec_redacted := false |}.

Definition demo_assertion (city request : string) (supersedes : list string) (now : Z) : assertion :=
  Assertion "t" "g" (demo_fact city (None, None)) [demo_card "card"] request "w" supersedes now None false.

Definition demo_identity (city : string) : string :=
  fact_identity demo_json demo_digest demo_iso (demo_fact city (None, None)).

Definition demo_permit (city request : string) : FactApplicationPermit :=
  Permit "t" "g" request (demo_identity city) ["card"] true false.

Definition demo_apply (l : InMemoryFactLedger) (city request : string) (supersedes : list string) (now : Z) :=
  apply_assertion demo_json demo_digest demo_iso l (Some (demo_permit city request))
    (demo_assertion city request supersedes now).

Definition demo_paris_run := demo_apply new_ledger "Paris" "r1" [] 5.
Definition demo_ledger1 : InMemoryFactLedger := demo_paris_run.1.1.
Definition demo_rome_run := demo_apply demo_ledger1 "Rome" "r2" [demo_identity "Paris"] 5.
Definition demo_ledger2 : InMemoryFactLedger := demo_rome_run.1.1.

Definition demo_ids (l : InMemoryFactLedger) : list (string * string * Z) :=
  (fun e => (request_id e, type_name (ev_type e), created_at e)) <$> lg_events l.

(** The clock stood still; the second assertion is still recorded after the first. *)
Example demo_superseded :
  demo_ids demo_ledger2 = [("r1", "asserted", 5); ("r2", "asserted", 6); ("r2:supersession", "superseded", 6)]%Z.
Proof. vm_compute. reflexivity. Qed.

(** Rome without a word about Paris contradicts it. *)
Example demo_contradiction :
  (demo_apply demo_ledger1 "Rome" "r2" [] 5).2 = Raise (ValueError "CONTRADICTION_WITHOUT_SUPERSESSION").
Proof. vm_compute. reflexivity. Qed.

Lemma demo_steps1 : rtc (ledger_step demo_json demo_digest demo_iso) new_ledger demo_ledger1.
Proof.
  apply rtc_once, (step_apply _ _ _ _ (Some (demo_permit "Paris" "r1")) (demo_assertion "Paris" "r1" [] 5) _
    demo_paris_run.1.2 demo_paris_run.2); reflexivity.
Qed.

Lemma demo_steps2 : rtc (ledger_step demo_json demo_digest demo_iso) demo_ledger1 demo_ledger2.
Proof.
  apply rtc_once, (step_apply _ _ _ _ (Some (demo_permit "Rome" "r2"))
    (demo_assertion "Rome" "r2" [demo_identity "Paris"] 5) _ demo_rome_run.1.2 demo_rome_run.2);
    vm_compute; reflexivity.
Qed.

Lemma permit_single_use_witness :
  lg_events demo_ledger1 <> lg_events new_ledger /\
  forall a, exists ex, apply_assertion demo_json demo_digest demo_iso demo_ledger1 demo_paris_run.1.2 a =
    (demo_ledger1, demo_paris_run.1.2, Raise ex).
Proof.
  assert (Hne : lg_events demo_ledger1 <> lg_events new_ledger) by (vm_compute; discriminate).
  split; [exact Hne|]. intros a.
  apply (permit_single_use demo_json demo_digest demo_iso new_ledger (Some (demo_permit "Paris" "r1"))
    (demo_assertion "Paris" "r1" [] 5) demo_ledger1 demo_paris_run.1.2 demo_paris_run.2); [reflexivity|exact Hne].
Defined.

(** The retry lists its one card twice, and brings a permit for that. *)
Lemma apply_idempotent_witness :
  exists answer, demo_paris_run.2 = Ok answer /\
    apply_assertion demo_json demo_digest demo_iso demo_ledger1
      (Some (Permit "t" "g" "r1" (demo_identity "Paris") ["card"; "card"] true false))
      (Assertion "t" "g" (demo_fact "Paris" (None, None)) [demo_card "card"; demo_card "card"] "r1" "w" [] 5 None false) =
    (demo_ledger1, Some (Permit "t" "g" "r1" (demo_identity "Paris") ["card"; "card"] true true),
     Ok (Applied_ (ar_event answer) true)).
Proof.
  eexists. split; [vm_compute; reflexivity|].
  eapply (apply_idempotent demo_json demo_digest demo_iso new_ledger (Some (demo_permit "Paris" "r1"))
    (demo_assertion "Paris" "r1" [] 5) demo_ledger1 demo_paris_run.1.2 _ [demo_card "card"; demo_card "card"]);
    [vm_compute; reflexivity|by_decide|reflexivity].
Defined.

Lemma ledger_invariant_witness :
  ledger_ok demo_json demo_digest demo_iso demo_ledger2 /\ NoDup (request_key <$> lg_events demo_ledger2).
Proof.
  destruct (ledger_invariant demo_json demo_digest demo_iso _ _ demo_steps1 demo_steps2) as (Hok & _ & _ & Hnd).
  split; [exact Hok|exact Hnd].
Defined.

#[local] Instance demo_same_key_dec a b : Decision (same_key demo_json demo_digest a b).
Proof. unfold same_key. destruct (ev_fact a), (ev_fact b); apply _. Defined.

Lemma demo_within_key : within_key demo_json demo_digest (tenant_history demo_ledger2 "t").
Proof.
  assert (Hall : forall k e, k ∈ tenant_history demo_ledger2 "t" -> e ∈ tenant_history demo_ledger2 "t" ->
            same_key demo_json demo_digest e k).
  { assert (Hev : Forall (fun k => Forall (fun e => same_key demo_json demo_digest e k) (tenant_history demo_ledger2 "t"))
              (tenant_history demo_ledger2 "t")).
    { by_decide. }
    intros k e Hk He. rewrite Forall_forall in Hev. specialize (Hev k Hk). rewrite Forall_forall in Hev. by apply Hev. }
  intros k e f Hk He _ _ _ _. by apply Hall.
Qed.

(** Rome, in force for all time, hides Paris at every instant. *)
Lemma ledger_supersession_exact_witness :
  exists index, fact_supersession (tenant_history demo_ledger2 "t") = Ok index /\
    forall e t, e ∈ tenant_history demo_ledger2 "t" -> asserts_fact e = true ->
      (hidden_at index e t = true <-> superseded_at (tenant_history demo_ledger2 "t") t e).
Proof.
  apply (ledger_supersession_exact demo_json demo_digest demo_iso demo_ledger2 "t").
  - etrans; [exact demo_steps1|exact demo_steps2].
  - by_decide.
  - exact demo_within_key.
Defined.
