(* ===== verification/LedgerConsistency.v ===== *)
(** * LedgerConsistency: an applied value stands uncontested

    The reference ledger refuses a value that contradicts one in force unless it supersedes
    it.  What the refusal buys: after an application is answered APPLIED, at every instant
    the new value holds, every other recorded value that contradicts it is superseded. *)
From S2P Require Import Prelude Text Float64 Frontmatter Intervals FactEvents SegmentTree SuccessorIndex FactProjection FactProjectionFacts FactLedger FactLedgerFacts.

Section consistency.
Context (json_text : value -> string) (sha256_hex : string -> string) (isoformat : Z -> string).
Abbreviation identity := (fact_identity json_text sha256_hex isoformat).
Abbreviation apply := (apply_assertion json_text sha256_hex isoformat).
Abbreviation stamp := (ordered_after json_text sha256_hex isoformat).
Abbreviation ok := (ledger_ok json_text sha256_hex isoformat).
Abbreviation pending := (pending_event json_text sha256_hex isoformat).
Abbreviation event_of := (assertion_event json_text sha256_hex isoformat).

(** ** Histories that differ in one event *)

(** One event stands for another in supersession: same fact, same place in time, and the
    same facts superseded. *)
Record stands_for (a b : FactEvent) : Prop := {
  st_asserts : asserts_fact a = asserts_fact b;
  st_fact : ev_fact a = ev_fact b;
  st_fact_id : fact_id a = fact_id b;
  st_time : created_at a = created_at b;
  st_names : forall f, f ∈ supersedes_fact_ids a <-> f ∈ supersedes_fact_ids b
}.

Lemma stands_for_refl e : stands_for e e.
Proof. by split. Qed.

Lemma supersedes_later_mono k k' e e' :
  stands_for k k' -> stands_for e e' -> supersedes_later k e -> supersedes_later k' e'.
Proof.
  intros [Ha _ _ Ht Hn] [_ _ Hf Hte _] (Has & (f & Hfe & Hin) & Hlt). split_and!; [congruence| |lia].
  exists f. split; [congruence|by apply Hn].
Qed.

Lemma superseded_at_mono (h h' : list FactEvent) t :
  (forall e, e ∈ h -> exists e', e' ∈ h' /\ stands_for e e') ->
  forall e e', superseded_at h t e -> stands_for e e' -> superseded_at h' t e'.
Proof.
  intros Hsub e e' Hs. revert e'. induction Hs as [e k fact Hk Hl Hf Ht|e k Hk Hl _ IH]; intros e' He.
  - destruct (Hsub k Hk) as (k' & Hk' & Hkk). apply (superseded_by _ _ _ k' fact); [done| |by rewrite <-(st_fact _ _ Hkk)|done].
    by eapply supersedes_later_mono.
  - destruct (Hsub k Hk) as (k' & Hk' & Hkk). apply (superseded_through _ _ _ k'); [done| |by apply IH].
    by eapply supersedes_later_mono.
Qed.

(** ** What the index says of a ledger's history *)

Lemma not_hidden_in_force index e fact t :
  on_line t -> ev_fact e = Some fact -> inside t (span (Some (fact_window fact))) -> hidden_at index e t = false ->
  covers_time (in_force index e) t.
Proof.
  intros Ht Hf Hin Hh. unfold in_force. rewrite Hf, (without_all_covers _ _ _ Ht), covers_time_cons.
  split; [by left|]. rewrite <-hidden_at_covers. by rewrite Hh.
Qed.

Lemma no_overlap index e claimed t :
  overlaps index e claimed = false -> inside t (span (Some (fact_window claimed))) -> ~ covers_time (in_force index e) t.
Proof.
  unfold overlaps. destruct (span _) as [low high]. intros Ho Hin (i & Hi & Hit)%Exists_exists.
  assert (existsb (fun j => (Z.max j.1 low <? Z.min j.2 high)%Z) (in_force index e) = true); [|congruence].
  apply existsb_exists. exists i. split; [by apply list_elem_of_In|]. apply Z.ltb_lt.
  unfold inside in Hin, Hit. simpl in Hin. lia.
Qed.

(** A value that does not overlap the claim is superseded wherever both hold. *)
Lemma settled_superseded l tenant e claimed fact t :
  ok l -> NoDup (event_id <$> tenant_history l tenant) ->
  within_key json_text sha256_hex (tenant_history l tenant) ->
  e ∈ tenant_history l tenant -> asserts_fact e = true -> ev_fact e = Some fact ->
  on_line t -> inside t (span (Some (fact_window fact))) -> inside t (span (Some (fact_window claimed))) ->
  (forall index, fact_supersession (tenant_history l tenant) = Ok index -> overlaps index e claimed = false) ->
  superseded_at (tenant_history l tenant) t e.
Proof.
  intros Hok Hnd Hkey He Ha Hf Hline Ht Htc Hno.
  destruct (history_exact _ (history_orderly _ _ _ l tenant Hok Hnd Hkey)) as (index & Hix & Hex).
  apply (history_hidden _ _ _ l tenant Hok Hnd t e Hkey He Ha). apply Hex; [by eapply history_applications|].
  destruct (hidden_at index e t) eqn:Hh; [done|]. exfalso.
  eapply no_overlap; [by apply Hno|exact Htc|]. by eapply not_hidden_in_force.
Qed.

(** ** The check the ledger made *)

Lemma history_not_retracted l tenant e : ok l -> is_retracted (tenant_history l tenant) e = false.
Proof.
  intros Hok. apply bool_decide_eq_false. unfold retracted_keys. rewrite (history_withdrawn _ _ _ l tenant Hok), elem_of_app.
  intros [Hr|Hr].
  - apply list_elem_of_bind in Hr as (x & Hr & [Hx _]%history_event). case_decide as Ht; [|by apply not_elem_of_nil in Hr].
    destruct (lo_events _ _ _ _ Hok x Hx) as [Hty _ _ _ _]. rewrite Ht in Hty. naive_solver.
  - apply list_elem_of_fmap in Hr as (x & _ & [Hx _]%list_elem_of_filter). by apply not_elem_of_empty in Hx.
Qed.

Lemma history_candidate l tenant e fact index :
  ok l -> NoDup (event_id <$> tenant_history l tenant) -> e ∈ tenant_history l tenant -> asserts_fact e = true ->
  ev_fact e = Some fact -> in_force index e <> [] -> e ∈ project_candidates (tenant_history l tenant) index.
Proof.
  intros Hok Hnd He Ha Hf Hne. apply list_elem_of_filter. split; [|by eapply history_applications].
  rewrite (history_not_retracted l tenant e Hok), Hf, bool_decide_eq_true_2 by by eexists. simpl.
  by destruct (in_force index e).
Qed.

Lemma overlaps_in_force index e claimed : overlaps index e claimed = true -> in_force index e <> [].
Proof. unfold overlaps. destruct (span _). by destruct (in_force index e). Qed.

(** An unopposed claim: nothing of another value is left where both hold, except what the
    claim names, or what the claim would hide once recorded. *)
Lemma unresolved_none l tenant claimed supersedes absent moment index e fact f :
  ok l -> NoDup (event_id <$> tenant_history l tenant) ->
  unresolved_conflicts json_text sha256_hex isoformat (tenant_history l tenant) claimed supersedes absent moment index = Ok [] ->
  e ∈ tenant_history l tenant -> asserts_fact e = true -> ev_fact e = Some fact -> fact_id e = Some f ->
  facts_conflict json_text fact claimed = true -> f ∉ absent ->
  f ∈ supersedes \/ overlaps index e claimed = false \/
  exists like after, like ∈ tenant_history l tenant /\
    fact_supersession (tenant_history l tenant ++ [pending like claimed supersedes (stamp moment (tenant_history l tenant) claimed)]) =
      Ok after /\ overlaps after e claimed = false.
Proof.
  intros Hok Hnd Hu He Ha Hf Hid Hc Habs. destruct (decide (f ∈ supersedes)) as [|Hn]; [by left|right].
  destruct (overlaps index e claimed) eqn:Ho; [right|by left].
  assert (Hin : e ∈ filter (fun x => contradicts json_text (tenant_history l tenant) index claimed supersedes absent x = true)
                      (project_candidates (tenant_history l tenant) index)).
  { apply list_elem_of_filter. split; [|by eapply history_candidate, overlaps_in_force].
    unfold contradicts. rewrite Hf, Hid, Hc, Ho. by rewrite bool_decide_eq_true_2, bool_decide_eq_false_2. }
  unfold unresolved_conflicts in Hu. destruct (filter _ _) as [|like rest] eqn:Hrem; [by apply not_elem_of_nil in Hin|].
  destruct supersedes as [|f0 fs]; [done|]. apply bind_ok in Hu as (after & Hafter & Hnone).
  exists like, after. split_and!; [|exact Hafter|].
  - assert (Hlike : like ∈ like :: rest) by by left. rewrite <-Hrem in Hlike.
    apply list_elem_of_filter in Hlike as [_ Hlike]. apply list_elem_of_filter in Hlike as [_ Hlike].
    by apply (history_applications _ _ _ l tenant Hok Hnd) in Hlike as [? _].
  - apply not_true_iff_false. intros Ht. injection Hnone as Hnone.
    assert (e ∈ @nil FactEvent) as ?%not_elem_of_nil; [|done]. rewrite <-Hnone. by apply list_elem_of_filter.
Qed.

(** ** The claim, recorded *)

Lemma stamp_last l tenant claimed moment x :
  x ∈ tenant_history l tenant ->
  (exists f, ev_fact x = Some f /\ af_subject f = af_subject claimed /\ af_predicate f = af_predicate claimed /\
     af_namespace f = af_namespace claimed /\
     fact_conflict_key json_text sha256_hex f = fact_conflict_key json_text sha256_hex claimed) ->
  (created_at x < stamp moment (tenant_history l tenant) claimed)%Z.
Proof.
  intros Hx (f & Hf & Hkey).
  assert (Hmem : x ∈ key_members json_text sha256_hex (tenant_history l tenant) claimed).
  { apply list_elem_of_filter. split; [|done]. rewrite Hf. by apply bool_decide_eq_true. }
  unfold ordered_after.
  pose proof (latest_time_spec (key_members json_text sha256_hex (tenant_history l tenant) claimed ++
    key_receipts json_text sha256_hex isoformat (tenant_history l tenant) claimed)) as Hl.
  destruct (latest_time _) as [m|].
  - destruct Hl as [_ Hle]. specialize (Hle x ltac:(apply elem_of_app; by left)). destruct (Z.leb_spec moment m); lia.
  - destruct (key_members _ _ _ _); [by apply not_elem_of_nil in Hmem|done].
Qed.

Lemma stamp_again moment history claimed :
  stamp (stamp moment history claimed) history claimed = stamp moment history claimed.
Proof.
  unfold ordered_after. destruct (latest_time _) as [m|]; [|done]. destruct (Z.leb_spec moment m).
  - by destruct (Z.leb_spec (m + 1) m); [lia|].
  - by destruct (Z.leb_spec moment m); [lia|].
Qed.

Lemma history_record l e tenant :
  tenant_history (record_event l e) tenant =
  tenant_history l tenant ++ (if decide (tenant_id e = tenant) then [e] else []).
Proof. unfold tenant_history, record_event. simpl. by rewrite filter_app, filter_cons, filter_nil. Qed.

Section applied.
Context (l : InMemoryFactLedger) (a : assertion) (Hok : ok l).
#[local] Abbreviation tenant := (as_tenant a).
#[local] Abbreviation history := (tenant_history l tenant).
#[local] Abbreviation recorded := (event_of l a APPLIED (as_supersedes a)).
#[local] Abbreviation foreseen like := (pending like (as_fact a) (as_supersedes a) (created_at recorded)).

Lemma foreseen_stands like : stands_for (foreseen like) recorded.
Proof. split; try done. intros f. simpl. apply elem_of_sorted_set. Qed.

(** The history the ledger judged the claim on is a ledger's too. *)
Lemma foreseen_ok like :
  lg_by_request l !! (tenant, PENDING) = None -> tenant_id like = tenant -> ok (record_event l (foreseen like)).
Proof.
  intros Hreq Ht. apply record_event_ok; [done| | |].
  - simpl. by rewrite Ht.
  - split; [by left|intros _; by eexists| |done|done]. split; [done|]. vm_compute. done.
  - intros x Hx Hxt Hxa _ Hkey. simpl in Hxt. unfold same_key in Hkey. cbn [pending_event ev_fact created_at] in *.
    destruct (ev_fact x) as [f|] eqn:Hf; [|done].
    apply stamp_last; [apply history_event; split; [done|congruence]|]. by exists f.
Qed.

Lemma foreseen_history like :
  tenant_id like = tenant -> tenant_history (record_event l (foreseen like)) tenant = history ++ [foreseen like].
Proof. intros Ht. by rewrite history_record, decide_True by done. Qed.

Context (l' : InMemoryFactLedger) (rest : list FactEvent).
Context (Hl' : tenant_history l' tenant = history ++ recorded :: rest) (Hok' : ok l').
Context (Hids : NoDup (PENDING :: (event_id <$> tenant_history l' tenant))).
Context (Hkey : within_key json_text sha256_hex (tenant_history l' tenant)).

Lemma history_grows e : e ∈ history -> e ∈ tenant_history l' tenant.
Proof. rewrite Hl', elem_of_app. by left. Qed.

Lemma old_within_key : within_key json_text sha256_hex history.
Proof. intros k e f Hk He. apply Hkey; by apply history_grows. Qed.

Lemma old_ids : NoDup (event_id <$> history).
Proof. apply NoDup_cons_1_2 in Hids. rewrite Hl', fmap_app in Hids. by apply NoDup_app in Hids as [? _]. Qed.

Lemma foreseen_maps like e :
  e ∈ history ++ [foreseen like] ->
  exists e', e' ∈ tenant_history l' tenant /\ stands_for e e' /\ ev_type e' = ev_type e.
Proof.
  intros [He| ->%list_elem_of_singleton]%elem_of_app.
  - exists e. split_and!; [by apply history_grows|apply stands_for_refl|done].
  - exists recorded. split_and!; [rewrite Hl', elem_of_app; right; by left|apply foreseen_stands|done].
Qed.

Lemma foreseen_within_key like : within_key json_text sha256_hex (history ++ [foreseen like]).
Proof.
  intros k e f Hk He Hf Hin Hkt Het.
  destruct (foreseen_maps like k Hk) as (y & Hy & [_ Hyf _ _ Hyn] & Hyt).
  destruct (foreseen_maps like e He) as (z & Hz & [_ Hzf Hzi _ _] & Hzt).
  unfold same_key. rewrite Hyf, Hzf. fold (same_key json_text sha256_hex z y).
  apply (Hkey y z f); [done|done|congruence|by apply Hyn|congruence|congruence].
Qed.

(** The claim superseding what it names hides, once recorded, whatever it was foreseen to. *)
Lemma foreseen_superseded like e fact t after :
  lg_by_request l !! (tenant, PENDING) = None -> like ∈ history ->
  fact_supersession (history ++ [foreseen like]) = Ok after -> overlaps after e (as_fact a) = false ->
  e ∈ history -> asserts_fact e = true -> ev_fact e = Some fact -> on_line t ->
  inside t (span (Some (fact_window fact))) -> inside t (span (Some (fact_window (as_fact a)))) ->
  superseded_at (tenant_history l' tenant) t e.
Proof.
  intros Hreq [_ Hlike]%history_event Hafter Ho He Ha Hf Hline Ht Htc.
  apply (superseded_at_mono (history ++ [foreseen like]) _ t) with (e := e);
    [by intros x (y & ? & ? & _)%foreseen_maps; exists y| |apply stands_for_refl].
  rewrite <-(foreseen_history like Hlike) in *.
  eapply settled_superseded; [by apply foreseen_ok| | | |exact Ha|exact Hf|done|done|exact Htc|].
  - rewrite (foreseen_history like Hlike), fmap_app. apply NoDup_app. split; [apply old_ids|].
    split; [|apply NoDup_singleton]. intros i Hi ->%list_elem_of_singleton. apply NoDup_cons_1_1 in Hids. apply Hids.
    simpl in Hi. rewrite Hl', fmap_app, elem_of_app. by left.
  - rewrite (foreseen_history like Hlike). apply foreseen_within_key.
  - rewrite (foreseen_history like Hlike), elem_of_app. by left.
  - intros index Hix. congruence.
Qed.

Lemma named_superseded e fact t :
  e ∈ history -> asserts_fact e = true -> ev_fact e = Some fact ->
  (exists f, fact_id e = Some f /\ f ∈ as_supersedes a) -> inside t (span (Some (fact_window (as_fact a)))) ->
  superseded_at (tenant_history l' tenant) t e.
Proof.
  intros He Ha Hf (f & Hid & Hin) Ht.
  assert (Hrec : recorded ∈ tenant_history l' tenant) by (rewrite Hl', elem_of_app; right; by left).
  apply (superseded_by _ _ _ recorded (as_fact a)); [done| |done|done].
  split_and!; [done|by exists f|].
  pose proof (Hkey recorded e f Hrec (history_grows e He) Hid Hin eq_refl (asserts_fact_type _ Ha)) as Hsame.
  unfold same_key in Hsame. rewrite Hf in Hsame. cbn [assertion_event new_event ev_fact] in Hsame.
  apply stamp_last; [done|]. by exists fact.
Qed.
End applied.

(** ** The theorem *)

(** What an application that is answered APPLIED had checked. *)
Lemma applied_unresolved l a l' permit permit' answer :
  apply l permit a = (l', permit', Ok answer) -> ar_duplicate answer = false -> as_stated a = false ->
  exists index rest, fact_supersession (tenant_history l (as_tenant a)) = Ok index /\
    ar_event answer = event_of l a APPLIED (as_supersedes a) /\
    tenant_history l' (as_tenant a) = tenant_history l (as_tenant a) ++ ar_event answer :: rest /\
    (forall e, e ∈ rest -> asserts_fact e = false) /\
    unresolved_conflicts json_text sha256_hex isoformat (tenant_history l (as_tenant a)) (as_fact a) (as_supersedes a)
      (absent_fact_ids (tenant_history l (as_tenant a)) (as_served a) (Some (created_at (ar_event answer))))
      (created_at (ar_event answer)) index = Ok [].
Proof.
  unfold apply_assertion. destruct (consume_permit _ _ _ _ _ _ _ _ _); [|done].
  destruct (apply_permitted _ _ _ l a) as [l1 r] eqn:Hp. intros [= <- <- ->] Hdup Hst. revert Hp.
  unfold apply_permitted. destruct (lg_by_request l !! _) as [prior|].
  { destruct (replays_request _ _ _ _ _ _); [|done]. by intros [= <- <-]. }
  destruct (fact_supersession _) as [index|ex] eqn:Hix; [|done].
  destruct (repeats_assertion _ _ _ _ _ _); [by intros [= <- <-]|]. rewrite Hst.
  destruct (unresolved_conflicts _ _ _ _ _ _ _ _ _) as [[|x xs]|ex] eqn:Hu; [|done..].
  exists index. destruct (as_supersedes a) as [|f fs] eqn:Hs.
  - injection Hp as <- <-. exists []. split_and!; [done|by rewrite <-Hs| |by intros e ?%not_elem_of_nil|done].
    rewrite history_record, decide_True by done. done.
  - injection Hp as <- <-. eexists [_]. split_and!; [done|by rewrite <-Hs| | |done].
    + rewrite !history_record, !decide_True by done. by rewrite <-(assoc_L (++)).
    + by intros e ->%list_elem_of_singleton.
Qed.

Lemma facts_conflict_irrefl f : facts_conflict json_text f f = false.
Proof. unfold facts_conflict. rewrite (bool_decide_eq_true_2 (canonical_json _ (af_object f) = _)) by done. by rewrite !andb_false_r. Qed.

(** C3: an applied value stands uncontested.  In every ledger the operations can build,
    when an application that does not state a memo's own fact is answered APPLIED, the
    ledger's history has an index, and at every instant at which the new value holds, each
    other value of it that contradicts the new one and holds then too is hidden: it was
    superseded, directly or through what the new value supersedes.  The only exception is
    a value none of whose memos the store served.  (The event ids do not collide, also not
    with the one the check foresees the new event under, and assertions supersede facts of
    their own conflict key.) *)
Theorem applied_uncontested l permit a l' permit' answer
    (Hl : rtc (ledger_step json_text sha256_hex isoformat) new_ledger l)
    (Hrun : apply l permit a = (l', permit', Ok answer)) (Hnew : ar_duplicate answer = false)
    (Hstated : as_stated a = false) (Hres : reserved_request_id (as_request a) = false)
    (Hids : NoDup (PENDING :: (event_id <$> tenant_history l' (as_tenant a))))
    (Hreq : lg_by_request l !! (as_tenant a, PENDING) = None)
    (Hkey : within_key json_text sha256_hex (tenant_history l' (as_tenant a))) :
  exists index, fact_supersession (tenant_history l' (as_tenant a)) = Ok index /\
    forall e fact f t, e ∈ tenant_history l' (as_tenant a) -> asserts_fact e = true -> ev_fact e = Some fact ->
      fact_id e = Some f -> facts_conflict json_text fact (as_fact a) = true ->
      f ∉ absent_fact_ids (tenant_history l (as_tenant a)) (as_served a) (Some (created_at (ar_event answer))) ->
      on_line t -> inside t (span (Some (fact_window fact))) -> inside t (span (Some (fact_window (as_fact a)))) ->
      hidden_at index e t = true.
Proof.
  assert (Hok : ok l) by by apply ledger_reachable_ok.
  assert (Hok' : ok l').
  { eapply ledger_reachable_ok, rtc_r; [exact Hl|]. by eapply step_apply. }
  destruct (applied_unresolved _ _ _ _ _ _ Hrun Hnew Hstated) as (index0 & rest & Hix0 & Hev & Hl' & Hrest & Hu).
  rewrite Hev in Hl', Hu |- *. pose proof (NoDup_cons_1_2 _ _ Hids) as Hids'.
  destruct (history_exact _ (history_orderly _ _ _ l' (as_tenant a) Hok' Hids' Hkey)) as (index & Hix & Hex).
  exists index. split; [done|]. intros e fact f t He Ha Hf Hid Hc Habs Hline Ht Htc.
  apply Hex; [by eapply history_applications|]. apply (history_hidden _ _ _ l' _ Hok' Hids' t e Hkey He Ha).
  assert (Hold : e ∈ tenant_history l (as_tenant a)).
  { rewrite Hl', elem_of_app, elem_of_cons in He. destruct He as [He|[->|He]]; [done| |by rewrite Hrest in Ha].
    exfalso. injection Hf as <-. by rewrite facts_conflict_irrefl in Hc. }
  assert (Hnd : NoDup (event_id <$> tenant_history l (as_tenant a))) by by eapply old_ids.
  destruct (unresolved_none l (as_tenant a) _ _ _ _ _ e fact f Hok Hnd Hu Hold Ha Hf Hid Hc Habs) as [Hin|[Ho|Hfore]].
  - eapply named_superseded; [done|exact Hkey|done..| |done]. by exists f.
  - apply (superseded_at_mono (tenant_history l (as_tenant a)) _ t) with (e := e); [| |apply stands_for_refl].
    + intros x Hx. exists x. split; [by eapply history_grows|apply stands_for_refl].
    + eapply settled_superseded; [done|by eapply old_ids|by eapply old_within_key|done..|]. intros i Hi. congruence.
  - destruct Hfore as (like & after & Hlike & Hafter & Ho). cbn [assertion_event new_event created_at] in Hafter.
    rewrite stamp_again in Hafter.
    exact (foreseen_superseded l a Hok l' rest Hl' Hids Hkey like e fact t after Hreq Hlike Hafter Ho Hold Ha Hf Hline Ht Htc).
Qed.
End consistency.

(** Rome, applied over Paris: wherever Rome holds, Paris is hidden. *)
Lemma applied_uncontested_witness :
  exists index, fact_supersession (tenant_history demo_ledger2 "t") = Ok index /\
    forall e, head (tenant_history demo_ledger2 "t") = Some e -> hidden_at index e 1000 = true.
Proof.
  destruct (applied_uncontested demo_json demo_digest demo_iso demo_ledger1 (Some (demo_permit "Rome" "r2"))
    (demo_assertion "Rome" "r2" [demo_identity "Paris"] 5) demo_ledger2 demo_rome_run.1.2
    (match demo_rome_run.2 with Ok r => r | Raise _ => Applied_ demo_paris true end)) as (index & Hix & Hall).
  - exact demo_steps1.
  - vm_compute; reflexivity.
  - vm_compute; reflexivity.
  - reflexivity.
  - reflexivity.
  - by_decide.
  - vm_compute; reflexivity.
  - exact demo_within_key.
  - exists index. split; [exact Hix|]. intros e He.
    apply (Hall e (demo_fact "Paris" (None, None)) (demo_identity "Paris")).
    + by apply head_Some_elem_of.
    + vm_compute in He. injection He as <-. reflexivity.
    + vm_compute in He. injection He as <-. reflexivity.
    + vm_compute in He. injection He as <-. vm_compute. reflexivity.
    + vm_compute. reflexivity.
    + apply not_elem_of_empty.
    + vm_compute. by split.
    + vm_compute. by split.
    + vm_compute. by split.
Defined.
