(* ===== verification/ProvenanceController.v ===== *)
(** * ProvenanceController: complete mediation of fact applications
    (src/recall/provenance_controller.py)

    A request names a claim and evidence cards.  The controller resolves and checks every
    card, reads what the ledger holds against the claim, mints the one permit the ledger
    accepts, appends, and hands the event to the materializer; at most one fresh search may
    propose other cards.  The ledger and the outbox are interfaces; what the store answers
    during a pass is a record of hooks; [now] and [mint] are read at each tick. *)
From S2P Require Import Prelude Text Float64 Frontmatter References Intervals FactEvents SegmentTree SuccessorIndex FactProjection Outbox FactLedger.

Definition MAX_PROVENANCE_CARD_IDS : nat := 64.
Definition MAX_PROVENANCE_IDENTIFIER_CHARS : nat := 256.
Definition MAX_PROVENANCE_REQUEST_BYTES : nat := 64 * 1024.

(** [type(exc).__name__]. *)
Definition exn_name (e : exn) : string :=
  match e with
  | ValueError _ => "ValueError"
  | TypeError _ => "TypeError"
  | KeyError _ => "KeyError"
  | LookupError _ => "LookupError"
  | PermissionError _ => "PermissionError"
  | IndexError => "IndexError"
  | RuntimeError _ => "RuntimeError"
  end.

Definition all_codes : list DecisionCode :=
  [APPLIED; DUPLICATE; CARD_NOT_FOUND; CARD_TAMPERED; SOURCE_CHANGED; VALIDITY_EXPIRED; VALIDITY_NOT_STARTED;
   GENERATION_MISMATCH; LINEAGE_MISMATCH; TRUST_UNAVAILABLE; UNSUPPORTED_CLAIM; CONTRADICTION_WITHOUT_SUPERSESSION;
   FRESH_SEARCH_UNAVAILABLE; FRESH_SEARCH_INSUFFICIENT; LEDGER_UNAVAILABLE; MATERIALIZATION_UNAVAILABLE;
   SOURCE_FORGOTTEN; SOURCE_REMOVED; WITHDRAWN; REQUEST_ID_REUSED; REQUEST_ID_RESERVED].

(** [_decision_code]. *)
Definition decision_code_of (message : string) : DecisionCode :=
  default LEDGER_UNAVAILABLE (head (filter (fun c => code_text c = message) all_codes)).

(** [_valid_now]. *)
Definition valid_now (c : EvidenceCard) (instant : Z) : option DecisionCode :=
  if match ec_valid_until c with Some until => (until <=? instant)%Z | None => false end then Some VALIDITY_EXPIRED
  else if match ec_valid_from c with Some from => (instant <? from)%Z | None => false end
  then Some VALIDITY_NOT_STARTED else None.

(** [_link_names]: a link with a folder is a path suffix, one without is a stem. *)
Definition link_names (link : string) (sources : list string) : bool :=
  let path := reference_path_key link in
  if decide (path = "") then false
  else if contains_char "/" path
  then existsb (fun s => bool_decide (reference_path_key s = path) ||
                         ends_with (reference_path_key s) ("/" +:+ path)) sources
  else existsb (fun s => bool_decide (reference_stem_key s = path)) sources.

(** ** What a pass reads of the store *)

Record Hooks := {
  hk_resolve : string -> result (option EvidenceCard);
  hk_revalidate : option (EvidenceCard -> result (option EvidenceCard));
  hk_source_digest : option (EvidenceCard -> result (option string));
  hk_permitted : option (EvidenceCard -> result bool);
  hk_served : option ServedState
}.

(** [_permitted]: an error is a refusal. *)
Definition permitted (h : Hooks) (c : EvidenceCard) : bool :=
  match hk_permitted h with
  | None => true
  | Some allowed => match allowed c with Ok b => b | Raise _ => false end
  end.

(** [card_revalidator]: the card as it stands now, or the code it fails with. *)
Definition revalidate (h : Hooks) (id : string) (c : EvidenceCard) : DecisionCode + EvidenceCard :=
  match hk_revalidate h with
  | None => inr c
  | Some again =>
      match again c with
      | Raise _ => inl CARD_TAMPERED
      | Ok None => inl SOURCE_CHANGED
      | Ok (Some now) => if decide (ec_card_id now = id) then inr now else inl SOURCE_CHANGED
      end
  end.

(** [source_digest_for], which is called outside any [try]. *)
Definition digest_stands (h : Hooks) (c : EvidenceCard) : result bool :=
  match hk_source_digest h with
  | None => Ok true
  | Some digest => d ← digest c; Ok (bool_decide (d = Some (ec_source_digest c)))
  end.

(** The body of the loop of [_resolve]. *)
Definition resolve_card (tenant generation : string) (h : Hooks) (instant : Z) (id : string) :
    result (DecisionCode + EvidenceCard) :=
  match hk_resolve h id with
  | Raise _ => Ok (inl CARD_TAMPERED)
  | Ok None => Ok (inl CARD_NOT_FOUND)
  | Ok (Some c) =>
      if negb (permitted h c) then Ok (inl CARD_NOT_FOUND)
      else if negb (bool_decide (ec_card_id c = id)) then Ok (inl CARD_TAMPERED)
      else if negb (bool_decide (ec_tenant_id c = tenant)) then Ok (inl LINEAGE_MISMATCH)
      else if negb (bool_decide (ec_generation_id c = generation)) then Ok (inl GENERATION_MISMATCH)
      else match revalidate h id c with
           | inl code => Ok (inl code)
           | inr c =>
               if negb (has_usable_support c) then Ok (inl UNSUPPORTED_CLAIM)
               else if negb (trusted_for_application c) then Ok (inl TRUST_UNAVAILABLE)
               else match valid_now c instant with
                    | Some code => Ok (inl code)
                    | None =>
                        stands ← digest_stands h c;
                        Ok (if stands : bool then inr c else inl SOURCE_CHANGED)
                    end
           end
  end.

(** [_resolve]: every card, or the code of the first that fails. *)
Fixpoint resolve_cards (tenant generation : string) (h : Hooks) (instant : Z) (ids : list string)
    (resolved : list EvidenceCard) : result (DecisionCode + list EvidenceCard) :=
  match ids with
  | [] => Ok (inr resolved)
  | id :: ids' =>
      c ← resolve_card tenant generation h instant id;
      match c with
      | inl code => Ok (inl code)
      | inr c => resolve_cards tenant generation h instant ids' (resolved ++ [c])
      end
  end.

(** ** Requests and decisions *)

Record FactApplicationRequest := Request {
  rq_claim : AtomicFact;
  rq_card_ids : list string;
  rq_request_id : string
}.

Record ControllerDecision := Decision {
  cd_allowed : bool;
  cd_code : DecisionCode;
  cd_request_id : string;
  cd_fact_id : string;
  cd_cards : list EvidenceCard;
  cd_event : option FactEvent;
  cd_retried : bool;
  cd_detail : string
}.

(** ** The ledger as the controller relies on it *)

(** [FactLedger], with what a ledger may offer besides: its events, one conflict key's
    history, and an append that enqueues in the same transaction. *)
Class FactLedger (L O : Type) := {
  fl_request_event : L -> string -> string -> result (option FactEvent);
  fl_current : L -> string -> Z -> option ServedState -> result (list FactEvent);
  fl_conflict_history : option (L -> string -> AtomicFact -> result (list FactEvent));
  fl_events : option (L -> list FactEvent);
  fl_apply : L -> option FactApplicationPermit -> assertion -> L * result LedgerApplyResult;
  fl_apply_with_outbox : option (L -> O -> option FactApplicationPermit -> assertion -> L * O * result LedgerApplyResult);
  fl_record : L -> string -> string -> string -> string -> DecisionCode -> option AtomicFact ->
    list EvidenceCard -> Z -> L * result FactEvent
}.

(** The delivery state a queue reports. *)
Class OutboxStatus (O : Type) := ob_status : O -> string -> result (option delivery).

(** What the controller needs of a queue besides: a claim of one event takes that event or
    nothing, and the status reported is the one kept. *)
Class DeliveryLaws (lease : Z) (tenant : string) {O : Type} `{FactMaterializationOutbox O, OutboxStatus O}
    (ob_ok : O -> Prop) (ob_view : O -> string -> option held) : Prop := {
  dl_claim_one : forall o mint id now, ob_ok o -> exists o' events,
    ob_claim mint o tenant (Some id) 1 now = (o', Ok events) /\ ob_ok o' /\
    (forall id', id' <> id -> ob_view o' id' = ob_view o id') /\
    match ob_view o id with
    | Some h =>
        if due now (hd_entry h)
        then events = [with_lease (hd_event h) (Some (mint id))] /\
             ob_view o' id = Some (Held (hd_event h) (claimed_entry lease now (hd_entry h)) (Some (mint id)))
        else events = [] /\ ob_view o' id = Some h
    | None => events = [] /\ ob_view o' id = None
    end;
  dl_status : forall o id h, ob_ok o -> ob_view o id = Some h -> ob_status o id = Ok (Some (en_status (hd_entry h)))
}.

Record Controller := {
  ct_tenant : string;
  ct_generation : string;
  ct_writer : string;
  ct_materializer : option (FactEvent -> result unit);
  ct_has_outbox : bool;
  ct_fresh_search : option (AtomicFact -> FactApplicationRequest -> result (list string))
}.

(** [ProvenanceController.__init__]. *)
Definition new_controller (c : Controller) : result Controller :=
  if decide (ct_tenant c = "" \/ ct_generation c = "") then
    Raise (ValueError "tenant_id and generation_id must be non-empty")
  else if ct_has_outbox c && negb (bool_decide (is_Some (ct_materializer c)))
  then Raise (ValueError "materialization_outbox requires a materializer")
  else Ok c.

Section controller.
Context (json_text : value -> string) (sha256_hex : string -> string) (isoformat : Z -> string).
#[local] Abbreviation identity := (fact_identity json_text sha256_hex isoformat).

(** The bytes of a text in UTF-8, and the text of an exception as an outbox keeps it. *)
Context (utf8_length : string -> nat) (describe : exn -> string).

(** [FactApplicationRequest.__post_init__]. *)
Definition bad_card_id (id : string) : bool :=
  bool_decide (strip id = "") || (MAX_PROVENANCE_IDENTIFIER_CHARS <? String.length id).

Definition application_request (claim : AtomicFact) (ids : list string) (request : string) :
    result FactApplicationRequest :=
  if decide (strip request = "") then Raise (ValueError "request_id must not be empty")
  else if MAX_PROVENANCE_IDENTIFIER_CHARS <? String.length request then Raise (ValueError "request_id is too long")
  else if bool_decide (ids = []) || (MAX_PROVENANCE_CARD_IDS <? length ids)
  then Raise (ValueError "evidence card count is outside the supported bound")
  else if existsb bad_card_id ids then Raise (ValueError "evidence card ids must be non-empty strings")
  else if negb (bool_decide (NoDup ids)) then Raise (ValueError "evidence card ids must be unique")
  else if MAX_PROVENANCE_REQUEST_BYTES <? utf8_length (canonical_json json_text (to_payload isoformat claim))
  then Raise (ValueError "structured fact payload is too large")
  else Ok (Request claim ids request).

(** [_supported]. *)
Definition supported (claim : AtomicFact) (cards : list EvidenceCard) : bool :=
  existsb (fun c => existsb (fun f => bool_decide (identity f = identity claim)) (ec_structured_facts c)) cards.

(** [_superseding_fact_ids]. *)
Definition links_to (evidence : list EvidenceCard) (old : option string) (c : EvidenceCard) : bool :=
  let names := evidence ≫= fun e => [ec_card_id e; ec_chunk_id e; ec_source e] in
  let sources := filter (fun s => s <> "") (ec_source <$> evidence) in
  match old with Some f => bool_decide (f ∈ ec_supersession_links c) | None => false end ||
  existsb (fun l => bool_decide (l ∈ names)) (ec_supersession_links c) ||
  existsb (fun l => link_names l sources) (ec_supersession_links c).

Definition evidence_of (support : list (string * list EvidenceCard)) (e : FactEvent) : list EvidenceCard :=
  match default [] (odict_get (default "" (fact_id e)) support) with
  | [] => evidence_cards e
  | cards => cards
  end.

Definition superseding_step (claim : AtomicFact) (cards : list EvidenceCard)
    (support : list (string * list EvidenceCard)) (old : list string) (e : FactEvent) : list string :=
  match ev_fact e, fact_id e with
  | Some f, Some id =>
      if negb (facts_conflict json_text f claim) then old
      else if bool_decide (id ∈ old) then old
      else if existsb (links_to (evidence_of support e) (Some id)) cards then old ++ [id] else old
  | _, _ => old
  end.

Definition superseding_fact_ids (claim : AtomicFact) (cards : list EvidenceCard) (current : list FactEvent)
    (support : list (string * list EvidenceCard)) : list string :=
  foldl (superseding_step claim cards support) [] current.

Section mediation.
Context {L O : Type} `{FactLedger L O, FactMaterializationOutbox O, OutboxStatus O}.
Context (now : nat -> Z) (mint : nat -> string -> string) (c : Controller).

(** The ledger, the queue, and how often the clock was read. *)
Record controller_state := State {
  cs_ledger : L;
  cs_outbox : O;
  cs_ticks : nat
}.

Definition tick (s : controller_state) : controller_state := State (cs_ledger s) (cs_outbox s) (S (cs_ticks s)).
Definition set_ledger (s : controller_state) (l : L) : controller_state := State l (cs_outbox s) (cs_ticks s).
Definition set_outbox (s : controller_state) (o : O) : controller_state := State (cs_ledger s) o (cs_ticks s).
Definition reading (s : controller_state) : Z := now (cs_ticks s).

(** [_decision]. *)
Definition decision (rq : FactApplicationRequest) (code : DecisionCode) (cards : list EvidenceCard)
    (retried : bool) (detail : string) (event : option FactEvent) : ControllerDecision :=
  {| cd_allowed := allowed_code code; cd_code := code; cd_request_id := rq_request_id rq;
     cd_fact_id := identity (rq_claim rq); cd_cards := cards; cd_event := event; cd_retried := retried;
     cd_detail := detail |}.

(** [_record_refusal]. *)
Definition record_refusal (s : controller_state) (rq : FactApplicationRequest) (code : DecisionCode)
    (cards : list EvidenceCard) (retried : bool) (detail : string) : controller_state * ControllerDecision :=
  let '(l, r) := fl_record (cs_ledger s) (ct_tenant c) (ct_generation c) (rq_request_id rq) (ct_writer c) code
                   (Some (rq_claim rq)) cards (reading s) in
  (tick (set_ledger s l),
   decision rq code cards retried detail (match r with Ok e => Some e | Raise _ => None end)).

(** [_delivered]: the answer for an appended or replayed event, after its materialization. *)
Definition answer_code (r : LedgerApplyResult) : DecisionCode := if ar_duplicate r then DUPLICATE else APPLIED.

Definition undelivered (rq : FactApplicationRequest) (r : LedgerApplyResult) (cards : list EvidenceCard)
    (retried : bool) (ex : exn) : ControllerDecision :=
  decision rq MATERIALIZATION_UNAVAILABLE cards retried (exn_name ex) (Some (ar_event r)).

(** A lease this call holds is given back; a queue that cannot take it back is ignored. *)
Definition give_back (s : controller_state) (r : LedgerApplyResult) (leased : FactEvent) (ex : exn) :
    controller_state :=
  set_outbox s (ob_mark_failed (error_text (describe ex)) (cs_outbox s) (ct_tenant c) (event_id (ar_event r))
                  (lease_token leased)).1.

Definition deliver_leased (materialize : FactEvent -> result unit) (s : controller_state) (rq : FactApplicationRequest)
    (r : LedgerApplyResult) (cards : list EvidenceCard) (retried : bool) (leased : FactEvent) :
    controller_state * ControllerDecision :=
  let done := decision rq (answer_code r) cards retried "" (Some (ar_event r)) in
  match materialize leased with
  | Raise ex => (give_back s r leased ex, undelivered rq r cards retried ex)
  | Ok _ =>
      match ob_mark_applied (cs_outbox s) (ct_tenant c) (event_id leased) (lease_token leased) with
      | (o, Ok _) => (set_outbox s o, done)
      | (o, Raise ex) => (give_back (set_outbox s o) r leased ex, undelivered rq r cards retried ex)
      end
  end.

Definition deliver_queued (materialize : FactEvent -> result unit) (s : controller_state) (rq : FactApplicationRequest)
    (r : LedgerApplyResult) (cards : list EvidenceCard) (retried : bool) : controller_state * ControllerDecision :=
  let e := ar_event r in
  match ob_enqueue (cs_outbox s) e with
  | (o, Raise ex) => (set_outbox s o, undelivered rq r cards retried ex)
  | (o, Ok _) =>
      match ob_claim (mint (cs_ticks s)) o (ct_tenant c) (Some (event_id e)) 1 (reading s) with
      | (o, Raise ex) => (tick (set_outbox s o), undelivered rq r cards retried ex)
      | (o, Ok []) =>
          (tick (set_outbox s o),
           match ob_status o (event_id e) with
           | Ok (Some Applied) => decision rq (answer_code r) cards retried "" (Some e)
           | _ => decision rq MATERIALIZATION_UNAVAILABLE cards retried "" (Some e)
           end)
      | (o, Ok (leased :: _)) => deliver_leased materialize (tick (set_outbox s o)) rq r cards retried leased
      end
  end.

Definition delivered (s : controller_state) (rq : FactApplicationRequest) (r : LedgerApplyResult)
    (cards : list EvidenceCard) (retried : bool) : controller_state * ControllerDecision :=
  let done := decision rq (answer_code r) cards retried "" (Some (ar_event r)) in
  match ct_materializer c with
  | None => (s, done)
  | Some materialize =>
      if ct_has_outbox c then deliver_queued materialize s rq r cards retried
      else match materialize (ar_event r) with
           | Ok _ => (s, done)
           | Raise ex => (s, undelivered rq r cards retried ex)
           end
  end.

(** [_in_force]: what the ledger holds against a claim. *)
Record conflict_set := Conflicts {
  fs_candidates : list FactEvent;
  fs_index : FactSupersession;
  fs_history : option (list FactEvent);
  fs_absent : gset string;
  fs_instant : Z
}.

Definition read_history (h : Hooks) (l : L) (claim : AtomicFact) (instant : Z) :
    result (option (list FactEvent) * list FactEvent) :=
  match fl_conflict_history with
  | Some key_history => events ← key_history l (ct_tenant c) claim; Ok (Some events, [])
  | None =>
      current ← fl_current l (ct_tenant c) instant (hk_served h);
      Ok ((fun events => events l) <$> fl_events, current)
  end.

Definition in_force_against (h : Hooks) (l : L) (claim : AtomicFact) (instant : Z) : result conflict_set :=
  '(recorded, current) ← read_history h l claim instant;
  match recorded with
  | None => index ← fact_supersession current; Ok (Conflicts current index None ∅ instant)
  | Some recorded =>
      let events := filter (fun e => tenant_id e = ct_tenant c) recorded in
      index ← fact_supersession events;
      let absent := absent_fact_ids events (hk_served h) (Some instant) in
      Ok (Conflicts
            (filter (fun e => match fact_id e with Some f => bool_decide (f ∉ absent) | None => true end = true)
               (project_candidates events index))
            index (Some events) absent instant)
  end.

(** What the claim conflicts with, what its cards supersede of it, and what is left. *)
Definition conflicting (fs : conflict_set) (claim : AtomicFact) : list FactEvent :=
  filter (fun e => match ev_fact e with
                   | Some f => facts_conflict json_text f claim && overlaps (fs_index fs) e claim
                   | None => false
                   end = true) (fs_candidates fs).

Definition superseded_ids (fs : conflict_set) (claim : AtomicFact) (cards : list EvidenceCard) : list string :=
  superseding_fact_ids claim cards (conflicting fs claim)
    (match fs_history fs, conflicting fs claim with
     | Some history, _ :: _ => assertion_cards history (Some (fs_index fs))
     | _, _ => []
     end).

Definition unsettled (fs : conflict_set) (claim : AtomicFact) (supersedes : list string) : result (list FactEvent) :=
  match fs_history fs with
  | Some history =>
      unresolved_conflicts json_text sha256_hex isoformat history claim supersedes (fs_absent fs) (fs_instant fs)
        (fs_index fs)
  | None =>
      Ok (filter (fun e => match fact_id e with Some f => bool_decide (f ∉ supersedes) | None => true end = true)
            (conflicting fs claim))
  end.

(** The permit, and the append it pays for. *)
Definition mint_permit (rq : FactApplicationRequest) (cards : list EvidenceCard) : FactApplicationPermit :=
  Permit (ct_tenant c) (ct_generation c) (rq_request_id rq) (identity (rq_claim rq)) (ec_card_id <$> cards) true false.

Definition append (h : Hooks) (s : controller_state) (rq : FactApplicationRequest) (cards : list EvidenceCard)
    (supersedes : list string) (instant : Z) : controller_state * result LedgerApplyResult :=
  let permit := Some (mint_permit rq cards) in
  let a := Assertion (ct_tenant c) (ct_generation c) (rq_claim rq) cards (rq_request_id rq) (ct_writer c) supersedes
             instant (hk_served h) false in
  match fl_apply_with_outbox with
  | Some apply =>
      if ct_has_outbox c
      then let '(l, o, r) := apply (cs_ledger s) (cs_outbox s) permit a in (State l o (cs_ticks s), r)
      else let '(l, r) := fl_apply (cs_ledger s) permit a in (set_ledger s l, r)
  | None => let '(l, r) := fl_apply (cs_ledger s) permit a in (set_ledger s l, r)
  end.

(** From the conflict set to the answer. *)
Definition judge_and_append (h : Hooks) (s : controller_state) (rq : FactApplicationRequest)
    (cards : list EvidenceCard) (retried : bool) (instant : Z) : controller_state * result ControllerDecision :=
  let refuse code detail := let '(s', d) := record_refusal s rq code cards retried detail in (s', Ok d) in
  match in_force_against h (cs_ledger s) (rq_claim rq) instant with
  | Raise ex => refuse LEDGER_UNAVAILABLE (exn_name ex)
  | Ok fs =>
      let supersedes := superseded_ids fs (rq_claim rq) cards in
      match unsettled fs (rq_claim rq) supersedes with
      | Raise ex => (s, Raise ex)
      | Ok (_ :: _) => refuse CONTRADICTION_WITHOUT_SUPERSESSION ""
      | Ok [] =>
          let '(s', r) := append h s rq cards supersedes (fs_instant fs) in
          match r with
          | Raise (ValueError message) =>
              let '(s', d) := record_refusal s' rq (decision_code_of message) cards retried message in (s', Ok d)
          | Raise ex =>
              let '(s', d) := record_refusal s' rq LEDGER_UNAVAILABLE cards retried (exn_name ex) in (s', Ok d)
          | Ok r => let '(s', d) := delivered s' rq r cards retried in (s', Ok d)
          end
      end
  end.

(** The cards a pass rests on: the request's own, or the fresh search's; the code a
    failing pass ends with, or [None] for a first pass that asks for the search. *)
Definition pass_cards (h : Hooks) (rq : FactApplicationRequest) (fresh : option (list string)) (instant : Z) :
    result (option DecisionCode + list EvidenceCard) :=
  match fresh with
  | None =>
      r ← resolve_cards (ct_tenant c) (ct_generation c) h instant (rq_card_ids rq) [];
      Ok (match r with
          | inr cards =>
              if supported (rq_claim rq) cards then inr cards
              else inl (if ct_fresh_search c then None else Some UNSUPPORTED_CLAIM)
          | inl code => inl (if ct_fresh_search c then None else Some code)
          end)
  | Some ids =>
      refreshed ← application_request (rq_claim rq) ids (rq_request_id rq);
      r ← resolve_cards (ct_tenant c) (ct_generation c) h instant (rq_card_ids refreshed) [];
      Ok (match r with
          | inr cards => if supported (rq_claim rq) cards then inr cards else inl (Some FRESH_SEARCH_INSUFFICIENT)
          | inl code => inl (Some (if decide (code = UNSUPPORTED_CLAIM) then FRESH_SEARCH_INSUFFICIENT else code))
          end)
  end.

(** [_apply_fact]: one pass; [None] asks for the fresh search. *)
Definition apply_pass (h : Hooks) (s : controller_state) (rq : FactApplicationRequest) (fresh : option (list string)) :
    controller_state * result (option ControllerDecision) :=
  let answer d := (s, Ok (Some d)) in
  let judge :=
    let instant := reading s in
    let s := tick s in
    match pass_cards h rq fresh instant with
    | Raise ex => (s, Raise ex)
    | Ok (inl None) => (s, Ok None)
    | Ok (inl (Some code)) =>
        let '(s', d) := record_refusal s rq code [] (bool_decide (is_Some fresh)) "" in (s', Ok (Some d))
    | Ok (inr cards) =>
        let '(s', r) := judge_and_append h s rq cards (bool_decide (is_Some fresh)) instant in (s', Some <$> r)
    end in
  if reserved_request_id (rq_request_id rq)
  then answer (decision rq REQUEST_ID_RESERVED [] false "the ledger mints ids of this form" None)
  else match fl_request_event (cs_ledger s) (ct_tenant c) (rq_request_id rq) with
       | Raise ex =>
           let '(s', d) := record_refusal s rq LEDGER_UNAVAILABLE [] false (exn_name ex) in (s', Ok (Some d))
       | Ok None => judge
       | Ok (Some prior) =>
           if negb (forallb (permitted h) (evidence_cards prior)) then answer (decision rq CARD_NOT_FOUND [] false "" None)
           else if negb (bool_decide (fact_id prior = Some (identity (rq_claim rq))))
           then answer (decision rq REQUEST_ID_REUSED [] false "request_id already names another fact" (Some prior))
           else if negb (allowed_code (decision_code prior))
           then answer (decision rq (decision_code prior) (evidence_cards prior) false "" (Some prior))
           else if bool_decide (ev_type prior = Asserted) && bool_decide (card_ids prior = list_to_set (rq_card_ids rq))
           then let '(s', d) := delivered s rq (Applied_ prior true) (evidence_cards prior) false in (s', Ok (Some d))
           else judge
       end.

(** [apply_fact]: a pass over the request's own cards, and at most one over those a fresh
    search proposes, which reads the store again. *)
Definition apply_fact (first second : Hooks) (s : controller_state) (rq : FactApplicationRequest) :
    controller_state * result ControllerDecision :=
  match apply_pass first s rq None with
  | (s, Raise ex) => (s, Raise ex)
  | (s, Ok (Some d)) => (s, Ok d)
  | (s, Ok None) =>
      match ct_fresh_search c with
      | None => (s, Raise (RuntimeError "AssertionError"))
      | Some search =>
          match search (rq_claim rq) rq with
          | Raise ex =>
              let '(s', d) := record_refusal s rq FRESH_SEARCH_UNAVAILABLE [] true (exn_name ex) in (s', Ok d)
          | Ok [] =>
              let '(s', d) := record_refusal s rq FRESH_SEARCH_INSUFFICIENT [] true "" in (s', Ok d)
          | Ok ids =>
              match apply_pass second s rq (Some ids) with
              | (s, Raise ex) => (s, Raise ex)
              | (s, Ok (Some d)) => (s, Ok d)
              | (s, Ok None) => (s, Raise (RuntimeError "AssertionError"))
              end
          end
      end
  end.

(** [apply_stated]: what a memo states of itself; a refusal writes nothing. *)
Definition apply_stated (s : controller_state) (fact : AtomicFact) (card : EvidenceCard) (request : string) :
    controller_state * result ControllerDecision :=
  match application_request fact [ec_card_id card] request with
  | Raise ex => (s, Raise ex)
  | Ok rq =>
      if negb (bool_decide (ec_trust_state card = STATED_TRUST_STATE)) ||
         negb (bool_decide (ec_tenant_id card = ct_tenant c)) ||
         negb (bool_decide (ec_generation_id card = ct_generation c)) || negb (supported fact [card])
      then (s, Ok (decision rq UNSUPPORTED_CLAIM [card] false "" None))
      else
        let a := Assertion (ct_tenant c) (ct_generation c) fact [card] request (ct_writer c) [] (reading s) None true in
        let '(l, r) := fl_apply (cs_ledger s) (Some (mint_permit rq [card])) a in
        (tick (set_ledger s l),
         Ok (match r with
             | Ok r => decision rq (answer_code r) [card] false "" (Some (ar_event r))
             | Raise (ValueError message) => decision rq (decision_code_of message) [card] false message None
             | Raise ex => decision rq LEDGER_UNAVAILABLE [card] false (exn_name ex) None
             end))
  end.
End mediation.

(** The reference ledger, as the controller relies on it. *)
Definition memory_ledger (O : Type) : FactLedger InMemoryFactLedger O := {|
  fl_request_event l tenant request := Ok (request_event l tenant request);
  fl_current := ledger_current;
  fl_conflict_history := None;
  fl_events := Some lg_events;
  fl_apply l permit a :=
    let '(l', _, r) := apply_assertion json_text sha256_hex isoformat l permit a in (l', r);
  fl_apply_with_outbox := None;
  fl_record l tenant generation request writer code fact cards at_ :=
    let '(l', e) := record_decision json_text sha256_hex isoformat l tenant generation request writer code fact cards at_ in
    (l', Ok e)
|}.
End controller.

#[export] Instance memory_outbox_status : OutboxStatus MemoryOutbox := memory_status.
#[export] Instance sqlite_outbox_status : OutboxStatus SQLiteOutbox := fun o id => Ok (sqlite_status o id).
