(* ===== verification/ControllerFacts.v ===== *)
(** * ControllerFacts: what the controller lets into the ledger, and what it says of delivery *)
From S2P Require Import Prelude Text Float64 Frontmatter References Intervals FactEvents SegmentTree SuccessorIndex FactProjection FactProjectionFacts Outbox OutboxFacts FactLedger FactLedgerFacts ProvenanceController.

(** ** Cards *)

(** A card a pass rests on: found under its id, readable by the caller, of this tenant and
    generation, confirmed as it stands now, usable, trusted and calibrated, inside its
    validity, and its memo unchanged. *)
Record card_checked (tenant generation : string) (h : Hooks) (instant : Z) (id : string) (c : EvidenceCard) : Prop := {
  cc_id : ec_card_id c = id;
  cc_found : exists c0, hk_resolve h id = Ok (Some c0) /\ permitted h c0 = true /\ ec_card_id c0 = id /\
    ec_tenant_id c0 = tenant /\ ec_generation_id c0 = generation /\ revalidate h id c0 = inr c;
  cc_trusted : trusted_for_application c = true;
  cc_from : forall from, ec_valid_from c = Some from -> (from <= instant)%Z;
  cc_until : forall until, ec_valid_until c = Some until -> (instant < until)%Z;
  cc_digest : forall digest, hk_source_digest h = Some digest -> digest c = Ok (Some (ec_source_digest c))
}.

Lemma valid_now_none c instant :
  valid_now c instant = None <->
  (forall from, ec_valid_from c = Some from -> (from <= instant)%Z) /\
  (forall until, ec_valid_until c = Some until -> (instant < until)%Z).
Proof.
  unfold valid_now. destruct (ec_valid_until c) as [u|], (ec_valid_from c) as [f|]; simpl;
    repeat match goal with |- context [(?a <=? ?b)%Z] => destruct (Z.leb_spec a b) end;
    repeat match goal with |- context [(?a <? ?b)%Z] => destruct (Z.ltb_spec a b) end;
    (split; [try done; intros _; split; intros ? [= <-]; lia|intros [Hf Hu]; try done]);
    try (specialize (Hu _ eq_refl); lia); try (specialize (Hf _ eq_refl); lia).
Qed.

Lemma revalidate_id h id c0 c : ec_card_id c0 = id -> revalidate h id c0 = inr c -> ec_card_id c = id.
Proof.
  unfold revalidate. destruct (hk_revalidate h) as [again|]; [|by intros ? [= <-]].
  destruct (again c0) as [[now|]|]; [|done..]. case_decide; [|done]. by intros _ [= <-].
Qed.

Lemma digest_stands_true h c :
  digest_stands h c = Ok true <-> forall digest, hk_source_digest h = Some digest -> digest c = Ok (Some (ec_source_digest c)).
Proof.
  unfold digest_stands. destruct (hk_source_digest h) as [digest|]; [|by split; [intros _ ? [=]|]].
  rewrite bind_ok. split.
  - intros (d & Hd & [= Hb]) digest' [= <-]. by apply bool_decide_eq_true in Hb as ->.
  - intros Hd. exists (Some (ec_source_digest c)). split; [by apply Hd|]. by rewrite bool_decide_eq_true_2.
Qed.

Lemma resolve_card_checked tenant generation h instant id c :
  resolve_card tenant generation h instant id = Ok (inr c) -> card_checked tenant generation h instant id c.
Proof.
  unfold resolve_card. destruct (hk_resolve h id) as [[c0|]|ex] eqn:Hres; [|done..].
  destruct (permitted h c0) eqn:Hp; simpl; [|done].
  case_bool_decide as Hid; simpl; [|done]. case_bool_decide as Ht; simpl; [|done].
  case_bool_decide as Hg; simpl; [|done]. destruct (revalidate h id c0) as [code|c1] eqn:Hre; [done|].
  destruct (has_usable_support c1); simpl; [|done]. destruct (trusted_for_application c1) eqn:Htr; simpl; [|done].
  destruct (valid_now c1 instant) eqn:Hv; [done|]. rewrite bind_ok. intros (stands & Hd & Hs).
  destruct stands; [|done]. injection Hs as <-. apply valid_now_none in Hv as [Hfrom Huntil].
  rewrite digest_stands_true in Hd. split; try done; [by eapply revalidate_id|]. exists c0. split_and!; done.
Qed.

Lemma valid_now_code c instant code : valid_now c instant = Some code -> allowed_code code = false.
Proof. unfold valid_now. repeat case_match; intros [= <-]; done. Qed.

Lemma resolve_card_code tenant generation h instant id code :
  resolve_card tenant generation h instant id = Ok (inl code) -> allowed_code code = false.
Proof.
  unfold resolve_card. destruct (hk_resolve h id) as [[c0|]|ex]; [|by intros [= <-]..].
  repeat (destruct (negb _); [by intros [= <-]|]). destruct (revalidate h id c0) as [code'|c1] eqn:Hre.
  - intros [= <-]. unfold revalidate in Hre. repeat case_match; simplify_eq; done.
  - repeat (destruct (negb _); [by intros [= <-]|]). destruct (valid_now c1 instant) eqn:Hv.
    + intros [= <-]. by eapply valid_now_code.
    + rewrite bind_ok. intros ([] & _ & Hs); [done|]. by injection Hs as <-.
Qed.

Lemma resolve_cards_code tenant generation h instant ids acc code :
  resolve_cards tenant generation h instant ids acc = Ok (inl code) -> allowed_code code = false.
Proof.
  revert acc; induction ids as [|id ids IH]; intros acc; simpl; [done|].
  rewrite bind_ok. intros ([code'|c] & Hc & Hrest); [|by eapply IH]. injection Hrest as ->. by eapply resolve_card_code.
Qed.

Lemma resolve_cards_checked tenant generation h instant ids acc cards :
  resolve_cards tenant generation h instant ids acc = Ok (inr cards) ->
  exists found, cards = acc ++ found /\ Forall2 (card_checked tenant generation h instant) ids found.
Proof.
  revert acc; induction ids as [|id ids IH]; intros acc; simpl.
  - intros [= <-]. exists []. by rewrite app_nil_r.
  - rewrite bind_ok. intros ([code|c] & Hc & Hrest); [done|]. destruct (IH _ Hrest) as (found & -> & Hall).
    exists (c :: found). rewrite <-(assoc_L (++)). split; [done|]. constructor; [|done]. by apply resolve_card_checked.
Qed.

Section facts.
Context (json_text : value -> string) (sha256_hex : string -> string) (isoformat : Z -> string).
Context (utf8_length : string -> nat) (describe : exn -> string).
Abbreviation identity := (fact_identity json_text sha256_hex isoformat).
Context {O : Type} `{FactMaterializationOutbox O, OutboxStatus O}.
Context (now : nat -> Z) (mint : nat -> string -> string) (c : Controller).

#[local] Instance the_ledger : FactLedger InMemoryFactLedger O := memory_ledger json_text sha256_hex isoformat O.

Abbreviation run := (apply_fact json_text sha256_hex isoformat utf8_length describe now mint c).
Abbreviation pass := (apply_pass json_text sha256_hex isoformat utf8_length describe now mint c).
Abbreviation judged := (judge_and_append json_text sha256_hex isoformat describe now mint c).
Abbreviation apply := (apply_assertion json_text sha256_hex isoformat).
Abbreviation state := (@controller_state InMemoryFactLedger O).

(** ** Delivery leaves the ledger alone *)

Lemma delivered_ledger (s s' : state) rq r cards retried d :
  delivered json_text sha256_hex isoformat describe now mint c s rq r cards retried = (s', d) ->
  cs_ledger s' = cs_ledger s /\ cd_event d = Some (ar_event r).
Proof.
  unfold delivered, deliver_queued, deliver_leased, give_back, undelivered.
  destruct (ct_materializer c) as [m|]; [|by intros [= <- <-]].
  destruct (ct_has_outbox c).
  2:{ destruct (m _); by intros [= <- <-]. }
  destruct (ob_enqueue _ _) as [o1 [u|ex]]; [|by intros [= <- <-]].
  destruct (ob_claim _ _ _ _ _ _) as [o2 [[|leased rest]|ex]].
  - destruct (ob_status _ _) as [[[]|]|]; by intros [= <- <-].
  - destruct (m leased) as [u'|ex]; [|by intros [= <- <-]].
    destruct (ob_mark_applied _ _ _ _) as [o3 [u''|ex]]; by intros [= <- <-].
  - by intros [= <- <-].
Qed.

(** ** One pass *)

(** What a pass over the given cards may do to the ledger, and what it answers. *)
Inductive mediated (h : Hooks) (ids : list string) (rq : FactApplicationRequest) (l : InMemoryFactLedger) :
    InMemoryFactLedger -> option ControllerDecision -> Prop :=
| med_nothing d :
    (forall d', d = Some d' -> cd_allowed d' = true -> exists prior,
       lg_by_request l !! (ct_tenant c, rq_request_id rq) = Some prior /\ cd_event d' = Some prior /\
       ev_type prior = Asserted /\ fact_id prior = Some (identity (rq_claim rq))) ->
    mediated h ids rq l l d
| med_refused l' code cards at_ e d :
    reserved_request_id (rq_request_id rq) = false -> cd_allowed d = false ->
    record_decision json_text sha256_hex isoformat l (ct_tenant c) (ct_generation c) (rq_request_id rq) (ct_writer c) code
      (Some (rq_claim rq)) cards at_ = (l', e) ->
    mediated h ids rq l l' (Some d)
| med_applied l' cards instant fs answer permit' d :
    reserved_request_id (rq_request_id rq) = false ->
    Forall2 (card_checked (ct_tenant c) (ct_generation c) h instant) ids cards ->
    supported json_text sha256_hex isoformat (rq_claim rq) cards = true ->
    in_force_against c h l (rq_claim rq) instant = Ok fs ->
    apply l (Some (mint_permit json_text sha256_hex isoformat c rq cards))
      (Assertion (ct_tenant c) (ct_generation c) (rq_claim rq) cards (rq_request_id rq) (ct_writer c)
         (superseded_ids json_text fs (rq_claim rq) cards) instant (hk_served h) false) = (l', permit', Ok answer) ->
    cd_event d = Some (ar_event answer) ->
    mediated h ids rq l l' (Some d).

Lemma record_refusal_mediated h ids (s s' : state) rq code cards retried detail d :
  reserved_request_id (rq_request_id rq) = false -> allowed_code code = false ->
  record_refusal json_text sha256_hex isoformat now c s rq code cards retried detail = (s', d) ->
  mediated h ids rq (cs_ledger s) (cs_ledger s') (Some d).
Proof.
  intros Hres Hcode. unfold record_refusal, fl_record. simpl.
  destruct (record_decision _ _ _ _ _ _ _ _ _ _ _ _) as [l e] eqn:Hr. intros [= <- <-]. by eapply med_refused.
Qed.

Lemma in_force_instant h l claim instant fs :
  in_force_against c h l claim instant = Ok fs -> fs_instant fs = instant.
Proof.
  unfold in_force_against. rewrite bind_ok. intros ([recorded current] & _ & Hr). destruct recorded as [events|].
  - apply bind_ok in Hr as (index & _ & Hr). by injection Hr as <-.
  - apply bind_ok in Hr as (index & _ & Hr). by injection Hr as <-.
Qed.

Lemma decision_code_of_text code : decision_code_of (code_text code) = code.
Proof. destruct code; vm_compute; reflexivity. Qed.

Lemma unresolved_ok history claim supersedes absent moment index :
  exists r, unresolved_conflicts json_text sha256_hex isoformat history claim supersedes absent moment index = Ok r.
Proof.
  unfold unresolved_conflicts. destruct (filter _ _) as [|like rest], supersedes as [|f fs]; try by eexists.
  destruct (fact_supersession_ok (history ++ [pending_event json_text sha256_hex isoformat like claim (f :: fs)
    (ordered_after json_text sha256_hex isoformat moment history claim)])) as [after ->]. by eexists.
Qed.

(** The ledger never answers an application with the text of an allowed code. *)
Lemma apply_refusal_code l permit a l' permit' message :
  apply l permit a = (l', permit', Raise (ValueError message)) -> allowed_code (decision_code_of message) = false.
Proof.
  unfold apply_assertion. destruct (consume_permit _ _ _ _ _ _ _ _ _) as [spent|ex] eqn:Hc.
  2:{ intros [= _ _ ->]. unfold consume_permit in Hc. destruct permit as [p|]; [|done]. by destruct (_ || _). }
  destruct (apply_permitted _ _ _ l a) as [l1 r] eqn:Hp. intros [= _ _ ->]. revert Hp. unfold apply_permitted.
  destruct (lg_by_request l !! _) as [prior|].
  { destruct (replays_request _ _ _ _ _ _); [done|]. intros [= _ <-]. vm_compute. done. }
  destruct (fact_supersession_ok (tenant_history l (as_tenant a))) as [index ->].
  destruct (repeats_assertion _ _ _ _ _ _); [done|].
  destruct (if as_stated a then _ else _) as [[|x xs]|ex] eqn:Hu.
  - by destruct (as_supersedes a).
  - intros [= _ <-]. vm_compute. done.
  - exfalso. destruct (as_stated a); [done|].
    by destruct (unresolved_ok (tenant_history l (as_tenant a)) (as_fact a) (as_supersedes a)
      (absent_fact_ids (tenant_history l (as_tenant a)) (as_served a)
         (Some (ordered_after json_text sha256_hex isoformat (as_now a) (tenant_history l (as_tenant a)) (as_fact a))))
      (ordered_after json_text sha256_hex isoformat (as_now a) (tenant_history l (as_tenant a)) (as_fact a))
      index) as [r Hr]; rewrite Hr in Hu.
Qed.
Ltac refused Hr := eapply record_refusal_mediated; [done| |exact Hr]; done.

Lemma append_applied h (s s' : state) rq cards supersedes instant r :
  append json_text sha256_hex isoformat c h s rq cards supersedes instant = (s', r) ->
  exists permit', apply (cs_ledger s) (Some (mint_permit json_text sha256_hex isoformat c rq cards))
    (Assertion (ct_tenant c) (ct_generation c) (rq_claim rq) cards (rq_request_id rq) (ct_writer c) supersedes
       instant (hk_served h) false) = (cs_ledger s', permit', r).
Proof.
  unfold append, fl_apply_with_outbox, fl_apply. simpl.
  destruct (apply _ _ _) as [[l p] r0] eqn:Ha. intros [= <- <-]. by exists p.
Qed.

Lemma apply_raised l permit a l' permit' ex : apply l permit a = (l', permit', Raise ex) -> l' = l.
Proof.
  intros Ha. destruct (apply_cases _ _ _ _ _ _ _ _ _ Ha) as [(-> & _)|(spent & _ & _ & Hcase)]; [done|].
  by inversion Hcase.
Qed.

Lemma judged_mediated h ids (s s' : state) rq cards retried instant r :
  reserved_request_id (rq_request_id rq) = false ->
  Forall2 (card_checked (ct_tenant c) (ct_generation c) h instant) ids cards ->
  supported json_text sha256_hex isoformat (rq_claim rq) cards = true ->
  judged h s rq cards retried instant = (s', r) ->
  exists d, r = Ok d /\ mediated h ids rq (cs_ledger s) (cs_ledger s') (Some d).
Proof.
  intros Hres Hcards Hsup. unfold judge_and_append.
  destruct (in_force_against c h (cs_ledger s) (rq_claim rq) instant) as [fs|ex] eqn:Hfs.
  2:{ destruct (record_refusal _ _ _ _ _ _ _ _ _ _) as [s1 d] eqn:Hr. intros [= <- <-]. exists d. split; [done|].
      refused Hr. }
  destruct (unsettled _ _ _ _ _ _) as [[|x xs]|ex] eqn:Hu.
  - rewrite (in_force_instant _ _ _ _ _ Hfs). destruct (append _ _ _ _ _ _ _ _ _ _) as [s1 r1] eqn:Happ.
    destruct (append_applied _ _ _ _ _ _ _ _ Happ) as [permit' Ha]. destruct r1 as [answer|ex].
    + destruct (delivered _ _ _ _ _ _ _ _ _ _ _ _) as [s2 d] eqn:Hd. intros [= <- <-].
      destruct (delivered_ledger _ _ _ _ _ _ _ Hd) as [-> Hev]. exists d. split; [done|]. by eapply med_applied.
    + pose proof (apply_raised _ _ _ _ _ _ Ha) as Hsame.
      assert (Hrefuse : forall code detail s2 d, allowed_code code = false ->
                record_refusal json_text sha256_hex isoformat now c s1 rq code cards retried detail = (s2, d) ->
                mediated h ids rq (cs_ledger s) (cs_ledger s2) (Some d)).
      { intros code detail s2 d Hcode Hr. rewrite <-Hsame. by eapply record_refusal_mediated. }
      destruct ex as [message| | | | | |];
        destruct (record_refusal _ _ _ _ _ _ _ _ _ _) as [s2 d] eqn:Hr; intros [= <- <-]; exists d; (split; [done|]);
        (eapply Hrefuse; [|exact Hr]);
        lazymatch goal with
        | |- allowed_code (decision_code_of _) = _ => by eapply apply_refusal_code
        | _ => reflexivity
        end.
  - destruct (record_refusal _ _ _ _ _ _ _ _ _ _) as [s1 d] eqn:Hr. intros [= <- <-]. exists d. split; [done|].
    refused Hr.
  - exfalso. unfold unsettled in Hu. destruct (fs_history fs) as [history|]; [|done].
    edestruct unresolved_ok as [r' Hr']. by rewrite Hr' in Hu.
Qed.

(** The cards a pass goes on with were all checked, and one of them states the claim. *)
Lemma pass_cards_checked h rq fresh instant cards :
  pass_cards json_text sha256_hex isoformat utf8_length c h rq fresh instant = Ok (inr cards) ->
  Forall2 (card_checked (ct_tenant c) (ct_generation c) h instant) (default (rq_card_ids rq) fresh) cards /\
  supported json_text sha256_hex isoformat (rq_claim rq) cards = true.
Proof.
  unfold pass_cards. destruct fresh as [ids|]; simpl.
  - rewrite bind_ok. intros (refreshed & Href & Hr). apply bind_ok in Hr as ([code|found] & Hres & Hr); [by case_decide|].
    destruct (supported _ _ _ _ _) eqn:Hsup; [|done]. injection Hr as <-.
    assert (rq_card_ids refreshed = ids) as Hids.
    { unfold application_request in Href. repeat case_match; try done. by injection Href as <-. }
    rewrite Hids in Hres. destruct (resolve_cards_checked _ _ _ _ _ _ _ Hres) as (found' & -> & ?). done.
  - rewrite bind_ok. intros ([code|found] & Hres & Hr); [by destruct (ct_fresh_search c)|].
    destruct (supported _ _ _ _ _) eqn:Hsup; [|by destruct (ct_fresh_search c)]. injection Hr as <-.
    destruct (resolve_cards_checked _ _ _ _ _ _ _ Hres) as (found' & -> & ?). done.
Qed.

(** A failing pass never ends with an allowed code. *)
Lemma pass_cards_code h rq fresh instant code :
  pass_cards json_text sha256_hex isoformat utf8_length c h rq fresh instant = Ok (inl (Some code)) ->
  allowed_code code = false.
Proof.
  unfold pass_cards. destruct fresh as [ids|]; simpl.
  - rewrite bind_ok. intros (refreshed & _ & Hr). apply bind_ok in Hr as ([code'|found] & Hres & Hr).
    + apply resolve_cards_code in Hres. by case_decide; injection Hr as <-.
    + destruct (supported _ _ _ _ _); [done|]. by injection Hr as <-.
  - rewrite bind_ok. intros ([code'|found] & Hres & Hr).
    + apply resolve_cards_code in Hres. destruct (ct_fresh_search c); [done|]. by injection Hr as <-.
    + destruct (supported _ _ _ _ _); [done|]. destruct (ct_fresh_search c); [done|]. by injection Hr as <-.
Qed.

Lemma pass_mediated h (s s' : state) rq fresh r :
  pass h s rq fresh = (s', r) ->
  mediated h (default (rq_card_ids rq) fresh) rq (cs_ledger s) (cs_ledger s')
    (match r with Ok d => d | Raise _ => None end) /\ (r = Ok None -> cs_ledger s' = cs_ledger s).
Proof.
  unfold apply_pass, fl_request_event. simpl.
  destruct (reserved_request_id (rq_request_id rq)) eqn:Hres.
  { intros [= <- <-]. split; [|done]. apply med_nothing. by intros d' [= <-]. }
  set (judge := match pass_cards _ _ _ _ _ _ _ _ _ with Ok _ => _ | Raise _ => _ end).
  assert (Hjudge : judge = (s', r) ->
    mediated h (default (rq_card_ids rq) fresh) rq (cs_ledger s) (cs_ledger s')
      (match r with Ok d => d | Raise _ => None end) /\ (r = Ok None -> cs_ledger s' = cs_ledger s)).
  { unfold judge. destruct (pass_cards _ _ _ _ _ _ _ _ _) as [[[code|]|cards]|ex] eqn:Hp.
    - destruct (record_refusal _ _ _ _ _ _ _ _ _ _) as [s1 d] eqn:Hr. intros [= <- <-]. split; [|done].
      apply pass_cards_code in Hp. change (cs_ledger s) with (cs_ledger (tick s)). by eapply record_refusal_mediated.
    - intros [= <- <-]. split; [|done]. by apply med_nothing.
    - apply pass_cards_checked in Hp as [Hcards Hsup].
      destruct (judge_and_append _ _ _ _ _ _ _ _ _ _ _ _ _) as [s1 r1] eqn:Hj. intros [= <- <-].
      destruct (judged_mediated _ _ _ _ _ _ _ _ _ Hres Hcards Hsup Hj) as (d & -> & Hmed). split; [exact Hmed|done].
    - intros [= <- <-]. split; [|done]. by apply med_nothing. }
  clearbody judge. unfold request_event.
  destruct (lg_by_request (cs_ledger s) !! _) as [prior|] eqn:Hprior; [|done]. case_decide as Hten; [|done].
  destruct (negb (forallb _ _)).
  { intros [= <- <-]. split; [|done]. apply med_nothing. by intros d' [= <-]. }
  case_bool_decide as Hfact; simpl.
  2:{ intros [= <- <-]. split; [|done]. apply med_nothing. by intros d' [= <-]. }
  destruct (allowed_code (decision_code prior)) eqn:Hcode; simpl.
  2:{ intros [= <- <-]. split; [|done]. apply med_nothing. intros d' [= <-]. simpl. by rewrite Hcode. }
  case_bool_decide as Htype; simpl; [|done]. case_bool_decide; simpl; [|done].
  destruct (delivered _ _ _ _ _ _ _ _ _ _ _ _) as [s1 d] eqn:Hd. intros [= <- <-].
  destruct (delivered_ledger _ _ _ _ _ _ _ Hd) as [-> Hev]. split; [|done]. apply med_nothing.
  intros d' [= <-] _. exists prior. done.
Qed.

(** The passes one application can make. *)
Definition passes (first second : Hooks) (rq : FactApplicationRequest) : list (Hooks * list string) :=
  (first, rq_card_ids rq) ::
  match ct_fresh_search c with
  | Some search => match search (rq_claim rq) rq with Ok ids => [(second, ids)] | Raise _ => [] end
  | None => []
  end.

Lemma run_mediated first second (s s' : state) rq r :
  run first second s rq = (s', r) ->
  exists h ids, (h, ids) ∈ passes first second rq /\
    mediated h ids rq (cs_ledger s) (cs_ledger s') (match r with Ok d => Some d | Raise _ => None end).
Proof.
  unfold apply_fact, passes. destruct (pass first s rq None) as [s1 r1] eqn:H1.
  destruct (pass_mediated _ _ _ _ _ _ H1) as [Hm1 Hsame]. simpl in Hm1.
  destruct r1 as [[d|]|ex]; [intros [= <- <-]; exists first, (rq_card_ids rq); split; [by left|done]|
    |intros [= <- <-]; exists first, (rq_card_ids rq); split; [by left|done]].
  assert (Hres : reserved_request_id (rq_request_id rq) = false).
  { destruct (reserved_request_id _) eqn:Hr; [|done]. unfold apply_pass in H1. by rewrite Hr in H1. }
  destruct (ct_fresh_search c) as [search|].
  2:{ intros [= <- <-]. exists first, (rq_card_ids rq). split; [by left|]. exact Hm1. }
  rewrite <-(Hsame eq_refl). destruct (search (rq_claim rq) rq) as [[|id ids]|ex].
  - destruct (record_refusal _ _ _ _ _ _ _ _ _ _) as [s2 d] eqn:Hr. intros [= <- <-].
    exists first, (rq_card_ids rq). split; [by left|]. refused Hr.
  - destruct (pass second s1 rq (Some (id :: ids))) as [s2 r2] eqn:H2.
    destruct (pass_mediated _ _ _ _ _ _ H2) as [Hm2 Hsame2]. simpl in Hm2.
    destruct r2 as [[d|]|ex]; intros [= <- <-]; exists second, (id :: ids); (split; [right; by left|]); exact Hm2.
  - destruct (record_refusal _ _ _ _ _ _ _ _ _ _) as [s2 d] eqn:Hr. intros [= <- <-].
    exists first, (rq_card_ids rq). split; [by left|]. refused Hr.
Qed.
(** ** What it may supersede *)

(** A recorded value the claim contradicts where it is in force, and that a card of the
    claim names: by fact id, by one of its cards, or by its memo. *)
Definition linked (l : InMemoryFactLedger) (claim : AtomicFact) (cards : list EvidenceCard) (f : string) : Prop :=
  exists index old fact k, fact_supersession (tenant_history l (ct_tenant c)) = Ok index /\
    old ∈ (applications (tenant_history l (ct_tenant c))).*2 /\ fact_id old = Some f /\ ev_fact old = Some fact /\
    facts_conflict json_text fact claim = true /\ overlaps index old claim = true /\ k ∈ cards /\
    links_to (evidence_of (assertion_cards (tenant_history l (ct_tenant c)) (Some index)) old) (Some f) k = true.

Lemma superseding_linked claim cards support current old f :
  f ∈ foldl (superseding_step json_text claim cards support) old current ->
  f ∈ old \/ exists e fact k, e ∈ current /\ fact_id e = Some f /\ ev_fact e = Some fact /\
    facts_conflict json_text fact claim = true /\ k ∈ cards /\ links_to (evidence_of support e) (Some f) k = true.
Proof.
  revert old; induction current as [|e current IH]; intros old; simpl; [by left|]. intros Hin.
  destruct (IH _ Hin) as [Hstep|(e' & fact & k & He & Hrest)].
  2:{ right. exists e', fact, k. split; [by right|done]. }
  unfold superseding_step in Hstep. destruct (ev_fact e) as [fact|] eqn:Hf; [|by left].
  destruct (fact_id e) as [id|] eqn:Hid; [|by left]. destruct (facts_conflict json_text fact claim) eqn:Hc; [|by left].
  simpl in Hstep. case_bool_decide; [by left|]. destruct (existsb _ cards) eqn:Hex; [|by left].
  apply elem_of_app in Hstep as [?| ->%list_elem_of_singleton]; [by left|right].
  apply existsb_exists in Hex as (k & Hk%list_elem_of_In & Hl). exists e, fact, k. split_and!; try done. by left.
Qed.

Lemma memory_conflicts h l claim instant fs :
  in_force_against c h l claim instant = Ok fs ->
  fs_history fs = Some (tenant_history l (ct_tenant c)) /\
  fact_supersession (tenant_history l (ct_tenant c)) = Ok (fs_index fs) /\
  forall e, e ∈ fs_candidates fs -> e ∈ (applications (tenant_history l (ct_tenant c))).*2.
Proof.
  unfold in_force_against, read_history. simpl. destruct (ledger_current _ _ _ _) as [current|]; simpl; [|done].
  rewrite bind_ok. intros (index & Hix & [= <-]). simpl. split_and!; [done|done|].
  intros e [_ He]%list_elem_of_filter. by apply list_elem_of_filter in He as [_ He].
Qed.

Lemma superseded_linked h l claim cards instant fs f :
  in_force_against c h l claim instant = Ok fs -> f ∈ superseded_ids json_text fs claim cards -> linked l claim cards f.
Proof.
  intros Hfs Hf. destruct (memory_conflicts _ _ _ _ _ Hfs) as (Hhist & Hix & Hcand).
  unfold superseded_ids, superseding_fact_ids in Hf. rewrite Hhist in Hf.
  apply superseding_linked in Hf as [?%not_elem_of_nil|(old & fact & k & Hold & Hid & Hfact & Hc & Hk & Hl)]; [done|].
  exists (fs_index fs), old, fact, k. pose proof Hold as Hin. apply list_elem_of_filter in Hin as [Hov Hin].
  rewrite Hfact in Hov. apply andb_true_iff in Hov as [_ Hov]. split_and!; try done; [by apply Hcand|].
  destruct (conflicting json_text fs claim); [by apply not_elem_of_nil in Hold|done].
Qed.

(** ** Complete mediation *)

(** What an event this application appended is. *)
Definition authorized (first second : Hooks) (l : InMemoryFactLedger) (rq : FactApplicationRequest) (e : FactEvent) : Prop :=
  tenant_id e = ct_tenant c /\ generation_id e = ct_generation c /\ ev_fact e = Some (rq_claim rq) /\
  reserved_request_id (rq_request_id rq) = false /\
  (request_id e = rq_request_id rq /\ (ev_type e = Rejected \/ ev_type e = Abstained) \/
   (ev_type e = Asserted \/ ev_type e = SupersededEvent) /\
   exists h ids instant, (h, ids) ∈ passes first second rq /\
     Forall2 (card_checked (ct_tenant c) (ct_generation c) h instant) ids (evidence_cards e) /\
     supported json_text sha256_hex isoformat (rq_claim rq) (evidence_cards e) = true /\
     forall f, f ∈ supersedes_fact_ids e -> linked l (rq_claim rq) (evidence_cards e) f).

Lemma mediated_ok h ids rq l l' od :
  ledger_ok json_text sha256_hex isoformat l -> mediated h ids rq l l' od ->
  ledger_ok json_text sha256_hex isoformat l' /\ (lg_events l `prefix_of` lg_events l').
Proof.
  intros Hok [d _|l1 code cards at_ e d Hres _ Hrec|l1 cards instant fs answer permit' d Hres _ _ _ Happ _]; [done| |].
  - destruct (ledger_step_ok _ _ _ l l1 Hok) as (? & ? & _); [by eapply step_decision|done].
  - destruct (ledger_step_ok _ _ _ l l1 Hok) as (? & ? & _); [eapply step_apply; [|exact Happ]; exact Hres|done].
Qed.

(** An allowed answer names an assertion of the claim that stands in the ledger. *)
Lemma mediated_answer h ids rq l l' d :
  ledger_ok json_text sha256_hex isoformat l -> mediated h ids rq l l' (Some d) -> cd_allowed d = true ->
  exists e, cd_event d = Some e /\ e ∈ lg_events l' /\ tenant_id e = ct_tenant c /\ ev_type e = Asserted /\
    fact_id e = Some (identity (rq_claim rq)).
Proof.
  intros Hok Hmed Hal. remember (Some d) as od eqn:Hod.
  destruct Hmed as [od Hreplay|l1 code cards at_ e d0 _ Hden _|l1 cards instant fs answer permit' d0 _ _ _ _ Happ Hev];
    [|congruence|].
  - destruct (Hreplay d Hod Hal) as (prior & Hreg & Hcd & Ht & Hf). apply (lo_recorded _ _ _ _ Hok) in Hreg as [Hin [= Hten _]].
    exists prior. by rewrite Hten.
  - injection Hod as ->. exists (ar_event answer). split; [done|].
    destruct (apply_cases _ _ _ _ _ _ _ _ _ Happ) as [(_ & _ & ex & ? & _)|(spent & _ & _ & Hcase)]; [done|].
    inversion Hcase as [prior Hprior Hrep|ex|Hnone|Hnone Hs|Hnone Hs]; subst; simpl.
    + apply (lo_recorded _ _ _ _ Hok) in Hprior as [Hin [= Hten _]]. unfold replays_request in Hrep.
      apply andb_true_iff in Hrep as [[Ht%bool_decide_eq_true Hf%bool_decide_eq_true]%andb_true_iff _]. done.
    + split_and!; try done. apply elem_of_app; right; by left.
    + split_and!; try done. apply elem_of_app; right; by left.
    + split_and!; try done. apply elem_of_app; left; apply elem_of_app; right; by left.
Qed.

Lemma mediated_events first second h ids rq l l' od :
  (h, ids) ∈ passes first second rq -> mediated h ids rq l l' od ->
  forall e, e ∈ lg_events l' -> e ∈ lg_events l \/ authorized first second l rq e.
Proof.
  intros Hpass [d _|l1 code cards at_ e d Hres _ Hrec|l1 cards instant fs answer permit' d Hres Hcards Hsup Hfs Happ _];
    [by left| |].
  - unfold record_decision in Hrec. destruct (lg_by_request l !! _) as [prior|]; injection Hrec as <- <-; [by left|].
    intros x [Hx| ->%list_elem_of_singleton]%elem_of_app; [by left|right]. split_and!; try done. left.
    split; [done|]. simpl. case_decide; auto.
  - assert (Hauth : forall x, tenant_id x = ct_tenant c -> generation_id x = ct_generation c -> ev_fact x = Some (rq_claim rq) ->
              evidence_cards x = cards -> (ev_type x = Asserted \/ ev_type x = SupersededEvent) ->
              (forall f, f ∈ supersedes_fact_ids x -> f ∈ superseded_ids json_text fs (rq_claim rq) cards) ->
              authorized first second l rq x).
    { intros x Ht Hg Hf Hc Hty Hn. unfold authorized. rewrite Hc. split_and!; try done. right. split; [done|].
      exists h, ids, instant. split_and!; try done. intros f Hin. eapply superseded_linked; [exact Hfs|by apply Hn]. }
    destruct (apply_cases _ _ _ _ _ _ _ _ _ Happ) as [(_ & _ & ex & ? & _)|(spent & _ & _ & Hcase)]; [done|].
    inversion Hcase as [prior Hprior Hrep|ex|Hnone|Hnone Hs|Hnone Hs]; subst; simpl; [by left| | |].
    + intros x [Hx| ->%list_elem_of_singleton]%elem_of_app; [by left|right]. apply Hauth; try done; [by left|].
      by intros f ?%not_elem_of_nil.
    + intros x [Hx| ->%list_elem_of_singleton]%elem_of_app; [by left|right]. apply Hauth; try done; [by left|].
      by intros f ?%not_elem_of_nil.
    + intros x [[Hx| ->%list_elem_of_singleton]%elem_of_app| ->%list_elem_of_singleton]%elem_of_app; [by left|right..];
        apply Hauth; try done; [by left|by right].
Qed.

(** C2: complete mediation.  Whatever a request asks, whatever the cards, the store and a
    fresh search answer, and however the call ends, the reference ledger is only appended
    to, and every event appended is this tenant's and generation's and about this claim:
    either the refusal recorded for the request, or an assertion (and its receipt) whose
    cards, those of the request or those one fresh search proposed, were each found under
    their id, readable by the caller, of this lineage, confirmed, trusted, calibrated,
    inside their validity and unchanged at the source; one of them states exactly this
    fact; and it supersedes only values it contradicts that one of its cards names.  An
    allowed answer names an assertion of this fact that stands in the ledger. *)
Theorem apply_fact_mediates first second (s s' : state) rq r
    (Hok : ledger_ok json_text sha256_hex isoformat (cs_ledger s)) (Hrun : run first second s rq = (s', r)) :
  (lg_events (cs_ledger s) `prefix_of` lg_events (cs_ledger s')) /\
  (forall e, e ∈ lg_events (cs_ledger s') ->
     e ∈ lg_events (cs_ledger s) \/ authorized first second (cs_ledger s) rq e) /\
  (forall d, r = Ok d -> cd_allowed d = true -> exists e, cd_event d = Some e /\ e ∈ lg_events (cs_ledger s') /\
     tenant_id e = ct_tenant c /\ ev_type e = Asserted /\ fact_id e = Some (identity (rq_claim rq))).
Proof.
  destruct (run_mediated _ _ _ _ _ _ Hrun) as (h & ids & Hpass & Hmed). split_and!.
  - by eapply mediated_ok.
  - by eapply mediated_events.
  - intros d -> Hal. by eapply mediated_answer.
Qed.
End facts.

(** ** A run: Paris on one card, applied and delivered *)

Definition demo_evidence : EvidenceCard :=
  {| ec_card_id := "card-1"; ec_chunk_id := "c1"; ec_source := "ada.md"; ec_source_digest := "d1"; ec_valid_from := Some 0%Z;
     ec_valid_until := Some 100%Z; ec_tenant_id := "t"; ec_generation_id := "g"; ec_calibration_id := Some "k";
     ec_calibration_status := "certified"; ec_trust_state := "trusted"; ec_verdict := "ok";
     ec_supersession_links := []; ec_structured_facts := [demo_fact "Paris" (None, None)]; ec_redacted := false |}.

Definition demo_hooks : Hooks :=
  {| hk_resolve := fun id => Ok (if decide (id = "card-1") then Some demo_evidence else None);
     hk_revalidate := Some (fun card => Ok (Some card)); hk_source_digest := Some (fun _ => Ok (Some "d1"));
     hk_permitted := Some (fun card => Ok (bool_decide (ec_source card = "ada.md"))); hk_served := None |}.

Definition demo_controller : Controller :=
  {| ct_tenant := "t"; ct_generation := "g"; ct_writer := "w"; ct_materializer := Some (fun _ => Ok tt);
     ct_has_outbox := true; ct_fresh_search := None |}.

Definition demo_claim (ids : list string) : FactApplicationRequest := Request (demo_fact "Paris" (None, None)) ids "r1".

Definition demo_start : @controller_state InMemoryFactLedger MemoryOutbox := State new_ledger (Memory [] ∅ ∅) 0.

Definition demo_run (clock : Z) (ids : list string) :=
  @apply_fact demo_json demo_digest demo_iso String.length exn_name InMemoryFactLedger MemoryOutbox
    (memory_ledger demo_json demo_digest demo_iso MemoryOutbox) (memory_outbox demo_same 300) memory_outbox_status
    (fun _ => clock) (fun _ id => "token-" +:+ id) demo_controller demo_hooks demo_hooks demo_start (demo_claim ids).

Definition answered (r : result ControllerDecision) : option (bool * DecisionCode * option event_type) :=
  match r with Ok d => Some (cd_allowed d, cd_code d, ev_type <$> cd_event d) | Raise _ => None end.

Example demo_applied : answered (demo_run 5 ["card-1"]).2 = Some (true, APPLIED, Some Asserted).
Proof. vm_compute. reflexivity. Qed.
Example demo_expired : answered (demo_run 100 ["card-1"]).2 = Some (false, VALIDITY_EXPIRED, Some Rejected).
Proof. vm_compute. reflexivity. Qed.
Example demo_unknown_card : answered (demo_run 5 ["card-2"]).2 = Some (false, CARD_NOT_FOUND, Some Rejected).
Proof. vm_compute. reflexivity. Qed.

(** A fresh search that proposes one card twice is no refusal: the call raises. *)
Example demo_fresh_twice :
  (@apply_fact demo_json demo_digest demo_iso String.length exn_name InMemoryFactLedger MemoryOutbox
    (memory_ledger demo_json demo_digest demo_iso MemoryOutbox) (memory_outbox demo_same 300) memory_outbox_status
    (fun _ => 5%Z) (fun _ id => id)
    {| ct_tenant := "t"; ct_generation := "g"; ct_writer := "w"; ct_materializer := None; ct_has_outbox := false;
       ct_fresh_search := Some (fun _ _ => Ok ["card-1"; "card-1"]) |}
    demo_hooks demo_hooks demo_start (demo_claim ["card-2"])).2 =
  Raise (ValueError "evidence card ids must be unique").
Proof. vm_compute. reflexivity. Qed.

Lemma apply_fact_mediates_witness :
  Forall (authorized demo_json demo_digest demo_iso demo_controller demo_hooks demo_hooks new_ledger (demo_claim ["card-1"]))
    (lg_events (cs_ledger (demo_run 5 ["card-1"]).1)) /\
  length (lg_events (cs_ledger (demo_run 5 ["card-1"]).1)) = 1.
Proof.
  split; [|vm_compute; reflexivity]. apply Forall_forall. intros e He.
  destruct (@apply_fact_mediates demo_json demo_digest demo_iso String.length exn_name MemoryOutbox (memory_outbox demo_same 300)
    memory_outbox_status (fun _ => 5%Z) (fun _ id => "token-" +:+ id) demo_controller demo_hooks demo_hooks demo_start
    (demo_run 5 ["card-1"]).1 (demo_claim ["card-1"]) (demo_run 5 ["card-1"]).2
    (new_ledger_ok demo_json demo_digest demo_iso) (surjective_pairing _)) as (_ & Hall & _).
  destruct (Hall e He) as [Hnew|Hauth]; [by apply not_elem_of_nil in Hnew|exact Hauth].
Defined.
