(* ===== verification/ControllerDelivery.v ===== *)
(** * ControllerDelivery: an allowed answer was delivered

    Both queues also keep what the controller relies on ([DeliveryLaws]); over any queue
    that does, the controller never says that an application was delivered when it was
    not, and never disturbs a delivery another worker holds. *)
From S2P Require Import Prelude Text Float64 Frontmatter References Intervals FactEvents SegmentTree SuccessorIndex FactProjection FactProjectionFacts Outbox OutboxFacts FactLedger FactLedgerFacts ProvenanceController ControllerFacts.

(** ** The in-memory queue *)
Section memory.
Context (same_payload : FactEvent -> FactEvent -> bool) (lease : Z) (tenant : string).
#[local] Instance queue : FactMaterializationOutbox MemoryOutbox := memory_outbox same_payload lease.

(** A claim of one event reads only its item. *)
Lemma claim_loop_only mint t id limit now items o selected :
  memory_claim_loop lease mint t (Some id) limit now items o selected =
  memory_claim_loop lease mint t None limit now (filter (fun ke => ke.1 = id) items) o selected.
Proof.
  revert o selected; induction items as [|[k e] items IH]; intros o selected; [done|].
  rewrite filter_cons. cbn [memory_claim_loop]. case_decide as Hk; simpl in Hk.
  - rewrite (bool_decide_eq_true_2 (k = id)) by done. cbn [memory_claim_loop]. simpl. rewrite orb_false_r.
    repeat case_match; rewrite ?IH; done.
  - rewrite (bool_decide_eq_false_2 (k = id)) by done. simpl. by rewrite orb_true_r.
Qed.

Lemma filter_key id (d : list (string * FactEvent)) :
  NoDup d.*1 -> filter (fun ke => ke.1 = id) d = match odict_get id d with Some e => [(id, e)] | None => [] end.
Proof.
  induction d as [|[k e] d IH]; intros Hnd; [done|]. inversion_clear Hnd as [|? ? Hk Hnd'].
  rewrite filter_cons. simpl. destruct (decide (k = id)) as [->|Hne].
  - rewrite (decide_True (P := id = id)) by done. rewrite IH by done.
    destruct (odict_get id d) as [e'|] eqn:Hget; [|done]. exfalso. apply Hk, list_elem_of_fmap. exists (id, e').
    split; [done|]. by apply odict_get_in.
  - rewrite (decide_False (P := id = k)) by congruence. by apply IH.
Qed.

Lemma memory_delivery : tenant <> "" -> DeliveryLaws lease tenant (memory_ok tenant) memory_view.
Proof.
  intros Hten. split.
  2:{ intros o id h Hok Hv. apply (memory_view_some same_payload tenant _ _ _ Hok) in Hv as (_ & Hst & _).
      unfold ob_status, memory_outbox_status, memory_status. by rewrite Hst. }
  intros o mint id now Hok. cbn [ob_claim queue memory_outbox]. unfold memory_claim.
  rewrite (decide_False (P := tenant = "")) by done. cbn [valid_limit]. simpl negb. cbv iota.
  rewrite claim_loop_only, (filter_key id _ (mk_keys _ _ Hok)).
  destruct (odict_get id (mo_events o)) as [e|] eqn:Hget.
  2:{ exists o, []. simpl. assert (Hv : memory_view o id = None) by (unfold memory_view; by rewrite Hget). by rewrite Hv. }
  pose proof (odict_get_in _ _ _ Hget) as Hin. destruct (mk_events _ _ Hok _ _ Hin) as (_ & Ht & _).
  destruct (memory_entry tenant o id e Hok Hin) as [n Hn].
  assert (Hv : memory_view o id = Some (Held e n (mo_tokens o !! id))) by (unfold memory_view; by rewrite Hget; simpl; rewrite Hn).
  rewrite Hv. cbn [memory_claim_loop]. rewrite bool_decide_eq_true_2, Hn by done. simpl negb. cbv iota.
  cbn [orb hd_entry]. destruct (due now n); simpl; [|exists o, []; done].
  eexists _, _. split; [done|]. split_and!.
  - split; simpl; [apply Hok|apply Hok|]. intros k. rewrite <-(mk_state _ _ Hok), lookup_insert_is_Some.
    destruct (decide (id = k)) as [<-|]; [|naive_solver]. rewrite Hn. naive_solver.
  - intros id' Hne. unfold memory_view. simpl. by rewrite !lookup_insert_ne.
  - done.
  - unfold memory_view. simpl. by rewrite Hget; simpl; rewrite !lookup_insert_eq.
Qed.
End memory.

(** ** The SQLite queue *)
Section sqlite.
Context (same_payload : FactEvent -> FactEvent -> bool) (lease : Z) (tenant : string) (isoformat : Z -> string).
#[local] Instance table : FactMaterializationOutbox SQLiteOutbox := sqlite_outbox same_payload lease isoformat.

Lemma claimable_only o id now :
  sqlite_ok tenant o ->
  NoDup (row_id <$> claimable o (Some id) now) /\
  forall r, r ∈ claimable o (Some id) now <-> r ∈ sq_rows o /\ row_id r = id /\ due now (tr_entry r) = true.
Proof.
  intros Hok. destruct (claimable_spec tenant o now Hok) as [Hnd Hin].
  assert (Heq : claimable o (Some id) now = filter (fun r => row_id r = id) (claimable o None now)).
  { unfold claimable. generalize (tenant_rows (sq_tenant o) (sq_rows o)). intros rows.
    rewrite !list_filter_filter. apply list_filter_iff. intros r. simpl. rewrite bool_decide_eq_true. tauto. }
  rewrite Heq. split.
  - eapply sublist_NoDup; [exact Hnd|]. apply fmap_sublist, sublist_filter.
  - intros r. rewrite list_elem_of_filter, Hin. tauto.
Qed.

(** At most the event's own row. *)
Lemma claimable_one o id now :
  sqlite_ok tenant o ->
  ((forall r, r ∈ sq_rows o -> row_id r = id -> due now (tr_entry r) = false) /\ claimable o (Some id) now = []) \/
  exists r, r ∈ sq_rows o /\ row_id r = id /\ due now (tr_entry r) = true /\ claimable o (Some id) now = [r].
Proof.
  intros Hok. destruct (claimable_only o id now Hok) as [Hnd Hin].
  destruct (claimable o (Some id) now) as [|r [|r' rest]].
  - left. split; [|done]. intros r Hr Hid. apply not_true_iff_false. intros Hd.
    apply (not_elem_of_nil r). by apply Hin.
  - right. exists r. destruct (proj1 (Hin r)) as (? & ? & ?); [by left|]. done.
  - exfalso. destruct (proj1 (Hin r)) as (_ & Hr & _); [by left|].
    destruct (proj1 (Hin r')) as (_ & Hr' & _); [right; by left|]. csimpl in Hnd. apply NoDup_cons_1_1 in Hnd.
    apply Hnd. rewrite Hr, Hr'. by left.
Qed.

Lemma filter_tenant id t (rows : list table_row) :
  (forall r, r ∈ rows -> tenant_id (tr_event r) = t) ->
  filter (fun r => row_id r = id /\ tenant_id (tr_event r) = t) rows = filter (fun r => row_id r = id) rows.
Proof.
  induction rows as [|r rows IH]; intros Hall; [done|]. rewrite !filter_cons, IH by (intros; apply Hall; by right).
  apply decide_ext. specialize (Hall r ltac:(by left)). tauto.
Qed.

Lemma sqlite_delivery : DeliveryLaws lease tenant (sqlite_ok tenant) sqlite_view.
Proof.
  split.
  2:{ intros o id h Hok (r & Hr & Hid & ->)%(sqlite_view_some lease tenant isoformat _ _ _ Hok).
      unfold ob_status, sqlite_outbox_status, sqlite_status. rewrite filter_tenant.
      - by rewrite (proj2 (find_row lease isoformat (sq_rows o) id r (sk_ids _ _ Hok)) (conj Hr Hid)).
      - intros x Hx. rewrite (sk_tenant _ _ Hok). by destruct (sk_rows _ _ Hok x Hx). }
  intros o mint id now Hok. cbn [ob_claim table sqlite_outbox]. unfold sqlite_claim.
  rewrite (bool_decide_eq_true_2 (tenant = _)) by (by rewrite (sk_tenant _ _ Hok)). simpl negb. cbv iota. change (Z.to_nat 1) with 1.
  destruct (claimable_one o id now Hok) as [(Hno & ->)|(r & Hr & Hid & Hdue & ->)].
  - exists o, []. simpl. split_and!; [done..|]. destruct (sqlite_view o id) as [h|] eqn:Hv; [|done].
    apply (sqlite_view_some lease tenant isoformat _ _ _ Hok) in Hv as (r & Hr & Hid & ->). simpl. by rewrite (Hno r Hr Hid).
  - assert (Hv : sqlite_view o id = Some (held_row r)) by (apply (sqlite_view_some lease tenant isoformat _ _ _ Hok); by exists r).
    rewrite Hv. simpl hd_entry. rewrite Hdue. simpl take.
    destruct (claim_rows_spec lease tenant isoformat mint now o [] [r] Hok) as (o' & Hrun & Hok' & _ & Hrows').
    { apply NoDup_singleton. }
    { by intros x ->%list_elem_of_singleton. }
    assert (Hother : forall id' x, x ∈ sq_rows o -> row_id x = id' -> sqlite_view o' id' = Some (held_row (claim_into lease mint now [row_id r] x))).
    { intros id' x Hx Hidx. apply (sqlite_view_some lease tenant isoformat _ _ _ Hok'). eexists; split_and!; [|idtac|done].
      - rewrite Hrows'. apply list_elem_of_fmap. by exists x.
      - unfold claim_into. by case_decide. }
    exists o', [with_lease (tr_event r) (Some (mint id))]. rewrite Hrun. simpl. rewrite Hid. split_and!; [done|done| |done|].
    + intros id' Hne. destruct (sqlite_view o id') as [h|] eqn:Hv'.
      * apply (sqlite_view_some lease tenant isoformat _ _ _ Hok) in Hv' as (x & Hx & Hidx & ->).
        rewrite (Hother id' x Hx Hidx). unfold claim_into. rewrite decide_False; [done|].
        rewrite list_elem_of_singleton. congruence.
      * destruct (sqlite_view o' id') as [h|] eqn:Hv2; [|done]. exfalso.
        apply (sqlite_view_some lease tenant isoformat _ _ _ Hok') in Hv2 as (x & Hx & Hidx & _).
        rewrite Hrows' in Hx. apply list_elem_of_fmap in Hx as (y & -> & Hy).
        assert (sqlite_view o id' = Some (held_row y)); [|congruence].
        apply (sqlite_view_some lease tenant isoformat _ _ _ Hok). exists y. split_and!; [done| |done].
        rewrite <-Hidx. unfold claim_into. by case_decide.
    + rewrite (Hother id r Hr Hid). unfold claim_into. rewrite decide_True by (by left). by rewrite Hid.
Qed.
End sqlite.

(** ** The controller's answers *)
Section delivery.
Context (json_text : value -> string) (sha256_hex : string -> string) (isoformat : Z -> string).
Context (utf8_length : string -> nat) (describe : exn -> string).
Context (same_payload : FactEvent -> FactEvent -> bool) (lease : Z).
Context {O : Type} `{FactMaterializationOutbox O, OutboxStatus O} (ok : O -> Prop) (view : O -> string -> option held).
Context (now : nat -> Z) (mint : nat -> string -> string) (c : Controller).
Context `{!OutboxLaws same_payload lease (ct_tenant c) ok view, !DeliveryLaws lease (ct_tenant c) ok view}.
Context (materialize : FactEvent -> result unit).
Context (Hmat : ct_materializer c = Some materialize) (Hbox : ct_has_outbox c = true).

#[local] Instance reference_ledger : FactLedger InMemoryFactLedger O := memory_ledger json_text sha256_hex isoformat O.

Abbreviation run := (apply_fact json_text sha256_hex isoformat utf8_length describe now mint c).
Abbreviation pass := (apply_pass json_text sha256_hex isoformat utf8_length describe now mint c).
Abbreviation judged := (judge_and_append json_text sha256_hex isoformat describe now mint c).
Abbreviation deliver := (delivered json_text sha256_hex isoformat describe now mint c).
Abbreviation state := (@controller_state InMemoryFactLedger O).

(** What delivering one event does to the queue, and what is answered. *)
Record honest (o o' : O) (e : FactEvent) (d : ControllerDecision) : Prop := {
  hn_ok : ok o';
  hn_answer : exists h', view o' (event_id e) = Some h' /\
    (cd_allowed d = true <-> en_status (hd_entry h') = Applied) /\
    (cd_allowed d = true -> (exists h, view o (event_id e) = Some h /\ en_status (hd_entry h) = Applied) \/
       exists token, materialize (with_lease (hd_event h') (Some token)) = Ok tt);
  hn_refusal : cd_allowed d = false -> cd_code d = MATERIALIZATION_UNAVAILABLE;
  hn_others : forall id, id <> event_id e -> view o' id = view o id
}.

Lemma answer_allowed rq r cards retried detail event :
  cd_allowed (decision json_text sha256_hex isoformat rq (answer_code r) cards retried detail event) = true.
Proof. unfold answer_code. simpl. by destruct (ar_duplicate r). Qed.

(** From the lease on. *)
Lemma deliver_leased_honest (s s' : state) o rq r cards retried token h d :
  let e := ar_event r in
  ok (cs_outbox s) -> (forall id, id <> event_id e -> view (cs_outbox s) id = view o id) ->
  view (cs_outbox s) (event_id e) = Some (Held (hd_event h) (claimed_entry lease token.2 (hd_entry h)) (Some token.1)) ->
  event_id (hd_event h) = event_id e ->
  deliver_leased json_text sha256_hex isoformat describe c materialize s rq r cards retried
    (with_lease (hd_event h) (Some token.1)) = (s', d) ->
  honest o (cs_outbox s') e d.
Proof.
  intros e Hok Hothers Hv Hid. unfold deliver_leased.
  destruct (ob_mark_held (cs_outbox s) (event_id e) _ token.1 Hok Hv eq_refl) as [Happ Hfail].
  destruct (materialize _) as [[]|ex] eqn:Hm.
  - rewrite with_lease_id, Hid. cbn [lease_token with_lease].
    destruct Happ as (o' & token' & -> & Hok' & Hv' & Hrest). intros [= <- <-]. split; cbn [cs_outbox set_outbox].
    + done.
    + eexists; split; [exact Hv'|]. split; [by rewrite answer_allowed|]. intros _. right. by exists token.1.
    + by rewrite answer_allowed.
    + intros id Hne. by rewrite Hrest, Hothers.
  - unfold give_back, undelivered. cbn [lease_token with_lease]. fold e.
    destruct (Hfail (error_text (describe ex))) as (o' & token' & -> & Hok' & Hv' & Hrest). intros [= <- <-].
    split; cbn [cs_outbox set_outbox fst].
    + done.
    + eexists; split; [exact Hv'|]. done.
    + done.
    + intros id Hne. by rewrite Hrest, Hothers.
Qed.

Lemma deliver_honest (s s' : state) rq r cards retried d :
  let e := ar_event r in
  ok (cs_outbox s) -> tenant_id e = ct_tenant c -> lease_token e = None ->
  (forall h, view (cs_outbox s) (event_id e) = Some h -> same_payload (hd_event h) e = true) ->
  deliver s rq r cards retried = (s', d) -> honest (cs_outbox s) (cs_outbox s') e d.
Proof.
  intros e Hok Ht Hl Hsame. unfold delivered. rewrite Hmat, Hbox. unfold deliver_queued. fold e.
  assert (Henq : exists o1 h1, ob_enqueue (cs_outbox s) e = (o1, Ok tt) /\ ok o1 /\ view o1 (event_id e) = Some h1 /\
            event_id (hd_event h1) = event_id e /\ (forall id, id <> event_id e -> view o1 id = view (cs_outbox s) id) /\
            (view (cs_outbox s) (event_id e) = Some h1 \/ due (reading now s) (hd_entry h1) = true)).
  { destruct (view (cs_outbox s) (event_id e)) as [h|] eqn:Hv.
    - destruct (ob_enqueue_again (cs_outbox s) e h Hok Ht Hv (Hsame h eq_refl)) as (o1 & -> & Hok1 & Hv1).
      exists o1, h. rewrite Hv1. destruct (ob_view_id (cs_outbox s) (event_id e) h Hok Hv) as [? _].
      split_and!; try done. by left.
    - destruct (ob_enqueue_new (cs_outbox s) e Hok Ht Hl Hv) as (o1 & token' & -> & Hok1 & Hv1 & Hrest).
      exists o1, (Held e (Entry Pending 0 None None) token'). split_and!; try done. by right. }
  destruct Henq as (o1 & h1 & -> & Hok1 & Hv1 & Hid1 & Hrest1 & Hbefore).
  destruct (dl_claim_one o1 (mint (cs_ticks s)) (event_id e) (reading now s) Hok1) as (o2 & events & -> & Hok2 & Hrest2 & Hone).
  rewrite Hv1 in Hone. destruct (due (reading now s) (hd_entry h1)) eqn:Hdue; destruct Hone as [-> Hv2].
  - apply (deliver_leased_honest _ _ _ _ _ _ _ (mint (cs_ticks s) (event_id e), reading now s) h1); try done.
    intros id Hne. cbn [cs_outbox tick set_outbox]. by rewrite Hrest2, Hrest1.
  - destruct Hbefore as [Hbefore|]; [|done]. rewrite (dl_status o2 _ _ Hok2 Hv2). intros Hd.
    assert (Hs' : cs_outbox s' = o2) by (by destruct (en_status (hd_entry h1)); injection Hd as <- <-).
    rewrite Hs'. split; [done| | |intros id Hne; by rewrite Hrest2, Hrest1].
    + exists h1. split; [done|].
      destruct (en_status (hd_entry h1)) eqn:Hst; injection Hd as <- <-; rewrite ?answer_allowed; try (by split).
      split; [done|]. intros _. left. by exists h1.
    + destruct (en_status (hd_entry h1)); injection Hd as <- <-; by rewrite ?answer_allowed.
Qed.
(** ** Every allowed answer comes from a delivery *)

Definition delivers (s s' : state) (rq : FactApplicationRequest) (d : ControllerDecision) : Prop :=
  cd_allowed d = true -> exists s1 r cards retried,
    cs_outbox s1 = cs_outbox s /\ deliver s1 rq r cards retried = (s', d).

Lemma refusal_delivers (s0 s s' : state) rq code cards retried detail d :
  allowed_code code = false -> record_refusal json_text sha256_hex isoformat now c s rq code cards retried detail = (s', d) ->
  delivers s0 s' rq d.
Proof.
  intros Hcode. unfold record_refusal, fl_record. simpl. destruct (record_decision _ _ _ _ _ _ _ _ _ _ _ _).
  intros [= <- <-] Ha. simpl in Ha. congruence.
Qed.

Lemma append_outbox h (s s' : state) rq cards supersedes instant r :
  append json_text sha256_hex isoformat c h s rq cards supersedes instant = (s', r) -> cs_outbox s' = cs_outbox s.
Proof.
  unfold append, fl_apply_with_outbox, fl_apply. simpl. destruct (apply_assertion _ _ _ _ _ _) as [[l p] r0].
  by intros [= <- <-].
Qed.

Lemma judged_delivers h (s s' : state) rq cards retried instant d :
  judged h s rq cards retried instant = (s', Ok d) -> delivers s s' rq d.
Proof.
  unfold judge_and_append. destruct (in_force_against c h (cs_ledger s) (rq_claim rq) instant) as [fs|ex].
  2:{ destruct (record_refusal _ _ _ _ _ _ _ _ _ _) as [s1 d1] eqn:Hr. intros [= <- <-].
      eapply refusal_delivers; [|exact Hr]. done. }
  destruct (unsettled _ _ _ _ _ _) as [[|x xs]|ex]; [|destruct (record_refusal _ _ _ _ _ _ _ _ _ _) as [s1 d1] eqn:Hr;
    intros [= <- <-]; eapply refusal_delivers; [|exact Hr]; done|done].
  destruct (append _ _ _ _ _ _ _ _ _ _) as [s1 r1] eqn:Happ. destruct r1 as [answer|ex].
  - destruct (deliver s1 rq answer cards retried) as [s2 d2] eqn:Hd. intros [= <- <-] _.
    exists s1, answer, cards, retried. split; [by eapply append_outbox|done].
  - destruct (append_applied _ _ _ _ _ _ _ _ _ _ _ _ Happ) as [permit' Ha].
    destruct ex as [message| | | | | |];
      destruct (record_refusal _ _ _ _ _ _ _ _ _ _) as [s2 d2] eqn:Hr; intros [= <- <-];
      (eapply refusal_delivers; [|exact Hr]);
      lazymatch goal with
      | |- allowed_code (decision_code_of _) = _ => by eapply apply_refusal_code
      | _ => reflexivity
      end.
Qed.

Lemma pass_delivers h (s s' : state) rq fresh r :
  pass h s rq fresh = (s', r) ->
  (r = Ok None -> cs_outbox s' = cs_outbox s) /\ forall d, r = Ok (Some d) -> delivers s s' rq d.
Proof.
  unfold apply_pass, fl_request_event. simpl.
  assert (Hno : forall code cards detail event, allowed_code code = false ->
            delivers s s rq (decision json_text sha256_hex isoformat rq code cards false detail event))
    by (intros code cards detail event Hcode Ha; simpl in Ha; congruence).
  destruct (reserved_request_id (rq_request_id rq)); [intros [= <- <-]; split; [done|]; intros d [= <-]; by apply Hno|].
  set (judge := match pass_cards _ _ _ _ _ _ _ _ _ with Ok _ => _ | Raise _ => _ end).
  assert (Hjudge : judge = (s', r) ->
    (r = Ok None -> cs_outbox s' = cs_outbox s) /\ forall d, r = Ok (Some d) -> delivers s s' rq d).
  { unfold judge. destruct (pass_cards _ _ _ _ _ _ _ _ _) as [[[code|]|cards]|ex] eqn:Hp.
    - destruct (record_refusal _ _ _ _ _ _ _ _ _ _) as [s1 d] eqn:Hr. intros [= <- <-]. split; [done|].
      intros d' [= <-]. apply pass_cards_code in Hp. by eapply refusal_delivers.
    - by intros [= <- <-].
    - destruct (judge_and_append _ _ _ _ _ _ _ _ _ _ _ _ _) as [s1 r1] eqn:Hj. intros [= <- <-].
      split; [by destruct r1|]. intros d Hd. destruct r1 as [d1|]; [|done]. injection Hd as <-.
      exact (judged_delivers _ _ _ _ _ _ _ _ Hj).
    - by intros [= <- <-]. }
  clearbody judge. unfold request_event.
  destruct (lg_by_request (cs_ledger s) !! _) as [prior|]; [|done]. case_decide; [|done].
  destruct (negb (forallb _ _)); [intros [= <- <-]; split; [done|]; intros d [= <-]; by apply Hno|].
  destruct (negb (bool_decide _)); [intros [= <- <-]; split; [done|]; intros d [= <-]; by apply Hno|].
  destruct (allowed_code (decision_code prior)) eqn:Hcode; simpl.
  2:{ intros [= <- <-]. split; [done|]. intros d [= <-]. by apply Hno. }
  destruct (_ && _); [|done]. destruct (deliver s rq _ _ false) as [s1 d1] eqn:Hd. intros [= <- <-].
  split; [done|]. intros d [= <-] _. by eexists s, _, _, _.
Qed.

Lemma run_delivers first second (s s' : state) rq d :
  run first second s rq = (s', Ok d) -> delivers s s' rq d.
Proof.
  unfold apply_fact. destruct (pass first s rq None) as [s1 r1] eqn:H1.
  destruct (pass_delivers _ _ _ _ _ _ H1) as [Hnone Hsome].
  destruct r1 as [[d1|]|ex]; [intros [= <- <-]; by apply Hsome| |done]. specialize (Hnone eq_refl).
  destruct (ct_fresh_search c) as [search|]; [|done]. destruct (search (rq_claim rq) rq) as [[|id ids]|ex].
  - destruct (record_refusal _ _ _ _ _ _ _ _ _ _) as [s2 d2] eqn:Hr. intros [= <- <-]. eapply refusal_delivers; [|exact Hr]. done.
  - destruct (pass second s1 rq (Some (id :: ids))) as [s2 r2] eqn:H2.
    destruct (pass_delivers _ _ _ _ _ _ H2) as [_ Hsome2]. destruct r2 as [[d2|]|ex]; [|done..].
    intros [= <- <-]. unfold delivers. rewrite <-Hnone. by apply Hsome2.
  - destruct (record_refusal _ _ _ _ _ _ _ _ _ _) as [s2 d2] eqn:Hr. intros [= <- <-]. eapply refusal_delivers; [|exact Hr]. done.
Qed.

(** C16: an allowed answer was delivered.  With a materializer and any queue that keeps the
    protocol, when the controller answers that a fact is applied (or was already), the
    event it names is marked applied in the queue, every other entry is as it was, and the
    event had been applied before or the materializer has just accepted it: an
    application that could not be delivered, or that another worker is delivering, is never
    reported as done. *)
Theorem allowed_answer_delivered first second (s s' : state) rq d
    (Hok : ledger_ok json_text sha256_hex isoformat (cs_ledger s)) (Hoks : ok (cs_outbox s))
    (Hsame : forall e h, e ∈ lg_events (cs_ledger s') -> view (cs_outbox s) (event_id e) = Some h ->
       same_payload (hd_event h) e = true)
    (Hrun : run first second s rq = (s', Ok d)) (Hallowed : cd_allowed d = true) :
  exists e h, cd_event d = Some e /\ ok (cs_outbox s') /\ view (cs_outbox s') (event_id e) = Some h /\
    en_status (hd_entry h) = Applied /\
    ((exists h0, view (cs_outbox s) (event_id e) = Some h0 /\ en_status (hd_entry h0) = Applied) \/
     exists token, materialize (with_lease (hd_event h) (Some token)) = Ok tt) /\
    forall id, id <> event_id e -> view (cs_outbox s') id = view (cs_outbox s) id.
Proof.
  destruct (run_mediated _ _ _ _ _ _ _ _ _ _ _ _ _ _ Hrun) as (h & ids & _ & Hmed).
  destruct (mediated_ok _ _ _ _ _ _ _ _ _ _ Hok Hmed) as [Hok' _].
  destruct (mediated_answer _ _ _ _ _ _ _ _ _ _ Hok Hmed Hallowed) as (e & Hev & Hin & Ht & _).
  destruct (run_delivers _ _ _ _ _ _ Hrun Hallowed) as (s1 & r & cards & retried & Hbox1 & Hd).
  destruct (delivered_ledger _ _ _ _ _ _ _ _ _ _ _ _ _ _ Hd) as [_ Hev']. rewrite Hev in Hev'. injection Hev' as ->.
  rewrite <-Hbox1 in *.
  destruct (deliver_honest _ _ _ _ _ _ _ Hoks Ht (eo_lease _ _ _ _ _ (lo_events _ _ _ _ Hok' _ Hin)) (fun h => Hsame _ h Hin) Hd)
    as [Hoks' (h' & Hv' & Happ & Hdone) _ Hothers].
  exists (ar_event r), h'. split_and!; try done; [by apply Happ|by apply Hdone].
Qed.
End delivery.

Definition demo_final := (demo_run 5 ["card-1"]).1.

Lemma demo_empty_ok : memory_ok "t" (Memory [] ∅ ∅).
Proof.
  split; simpl; [constructor|by intros k e ?%not_elem_of_nil|].
  intros k. rewrite lookup_empty, elem_of_nil. split; [by intros []|done].
Qed.

(** Paris was applied, and its entry says so. *)
Lemma allowed_answer_delivered_witness :
  exists e h, memory_view (cs_outbox demo_final) (event_id e) = Some h /\ en_status (hd_entry h) = Applied.
Proof.
  pose proof (memory_laws demo_same 300 "t" ltac:(done)) as Hlaws.
  pose proof (memory_delivery demo_same 300 "t" ltac:(done)) as Hdelivery.
  destruct (demo_run 5 ["card-1"]).2 as [d|ex] eqn:Hr; [|vm_compute in Hr; discriminate Hr].
  destruct (@allowed_answer_delivered demo_json demo_digest demo_iso String.length exn_name demo_same 300 MemoryOutbox
    (memory_outbox demo_same 300) memory_outbox_status (memory_ok "t") memory_view (fun _ => 5%Z)
    (fun _ id => "token-" +:+ id) demo_controller Hlaws Hdelivery (fun _ => Ok tt) eq_refl eq_refl demo_hooks demo_hooks
    demo_start demo_final (demo_claim ["card-1"]) d) as (e & h & _ & _ & Hv & Hst & _).
  - apply new_ledger_ok.
  - exact demo_empty_ok.
  - intros e h _ Hv. discriminate Hv.
  - rewrite <-Hr. exact (surjective_pairing (demo_run 5 ["card-1"])).
  - vm_compute in Hr. injection Hr as <-. reflexivity.
  - exists e, h. split; [exact Hv|exact Hst].
Defined.
