(* ===== verification/FactListing.v ===== *)
(** * FactListing: what a current-facts listing shows (src/recall/provenance_controller.py)

    The live cards behind each fact, the one listing rule both surfaces share, and the split
    of the current facts into those that stand alone and the groups that disagree. *)
From S2P Require Import Prelude Text Float64 Frontmatter References Intervals FactEvents SegmentTree SuccessorIndex FactProjection FactProjectionFacts Outbox FactLedger FactLedgerFacts LedgerConsistency ProvenanceController.

Local Open Scope recall_scope.

(** [live_cards] and [live_sources]. *)
Definition live_cards (events : list FactEvent) (served : option ServedState) (now : option Z) :
    list (string * list EvidenceCard) :=
  let cards := assertion_cards events None in
  match served with
  | None => cards
  | Some s =>
      let names := list_to_set (cards.*2 ≫= fun group => ec_source <$> group) in
      (fun p => (p.1, filter (fun card => card_liveness s names now card = true) p.2)) <$> cards
  end.

Definition source_names (cards : list EvidenceCard) : list string := sorted_set (ec_source <$> cards).

Definition live_sources (events : list FactEvent) (served : option ServedState) (now : option Z) :
    list (string * list string) :=
  (fun p => (p.1, source_names p.2)) <$> live_cards events served now.

(** [current_fact_listing]: one snapshot for the facts and for what cites them. *)
Definition current_fact_listing {L O} `{FactLedger L O}
    (current_view : option (L -> string -> Z -> option ServedState -> result (list FactEvent * list FactEvent)))
    (l : L) (tenant : string) (now : Z) (served : option ServedState) :
    result (list FactEvent * list (string * list EvidenceCard)) :=
  '(events, history) ←
    (match current_view with
     | Some view => view l tenant now served
     | None =>
         match fl_events with
         | Some recorded =>
             let history := filter (fun e => tenant_id e = tenant) (recorded l) in
             events ← project_current history now served; Ok (events, history)
         | None => events ← fl_current l tenant now served; Ok (events, events)
         end
     end);
  Ok (events, live_cards history served (Some now)).

Section listing.
Context (json_text : value -> string) (sha256_hex : string -> string) (isoformat : Z -> string).
#[local] Abbreviation conflict_key := (fact_conflict_key json_text sha256_hex).

(** ** [split_contested] *)

Definition push_key (by_key : list (string * list FactEvent)) (e : FactEvent) : list (string * list FactEvent) :=
  match ev_fact e with Some f => odict_push (conflict_key f) e by_key | None => by_key end.

Definition kind_of (e : FactEvent) : option FactCardinality := predicate_cardinality <$> ev_fact e.

(** A pair that is compared: not two values of one multi-valued cardinality. *)
Definition compared (left right : FactEvent) : bool :=
  negb (bool_decide (kind_of left = kind_of right) && negb (bool_decide (kind_of left = Some Single))).

Definition disagree (left right : FactEvent) : bool :=
  match ev_fact left, ev_fact right with Some f, Some g => facts_conflict json_text f g | _, _ => false end.

Fixpoint contested_pairs (group : list FactEvent) : list string :=
  match group with
  | [] => []
  | e :: rest =>
      (rest ≫= fun e' => if compared e e' && disagree e e' then [event_id e; event_id e'] else []) ++
      contested_pairs rest
  end.

Definition contested_of (group : list FactEvent) : list string :=
  let kinds := kind_of <$> group in
  if negb (bool_decide (Some Single ∈ kinds)) && bool_decide (length (remove_dups kinds) = 1) then []
  else contested_pairs group.

Definition split_contested (current : list FactEvent) : list FactEvent * list (list FactEvent) :=
  let by_key := foldl push_key [] current in
  let contested : gset string := list_to_set (by_key.*2 ≫= contested_of) in
  (filter (fun e => event_id e ∉ contested) current,
   filter (fun g => g <> []) ((fun group => filter (fun e => event_id e ∈ contested) group) <$> by_key.*2)).

(** ** [listing_payload] *)

Record listed_fact := Listed {
  li_event_id : string;
  li_fact_id : option string;
  li_fact : option value;
  li_card_ids : list string;
  li_generation : string;
  li_writer : string;
  li_asserted_at : string;
  li_sources : list string
}.

Record contested_value := ContestedValue {
  cv_fact : option value;
  cv_fact_id : option string;
  cv_sources : list string;
  cv_card_ids : list string
}.

Record contested_group := ContestedGroup {
  cg_fact : option AtomicFact;
  cg_values : list contested_value
}.

Definition listing_payload (events : list FactEvent) (evidence : list (string * list EvidenceCard))
    (allowed : option (string -> bool)) : list listed_fact * list contested_group :=
  let sources := (fun p => (p.1, match allowed with
                                 | None => source_names p.2
                                 | Some ok => filter (fun n => ok n = true) (source_names p.2)
                                 end)) <$> evidence in
  let names e := default [] sources.[default "" (fact_id e)] in
  let events := match allowed with None => events | Some _ => filter (fun e => names e <> []) events end in
  let card_ids e :=
    ec_card_id <$> filter (fun card => match allowed with None => true | Some _ => bool_decide (ec_source card ∈ names e) end = true)
                     (default [] evidence.[default "" (fact_id e)]) in
  let '(standing, contested) := split_contested events in
  ((fun e => Listed (event_id e) (fact_id e) (to_payload isoformat <$> ev_fact e) (card_ids e) (generation_id e)
               (writer e) (isoformat (created_at e)) (names e)) <$> standing,
   (fun group => ContestedGroup (head group ≫= ev_fact)
      ((fun e => ContestedValue (to_payload isoformat <$> ev_fact e) (fact_id e) (names e) (card_ids e)) <$> group)) <$>
     contested).
End listing.

Section listing_facts.
Context (json_text : value -> string) (sha256_hex : string -> string).
Abbreviation conflict_key := (fact_conflict_key json_text sha256_hex).
Abbreviation disagrees := (disagree json_text).

(** The text of a mapping is made of its keys and the texts of its values. *)
Definition json_congruent : Prop := forall l l' : list (string * value),
  l.*1 = l'.*1 -> (fun p => json_text p.2) <$> l = (fun p => json_text p.2) <$> l' ->
  json_text (VDict l) = json_text (VDict l').

(** ** Conflicts *)

Lemma windows_overlap_sym a b : windows_overlap a b = windows_overlap b a.
Proof. unfold windows_overlap. destruct (span a), (span b). by rewrite Z.max_comm, Z.min_comm. Qed.

Lemma facts_conflict_sym f g : facts_conflict json_text f g = facts_conflict json_text g f.
Proof.
  unfold facts_conflict, intervals_overlap. rewrite (windows_overlap_sym (Some (fact_window f))).
  apply (f_equal2 andb); [apply (f_equal2 andb)|done].
  - repeat (apply (f_equal2 andb) || apply (f_equal negb)); apply bool_decide_ext; split; congruence.
  - repeat case_bool_decide; simpl; congruence.
Qed.

Lemma disagree_sym a b : disagrees a b = disagrees b a.
Proof. unfold disagree. destruct (ev_fact a), (ev_fact b); try done. apply facts_conflict_sym. Qed.

Lemma disagree_self a : disagrees a a = false.
Proof. unfold disagree. destruct (ev_fact a); [apply facts_conflict_irrefl|done]. Qed.

(** Disagreeing values are always compared. *)
Lemma disagree_compared a b : disagrees a b = true -> compared a b = true.
Proof.
  unfold disagree, compared, kind_of. destruct (ev_fact a) as [f|], (ev_fact b) as [g|]; try done. simpl.
  unfold facts_conflict. intros Hc. split_bool.
  destruct (bool_decide_reflect (Some (predicate_cardinality f) = Some (predicate_cardinality g))) as [[= Hk]|]; [|done].
  rewrite Hk in *. rewrite (bool_decide_eq_true_2 (predicate_cardinality g = predicate_cardinality g)) in * by done.
  destruct (bool_decide_reflect (predicate_cardinality g = Single)) as [->|]; [done|]. done.
Qed.

(** Values that conflict have one conflict key. *)
Lemma facts_conflict_key f g : json_congruent -> facts_conflict json_text f g = true -> conflict_key f = conflict_key g.
Proof.
  intros Hj Hc. unfold facts_conflict in Hc. split_bool. unfold fact_conflict_key. do 3 f_equal. unfold canonical_json in *.
  set (payload := fun f => canonical (VDict [("namespace", VStr (af_namespace f)); ("subject", VStr (af_subject f));
    ("predicate", VStr (af_predicate f)); ("context", VDict (af_context f))])).
  assert (Hp : forall f, payload f = VDict [("context", canonical (VDict (af_context f))); ("namespace", VStr (nfc (af_namespace f)));
    ("predicate", VStr (nfc (af_predicate f))); ("subject", VStr (nfc (af_subject f)))]) by reflexivity.
  change (json_text (payload f) = json_text (payload g)). rewrite !Hp. clear Hp payload.
  match goal with H : json_text (canonical (VDict _)) = _ |- _ => revert H end.
  generalize (canonical (VDict (af_context f))), (canonical (VDict (af_context g))). intros cf cg Hctx.
  apply Hj; [done|]. rewrite !fmap_cons. simpl. congruence.
Qed.

(** ** The groups *)

Lemma push_keys_group current k :
  default [] (odict_get k (foldl (push_key json_text sha256_hex) [] current)) =
  filter (fun e => conflict_key <$> ev_fact e = Some k) current.
Proof.
  induction current as [|e current IH] using rev_ind; [done|]. rewrite foldl_app, filter_app, filter_cons, filter_nil. simpl.
  unfold push_key at 1. destruct (ev_fact e) as [f|]; simpl.
  - unfold odict_push. rewrite odict_get_set. destruct (decide (k = conflict_key f)) as [->|Hne].
    + by rewrite decide_True, IH.
    + rewrite decide_False by congruence. by rewrite app_nil_r.
  - by rewrite app_nil_r.
Qed.

Lemma push_keys_nodup current : NoDup (foldl (push_key json_text sha256_hex) [] current).*1.
Proof.
  induction current as [|e current IH] using rev_ind; [constructor|]. rewrite foldl_app. simpl. unfold push_key at 1.
  destruct (ev_fact e); [by apply odict_push_nodup|done].
Qed.

(** A group is the values of one key, in order. *)
Lemma elem_of_groups current group :
  group ∈ (foldl (push_key json_text sha256_hex) [] current).*2 ->
  exists k, group = filter (fun e => conflict_key <$> ev_fact e = Some k) current.
Proof.
  intros ([k g] & -> & Hin)%list_elem_of_fmap. exists k. rewrite <-push_keys_group. simpl.
  apply (odict_get_some k g _ (push_keys_nodup current)) in Hin. by rewrite Hin.
Qed.

Lemma group_of_key current e f :
  e ∈ current -> ev_fact e = Some f ->
  filter (fun x => conflict_key <$> ev_fact x = Some (conflict_key f)) current ∈ (foldl (push_key json_text sha256_hex) [] current).*2.
Proof.
  intros He Hf. rewrite <-push_keys_group.
  assert (Hin : e ∈ default [] (odict_get (conflict_key f) (foldl (push_key json_text sha256_hex) [] current))).
  { rewrite push_keys_group. apply list_elem_of_filter. by rewrite Hf. }
  destruct (odict_get _ _) as [g|] eqn:Hg; [|by apply not_elem_of_nil in Hin]. simpl.
  apply list_elem_of_fmap. exists (conflict_key f, g). split; [done|]. by apply odict_get_in.
Qed.

(** ** Who is contested *)

Lemma elem_of_contested_pairs group i :
  i ∈ contested_pairs json_text group <->
  exists e e', e ∈ group /\ e' ∈ group /\ disagrees e e' = true /\ i = event_id e.
Proof.
  induction group as [|x rest IH]; simpl; [rewrite elem_of_nil; split; [done|by intros (? & ? & ?%not_elem_of_nil & _)]|].
  rewrite elem_of_app, IH, list_elem_of_bind. split.
  - intros [(y & Hi & Hy)|(e & e' & ? & ? & ? & ->)]; [|exists e, e'; split_and!; [by right|by right|done..]].
    destruct (disagrees x y) eqn:Hd; [|rewrite andb_false_r in Hi; by apply not_elem_of_nil in Hi].
    rewrite disagree_compared in Hi by done. simpl in Hi. membership.
    destruct Hi as [->|[->|[]]]; [exists x, y|exists y, x]; split_and!; auto using list_elem_of_here.
    all: try (by left); try (by right); try done. by rewrite disagree_sym.
  - intros (e & e' & He & He' & Hd & ->). apply elem_of_cons in He as [->|He], He' as [->|He'].
    + by rewrite disagree_self in Hd.
    + left. exists e'. rewrite Hd, disagree_compared by done. simpl. split; [by left|done].
    + left. exists e. rewrite disagree_sym in Hd. rewrite Hd, disagree_compared by done. simpl. split; [right; by left|done].
    + right. by exists e, e'.
Qed.

(** The groups that are skipped hold no disagreement. *)
Lemma skipped_agree group e e' :
  negb (bool_decide (Some Single ∈ kind_of <$> group)) && bool_decide (length (remove_dups (kind_of <$> group)) = 1) = true ->
  e ∈ group -> e' ∈ group -> disagrees e e' = false.
Proof.
  intros Hskip He He'. split_bool.
  assert (Hk : forall x, x ∈ group -> kind_of x <> Some Single).
  { intros x Hx Hs. match goal with H : _ ∉ _ |- _ => apply H end. rewrite <-Hs. by apply list_elem_of_fmap_2. }
  destruct (remove_dups (kind_of <$> group)) as [|kind [|]] eqn:Hd; try done.
  assert (Hall : forall x, x ∈ group -> kind_of x = kind).
  { intros x Hx. apply list_elem_of_singleton. rewrite <-Hd, elem_of_remove_dups. by apply list_elem_of_fmap_2. }
  destruct (disagrees e e') eqn:Hdis; [|done]. apply disagree_compared in Hdis. unfold compared in Hdis.
  rewrite (Hall e He), (Hall e' He'), (bool_decide_eq_true_2 (kind = kind)) in Hdis by done. simpl in Hdis.
  specialize (Hk e He). rewrite (Hall e He) in Hk. by case_bool_decide.
Qed.

Lemma elem_of_contested_of group i :
  i ∈ contested_of json_text group <->
  exists e e', e ∈ group /\ e' ∈ group /\ disagrees e e' = true /\ i = event_id e.
Proof.
  unfold contested_of. destruct (_ && _) eqn:Hskip; [|apply elem_of_contested_pairs].
  split; [by intros ?%not_elem_of_nil|]. intros (e & e' & He & He' & Hd & _). by rewrite (skipped_agree group e e' Hskip He He') in Hd.
Qed.

(** What disagrees with something current. *)
Definition disputed (current : list FactEvent) (e : FactEvent) : Prop :=
  exists e', e' ∈ current /\ disagrees e e' = true.

Lemma contested_ids current i :
  json_congruent ->
  i ∈ ((foldl (push_key json_text sha256_hex) [] current).*2 ≫= contested_of json_text) <->
  exists e, e ∈ current /\ disputed current e /\ i = event_id e.
Proof.
  intros Hj. rewrite list_elem_of_bind. split.
  - intros (group & (e & e' & He & He' & Hd & ->)%elem_of_contested_of & (k & ->)%elem_of_groups).
    apply list_elem_of_filter in He as [_ He], He' as [_ He']. exists e. split; [done|]. split; [by exists e'|done].
  - intros (e & He & (e' & He' & Hd) & ->). assert (Hd' := Hd). unfold disagree in Hd'.
    destruct (ev_fact e) as [f|] eqn:Hf; [|done]. destruct (ev_fact e') as [g|] eqn:Hg; [|done].
    eexists. split; [|exact (group_of_key current e f He Hf)]. apply elem_of_contested_of. exists e, e'.
    rewrite !list_elem_of_filter, Hf, Hg. simpl. by rewrite (facts_conflict_key f g Hj Hd').
Qed.

Lemma contested_id current e :
  json_congruent -> NoDup (event_id <$> current) -> e ∈ current ->
  event_id e ∈ (list_to_set ((foldl (push_key json_text sha256_hex) [] current).*2 ≫= contested_of json_text) : gset string) <->
  disputed current e.
Proof.
  intros Hj Hnd He. rewrite elem_of_list_to_set, (contested_ids current _ Hj). split; [|by intros ?; exists e].
  intros (e' & He' & Hd & Hid). by rewrite (NoDup_fmap_inj event_id current e e' Hnd He He' Hid).
Qed.

(** C22: the listing splits the current facts: a fact stands exactly when no current fact disagrees
    with it (same namespace, subject, predicate and context, another object, overlapping windows,
    cardinality single or different); every other one is in a group, and the groups are the
    disputed facts of one conflict key each, none left out. The shortcut that skips a key whose
    values all have one multi-valued cardinality loses nothing. *)
Theorem contested_exact current :
  json_congruent -> NoDup (event_id <$> current) ->
  let '(standing, groups) := split_contested json_text sha256_hex current in
  (forall e, e ∈ standing <-> e ∈ current /\ ~ disputed current e) /\
  (forall e, e ∈ mjoin groups <-> e ∈ current /\ disputed current e) /\
  (forall group, group ∈ groups -> group <> [] /\ exists k, forall e,
     e ∈ group <-> e ∈ current /\ disputed current e /\ conflict_key <$> ev_fact e = Some k).
Proof.
  intros Hj Hnd. unfold split_contested.
  assert (Hid := fun e => contested_id current e Hj Hnd). set (contested := list_to_set _ : gset string) in *.
  assert (Hgroup : forall group, group ∈ (foldl (push_key json_text sha256_hex) [] current).*2 -> exists k, forall e,
    e ∈ filter (fun e => event_id e ∈ contested) group <->
    e ∈ current /\ disputed current e /\ conflict_key <$> ev_fact e = Some k).
  { intros group (k & ->)%elem_of_groups. exists k. intros e. rewrite !list_elem_of_filter.
    split; [intros (Hc & Hk & He)|intros (He & Hd & Hk)]; (split_and!; [by apply Hid|done..]) || (split_and!; [done|by apply Hid|done]). }
  split_and!.
  - intros e. rewrite list_elem_of_filter. split; intros [? ?]; by rewrite Hid in *.
  - intros e. rewrite list_elem_of_join. split.
    + intros (group & He & [_ (all & -> & Hall)%list_elem_of_fmap]%list_elem_of_filter).
      destruct (Hgroup all Hall) as [k Hk]. by apply Hk in He as (? & ? & _).
    + intros [He Hd]. assert (Hf : exists f, ev_fact e = Some f).
      { destruct Hd as (e' & _ & Hd). unfold disagree in Hd. destruct (ev_fact e) as [f|]; [by exists f|done]. }
      destruct Hf as [f Hf]. assert (Hin := group_of_key current e f He Hf).
      assert (Hmem : e ∈ filter (fun e => event_id e ∈ contested)
        (filter (fun x => conflict_key <$> ev_fact x = Some (conflict_key f)) current)).
      { rewrite !list_elem_of_filter, Hf. split_and!; [by apply Hid|done..]. }
      eexists. split; [exact Hmem|]. apply list_elem_of_filter. split; [|by apply list_elem_of_fmap_2].
      intros Hnil. rewrite Hnil in Hmem. by apply not_elem_of_nil in Hmem.
  - intros group [Hne (all & -> & Hall)%list_elem_of_fmap]%list_elem_of_filter. split; [done|]. by apply Hgroup.
Qed.
End listing_facts.

(** ** Two memos disagree, a third fact stands *)

Lemma demo_json_congruent : json_congruent demo_json.
Proof.
  intros l l' _. cbn [demo_json]. revert l'. induction l as [|[k v] l IH]; intros [|[k' v'] l']; try done.
  rewrite !fmap_cons. intros [= Hv Hl]. cbn [foldr snd]. by rewrite Hv, (IH l' Hl).
Qed.

Definition demo_current : list FactEvent :=
  [demo_paris;
   demo_event "e2" Asserted (Some (demo_fact "Rome" (Some 10%Z, Some 30%Z))) (Some "f2") [] "r2" 2;
   demo_event "e3" Asserted (Some {| af_namespace := "n"; af_subject := "bob"; af_predicate := "lives_in"; af_object := VStr "Oslo";
     af_cardinality := None; af_valid_from := None; af_valid_until := None; af_context := [] |}) (Some "f3") [] "r3" 3].

Definition split_ids (s : list FactEvent * list (list FactEvent)) : list string * list (list string) :=
  (map event_id s.1, map (map event_id) s.2).

Example demo_contested : split_ids (split_contested demo_json demo_digest demo_current) = (["e3"], [["e1"; "e2"]]).
Proof. vm_compute. reflexivity. Qed.

Lemma demo_current_ids : NoDup (event_id <$> demo_current).
Proof. apply (bool_decide_unpack _). vm_compute. exact I. Qed.

Lemma contested_exact_witness : demo_paris ∈ mjoin (split_contested demo_json demo_digest demo_current).2.
Proof.
  assert (Hex := contested_exact demo_json demo_digest demo_current demo_json_congruent demo_current_ids).
  destruct (split_contested demo_json demo_digest demo_current) as [standing groups].
  destruct Hex as (_ & Hgroups & _). apply Hgroups. split; [left|].
  eexists. split; [eapply list_elem_of_lookup_2 with (i := 1); reflexivity|vm_compute; reflexivity].
Defined.
