(* ===== verification/Anchors.v ===== *)
(** * Anchors: the key that joins a record to the code it describes (src/recall/anchors.py)

    A file of Python as [ast.parse] gives it back, the symbols found in it and their hashes.
    [parse] is the interpreter's parser, [None] when it refuses the text, and [sha256_hex] the
    digest of a text's UTF-8 bytes: both are arguments. Texts hold no byte order mark, whose code
    point is above those modelled. *)
From stdpp Require Import pretty.
From S2P Require Import Prelude Text FrontmatterBlock FrontmatterWriters.

Local Open Scope nat_scope.

(** ["\n".join(lines)]. *)
Fixpoint join_lines (lines : list (list ascii)) : list ascii :=
  match lines with
  | [] => []
  | [l] => l
  | l :: lines' => l ++ LF :: join_lines lines'
  end.

(** [line.rstrip()]. *)
Definition rstrip_chars (l : list ascii) : list ascii := reverse (drop_while is_space (reverse l)).

(** [normalize(text)], and its lines. *)
Definition normal_lines (text : string) : list (list ascii) := map rstrip_chars (split_chars LF (chars (universal_newlines text))).

Definition normalize (text : string) : string := unchars (join_lines (normal_lines text)).

(** [SymbolSpan]: the lines are counted from 1, both ends included. *)
Record SymbolSpan := { symbol : string; start_line : nat; end_line : nat }.

(** ** The syntax tree *)

(** A statement of [ast]: a function or class, with its decorators' lines, or any other, by the
    statement lists [_statement_bodies] reads off it. *)
Inductive stmt :=
| Def (name : string) (lineno end_lineno : nat) (decorators : list nat) (body : list stmt)
| Other (bodies : list (list stmt)).

(** The lines of a definition, its first decorator included. *)
Definition first_line (lineno : nat) (decorators : list nat) : nat := foldl Nat.min lineno decorators.

(** A name met for the [n]-th time. *)
Definition label (dotted : string) (n : nat) : string := if n =? 1 then dotted else dotted +:+ "#" +:+ pretty n.

(** The spans found so far, and how often each dotted name was met. *)
Definition visited : Type := list SymbolSpan * list (string * nat).

Definition found (dotted : string) (first last : nat) (st : visited) : visited :=
  let n := S (default 0 (odict_get dotted st.2)) in
  (st.1 ++ [{| symbol := label dotted n; start_line := first; end_line := last |}], odict_set dotted n st.2).

(** [visit]. *)
Fixpoint visit (prefix : string) (s : stmt) (st : visited) : visited :=
  match s with
  | Def name lineno end_lineno decorators body =>
      let dotted := prefix +:+ name in
      foldl (fun st s => visit (dotted +:+ ".") s st) (found dotted (first_line lineno decorators) end_lineno st) body
  | Other bodies => foldl (fun st body => foldl (fun st s => visit prefix s st) st body) st bodies
  end.

Definition visit_body (prefix : string) (body : list stmt) (st : visited) : visited := foldl (fun st s => visit prefix s st) st body.

Section anchors.
Context (parse : string -> option (list stmt)) (sha256_hex : string -> string).

(** [code_sha]. *)
Definition code_sha (text : string) : string := sha256_hex (normalize text).

(** [resolve_symbols]: [None] when the text does not parse. *)
Definition resolve_symbols (source : string) : option (list SymbolSpan) :=
  body ← parse (normalize source);
  Some (visit_body "" body ([], [])).1.

Definition contains_line (line : nat) (s : SymbolSpan) : bool := (start_line s <=? line) && (line <=? end_line s).

(** The order of the keys [(end - start, -start)]. *)
Definition tighter (a b : SymbolSpan) : bool :=
  let la := (Z.of_nat (end_line a) - Z.of_nat (start_line a))%Z in
  let lb := (Z.of_nat (end_line b) - Z.of_nat (start_line b))%Z in
  ((la <? lb) || ((la =? lb) && (Z.of_nat (start_line b) <? Z.of_nat (start_line a))))%Z.

(** [min] of a list: the first of the least. *)
Fixpoint tightest (l : list SymbolSpan) : option SymbolSpan :=
  match l with
  | [] => None
  | s :: l' => match tightest l' with Some m => Some (if tighter m s then m else s) | None => Some s end
  end.

(** [enclosing_symbol]. *)
Definition enclosing_symbol (source : string) (line : nat) : option (option string) :=
  spans ← resolve_symbols source;
  Some (symbol <$> tightest (filter (fun s => contains_line line s = true) spans)).

(** The lines of a span, joined. *)
Definition span_text (lines : list (list ascii)) (s : SymbolSpan) : string :=
  unchars (join_lines (take (end_line s - (start_line s - 1)) (drop (start_line s - 1) lines))).


(** [symbol_sha]. *)
Definition symbol_sha (source : string) (name : option string) : option (result string) :=
  match name with
  | None => Some (Ok (code_sha source))
  | Some name =>
      spans ← resolve_symbols source;
      Some (match odict_get name (map (fun s => (symbol s, s)) (reverse spans)) with
            | Some s => Ok (code_sha (span_text (normal_lines source) s))
            | None => Raise (KeyError name)
            end)
  end.
End anchors.

Example visit_ex :
  map (fun s => (symbol s, start_line s, end_line s))
    (visit_body "" [Def "A" 2 9 [1] [Def "x" 3 4 [] []; Def "x" 6 9 [5] [Def "g" 7 8 [] []]]; Other [[Def "A" 11 12 [] []]; []]] ([], [])).1 =
  [("A", 1, 9); ("A.x", 3, 4); ("A.x#2", 5, 9); ("A.x.g", 7, 8); ("A#2", 11, 12)].
Proof. vm_compute. reflexivity. Qed.
