(* ===== verification/AnchorsFacts.v ===== *)
(** * AnchorsFacts: the symbols of a file name one definition each, and the innermost owns a line *)
From stdpp Require Import pretty.
From S2P Require Import Prelude Text FrontmatterBlock FrontmatterWriters Anchors.

Local Open Scope nat_scope.

(** ** Induction on statements *)

Section stmt_induction.
Context (P : stmt -> Prop).
Context (HDef : forall name lineno last decorators body, Forall P body -> P (Def name lineno last decorators body)).
Context (HOther : forall bodies, Forall (Forall P) bodies -> P (Other bodies)).

Fixpoint stmt_nested_ind (s : stmt) : P s :=
  let all := fix all (l : list stmt) : Forall P l :=
    match l with [] => Forall_nil_2 P | s :: l' => Forall_cons_2 P s l' (stmt_nested_ind s) (all l') end in
  match s with
  | Def name lineno last decorators body => HDef name lineno last decorators body (all body)
  | Other bodies =>
      HOther bodies ((fix alls (l : list (list stmt)) : Forall (Forall P) l :=
        match l with [] => Forall_nil_2 _ | b :: l' => Forall_cons_2 _ b l' (all b) (alls l') end) bodies)
  end.
End stmt_induction.

(** ** Names *)

(** A name without the mark that counts repetitions, as Python's are. *)
Definition plain (d : string) : Prop := "#"%char ∉ chars d.

Fixpoint names (s : stmt) : list string :=
  match s with
  | Def name _ _ _ body => name :: concat (map names body)
  | Other bodies => concat (map (fun b => concat (map names b)) bodies)
  end.

Lemma chars_inj a b : chars a = chars b -> a = b.
Proof. intros H. by rewrite <-(unchars_chars a), H, unchars_chars. Qed.

Lemma plain_app a b : plain (a +:+ b) <-> plain a /\ plain b.
Proof. unfold plain. rewrite chars_app, elem_of_app. tauto. Qed.

Lemma marked_inj (a b p q : list ascii) : "#"%char ∉ a -> "#"%char ∉ b -> a ++ "#"%char :: p = b ++ "#"%char :: q -> a = b /\ p = q.
Proof.
  revert b. induction a as [|x a IH]; intros [|y b] Ha Hb; cbn; intros [= ].
  - done.
  - subst. destruct Hb. by left.
  - subst. destruct Ha. by left.
  - subst. destruct (IH b) as [-> ->]; [| |done..]; intros ?; [apply Ha|apply Hb]; by right.
Qed.

Lemma label_inj d d' n n' : plain d -> plain d' -> label d n = label d' n' -> d = d' /\ n = n'.
Proof.
  unfold label, plain. intros Hd Hd'. destruct (n =? 1) eqn:Hn, (n' =? 1) eqn:Hn'.
  - apply Nat.eqb_eq in Hn, Hn'. by subst.
  - intros ->. destruct Hd. rewrite !chars_app. apply elem_of_app. right. by left.
  - intros <-. destruct Hd'. rewrite !chars_app. apply elem_of_app. right. by left.
  - intros H. apply (f_equal chars) in H. rewrite !chars_app in H. apply marked_inj in H as [H1 H2]; [|done..].
    split; [by apply chars_inj|]. apply chars_inj in H2. by apply (inj pretty) in H2.
Qed.

Record distinct (st : visited) : Prop := {
  ds_nodup : NoDup (symbol <$> st.1);
  ds_counted : forall s, s ∈ st.1 -> exists d n, plain d /\ symbol s = label d n /\ n <= default 0 (odict_get d st.2)
}.

Lemma found_distinct dotted first last st : plain dotted -> distinct st -> distinct (found dotted first last st).
Proof.
  intros Hp [Hnd Hc]. unfold found. set (k := default 0 (odict_get dotted st.2)). split; cbn [fst snd].
  - rewrite fmap_app. apply NoDup_app. split; [done|]. split; [|apply NoDup_singleton].
    intros x (s & -> & Hs)%list_elem_of_fmap Hx%list_elem_of_singleton. destruct (Hc s Hs) as (d & n & Hd & Hl & Hn).
    rewrite Hl in Hx. apply label_inj in Hx as [-> ->]; [|done..]. fold k in Hn. lia.
  - intros s [Hs| ->%list_elem_of_singleton]%elem_of_app.
    + destruct (Hc s Hs) as (d & n & Hd & Hl & Hn). exists d, n. split; [done|]. split; [done|].
      rewrite odict_get_set. case_decide as Hdd; [subst|done]. fold k in Hn. cbn. lia.
    + exists dotted, (S k). split; [done|]. split; [done|]. rewrite odict_get_set. by rewrite decide_True.
Qed.

Lemma visit_distinct : forall s prefix st, plain prefix -> Forall plain (names s) -> distinct st -> distinct (visit prefix s st).
Proof.
  assert (Hbody : forall body, Forall (fun s => forall prefix st, plain prefix -> Forall plain (names s) -> distinct st -> distinct (visit prefix s st)) body ->
    forall prefix st, plain prefix -> Forall plain (concat (map names body)) -> distinct st -> distinct (visit_body prefix body st)).
  { unfold visit_body. induction 1 as [|s body Hs _ IH]; intros prefix st Hp Hn Hst; [done|]. cbn [foldl map concat] in *.
    apply Forall_app in Hn as [H1 H2]. apply IH; [done..|]. by apply Hs. }
  intros s. induction s as [name lineno last decorators body IH|bodies IH] using stmt_nested_ind; intros prefix st Hp Hn Hst.
  - cbn [visit names] in *. apply Forall_cons in Hn as [Hname Hn]. apply Hbody; [done| |done|].
    + rewrite !plain_app. split; [done|]. unfold plain. vm_compute. intros ?%list_elem_of_singleton. done.
    + apply found_distinct; [by apply plain_app|done].
  - cbn [visit names] in *. revert st Hst Hn. induction IH as [|body bodies Hb _ IH]; intros st Hst Hn; [done|].
    cbn [foldl map concat] in *. apply Forall_app in Hn as [H1 H2]. apply IH; [|done]. by apply (Hbody body Hb).
Qed.

(** ** Lines *)

(** Where a statement's definitions end, when each begins after the one before it has ended or,
    inside a definition, after its first line, and ends within it: what a parser gives. *)
Fixpoint place (after : nat) (s : stmt) : option nat :=
  match s with
  | Def _ lineno last decorators body =>
      let start := first_line lineno decorators in
      if after <? start then
        e ← foldl (fun acc s => a ← acc; place a s) (Some start) body;
        if e <=? last then Some last else None
      else None
  | Other bodies => foldl (fun acc body => foldl (fun acc s => a ← acc; place a s) acc body) (Some after) bodies
  end.

Definition place_body (after : option nat) (body : list stmt) : option nat := foldl (fun acc s => a ← acc; place a s) after body.

(** One definition after another: below it, or inside it. *)
Definition follows (a b : SymbolSpan) : Prop :=
  end_line a < start_line b \/ (start_line a < start_line b /\ end_line b <= end_line a).

Definition within (lo hi : nat) (s : SymbolSpan) : Prop := lo < start_line s /\ start_line s <= end_line s /\ end_line s <= hi.

(** What is found between two lines. *)
Definition laid_out (lo hi : nat) (new : list SymbolSpan) : Prop :=
  lo <= hi /\ Forall (within lo hi) new /\ StronglySorted follows new.

Lemma laid_out_nil lo : laid_out lo lo [].
Proof. split; [done|]. split; constructor. Qed.

Lemma laid_out_app lo mid hi a b : laid_out lo mid a -> laid_out mid hi b -> laid_out lo hi (a ++ b).
Proof.
  intros (H1 & Ha & Hsa) (H2 & Hb & Hsb). split; [lia|]. split.
  - apply Forall_app. split; (eapply Forall_impl; [eassumption|]); unfold within; intros s ?; lia.
  - apply StronglySorted_app. split; [|done]. intros x y Hx Hy. rewrite Forall_forall in Ha, Hb.
    specialize (Ha x Hx). specialize (Hb y Hy). unfold within, follows in *. lia.
Qed.

Lemma place_none body : place_body None body = None.
Proof. induction body as [|s body IH]; [done|exact IH]. Qed.

Lemma visit_laid_out : forall s prefix st after e, place after s = Some e ->
  exists new, (visit prefix s st).1 = st.1 ++ new /\ laid_out after e new.
Proof.
  assert (Hbody : forall body, Forall (fun s => forall prefix st after e, place after s = Some e ->
      exists new, (visit prefix s st).1 = st.1 ++ new /\ laid_out after e new) body ->
    forall prefix st after e, place_body (Some after) body = Some e ->
      exists new, (visit_body prefix body st).1 = st.1 ++ new /\ laid_out after e new).
  { induction 1 as [|s body Hs _ IH]; intros prefix st after e.
    - intros [= ->]. exists []. split; [by rewrite app_nil_r|apply laid_out_nil].
    - unfold place_body, visit_body. cbn [foldl]. change (a ← Some after; place a s) with (place after s). destruct (place after s) as [mid|] eqn:Hm; [|intros H; change (place_body None body = Some e) in H; by rewrite place_none in H].
      intros He. destruct (Hs prefix st after mid Hm) as (new1 & H1 & Hl1). destruct (IH prefix (visit prefix s st) mid e He) as (new2 & H2 & Hl2).
      exists (new1 ++ new2). unfold visit_body in H2. rewrite H2, H1, (assoc_L (++)). split; [done|]. by eapply laid_out_app. }
  intros s. induction s as [name lineno last decorators body IH|bodies IH] using stmt_nested_ind; intros prefix st after e.
  - cbn [place visit]. destruct (after <? _) eqn:Ha; [|done]. apply Nat.ltb_lt in Ha. fold (place_body (Some (first_line lineno decorators)) body).
    destruct (place_body _ body) as [e'|] eqn:He; [|done]. cbn [mbind option_bind]. destruct (e' <=? last) eqn:Hl; [|done]. apply Nat.leb_le in Hl. intros [= <-].
    destruct (Hbody body IH (prefix +:+ name +:+ ".") (found (prefix +:+ name) (first_line lineno decorators) last st) _ _ He) as (new & Hn & Hlo & Hw & Hs).
    eexists ({| symbol := _; start_line := first_line lineno decorators; end_line := last |} :: new). split.
    + replace ((prefix +:+ name) +:+ ".") with (prefix +:+ name +:+ ".") by (apply chars_inj; rewrite !chars_app; by rewrite (assoc_L (++))).
      unfold visit_body in Hn. rewrite Hn. unfold found. cbn [fst]. by rewrite <-(assoc_L (++)).
    + split; [lia|]. split.
      * constructor; [unfold within; cbn; lia|]. eapply Forall_impl; [exact Hw|]. unfold within. intros x ?. lia.
      * constructor; [done|]. eapply Forall_impl; [exact Hw|]. unfold within, follows. cbn. intros x ?. lia.
  - cbn [place visit]. revert st after. induction IH as [|body bodies Hb _ IH]; intros st after.
    + intros [= ->]. exists []. split; [by rewrite app_nil_r|apply laid_out_nil].
    + cbn [foldl]. fold (place_body (Some after) body). destruct (place_body (Some after) body) as [mid|] eqn:Hm.
      * intros He. destruct (Hbody body Hb prefix st after mid Hm) as (new1 & H1 & Hl1). destruct (IH (visit_body prefix body st) mid He) as (new2 & H2 & Hl2).
        exists (new1 ++ new2). fold (visit_body prefix body st). rewrite H2, H1, (assoc_L (++)). split; [done|]. by eapply laid_out_app.
      * intros H. exfalso. revert H. clear. induction bodies as [|b bodies IH]; [done|]. cbn [foldl]. fold (place_body None b). by rewrite place_none.
Qed.

(** ** The symbols of a file *)

Lemma tightest_last l : StronglySorted (fun a b => tighter b a = true) l -> tightest l = last l.
Proof.
  induction 1 as [|s l Hl IH Hs]; [done|]. cbn [tightest]. rewrite IH. destruct l as [|s' l]; [done|].
  rewrite last_cons_cons. destruct (last (s' :: l)) as [m|] eqn:Hm; [|by apply last_None in Hm].
  rewrite Forall_forall in Hs. by rewrite (Hs m) by by eapply last_Some_elem_of.
Qed.

(** The definitions around one line are nested, the innermost last. *)
Lemma around_line spans line : StronglySorted follows spans ->
  tightest (filter (fun s => contains_line line s = true) spans) = last (filter (fun s => contains_line line s = true) spans).
Proof.
  intros Hs. apply tightest_last. induction Hs as [|s l Hl IH Hf]; [constructor|]. rewrite filter_cons.
  case_decide as Hc; [|done]. constructor; [done|]. apply Forall_forall. intros b (Hb & Hin)%list_elem_of_filter.
  rewrite Forall_forall in Hf. specialize (Hf b Hin). unfold contains_line, follows in *. apply andb_true_iff in Hc as [H1 H2], Hb as [H3 H4].
  apply Nat.leb_le in H1, H2, H3, H4. unfold tighter. cbn zeta. apply orb_true_iff. lia.
Qed.

Section symbols.
Context (parse : string -> option (list stmt)) (sha256_hex : string -> string).
Context (source : string) (body : list stmt) (last_line : nat).
Context (Hparse : parse (normalize source) = Some body).
Context (Hnames : Forall plain (concat (map names body))).
Context (Hplace : place_body (Some 0) body = Some last_line).

Lemma symbols_sound : exists spans, resolve_symbols parse source = Some spans /\ NoDup (symbol <$> spans) /\ laid_out 0 last_line spans.
Proof.
  unfold resolve_symbols. rewrite Hparse. cbn [mbind option_bind]. eexists. split; [done|]. split.
  - assert (Hd : distinct (visit "" (Other [body]) ([], []))).
    { apply visit_distinct; [unfold plain; vm_compute; by intros ?%not_elem_of_nil| |].
      - cbn [names map concat]. by rewrite app_nil_r.
      - split; [constructor|]. by intros s ?%not_elem_of_nil. }
    exact (ds_nodup _ Hd).
  - destruct (visit_laid_out (Other [body]) "" ([], []) 0 last_line Hplace) as (new & Hn & Hl).
    change ((visit_body "" body ([], [])).1 = [] ++ new) in Hn. by rewrite Hn.
Qed.

Lemma enclosing_last spans line : resolve_symbols parse source = Some spans -> laid_out 0 last_line spans ->
  enclosing_symbol parse source line = Some (symbol <$> last (filter (fun s => contains_line line s = true) spans)).
Proof. intros Hr (_ & _ & Hs). unfold enclosing_symbol. rewrite Hr. cbn [mbind option_bind]. by rewrite around_line. Qed.

Lemma symbol_sha_span spans s : resolve_symbols parse source = Some spans -> NoDup (symbol <$> spans) -> s ∈ spans ->
  symbol_sha parse sha256_hex source (Some (symbol s)) = Some (Ok (code_sha sha256_hex (span_text (normal_lines source) s))).
Proof.
  intros Hr Hnd Hs. unfold symbol_sha. rewrite Hr. cbn [mbind option_bind].
  assert (Hg : odict_get (symbol s) (map (fun s => (symbol s, s)) (reverse spans)) = Some s); [|by rewrite Hg].
  apply odict_get_some.
  - rewrite map_map. cbn. change (NoDup (symbol <$> reverse spans)). by rewrite fmap_reverse, reverse_Permutation.
  - apply (list_elem_of_fmap_2 (fun s => (symbol s, s))). by apply elem_of_reverse.
Qed.
End symbols.

(** C37: the key of a definition. For a file whose names are identifiers and whose definitions the
    parser has placed in order and inside one another, no two definitions share a symbol, the
    symbol a line is put under is that of the last definition met that holds it, which every other
    definition holding it encloses, and the hash looked up by a symbol is that of the very lines
    found for it. *)
Theorem anchors_exact parse sha256_hex source body last_line : parse (normalize source) = Some body ->
  Forall plain (concat (map names body)) -> place_body (Some 0) body = Some last_line ->
  exists spans, resolve_symbols parse source = Some spans /\ NoDup (symbol <$> spans) /\
    (forall line, exists inner, enclosing_symbol parse source line = Some (symbol <$> inner) /\
       match inner with
       | None => forall s, s ∈ spans -> contains_line line s = false
       | Some m => m ∈ spans /\ contains_line line m = true /\
           forall s, s ∈ spans -> contains_line line s = true -> start_line s <= start_line m /\ end_line m <= end_line s
       end) /\
    (forall s, s ∈ spans -> 1 <= start_line s <= end_line s /\ end_line s <= last_line /\
       symbol_sha parse sha256_hex source (Some (symbol s)) = Some (Ok (code_sha sha256_hex (span_text (normal_lines source) s)))).
Proof.
  intros Hparse Hnames Hplace. destruct (symbols_sound parse source body last_line Hparse Hnames Hplace) as (spans & Hr & Hnd & Hl).
  exists spans. split; [done|]. split; [done|]. pose proof Hl as (_ & Hw & Hs). split.
  - intros line. eexists. split; [by apply (enclosing_last parse source last_line)|].
    destruct (last _) as [m|] eqn:Hm.
    + pose proof (last_Some_elem_of _ _ Hm) as [Hml _]%list_elem_of_filter. apply last_filter_Some in Hm as (l1 & l2 & -> & Hnone). split; [apply elem_of_app; right; by left|]. split; [done|].
      intros s Hin Hsl. apply StronglySorted_app in Hs as (Hbefore & _ & _).
      rewrite elem_of_app, elem_of_cons in Hin. destruct Hin as [Hin|[->|Hin]].
      * specialize (Hbefore s m Hin ltac:(by left)). unfold follows, contains_line in *.
        apply andb_true_iff in Hml as [H1 H2], Hsl as [H3 H4]. apply Nat.leb_le in H1, H2, H3, H4. lia.
      * lia.
      * rewrite Forall_forall in Hnone. by specialize (Hnone s Hin).
    + apply last_None in Hm. intros s Hin. destruct (contains_line line s) eqn:Hc; [|done]. exfalso.
      apply (not_elem_of_nil s). rewrite <-Hm. by apply list_elem_of_filter.
  - intros s Hin. rewrite Forall_forall in Hw. specialize (Hw s Hin). unfold within in Hw. split; [lia|]. split; [lia|].
    by apply (symbol_sha_span parse sha256_hex source spans).
Qed.

Definition demo_tree : list stmt := [Def "A" 2 5 [1] [Def "x" 3 3 [] []; Other [[Def "x" 5 5 [4] []]]]].

Lemma anchors_exact_witness :
  exists spans, resolve_symbols (fun _ => Some demo_tree) "" = Some spans /\ NoDup (symbol <$> spans) /\
    symbol <$> spans = ["A"; "A.x"; "A.x#2"].
Proof.
  destruct (anchors_exact (fun _ => Some demo_tree) id "" demo_tree 5 eq_refl) as (spans & Hr & Hnd & _).
  - apply Forall_forall. intros x Hx. vm_compute in Hx. unfold plain.
    repeat (apply elem_of_cons in Hx as [->|Hx]; [vm_compute; by intros [?|[]%not_elem_of_nil]%elem_of_cons|]). by apply not_elem_of_nil in Hx.
  - vm_compute. reflexivity.
  - exists spans. split; [exact Hr|]. split; [exact Hnd|].
    assert (Hs : map symbol <$> resolve_symbols (fun _ => Some demo_tree) "" = Some ["A"; "A.x"; "A.x#2"]) by (vm_compute; reflexivity).
    rewrite Hr in Hs. by injection Hs.
Defined.
