(* ===== verification/Chunker.v ===== *)
(** * Chunker: how a document's text becomes chunks (src/recall/index.py)

    The chunkers of prose and of source code, over the lists of characters of a text. A position
    of the code is counted here from the start of the piece at hand, the rest of the text being
    what lies after it; [None] is its -1. *)
From S2P Require Import Prelude Text Frontmatter SourceIdentity FrontmatterBlock FrontmatterWriters Anchors.

Local Open Scope nat_scope.

Definition DEFAULT_MAX_CHARS : Z := 800.
Definition DEFAULT_OVERLAP_CHARS : Z := 80.
Definition MAX_OVERLAP_DIVISOR : Z := 4.
Definition MIN_PIECE_DIVISOR : Z := 8.

(** [effective_overlap]. *)
Definition effective_overlap (max_chars overlap : Z) : Z := Z.max 0 (Z.min overlap (max_chars / MAX_OVERLAP_DIVISOR)).

(** ** A block larger than a chunk *)

(** [" "] or a newline: the places a cut may fall on. *)
Definition boundary (c : ascii) : bool := bool_decide (c = " "%char) || bool_decide (c = LF).

(** The greater of the two [rfind], the lesser of the two [find]. *)
Fixpoint find_first (f : ascii -> bool) (l : list ascii) : option nat :=
  match l with
  | [] => None
  | c :: l' => if f c then Some 0 else S <$> find_first f l'
  end.

Fixpoint find_last (f : ascii -> bool) (l : list ascii) : option nat :=
  match l with
  | [] => None
  | c :: l' => match find_last f l' with Some i => Some (S i) | None => if f c then Some 0 else None end
  end.

(** Where the piece at the head of [rest] ends. *)
Definition cut_of (max_chars min_piece : nat) (rest : list ascii) : nat :=
  match find_last boundary (take max_chars rest) with
  | Some cut => if (cut =? 0) || (cut <? min_piece) then max_chars else cut
  | None => max_chars
  end.

(** Where the next piece starts, some of the tail repeated. *)
Definition next_of (overlap min_piece cut : nat) (rest : list ascii) : nat :=
  if overlap =? 0 then cut
  else
    let lo := Nat.max 1 (cut - overlap) in
    match find_first boundary (take (cut - lo) (drop lo rest)) with
    | Some i => let back := lo + i in
        if (0 <? back) && (cut - back <=? overlap) && (min_piece <=? back) then S back else cut
    | None => cut
    end.

(** The loop of [_split_oversized]; [None] when the fuel is spent. *)
Fixpoint split_loop (fuel max_chars overlap min_piece : nat) (rest : list ascii) : option (list (list ascii)) :=
  match fuel, rest with
  | _, [] => Some []
  | O, _ => None
  | S fuel', _ =>
      if length rest <=? max_chars then Some [rest]
      else
        let cut := cut_of max_chars min_piece rest in
        pieces ← split_loop fuel' max_chars overlap min_piece (drop (next_of overlap min_piece cut rest) rest);
        Some (take cut rest :: pieces)
  end.

(** [[p for p in (p.strip() for p in pieces) if p]]. *)
Definition stripped (pieces : list (list ascii)) : list (list ascii) := filter (fun p => p <> []) (map strip_chars pieces).

Definition split_oversized (block : list ascii) (max_chars overlap : Z) : result (list (list ascii)) :=
  if (max_chars <? 1)%Z then Raise (ValueError "max_chars must be >= 1")
  else if (Z.of_nat (length block) <=? max_chars)%Z then Ok [block]
  else
    match split_loop (length block) (Z.to_nat max_chars) (Z.to_nat (effective_overlap max_chars overlap))
            (Z.to_nat (max_chars / MIN_PIECE_DIVISOR)) block with
    | Some pieces => Ok (stripped pieces)
    | None => Raise (RuntimeError "unreachable: the walk does not advance")
    end.

(** ** Packing *)

(** One block of [_pack], stripped, and split when it has to be. *)
Definition prepare (max_chars : Z) (hard_split : bool) (overlap : Z) (b : list ascii) : result (list (list ascii)) :=
  let b := strip_chars b in
  if decide (b = []) then Ok []
  else if hard_split && (max_chars <? Z.of_nat (length b))%Z then split_oversized b max_chars overlap
  else Ok [b].

Definition pack_step (max_chars : Z) (acc : list (list ascii) * list ascii) (b : list ascii) : list (list ascii) * list ascii :=
  let '(chunks, buf) := acc in
  if negb (bool_decide (buf = [])) && (max_chars <? Z.of_nat (length buf) + Z.of_nat (length b) + 2)%Z then (chunks ++ [buf], b)
  else (chunks, if decide (buf = []) then b else buf ++ [LF; LF] ++ b).

(** What is left in the buffer is the last chunk. *)
Definition flushed (acc : list (list ascii) * list ascii) : list (list ascii) :=
  let '(chunks, buf) := acc in if decide (buf = []) then chunks else chunks ++ [buf].

Definition pack (blocks : list (list ascii)) (max_chars : Z) (hard_split : bool) (overlap : Z) : result (list (list ascii)) :=
  prepared ← result_mapM (prepare max_chars hard_split overlap) blocks;
  Ok (flushed (foldl (pack_step max_chars) ([], []) (concat prepared))).

(** [text.split("\n\n")]. *)
Fixpoint split_blank (l : list ascii) : list (list ascii) :=
  match l with
  | [] => [[]]
  | c :: l' =>
      match l' with
      | c' :: l'' => if decide (c = LF /\ c' = LF) then [] :: split_blank l''
                     else match split_blank l' with [] => [[c]] | w :: ws => (c :: w) :: ws end
      | [] => [[c]]
      end
  end.

Definition chunk_text (text : string) (max_chars overlap : Z) : result (list string) :=
  map unchars <$> pack (split_blank (chars text)) max_chars true overlap.

(** ** Code without a parser *)

Definition starts_block (line : list ascii) : bool :=
  negb (match line with c :: _ => bool_decide (c = " "%char \/ code c = 9) | [] => false end) &&
  existsb (fun p => list_prefix (chars p) line) ["def "; "class "; "@"; "async def "].

Definition block_step (acc : list (list (list ascii)) * list (list ascii)) (line : list ascii) :=
  let '(blocks, cur) := acc in
  if negb (bool_decide (cur = [])) && starts_block line then (blocks ++ [cur], [line]) else (blocks, cur ++ [line]).

Definition code_blocks (text : list ascii) : list (list ascii) :=
  let '(blocks, cur) := foldl block_step ([], []) (split_chars LF text) in
  map (join_lines) (if decide (cur = []) then blocks else blocks ++ [cur]).

Definition chunk_code (text : string) (max_chars : Z) : result (list string) :=
  map unchars <$> pack (code_blocks (chars text)) max_chars false DEFAULT_OVERLAP_CHARS.

(** ** Python by its symbols *)

(** [s.strip("\n")]. *)
Definition strip_newlines (l : list ascii) : list ascii :=
  reverse (drop_while (fun c => bool_decide (c = LF)) (reverse (drop_while (fun c => bool_decide (c = LF)) l))).

(** A line and its index in the file, from 0. *)
Abbreviation line_of := (nat * list ascii)%type.

(** The pieces so far, the lines held back and their size. *)
Record Packing := { pk_pieces : list line_of; pk_buf : list line_of; pk_size : Z }.

(** [flush]. *)
Definition flush (p : Packing) : Packing :=
  let text := strip_newlines (join_lines (map snd (pk_buf p))) in
  {| pk_pieces := match pk_buf p with
                  | (index, _) :: _ => if decide (text = []) then pk_pieces p else pk_pieces p ++ [(index, text)]
                  | [] => pk_pieces p
                  end;
     pk_buf := []; pk_size := 0 |}.

(** A blank line is skipped when nothing, or another blank line, comes before it in the buffer. *)
Definition skipped (buf : list line_of) (line : list ascii) : bool :=
  bool_decide (line = []) && match last buf with None => true | Some (_, l) => bool_decide (l = []) end.

Definition hold (p : Packing) (x : line_of) : Packing :=
  {| pk_pieces := pk_pieces p; pk_buf := pk_buf p ++ [x];
     pk_size := (pk_size p + Z.of_nat (length x.2) + if decide (pk_buf p = []) then 0 else 1)%Z |}.

Definition line_step (max_chars : Z) (p : Packing) (x : line_of) : result Packing :=
  let '(index, line) := x in
  if skipped (pk_buf p) line then Ok p
  else if (max_chars <? Z.of_nat (length line))%Z then
    parts ← split_oversized line max_chars 0;
    let p := flush p in
    Ok {| pk_pieces := pk_pieces p ++ map (fun part => (index, part)) parts; pk_buf := pk_buf p; pk_size := pk_size p |}
  else
    let p := if negb (bool_decide (pk_buf p = [])) && (max_chars <? pk_size p + 1 + Z.of_nat (length line))%Z then flush p else p in
    Ok (hold p x).

(** [_pack_lines]. *)
Definition pack_lines (owned : list line_of) (max_chars : Z) : result (list line_of) :=
  p ← foldl (fun acc x => p ← acc; line_step max_chars p x) (Ok {| pk_pieces := []; pk_buf := []; pk_size := 0 |}) owned;
  Ok (pk_pieces (flush p)).

(** [PurePosixPath(file).suffix == ".py"]: the last dot of the name, neither its first character
    nor its last. *)
Definition python_name (name : list ascii) : bool :=
  bool_decide (3 < length name) && list_prefix (reverse (chars ".py")) (reverse name).

Definition is_python (file : string) : bool :=
  match last (path_names file) with
  | Some name => python_name (chars name)
  | None => false
  end.

(** [owners[start - 1 : end] = [index] * (end - start + 1)]. *)
Definition own (owners : list (option nat)) (x : nat * SymbolSpan) : list (option nat) :=
  let '(index, s) := x in
  take (start_line s - 1) owners ++ replicate (end_line s + 1 - start_line s) (Some index) ++ drop (end_line s) owners.

Definition enumerate {A} (l : list A) : list (nat * A) := imap pair l.

Definition owners_of (spans : list SymbolSpan) (lines : nat) : list (option nat) :=
  foldl own (replicate lines None) (enumerate spans).

(** [owned.setdefault(owner, []).append(x)], the owners in the order they were first met. *)
Fixpoint push_line (owner : option nat) (x : line_of) (owned : list (option nat * list line_of)) : list (option nat * list line_of) :=
  match owned with
  | [] => [(owner, [x])]
  | (o, l) :: owned' => if decide (o = owner) then (o, l ++ [x]) :: owned' else (o, l) :: push_line owner x owned'
  end.

Definition own_line (shown : list (list ascii)) (acc : result (list (option nat * list line_of))) (x : nat * option nat) :
    result (list (option nat * list line_of)) :=
  owned ← acc;
  match shown !! x.1 with
  | Some line => Ok (push_line x.2 (x.1, line) owned)
  | None => Raise IndexError
  end.

Section code.
Context (parse : string -> option (list stmt)) (sha256_hex : string -> string).

(** [_code_anchor], under its key. *)
Definition CODE_ANCHOR_KEY : string := "code_anchor".

Definition code_anchor (repo : option string) (file : string) (symbol : option string) (sha : string) : metadata :=
  let text o := match o with Some s => VStr s | None => VNone end in
  [(CODE_ANCHOR_KEY, VDict [("repo", text repo); ("file", VStr file); ("symbol", text symbol); ("code_sha", VStr sha)])].

(** The pieces of one owner's lines, each with its anchor. *)
Definition place_owner (text : string) (file : string) (repo : option string) (max_chars : Z) (lines : list (list ascii)) (spans : list SymbolSpan)
    (x : option nat * list line_of) : result (list (nat * (list ascii * metadata))) :=
  anchor ← match x.1 with
           | None => Ok (code_anchor repo file None (code_sha sha256_hex text))
           | Some owner =>
               match spans !! owner with
               | Some span => Ok (code_anchor repo file (Some (symbol span)) (code_sha sha256_hex (span_text lines span)))
               | None => Raise IndexError
               end
           end;
  pieces ← pack_lines x.2 max_chars;
  Ok (map (fun p => (p.1, (p.2, anchor))) pieces).

Definition placed_leb (a b : nat * (list ascii * metadata)) : bool := a.1 <=? b.1.

(** [code_pieces]. *)
Definition code_pieces (text file : string) (repo : option string) (max_chars : Z) : result (list (string * metadata)) :=
  if negb (is_python file) then map (fun piece => (piece, [])) <$> chunk_code text max_chars
  else
    match resolve_symbols parse text with
    | None => map (fun piece => (piece, code_anchor repo file None (code_sha sha256_hex text))) <$> chunk_code text max_chars
    | Some spans =>
        let lines := normal_lines text in
        owned ← foldl (own_line lines) (Ok []) (enumerate (owners_of spans (length lines)));
        placed ← result_mapM (place_owner text file repo max_chars lines spans) owned;
        Ok (map (fun p => (unchars p.2.1, p.2.2)) (stable_sort placed_leb (concat placed)))
    end.
End code.

(** ** Examples *)

Example chunk_text_ex :
  chunk_text ("alpha beta" +:+ unchars [LF; LF] +:+ "gamma delta epsilon zeta" +:+ unchars [LF; LF; LF] +:+ "eta") 12 3 =
  Ok ["alpha beta"; "gamma delta"; "epsilon"; "zeta" +:+ unchars [LF; LF] +:+ "eta"].
Proof. vm_compute. reflexivity. Qed.

Example chunk_text_ex2 : chunk_text "abcdefgh ij klmnop" 8 2 = Ok ["abcdefgh"; "ij"; "klmnop"].
Proof. vm_compute. reflexivity. Qed.

Example code_pieces_ex :
  map fst <$> code_pieces (fun _ => Some [Def "A" 2 4 [] [Def "f" 3 3 [] []]]) id
    ("import x" +:+ unchars [LF] +:+ "class A:" +:+ unchars [LF] +:+ "  f" +:+ unchars [LF] +:+ "  y = 1" +:+ unchars [LF]) "a/b.py" None 100 =
  Ok ["import x"; "class A:" +:+ unchars [LF] +:+ "  y = 1"; "  f"].
Proof. vm_compute. reflexivity. Qed.
