(* ===== verification/ChunkerFacts.v ===== *)
(** * ChunkerFacts: what the chunks of a text hold

    No chunk is larger than asked or blank, no word of the text is lost, and a forced split makes
    progress. *)
From S2P Require Import Prelude Text Frontmatter SourceIdentity FrontmatterBlock FrontmatterWriters Anchors Chunker.

Local Open Scope nat_scope.

(** The characters that are not white space. *)
Definition squeeze (l : list ascii) : list ascii := filter (fun c => is_space c = false) l.

Definition squeezed (l : list (list ascii)) : list ascii := concat (map squeeze l).

(** A text that neither begins nor ends with white space. *)
Definition trimmed (l : list ascii) : Prop :=
  exists c d, head l = Some c /\ last l = Some d /\ is_space c = false /\ is_space d = false.

Lemma squeeze_app a b : squeeze (a ++ b) = squeeze a ++ squeeze b.
Proof. apply filter_app. Qed.

Lemma squeeze_spaces a : Forall (fun c => is_space c = true) a -> squeeze a = [].
Proof. intros H. apply list_filter_none. eapply Forall_impl; [exact H|]. by intros c ->. Qed.

Lemma squeeze_reverse a : squeeze (reverse a) = reverse (squeeze a).
Proof.
  induction a as [|c a IH]; [done|]. rewrite reverse_cons, squeeze_app, IH. unfold squeeze. rewrite filter_cons.
  case_decide as Hc; rewrite filter_cons, filter_nil.
  - by rewrite decide_True, reverse_cons.
  - by rewrite decide_False, app_nil_r.
Qed.

Lemma squeeze_drop_while a : squeeze (drop_while is_space a) = squeeze a.
Proof. destruct (drop_while_split is_space a) as (s & Ha & Hs). rewrite Ha at 2. by rewrite squeeze_app, (squeeze_spaces s). Qed.

Lemma squeeze_strip a : squeeze (strip_chars a) = squeeze a.
Proof. unfold strip_chars. by rewrite squeeze_reverse, squeeze_drop_while, squeeze_reverse, reverse_involutive, squeeze_drop_while. Qed.

Lemma drop_while_fails f (a : list ascii) c : head (drop_while f a) = Some c -> f c = false.
Proof. induction a as [|x a IH]; cbn; [done|]. destruct (f x) eqn:Hx; [done|]. by intros [= <-]. Qed.

Lemma drop_while_last f (a : list ascii) : drop_while f a <> [] -> last (drop_while f a) = last a.
Proof.
  induction a as [|x a IH]; [done|]. cbn [drop_while]. destruct (f x); [|done]. intros H. rewrite IH by done.
  destruct a; [done|]. by destruct (f x).
Qed.

Lemma drop_while_length f (a : list ascii) : length (drop_while f a) <= length a.
Proof. induction a as [|x a IH]; cbn; [lia|]. destruct (f x); cbn; lia. Qed.

Lemma strip_trimmed a : strip_chars a <> [] -> trimmed (strip_chars a).
Proof.
  unfold strip_chars. set (b := drop_while is_space a). intros Hne.
  assert (Hd : drop_while is_space (reverse b) <> []) by (intros Hd; by rewrite Hd in Hne).
  destruct (drop_while is_space (reverse b)) as [|d l] eqn:Hl; [done|].
  assert (Hlast : last (d :: l) = head b) by (rewrite <-Hl, drop_while_last by (by rewrite Hl); apply last_reverse).
  destruct (head b) as [c|] eqn:Hb; [|by destruct (last_is_Some (d :: l)) as [_ [x Hx]]; [done|congruence]].
  exists c, d. rewrite head_reverse, last_reverse. split; [done|]. split; [done|].
  split; [by apply (drop_while_fails is_space a)|]. apply (drop_while_fails is_space (reverse b)). by rewrite Hl.
Qed.

Lemma strip_length a : length (strip_chars a) <= length a.
Proof.
  unfold strip_chars. rewrite length_reverse. etransitivity; [apply drop_while_length|]. rewrite length_reverse. apply drop_while_length.
Qed.

Lemma trimmed_nonempty a : trimmed a -> a <> [].
Proof. by intros (c & d & ? & _) ->. Qed.

Lemma trimmed_squeeze a : trimmed a -> squeeze a <> [].
Proof.
  intros (c & d & Hc & _ & Hs & _). destruct a as [|x a]; [done|]. injection Hc as ->. unfold squeeze. rewrite filter_cons.
  by rewrite decide_True.
Qed.

Lemma strip_blank a : strip_chars a = [] <-> squeeze a = [].
Proof.
  rewrite <-squeeze_strip. split; [by intros ->|]. intros H. destruct (decide (strip_chars a = [])) as [|Hn]; [done|].
  by apply strip_trimmed, trimmed_squeeze in Hn.
Qed.

Lemma trimmed_app a s b : trimmed a -> trimmed b -> trimmed (a ++ s ++ b).
Proof.
  intros (c & ? & Hc & _ & Hsc & _) (? & d & _ & Hd & _ & Hsd). exists c, d.
  split; [by destruct a|]. split; [|done]. rewrite (assoc_L (++)), last_app, Hd. done.
Qed.

Lemma squeezed_app a b : squeezed (a ++ b) = squeezed a ++ squeezed b.
Proof. unfold squeezed. by rewrite map_app, concat_app. Qed.

Lemma squeezed_cons a l : squeezed (a :: l) = squeeze a ++ squeezed l.
Proof. done. Qed.

Lemma squeezed_stripped l : squeezed (stripped l) = squeezed l.
Proof.
  induction l as [|p l IH]; [done|]. unfold stripped in *. cbn [map]. rewrite filter_cons, squeezed_cons.
  destruct (decide (strip_chars p = [])) as [Hp|Hp].
  - rewrite decide_False by (intros Hn; by apply Hn). apply strip_blank in Hp. by rewrite Hp, IH.
  - rewrite decide_True by done. by rewrite squeezed_cons, squeeze_strip, IH.
Qed.

(** ** Cutting *)

Lemma find_last_bound f l i : find_last f l = Some i -> i < length l.
Proof.
  revert i. induction l as [|c l IH]; intros i; cbn; [done|]. destruct (find_last f l) as [j|].
  - intros [= <-]. specialize (IH j eq_refl). lia.
  - destruct (f c); [|done]. intros [= <-]. lia.
Qed.

Lemma find_first_bound f l i : find_first f l = Some i -> i < length l.
Proof.
  revert i. induction l as [|c l IH]; intros i; cbn; [done|]. destruct (f c); [intros [= <-]; lia|].
  destruct (find_first f l) as [j|]; [|done]. intros [= <-]. specialize (IH j eq_refl). lia.
Qed.

Lemma cut_bounds m mp rest : 1 <= m -> mp <= m -> Nat.max 1 mp <= cut_of m mp rest <= m.
Proof.
  intros Hm Hp. unfold cut_of. destruct (find_last _ _) as [cut|] eqn:Hc; [|lia]. apply find_last_bound in Hc.
  rewrite length_take in Hc. destruct (cut =? 0) eqn:H0; cbn [orb]; [lia|]. destruct (cut <? mp) eqn:H1; [lia|].
  apply Nat.eqb_neq in H0. apply Nat.ltb_ge in H1. lia.
Qed.

Lemma next_bounds ov mp cut rest : Nat.max 1 mp <= cut ->
  Nat.max 1 mp <= next_of ov mp cut rest <= cut /\ cut - next_of ov mp cut rest <= ov.
Proof.
  intros Hc. unfold next_of. destruct (ov =? 0) eqn:Ho; [lia|]. destruct (find_first _ _) as [i|] eqn:Hi; [|lia].
  apply find_first_bound in Hi. rewrite length_take in Hi. cbn zeta.
  destruct ((_ && _) && _) eqn:Hb; [|lia]. apply andb_true_iff in Hb as [[_ H1]%andb_true_iff H2].
  apply Nat.leb_le in H1, H2. lia.
Qed.

Lemma next_without_overlap mp cut rest : next_of 0 mp cut rest = cut.
Proof. done. Qed.

Lemma split_loop_spec fuel m ov mp rest : 1 <= m -> mp <= m -> length rest <= fuel ->
  exists pieces, split_loop fuel m ov mp rest = Some pieces /\
    Forall (fun p => p <> [] /\ length p <= m) pieces /\
    squeeze rest `sublist_of` squeezed pieces /\
    (ov = 0 -> squeeze rest = squeezed pieces) /\
    (length pieces - 1) * Nat.max 1 mp <= length rest.
Proof.
  intros Hm Hp. revert rest. induction fuel as [|fuel IH]; intros rest Hf.
  - destruct rest; cbn in Hf; [|lia]. exists []. split; [done|]. split; [constructor|]. split; [constructor|]. split; [done|cbn; lia].
  - destruct rest as [|c0 rest0] eqn:Hrest; [exists []; split; [done|]; split; [constructor|]; split; [constructor|]; split; [done|cbn; lia]|].
    rewrite <-Hrest in *. replace (split_loop (S fuel) m ov mp rest) with
      (if length rest <=? m then Some [rest] else
         let cut := cut_of m mp rest in
         pieces ← split_loop fuel m ov mp (drop (next_of ov mp cut rest) rest); Some (take cut rest :: pieces)) by (by rewrite Hrest).
    destruct (length rest <=? m) eqn:Hle.
    + apply Nat.leb_le in Hle. exists [rest]. split; [done|]. split; [constructor; [split; [by rewrite Hrest|done]|constructor]|].
      rewrite squeezed_cons. cbn [squeezed map concat]. rewrite app_nil_r. split; [done|]. split; [done|cbn; lia].
    + apply Nat.leb_gt in Hle. cbn zeta. set (cut := cut_of m mp rest). pose proof (cut_bounds m mp rest Hm Hp) as Hcut. fold cut in Hcut.
      destruct (next_bounds ov mp cut rest ltac:(lia)) as [Hn Hov]. set (nxt := next_of ov mp cut rest) in *.
      destruct (IH (drop nxt rest)) as (pieces & Hs & Hall & Hsub & Heq & Hlen); [rewrite length_drop; lia|].
      exists (take cut rest :: pieces). rewrite Hs. split; [done|]. split; [|split; [|split]].
      * constructor; [|done]. rewrite length_take. split; [|lia]. intros Ht. apply (f_equal length) in Ht. rewrite length_take in Ht. cbn in Ht. lia.
      * rewrite <-(take_drop cut rest) at 1. rewrite squeeze_app, squeezed_cons. apply sublist_app; [done|].
        etransitivity; [|exact Hsub]. replace cut with (nxt + (cut - nxt)) by lia. rewrite <-drop_drop.
        unfold squeeze. rewrite <-(take_drop (cut - nxt) (drop nxt rest)) at 2. rewrite filter_app. by apply sublist_inserts_l.
      * intros ->. rewrite <-(take_drop cut rest) at 1. rewrite squeeze_app, squeezed_cons. f_equal. by rewrite <-Heq.
      * rewrite length_drop in Hlen. cbn [length]. destruct pieces as [|p pieces]; cbn [length] in *; nia.
Qed.

Lemma min_piece_le (m : Z) : (1 <= m)%Z -> Z.to_nat (m / MIN_PIECE_DIVISOR) <= Z.to_nat m.
Proof. intros Hm. apply Z2Nat.inj_le; unfold MIN_PIECE_DIVISOR; [apply Z.div_pos; lia|lia|apply Z.div_le_upper_bound; lia]. Qed.

(** A chunk as large as [max_chars] allows. *)
Definition fits (max_chars : Z) (c : list ascii) : Prop := trimmed c /\ (Z.of_nat (length c) <= max_chars)%Z.

Lemma stripped_fits m l : Forall (fun p => p <> [] /\ length p <= m) l -> Forall (fits (Z.of_nat m)) (stripped l).
Proof.
  intros H. apply Forall_forall. intros c (Hc & (p & -> & Hp)%list_elem_of_fmap)%list_elem_of_filter.
  split; [by apply strip_trimmed|]. rewrite Forall_forall in H. destruct (H p Hp) as [_ Hl]. pose proof (strip_length p). lia.
Qed.

Lemma stripped_length l : length (stripped l) <= length l.
Proof. unfold stripped. etransitivity; [apply length_filter|]. by rewrite length_map. Qed.

(** What the forced split of a large block gives. *)
Lemma split_oversized_spec b m ov : (1 <= m < Z.of_nat (length b))%Z ->
  exists pieces, split_oversized b m ov = Ok pieces /\ Forall (fits m) pieces /\
    squeeze b `sublist_of` squeezed pieces /\ (effective_overlap m ov = 0%Z -> squeeze b = squeezed pieces) /\
    (length pieces - 1) * Nat.max 1 (Z.to_nat (m / MIN_PIECE_DIVISOR)) <= length b.
Proof.
  intros Hm. unfold split_oversized. destruct (m <? 1)%Z eqn:H1; [lia|]. destruct (_ <=? m)%Z eqn:H2; [lia|].
  destruct (split_loop_spec (length b) (Z.to_nat m) (Z.to_nat (effective_overlap m ov)) (Z.to_nat (m / MIN_PIECE_DIVISOR)) b)
    as (pieces & -> & Hall & Hsub & Heq & Hlen); [lia|by apply min_piece_le; lia|done|].
  exists (stripped pieces). split; [done|]. rewrite squeezed_stripped. split; [|split; [done|split]].
  - apply stripped_fits in Hall. by rewrite Z2Nat.id in Hall by lia.
  - intros Ho. apply Heq. by rewrite Ho.
  - pose proof (stripped_length pieces). nia.
Qed.

(** ** Packing *)

Lemma prepare_spec m ov b : (1 <= m)%Z ->
  exists l, prepare m true ov b = Ok l /\ Forall (fits m) l /\ squeeze b `sublist_of` squeezed l /\
    (effective_overlap m ov = 0%Z -> squeeze b = squeezed l).
Proof.
  intros Hm. unfold prepare. rewrite <-(squeeze_strip b). case_decide as Hb.
  - exists []. rewrite Hb. split; [done|]. split; [constructor|]. split; [constructor|done].
  - destruct (m <? _)%Z eqn:Hl; cbn [andb].
    + destruct (split_oversized_spec (strip_chars b) m ov) as (l & -> & ? & ? & ? & _); [lia|]. by exists l.
    + exists [strip_chars b]. split; [done|]. rewrite squeezed_cons. cbn. rewrite app_nil_r.
      split; [constructor; [split; [by apply strip_trimmed|lia]|constructor]|]. done.
Qed.

Lemma prepared_spec m ov blocks : (1 <= m)%Z ->
  exists ls, result_mapM (prepare m true ov) blocks = Ok ls /\ Forall (fits m) (concat ls) /\
    squeezed blocks `sublist_of` squeezed (concat ls) /\
    (effective_overlap m ov = 0%Z -> squeezed blocks = squeezed (concat ls)).
Proof.
  intros Hm. induction blocks as [|b blocks (ls & Hls & Hall & Hsub & Heq)].
  - exists []. split; [done|]. split; [constructor|]. split; [constructor|done].
  - destruct (prepare_spec m ov b Hm) as (l & Hl & Hall' & Hsub' & Heq'). exists (l :: ls).
    cbn [result_mapM]. rewrite Hl. cbn [mbind result_bind]. rewrite Hls. split; [done|]. cbn [concat].
    rewrite squeezed_cons, squeezed_app. split; [by apply Forall_app|]. split; [by apply sublist_app|].
    intros Ho. by rewrite Heq', Heq.
Qed.

(** The buffer is a chunk in the making. *)
Definition held (m : Z) (acc : list (list ascii) * list ascii) : Prop :=
  Forall (fits m) acc.1 /\ (acc.2 = [] \/ fits m acc.2).

Lemma blank_line : squeeze [LF; LF] = [].
Proof. vm_compute. reflexivity. Qed.

Lemma pack_step_spec m acc b : fits m b -> held m acc ->
  held m (pack_step m acc b) /\ squeezed (flushed (pack_step m acc b)) = squeezed (flushed acc) ++ squeeze b.
Proof.
  destruct acc as [chunks buf]. intros [Hb Hl] [Hc Hbuf]. cbn [fst snd] in *. pose proof (trimmed_nonempty b Hb) as Hne.
  unfold pack_step, flushed, held. destruct (decide (buf = [])) as [->|Hn].
  - rewrite bool_decide_true by done. cbn [negb andb fst snd]. rewrite decide_False by done.
    split; [split; [done|by right]|]. by rewrite squeezed_app, squeezed_cons, app_nil_r.
  - destruct Hbuf as [|[Ht Hbl]]; [done|]. rewrite bool_decide_false by done. cbn [negb andb].
    destruct (_ <? _)%Z eqn:Hlt; cbn [fst snd].
    + rewrite decide_False by done. split; [split; [by apply Forall_app; split; [|constructor]|by right]|].
      by rewrite !squeezed_app, !squeezed_cons, !app_nil_r.
    + apply Z.ltb_ge in Hlt. rewrite decide_False by (by destruct buf). split.
      * split; [done|right]. split; [by apply trimmed_app|]. rewrite !length_app. cbn [length]. lia.
      * rewrite !squeezed_app, !squeezed_cons. cbn [squeezed map concat]. rewrite !app_nil_r, !squeeze_app, blank_line, (assoc_L (++)). done.
Qed.

Lemma packed_spec m l : Forall (fits m) l ->
  Forall (fits m) (flushed (foldl (pack_step m) ([], []) l)) /\
  squeezed (flushed (foldl (pack_step m) ([], []) l)) = squeezed l.
Proof.
  intros Hl. assert (Hinv : held m (foldl (pack_step m) ([], []) l) /\
    squeezed (flushed (foldl (pack_step m) ([], []) l)) = squeezed l).
  { induction l as [|b l IH] using rev_ind; [split; [split; [constructor|by left]|done]|].
    apply Forall_app in Hl as [Hl [Hb _]%Forall_cons]. destruct (IH Hl) as [Hh Hs]. rewrite foldl_snoc.
    destruct (pack_step_spec m _ b Hb Hh) as [Hh' Hs']. split; [done|].
    by rewrite Hs', Hs, squeezed_app, squeezed_cons, app_nil_r. }
  destruct Hinv as [[Hc Hb] Hs]. split; [|done]. destruct (foldl _ _ l) as [chunks buf]. cbn [fst snd] in *. unfold flushed.
  case_decide; [done|]. apply Forall_app. split; [done|]. constructor; [by destruct Hb|constructor].
Qed.

(** ** Paragraphs *)

Lemma squeeze_LF l : squeeze (LF :: l) = squeeze l.
Proof. reflexivity. Qed.

Lemma squeezed_hd c l : squeezed (match l with [] => [[c]] | w :: ws => (c :: w) :: ws end) = squeeze [c] ++ squeezed l.
Proof. destruct l as [|w ws]; [done|]. rewrite !squeezed_cons. change (c :: w) with ([c] ++ w). by rewrite squeeze_app, (assoc_L (++)). Qed.

Lemma split_blank_squeezed l : squeezed (split_blank l) = squeeze l.
Proof.
  remember (length l) as n eqn:Hn. assert (Hle : length l <= n) by lia. clear Hn. revert l Hle.
  induction n as [|n IH]; intros l Hle; [by destruct l; [|cbn in Hle; lia]|].
  destruct l as [|c [|c' l]]; [done|cbn; by rewrite app_nil_r|]. cbn [length] in Hle.
  change (split_blank (c :: c' :: l)) with (if decide (c = LF /\ c' = LF) then [] :: split_blank l
    else match split_blank (c' :: l) with [] => [[c]] | w :: ws => (c :: w) :: ws end).
  case_decide as Hc; [destruct Hc as [-> ->]; rewrite squeezed_cons, !squeeze_LF, IH by lia; done|].
  rewrite squeezed_hd, (IH (c' :: l)) by (cbn [length]; lia). by rewrite <-squeeze_app.
Qed.

(** What the chunks of a text hold of it. *)
Definition squeezed_text (chunks : list string) : list ascii := squeezed (map chars chunks).

Lemma map_chars_unchars l : map chars (map unchars l) = l.
Proof. rewrite map_map. rewrite <-(map_id l) at 2. apply map_ext. apply chars_unchars. Qed.

Lemma prepare_refused m ov b : (m < 1)%Z -> prepare m true ov b = if decide (squeeze b = []) then Ok [] else Raise (ValueError "max_chars must be >= 1").
Proof.
  intros Hm. unfold prepare. rewrite (decide_ext (strip_chars b = []) (squeeze b = [])) by apply strip_blank.
  case_decide as Hb; [done|]. rewrite <-strip_blank in Hb. assert (Hl : 1 <= length (strip_chars b)) by (destruct (strip_chars b); [done|cbn; lia]).
  cbn [andb]. destruct (m <? _)%Z eqn:H1; [|lia]. unfold split_oversized. destruct (m <? 1)%Z eqn:H2; [done|lia].
Qed.

(** C36: the chunks of a text. With a cap of at least one character they always exist; each begins
    and ends with a visible character and keeps within the cap; read one after the other they hold
    every visible character of the text in its order, and nothing else when the overlap that
    applies is zero. Without room for a character only a blank text is accepted. *)
Theorem chunk_text_exact text max_chars overlap :
  (max_chars < 1 -> chunk_text text max_chars overlap =
     if decide (squeeze (chars text) = []) then Ok [] else Raise (ValueError "max_chars must be >= 1"))%Z /\
  (1 <= max_chars -> exists chunks, chunk_text text max_chars overlap = Ok chunks /\
     Forall (fun c => trimmed (chars c) /\ (Z.of_nat (length (chars c)) <= max_chars)%Z) chunks /\
     squeeze (chars text) `sublist_of` squeezed_text chunks /\
     (effective_overlap max_chars overlap = 0%Z -> squeezed_text chunks = squeeze (chars text)))%Z.
Proof.
  unfold chunk_text, pack. rewrite <-split_blank_squeezed. split; intros Hm.
  - induction (split_blank (chars text)) as [|b blocks IH]; [done|]. cbn [result_mapM]. rewrite prepare_refused, squeezed_cons by done.
    destruct (decide (squeeze b = [])) as [Hb|Hb].
    + rewrite Hb. cbn [mbind result_bind app]. destruct (result_mapM _ blocks) as [ls|e]; cbn [mbind result_bind fmap result_fmap] in *; exact IH.
    + cbn [mbind result_bind]. rewrite decide_False; [done|]. by intros [? _]%app_eq_nil.
  - destruct (prepared_spec max_chars overlap (split_blank (chars text)) Hm) as (ls & -> & Hall & Hsub & Heq).
    destruct (packed_spec max_chars (concat ls) Hall) as [Hfits Hsq]. eexists. split; [reflexivity|].
    unfold squeezed_text. rewrite map_chars_unchars, Hsq. split; [|split; [done|by intros ->%Heq]].
    apply Forall_fmap. eapply Forall_impl; [exact Hfits|]. intros c [? ?]. cbn. by rewrite chars_unchars.
Qed.

(** C38: a forced split makes progress: a block larger than the cap becomes at most one piece more
    than its length divided by the shortest stride, an eighth of the cap, whatever the overlap. *)
Theorem split_progress block max_chars overlap : (1 <= max_chars < Z.of_nat (length block))%Z ->
  exists pieces, split_oversized block max_chars overlap = Ok pieces /\
    Forall (fun p => trimmed p /\ (Z.of_nat (length p) <= max_chars)%Z) pieces /\
    (length pieces - 1) * Nat.max 1 (Z.to_nat (max_chars / MIN_PIECE_DIVISOR)) <= length block.
Proof.
  intros Hm. destruct (split_oversized_spec block max_chars overlap Hm) as (pieces & ? & ? & _ & _ & ?). by exists pieces.
Qed.

Lemma split_progress_witness : exists pieces, split_oversized (chars "one two three four five six seven eight nine ten") 9 100 = Ok pieces /\
  (length pieces - 1) * 1 <= 48.
Proof.
  destruct (split_progress (chars "one two three four five six seven eight nine ten") 9 100) as (pieces & Hp & _ & Hl); [vm_compute; split; congruence|].
  exists pieces. split; [exact Hp|exact Hl].
Defined.
