(* ===== verification/CodePiecesFacts.v ===== *)
(** * CodePiecesFacts: a Python file's chunks hold each line once, under the symbol it belongs to *)
From S2P Require Import Prelude Text Frontmatter SourceIdentity FrontmatterBlock FrontmatterWriters Anchors AnchorsFacts Chunker ChunkerFacts.

Local Open Scope nat_scope.

(** ** The lines of one symbol *)

Lemma squeeze_join lines : squeeze (join_lines lines) = squeezed lines.
Proof.
  induction lines as [|l lines IH]; [done|]. destruct lines as [|l' lines]; [cbn; by rewrite app_nil_r|].
  change (join_lines (l :: l' :: lines)) with (l ++ LF :: join_lines (l' :: lines)).
  by rewrite squeeze_app, squeeze_LF, IH.
Qed.

Lemma squeeze_strip_newlines l : squeeze (strip_newlines l) = squeeze l.
Proof.
  assert (Hd : forall a, squeeze (drop_while (fun c => bool_decide (c = LF)) a) = squeeze a).
  { intros a. destruct (drop_while_split (fun c => bool_decide (c = LF)) a) as (s & Ha & Hs). rewrite Ha at 2. rewrite squeeze_app.
    rewrite (squeeze_spaces s); [done|]. eapply Forall_impl; [exact Hs|]. by intros c ->%bool_decide_eq_true. }
  unfold strip_newlines. by rewrite squeeze_reverse, Hd, squeeze_reverse, reverse_involutive, Hd.
Qed.

Lemma strip_newlines_length l : length (strip_newlines l) <= length l.
Proof.
  unfold strip_newlines. rewrite length_reverse. etransitivity; [apply drop_while_length|]. rewrite length_reverse. apply drop_while_length.
Qed.

Lemma join_lines_snoc lines l : length (join_lines (lines ++ [l])) = length (join_lines lines) + length l + if decide (lines = []) then 0 else 1.
Proof.
  induction lines as [|x lines IH]; [rewrite decide_True by done; cbn; lia|]. rewrite decide_False by done.
  destruct lines as [|y lines]; [cbn [app join_lines]; rewrite length_app; cbn [length]; lia|].
  change (join_lines ((x :: y :: lines) ++ [l])) with (x ++ LF :: join_lines ((y :: lines) ++ [l])).
  change (join_lines (x :: y :: lines)) with (x ++ LF :: join_lines (y :: lines)).
  rewrite !length_app. cbn [length]. rewrite IH, decide_False by done. lia.
Qed.

(** The pieces and the lines held back hold what was read; both keep within the cap. *)
Record packing (m : Z) (read : list line_of) (p : Packing) : Prop := {
  pk_fit : Forall (fun x => x.2 <> [] /\ (Z.of_nat (length x.2) <= m)%Z) (pk_pieces p);
  pk_sized : pk_size p = Z.of_nat (length (join_lines (map snd (pk_buf p))));
  pk_bound : (pk_size p <= m)%Z;
  pk_content : squeezed (map snd (pk_pieces p)) ++ squeezed (map snd (pk_buf p)) = squeezed (map snd read)
}.

Lemma flush_packing m read p : (1 <= m)%Z -> packing m read p -> packing m read (flush p).
Proof.
  intros Hm [Hf Hs Hb Hc]. split; [|done|cbn; lia|].
  - cbn. destruct (pk_buf p) as [|[i l] buf] eqn:Hbuf; [done|]. case_decide as Ht; [done|]. apply Forall_app. split; [done|].
    constructor; [|constructor]. cbn [snd]. split; [done|].
    pose proof (strip_newlines_length (join_lines (map snd ((i, l) :: buf)))). lia.
  - rewrite <-Hc. unfold flush. cbn [pk_pieces pk_buf]. cbn [map].
    rewrite <-(squeeze_join (map snd (pk_buf p))), <-(squeeze_strip_newlines (join_lines (map snd (pk_buf p)))).
    change (squeezed []) with (@nil ascii). rewrite app_nil_r. destruct (pk_buf p) as [|[i l] buf]; [cbn; by rewrite app_nil_r|].
    case_decide as Ht; [by rewrite Ht, app_nil_r|]. rewrite map_app, squeezed_app. cbn [map snd]. by rewrite squeezed_cons, app_nil_r.
Qed.

Lemma hold_packing m read p x : packing m read p -> (pk_size (hold p x) <= m)%Z -> packing m (read ++ [x]) (hold p x).
Proof.
  intros [Hf Hs Hb Hc] Hm. split; [done| |done|].
  - cbn. rewrite map_app. cbn [map]. rewrite join_lines_snoc, Hs.
    rewrite (decide_ext (pk_buf p = []) (map snd (pk_buf p) = [])) by (by destruct (pk_buf p)). case_decide; lia.
  - unfold hold. cbn [pk_pieces pk_buf]. by rewrite !map_app, !squeezed_app, (assoc_L (++)), Hc.
Qed.

Lemma zero_overlap m : (1 <= m)%Z -> effective_overlap m 0 = 0%Z.
Proof. intros Hm. unfold effective_overlap, MAX_OVERLAP_DIVISOR. pose proof (Z.div_pos m 4 ltac:(lia) ltac:(lia)). lia. Qed.

Lemma line_step_packing m read p x : (1 <= m)%Z -> packing m read p -> exists p', line_step m p x = Ok p' /\ packing m (read ++ [x]) p'.
Proof.
  destruct x as [i line]. intros Hm Hp. unfold line_step. destruct (skipped (pk_buf p) line) eqn:Hs.
  - apply andb_true_iff in Hs as [->%bool_decide_eq_true _]. exists p. split; [done|]. destruct Hp. split; try done.
    rewrite map_app, squeezed_app. cbn. by rewrite !app_nil_r.
  - destruct (m <? Z.of_nat (length line))%Z eqn:Hl.
    + apply Z.ltb_lt in Hl. destruct (split_oversized_spec line m 0 ltac:(lia)) as (parts & -> & Hfit & _ & Hsq & _). cbn [mbind result_bind].
      eexists. split; [done|]. destruct (flush_packing m read p Hm Hp) as [Hf Hsz Hb Hc]. split; cbn [pk_pieces pk_buf pk_size]; [|done|done|].
      * apply Forall_app. split; [done|]. apply Forall_fmap. eapply Forall_impl; [exact Hfit|]. intros c [Ht Hc']. cbn. split; [by apply trimmed_nonempty|done].
      * rewrite !map_app, !squeezed_app, <-Hc, map_map. cbn [map snd]. rewrite (map_id parts), <-Hsq by by apply zero_overlap.
        rewrite squeezed_cons. cbn [squeezed map concat]. by rewrite !app_nil_r.
    + apply Z.ltb_ge in Hl. destruct (negb _ && _) eqn:Hfl.
      * eexists. split; [done|]. apply hold_packing; [by apply flush_packing|]. cbn. rewrite decide_True by done. lia.
      * eexists. split; [done|]. apply hold_packing; [done|]. cbn. case_decide as Hb.
        { destruct Hp as [_ Hsz _ _]. rewrite Hb in Hsz. cbn in Hsz. lia. }
        { rewrite bool_decide_false in Hfl by done. cbn [negb andb] in Hfl. apply Z.ltb_ge in Hfl. lia. }
Qed.

(** *** Order: the pieces come in the order of their lines *)

Definition indexes_of (p : Packing) : list nat := map fst (pk_pieces p) ++ map fst (pk_buf p).

Definition in_order (hi : nat) (l : list nat) : Prop := StronglySorted le l /\ Forall (fun i => i <= hi) l.

Lemma in_order_app_l hi a b : in_order hi (a ++ b) -> in_order hi a.
Proof. intros [(_ & Hs & _)%StronglySorted_app [Hf _]%Forall_app]. by split. Qed.

Lemma in_order_snoc hi hi' l k : in_order hi l -> hi <= hi' -> Forall (fun i => i = hi') k -> in_order hi' (l ++ k).
Proof.
  intros [Hs Hf] Hle Hk. rewrite Forall_forall in Hf. split.
  - apply StronglySorted_app. rewrite Forall_forall in Hk. split; [|split; [done|]].
    + intros x y Hx Hy. specialize (Hf x Hx). specialize (Hk y Hy). lia.
    + rewrite <-Forall_forall in Hk. induction Hk as [|y k -> Hk IH]; constructor; [done|]. eapply Forall_impl; [exact Hk|]. by intros ? ->.
  - apply Forall_app. split; [apply Forall_forall; intros x Hx; specialize (Hf x Hx); lia|]. eapply Forall_impl; [exact Hk|]. by intros ? ->.
Qed.

Lemma flush_order hi p : in_order hi (indexes_of p) -> in_order hi (indexes_of (flush p)).
Proof.
  unfold indexes_of, flush. cbn [pk_pieces pk_buf map]. rewrite app_nil_r. destruct (pk_buf p) as [|[i l] buf]; [by rewrite app_nil_r|].
  intros H. case_decide; [by apply in_order_app_l in H|]. rewrite map_app. cbn [map fst] in *.
  change (i :: map fst buf) with ([i] ++ map fst buf) in H. rewrite (assoc_L (++)) in H. by apply in_order_app_l in H.
Qed.

Lemma hold_order hi p x : in_order hi (indexes_of p) -> hi <= x.1 -> in_order x.1 (indexes_of (hold p x)).
Proof.
  intros H Hx. unfold indexes_of, hold. cbn [pk_pieces pk_buf]. rewrite map_app, (assoc_L (++)). apply (in_order_snoc hi); [done..|].
  by repeat constructor.
Qed.

Lemma line_step_order m hi p x p' : in_order hi (indexes_of p) -> hi <= x.1 -> line_step m p x = Ok p' -> in_order x.1 (indexes_of p').
Proof.
  destruct x as [i line]. intros H Hx. cbn [fst] in Hx. unfold line_step. destruct (skipped _ _).
  { intros [= <-]. rewrite <-(app_nil_r (indexes_of p)). by apply (in_order_snoc hi). }
  destruct (_ <? _)%Z.
  - destruct (split_oversized _ _ _) as [parts|e]; [|done]. cbn [mbind result_bind]. intros [= <-].
    apply flush_order in H. unfold indexes_of in *. cbn [flush pk_pieces pk_buf map] in *. rewrite app_nil_r in *.
    rewrite map_app. apply (in_order_snoc hi); [done..|]. rewrite map_map. cbn. by apply Forall_map, Forall_true.
  - destruct (negb _ && _); intros [= <-].
    + by apply (hold_order hi); [apply flush_order|].
    + by apply (hold_order hi).
Qed.

Lemma pack_lines_spec m owned : (1 <= m)%Z -> StronglySorted le (map fst owned) -> exists pieces, pack_lines owned m = Ok pieces /\
  Forall (fun x => x.2 <> [] /\ (Z.of_nat (length x.2) <= m)%Z) pieces /\ squeezed (map snd pieces) = squeezed (map snd owned) /\
  StronglySorted le (map fst pieces).
Proof.
  intros Hm Hsort. unfold pack_lines. assert (Hfold : exists p, foldl (fun acc x => p ← acc; line_step m p x)
      (Ok {| pk_pieces := []; pk_buf := []; pk_size := 0 |}) owned = Ok p /\ packing m owned p /\
      in_order (default 0 (last (map fst owned))) (indexes_of p)).
  { induction owned as [|x owned IH] using rev_ind.
    - eexists. split; [done|]. split; [|by split; constructor]. split; [constructor|done|cbn; lia|done].
    - rewrite map_app in Hsort. apply StronglySorted_app in Hsort as (Hlast & Hsort & _). destruct (IH Hsort) as (p & Hp & Hpk & Hord).
      rewrite foldl_snoc, Hp. cbn [mbind result_bind]. destruct (line_step_packing m owned p x Hm Hpk) as (p' & Hp' & Hpk').
      exists p'. split; [done|]. split; [done|]. rewrite map_app. cbn [map]. rewrite last_snoc. cbn [default].
      eapply line_step_order; [exact Hord| |exact Hp']. destruct (last (map fst owned)) as [j|] eqn:Hj; cbn; [|lia].
      apply (Hlast j x.1); [by apply last_Some_elem_of|by left]. }
  destruct Hfold as (p & -> & Hpk & Hord). apply flush_packing in Hpk as [Hf _ _ Hc]; [|done]. apply flush_order in Hord as [Hord _].
  eexists. split; [done|]. split; [done|].
  unfold indexes_of in Hord. cbn [flush pk_buf map squeezed concat] in *. rewrite app_nil_r in *. by split.
Qed.

(** ** Who owns a line *)

Lemma enumerate_snoc {A} (l : list A) x : enumerate (l ++ [x]) = enumerate l ++ [(length l, x)].
Proof. unfold enumerate. rewrite imap_app. cbn. by rewrite Nat.add_0_r. Qed.

Lemma elem_of_enumerate {A} (l : list A) i x : (i, x) ∈ enumerate l <-> l !! i = Some x.
Proof.
  unfold enumerate. rewrite elem_of_lookup_imap. split; [by intros (j & y & [= -> ->] & ?)|]. intros H. by exists i, x.
Qed.

Lemma filter_enumerate {A} (P : A -> Prop) `{!forall x, Decision (P x)} (l : list A) :
  snd <$> filter (fun x : nat * A => P x.2) (enumerate l) = filter P l.
Proof.
  induction l as [|x l IH] using rev_ind; [done|]. rewrite enumerate_snoc, !filter_app, fmap_app, IH. f_equal.
  rewrite !filter_cons, !filter_nil. cbn [snd]. by case_decide.
Qed.

Lemma own_lookup owners i s k : 1 <= start_line s <= end_line s -> end_line s <= length owners ->
  length (own owners (i, s)) = length owners /\
  own owners (i, s) !! k = if contains_line (S k) s then Some (Some i) else owners !! k.
Proof.
  intros Hs He. unfold own. split.
  - rewrite !length_app, length_take, length_replicate, length_drop. lia.
  - unfold contains_line. destruct (start_line s <=? S k) eqn:H1.
    + apply Nat.leb_le in H1. rewrite lookup_app_r by (rewrite length_take; lia). rewrite length_take, Nat.min_l by lia.
      destruct (S k <=? end_line s) eqn:H2; cbn [andb].
      * apply Nat.leb_le in H2. rewrite lookup_app_l by (rewrite length_replicate; lia). apply lookup_replicate_2. lia.
      * apply Nat.leb_gt in H2. rewrite lookup_app_r by (rewrite length_replicate; lia). rewrite length_replicate, lookup_drop. f_equal. lia.
    + apply Nat.leb_gt in H1. cbn [andb]. rewrite lookup_app_l by (rewrite length_take; lia). rewrite lookup_take, decide_True by lia. done.
Qed.

(** The last definition found that holds the line. *)
Definition owner_at (spans : list SymbolSpan) (line : nat) : option (nat * SymbolSpan) :=
  last (filter (fun x : nat * SymbolSpan => contains_line line x.2 = true) (enumerate spans)).

Lemma owners_spec spans n : Forall (within 0 n) spans ->
  length (owners_of spans n) = n /\ forall k, k < n -> owners_of spans n !! k = Some (fst <$> owner_at spans (S k)).
Proof.
  unfold owners_of, owner_at. induction spans as [|s spans IH] using rev_ind.
  - intros _. cbn. rewrite length_replicate. split; [done|]. intros k Hk. by apply lookup_replicate_2.
  - intros [Hw [Hs _]%Forall_cons]%Forall_app. destruct (IH Hw) as [Hlen Hget]. rewrite enumerate_snoc, foldl_snoc.
    unfold within in Hs. destruct (own_lookup (foldl own (replicate n None) (enumerate spans)) (length spans) s 0) as [Hl _]; [lia|lia|].
    split; [congruence|]. intros k Hk. destruct (own_lookup (foldl own (replicate n None) (enumerate spans)) (length spans) s k) as [_ ->]; [lia|lia|].
    rewrite filter_app, filter_cons, filter_nil. cbn [snd]. destruct (contains_line (S k) s).
    + rewrite decide_True by done. by rewrite last_snoc.
    + rewrite decide_False by done. rewrite app_nil_r. by apply Hget.
Qed.

Lemma owner_at_span spans line : snd <$> owner_at spans line = last (filter (fun s => contains_line line s = true) spans).
Proof. unfold owner_at. by rewrite <-(filter_enumerate (fun s => contains_line line s = true)), fmap_last. Qed.

Lemma owner_at_index spans line i s : owner_at spans line = Some (i, s) -> spans !! i = Some s.
Proof. intros H%last_Some_elem_of. apply list_elem_of_filter in H as [_ H]. by apply elem_of_enumerate. Qed.

(** ** Each owner's lines *)

Fixpoint get_lines (o : option nat) (owned : list (option nat * list line_of)) : option (list line_of) :=
  match owned with
  | [] => None
  | (o', l) :: owned' => if decide (o' = o) then Some l else get_lines o owned'
  end.

Lemma get_lines_push o o' x owned :
  get_lines o (push_line o' x owned) = if decide (o' = o) then Some (default [] (get_lines o owned) ++ [x]) else get_lines o owned.
Proof.
  induction owned as [|[q l] owned IH]; cbn; [by case_decide|].
  destruct (decide (q = o')) as [->|Hq]; cbn; [by case_decide|]. rewrite IH. repeat case_decide; congruence.
Qed.

Lemma elem_of_push o o' x owned : o ∈ map fst (push_line o' x owned) -> o = o' \/ o ∈ map fst owned.
Proof.
  induction owned as [|[q l] owned IH]; cbn; [by intros ?%list_elem_of_singleton; left|].
  destruct (decide (q = o')) as [->|Hq]; cbn; [by right|]. rewrite !elem_of_cons. tauto.
Qed.

Lemma push_line_nodup o x owned : NoDup (map fst owned) -> NoDup (map fst (push_line o x owned)).
Proof.
  induction owned as [|[q l] owned IH]; cbn; [intros _; apply NoDup_singleton|].
  intros [Hq Hn]%NoDup_cons. destruct (decide (q = o)) as [->|Hne]; cbn; [by constructor|].
  constructor; [|by apply IH]. by intros [->|]%elem_of_push.
Qed.

Lemma get_lines_elem o l owned : NoDup (map fst owned) -> (o, l) ∈ owned <-> get_lines o owned = Some l.
Proof.
  induction owned as [|[q k] owned IH]; cbn; [intros _; split; [by intros ?%not_elem_of_nil|done]|].
  intros [Hq Hn]%NoDup_cons. rewrite elem_of_cons. case_decide as Hqo; [subst q|].
  - split; [intros [[= ->]|Hin]; [done|]|intros [= ->]; by left]. destruct Hq. by apply (list_elem_of_fmap_2 fst) in Hin.
  - rewrite <-IH by done. split; [intros [[= -> _]|]; done|by right].
Qed.

(** What belongs to each owner among the lines read. *)
Record owned_by (g : nat -> option nat) (read : list line_of) (owned : list (option nat * list line_of)) : Prop := {
  ob_nodup : NoDup (map fst owned);
  ob_owner : forall o, o ∈ map fst owned -> exists k, o = g k;
  ob_lines : forall o, default [] (get_lines o owned) = filter (fun x => g x.1 = o) read
}.

Lemma enumerate_lookup {A} (l : list A) k : enumerate l !! k = (fun x => (k, x)) <$> l !! k.
Proof. unfold enumerate. by rewrite list_lookup_imap. Qed.

Lemma owned_spec (g : nat -> option nat) lines n : n <= length lines ->
  exists owned, foldl (own_line lines) (Ok []) (map (fun k => (k, g k)) (seq 0 n)) = Ok owned /\ owned_by g (take n (enumerate lines)) owned.
Proof.
  induction n as [|n IH]; intros Hn; [exists []; split; [done|]; split; [constructor|by intros o ?%not_elem_of_nil|done]|].
  destruct IH as (owned & Ho & Hob); [lia|]. destruct Hob as [Hnd Hk Hl]. destruct (lookup_lt_is_Some_2 lines n) as [line Hline]; [lia|].
  rewrite seq_S, map_app. cbn [map]. rewrite foldl_snoc, Ho. cbn [own_line mbind result_bind fst snd Nat.add]. rewrite Hline.
  eexists. split; [done|]. split; [by apply push_line_nodup|intros o [->|Ho']%elem_of_push; [by exists n|by apply Hk]|]. intros o.
  rewrite (take_S_r _ n (n, line)) by (by rewrite enumerate_lookup, Hline). rewrite filter_app, <-Hl, get_lines_push, filter_cons, filter_nil. cbn [fst].
  case_decide; [done|]. by rewrite app_nil_r.
Qed.

Lemma enumerate_owners spans n : Forall (within 0 n) spans ->
  enumerate (owners_of spans n) = map (fun k => (k, fst <$> owner_at spans (S k))) (seq 0 n).
Proof.
  intros Hw. destruct (owners_spec spans n Hw) as [Hlen Hget]. apply list_eq. intros k. rewrite enumerate_lookup.
  change (map (fun k => (k, fst <$> owner_at spans (S k))) (seq 0 n)) with ((fun k => (k, fst <$> owner_at spans (S k))) <$> seq 0 n).
  rewrite list_lookup_fmap. destruct (decide (k < n)) as [Hk|Hk].
  - by rewrite Hget, lookup_seq_lt by lia.
  - rewrite !lookup_ge_None_2; [done|rewrite length_seq; lia|lia].
Qed.

Lemma enumerate_sorted {A} (l : list A) : StronglySorted le (map fst (enumerate l)).
Proof.
  induction l as [|x l IH] using rev_ind; [constructor|]. rewrite enumerate_snoc, map_app. apply StronglySorted_app.
  split; [|split; [done|repeat constructor]]. intros i j (y & -> & Hy)%list_elem_of_fmap Hj%list_elem_of_singleton. subst j.
  destruct y as [i y]. apply elem_of_enumerate, lookup_lt_Some in Hy. cbn. lia.
Qed.

Lemma filter_Forall {A} (P Q : A -> Prop) `{!forall x, Decision (P x)} l : Forall Q l -> Forall Q (filter P l).
Proof. rewrite !Forall_forall. intros HQ x [_ Hx]%list_elem_of_filter. by apply HQ. Qed.

Lemma filter_sorted {A} (P : nat * A -> Prop) `{!forall x, Decision (P x)} l :
  StronglySorted le (map fst l) -> StronglySorted le (map fst (filter P l)).
Proof.
  induction l as [|x l IH]; [done|]. cbn [map]. intros [Hs Hf]%StronglySorted_inv. rewrite filter_cons. case_decide; [|by apply IH].
  cbn [map]. constructor; [by apply IH|]. rewrite Forall_map in Hf |- *. by apply filter_Forall.
Qed.

(** ** The pieces of a file *)

(** The symbol a piece is anchored at. *)
Definition anchor_symbol (md : metadata) : option (option string) :=
  match odict_get CODE_ANCHOR_KEY md with
  | Some (VDict anchor) => match odict_get "symbol" anchor with Some (VStr s) => Some (Some s) | Some VNone => Some None | _ => None end
  | _ => None
  end.

Definition pieces_under (sym : option string) (pieces : list (string * metadata)) : list (list ascii) :=
  map (fun p => chars p.1) (filter (fun p => anchor_symbol p.2 = Some sym) pieces).

(** The lines whose innermost symbol it is. *)
Definition lines_under (parse : string -> option (list stmt)) (text : string) (sym : option string) : list (list ascii) :=
  map snd (filter (fun x => enclosing_symbol parse text (S x.1) = Some sym) (enumerate (normal_lines text))).

Lemma anchor_symbol_code repo file sym sha : anchor_symbol (code_anchor repo file sym sha) = Some sym.
Proof. by destruct sym. Qed.

(** The pieces placed under a symbol, before they are read. *)
Definition chosen (sym : option string) (k : list (nat * (list ascii * metadata))) : list (nat * (list ascii * metadata)) :=
  filter (fun p => anchor_symbol p.2.2 = Some sym) k.

Lemma chosen_app sym a b : chosen sym (a ++ b) = chosen sym a ++ chosen sym b.
Proof. apply filter_app. Qed.

Lemma placed_leb_total (a b : nat * (list ascii * metadata)) : placed_leb a b = true \/ placed_leb b a = true.
Proof. unfold placed_leb. rewrite !Nat.leb_le. lia. Qed.

Lemma placed_leb_trans (a b c : nat * (list ascii * metadata)) : placed_leb a b = true -> placed_leb b c = true -> placed_leb a c = true.
Proof. unfold placed_leb. rewrite !Nat.leb_le. lia. Qed.

Lemma chosen_sorted sym k : StronglySorted le (map fst (chosen sym k)) -> chosen sym (stable_sort placed_leb k) = chosen sym k.
Proof.
  intros Hs. unfold chosen. rewrite select_sorted by (apply placed_leb_total || apply placed_leb_trans). apply sort_sorted.
  fold (chosen sym k). revert Hs. generalize (chosen sym k). clear k. intros k. induction k as [|x k IH]; [constructor|].
  cbn [map]. intros [Hs Hf]%StronglySorted_inv. constructor; [by apply IH|]. rewrite Forall_map in Hf. eapply Forall_impl; [exact Hf|].
  intros y Hy. by apply Nat.leb_le.
Qed.

Section pieces.
Context (parse : string -> option (list stmt)) (sha256_hex : string -> string).
Context (text file : string) (repo : option string) (max_chars : Z) (body : list stmt) (last_line : nat).
Context (Hparse : parse (normalize text) = Some body).
Context (Hnames : Forall plain (concat (map names body))).
Context (Hplace : place_body (Some 0) body = Some last_line).
Context (Hlines : last_line <= length (normal_lines text)).
Context (Hm : (1 <= max_chars)%Z).
Context (spans : list SymbolSpan) (Hr : resolve_symbols parse text = Some spans).
Context (Hnd : NoDup (symbol <$> spans)) (Hl : laid_out 0 last_line spans).

Definition owner_of (k : nat) : option nat := fst <$> owner_at spans (S k).

Definition sym_of (o : option nat) : option string := o ≫= (fun i => symbol <$> spans !! i).

Definition valid (o : option nat) : Prop := match o with Some i => is_Some (spans !! i) | None => True end.

Lemma owner_valid k : valid (owner_of k).
Proof. unfold owner_of. destruct (owner_at spans (S k)) as [[i s]|] eqn:Ho; [|done]. apply owner_at_index in Ho. by exists s. Qed.

Lemma sym_of_inj o o' : valid o -> valid o' -> sym_of o = sym_of o' -> o = o'.
Proof.
  destruct o as [i|], o' as [j|]; cbn; [|by intros [s ->]|by intros _ [s ->]|done].
  intros [s Hs] [s' Hs']. rewrite Hs, Hs'. cbn. intros [= Heq]. f_equal. apply (NoDup_lookup _ i j (symbol s) Hnd); rewrite list_lookup_fmap.
  - by rewrite Hs.
  - rewrite Hs'. cbn. by f_equal.
Qed.

Lemma enclosing_owner k : enclosing_symbol parse text (S k) = Some (sym_of (owner_of k)).
Proof.
  rewrite (enclosing_last parse text last_line spans) by done. rewrite <-owner_at_span. unfold owner_of.
  destruct (owner_at spans (S k)) as [[i s]|] eqn:Ho; [|done]. apply owner_at_index in Ho. cbn. by rewrite Ho.
Qed.

(** The pieces of one owner's lines. *)
Record placed_for (x : option nat * list line_of) (k : list (nat * (list ascii * metadata))) : Prop := {
  pf_fit : Forall (fun p => p.2.1 <> [] /\ (Z.of_nat (length p.2.1) <= max_chars)%Z) k;
  pf_content : squeezed (map (fun p => p.2.1) k) = squeezed (map snd x.2);
  pf_sorted : StronglySorted le (map fst k);
  pf_anchor : Forall (fun p => exists sha, p.2.2 = code_anchor repo file (sym_of x.1) sha /\
                        symbol_sha parse sha256_hex text (sym_of x.1) = Some (Ok sha)) k
}.

Lemma place_owner_spec o l : valid o -> StronglySorted le (map fst l) ->
  exists k, place_owner sha256_hex text file repo max_chars (normal_lines text) spans (o, l) = Ok k /\ placed_for (o, l) k.
Proof.
  intros Hv Hs. destruct (pack_lines_spec max_chars l Hm Hs) as (pieces & Hp & Hf & Hc & Hord).
  assert (Hfor : forall sha, symbol_sha parse sha256_hex text (sym_of o) = Some (Ok sha) ->
    placed_for (o, l) (map (fun p => (p.1, (p.2, code_anchor repo file (sym_of o) sha))) pieces)).
  { intros sha Hsha. split; cbn [fst snd].
    - apply Forall_map. exact Hf.
    - rewrite map_map. cbn. exact Hc.
    - rewrite map_map. exact Hord.
    - apply Forall_map, Forall_true. intros p. by exists sha. }
  unfold place_owner. cbn [fst snd]. destruct o as [i|]; cbn [sym_of mbind option_bind] in *.
  - destruct Hv as [s Hi]. rewrite Hi in *. cbn [mbind result_bind fmap option_fmap option_map] in *. rewrite Hp. cbn [mbind result_bind].
    eexists. split; [reflexivity|]. apply Hfor. apply (symbol_sha_span parse sha256_hex text spans); [done..|]. by eapply list_elem_of_lookup_2.
  - cbn [mbind result_bind]. rewrite Hp. cbn [mbind result_bind]. eexists. split; [reflexivity|]. by apply Hfor.
Qed.

Lemma chosen_one sym x k : placed_for x k -> chosen sym k = if decide (sym_of x.1 = sym) then k else [].
Proof.
  intros [_ _ _ Ha]. unfold chosen. case_decide as Hs.
  - apply list_filter_all. eapply Forall_impl; [exact Ha|]. intros p (sha & -> & _). by rewrite anchor_symbol_code, Hs.
  - apply list_filter_none. eapply Forall_impl; [exact Ha|]. intros p (sha & -> & _). rewrite anchor_symbol_code. congruence.
Qed.

Lemma chosen_all sym owned ls : Forall2 placed_for owned ls -> NoDup (map fst owned) -> Forall valid (map fst owned) ->
  (exists o l k, (o, l) ∈ owned /\ placed_for (o, l) k /\ sym_of o = sym /\ chosen sym (concat ls) = k) \/
  ((forall o, o ∈ map fst owned -> sym_of o <> sym) /\ chosen sym (concat ls) = []).
Proof.
  induction 1 as [|[o l] k owned ls Hk _ IH]; [intros _ _; right; split; [by intros o ?%not_elem_of_nil|done]|].
  cbn [map fst]. intros [Ho Hn]%NoDup_cons [Hv Hvs]%Forall_cons. specialize (IH Hn Hvs). cbn [concat]. rewrite chosen_app, (chosen_one sym _ k Hk). cbn [fst].
  case_decide as Hs.
  - left. exists o, l, k. split; [by left|]. split; [done|]. split; [done|].
    destruct IH as [(o' & l' & k' & Hin & _ & Hs' & _)|[_ ->]]; [|by rewrite app_nil_r]. destruct Ho.
    apply (list_elem_of_fmap_2 fst) in Hin. cbn in Hin. rewrite Forall_forall in Hvs. by rewrite (sym_of_inj o o') by (congruence || auto).
  - destruct IH as [(o' & l' & k' & Hin & Hk' & Hs' & ->)|[Hno ->]].
    + left. exists o', l', k'. split; [by right|]. done.
    + right. split; [|done]. intros o'. rewrite elem_of_cons. intros [->|Hin]; [done|by apply Hno].
Qed.

(** The owners' lines, and what is placed for each. *)
Lemma owners_placed : exists owned ls,
  foldl (own_line (normal_lines text)) (Ok []) (enumerate (owners_of spans (length (normal_lines text)))) = Ok owned /\
  result_mapM (place_owner sha256_hex text file repo max_chars (normal_lines text) spans) owned = Ok ls /\
  owned_by owner_of (enumerate (normal_lines text)) owned /\ Forall2 placed_for owned ls.
Proof.
  destruct Hl as (_ & Hw & _). rewrite enumerate_owners by (eapply Forall_impl; [exact Hw|]; unfold within; intros s ?; lia).
  destruct (owned_spec owner_of (normal_lines text) (length (normal_lines text)) (le_n _)) as (owned & Ho & Hob).
  rewrite take_ge in Hob by (unfold enumerate; by rewrite length_imap). exists owned.
  assert (Hall : Forall (fun x => exists k, place_owner sha256_hex text file repo max_chars (normal_lines text) spans x = Ok k /\ placed_for x k) owned).
  { apply Forall_forall. intros [o l] Hin. destruct Hob as [Hn Hk Hlines']. apply place_owner_spec.
    - destruct (Hk o) as [k ->]; [by apply (list_elem_of_fmap_2 fst) in Hin|]. apply owner_valid.
    - apply get_lines_elem in Hin; [|done]. specialize (Hlines' o). rewrite Hin in Hlines'. cbn in Hlines'. subst l.
      apply filter_sorted, enumerate_sorted. }
  assert (Hls : exists ls, result_mapM (place_owner sha256_hex text file repo max_chars (normal_lines text) spans) owned = Ok ls /\ Forall2 placed_for owned ls).
  { clear Ho Hob. induction Hall as [|x owned (k & Hk & Hp) _ (ls & Hls & H2)]; [by exists []|]. exists (k :: ls). cbn [result_mapM].
    rewrite Hk. cbn [mbind result_bind]. rewrite Hls. split; [done|by constructor]. }
  destruct Hls as (ls & Hls & H2). by exists ls.
Qed.

Lemma chosen_content sym owned ls : owned_by owner_of (enumerate (normal_lines text)) owned -> Forall2 placed_for owned ls ->
  StronglySorted le (map fst (chosen sym (concat ls))) /\
  squeezed (map (fun p => p.2.1) (chosen sym (concat ls))) = squeezed (lines_under parse text sym).
Proof.
  intros [Hn Hk Hg] H2. assert (Hv : Forall valid (map fst owned)) by (apply Forall_forall; intros o [k ->]%Hk; apply owner_valid).
  unfold lines_under. rewrite (list_filter_iff _ (fun x : nat * list ascii => sym_of (owner_of x.1) = sym)) by (intros x; rewrite enclosing_owner; split; congruence).
  destruct (chosen_all sym owned ls H2 Hn Hv) as [(o & l & k & Hin & [_ Hc Hs _] & Hsym & ->)|[Hno ->]].
  - split; [exact Hs|]. rewrite Hc. cbn [snd]. do 2 f_equal. specialize (Hg o). apply get_lines_elem in Hin as Hin'; [|done].
    rewrite Hin' in Hg. cbn in Hg. rewrite Hg. apply list_filter_iff. intros x. split; [intros ->; by rewrite Hsym|].
    intros Hx. apply sym_of_inj; [apply owner_valid| |congruence]. apply (list_elem_of_fmap_2 fst) in Hin. rewrite Forall_forall in Hv. by apply (Hv o).
  - split; [constructor|]. rewrite list_filter_none; [done|]. apply Forall_forall. intros x Hx Hsym.
    specialize (Hg (owner_of x.1)). destruct (get_lines (owner_of x.1) owned) as [l|] eqn:Hget; cbn in Hg.
    + apply get_lines_elem in Hget; [|done]. apply (list_elem_of_fmap_2 fst) in Hget. by apply (Hno _ Hget).
    + assert (Hin : x ∈ filter (fun x : nat * list ascii => owner_of x.1 = owner_of x.1) (enumerate (normal_lines text))) by by apply list_elem_of_filter.
      apply (not_elem_of_nil x). rewrite Hg. by apply list_elem_of_filter.
Qed.
End pieces.

(** C28: a Python file's chunks. When the file parses, its names are identifiers and its definitions
    are laid out in order within its lines, the chunks always exist; each holds something and keeps
    within the cap; each is anchored at a symbol, with the very hash that the symbol is looked up
    by; and the chunks anchored at a symbol, read in their order, hold every visible character of
    the lines whose innermost symbol it is, once and in order, and nothing else. *)
Theorem code_pieces_exact parse sha256_hex text file repo max_chars body last_line :
  is_python file = true -> parse (normalize text) = Some body -> Forall plain (concat (map names body)) ->
  place_body (Some 0) body = Some last_line -> last_line <= length (normal_lines text) -> (1 <= max_chars)%Z ->
  exists pieces, code_pieces parse sha256_hex text file repo max_chars = Ok pieces /\
    Forall (fun p => p.1 <> "" /\ (Z.of_nat (length (chars p.1)) <= max_chars)%Z) pieces /\
    Forall (fun p => exists sym sha, p.2 = code_anchor repo file sym sha /\ symbol_sha parse sha256_hex text sym = Some (Ok sha)) pieces /\
    forall sym, squeezed (pieces_under sym pieces) = squeezed (lines_under parse text sym).
Proof.
  intros Hpy Hparse Hnames Hplace Hlines Hm. destruct (symbols_sound parse text body last_line Hparse Hnames Hplace) as (spans & Hr & Hnd & Hl).
  destruct (owners_placed parse sha256_hex text file repo max_chars last_line Hlines Hm spans Hr Hnd Hl) as (owned & ls & Ho & Hls & Hob & H2).
  unfold code_pieces. rewrite Hpy, Hr. cbn [negb]. rewrite Ho. cbn [mbind result_bind]. rewrite Hls. cbn [mbind result_bind].
  eexists. split; [reflexivity|].
  assert (Hall : Forall (fun p : nat * (list ascii * metadata) => (p.2.1 <> [] /\ (Z.of_nat (length p.2.1) <= max_chars)%Z) /\
    exists sym sha, p.2.2 = code_anchor repo file sym sha /\ symbol_sha parse sha256_hex text sym = Some (Ok sha)) (stable_sort placed_leb (concat ls))).
  { rewrite stable_sort_perm. apply Forall_concat. clear -H2. induction H2 as [|x k owned ls [Hf _ _ Ha] _ IH]; constructor; [|done].
    rewrite Forall_forall in Hf, Ha |- *. intros p Hp. split; [by apply Hf|]. destruct (Ha p Hp) as (sha & ? & ?). by exists (sym_of spans x.1), sha. }
  rewrite !Forall_map. split; [|split].
  - eapply Forall_impl; [exact Hall|]. intros p [[Hp Hlen] _]. cbn. rewrite chars_unchars. split; [|done]. intros Hu. apply Hp.
    by rewrite <-(chars_unchars p.2.1), Hu.
  - eapply Forall_impl; [exact Hall|]. by intros p [_ ?].
  - intros sym. destruct (chosen_content parse sha256_hex text file repo max_chars last_line spans Hr Hnd Hl sym owned ls Hob H2) as [Hs <-].
    rewrite <-chosen_sorted by exact Hs. unfold pieces_under, chosen. f_equal.
    clear Hall. induction (stable_sort placed_leb (concat ls)) as [|p k IH]; [done|]. cbn [map]. rewrite !filter_cons. cbn [fst snd].
    case_decide; [|done]. cbn [map]. rewrite IH. cbn [fst]. by rewrite chars_unchars.
Qed.

(** ** A file *)

Definition demo_code : string :=
  "import x" +:+ unchars [LF] +:+ "class A:" +:+ unchars [LF] +:+ "  f" +:+ unchars [LF] +:+ "  y = 1" +:+ unchars [LF] +:+ "x.go()".

Definition demo_body : list stmt := [Def "A" 2 4 [] [Def "f" 3 3 [] []]].

Lemma code_pieces_exact_witness :
  exists pieces, code_pieces (fun _ => Some demo_body) id demo_code "a/b.py" None 100 = Ok pieces /\
    squeezed (pieces_under (Some "A") pieces) = chars "classA:y=1" /\ squeezed (pieces_under None pieces) = chars "importxx.go()".
Proof.
  destruct (code_pieces_exact (fun _ => Some demo_body) id demo_code "a/b.py" None 100 demo_body 4) as (pieces & Hp & _ & _ & Hc).
  - vm_compute. reflexivity.
  - reflexivity.
  - apply Forall_forall. intros x Hx. vm_compute in Hx. unfold plain.
    repeat (apply elem_of_cons in Hx as [->|Hx]; [vm_compute; by intros [?|[]%not_elem_of_nil]%elem_of_cons|]). by apply not_elem_of_nil in Hx.
  - vm_compute. reflexivity.
  - apply Nat.leb_le. vm_compute. reflexivity.
  - lia.
  - exists pieces. split; [exact Hp|]. rewrite !Hc. split; vm_compute; reflexivity.
Defined.
