(* ===== verification/Context.v ===== *)
(** * Context: the passages that are embedded in place of the chunks (src/recall/context.py)

    Where a chunk lies in its document and under which headings, and the text that is embedded for
    it: the chunk with its document's title, section and neighbours as far as a budget of tokens
    allows. [count_tokens] is the tokenizer of a policy. In the range of [Text] the characters of
    the categories [C] are the control characters and the soft hyphen. *)
From S2P Require Import Prelude Text Float64 Frontmatter References FrontmatterBlock FrontmatterWriters Types TrustVerdicts Anchors Chunker.

Local Open Scope nat_scope.

Definition TITLE_MAX_CHARS : nat := 256.
Definition SOURCE_MAX_CHARS : nat := 256.
Definition SECTION_MAX_CHARS : nat := 512.
Definition SECTION_DEGRADED_MAX_CHARS : nat := 256.
Definition NEIGHBOR_MAX_CHARS : nat := 200.

Inductive ContextMode := ModeNone | ModeDocument | ModeSection | ModeNeighbor.

#[export] Instance ContextMode_eq_dec : EqDecision ContextMode.
Proof. solve_decision. Defined.

Record ContextPolicy := { cp_mode : ContextMode; cp_max_tokens : option Z; cp_count_tokens : option (string -> Z) }.

(** [ContextPolicy.__post_init__]. *)
Definition context_policy (mode : ContextMode) (max_tokens : option Z) (count_tokens : option (string -> Z)) : result ContextPolicy :=
  match max_tokens, count_tokens with
  | Some _, None => Raise (ValueError "context max_tokens requires an exact tokenizer")
  | _, _ => Ok {| cp_mode := mode; cp_max_tokens := max_tokens; cp_count_tokens := count_tokens |}
  end.

Record StructuredChunk := { sc_text : list ascii; sc_start : nat; sc_end : nat; sc_headings : list (list ascii) }.

(** ** Cleaning *)

(** [unicodedata.category(ch).startswith("C")]. *)
Definition control (c : ascii) : bool := (code c <? 32) || ((127 <=? code c) && (code c <=? 159)) || (code c =? 173).

(** [_clean], [None] when there is no cap. *)
Definition clean_text (limit : option nat) (l : list ascii) : list ascii :=
  let l := strip_chars (filter (fun c => control c = false) l) in
  match limit with Some n => take n l | None => l end.

(** [re.sub(r"\s+", " ", l)]. *)
Fixpoint squash (in_run : bool) (l : list ascii) : list ascii :=
  match l with
  | [] => []
  | c :: l' => if is_space c then if in_run then squash true l' else " "%char :: squash true l' else c :: squash false l'
  end.

(** [_fold]. *)
Definition fold_line (l : list ascii) : list ascii :=
  strip_chars (squash false (map (fun c => if control c then " "%char else c) l)).

Definition letter (c : ascii) : bool :=
  ((65 <=? code c) && (code c <=? 90)) || ((97 <=? code c) && (code c <=? 122)).

(** [^[A-Za-z]:(/|$)] at the head. *)
Definition drive (l : list ascii) : bool :=
  match l with
  | c :: d :: rest => letter c && bool_decide (d = ":"%char) && match rest with [] => true | e :: _ => bool_decide (e = "/"%char) end
  | _ => false
  end.

Definition root_relative_source (source : list ascii) : result (list ascii) :=
  let normalised := clean_text None (map (fun c => if decide (c = "\"%char) then "/"%char else c) source) in
  if decide (normalised = []) then Raise (ValueError "source must be a non-empty root-relative path")
  else if list_prefix (chars "/") normalised || drive normalised then Raise (ValueError "source must be root-relative, not absolute")
  else if existsb (fun segment => bool_decide (segment = chars "..")) (split_chars "/" normalised)
  then Raise (ValueError "source must be root-relative, without traversal")
  else Ok normalised.

(** ** Headings *)

(** [text.splitlines(keepends=True)]. *)
Fixpoint lines_keep (l : list ascii) : list (list ascii) :=
  match l with
  | [] => []
  | c :: l' =>
      if ends_line c then
        match l' with
        | d :: l'' => if decide (c = CR /\ d = LF) then [c; d] :: lines_keep l'' else [c] :: lines_keep l'
        | [] => [[c]]
        end
      else match lines_keep l' with [] => [[c]] | w :: ws => (c :: w) :: ws end
  end.

Definition rstrip_by (f : ascii -> bool) (l : list ascii) : list ascii := reverse (drop_while f (reverse l)).

(** [^(#{1,most})\s+(.+?)\s*$] on a line without its end: how many marks, and the text. *)
Definition heading_of (most : nat) (l : list ascii) : option (nat * list ascii) :=
  let rest := drop_while (fun c => bool_decide (c = "#"%char)) l in
  let marks := length l - length rest in
  let text := drop_while is_space rest in
  if (marks =? 0) || (most <? marks) || (length rest =? length text) then None
  else
    match text, last rest with
    | _ :: _, _ => Some (marks, rstrip_by is_space text)
    | [], Some c => if length rest =? 1 then None else Some (marks, [c])
    | [], None => None
    end.

(** [value.strip] of both quotes. *)
Definition strip_quotes (l : list ascii) : list ascii := rstrip_by is_quote (drop_while is_quote l).

(** The first [title:] at the margin of the block, as it stands. *)
Fixpoint title_in (ls : list (list ascii)) : option (list ascii) :=
  match ls with
  | [] => None
  | l :: ls' =>
      match (if starts_space l then None else partition_colon l) with
      | Some (key, v) => if decide (lower (FrontmatterBlock.stripped key) = "title") then Some v else title_in ls'
      | None => title_in ls'
      end
  end.

Fixpoint first_heading (ls : list (list ascii)) : option (list ascii) :=
  match ls with
  | [] => None
  | l :: ls' => match heading_of 1 (rstrip_by ends_line l) with Some (_, text) => Some text | None => first_heading ls' end
  end.

Definition document_title (raw body : string) (source : list ascii) : result (list ascii) :=
  match (span ← frontmatter_span raw; title_in (take (span - 1) (drop 1 (text_lines raw)))) with
  | Some v => Ok (clean_text (Some TITLE_MAX_CHARS) (strip_quotes (strip_chars v)))
  | None =>
      match first_heading (lines_keep (chars body)) with
      | Some text => Ok (clean_text (Some TITLE_MAX_CHARS) text)
      | None => s ← root_relative_source source; Ok (clean_text (Some TITLE_MAX_CHARS) (default [] (last (split_chars "/" s))))
      end
  end.

(** ** Where a chunk lies *)

(** The headings of a text: where each stands, its level and its words. *)
Fixpoint heading_events (cursor : nat) (ls : list (list ascii)) : list (nat * (nat * list ascii)) :=
  match ls with
  | [] => []
  | l :: ls' =>
      match heading_of 6 (rstrip_by (fun c => bool_decide (c = CR \/ c = LF)) l) with
      | Some (level, text) => [(cursor, (level, clean_text (Some 256) text))]
      | None => []
      end ++ heading_events (cursor + length l) ls'
  end.

(** [l.find(p)]. *)
Fixpoint find_sub (p l : list ascii) : option nat :=
  if list_prefix p l then Some 0 else match l with [] => None | _ :: l' => S <$> find_sub p l' end.

(** [l.find(p, from)]. *)
Definition find_from (p l : list ascii) (from : nat) : option nat :=
  if from <=? length l then Nat.add from <$> find_sub p (drop from l) else None.

(** [r"\s+".join(tokens)] at the head of a text: how far it matches. A token holds no white space,
    so that each [\s+] takes the whole run. *)
Fixpoint match_tokens (tokens : list (list ascii)) (l : list ascii) : option nat :=
  match tokens with
  | [] => Some 0
  | t :: ts =>
      if list_prefix t l then
        let rest := drop (length t) l in
        match ts with
        | [] => Some (length t)
        | _ =>
            let after := drop_while is_space rest in
            if length after =? length rest then None
            else n ← match_tokens ts after; Some (length t + (length rest - length after) + n)
        end
      else None
  end.

(** The first place it matches, and how far. *)
Fixpoint search_tokens (tokens : list (list ascii)) (l : list ascii) : option (nat * nat) :=
  match match_tokens tokens l with
  | Some n => Some (0, n)
  | None => match l with [] => None | _ :: l' => '(i, n) ← search_tokens tokens l'; Some (S i, n) end
  end.

(** [flexible.search(l, from)]: the ends of the match. *)
Definition search_from (tokens : list (list ascii)) (l : list ascii) (from : nat) : option (nat * nat) :=
  let from := Nat.min from (length l) in
  '(i, n) ← search_tokens tokens (drop from l); Some (from + i, from + i + n).

(** The ends of a chunk in its document: as it stands, or up to white space, after the chunk
    before it if possible. *)
Definition locate (body : list ascii) (from : nat) (text : list ascii) : option (nat * nat) :=
  let exactly k := (fun i => (i, i + length text)) <$> find_from text body k in
  match exactly from with
  | Some r => Some r
  | None =>
      match exactly 0 with
      | Some r => Some r
      | None => match search_from (words text) body from with Some r => Some r | None => search_from (words text) body 0 end
      end
  end.

(** The headings open at a place, the innermost first. *)
Fixpoint open_at (start : nat) (stack : list (nat * list ascii)) (events : list (nat * (nat * list ascii))) : list (nat * list ascii) :=
  match events with
  | [] => stack
  | (position, (level, text)) :: events' =>
      if start <? position then stack
      else open_at start ((level, text) :: (fix pop (s : list (nat * list ascii)) := match s with
             | (l, t) :: s' => if level <=? l then pop s' else s
             | [] => []
             end) stack) events'
  end.

Fixpoint structure_from (body : list ascii) (events : list (nat * (nat * list ascii))) (from : nat) (chunks : list (list ascii)) : result (list StructuredChunk) :=
  match chunks with
  | [] => Ok []
  | text :: chunks' =>
      match locate body from text with
      | None => Raise (ValueError "chunk text could not be mapped back to its source document")
      | Some (start, stop) =>
          rest ← structure_from body events (S start) chunks';
          Ok ({| sc_text := text; sc_start := start; sc_end := stop; sc_headings := reverse (map snd (open_at start [] events)) |} :: rest)
      end
  end.

Definition structure_chunks (body : list ascii) (chunks : list (list ascii)) : result (list StructuredChunk) :=
  structure_from body (heading_events 0 (lines_keep body)) 0 chunks.

(** ** Passages *)

Definition field (name : string) (l : list ascii) : list (list ascii) := if decide (l = []) then [] else [chars name ++ l].

(** [_render]. *)
Definition render_passage (content title section source previous following : list ascii) : list ascii :=
  Anchors.join_lines (field "title: " title ++ field "section: " section ++ field "source: " source ++ field "previous: " previous ++
    [chars "content: " ++ content] ++ field "following: " following).

(** [_degradation_ladder]: the passages from the richest to the poorest. *)
Definition degradation_ladder (content : list ascii) (mode : ContextMode) (title section source previous following : list ascii) : list (list ascii) :=
  let rungs :=
    [render_passage content title section source previous following; render_passage content title section source [] [];
     render_passage content title (clean_text (Some SECTION_DEGRADED_MAX_CHARS) section) source [] []; render_passage content title [] source [] [];
     render_passage content [] [] source [] []; content] in
  if decide (mode = ModeDocument) then drop 3 rungs else rungs.

(** The first rung within the budget, or the chunk itself. *)
Definition choose_rung (policy : ContextPolicy) (content : list ascii) (ladder : list (list ascii)) : result (list ascii) :=
  match cp_max_tokens policy with
  | None => Ok (default content (head ladder))
  | Some budget =>
      match cp_count_tokens policy with
      | None => Raise (RuntimeError "assert policy.tokenizer is not None")
      | Some count => Ok (default content (find (fun text => (count (unchars text) <=? budget)%Z) ladder))
      end
  end.

Definition passage (policy : ContextPolicy) (title source : list ascii) (chunks : list (list ascii)) (index : nat) (c : StructuredChunk) : result (list ascii) :=
  let contextual := bool_decide (cp_mode policy = ModeSection \/ cp_mode policy = ModeNeighbor) in
  let section := if contextual then clean_text (Some SECTION_MAX_CHARS) (chars (join " > " (map unchars (sc_headings c)))) else [] in
  let neighbors := bool_decide (cp_mode policy = ModeNeighbor) in
  let previous := if neighbors && negb (index =? 0)
                  then let f := fold_line (default [] (chunks !! (index - 1))) in drop (length f - NEIGHBOR_MAX_CHARS) f else [] in
  let following := if neighbors && (index + 1 <? length chunks) then take NEIGHBOR_MAX_CHARS (fold_line (default [] (chunks !! (index + 1)))) else [] in
  choose_rung policy (sc_text c) (degradation_ladder (sc_text c) (cp_mode policy) title section source previous following).

Definition contextual_passages (raw body : string) (chunks : list (list ascii)) (source : list ascii) (policy : ContextPolicy) :
    result (list StructuredChunk * list (list ascii)) :=
  s ← root_relative_source source;
  let safe_source := clean_text (Some SOURCE_MAX_CHARS) s in
  structured ← structure_chunks (chars body) chunks;
  if decide (cp_mode policy = ModeNone) then Ok (structured, chunks)
  else
    title ← document_title raw body source;
    passages ← result_mapM (fun x => passage policy title safe_source chunks x.1 x.2) (enumerate structured);
    Ok (structured, passages).

(** ** Examples *)

Example headings_ex : map (fun l => heading_of 6 (chars l)) ["# A b "; "#"; "#  "; "####### x"; "##x"; "text"] =
  [Some (1, chars "A b"); None; Some (1, [" "%char]); None; None; None].
Proof. vm_compute. reflexivity. Qed.

Example structure_ex :
  let body := chars "# T" ++ LF :: chars "one" ++ LF :: LF :: LF :: chars "two" ++ LF :: chars "## S" ++ LF :: chars "three" in
  (map (fun c => (sc_start c, sc_end c, map unchars (sc_headings c)))) <$> structure_chunks body [chars "one" ++ LF :: LF :: chars "two"; chars "three"] =
  Ok [(4, 13, ["T"]); (19, 24, ["T"; "S"])].
Proof. vm_compute. reflexivity. Qed.

Example traversal_ex : root_relative_source (chars ".\" ++ [Ascii.ascii_of_nat 0] ++ chars "..\x") = Raise (ValueError "source must be root-relative, without traversal").
Proof. vm_compute. reflexivity. Qed.
