(* ===== verification/ContextFacts.v ===== *)
(** * ContextFacts: where a chunk lies, under which headings, and what is embedded for it *)
From S2P Require Import Prelude Text Float64 Frontmatter References FrontmatterBlock FrontmatterWriters Types TrustVerdicts Anchors Chunker ChunkerFacts Context.

Local Open Scope nat_scope.

(** ** Words *)

Definition spaces (l : list ascii) : Prop := Forall (fun c => is_space c = true) l.

Definition solid (l : list ascii) : Prop := l <> [] /\ Forall (fun c => is_space c = false) l.

Lemma words_from_solid w v l : Forall (fun c => is_space c = false) v -> words_from w (v ++ l) = words_from (reverse v ++ w) l.
Proof.
  intros Hv. revert w. induction Hv as [|c v Hc _ IH]; intros w; [done|]. cbn [app words_from]. rewrite Hc, IH, reverse_cons.
  by rewrite <-(assoc_L (++)).
Qed.

Lemma words_from_gap w a s b : spaces s -> s <> [] -> words_from w (a ++ s ++ b) = words_from w a ++ words b.
Proof.
  intros Hs Hne. revert w. induction a as [|c a IH]; intros w.
  - assert (Hsp : forall s, spaces s -> words_from [] (s ++ b) = words b) by (induction 1 as [|c s' Hc _ IH]; [done|]; cbn [app words_from]; by rewrite Hc).
    destruct s as [|c s]; [done|]. apply Forall_cons in Hs as [Hc Hs]. cbn [app words_from]. rewrite Hc.
    destruct w; by rewrite Hsp.
  - cbn [app words_from]. destruct (is_space c); [destruct w; by rewrite IH|]. by rewrite IH.
Qed.

Lemma words_gap a s b : spaces s -> s <> [] -> words (a ++ s ++ b) = words a ++ words b.
Proof. apply words_from_gap. Qed.

Lemma words_spaces s l : spaces s -> words (s ++ l) = words l.
Proof. intros Hs. destruct (decide (s = [])) as [->|Hne]; [done|]. apply (words_gap [] s l Hs Hne). Qed.

Lemma words_spaces_r l s : spaces s -> words (l ++ s) = words l.
Proof. intros Hs. destruct (decide (s = [])) as [->|Hne]; [by rewrite app_nil_r|]. rewrite <-(app_nil_r s), words_gap by done. by rewrite app_nil_r. Qed.

Lemma words_strip l : words (strip_chars l) = words l.
Proof.
  unfold strip_chars. destruct (drop_while_split is_space l) as (a & Ha & Hsa). rewrite Ha at 2. rewrite words_spaces by done.
  set (b := drop_while is_space l). destruct (drop_while_split is_space (reverse b)) as (c & Hc & Hsc).
  rewrite <-(reverse_involutive b) at 2. rewrite Hc at 2. rewrite reverse_app. symmetry. apply words_spaces_r. by apply Forall_reverse.
Qed.

(** A text that begins with a word: the word, the space after it and the rest. *)
Lemma first_word y c : head y = Some c -> is_space c = false ->
  exists v s y', y = v ++ s ++ y' /\ solid v /\ spaces s /\ words y = v :: words y' /\
    (y' = [] \/ (s <> [] /\ exists d, head y' = Some d /\ is_space d = false)).
Proof.
  intros Hc Hs. destruct (drop_while_split (fun c => negb (is_space c)) y) as (v & Hy & Hv).
  set (rest := drop_while _ y) in *. destruct (drop_while_split is_space rest) as (s & Hr & Hsp). set (y' := drop_while is_space rest) in *.
  assert (Hv' : Forall (fun c => is_space c = false) v) by (eapply Forall_impl; [exact Hv|]; by intros x ?%negb_true_iff).
  assert (Hvne : v <> []).
  { intros ->. cbn in Hy. destruct y as [|x y0]; [done|]. injection Hc as ->.
    assert (Hd : negb (is_space c) = false) by (apply (drop_while_fails (fun c => negb (is_space c)) (c :: y0)); fold rest; by rewrite <-Hy). by rewrite Hs in Hd. }
  assert (Hy' : y' = [] \/ exists d, head y' = Some d /\ is_space d = false).
  { destruct y' as [|d l] eqn:He; [by left|right]. exists d. split; [done|]. apply (drop_while_fails is_space rest). fold y'. by rewrite He. }
  exists v, s, y'. rewrite <-Hr. split; [done|]. split; [done|]. split; [done|]. split.
  - rewrite Hy. unfold words at 1. rewrite words_from_solid, app_nil_r by done. destruct rest as [|x rest'] eqn:Hrest.
    + cbn [words_from]. destruct (reverse v) eqn:Hrv; [apply (f_equal reverse) in Hrv; by rewrite reverse_involutive in Hrv|].
      rewrite <-Hrv, reverse_involutive. by subst y'.
    + assert (Hx : is_space x = true).
      { apply negb_false_iff. apply (drop_while_fails (fun c => negb (is_space c)) y). fold rest. by rewrite Hrest. }
      rewrite <-Hrest in *. replace (words_from (reverse v) rest) with (words_from (reverse v) ([] ++ [x] ++ rest')) by (by rewrite Hrest).
      rewrite words_from_gap by (done || by repeat constructor). cbn [words_from].
      destruct (reverse v) eqn:Hrv; [apply (f_equal reverse) in Hrv; by rewrite reverse_involutive in Hrv|]. rewrite <-Hrv, reverse_involutive.
      cbn [app]. f_equal. rewrite <-(words_spaces s y') by done. rewrite <-Hr, Hrest. symmetry. by apply (words_spaces [x] rest'); repeat constructor.
  - destruct Hy' as [|Hd]; [by left|right]. split; [|done]. intros ->. cbn in Hr. destruct Hd as (d & Hd & Hsd). rewrite <-Hr in Hd.
    apply (drop_while_fails (fun c => negb (is_space c)) y) in Hd. by rewrite Hsd in Hd.
Qed.

Lemma words_solid l : Forall solid (words l).
Proof. apply Forall_forall. intros w Hw. destruct (words_from_spec [] l w Hw) as [Hn Hc]; [constructor|]. split; [done|]. apply Forall_forall. intros c Hin. by apply Hc. Qed.

Lemma words_blank l : (forall c, head l = Some c -> is_space c = false) -> words l = [] -> l = [].
Proof.
  intros Hh Hw. destruct l as [|c l]; [done|]. destruct (first_word (c :: l) c eq_refl (Hh c eq_refl)) as (v & s & y' & _ & _ & _ & Hws & _). by rewrite Hws in Hw.
Qed.

(** ** Matching *)

(** What is matched holds the words, in their order. *)
Lemma match_tokens_sound ts l n : Forall solid ts -> match_tokens ts l = Some n -> n <= length l /\ words (take n l) = ts.
Proof.
  intros Hts. revert l n. induction Hts as [|t ts [Hne Ht] Hts IH]; intros l n; cbn [match_tokens]; [intros [= <-]; split; [lia|done]|].
  destruct (list_prefix t l) eqn:Hp; [|done]. apply list_prefix_spec in Hp as [r ->]. rewrite drop_app_length.
  assert (Hone : words t = [t]).
  { unfold words. rewrite <-(app_nil_r t) at 1. rewrite words_from_solid, app_nil_r by done. cbn.
    destruct (reverse t) eqn:Hr; [apply (f_equal reverse) in Hr; by rewrite reverse_involutive in Hr|]. by rewrite <-Hr, reverse_involutive. }
  destruct ts as [|t' ts]; [intros [= <-]; rewrite length_app, take_app_length; split; [lia|done]|].
  destruct (drop_while_split is_space r) as (s & Hr & Hs). set (after := drop_while is_space r) in *.
  destruct (length after =? length r) eqn:Hl; [done|]. apply Nat.eqb_neq in Hl. destruct (match_tokens (t' :: ts) after) as [k|] eqn:Hk; [|done].
  intros [= <-]. apply IH in Hk as [Hkl Hkw]. rewrite Hr, !length_app in *. split; [lia|].
  replace (length t + (length s + length after - length after) + k) with (length t + (length s + k)) by lia.
  rewrite take_app_add, take_app_add, words_gap, Hone, Hkw by (done || (intros ->; cbn in Hl; lia)). done.
Qed.

(** The words of a text are found where the text stands. *)
Lemma match_tokens_complete y post : (forall c, head y = Some c -> is_space c = false) -> is_Some (match_tokens (words y) (y ++ post)).
Proof.
  remember (length y) as n eqn:Hn. assert (Hle : length y <= n) by lia. clear Hn. revert y Hle. induction n as [|n IH]; intros y Hle Hh.
  - destruct y; cbn in Hle; [by eexists|lia].
  - destruct y as [|c y0] eqn:Hy; [by eexists|]. rewrite <-Hy in *.
    destruct (first_word y c) as (v & s & y' & Heq & [Hvne Hv] & Hs & -> & Htail); [by rewrite Hy|apply Hh; by rewrite Hy|].
    cbn [match_tokens]. assert (Hp : list_prefix v (y ++ post) = true) by (apply list_prefix_spec; exists (s ++ y' ++ post); by rewrite Heq, <-!(assoc_L (++))).
    rewrite Hp. destruct (words y') as [|t ts] eqn:Hw; [by eexists|]. rewrite <-Hw.
    assert (Hd : drop (length v) (y ++ post) = s ++ y' ++ post) by (rewrite Heq, <-!(assoc_L (++)); apply drop_app_length). rewrite Hd.
    destruct Htail as [->|(Hsne & d & Hhd & Hsd)]; [done|].
    assert (Hafter : drop_while is_space (s ++ y' ++ post) = y' ++ post).
    { rewrite drop_while_skip by done. destruct y' as [|x y'']; [done|]. injection Hhd as ->. cbn. by rewrite Hsd. }
    rewrite Hafter. rewrite (length_app s). destruct (length (y' ++ post) =? _) eqn:Hl; [apply Nat.eqb_eq in Hl; destruct s; [done|cbn in Hl; lia]|].
    destruct (IH y') as [k ->]; [|intros x Hx; congruence|by eexists].
    rewrite Heq, !length_app in Hle. destruct v; [done|]. cbn in Hle. lia.
Qed.

Lemma search_tokens_sound ts l i n : Forall solid ts -> search_tokens ts l = Some (i, n) -> i + n <= length l /\ words (take n (drop i l)) = ts.
Proof.
  intros Hts. revert i n. induction l as [|c l IH]; intros i n; cbn [search_tokens].
  - destruct (match_tokens ts []) as [k|] eqn:Hk; [|done]. intros [= <- <-]. by apply match_tokens_sound in Hk.
  - destruct (match_tokens ts (c :: l)) as [k|] eqn:Hk; [intros [= <- <-]; by apply match_tokens_sound in Hk|].
    destruct (search_tokens ts l) as [[j k]|]; [|done]. cbn [mbind option_bind]. intros [= <- <-]. destruct (IH j k eq_refl) as [H1 H2]. cbn. split; [lia|done].
Qed.

Lemma search_tokens_complete ts pre l : is_Some (match_tokens ts l) -> is_Some (search_tokens ts (pre ++ l)).
Proof.
  intros [n Hn]. induction pre as [|c pre IH].
  - cbn [app]. destruct l; cbn [search_tokens]; rewrite Hn; by eexists.
  - cbn [app search_tokens]. destruct (match_tokens ts (c :: pre ++ l)); [by eexists|]. destruct IH as [[i k] ->]. by exists (S i, k).
Qed.

Lemma find_sub_sound p l i : find_sub p l = Some i -> i + length p <= length l /\ take (length p) (drop i l) = p.
Proof.
  assert (Hz : forall l, list_prefix p l = true -> length p <= length l /\ take (length p) l = p).
  { intros l' [r ->]%list_prefix_spec. rewrite length_app, take_app_length. split; [lia|done]. }
  revert i. induction l as [|c l IH]; intros i; cbn [find_sub].
  - destruct (list_prefix p []) eqn:Hp; [|done]. intros [= <-]. by apply Hz.
  - destruct (list_prefix p (c :: l)) eqn:Hp; [intros [= <-]; by apply Hz|].
    destruct (find_sub p l) as [j|]; [|done]. cbn. intros [= <-]. destruct (IH j eq_refl). cbn. split; [lia|done].
Qed.

(** A chunk's ends lie in its document, in order, and hold its words. *)
Lemma locate_sound body from text i j : locate body from text = Some (i, j) ->
  i <= j /\ j <= length body /\ words (take (j - i) (drop i body)) = words text.
Proof.
  assert (Hexact : forall k r, (fun i => (i, i + length text)) <$> find_from text body k = Some r ->
    r.1 <= r.2 /\ r.2 <= length body /\ words (take (r.2 - r.1) (drop r.1 body)) = words text).
  { intros k r. unfold find_from. destruct (k <=? length body) eqn:Hk; [|done]. apply Nat.leb_le in Hk.
    destruct (find_sub text (drop k body)) as [x|] eqn:Hf; [|done]. intros [= <-]. apply find_sub_sound in Hf as [H1 H2].
    rewrite length_drop in H1. rewrite drop_drop in H2. cbn [fst snd]. split; [lia|]. split; [lia|].
    replace (k + x + length text - (k + x)) with (length text) by lia. by rewrite H2. }
  assert (Hsearch : forall k r, search_from (words text) body k = Some r ->
    r.1 <= r.2 /\ r.2 <= length body /\ words (take (r.2 - r.1) (drop r.1 body)) = words text).
  { intros k r. unfold search_from. set (k' := Nat.min k (length body)). destruct (search_tokens _ _) as [[x n]|] eqn:Hf; [|done]. intros [= <-].
    apply search_tokens_sound in Hf as [H1 H2]; [|apply words_solid]. rewrite length_drop in H1. rewrite drop_drop in H2. cbn [fst snd].
    assert (k' <= length body) by (subst k'; lia). split; [lia|]. split; [lia|]. replace (k' + x + n - (k' + x)) with n by lia. done. }
  unfold locate. destruct ((fun i => (i, i + length text)) <$> find_from text body from) as [r|] eqn:H1; [intros [= ->]; by apply (Hexact from (i, j))|].
  destruct ((fun i => (i, i + length text)) <$> find_from text body 0) as [r|] eqn:H2; [intros [= ->]; by apply (Hexact 0 (i, j))|].
  destruct (search_from (words text) body from) as [r|] eqn:H3; [intros [= ->]; by apply (Hsearch from (i, j))|]. intros H4. by apply (Hsearch 0 (i, j)).
Qed.

Lemma locate_complete body from text pre y post : body = pre ++ y ++ post -> (forall c, head y = Some c -> is_space c = false) ->
  words y = words text -> is_Some (locate body from text).
Proof.
  intros -> Hh Hw. unfold locate. repeat (case_match; [by eexists|]). unfold search_from. rewrite Nat.min_0_l, drop_0. rewrite <-Hw.
  destruct (search_tokens_complete (words y) pre (y ++ post)) as [[i n] ->]; [by apply match_tokens_complete|]. by eexists.
Qed.

(** ** Headings *)

(** A heading is open until another of its level or above it. *)
Fixpoint open_of (es : list (nat * list ascii)) : list (nat * list ascii) :=
  match es with
  | [] => []
  | e :: es' => if forallb (fun e' => e.1 <? e'.1) es' then e :: open_of es' else open_of es'
  end.

Definition popped (level : nat) : list (nat * list ascii) -> list (nat * list ascii) :=
  fix pop s := match s with (l, t) :: s' => if level <=? l then pop s' else s | [] => [] end.

Definition below (level : nat) (l : list (nat * list ascii)) : list (nat * list ascii) := filter (fun e => e.1 < level) l.

Lemma open_of_subset es e : e ∈ open_of es -> e ∈ es.
Proof.
  induction es as [|x es IH]; [done|]. cbn [open_of]. destruct (forallb _ es); [rewrite !elem_of_cons; intros [->|]; [by left|right; by apply IH]|].
  intros ?. right. by apply IH.
Qed.

Lemma open_of_levels es : StronglySorted lt (map fst (open_of es)).
Proof.
  induction es as [|e es IH]; [constructor|]. cbn [open_of]. destruct (forallb _ es) eqn:Hf; [|done]. cbn [map]. constructor; [done|].
  apply Forall_map, Forall_forall. intros x Hx%open_of_subset%list_elem_of_In. rewrite forallb_forall in Hf. by apply Nat.ltb_lt, Hf.
Qed.

Lemma open_of_snoc es e : open_of (es ++ [e]) = below e.1 (open_of es) ++ [e].
Proof.
  unfold below. induction es as [|x es IH]; [done|]. cbn [app open_of]. rewrite forallb_app, IH. cbn [forallb]. rewrite andb_true_r.
  destruct (forallb (fun e' => x.1 <? e'.1) es); cbn [andb]; [|done]. rewrite filter_cons. destruct (x.1 <? e.1) eqn:Hx.
  - rewrite decide_True by by apply Nat.ltb_lt. done.
  - rewrite decide_False; [done|]. by apply Nat.ltb_nlt.
Qed.

(** The stack is popped to the levels above, its levels being in order. *)
Lemma popped_below level l : StronglySorted lt (map fst l) -> popped level (reverse l) = reverse (below level l).
Proof.
  unfold below. induction l as [|[k t] l IH] using rev_ind; [done|]. rewrite map_app. intros (Hlast & Hl & _)%StronglySorted_app.
  rewrite reverse_app, filter_app, reverse_app, filter_cons, filter_nil. cbn [fst]. change (reverse [(k, t)]) with [(k, t)]. cbn [app popped].
  destruct (level <=? k) eqn:Hk.
  - apply Nat.leb_le in Hk. rewrite decide_False by lia. cbn. by apply IH.
  - apply Nat.leb_gt in Hk. rewrite decide_True by done. cbn [app]. f_equal. rewrite list_filter_all; [done|].
    apply Forall_forall. intros x Hx. specialize (Hlast x.1 k). cbn in Hlast. transitivity k; [|done]. apply Hlast; [by apply (list_elem_of_fmap_2 fst)|by left].
Qed.

Lemma open_at_fold start events stack : StronglySorted (fun a b => a.1 <= b.1) events ->
  open_at start stack events = foldl (fun s e => e :: popped e.1 s) stack (map snd (filter (fun e => e.1 <= start) events)).
Proof.
  intros Hs. revert stack. induction Hs as [|[p [level text]] events Hs IH Hf]; intros stack; [done|]. cbn [open_at]. rewrite filter_cons. cbn [fst].
  destruct (start <? p) eqn:Hp.
  - apply Nat.ltb_lt in Hp. rewrite decide_False by lia. rewrite list_filter_none; [done|]. eapply Forall_impl; [exact Hf|]. cbn. intros e ?. lia.
  - apply Nat.ltb_ge in Hp. rewrite decide_True by done. cbn [map foldl snd]. apply IH.
Qed.

Lemma pushed_open es : foldl (fun s e => e :: popped e.1 s) [] es = reverse (open_of es).
Proof.
  induction es as [|e es IH] using rev_ind; [done|]. rewrite foldl_snoc, IH, popped_below by apply open_of_levels. by rewrite open_of_snoc, reverse_snoc.
Qed.

Lemma events_sorted cursor ls : StronglySorted (fun a b => a.1 <= b.1) (heading_events cursor ls) /\ Forall (fun e => cursor <= e.1) (heading_events cursor ls).
Proof.
  revert cursor. induction ls as [|l ls IH]; intros cursor; [split; constructor|]. cbn [heading_events]. destruct (IH (cursor + length l)) as [Hs Hf].
  assert (Hf' : Forall (fun e => cursor <= e.1) (heading_events (cursor + length l) ls)) by (eapply Forall_impl; [exact Hf|]; cbn; intros e ?; lia).
  destruct (heading_of 6 _) as [[level text]|]; cbn [app]; [|by split]. split; constructor; [done|done|cbn; lia|done].
Qed.

(** The headings a place of a text stands under, the outermost first. *)
Definition headings_over (body : list ascii) (start : nat) : list (list ascii) :=
  map snd (open_of (map snd (filter (fun e => e.1 <= start) (heading_events 0 (lines_keep body))))).

Lemma open_headings body start : reverse (map snd (open_at start [] (heading_events 0 (lines_keep body)))) = headings_over body start.
Proof.
  rewrite open_at_fold by apply events_sorted. rewrite pushed_open. unfold headings_over. by rewrite <-fmap_reverse, reverse_involutive.
Qed.

(** ** The chunks of a document *)

Record placed (body : list ascii) (c : StructuredChunk) : Prop := {
  pl_ends : sc_start c <= sc_end c /\ sc_end c <= length body;
  pl_words : words (take (sc_end c - sc_start c) (drop (sc_start c) body)) = words (sc_text c);
  pl_headings : sc_headings c = headings_over body (sc_start c)
}.

Lemma structure_from_sound body from chunks out : structure_from body (heading_events 0 (lines_keep body)) from chunks = Ok out ->
  map sc_text out = chunks /\ Forall (placed body) out.
Proof.
  revert from out. induction chunks as [|text chunks IH]; intros from out; cbn [structure_from]; [intros [= <-]; split; [done|constructor]|].
  destruct (locate body from text) as [[i j]|] eqn:Hl; [|done]. destruct (structure_from body _ (S i) chunks) as [rest|] eqn:Hr; [|done].
  cbn [mbind result_bind]. intros [= <-]. destruct (IH _ _ Hr) as [Ht Hp]. apply locate_sound in Hl as (H1 & H2 & H3).
  split; [cbn; by rewrite Ht|]. constructor; [|done]. split; cbn; [done|done|apply open_headings].
Qed.

(** Where a text of the same words stands in another, from a word on. *)
Definition stands (body c : list ascii) : Prop :=
  exists pre y post, body = pre ++ y ++ post /\ (forall x, head y = Some x -> is_space x = false) /\ words y = words c.

Lemma stands_app body post c : stands body c -> stands (body ++ post) c.
Proof. intros (pre & y & q & -> & Hh & Hw). exists pre, y, (q ++ post). by rewrite <-!(assoc_L (++)). Qed.

Lemma structure_total body chunks : Forall (stands body) chunks -> exists out, structure_chunks body chunks = Ok out.
Proof.
  intros Hall. unfold structure_chunks. generalize 0 at 2. induction Hall as [|c chunks (pre & y & post & Hb & Hh & Hw) _ IH]; intros k; [by eexists|].
  cbn [structure_from]. destruct (locate_complete body k c pre y post Hb Hh Hw) as [[i j] ->]. destruct (IH (S i)) as [out ->]. by eexists.
Qed.

(** ** The chunks of a text without forced splits *)

Lemma strip_split b : exists s1 s2, b = s1 ++ strip_chars b ++ s2 /\ spaces s1 /\ spaces s2.
Proof.
  unfold strip_chars. destruct (drop_while_split is_space b) as (s1 & Hb & H1). set (d := drop_while is_space b) in *.
  destruct (drop_while_split is_space (reverse d)) as (s2 & Hd & H2). exists s1, (reverse s2). split; [|split; [done|by apply Forall_reverse]].
  rewrite Hb at 1. f_equal. rewrite <-reverse_app, <-Hd. by rewrite reverse_involutive.
Qed.

Lemma strip_head b c : head (strip_chars b) = Some c -> is_space c = false.
Proof.
  intros Hc. destruct (strip_trimmed b) as (x & _ & Hx & _ & Hs & _); [by destruct (strip_chars b)|]. congruence.
Qed.

(** What was read of a text, the chunks so far standing in it and the buffer at its end. *)
Record reading (read : list ascii) (acc : list (list ascii) * list ascii) : Prop := {
  rd_chunks : Forall (stands read) acc.1;
  rd_buffer : acc.2 = [] \/ exists pre y ws, read = pre ++ y ++ ws /\ head y = head acc.2 /\ words y = words acc.2 /\ spaces ws;
  rd_trimmed : forall x, head acc.2 = Some x -> is_space x = false
}.

Lemma buffer_stands read acc : reading read acc -> acc.2 <> [] -> stands read acc.2.
Proof.
  intros [_ [|(pre & y & ws & -> & Hh & Hw & _)] Ht] Hne; [done|]. exists pre, y, ws. split; [done|]. split; [|done]. intros x Hx. apply Ht. congruence.
Qed.

Lemma reading_step m read acc sep b : reading read acc -> spaces sep -> (acc.2 <> [] -> sep <> []) ->
  reading (read ++ sep ++ b) (if decide (strip_chars b = []) then acc else pack_step m acc (strip_chars b)).
Proof.
  intros Hr Hsep Hne. pose proof Hr as [Hc Hb Ht]. destruct (strip_split b) as (s1 & s2 & Hbs & H1 & H2). destruct acc as [chunks buf]. cbn [fst snd] in *.
  assert (Hgrow : Forall (stands (read ++ sep ++ b)) chunks) by (eapply Forall_impl; [exact Hc|]; intros c Hst; by apply stands_app).
  assert (Hfresh : exists pre y ws, read ++ sep ++ b = pre ++ y ++ ws /\ head y = head (strip_chars b) /\ words y = words (strip_chars b) /\ spaces ws).
  { exists (read ++ sep ++ s1), (strip_chars b), s2. split; [|done]. rewrite Hbs at 1. by rewrite <-!(assoc_L (++)). }
  case_decide as Hs.
  - split; cbn [fst snd]; [done| |done]. destruct Hb as [|(pre & y & ws & -> & Hh & Hw & Hws)]; [by left|right].
    exists pre, y, (ws ++ sep ++ b). split; [by rewrite <-!(assoc_L (++))|]. split; [done|]. split; [done|]. rewrite Hbs, Hs.
    repeat (apply Forall_app; split); done.
  - unfold pack_step. destruct (negb _ && _) eqn:Hfl.
    + apply andb_true_iff in Hfl as [Hbuf%negb_true_iff%bool_decide_eq_false _]. split; cbn [fst snd]; [|by right|apply strip_head].
      apply Forall_app. split; [done|]. constructor; [|constructor]. apply stands_app. by apply (buffer_stands read (chunks, buf)).
    + split; cbn [fst snd]; [done| |].
      * right. case_decide as Hbuf; [done|]. destruct Hb as [|(pre & y & ws & -> & Hh & Hw & Hws)]; [done|].
        exists pre, (y ++ (ws ++ sep ++ s1) ++ strip_chars b), s2. split; [rewrite Hbs at 1; by rewrite <-!(assoc_L (++))|].
        split.
        { destruct y as [|x y].
          - exfalso. apply Hbuf. apply words_blank; [done|]. by rewrite <-Hw.
          - destruct buf as [|x' buf]; [done|exact Hh]. }
        split; [|done]. rewrite !words_gap; [by rewrite Hw|by repeat constructor|done|repeat (apply Forall_app; split); done|].
        intros Hnil%app_eq_nil. destruct Hnil as [_ Hnil%app_eq_nil]. destruct Hnil as [Hnil _]. by apply Hne.
      * case_decide; [apply strip_head|]. destruct buf; [done|]. exact Ht.
Qed.

Fixpoint join_blank (bs : list (list ascii)) : list ascii :=
  match bs with [] => [] | [b] => b | b :: bs' => b ++ LF :: LF :: join_blank bs' end.

Lemma join_blank_snoc bs b : bs <> [] -> join_blank (bs ++ [b]) = join_blank bs ++ [LF; LF] ++ b.
Proof.
  induction bs as [|x bs IH]; [done|]. intros _. destruct bs as [|y bs]; [done|].
  change (join_blank ((x :: y :: bs) ++ [b])) with (x ++ LF :: LF :: join_blank ((y :: bs) ++ [b])). rewrite IH by done.
  change (join_blank (x :: y :: bs)) with (x ++ LF :: LF :: join_blank (y :: bs)). by rewrite <-!(assoc_L (++)).
Qed.

Lemma split_blank_join l : join_blank (split_blank l) = l.
Proof.
  remember (length l) as n eqn:Hn. assert (Hle : length l <= n) by lia. clear Hn. revert l Hle.
  induction n as [|n IH]; intros l Hle; [by destruct l; [|cbn in Hle; lia]|].
  destruct l as [|c [|c' l]]; [done..|]. cbn [length] in Hle.
  change (split_blank (c :: c' :: l)) with (if decide (c = LF /\ c' = LF) then [] :: split_blank l
    else match split_blank (c' :: l) with [] => [[c]] | w :: ws => (c :: w) :: ws end).
  assert (Hne : forall k, split_blank k <> []).
  { intros [|a [|a' k]]; [done..|]. cbn [split_blank]. case_decide; [done|]. by destruct (match k with [] => _ | _ :: _ => _ end). }
  case_decide as Hc.
  - destruct Hc as [-> ->]. destruct (split_blank l) as [|w ws] eqn:Hw; [by destruct (Hne l)|].
    change (join_blank ([] :: w :: ws)) with (LF :: LF :: join_blank (w :: ws)). rewrite <-Hw, IH by lia. done.
  - specialize (IH (c' :: l) ltac:(cbn [length]; lia)). destruct (split_blank (c' :: l)) as [|w ws]; [by rewrite <-IH in *; cbn in *|].
    rewrite <-IH. by destruct ws.
Qed.

Lemma packed_stands m bs : reading (join_blank bs) (foldl (pack_step m) ([], []) (stripped bs)).
Proof.
  induction bs as [|b bs IH] using rev_ind; [split; [constructor|by left|done]|].
  assert (Hst : stripped (bs ++ [b]) = stripped bs ++ if decide (strip_chars b = []) then [] else [strip_chars b]).
  { unfold stripped. rewrite map_app, filter_app. f_equal. cbn [map]. rewrite filter_cons, filter_nil. by repeat case_decide. }
  rewrite Hst, foldl_app. set (acc := foldl (pack_step m) ([], []) (stripped bs)) in *.
  assert (Hstep : forall sep, spaces sep -> (acc.2 <> [] -> sep <> []) -> reading (join_blank bs ++ sep ++ b)
    (foldl (pack_step m) acc (if decide (strip_chars b = []) then [] else [strip_chars b]))).
  { intros sep Hs Hne. pose proof (reading_step m _ acc sep b IH Hs Hne) as Hr. by case_decide. }
  destruct (decide (bs = [])) as [->|Hbs].
  - apply (Hstep []); [constructor|done].
  - rewrite join_blank_snoc by done. apply Hstep; [by repeat constructor|done].
Qed.

(** No paragraph of a text is larger than a chunk. *)
Definition paragraphs_fit (text : string) (max_chars : Z) : Prop :=
  Forall (fun b => (Z.of_nat (length (strip_chars b)) <= max_chars)%Z) (split_blank (chars text)).

Lemma prepared_whole m ov bs : Forall (fun b => (Z.of_nat (length (strip_chars b)) <= m)%Z) bs ->
  exists ls, result_mapM (prepare m true ov) bs = Ok ls /\ concat ls = stripped bs.
Proof.
  induction 1 as [|b bs Hb _ (ls & Hls & Hc)]; [by exists []|]. exists ((if decide (strip_chars b = []) then [] else [strip_chars b]) :: ls).
  cbn [result_mapM]. assert (Hp : prepare m true ov b = Ok (if decide (strip_chars b = []) then [] else [strip_chars b])).
  { unfold prepare. case_decide; [done|]. cbn [andb]. by destruct (m <? _)%Z eqn:Hl; [lia|]. }
  rewrite Hp. cbn [mbind result_bind]. rewrite Hls. split; [done|]. cbn [concat]. rewrite Hc. unfold stripped. cbn [map]. rewrite filter_cons. by repeat case_decide.
Qed.

Lemma whole_chunks_stand text m ov : paragraphs_fit text m ->
  exists chunks, chunk_text text m ov = Ok chunks /\ Forall (stands (chars text)) (map chars chunks).
Proof.
  intros Hfit. unfold chunk_text, pack. destruct (prepared_whole m ov _ Hfit) as (ls & -> & Hls). cbn [mbind result_bind fmap result_fmap]. rewrite Hls.
  eexists. split; [reflexivity|]. rewrite map_chars_unchars. pose proof (packed_stands m (split_blank (chars text))) as Hr. rewrite split_blank_join in Hr.
  pose proof (rd_chunks _ _ Hr) as Hc. pose proof (buffer_stands _ _ Hr) as Hb. destruct (foldl _ _ _) as [chunks buf]. cbn [fst snd flushed] in *.
  case_decide; [done|]. apply Forall_app. split; [done|]. constructor; [by apply Hb|constructor].
Qed.

(** C27: where chunks lie. Whatever chunks are mapped back to a document are returned in their order,
    each with ends inside the document that hold the very words of the chunk, and under the
    headings open where it starts: those after which no heading of their level or above it has
    come, outermost first. *)
Theorem structure_exact body chunks out : structure_chunks body chunks = Ok out ->
  map sc_text out = chunks /\
  Forall (fun c => sc_start c <= sc_end c <= length body /\
    words (take (sc_end c - sc_start c) (drop (sc_start c) body)) = words (sc_text c) /\
    sc_headings c = headings_over body (sc_start c)) out.
Proof.
  intros H. apply structure_from_sound in H as [Ht Hp]. split; [done|]. eapply Forall_impl; [exact Hp|]. intros c [[? ?] ? ?]. done.
Qed.

(** C32: the chunker and the passages agree. When no paragraph of a text is larger than a chunk, so
    that nothing is split by force, its chunks exist and every one is mapped back to the text. *)
Theorem whole_chunks_placed text max_chars overlap : paragraphs_fit text max_chars ->
  exists chunks out, chunk_text text max_chars overlap = Ok chunks /\ structure_chunks (chars text) (map chars chunks) = Ok out /\
    map sc_text out = map chars chunks.
Proof.
  intros Hfit. destruct (whole_chunks_stand text max_chars overlap Hfit) as (chunks & Hc & Hs). destruct (structure_total _ _ Hs) as (out & Ho).
  exists chunks, out. split; [done|]. split; [done|]. by apply structure_from_sound in Ho as [? _].
Qed.

(** ** A chunk that stands nowhere *)

Definition stranded_text : string :=
  unchars (replicate 20 "a"%char ++ replicate 6 " "%char ++ replicate 22 "x"%char).

(** A run of spaces over the cap is cut in the middle, the rest of it is dropped from the head of
    the next piece, and the end of the word that is cut then fits beside its beginning, in one
    chunk whose words the text does not hold: mapping it back raises. *)
Theorem forced_split_unplaced :
  chunk_text stranded_text 24 0 = Ok [unchars (replicate 20 "a"%char); unchars (replicate 21 "x"%char ++ [LF; LF; "x"%char])] /\
  (chunks ← chunk_text stranded_text 24 0; structure_chunks (chars stranded_text) (map chars chunks)) =
    Raise (ValueError "chunk text could not be mapped back to its source document").
Proof. split; vm_compute; reflexivity. Qed.

(** ** Passages *)

(** The text of a chunk inside a passage. *)
Definition carries (chunk passage : list ascii) : Prop := exists before after, passage = before ++ chunk ++ after.

Lemma join_lines_carries ls l : l ∈ ls -> carries l (Anchors.join_lines ls).
Proof.
  induction ls as [|x ls IH]; [by intros ?%not_elem_of_nil|]. destruct ls as [|y ls].
  - intros ->%list_elem_of_singleton. exists [], []. cbn. by rewrite app_nil_r.
  - change (Anchors.join_lines (x :: y :: ls)) with (x ++ LF :: Anchors.join_lines (y :: ls)). rewrite elem_of_cons. intros [->|Hin].
    + by exists [], (LF :: Anchors.join_lines (y :: ls)).
    + destruct (IH Hin) as (before & after & ->). exists (x ++ LF :: before), after. by rewrite <-(assoc_L (++)).
Qed.

Lemma render_carries content title section source previous following : carries content (render_passage content title section source previous following).
Proof.
  destruct (join_lines_carries (field "title: " title ++ field "section: " section ++ field "source: " source ++ field "previous: " previous ++
    [chars "content: " ++ content] ++ field "following: " following) (chars "content: " ++ content)) as (before & after & H).
  { rewrite !elem_of_app. do 4 right. left. by left. }
  exists (before ++ chars "content: "), after. unfold render_passage. rewrite H. by rewrite <-!(assoc_L (++)).
Qed.

Lemma ladder_carries content mode title section source previous following :
  Forall (carries content) (degradation_ladder content mode title section source previous following).
Proof.
  unfold degradation_ladder. assert (Hself : carries content content) by (exists [], []; by rewrite app_nil_r).
  case_decide; cbn [drop]; repeat constructor; apply render_carries || done.
Qed.

Definition within_budget (policy : ContextPolicy) (chunk passage : list ascii) : Prop :=
  forall budget count, cp_max_tokens policy = Some budget -> cp_count_tokens policy = Some count ->
    (count (unchars passage) <= budget)%Z \/ passage = chunk.

Lemma choose_rung_spec policy content ladder p : Forall (carries content) ladder -> choose_rung policy content ladder = Ok p ->
  carries content p /\ within_budget policy content p.
Proof.
  intros Hl. assert (Hself : carries content content) by (exists [], []; by rewrite app_nil_r). unfold choose_rung, within_budget.
  destruct (cp_max_tokens policy) as [budget|].
  - destruct (cp_count_tokens policy) as [count|]; [|done]. intros [= <-]. destruct (find _ ladder) as [r|] eqn:Hf; cbn [default].
    + apply find_some in Hf as [Hin Hb]. apply Z.leb_le in Hb. rewrite Forall_forall in Hl. split; [by apply Hl, list_elem_of_In|].
      intros b c [= <-] [= <-]. by left.
    + split; [done|]. intros b c _ _. by right.
  - intros [= <-]. split; [|done]. destruct Hl; done.
Qed.

Lemma relative_source source s : root_relative_source source = Ok s ->
  s <> [] /\ head s <> Some "/"%char /\ drive s = false /\ chars ".." ∉ split_chars "/" s /\ Forall (fun c => control c = false) s.
Proof.
  unfold root_relative_source. set (n := clean_text None _). case_decide as Hn; [done|]. destruct (list_prefix (chars "/") n || drive n) eqn:Hd; [done|].
  destruct (existsb _ _) eqn:He; [done|]. intros [= <-]. apply orb_false_iff in Hd as [Hp Hd]. split; [done|]. split.
  { intros Hh. destruct n as [|c n']; [done|]. injection Hh as ->. by destruct n'. }
  split; [done|]. split.
  - intros Hin%list_elem_of_In. rewrite (proj2 (existsb_exists _ _)) in He; [done|]. exists (chars ".."). split; [done|]. by apply bool_decide_eq_true.
  - unfold n, clean_text. set (k := filter _ _). destruct (strip_split k) as (s1 & s2 & Hk & _). assert (Hf : Forall (fun c => control c = false) k).
    { apply Forall_forall. intros c Hc. by apply list_elem_of_filter in Hc as [? _]. }
    rewrite Hk in Hf. by apply Forall_app in Hf as [_ [? _]%Forall_app].
Qed.

(** C24: what is embedded for the chunks of a document. Passages are made only for a source that is
    relative to its root and does not climb out of it; there is one for each chunk, in the order
    of the chunks, and it holds the whole text of its chunk; under a policy with a budget it
    counts no more tokens than that, or else is the chunk alone. *)
Theorem passages_exact raw body chunks source policy structured passages :
  contextual_passages raw body chunks source policy = Ok (structured, passages) ->
  (exists s, root_relative_source source = Ok s /\ head s <> Some "/"%char /\ drive s = false /\ chars ".." ∉ split_chars "/" s) /\
  map sc_text structured = chunks /\
  Forall2 (fun c p => carries c p /\ within_budget policy c p) chunks passages.
Proof.
  unfold contextual_passages. destruct (root_relative_source source) as [s|] eqn:Hs; [|done]. cbn [mbind result_bind].
  destruct (structure_chunks (chars body) chunks) as [out|] eqn:Ho; [|done]. cbn [mbind result_bind].
  apply relative_source in Hs as (_ & ? & ? & ? & _). apply structure_from_sound in Ho as [Ht _]. intros Hres. split; [by exists s|].
  case_decide as Hm.
  - injection Hres as <- <-. split; [done|]. clear. induction chunks as [|c chunks IH]; constructor; [|done].
    split; [exists [], []; by rewrite app_nil_r|]. by right.
  - destruct (document_title raw body source) as [title|]; [|done]. cbn [mbind result_bind] in Hres.
    destruct (result_mapM _ _) as [ps|] eqn:Hps; [|done]. cbn [mbind result_bind] in Hres. injection Hres as <- <-. split; [done|].
    apply result_mapM_ok in Hps. rewrite <-Ht. clear Ht.
    assert (Hen : snd <$> enumerate out = out).
    { apply list_eq. intros i. unfold enumerate. rewrite list_lookup_fmap, list_lookup_imap. by destruct (out !! i). }
    rewrite <-Hen at 1. change (map sc_text (snd <$> enumerate out)) with (sc_text <$> (snd <$> enumerate out)).
    rewrite !Forall2_fmap_l. eapply Forall2_impl; [exact Hps|]. intros [i c] p Hp. cbn [compose fst snd] in *.
    unfold passage in Hp. by apply choose_rung_spec in Hp; [|apply ladder_carries].
Qed.

(** ** A document *)

Definition demo_policy : ContextPolicy :=
  {| cp_mode := ModeNeighbor; cp_max_tokens := Some 40%Z; cp_count_tokens := Some (fun s => Z.of_nat (String.length s)) |}.

Definition demo_document : string :=
  "# Guide" +:+ unchars [LF] +:+ "## Setup" +:+ unchars [LF; LF] +:+ "Run it once." +:+ unchars [LF; LF] +:+ "Then stop.".

Lemma structure_exact_witness : exists out,
  structure_chunks (chars demo_document) [chars "Run it once."; chars "Then stop."] = Ok out /\
  map sc_text out = [chars "Run it once."; chars "Then stop."] /\
  map (fun c => headings_over (chars demo_document) (sc_start c)) out = [[chars "Guide"; chars "Setup"]; [chars "Guide"; chars "Setup"]].
Proof.
  destruct (structure_chunks (chars demo_document) [chars "Run it once."; chars "Then stop."]) as [out|e] eqn:Ho; [|by vm_compute in Ho].
  destruct (structure_exact _ _ _ Ho) as [Ht _]. exists out. split; [done|]. split; [exact Ht|].
  vm_compute in Ho. injection Ho as <-. vm_compute. reflexivity.
Defined.

Lemma whole_chunks_placed_witness : exists chunks out, chunk_text demo_document 20 5 = Ok chunks /\
  structure_chunks (chars demo_document) (map chars chunks) = Ok out /\ map sc_text out = map chars chunks.
Proof.
  apply (whole_chunks_placed demo_document 20 5). unfold paragraphs_fit. vm_compute split_blank.
  repeat constructor; vm_compute; congruence.
Defined.

Lemma passages_exact_witness : exists structured passages,
  contextual_passages "" demo_document [chars "Run it once."; chars "Then stop."] (chars "a/b.md") demo_policy = Ok (structured, passages) /\
  Forall2 (fun c p => carries c p /\ within_budget demo_policy c p) [chars "Run it once."; chars "Then stop."] passages /\
  map unchars passages = ["source: a/b.md" +:+ unchars [LF] +:+ "content: Run it once."; "source: a/b.md" +:+ unchars [LF] +:+ "content: Then stop."].
Proof.
  destruct (contextual_passages "" demo_document [chars "Run it once."; chars "Then stop."] (chars "a/b.md") demo_policy) as [[structured passages]|e] eqn:Hp;
    [|by vm_compute in Hp].
  destruct (passages_exact _ _ _ _ _ _ _ Hp) as (_ & _ & H). exists structured, passages. split; [done|]. split; [exact H|].
  vm_compute in Hp. injection Hp as _ <-. vm_compute. reflexivity.
Defined.
