(* ===== verification/DerivedBlock.v ===== *)
(** * DerivedBlock: the machine's block at the end of a memo (src/recall/derived_block.py)

    Cutting a body at the block, printing a block, reading it back and diagnosing it. The digest of
    a block is that of [Lineage.canonical_sha256], whose printer and hash are arguments. The
    messages of the errors are shortened; no text holds a byte order mark. *)
From S2P Require Import Prelude Text Float64 Frontmatter SourceIdentity References FrontmatterBlock FrontmatterWriters Types TrustVerdicts Lineage Anchors Chunker Context.

Local Open Scope nat_scope.

Definition OPEN_FENCE : string := "<!-- recall:derived v1 -->".
Definition CLOSE_FENCE : string := "<!-- /recall:derived -->".
Definition LEGACY_OPEN_FENCE : string := "<!-- recall:derived -->".

(** ** The cut *)

Record DerivedSplit := { ds_human : list ascii; ds_block : list ascii; ds_fence : option nat }.

Definition is_fence (l : list ascii) : bool := bool_decide (strip_chars l ∈ [chars OPEN_FENCE; chars LEGACY_OPEN_FENCE]).

(** [_first_fence_offset]. *)
Fixpoint fence_offset (cursor : nat) (ls : list (list ascii)) : option nat :=
  match ls with
  | [] => None
  | l :: ls' => if is_fence l then Some cursor else fence_offset (cursor + length l) ls'
  end.

Definition first_fence_offset (body : list ascii) : option nat := fence_offset 0 (lines_keep body).

(** [OPEN in body and any(line.strip() == OPEN ...)]: the second holds only where the first does. *)
Definition has_legacy_derived_block (body : list ascii) : bool :=
  existsb (fun l => bool_decide (strip_chars l = chars LEGACY_OPEN_FENCE)) (lines_keep body).

Definition split_derived_block (body : list ascii) : DerivedSplit :=
  match first_fence_offset body with
  | None => {| ds_human := rstrip_by is_space body; ds_block := []; ds_fence := None |}
  | Some start => {| ds_human := rstrip_by is_space (take start body); ds_block := drop start body; ds_fence := Some start |}
  end.

(** ** Entries *)

Definition DERIVED_BLOCK_VERSION : Z := 1.
Definition DERIVED_HEADS : list string := ["contradicts"; "same_entity"; "status"].
Definition FORBIDDEN_HEADS : list string := ["supersedes"; "valid_from"; "valid_until"].
Definition STATUS_VALUES : list string := ["open"; "adopted"; "closed"; "superseded"; "rejected"; "abandoned"].
Definition STATUS_ALIASES : list (string * string) := [("deprecated", "superseded"); ("obsolete", "superseded")].
Definition REQUIRED_SUBKEYS : list string := ["proposal"; "provider"; "reviewer"; "at"].
Definition OPTIONAL_SUBKEYS : list string := ["note"].
Definition INDENT : string := "  ".

Record DerivedEntry := {
  de_head : string;
  de_value : string;
  de_proposal : string;
  de_provider : string;
  de_reviewer : string;
  de_at : string;
  de_note : string
}.

#[export] Instance DerivedEntry_eq_dec : EqDecision DerivedEntry.
Proof. solve_decision. Defined.

(** [DerivedBlockError]. *)
Definition block_error {A} (msg : string) : result A := Raise (ValueError msg).

(** One or two digits up to a bound. *)
Definition read_clock (most : Z) (w : list ascii) : option Z :=
  match w with
  | [a] => digit a
  | [a; b] => a ← digit a; b ← digit b; if decide (a * 10 + b <= most)%Z then Some (a * 10 + b)%Z else None
  | _ => None
  end.

(** [_is_utc_instant]: [strptime] of [%Y-%m-%dT%H:%M:%SZ], whose letters match in either case. *)
Definition is_utc_instant (s : string) : bool :=
  ends_with s "Z" &&
  match split_chars "T" (map (fun c => if decide (c = "t"%char) then "T"%char else c) (chars (drop_last 1 s))) with
  | [d; t] =>
      match read_date (unchars d), split_chars ":" t with
      | Some _, [h; mi; se] =>
          match read_clock 23 h, read_clock 59 mi, read_clock 59 se with Some _, Some _, Some _ => true | _, _, _ => false end
      | _, _ => false
      end
  | _ => false
  end.

Definition validate_entry (e : DerivedEntry) : result unit :=
  if decide (de_head e ∈ FORBIDDEN_HEADS) then block_error "a head of the frontmatter"
  else if decide (de_head e ∉ DERIVED_HEADS) then block_error "unknown head"
  else
    _ ← (if decide (de_head e = "status") then
           if decide (de_value e ∈ map fst STATUS_ALIASES) then block_error "status is a closure marker"
           else if decide (de_value e ∉ STATUS_VALUES) then block_error "status is outside the closed vocabulary"
           else Ok tt
         else if decide (de_value e = "" \/ supersedes_key (de_value e) <> de_value e) then block_error "value is not a bare document stem"
         else Ok tt);
    if negb (is_sha256_hex (de_proposal e)) then block_error "proposal must be 64 lowercase hex characters"
    else if negb (is_utc_instant (de_at e)) then block_error "at must be a Z-suffixed UTC ISO-8601 instant"
    else if decide (strip (de_provider e) = "") then block_error "provider must be a non-empty single line"
    else if decide (strip (de_reviewer e) = "") then block_error "reviewer must be a non-empty single line"
    else if existsb has_line_break [de_value e; de_provider e; de_reviewer e; de_note e] then block_error "must be a single line"
    else Ok tt.

Definition entry_key (e : DerivedEntry) : string * string := (de_head e, de_value e).

(** The order of the keys of two entries. *)
Definition key_ltb (a b : string * string) : bool :=
  if decide (a.1 = b.1) then string_ltb a.2 b.2 else string_ltb a.1 b.1.

Definition validate_set (entries : list DerivedEntry) : result unit :=
  if decide (entries = []) then block_error "a derived block with no entries is churn; remove the block"
  else if decide (~ NoDup (map entry_key entries)) then block_error "duplicate entry"
  else if 1 <? length (filter (fun e => de_head e = "status") entries) then block_error "at most one status entry per block"
  else Ok tt.

(** [_normalise]. *)
Definition normalise_entry (e : DerivedEntry) : DerivedEntry :=
  match (if decide (de_head e = "status") then odict_get (de_value e) STATUS_ALIASES else None) with
  | Some v => {| de_head := de_head e; de_value := v; de_proposal := de_proposal e; de_provider := de_provider e;
                 de_reviewer := de_reviewer e; de_at := de_at e; de_note := de_note e |}
  | None => e
  end.

(** [sorted] by head and value. *)
Definition sort_keys {A} (key : A -> string * string) (l : list A) : list A :=
  stable_sort (fun a b => negb (key_ltb (key b) (key a))) l.

Definition ordered_entries (entries : list DerivedEntry) : list DerivedEntry := sort_keys entry_key (map normalise_entry entries).

(** ** Printing *)

(** A line [key: value], indented or not. *)
Definition keyed (indent key v : string) : list ascii := chars (indent +:+ key +:+ ": " +:+ v).

Definition entry_lines (e : DerivedEntry) : list (list ascii) :=
  [keyed "" (de_head e) (de_value e); keyed INDENT "proposal" (de_proposal e); keyed INDENT "provider" (de_provider e);
   keyed INDENT "reviewer" (de_reviewer e); keyed INDENT "at" (de_at e)] ++
  (if decide (de_note e = "") then [] else [keyed INDENT "note" (de_note e)]).

Definition entry_payload (e : DerivedEntry) : value :=
  VDict [("head", VStr (de_head e)); ("value", VStr (de_value e)); ("proposal", VStr (de_proposal e)); ("provider", VStr (de_provider e));
         ("reviewer", VStr (de_reviewer e)); ("at", VStr (de_at e)); ("note", VStr (de_note e))].

(** ** Reading *)

(** The entry being read: its head, its value and the sub-keys met. *)
Record RawEntry := { raw_head : string; raw_value : string; raw_subs : list (string * string) }.

Definition entry_from (raw : RawEntry) : result DerivedEntry :=
  match odict_get "proposal" (raw_subs raw), odict_get "provider" (raw_subs raw), odict_get "reviewer" (raw_subs raw), odict_get "at" (raw_subs raw) with
  | Some proposal, Some provider, Some reviewer, Some at_ =>
      let e := {| de_head := raw_head raw; de_value := raw_value raw; de_proposal := proposal; de_provider := provider; de_reviewer := reviewer;
                  de_at := at_; de_note := default "" (odict_get "note" (raw_subs raw)) |} in
      _ ← validate_entry e; Ok e
  | _, _, _, _ => block_error "entry is missing a sub-key"
  end.

(** [entries.append(_entry_from(current))], if there is one. *)
Definition close_entry (entries : list DerivedEntry) (current : option RawEntry) : result (list DerivedEntry) :=
  match current with Some raw => e ← entry_from raw; Ok (entries ++ [e]) | None => Ok entries end.

(** [line.partition(": ")]. *)
Fixpoint partition_key (l : list ascii) : option (list ascii * list ascii) :=
  match l with
  | [] => None
  | c :: l' =>
      match l' with
      | d :: l'' => if decide (c = ":"%char /\ d = " "%char) then Some ([], l'') else '(k, v) ← partition_key l'; Some (c :: k, v)
      | [] => None
      end
  end.

Definition entry_step (acc : list DerivedEntry * option RawEntry) (line : list ascii) : result (list DerivedEntry * option RawEntry) :=
  let '(entries, current) := acc in
  if decide (strip_chars line = []) then block_error "a derived block contains no blank lines"
  else if list_prefix (chars INDENT) line then
    match current with
    | None => block_error "a sub-key appears before any head"
    | Some raw =>
        let rest := drop 2 line in
        if list_prefix (chars " ") rest then block_error "a sub-key must be indented exactly two spaces"
        else match partition_key rest with
        | None => block_error "malformed sub-key line"
        | Some (key, v) =>
            let key := unchars key in
            if decide (key ∉ REQUIRED_SUBKEYS ++ OPTIONAL_SUBKEYS) then block_error "unknown sub-key"
            else if decide (is_Some (odict_get key (raw_subs raw))) then block_error "duplicate sub-key"
            else Ok (entries, Some {| raw_head := raw_head raw; raw_value := raw_value raw; raw_subs := raw_subs raw ++ [(key, unchars v)] |})
        end
    end
  else
    entries ← close_entry entries current;
    match partition_key line with
    | None => block_error "malformed head line"
    | Some (head, v) => Ok (entries, Some {| raw_head := unchars head; raw_value := unchars v; raw_subs := [] |})
    end.

(** [DerivedBlock]: [db_digest] is what the text claims. *)
Record DerivedBlock := { db_entries : list DerivedEntry; db_digest : string }.

Definition is_line (fence : string) (l : list ascii) : bool := bool_decide (strip_chars l = chars fence).

(** The index of the first line that strips to a fence. *)
Fixpoint find_line (fence : string) (ls : list (list ascii)) : option nat :=
  match ls with
  | [] => None
  | l :: ls' => if is_line fence l then Some 0 else S <$> find_line fence ls'
  end.

(** [text.replace("\r\n", "\n").split("\n")], the last line left out when it is empty. *)
Definition block_lines (text : list ascii) : list (list ascii) :=
  let lines := split_chars LF (replace_crlf text) in
  if decide (last lines = Some []) then take (length lines - 1) lines else lines.

Definition parse_derived_block (text : list ascii) : result DerivedBlock :=
  match block_lines text with
  | [] => block_error "a derived block must start with the open fence"
  | l :: lines =>
      if negb (is_line OPEN_FENCE l) then block_error "a derived block must start with the open fence"
      else match find_line CLOSE_FENCE lines with
      | None => block_error "unclosed block: no close fence line"
      | Some close_at =>
          let inner := take close_at lines in
          let after := drop (S close_at) lines in
          if existsb (is_line OPEN_FENCE) inner then block_error "a second open fence inside a block"
          else if existsb (fun l => negb (bool_decide (strip_chars l = []))) after then
            if existsb (is_line OPEN_FENCE) after then block_error "a second open fence follows the close fence"
            else block_error "content after the close fence"
          else match last inner with
          | None => block_error "digest must be the last line before the close fence"
          | Some d =>
              if negb (list_prefix (chars "digest: ") d) then block_error "digest must be the last line before the close fence"
              else
                let digest := unchars (strip_chars (drop 8 d)) in
                if negb (is_sha256_hex digest) then block_error "digest must be 64 lowercase hex characters"
                else
                  acc ← result_foldl entry_step ([], None) (take (length inner - 1) inner);
                  entries ← close_entry acc.1 acc.2;
                  _ ← validate_set entries;
                  if decide (map entry_key entries = sort_keys id (map entry_key entries)) then Ok {| db_entries := entries; db_digest := digest |}
                  else block_error "entries must be sorted by (head, value)"
          end
      end
  end.

(** [DerivedDigestMismatch], by its message. *)
Definition digest_mismatch : exn := ValueError "digest mismatch".

Section digests.
Context (json_dumps : value -> string) (sha256_hex : string -> string).

Definition derived_digest (entries : list DerivedEntry) : result string :=
  canonical_sha256 json_dumps sha256_hex (VDict [("v", VInt DERIVED_BLOCK_VERSION); ("entries", VList (map entry_payload entries))]).

Definition render_derived_block (entries : list DerivedEntry) : result (list ascii) :=
  let ordered := ordered_entries entries in
  _ ← validate_set ordered;
  _ ← result_mapM validate_entry ordered;
  digest ← derived_digest ordered;
  Ok (Anchors.join_lines ([chars OPEN_FENCE] ++ concat (map entry_lines ordered) ++ [keyed "" "digest" digest; chars CLOSE_FENCE]) ++ [LF]).

Definition verify_derived_block (text : list ascii) : result DerivedBlock :=
  block ← parse_derived_block text;
  expected ← derived_digest (db_entries block);
  if decide (expected = db_digest block) then Ok block else Raise digest_mismatch.

(** [diagnose_derived_block]: its code, the message left out. *)
Definition diagnose_derived_block (text : list ascii) : option string :=
  if decide (text = []) then None
  else
    let lines := split_chars LF (replace_crlf text) in
    if 1 <? length (filter (fun l => is_line OPEN_FENCE l = true) lines) then Some "derived-block-duplicated"
    else if match find_line CLOSE_FENCE lines with
            | Some close_at => negb (bool_decide (strip_chars (Anchors.join_lines (drop (S close_at) lines)) = []))
            | None => false
            end then Some "derived-block-not-last"
    else match verify_derived_block text with
    | Ok _ => None
    | Raise e => if decide (e = digest_mismatch) then Some "derived-block-tampered" else Some "derived-block-malformed"
    end.
End digests.

(** ** Examples *)

Example instant_ex : map is_utc_instant ["2026-08-01T09:30:00Z"; "2026-8-1t9:3:0Z"; "2026-02-30T00:00:00Z"; "2026-08-01T24:00:00Z"; "2026-08-01T09:30:00"] =
  [true; true; false; false; false].
Proof. vm_compute. reflexivity. Qed.
