(* ===== verification/DerivedBlockFacts.v ===== *)
(** * DerivedBlockFacts: a block is read back as it was printed, and never read as evidence *)
From S2P Require Import Prelude Text Float64 Frontmatter SourceIdentity References FrontmatterBlock FrontmatterWriters Types TrustVerdicts Lineage LineageFacts Anchors Chunker ChunkerFacts Context ContextFacts DerivedBlock.

Local Open Scope nat_scope.

(** ** Lines *)

Definition one_line (l : list ascii) : Prop := Forall (fun c => c <> LF /\ c <> CR) l.

Lemma one_line_app a b : one_line (a ++ b) <-> one_line a /\ one_line b.
Proof. apply Forall_app. Qed.

Lemma split_line l r : one_line l -> split_chars LF (l ++ LF :: r) = l :: split_chars LF r.
Proof.
  induction 1 as [|c l [Hc _] _ IH]; cbn [app split_chars]; [by rewrite decide_True|]. rewrite decide_False by done. by rewrite IH.
Qed.

(** Terminated lines are split back. *)
Definition terminated (ls : list (list ascii)) : list ascii := concat (map (fun l => l ++ [LF]) ls).

Lemma terminated_app a b : terminated (a ++ b) = terminated a ++ terminated b.
Proof. unfold terminated. by rewrite map_app, concat_app. Qed.

Lemma terminated_cons l ls : terminated (l :: ls) = l ++ LF :: terminated ls.
Proof. unfold terminated. cbn [map concat]. by rewrite <-(assoc_L (++)). Qed.

Lemma join_terminated ls : ls <> [] -> Anchors.join_lines ls ++ [LF] = terminated ls.
Proof.
  induction ls as [|l ls IH]; [done|]. intros _. rewrite terminated_cons. destruct ls as [|l' ls]; [done|].
  change (Anchors.join_lines (l :: l' :: ls)) with (l ++ LF :: Anchors.join_lines (l' :: ls)). rewrite <-IH by done. by rewrite <-(assoc_L (++)).
Qed.

Lemma split_terminated ls : Forall one_line ls -> split_chars LF (terminated ls) = ls ++ [[]].
Proof. induction 1 as [|l ls Hl _ IH]; [done|]. rewrite terminated_cons, split_line by done. by rewrite IH. Qed.

Lemma without_cr l : Forall (fun c => c <> CR) l -> replace_crlf l = l.
Proof.
  induction 1 as [|c l Hc _ IH]; [done|]. cbn [replace_crlf]. destruct l as [|d l]; [done|]. rewrite decide_False by naive_solver. by rewrite IH.
Qed.

Lemma terminated_no_cr ls : Forall one_line ls -> Forall (fun c => c <> CR) (terminated ls).
Proof.
  induction 1 as [|l ls Hl _ IH]; [constructor|]. rewrite terminated_cons. apply Forall_app. split; [eapply Forall_impl; [exact Hl|]; by intros c [_ ?]|]. by constructor.
Qed.

Lemma block_lines_terminated ls : Forall one_line ls -> block_lines (terminated ls) = ls.
Proof.
  intros Hl. unfold block_lines. rewrite without_cr by by apply terminated_no_cr. rewrite split_terminated by done.
  rewrite last_snoc, decide_True by done. rewrite length_app. cbn [length]. by rewrite Nat.add_sub, take_app_length.
Qed.

(** What a line shows first. *)
Definition shows (c : ascii) (l : list ascii) : Prop := head (drop_while is_space l) = Some c.

Lemma strip_shows l : strip_chars l <> [] -> head (strip_chars l) = head (drop_while is_space l).
Proof.
  intros Hne. unfold strip_chars. rewrite head_reverse, drop_while_last, last_reverse; [done|]. intros Hd. apply Hne. unfold strip_chars. by rewrite Hd.
Qed.

Lemma shows_not_blank c l : shows c l -> strip_chars l <> [].
Proof.
  intros Hs Hb. apply strip_blank in Hb. destruct (drop_while_split is_space l) as (s & Hl & _). unfold shows in Hs.
  rewrite Hl, squeeze_app in Hb. apply app_eq_nil in Hb as [_ Hb]. destruct (drop_while is_space l) as [|x r] eqn:Hr; [done|].
  assert (Hx : is_space x = false) by (apply (drop_while_fails is_space l); by rewrite Hr). unfold squeeze in Hb. rewrite filter_cons, decide_True in Hb by done. done.
Qed.

Lemma shows_not_fence c l fence : shows c l -> head (chars fence) <> Some c -> is_line fence l = false.
Proof.
  intros Hs Hf. apply bool_decide_eq_false. intros Hl. apply Hf. rewrite <-Hl, strip_shows by by apply (shows_not_blank c). done.
Qed.

(** ** One entry *)

Lemma keyed_chars indent key v : keyed indent key v = chars indent ++ chars key ++ chars ": " ++ chars v.
Proof. unfold keyed. by rewrite !chars_app. Qed.

Definition raw_of (e : DerivedEntry) : RawEntry :=
  {| raw_head := de_head e; raw_value := de_value e;
     raw_subs := [("proposal", de_proposal e); ("provider", de_provider e); ("reviewer", de_reviewer e); ("at", de_at e)] ++
                 (if decide (de_note e = "") then [] else [("note", de_note e)]) |}.

Lemma entry_from_raw e : validate_entry e = Ok tt -> entry_from (raw_of e) = Ok e.
Proof.
  intros Hv. assert (Hnote : default "" (odict_get "note" (raw_subs (raw_of e))) = de_note e) by (unfold raw_of; destruct (decide (de_note e = "")) as [->|]; reflexivity).
  unfold entry_from. rewrite Hnote. change (odict_get "proposal" (raw_subs (raw_of e))) with (Some (de_proposal e)).
  change (odict_get "provider" (raw_subs (raw_of e))) with (Some (de_provider e)). change (odict_get "reviewer" (raw_subs (raw_of e))) with (Some (de_reviewer e)).
  change (odict_get "at" (raw_subs (raw_of e))) with (Some (de_at e)). cbn [raw_head raw_value raw_of].
  replace {| de_head := de_head e; de_value := de_value e; de_proposal := de_proposal e; de_provider := de_provider e; de_reviewer := de_reviewer e; de_at := de_at e;
             de_note := de_note e |} with e by by destruct e. by rewrite Hv.
Qed.

Lemma head_step es current es' h v : h ∈ DERIVED_HEADS -> close_entry es current = Ok es' ->
  entry_step (es, current) (keyed "" h v) = Ok (es', Some {| raw_head := h; raw_value := v; raw_subs := [] |}).
Proof.
  intros Hh Hc. assert (Hs : exists c, shows c (keyed "" h v) /\ list_prefix (chars INDENT) (keyed "" h v) = false /\ partition_key (keyed "" h v) = Some (chars h, chars v)).
  { rewrite keyed_chars. unfold DERIVED_HEADS in Hh. repeat (apply elem_of_cons in Hh as [->|Hh]; [eexists; split; [reflexivity|split; reflexivity]|]). by apply not_elem_of_nil in Hh. }
  destruct Hs as (c & Hs & Hi & Hp). unfold entry_step. rewrite decide_False by by apply (shows_not_blank c). rewrite Hi, Hc. cbn [mbind result_bind].
  by rewrite Hp, !unchars_chars.
Qed.

Lemma sub_step es raw k v : k ∈ REQUIRED_SUBKEYS ++ OPTIONAL_SUBKEYS -> odict_get k (raw_subs raw) = None ->
  entry_step (es, Some raw) (keyed INDENT k v) = Ok (es, Some {| raw_head := raw_head raw; raw_value := raw_value raw; raw_subs := raw_subs raw ++ [(k, v)] |}).
Proof.
  intros Hk Hn. assert (Hs : exists c, shows c (keyed INDENT k v) /\ list_prefix (chars INDENT) (keyed INDENT k v) = true /\
    list_prefix (chars " ") (drop 2 (keyed INDENT k v)) = false /\ partition_key (drop 2 (keyed INDENT k v)) = Some (chars k, chars v)).
  { rewrite keyed_chars. clear Hn. unfold REQUIRED_SUBKEYS, OPTIONAL_SUBKEYS in Hk. cbn [app] in Hk.
    repeat (apply elem_of_cons in Hk as [->|Hk]; [eexists; split; [reflexivity|repeat split; reflexivity]|]). by apply not_elem_of_nil in Hk. }
  destruct Hs as (c & Hs & Hi & Hsp & Hp). unfold entry_step. rewrite decide_False by by apply (shows_not_blank c). rewrite Hi, Hsp, Hp, !unchars_chars.
  rewrite decide_False by (intros H; by apply H). rewrite decide_False by (rewrite Hn; by intros [? [=]]). done.
Qed.

Lemma result_foldl_app {A B} (f : B -> A -> result B) b l k : result_foldl f b (l ++ k) = (b' ← result_foldl f b l; result_foldl f b' k).
Proof. revert b. induction l as [|x l IH]; intros b; [done|]. cbn [app result_foldl]. destruct (f b x); [apply IH|done]. Qed.

Lemma entry_read es current es' e : de_head e ∈ DERIVED_HEADS -> close_entry es current = Ok es' ->
  result_foldl entry_step (es, current) (entry_lines e) = Ok (es', Some (raw_of e)).
Proof.
  intros Hh Hc. unfold entry_lines, raw_of. cbn [app result_foldl]. rewrite (head_step es current es') by done. cbn [mbind result_bind].
  do 4 (rewrite sub_step; [cbn [mbind result_bind raw_head raw_value raw_subs app]|by_decide|reflexivity]).
  case_decide as Hn; [done|]. cbn [result_foldl]. rewrite sub_step; [done|by_decide|reflexivity].
Qed.

(** ** What an entry holds *)

Record entry_ok (e : DerivedEntry) : Prop := {
  eo_head : de_head e ∈ DERIVED_HEADS;
  eo_status : de_head e = "status" -> de_value e ∉ map fst STATUS_ALIASES;
  eo_proposal : is_sha256_hex (de_proposal e) = true;
  eo_at : is_utc_instant (de_at e) = true;
  eo_lines : Forall (fun s => has_line_break s = false) [de_value e; de_provider e; de_reviewer e; de_note e]
}.

Lemma validate_entry_ok e : validate_entry e = Ok tt -> entry_ok e.
Proof.
  unfold validate_entry. case_decide; [done|]. case_decide as Hh; [done|].
  set (body := if negb (is_sha256_hex _) then _ else _). intros Hval.
  assert (Hs : (de_head e = "status" -> de_value e ∉ map fst STATUS_ALIASES) /\ body = Ok tt).
  { destruct (decide (de_head e = "status")) as [Hst|Hst]; repeat case_decide; done || (cbn [mbind result_bind] in Hval; by split). }
  destruct Hs as [Hs Hb]. unfold body in Hb. destruct (is_sha256_hex _) eqn:Hp; [|done]. destruct (is_utc_instant _) eqn:Ha; [|done]. cbn [negb] in Hb.
  case_decide; [done|]. case_decide; [done|]. destruct (existsb _ _) eqn:Hl; [done|]. split; [done..|].
  apply Forall_forall. intros s Hin%list_elem_of_In. destruct (has_line_break s) eqn:Hbr; [|done]. assert (Hex : existsb has_line_break [de_value e; de_provider e; de_reviewer e; de_note e] = true) by (apply existsb_exists; by exists s). congruence.
Qed.

Lemma unbroken_line s : has_line_break s = false -> one_line (chars s).
Proof.
  unfold has_line_break. intros H%negb_false_iff%bool_decide_eq_true. rewrite H. apply Forall_forall. intros c Hc%list_elem_of_In%filter_In.
  destruct Hc as [_ Hc%negb_true_iff%bool_decide_eq_false]. split; intros ->; apply Hc; by_decide.
Qed.

Lemma split_cover sep l c : c ∈ l -> c = sep \/ exists w, w ∈ split_chars sep l /\ c ∈ w.
Proof.
  induction l as [|x l IH]; [by intros ?%not_elem_of_nil|]. cbn [split_chars]. rewrite elem_of_cons. case_decide as Hx.
  - intros [->|Hc]; [by left|]. destruct (IH Hc) as [|(w & Hw & Hcw)]; [by left|right]. exists w. split; [by right|done].
  - destruct (split_chars sep l) as [|w ws] eqn:Hs; [by destruct (split_chars_not_nil sep l)|]. intros [->|Hc]; [right; exists (x :: w); split; [by left|by left]|].
    destruct (IH Hc) as [|(w' & Hw & Hcw)]; [by left|right]. apply elem_of_cons in Hw as [->|Hw]; [exists (x :: w); split; [by left|by right]|].
    exists w'. split; [by right|done].
Qed.

Lemma split_one_line sep l : sep <> LF -> sep <> CR -> Forall one_line (split_chars sep l) -> one_line l.
Proof.
  intros H1 H2 Hall. apply Forall_forall. intros c Hc. destruct (split_cover sep l c Hc) as [->|(w & Hw & Hcw)]; [done|].
  rewrite Forall_forall in Hall. specialize (Hall w Hw). unfold one_line in Hall. rewrite Forall_forall in Hall. by apply Hall.
Qed.

Lemma digit_plain c z : digit c = Some z -> c <> LF /\ c <> CR.
Proof. intros H. split; intros ->; done. Qed.

Lemma read_clock_plain m w z : read_clock m w = Some z -> one_line w.
Proof.
  destruct w as [|a [|b [|c w]]]; cbn; [done|..|done].
  - intros Ha. by repeat constructor; apply digit_plain in Ha as [? ?].
  - destruct (digit a) eqn:Ha; [|done]. destruct (digit b) eqn:Hb; [|done]. intros _. apply digit_plain in Ha, Hb. by repeat constructor; naive_solver.
Qed.

Lemma read_date_plain s d : read_date s = Some d -> one_line (chars s).
Proof.
  unfold read_date. intros H. apply (split_one_line "-"); [done..|]. destruct (split_chars "-" (chars s)) as [|y [|m [|dd [|]]]]; try done.
  destruct (read_year y) eqn:Hy; [|done]. destruct (read_month m) eqn:Hm; [|done]. destruct (read_day dd) eqn:Hd; [|done]. clear H. repeat constructor.
  - destruct y as [|a [|b [|c [|e [|]]]]]; try done. cbn in Hy. destruct (digit a) eqn:?; [|done]. destruct (digit b) eqn:?; [|done].
    destruct (digit c) eqn:?; [|done]. destruct (digit e) eqn:?; [|done]. repeat constructor; eapply digit_plain; eassumption.
  - destruct m as [|a [|b [|]]]; try done; cbn in Hm; (destruct (digit a) eqn:?; [|done]); try (destruct (digit b) eqn:?; [|done]);
      repeat constructor; eapply digit_plain; eassumption.
  - destruct dd as [|a [|b [|]]]; try done; cbn in Hd.
    + destruct (digit a) eqn:?; [|done]. repeat constructor; eapply digit_plain; eassumption.
    + case_decide as Ha; [subst a; destruct (digit b) eqn:?; [|done]; repeat constructor; try done; eapply digit_plain; eassumption|].
      destruct (digit a) eqn:?; [|done]. destruct (digit b) eqn:?; [|done]. repeat constructor; eapply digit_plain; eassumption.
Qed.

Lemma instant_line s : is_utc_instant s = true -> one_line (chars s).
Proof.
  unfold is_utc_instant. intros [Hz H]%andb_true_iff. apply ends_with_spec in Hz as [r ->]. rewrite chars_app. apply one_line_app. split; [|by repeat constructor].
  replace (drop_last 1 (r +:+ "Z")) with r in H.
  2:{ unfold drop_last. rewrite chars_app, length_app. cbn [length chars]. by rewrite Nat.add_sub, take_app_length, unchars_chars. }
  set (f := fun c : ascii => if decide (c = "t"%char) then "T"%char else c) in *.
  assert (Hm : one_line (map f (chars r))).
  { apply (split_one_line "T"); [done..|]. destruct (split_chars "T" (map f (chars r))) as [|d [|t [|]]]; try done.
    destruct (read_date (unchars d)) eqn:Hd; [|done]. apply read_date_plain in Hd. rewrite chars_unchars in Hd. repeat constructor; [done|].
    apply (split_one_line ":"); [done..|]. destruct (split_chars ":" t) as [|h [|mi [|se [|]]]]; try done.
    destruct (read_clock 23 h) eqn:Hh; [|done]. destruct (read_clock 59 mi) eqn:Hmi; [|done]. destruct (read_clock 59 se) eqn:Hse; [|done].
    repeat constructor; eapply read_clock_plain; eassumption. }
  unfold one_line in *. rewrite Forall_map in Hm. eapply Forall_impl; [exact Hm|]. intros c. unfold f. by case_decide; [subst|].
Qed.

Lemma hex_plain d : is_sha256_hex d = true -> Forall (fun c => is_space c = false /\ c <> LF /\ c <> CR) (chars d).
Proof.
  assert (Hall : Forall (fun c => is_space c = false /\ c <> LF /\ c <> CR) (chars "0123456789abcdef")) by by_decide.
  unfold is_sha256_hex. intros [_ H]%andb_true_iff. rewrite forallb_forall in H. apply Forall_forall. intros c Hc%list_elem_of_In.
  specialize (H c Hc). apply bool_decide_eq_true in H. rewrite Forall_forall in Hall. by apply Hall.
Qed.

Lemma strip_solid l : Forall (fun c => is_space c = false) l -> strip_chars l = l.
Proof.
  assert (Hd : forall k, Forall (fun c => is_space c = false) k -> drop_while is_space k = k) by (destruct 1 as [|c k Hc _]; cbn; [done|by rewrite Hc]).
  intros Hl. unfold strip_chars. rewrite (Hd l), (Hd (reverse l)) by (done || by apply Forall_reverse). apply reverse_involutive.
Qed.

Lemma keyed_one_line indent k v : one_line (chars indent) -> one_line (chars k) -> one_line (chars v) -> one_line (keyed indent k v).
Proof. intros. rewrite keyed_chars. rewrite !one_line_app. repeat split; try done. by repeat constructor. Qed.

Lemma entry_one_line e : entry_ok e -> Forall one_line (entry_lines e).
Proof.
  intros [Hh _ Hp Ha Hl]. rewrite !Forall_cons in Hl. destruct Hl as (Hv & Hpr & Hr & Hn & _). apply unbroken_line in Hv, Hpr, Hr, Hn.
  assert (Hplain : forall k, k ∈ DERIVED_HEADS ++ REQUIRED_SUBKEYS ++ OPTIONAL_SUBKEYS -> one_line (chars k)).
  { apply Forall_forall. unfold one_line. by_decide. }
  assert (Hi : one_line (chars "") /\ one_line (chars INDENT)) by (split; repeat constructor; done).
  assert (Hx : one_line (chars (de_proposal e))) by (eapply Forall_impl; [by apply hex_plain|]; by intros c (_ & ?)).
  assert (Hline : forall indent k v, one_line (chars indent) -> k ∈ DERIVED_HEADS ++ REQUIRED_SUBKEYS ++ OPTIONAL_SUBKEYS -> one_line (chars v) ->
    one_line (keyed indent k v)) by (intros; apply keyed_one_line; auto).
  destruct Hi as [He Hi]. apply instant_line in Ha. unfold entry_lines. apply Forall_app. split.
  - apply Forall_cons. split; [apply Hline; [done| |done]; by apply elem_of_app; left|].
    do 4 (apply Forall_cons; split; [apply Hline; [done|by_decide|done]|]). constructor.
  - case_decide; [constructor|]. apply Forall_cons. split; [apply Hline; [done|by_decide|done]|constructor].
Qed.

(** ** The order of entries *)

Lemma key_ltb_weak {A} (key : A -> string * string) : weak_order (fun a b => key_ltb (key a) (key b)).
Proof. apply weak_order_map. apply (lex_weak fst string_ltb (fun a b => string_ltb a.2 b.2)); [apply string_ltb_weak|apply weak_order_map, string_ltb_weak]. Qed.

Definition keys_sorted {A} (key : A -> string * string) (l : list A) : Prop := StronglySorted (fun a b => key_ltb (key b) (key a) = false) l.

Lemma sort_keys_sorted {A} (key : A -> string * string) l : keys_sorted key (sort_keys key l).
Proof. apply (stable_sort_weak (fun a b => key_ltb (key a) (key b))). apply key_ltb_weak. Qed.

Lemma sort_keys_id {A} (key : A -> string * string) l : keys_sorted key l -> sort_keys key l = l.
Proof.
  intros Hs. apply sort_sorted. induction Hs as [|x l Hl IH Hx]; constructor; [done|]. eapply Forall_impl; [exact Hx|]. cbn. by intros y ->.
Qed.

Lemma keys_of_sorted {A} (key : A -> string * string) l : keys_sorted key l -> map key l = sort_keys id (map key l).
Proof.
  intros Hs. symmetry. apply sort_keys_id. induction Hs as [|x l Hl IH Hx]; [constructor|]. cbn [map]. constructor; [done|]. by apply Forall_map.
Qed.

Lemma normalise_ok e : entry_ok e -> normalise_entry e = e.
Proof.
  intros [_ Hs _ _ _]. unfold normalise_entry. case_decide as Hh; [|done]. specialize (Hs Hh).
  destruct (odict_get (de_value e) STATUS_ALIASES) as [v|] eqn:Hg; [|done]. exfalso. apply Hs. apply odict_get_keys. by eexists.
Qed.

Lemma ordered_stable l : Forall entry_ok l -> keys_sorted entry_key l -> ordered_entries l = l.
Proof.
  intros Hok Hs. unfold ordered_entries. replace (map normalise_entry l) with l; [by apply sort_keys_id|].
  clear Hs. induction Hok as [|e l He _ IH]; [done|]. cbn [map]. by rewrite normalise_ok, <-IH.
Qed.

(** ** The lines of a block *)

Definition validated (l : list DerivedEntry) : Prop := Forall (fun e => validate_entry e = Ok tt) l.

Lemma all_validated l : (exists u, result_mapM validate_entry l = Ok u) -> validated l.
Proof. intros (u & Hu%result_mapM_ok). induction Hu as [|e [] l u He _ IH]; constructor; [done|exact IH]. Qed.

Lemma validated_all l : validated l -> exists u, result_mapM validate_entry l = Ok u.
Proof. induction 1 as [|e l He _ (u & Hu)]; [by exists []|]. exists (tt :: u). cbn [result_mapM]. rewrite He. cbn [mbind result_bind]. by rewrite Hu. Qed.

Lemma validated_ok l : validated l -> Forall entry_ok l.
Proof. intros H. eapply Forall_impl; [exact H|]. apply validate_entry_ok. Qed.

Lemma entries_read l es current es' : validated l -> close_entry es current = Ok es' ->
  exists es2 current2, result_foldl entry_step (es, current) (concat (map entry_lines l)) = Ok (es2, current2) /\
    close_entry es2 current2 = Ok (es' ++ l).
Proof.
  intros Hv. revert es current es'. induction Hv as [|e l He Hv IH]; intros es current es' Hc; [exists es, current; by rewrite app_nil_r|].
  cbn [map concat]. rewrite result_foldl_app, (entry_read es current es') by (done || by apply validate_entry_ok). cbn [mbind result_bind].
  destruct (IH es' (Some (raw_of e)) (es' ++ [e])) as (es2 & c2 & H1 & H2); [cbn; by rewrite entry_from_raw|].
  exists es2, c2. split; [done|]. by rewrite H2, <-(assoc_L (++)).
Qed.

Lemma keyed_shows k v c k' : chars k = c :: k' -> is_space c = false -> shows c (keyed "" k v) /\ shows c (keyed INDENT k v).
Proof. intros Hk Hc. unfold shows. rewrite !keyed_chars, Hk. cbn. by rewrite Hc. Qed.

Lemma entry_visible e : entry_ok e -> Forall (fun l => exists c, shows c l /\ c <> "<"%char) (entry_lines e).
Proof.
  intros [Hh _ _ _ _]. assert (Hk : forall k v, k ∈ DERIVED_HEADS ++ REQUIRED_SUBKEYS ++ OPTIONAL_SUBKEYS ->
    (exists c, shows c (keyed "" k v) /\ c <> "<"%char) /\ (exists c, shows c (keyed INDENT k v) /\ c <> "<"%char)).
  { intros k v Hin. assert (Hall : Forall (fun k => match chars k with c :: _ => is_space c = false /\ c <> "<"%char | [] => False end)
      (DERIVED_HEADS ++ REQUIRED_SUBKEYS ++ OPTIONAL_SUBKEYS)) by (repeat constructor; done).
    rewrite Forall_forall in Hall. specialize (Hall k Hin). destruct (chars k) as [|c k'] eqn:Hc; [done|]. destruct Hall as [Hs Hne].
    destruct (keyed_shows k v c k' Hc Hs). split; by exists c. }
  unfold entry_lines. apply Forall_app. split.
  - apply Forall_cons. split; [apply Hk; by apply elem_of_app; left|]. do 4 (apply Forall_cons; split; [apply Hk; by_decide|]). constructor.
  - case_decide; [constructor|]. apply Forall_cons. split; [apply Hk; by_decide|constructor].
Qed.

Lemma find_line_after fence ls l rest : Forall (fun x => is_line fence x = false) ls -> is_line fence l = true -> find_line fence (ls ++ l :: rest) = Some (length ls).
Proof. induction 1 as [|x ls Hx _ IH]; intros Hl; cbn [app find_line]; [by rewrite Hl|]. rewrite Hx, IH by done. done. Qed.

(** The lines between the fences, and the whole. *)
Definition inner_lines (l : list DerivedEntry) (d : string) : list (list ascii) := concat (map entry_lines l) ++ [keyed "" "digest" d].

Definition block_text (l : list DerivedEntry) (d : string) : list ascii :=
  terminated (chars OPEN_FENCE :: inner_lines l d ++ [chars CLOSE_FENCE]).

Lemma inner_visible l d : Forall entry_ok l -> Forall (fun x => exists c, shows c x /\ c <> "<"%char) (inner_lines l d).
Proof.
  intros Hl. unfold inner_lines. apply Forall_app. split.
  - apply Forall_concat, Forall_map. eapply Forall_impl; [exact Hl|]. apply entry_visible.
  - repeat constructor. exists "d"%char. split; [|done]. reflexivity.
Qed.

Lemma inner_not_fence l d fence : Forall entry_ok l -> head (chars fence) = Some "<"%char -> Forall (fun x => is_line fence x = false) (inner_lines l d).
Proof.
  intros Hl Hf. eapply Forall_impl; [by apply inner_visible|]. intros x (c & Hs & Hc). apply (shows_not_fence c); [done|]. rewrite Hf. congruence.
Qed.

Lemma block_one_line l d : Forall entry_ok l -> is_sha256_hex d = true -> Forall one_line (chars OPEN_FENCE :: inner_lines l d ++ [chars CLOSE_FENCE]).
Proof.
  intros Hl Hd. assert (Hf : one_line (chars OPEN_FENCE) /\ one_line (chars CLOSE_FENCE) /\ one_line (chars "digest")) by (unfold one_line; by_decide).
  destruct Hf as (Ho & Hc & Hk). constructor; [done|]. unfold inner_lines. rewrite <-(assoc_L (++)). apply Forall_app. split.
  - apply Forall_concat, Forall_map. eapply Forall_impl; [exact Hl|]. apply entry_one_line.
  - constructor; [|by constructor]. apply keyed_one_line; [constructor|done|]. eapply Forall_impl; [by apply hex_plain|]. by intros c (_ & ?).
Qed.

Lemma parse_block l d : validated l -> validate_set l = Ok tt -> keys_sorted entry_key l -> is_sha256_hex d = true ->
  parse_derived_block (block_text l d) = Ok {| db_entries := l; db_digest := d |}.
Proof.
  intros Hv Hset Hsort Hd. pose proof (validated_ok l Hv) as Hok. unfold parse_derived_block, block_text.
  rewrite block_lines_terminated by by apply block_one_line.
  change (is_line OPEN_FENCE (chars OPEN_FENCE)) with true. cbn [negb].
  rewrite find_line_after by (done || by apply inner_not_fence). rewrite take_app_length.
  replace (drop (S (length (inner_lines l d))) (inner_lines l d ++ [chars CLOSE_FENCE])) with (@nil (list ascii)).
  2:{ rewrite drop_ge; [done|]. rewrite length_app. cbn [length]. lia. }
  cbn [existsb]. destruct (existsb (is_line OPEN_FENCE) (inner_lines l d)) eqn:He.
  { apply existsb_exists in He as (x & Hx%list_elem_of_In & Hl). pose proof (inner_not_fence l d OPEN_FENCE Hok eq_refl) as Hall. rewrite Forall_forall in Hall. by rewrite (Hall x Hx) in Hl. }
  unfold inner_lines at 1 2 3. rewrite last_snoc. change (list_prefix (chars "digest: ") (keyed "" "digest" d)) with true. cbn [negb].
  change (drop 8 (keyed "" "digest" d)) with (chars d). rewrite strip_solid, unchars_chars by (eapply Forall_impl; [by apply hex_plain|]; by intros c [? _]).
  rewrite Hd. cbn [negb]. rewrite length_app. cbn [length]. rewrite Nat.add_sub, take_app_length.
  destruct (entries_read l [] None [] Hv eq_refl) as (es2 & c2 & -> & Hc). cbn [mbind result_bind fst snd]. rewrite Hc. cbn [mbind result_bind app].
  rewrite Hset. cbn [mbind result_bind]. by rewrite decide_True by by apply keys_of_sorted.
Qed.

Lemma block_opens l d : Forall entry_ok l -> filter (fun x => is_line OPEN_FENCE x = true) ((chars OPEN_FENCE :: inner_lines l d ++ [chars CLOSE_FENCE]) ++ [[]]) = [chars OPEN_FENCE].
Proof.
  intros Hok. cbn [app]. rewrite filter_cons, decide_True by reflexivity. f_equal. apply list_filter_none. rewrite !Forall_app. split; [split|].
  - eapply Forall_impl; [apply (inner_not_fence l d OPEN_FENCE Hok eq_refl)|]. by intros x ->.
  - by repeat constructor.
  - by repeat constructor.
Qed.

Section digests.
Context (json_dumps : value -> string) (sha256_hex : string -> string).
Context (sha256_shape : forall s, is_sha256_hex (sha256_hex s) = true).

Lemma digest_shape l d : derived_digest json_dumps sha256_hex l = Ok d -> is_sha256_hex d = true.
Proof. unfold derived_digest, canonical_sha256. destruct (canonical_json _ _) as [t|]; [|done]. intros [= <-]. apply sha256_shape. Qed.

Lemma rendered entries text : render_derived_block json_dumps sha256_hex entries = Ok text ->
  exists d, let l := ordered_entries entries in
    validated l /\ validate_set l = Ok tt /\ derived_digest json_dumps sha256_hex l = Ok d /\ text = block_text l d.
Proof.
  unfold render_derived_block. set (l := ordered_entries entries). destruct (validate_set l) as [[]|] eqn:Hs; [|done]. cbn [mbind result_bind].
  destruct (result_mapM validate_entry l) as [u|] eqn:Hu; [|done]. cbn [mbind result_bind]. destruct (derived_digest _ _ l) as [d|] eqn:Hd; [|done].
  cbn [mbind result_bind]. intros Hok. exists d. split; [apply all_validated; by exists u|]. split; [done|]. split; [done|].
  assert (Hinj : forall a b : list ascii, Ok a = Ok b -> a = b) by congruence. apply Hinj in Hok. rewrite <-Hok, join_terminated by done. unfold block_text, inner_lines. by rewrite <-(assoc_L (++)).
Qed.

Lemma block_verified l d : validated l -> validate_set l = Ok tt -> keys_sorted entry_key l -> derived_digest json_dumps sha256_hex l = Ok d ->
  verify_derived_block json_dumps sha256_hex (block_text l d) = Ok {| db_entries := l; db_digest := d |}.
Proof.
  intros Hv Hs Hsort Hd. unfold verify_derived_block. rewrite parse_block by (done || by eapply digest_shape). cbn [mbind result_bind db_entries db_digest].
  rewrite Hd. cbn [mbind result_bind]. by rewrite decide_True.
Qed.

Lemma block_healthy l d : validated l -> validate_set l = Ok tt -> keys_sorted entry_key l -> derived_digest json_dumps sha256_hex l = Ok d ->
  diagnose_derived_block json_dumps sha256_hex (block_text l d) = None.
Proof.
  intros Hv Hs Hsort Hd. pose proof (validated_ok l Hv) as Hok. unfold diagnose_derived_block. rewrite decide_False by done.
  assert (Hlines : split_chars LF (replace_crlf (block_text l d)) = (chars OPEN_FENCE :: inner_lines l d ++ [chars CLOSE_FENCE]) ++ [[]]).
  { pose proof (block_one_line l d Hok (digest_shape l d Hd)) as H1. unfold block_text. by rewrite without_cr, split_terminated by (done || by apply terminated_no_cr). }
  rewrite Hlines, block_opens by done. cbn [length Nat.ltb Nat.leb].
  assert (Hf : find_line CLOSE_FENCE ((chars OPEN_FENCE :: inner_lines l d ++ [chars CLOSE_FENCE]) ++ [[]]) = Some (S (length (inner_lines l d)))).
  { cbn [app find_line]. change (is_line CLOSE_FENCE (chars OPEN_FENCE)) with false. rewrite <-(assoc_L (++)).
    change ([chars CLOSE_FENCE] ++ [[]]) with (chars CLOSE_FENCE :: [[]]). by rewrite find_line_after by (done || by apply inner_not_fence). }
  rewrite Hf. rewrite drop_app_ge by (cbn [length]; rewrite length_app; cbn [length]; lia).
  replace (S (S (length (inner_lines l d))) - length (chars OPEN_FENCE :: inner_lines l d ++ [chars CLOSE_FENCE])) with 0 by (cbn [length]; rewrite length_app; cbn [length]; lia).
  cbn [drop Anchors.join_lines]. change (strip_chars []) with (@nil ascii). rewrite bool_decide_true by done. cbn [negb].
  by rewrite block_verified.
Qed.
End digests.

(** C30: a block of derived relations is read back as it was printed. Whatever entries are accepted
    for printing, the text verifies, holds them in the order of their keys with the aliases of a
    status replaced, prints again as the same text, and nothing is diagnosed in it. *)
Theorem derived_roundtrip json_dumps sha256_hex entries text : (forall s, is_sha256_hex (sha256_hex s) = true) ->
  render_derived_block json_dumps sha256_hex entries = Ok text ->
  exists block, verify_derived_block json_dumps sha256_hex text = Ok block /\ db_entries block = ordered_entries entries /\
    render_derived_block json_dumps sha256_hex (db_entries block) = Ok text /\
    diagnose_derived_block json_dumps sha256_hex text = None.
Proof.
  intros Hsha Hr. destruct (rendered _ _ _ _ Hr) as (d & Hv & Hs & Hd & ->). pose proof (sort_keys_sorted entry_key (map normalise_entry entries)) as Hsort.
  eexists. split; [by apply block_verified|]. split; [done|]. split; [|by apply block_healthy].
  cbn [db_entries]. rewrite <-Hr. unfold render_derived_block. rewrite (ordered_stable (ordered_entries entries)); [done|by apply validated_ok|done].
Qed.

(** ** Where a line ends *)

Lemma keep_crlf l : lines_keep (CR :: LF :: l) = [CR; LF] :: lines_keep l.
Proof. reflexivity. Qed.

Lemma keep_end c l : ends_line c = true -> ~ (c = CR /\ head l = Some LF) -> lines_keep (c :: l) = [c] :: lines_keep l.
Proof.
  intros Hc Hn. cbn [lines_keep]. rewrite Hc. destruct l as [|d l]; [done|]. rewrite decide_False; [done|]. intros [-> ->]. by apply Hn.
Qed.

Lemma keep_char c l : ends_line c = false -> lines_keep (c :: l) = match lines_keep l with [] => [[c]] | w :: ws => (c :: w) :: ws end.
Proof. intros Hc. cbn [lines_keep]. by rewrite Hc. Qed.

Lemma keep_ind (P : list ascii -> Prop) :
  P [] -> (forall l, P l -> P (CR :: LF :: l)) -> (forall c l, ends_line c = true -> ~ (c = CR /\ head l = Some LF) -> P l -> P (c :: l)) ->
  (forall c l, ends_line c = false -> P l -> P (c :: l)) -> forall l, P l.
Proof.
  intros H0 H1 H2 H3 l. remember (length l) as n eqn:Hn. assert (Hle : length l <= n) by lia. clear Hn. revert l Hle.
  induction n as [|n IH]; intros [|c l] Hle; cbn [length] in Hle; [done|lia|done|]. destruct (ends_line c) eqn:Hc; [|apply H3; [done|apply IH; lia]].
  destruct (decide (c = CR /\ head l = Some LF)) as [[-> Hh]|Hn]; [|apply H2; [done..|apply IH; lia]].
  destruct l as [|d l]; [done|]. injection Hh as ->. apply H1, IH. cbn [length] in Hle. lia.
Qed.

Lemma concat_keep l : concat (lines_keep l) = l.
Proof.
  induction l as [|l IH|c l Hc Hn IH|c l Hc IH] using keep_ind; [done|..].
  - rewrite keep_crlf. cbn [concat app]. by rewrite IH.
  - rewrite keep_end by done. cbn [concat app]. by rewrite IH.
  - rewrite keep_char by done. destruct (lines_keep l) as [|w ws]; cbn [concat app] in *; by rewrite <-IH.
Qed.

(** The lines of a text that ends where a line does. *)
Lemma keep_prefix l a b : lines_keep l = a ++ b -> lines_keep (concat a) = a.
Proof.
  revert a b. induction l as [|l IH|c l Hc Hn IH|c l Hc IH] using keep_ind; intros [|x a] b; try done.
  - rewrite keep_crlf. intros [= <- Hl]. cbn [concat app]. by rewrite keep_crlf, (IH a b).
  - rewrite keep_end by done. intros [= <- Hl]. cbn [concat app]. rewrite keep_end; [by rewrite (IH a b)|done|].
    intros [-> Hh]. apply Hn. split; [done|]. rewrite <-(concat_keep l), Hl, concat_app. by destruct (concat a).
  - rewrite keep_char by done. destruct (lines_keep l) as [|w ws] eqn:Hw; intros [= <- Hl].
    + symmetry in Hl. apply app_eq_nil in Hl as [-> _]. cbn. by rewrite Hc.
    + cbn [concat app]. rewrite keep_char by done. specialize (IH (w :: a) b). cbn [concat app] in IH. by rewrite IH by by rewrite Hl.
Qed.

(** The lines of what follows the beginning of a line. *)
Definition prefixed (pre : list ascii) (ls : list (list ascii)) : list (list ascii) :=
  match ls with [] => if decide (pre = []) then [] else [pre] | w :: ws => (pre ++ w) :: ws end.

Lemma prefixed_nil ls : prefixed [] ls = ls.
Proof. by destruct ls. Qed.

Lemma prefixed_char pre c l : ends_line c = false -> prefixed pre (lines_keep (c :: l)) = prefixed (pre ++ [c]) (lines_keep l).
Proof.
  intros Hc. rewrite keep_char by done. destruct (lines_keep l) as [|w ws]; cbn [prefixed]; [by rewrite decide_False by (by destruct pre)|].
  by rewrite <-(assoc_L (++)).
Qed.

(** ** Fences *)

Definition fenceless (ls : list (list ascii)) : Prop := Forall (fun l => is_fence l = false) ls.

Lemma strip_spaces_r l ws : spaces ws -> strip_chars (l ++ ws) = strip_chars l.
Proof.
  intros Hw. unfold strip_chars. assert (Hd : forall l, drop_while is_space (l ++ ws) = if decide (drop_while is_space l = []) then [] else drop_while is_space l ++ ws).
  { induction l0 as [|c k IH]; cbn [app drop_while].
    - rewrite decide_True by done. rewrite <-(app_nil_r ws). by rewrite drop_while_skip.
    - destruct (is_space c); [exact IH|]. by rewrite decide_False. }
  rewrite Hd. case_decide as He; [by rewrite He|]. rewrite reverse_app, drop_while_skip by by apply Forall_reverse. done.
Qed.

Lemma fence_spaces_r l ws : spaces ws -> is_fence (l ++ ws) = is_fence l.
Proof. intros Hw. unfold is_fence. by rewrite strip_spaces_r. Qed.

Lemma ends_space c : ends_line c = true -> is_space c = true.
Proof.
  unfold ends_line, is_space. intros Hc%bool_decide_eq_true.
  repeat (apply elem_of_cons in Hc as [Hc|Hc]; [by rewrite Hc|]). by apply not_elem_of_nil in Hc.
Qed.

(** A line that white space follows is no fence when it is none with the space. *)
Lemma fenceless_spaces pre ws : spaces ws -> fenceless (prefixed pre (lines_keep ws)) -> fenceless (prefixed pre []).
Proof.
  intros Hw. revert pre. induction ws as [|l IH|c l Hc Hn IH|c l Hc IH] using keep_ind; intros pre; [done|..].
  - rewrite keep_crlf. cbn [prefixed]. intros [Hf _]%Forall_cons. case_decide; [constructor|]. constructor; [|constructor].
    by rewrite fence_spaces_r in Hf by by repeat constructor.
  - rewrite keep_end by done. cbn [prefixed]. intros [Hf _]%Forall_cons. case_decide; [constructor|]. constructor; [|constructor].
    by rewrite fence_spaces_r in Hf by (repeat constructor; by apply ends_space).
  - rewrite prefixed_char by done. apply Forall_cons in Hw as [Hc' Hw]. intros Hf. apply IH in Hf; [|done]. cbn [prefixed] in *.
    rewrite decide_False in Hf by (by destruct pre). apply Forall_cons in Hf as [Hf _]. case_decide; [constructor|]. constructor; [|constructor].
    by rewrite fence_spaces_r in Hf by by repeat constructor.
Qed.

Lemma fenceless_stripped h ws pre : spaces ws -> fenceless (prefixed pre (lines_keep (h ++ ws))) -> fenceless (prefixed pre (lines_keep h)).
Proof.
  intros Hw. revert pre. induction h as [|l IH|c l Hc Hn IH|c l Hc IH] using keep_ind; intros pre.
  - apply fenceless_spaces; done.
  - cbn [app]. rewrite !keep_crlf. cbn [prefixed]. intros [Hf Hr]%Forall_cons. constructor; [done|]. specialize (IH []). rewrite !prefixed_nil in IH. by apply IH.
  - cbn [app]. rewrite (keep_end c l) by done. cbn [prefixed]. destruct (decide (c = CR /\ head (l ++ ws) = Some LF)) as [[-> Hh]|Hn'].
    + destruct l as [|d l]; [|by destruct Hn]. destruct ws as [|d ws]; [done|]. injection Hh as ->. cbn [app]. rewrite keep_crlf. cbn [prefixed lines_keep].
      intros [Hf _]%Forall_cons. constructor; [|constructor]. by rewrite fence_spaces_r in Hf |- * by by repeat constructor.
    + rewrite keep_end by done. cbn [prefixed]. intros [Hf Hr]%Forall_cons. constructor; [done|]. specialize (IH []). rewrite !prefixed_nil in IH. by apply IH.
  - cbn [app]. rewrite !prefixed_char by done. apply IH.
Qed.

(** A text without a fence, not left in the middle of a line end, followed by a line end. *)
Lemma fenceless_closed h r pre : (forall c, last h = Some c -> ends_line c = false) -> fenceless (prefixed pre (lines_keep h)) ->
  exists a, prefixed pre (lines_keep (h ++ LF :: r)) = a ++ lines_keep r /\ fenceless a /\ concat a = pre ++ h ++ [LF].
Proof.
  revert pre. induction h as [|l IH|c l Hc Hn IH|c l Hc IH] using keep_ind; intros pre Hlast Hf.
  - exists [pre ++ [LF]]. cbn [app]. rewrite keep_end by (done || by intros [? _]). cbn [prefixed app concat]. rewrite app_nil_r. split; [done|]. split; [|done].
    constructor; [|constructor]. rewrite fence_spaces_r by by repeat constructor. cbn [prefixed lines_keep] in Hf. case_decide; [by subst|]. by apply Forall_cons in Hf as [? _].
  - cbn [app]. rewrite keep_crlf in Hf |- *. cbn [prefixed] in Hf |- *. apply Forall_cons in Hf as [Hf Hr].
    destruct (IH []) as (a & Ha & Hfa & Hca); [intros x Hx; apply Hlast; destruct l; [done|exact Hx]|by rewrite prefixed_nil|]. rewrite prefixed_nil in Ha.
    exists ((pre ++ [CR; LF]) :: a). rewrite Ha. split; [done|]. split; [by constructor|]. cbn [concat]. rewrite Hca. by rewrite <-(assoc_L (++)).
  - destruct l as [|d l]; [exfalso; by rewrite (Hlast c eq_refl) in Hc|]. cbn [app]. rewrite (keep_end c (d :: l)) in Hf by done. rewrite keep_end by done.
    cbn [prefixed] in Hf |- *. apply Forall_cons in Hf as [Hf Hr].
    destruct (IH []) as (a & Ha & Hfa & Hca); [intros x Hx; by apply Hlast|by rewrite prefixed_nil|]. rewrite prefixed_nil in Ha. cbn [app] in Ha, Hca.
    exists ((pre ++ [c]) :: a). rewrite Ha. split; [done|]. split; [by constructor|]. cbn [concat]. rewrite Hca. by rewrite <-(assoc_L (++)).
  - cbn [app]. rewrite prefixed_char in Hf |- * by done. destruct (IH (pre ++ [c])) as (a & Ha & Hfa & Hca); [|done|].
    + intros x Hx. apply Hlast. destruct l; [done|exact Hx].
    + exists a. split; [done|]. split; [done|]. rewrite Hca. by rewrite <-(assoc_L (++)).
Qed.

(** ** The cut *)

Lemma fence_offset_none cursor ls : fence_offset cursor ls = None <-> fenceless ls.
Proof.
  revert cursor. induction ls as [|l ls IH]; intros cursor; cbn [fence_offset]; [split; [constructor|done]|].
  destruct (is_fence l) eqn:Hl; [split; [done|by intros [? _]%Forall_cons; congruence]|]. rewrite IH. split; [by constructor|by intros [_ ?]%Forall_cons].
Qed.

Lemma fence_offset_app cursor a l b : fenceless a -> is_fence l = true -> fence_offset cursor (a ++ l :: b) = Some (cursor + length (concat a)).
Proof.
  intros Ha Hl. revert cursor. induction Ha as [|x a Hx _ IH]; intros cursor; cbn [app fence_offset concat length]; [rewrite Hl; f_equal; lia|].
  rewrite Hx, IH, length_app. f_equal. lia.
Qed.

Lemma fence_offset_some cursor ls s : fence_offset cursor ls = Some s ->
  exists a b, ls = a ++ b /\ fenceless a /\ s = cursor + length (concat a).
Proof.
  revert cursor. induction ls as [|l ls IH]; intros cursor; cbn [fence_offset]; [done|]. destruct (is_fence l) eqn:Hl.
  - intros [= <-]. exists [], (l :: ls). split; [done|]. split; [constructor|]. cbn. lia.
  - intros H. destruct (IH _ H) as (a & b & -> & Ha & ->). exists (l :: a), b. split; [done|]. split; [by constructor|]. cbn [concat]. rewrite length_app. lia.
Qed.

Lemma rstrip_cut l : exists ws, l = rstrip_by is_space l ++ ws /\ spaces ws.
Proof.
  unfold rstrip_by. destruct (drop_while_split is_space (reverse l)) as (s & Hl & Hs). exists (reverse s). split; [|by apply Forall_reverse].
  rewrite <-reverse_app, <-Hl. by rewrite reverse_involutive.
Qed.

Lemma rstrip_last l c : last (rstrip_by is_space l) = Some c -> is_space c = false.
Proof. unfold rstrip_by. rewrite last_reverse. apply drop_while_fails. Qed.

Lemma rstrip_kept h ws : (forall c, last h = Some c -> is_space c = false) -> spaces ws -> rstrip_by is_space (h ++ ws) = h.
Proof.
  intros Hl Hw. unfold rstrip_by. rewrite reverse_app, drop_while_skip by by apply Forall_reverse. rewrite <-(reverse_involutive h) at 2. f_equal.
  rewrite <-head_reverse in Hl. destruct (reverse h) as [|c k]; [done|]. cbn. by rewrite (Hl c eq_refl).
Qed.

(** The human part: where it comes from, and that it shows no fence and no space at its end. *)
Lemma human_part body : let s := split_derived_block body in
  (exists rest, body = ds_human s ++ rest) /\ (exists before, body = before ++ ds_block s) /\
  fenceless (lines_keep (ds_human s)) /\ forall c, last (ds_human s) = Some c -> is_space c = false.
Proof.
  assert (Hpart : forall P, fenceless (lines_keep P) -> fenceless (lines_keep (rstrip_by is_space P))).
  { intros P HP. destruct (rstrip_cut P) as (ws & HPw & Hws). rewrite <-(prefixed_nil (lines_keep (rstrip_by is_space P))).
    apply (fenceless_stripped _ ws); [done|]. by rewrite prefixed_nil, <-HPw. }
  cbn zeta. unfold split_derived_block, first_fence_offset. destruct (fence_offset 0 (lines_keep body)) as [start|] eqn:Hf; cbn [ds_human ds_block].
  - apply fence_offset_some in Hf as (a & b & Hls & Ha & ->). cbn [Nat.add].
    assert (Htake : take (length (concat a)) body = concat a) by (rewrite <-(concat_keep body), Hls, concat_app; apply take_app_length).
    rewrite Htake. destruct (rstrip_cut (concat a)) as (ws & Hws & _). split; [|split; [|split; [|apply rstrip_last]]].
    + exists (ws ++ drop (length (concat a)) body). rewrite (assoc_L (++)), <-Hws, <-Htake at 1. by rewrite take_drop.
    + exists (concat a). rewrite <-Htake at 1. by rewrite take_drop.
    + apply Hpart. by rewrite (keep_prefix body a b).
  - apply fence_offset_none in Hf. destruct (rstrip_cut body) as (ws & Hws & _). split; [by exists ws|]. split; [exists body; by rewrite app_nil_r|].
    split; [by apply Hpart|apply rstrip_last].
Qed.

Lemma split_fenceless h : fenceless (lines_keep h) -> (forall c, last h = Some c -> is_space c = false) ->
  split_derived_block h = {| ds_human := h; ds_block := []; ds_fence := None |}.
Proof.
  intros Hf Hl. unfold split_derived_block, first_fence_offset. rewrite (proj2 (fence_offset_none 0 (lines_keep h)) Hf). f_equal.
  rewrite <-(app_nil_r h) at 1. by apply rstrip_kept; [|constructor].
Qed.

Lemma opening_line r : lines_keep (chars OPEN_FENCE ++ LF :: r) = (chars OPEN_FENCE ++ [LF]) :: lines_keep r.
Proof.
  assert (Hline : forall l, Forall (fun c => ends_line c = false) l -> lines_keep (l ++ LF :: r) = (l ++ [LF]) :: lines_keep r).
  { induction 1 as [|c l Hc _ IH]; cbn [app]; [by rewrite keep_end by (done || by intros [? _])|]. by rewrite keep_char, IH. }
  apply Hline. by_decide.
Qed.

Lemma split_appended h l d : fenceless (lines_keep h) -> (forall c, last h = Some c -> is_space c = false) ->
  split_derived_block (h ++ LF :: LF :: block_text l d) = {| ds_human := h; ds_block := block_text l d; ds_fence := Some (length h + 2) |}.
Proof.
  intros Hf Hl. destruct (fenceless_closed h (LF :: block_text l d) []) as (a & Ha & Hfa & Hca); [|by rewrite prefixed_nil|].
  { intros c Hc. destruct (ends_line c) eqn:He; [|done]. apply ends_space in He. by rewrite (Hl c Hc) in He. }
  rewrite prefixed_nil in Ha. assert (Hstart : first_fence_offset (h ++ LF :: LF :: block_text l d) = Some (length h + 2)).
  { unfold first_fence_offset. rewrite Ha, keep_end by (done || by intros [? _]). unfold block_text. rewrite terminated_cons, opening_line.
    change ([LF] :: (chars OPEN_FENCE ++ [LF]) :: ?r) with ([[LF]] ++ (chars OPEN_FENCE ++ [LF]) :: r). rewrite (assoc_L (++)), fence_offset_app; [| |by vm_compute].
    - rewrite concat_app, length_app, Hca. cbn [app concat length]. rewrite length_app. cbn [length]. f_equal. lia.
    - apply Forall_app. split; [done|]. by repeat constructor. }
  unfold split_derived_block. rewrite Hstart.
  replace (h ++ LF :: LF :: block_text l d) with ((h ++ [LF; LF]) ++ block_text l d) by by rewrite <-(assoc_L (++)).
  assert (Hlen : length h + 2 = length (h ++ [LF; LF])) by by rewrite length_app.
  rewrite Hlen at 1 2. rewrite take_app_length, drop_app_length. f_equal. by apply rstrip_kept; [|repeat constructor].
Qed.

(** C39: no block is read as evidence. The human part of any body is a prefix of it that is cut no
    further, and writing a block of accepted entries after it, one blank line between, leaves that
    same human part and gives that same block back: neither the evidence nor the place of any
    chunk in it depends on whether a block was written. *)
Theorem derived_split_stable json_dumps sha256_hex body : let s := split_derived_block body in
  (exists rest, body = ds_human s ++ rest) /\ (exists before, body = before ++ ds_block s) /\
  split_derived_block (ds_human s) = {| ds_human := ds_human s; ds_block := []; ds_fence := None |} /\
  forall entries text, render_derived_block json_dumps sha256_hex entries = Ok text ->
    split_derived_block (ds_human s ++ LF :: LF :: text) =
      {| ds_human := ds_human s; ds_block := text; ds_fence := Some (length (ds_human s) + 2) |}.
Proof.
  cbn zeta. destruct (human_part body) as (Hp & Hb & Hf & Hl). split; [done|]. split; [done|]. split; [by apply split_fenceless|].
  intros entries text Hr. destruct (rendered _ _ _ _ Hr) as (d & _ & _ & _ & ->). by apply split_appended.
Qed.

(** ** A block *)

Definition demo_digest : string := "0123456789abcdef0123456789abcdef0123456789abcdef0123456789abcdef".

Definition demo_relation (head value note : string) : DerivedEntry :=
  {| de_head := head; de_value := value; de_proposal := demo_digest; de_provider := "model a"; de_reviewer := "ann"; de_at := "2026-08-01T09:30:00Z"; de_note := note |}.

Definition demo_relations : list DerivedEntry := [demo_relation "status" "obsolete" ""; demo_relation "contradicts" "other memo" "see: table 2"].

Lemma derived_roundtrip_witness : exists text block,
  render_derived_block (fun _ => "") (fun _ => demo_digest) demo_relations = Ok text /\
  verify_derived_block (fun _ => "") (fun _ => demo_digest) text = Ok block /\
  map entry_key (db_entries block) = [("contradicts", "other memo"); ("status", "superseded")].
Proof.
  destruct (render_derived_block (fun _ => "") (fun _ => demo_digest) demo_relations) as [text|e] eqn:Hr; [|by vm_compute in Hr].
  destruct (derived_roundtrip (fun _ => "") (fun _ => demo_digest) demo_relations text) as (block & Hv & He & _).
  - intros s. vm_compute. reflexivity.
  - exact Hr.
  - exists text, block. split; [done|]. split; [exact Hv|]. rewrite He. vm_compute. reflexivity.
Defined.
