(* ===== verification/ProofObligations.v ===== *)
(** * ProofObligations: what a provider must show before an answer counts as proved
    (src/recall/proof_obligations.py, the bundles of src/recall/evidence.py and
    the coverage of src/recall/support.py)

    A run asks the provider once, may retrieve once more, and asks once again. The provider is an
    argument, asked by the number of the call, since it need not answer alike twice; so are the
    retriever of the repair, [json.dumps], [json.loads], the text of the instructions and the [==]
    of two reports. The cards of a bundle are carried and never read. *)
From S2P Require Import Prelude Text Float64 Frontmatter Types.

Local Open Scope Z_scope.

Definition PROOF_SCHEMA_VERSION : Z := 1.
Definition SLOT_KINDS : list string := ["entity"; "relation"; "time"; "scope"; "negation"; "result"].
Definition MAX_TEXT_CHARS : Z := 512.

(** ** Evidence *)

Record EvidenceItem := {
  it_chunk_id : string;
  it_text : string;
  it_source : string;
  it_ordinal : option Z;
  it_indexed_at : option datetime;
  it_valid_from : option datetime;
  it_valid_until : option datetime;
  it_cosine : float;
  it_confidence : float;
  it_verdict : string;
  it_authority : string
}.

Record QuerySupport := { qs_status : string; qs_scope : string }.

Record CalibrationCoverage := {
  cc_calibration_id : option string;
  cc_status : string;
  cc_method : option string;
  cc_report : option value
}.

Record EvidenceBundle (Card : Type) := {
  b_query : string;
  b_decision : string;
  b_reason_code : option string;
  b_decision_state : DecisionState;
  b_calibrated : bool;
  b_stale : bool;
  b_embedding_profile : string;
  b_retrieval_profile : string;
  b_index_generation : string;
  b_items : list EvidenceItem;
  b_trust_state : string;
  b_failure_code : option string;
  b_cards : list Card;
  b_query_support : QuerySupport;
  b_coverage : CalibrationCoverage
}.
Arguments b_query {Card}.
Arguments b_decision {Card}.
Arguments b_reason_code {Card}.
Arguments b_decision_state {Card}.
Arguments b_calibrated {Card}.
Arguments b_stale {Card}.
Arguments b_embedding_profile {Card}.
Arguments b_retrieval_profile {Card}.
Arguments b_index_generation {Card}.
Arguments b_items {Card}.
Arguments b_trust_state {Card}.
Arguments b_failure_code {Card}.
Arguments b_cards {Card}.
Arguments b_query_support {Card}.
Arguments b_coverage {Card}.

(** [CalibrationCoverage(calibration_id=...)], the other fields as declared. *)
Definition unmeasured (id : option string) : CalibrationCoverage :=
  {| cc_calibration_id := id; cc_status := "unmeasured"; cc_method := None; cc_report := None |}.

(** ** The objects of a proof *)

Record ProofSlot := { slot_id : string; slot_kind : string; slot_requirement : string; slot_required : bool }.

#[export] Instance ProofSlot_eq_dec : EqDecision ProofSlot.
Proof. solve_decision. Defined.

Record SupportSpan := { sp_slot_id : string; sp_chunk_id : string; sp_start : Z; sp_end : Z; sp_quote : string }.

Record RepairRequest := { rq_query : string; rq_missing : list string }.

Record ProofAssessment := { pa_slots : list ProofSlot; pa_support : list SupportSpan; pa_repair : option RepairRequest }.

Record ProofDecision := { pd_assessment : ProofAssessment; pd_missing : list string; pd_sufficient : bool }.

(** A call of the provider: what it returns, or that it ran out of time or raised. *)
Inductive reply := RText (s : string) | RObject (m : metadata) | RTimeout | RError.

(** ** Reading an assessment *)

(** [ProofValidationError]. *)
Definition proof_error {A} (msg : string) : result A := Raise (ValueError msg).

(** [set(raw) != expected] refused. *)
Definition require_keys (raw : metadata) (expected : list string) (label : string) : result unit :=
  if decide (Forall (fun k => k ∈ expected) (map fst raw) /\ Forall (fun k => k ∈ map fst raw) expected) then Ok tt
  else proof_error (label +:+ " fields must be exactly the expected ones").

Definition proof_mapping (v : value) (label : string) : result metadata :=
  match v with VDict m => Ok m | _ => proof_error (label +:+ " must be an object") end.

Definition proof_list (v : value) (label : string) : result (list value) :=
  match v with VList l => Ok l | _ => proof_error (label +:+ " must be an array") end.

Definition proof_string (v : value) (label : string) : result string :=
  match v with
  | VStr s => if decide (strip s = "") then proof_error (label +:+ " must be a non-empty string") else Ok s
  | _ => proof_error (label +:+ " must be a non-empty string")
  end.

(** [isinstance(v, int)] and not a [bool]. *)
Definition proof_int (v : value) (label : string) : result Z :=
  match v with VInt z => Ok z | _ => proof_error (label +:+ " must be an integer") end.

Definition in_range (lo hi c : ascii) : bool := (code lo <=? code c)%nat && (code c <=? code hi)%nat.

(** [[a-z][a-z0-9_]{0,63}], the whole of the text. *)
Definition slot_id_ok (s : string) : bool :=
  match chars s with
  | c :: l => in_range "a" "z" c && (length l <=? 63)%nat &&
      forallb (fun c => in_range "a" "z" c || in_range "0" "9" c || bool_decide (c = "_"%char)) l
  | [] => false
  end.

Definition parse_slot (v : value) : result ProofSlot :=
  raw ← proof_mapping v "slot";
  _ ← require_keys raw ["slot_id"; "kind"; "requirement"; "required"] "slot";
  id ← proof_string (meta_get "slot_id" raw) "slot_id";
  if negb (slot_id_ok id) then proof_error "slot_id must be a lowercase identifier" else
  kind ← proof_string (meta_get "kind" raw) "slot.kind";
  if decide (kind ∉ SLOT_KINDS) then proof_error "slot.kind is unsupported" else
  requirement ← proof_string (meta_get "requirement" raw) "slot.requirement";
  if MAX_TEXT_CHARS <? Z.of_nat (String.length requirement) then proof_error "slot.requirement is too long" else
  match meta_get "required" raw with
  | VBool b => Ok {| slot_id := id; slot_kind := kind; slot_requirement := requirement; slot_required := b |}
  | _ => proof_error "slot.required must be boolean"
  end.

Definition parse_support (v : value) : result SupportSpan :=
  raw ← proof_mapping v "support span";
  _ ← require_keys raw ["slot_id"; "chunk_id"; "start"; "end"; "quote"] "support span";
  start ← proof_int (meta_get "start" raw) "support.start";
  stop ← proof_int (meta_get "end" raw) "support.end";
  id ← proof_string (meta_get "slot_id" raw) "support.slot_id";
  chunk ← proof_string (meta_get "chunk_id" raw) "support.chunk_id";
  quote ← proof_string (meta_get "quote" raw) "support.quote";
  Ok {| sp_slot_id := id; sp_chunk_id := chunk; sp_start := start; sp_end := stop; sp_quote := quote |}.

Definition parse_repair (v : value) : result (option RepairRequest) :=
  match v with
  | VNone => Ok None
  | _ =>
      raw ← proof_mapping v "repair";
      _ ← require_keys raw ["query"; "missing_slot_ids"] "repair";
      query ← proof_string (meta_get "query" raw) "repair.query";
      if MAX_TEXT_CHARS <? Z.of_nat (String.length query) then proof_error "repair.query is too long" else
      items ← proof_list (meta_get "missing_slot_ids" raw) "repair.missing_slot_ids";
      ids ← result_mapM (fun v => proof_string v "repair.missing_slot_ids") items;
      if decide (ids = [] \/ ~ NoDup ids) then proof_error "repair.missing_slot_ids must be a non-empty unique list"
      else Ok (Some {| rq_query := query; rq_missing := ids |})
  end.

Section obligations.
Context {Card : Type} (json_dumps : value -> string) (json_loads : string -> option value).
Context (same_report : value -> value -> bool) (system_prompt : string).

(** [parse_proof_assessment]. *)
Definition parse_proof_assessment (payload : string + metadata) : result ProofAssessment :=
  v ← match payload with
      | inl s => match json_loads s with Some v => Ok v | None => proof_error "proof provider returned invalid JSON" end
      | inr m => Ok (VDict m)
      end;
  raw ← proof_mapping v "proof provider result";
  _ ← require_keys raw ["schema_version"; "slots"; "support"; "repair"] "proof object";
  if negb (equals_one (meta_get "schema_version" raw)) then proof_error "proof schema_version is unsupported" else
  slots_raw ← proof_list (meta_get "slots" raw) "slots";
  support_raw ← proof_list (meta_get "support" raw) "support";
  slots ← result_mapM parse_slot slots_raw;
  support ← result_mapM parse_support support_raw;
  repair ← parse_repair (meta_get "repair" raw);
  Ok {| pa_slots := slots; pa_support := support; pa_repair := repair |}.

(** ** Judging it *)

Definition trusted_answer (b : EvidenceBundle Card) : bool :=
  bool_decide (b_decision b = "answer") && bool_decide (b_trust_state b = "trusted").

(** [{item.chunk_id: item for item in items}]. *)
Definition items_by_id (items : list EvidenceItem) : list (string * EvidenceItem) :=
  foldl (fun d i => odict_set (it_chunk_id i) i d) [] items.

(** [text[start:end]], for offsets inside the text. *)
Definition slice (text : string) (start stop : Z) : string :=
  unchars (take (Z.to_nat (stop - start)) (drop (Z.to_nat start) (chars text))).

(** One span of the loop: the slot it supports. *)
Definition check_span (items : list EvidenceItem) (slots : list ProofSlot) (s : SupportSpan) : result string :=
  if decide (sp_slot_id s ∉ map slot_id slots) then proof_error "support span names an unknown slot"
  else match odict_get (sp_chunk_id s) (items_by_id items) with
  | None => proof_error "support span cites evidence outside the trusted bundle"
  | Some item =>
      if (sp_start s <? 0) || (sp_end s <=? sp_start s) || (Z.of_nat (String.length (it_text item)) <? sp_end s)
      then proof_error "support span offsets are outside the cited evidence"
      else if negb (bool_decide (slice (it_text item) (sp_start s) (sp_end s) = sp_quote s))
      then proof_error "support span quote does not match the cited evidence"
      else Ok (sp_slot_id s)
  end.

(** The required slots left without support. *)
Definition missing_slots (slots : list ProofSlot) (supported : list string) : list string :=
  map slot_id (filter (fun s => slot_required s = true /\ slot_id s ∉ supported) slots).

(** Two lists of the same members. *)
Definition same_members (a b : list string) : bool :=
  forallb (fun x => bool_decide (x ∈ b)) a && forallb (fun x => bool_decide (x ∈ a)) b.

Definition validate_proof_assessment (a : ProofAssessment) (b : EvidenceBundle Card) (expected : option (list ProofSlot)) : result ProofDecision :=
  if negb (trusted_answer b) then proof_error "proof obligations require a trusted answerable evidence bundle"
  else if decide (pa_slots a = []) then proof_error "proof assessment must declare at least one slot"
  else if decide (~ NoDup (map slot_id (pa_slots a))) then proof_error "proof slot ids must be unique"
  else if negb (existsb slot_required (pa_slots a)) then proof_error "proof assessment must declare at least one required slot"
  else if match expected with Some e => negb (bool_decide (pa_slots a = e)) | None => false end
  then proof_error "post-repair proof slots must match the initial slots exactly"
  else
    supported ← result_mapM (check_span (b_items b) (pa_slots a)) (pa_support a);
    let missing := missing_slots (pa_slots a) supported in
    match missing, pa_repair a with
    | [], Some _ => proof_error "proof assessment requested repair despite complete support"
    | [], None => Ok {| pd_assessment := a; pd_missing := []; pd_sufficient := true |}
    | _, None => Ok {| pd_assessment := a; pd_missing := missing; pd_sufficient := false |}
    | _, Some r =>
        if negb (same_members (rq_missing r) missing) then proof_error "repair must name exactly the required slots still unsupported"
        else Ok {| pd_assessment := a; pd_missing := missing; pd_sufficient := false |}
    end.

(** ** The prompt *)

Definition slot_payload (s : ProofSlot) : value :=
  VDict [("slot_id", VStr (slot_id s)); ("kind", VStr (slot_kind s)); ("requirement", VStr (slot_requirement s)); ("required", VBool (slot_required s))].

(** The three [replace]s of [_delimited_json]. *)
Definition escape_angle (c : ascii) : list ascii :=
  if decide (c = "<"%char) then chars "\u003c" else if decide (c = ">"%char) then chars "\u003e"
  else if decide (c = "&"%char) then chars "\u0026" else [c].

Definition delimited_json (payload : value) : string :=
  "<proof_evidence>" +:+ unchars (concat (map escape_angle (chars (json_dumps payload)))) +:+ "</proof_evidence>".

Definition item_payload (i : EvidenceItem) : value :=
  VDict [("chunk_id", VStr (it_chunk_id i)); ("source", VStr (it_source i)); ("text", VStr (it_text i))].

Definition render_proof_prompt (b : EvidenceBundle Card) (expected : option (list ProofSlot)) : string * string :=
  let payload := [("query", VStr (b_query b)); ("evidence", VList (map item_payload (b_items b)))] in
  let payload := match expected with
                 | Some slots => payload ++ [("expected_slots", VList (map slot_payload slots)); ("repair_allowed", VBool false)]
                 | None => payload
                 end in
  (system_prompt, delimited_json (VDict payload)).

(** ** Merging a repair *)

Definition same_coverage (a b : CalibrationCoverage) : bool :=
  bool_decide (cc_calibration_id a = cc_calibration_id b) && bool_decide (cc_status a = cc_status b) &&
  bool_decide (cc_method a = cc_method b) &&
  match cc_report a, cc_report b with
  | None, None => true
  | Some x, Some y => same_report x y
  | _, _ => false
  end.

(** [merge_calibration_coverage] of one other. *)
Definition merge_calibration_coverage (initial : CalibrationCoverage) (expanded : list CalibrationCoverage) : CalibrationCoverage :=
  if forallb (fun c => same_coverage c initial) expanded then initial
  else unmeasured (if forallb (fun c => bool_decide (cc_calibration_id c = cc_calibration_id initial)) expanded then cc_calibration_id initial else None).

(** The items of the repair not known yet, each once. *)
Fixpoint new_items (known : list string) (items : list EvidenceItem) : list EvidenceItem :=
  match items with
  | [] => []
  | i :: items' => if decide (it_chunk_id i ∈ known) then new_items known items' else i :: new_items (it_chunk_id i :: known) items'
  end.

Definition merge_bundles (initial repair : EvidenceBundle Card) : result (EvidenceBundle Card) :=
  if negb (trusted_answer repair) then proof_error "repair retrieval did not return trusted answerable evidence"
  else if negb (bool_decide (b_embedding_profile initial = b_embedding_profile repair)) then proof_error "repair evidence embedding_profile does not match the initial bundle"
  else if negb (bool_decide (b_retrieval_profile initial = b_retrieval_profile repair)) then proof_error "repair evidence retrieval_profile does not match the initial bundle"
  else if negb (bool_decide (b_index_generation initial = b_index_generation repair)) then proof_error "repair evidence index_generation does not match the initial bundle"
  else Ok {|
    b_query := b_query initial; b_decision := "answer"; b_reason_code := None; b_decision_state := b_decision_state initial;
    b_calibrated := b_calibrated initial; b_stale := b_stale initial; b_embedding_profile := b_embedding_profile initial;
    b_retrieval_profile := b_retrieval_profile initial; b_index_generation := b_index_generation initial;
    b_items := b_items initial ++ new_items (map it_chunk_id (b_items initial)) (b_items repair);
    b_trust_state := b_trust_state initial; b_failure_code := b_failure_code initial; b_cards := b_cards initial;
    b_query_support := b_query_support initial;
    b_coverage := merge_calibration_coverage (b_coverage initial) [b_coverage repair] |}.

(** ** A run *)

Record ProofRun := {
  run_decision : string;
  run_reason : option string;
  run_evidence : EvidenceBundle Card;
  run_initial : option ProofDecision;
  run_final : option ProofDecision;
  run_repaired : bool;
  run_calls : nat
}.

Definition abstain (reason : string) (b : EvidenceBundle Card) (initial : option ProofDecision) (repaired : bool) (calls : nat) : ProofRun :=
  {| run_decision := "abstain"; run_reason := Some reason; run_evidence := b; run_initial := initial; run_final := None;
     run_repaired := repaired; run_calls := calls |}.

(** One question to the provider: [inl] of the reason it abstains with. *)
Definition assess (provider : nat -> string * string -> reply) (n : nat) (b : EvidenceBundle Card) (expected : option (list ProofSlot)) :
    string + ProofDecision :=
  let judged payload :=
    match a ← parse_proof_assessment payload; validate_proof_assessment a b expected with
    | Ok d => inr d
    | Raise _ => inl "proof_provider_invalid"
    end in
  match provider n (render_proof_prompt b expected) with
  | RTimeout => inl "proof_provider_timeout"
  | RError => inl "proof_provider_invalid"
  | RText s => judged (inl s)
  | RObject m => judged (inr m)
  end.

(** [run_proof_obligations]; the retriever of the repair answers [None] when it raises. *)
Definition run_proof_obligations (b : EvidenceBundle Card) (provider : option (nat -> string * string -> reply))
    (repair_retriever : option (RepairRequest -> option (EvidenceBundle Card))) : ProofRun :=
  if negb (trusted_answer b) then abstain "proof_requires_trusted_evidence" b None false 0
  else match provider with
  | None => abstain "no_proof_provider" b None false 0
  | Some provider =>
      match assess provider 0 b None with
      | inl reason => abstain reason b None false 1
      | inr initial =>
          if pd_sufficient initial then
            {| run_decision := "sufficient"; run_reason := None; run_evidence := b; run_initial := Some initial; run_final := Some initial;
               run_repaired := false; run_calls := 1 |}
          else match pa_repair (pd_assessment initial), repair_retriever with
          | None, _ => abstain "proof_slot_gap" b (Some initial) false 1
          | Some _, None => abstain "proof_repair_unavailable" b (Some initial) false 1
          | Some request, Some retrieve =>
              match option_map (merge_bundles b) (retrieve request) with
              | None | Some (Raise _) => abstain "proof_repair_failure" b (Some initial) true 1
              | Some (Ok repaired) =>
                  match assess provider 1 repaired (Some (pa_slots (pd_assessment initial))) with
                  | inl reason => abstain reason repaired (Some initial) true 2
                  | inr final =>
                      {| run_decision := if pd_sufficient final then "sufficient" else "abstain";
                         run_reason := if pd_sufficient final then None else Some "proof_slot_gap_after_repair";
                         run_evidence := repaired; run_initial := Some initial; run_final := Some final;
                         run_repaired := true; run_calls := 2 |}
                  end
              end
          end
      end
  end.
End obligations.
