(* ===== verification/ProofObligationsFacts.v ===== *)
(** * ProofObligationsFacts: a run counts as proved only what the evidence says word for word *)
From S2P Require Import Prelude Text Float64 Frontmatter Types ProofObligations.

Local Open Scope Z_scope.

(** ** Spans *)

Lemma items_by_id_last k items : odict_get k (items_by_id items) = last (filter (fun i => it_chunk_id i = k) items).
Proof.
  unfold items_by_id. induction items as [|i items IH] using rev_ind; [done|]. rewrite foldl_snoc, filter_app, filter_cons, filter_nil, odict_get_set.
  destruct (decide (k = it_chunk_id i)) as [->|Hk].
  - rewrite decide_True by done. by rewrite last_snoc.
  - rewrite decide_False by congruence. by rewrite app_nil_r.
Qed.

(** A span that names a slot and quotes an item of the evidence, the last of its id, word for word. *)
Definition backed (items : list EvidenceItem) (slots : list ProofSlot) (s : SupportSpan) : Prop :=
  sp_slot_id s ∈ map slot_id slots /\
  exists i, last (filter (fun i => it_chunk_id i = sp_chunk_id s) items) = Some i /\
    0 <= sp_start s < sp_end s /\ sp_end s <= Z.of_nat (String.length (it_text i)) /\
    slice (it_text i) (sp_start s) (sp_end s) = sp_quote s.

Lemma check_span_ok items slots s id : check_span items slots s = Ok id <-> backed items slots s /\ id = sp_slot_id s.
Proof.
  unfold check_span, backed. rewrite items_by_id_last. case_decide as Hs; [split; [done|by intros [[? _] _]]|].
  destruct (decide (sp_slot_id s ∈ map slot_id slots)) as [Hin|]; [|done].
  destruct (last _) as [i|]; [|split; [done|by intros [[_ (i & ? & _)] _]]].
  destruct (_ || _) eqn:Hb; [split; [done|]|].
  { intros [[_ (i' & [= <-] & H1 & H2 & _)] _]. apply orb_true_iff in Hb as [[Hb|Hb]%orb_true_iff|Hb]; lia. }
  apply orb_false_iff in Hb as [[H1 H2]%orb_false_iff H3]. case_bool_decide as Hq; cbn [negb].
  - split; [intros [= <-]; split; [|done]; split; [done|]; exists i; split; [done|]; split; [lia|]; split; [lia|done]|by intros [_ ->]].
  - split; [done|]. by intros [[_ (i' & [= <-] & _ & _ & ?)] _].
Qed.

Lemma checked_spans items slots spans ids :
  result_mapM (check_span items slots) spans = Ok ids <-> Forall (backed items slots) spans /\ ids = map sp_slot_id spans.
Proof.
  rewrite result_mapM_ok. split.
  - induction 1 as [|s id spans ids H _ IH]; [done|]. apply check_span_ok in H as [? ->]. destruct IH as [? ->]. by split; [constructor|].
  - intros [H ->]. induction H as [|s spans Hs _ IH]; constructor; [by apply check_span_ok|done].
Qed.

Lemma elem_of_missing slots supported id :
  id ∈ missing_slots slots supported <-> exists s, s ∈ slots /\ slot_required s = true /\ slot_id s = id /\ id ∉ supported.
Proof.
  unfold missing_slots. rewrite list_elem_of_fmap. split.
  - intros (s & -> & [[Hr Hn] Hin]%list_elem_of_filter). by exists s.
  - intros (s & Hin & Hr & <- & Hn). exists s. split; [done|]. by apply list_elem_of_filter.
Qed.

Lemma same_members_iff a b : same_members a b = true <-> forall x, x ∈ a <-> x ∈ b.
Proof.
  unfold same_members. rewrite andb_true_iff, !forallb_forall. split.
  - intros [H1 H2] x. split; intros Hx%list_elem_of_In; [specialize (H1 x Hx)|specialize (H2 x Hx)]; by apply bool_decide_eq_true in H1 || apply bool_decide_eq_true in H2.
  - intros H. split; intros x Hx%list_elem_of_In; apply bool_decide_eq_true; by apply H.
Qed.

Section facts.
Context {Card : Type} (json_dumps : value -> string) (json_loads : string -> option value).
Context (same_report : value -> value -> bool) (system_prompt : string).

(** What an accepted assessment satisfies. *)
Record well_proved (a : ProofAssessment) (b : EvidenceBundle Card) (expected : option (list ProofSlot)) (d : ProofDecision) : Prop := {
  ac_trusted : trusted_answer b = true;
  ac_distinct : NoDup (map slot_id (pa_slots a));
  ac_required : exists s, s ∈ pa_slots a /\ slot_required s = true;
  ac_expected : forall e, expected = Some e -> pa_slots a = e;
  ac_backed : Forall (backed (b_items b) (pa_slots a)) (pa_support a);
  ac_decision : d = {| pd_assessment := a; pd_missing := missing_slots (pa_slots a) (map sp_slot_id (pa_support a));
                       pd_sufficient := bool_decide (missing_slots (pa_slots a) (map sp_slot_id (pa_support a)) = []) |};
  ac_repair : forall r, pa_repair a = Some r ->
    pd_missing d <> [] /\ forall id, id ∈ rq_missing r <-> id ∈ pd_missing d
}.

Lemma some_required slots : existsb slot_required slots = true <-> exists s, s ∈ slots /\ slot_required s = true.
Proof. rewrite existsb_exists. by setoid_rewrite <-list_elem_of_In. Qed.

Lemma validate_exact a b expected d : validate_proof_assessment a b expected = Ok d <-> well_proved a b expected d.
Proof.
  unfold validate_proof_assessment. destruct (trusted_answer b) eqn:Ht; cbn [negb]; [|split; [done|intros []; congruence]].
  case_decide as Hn; [split; [done|]; intros [_ _ (s & Hs & _) _ _ _ _]; rewrite Hn in Hs; by apply not_elem_of_nil in Hs|].
  case_decide as Hd; [split; [done|by intros []]|].
  destruct (existsb slot_required (pa_slots a)) eqn:Hr; cbn [negb].
  2:{ split; [done|]. intros [_ _ H _ _ _ _]. apply some_required in H. congruence. }
  destruct (match expected with Some _ => _ | None => _ end) eqn:He.
  { split; [done|]. intros [_ _ _ H _ _ _]. destruct expected as [e|]; [|done]. by rewrite (H e eq_refl), bool_decide_true in He. }
  assert (Hex : forall e, expected = Some e -> pa_slots a = e) by (intros e ->; by apply negb_false_iff, bool_decide_eq_true in He).
  destruct (result_mapM _ _) as [ids|e] eqn:Hids; cbn [mbind result_bind].
  2:{ split; [done|]. intros [_ _ _ _ Hb _ _]. destruct (checked_spans (b_items b) (pa_slots a) (pa_support a) (map sp_slot_id (pa_support a))) as [_ H].
      rewrite H in Hids by done. done. }
  apply checked_spans in Hids as [Hb ->]. apply some_required in Hr. set (missing := missing_slots _ _).
  assert (Hacc : forall (Q : Prop), (Q <-> (d = {| pd_assessment := a; pd_missing := missing; pd_sufficient := bool_decide (missing = []) |} /\
    forall r, pa_repair a = Some r -> missing <> [] /\ forall id, id ∈ rq_missing r <-> id ∈ missing)) -> Q <-> well_proved a b expected d).
  { intros Q ->. split.
    - intros [-> H]. by split.
    - intros [_ _ _ _ _ -> H]. done. }
  apply Hacc. destruct missing as [|m l] eqn:Hm; destruct (pa_repair a) as [r|] eqn:Hrep.
  - split; [done|]. intros [_ H]. by destruct (H r eq_refl).
  - rewrite bool_decide_true by done. split; [by intros [= <-]|by intros [-> _]].
  - rewrite bool_decide_false by done. destruct (same_members _ _) eqn:Hs; cbn [negb].
    + split; [intros [= <-]; split; [done|]|by intros [-> _]]. intros r' [= <-]. split; [done|]. by apply same_members_iff.
    + split; [done|]. intros [_ H]. destruct (H r eq_refl) as [_ H']. apply same_members_iff in H'. congruence.
  - rewrite bool_decide_false by done. split; [by intros [= <-]|by intros [-> _]].
Qed.

(** ** Proof *)

(** Every required slot is quoted from the evidence, and there is one. *)
Record proves (b : EvidenceBundle Card) (a : ProofAssessment) : Prop := {
  pv_trusted : trusted_answer b = true;
  pv_distinct : NoDup (map slot_id (pa_slots a));
  pv_required : exists s, s ∈ pa_slots a /\ slot_required s = true;
  pv_quoted : forall s, s ∈ pa_slots a -> slot_required s = true ->
    exists span, span ∈ pa_support a /\ sp_slot_id span = slot_id s /\ backed (b_items b) (pa_slots a) span
}.

Lemma accepted_proves a b expected d : well_proved a b expected d -> pd_sufficient d = true -> proves b a.
Proof.
  intros [Ht Hd Hr _ Hb -> _]. cbn [pd_sufficient]. rewrite bool_decide_eq_true. intros Hm. split; [done..|].
  intros s Hs Hreq. destruct (decide (slot_id s ∈ map sp_slot_id (pa_support a))) as [Hin|Hin].
  - apply list_elem_of_fmap in Hin as (span & Heq & Hspan). exists span. rewrite Forall_forall in Hb. by split; [|split; [|apply Hb]].
  - exfalso. apply (not_elem_of_nil (slot_id s)). rewrite <-Hm. apply elem_of_missing. by exists s.
Qed.

Lemma assess_accepted provider n b expected d : assess json_dumps json_loads system_prompt provider n b expected = inr d ->
  well_proved (pd_assessment d) b expected d.
Proof.
  assert (Hj : forall payload, match a ← parse_proof_assessment json_loads payload; validate_proof_assessment a b expected with
      Ok d => inr d | Raise _ => inl "proof_provider_invalid" end = (inr d : string + ProofDecision) -> well_proved (pd_assessment d) b expected d).
  { intros payload. destruct (parse_proof_assessment json_loads payload) as [a|]; [|done]. cbn [mbind result_bind].
    destruct (validate_proof_assessment a b expected) as [d'|] eqn:Hv; [|done]. intros [= ->]. apply validate_exact in Hv as Ha.
    pose proof (ac_decision _ _ _ _ Ha) as Hdec. replace (pd_assessment d) with a by (by rewrite Hdec). exact Ha. }
  unfold assess. destruct (provider n _); [apply Hj..|done|done].
Qed.

(** ** Merging *)

Lemma new_items_fresh known items : Forall (fun i => it_chunk_id i ∉ known) (new_items known items) /\
  NoDup (map it_chunk_id (new_items known items)) /\ new_items known items `sublist_of` items.
Proof.
  revert known. induction items as [|i items IH]; intros known; [split; [constructor|split; constructor]|].
  cbn [new_items]. case_decide as Hi.
  - destruct (IH known) as (H1 & H2 & H3). split; [done|]. split; [done|by constructor].
  - destruct (IH (it_chunk_id i :: known)) as (H1 & H2 & H3). cbn [map]. split; [|split].
    + constructor; [done|]. eapply Forall_impl; [exact H1|]. intros j Hj Hk. apply Hj. by right.
    + constructor; [|done]. intros (j & Hj & Hin)%list_elem_of_fmap. rewrite Forall_forall in H1. apply (H1 j Hin). rewrite Hj. by left.
    + by constructor.
Qed.

(** What a repair adds to the evidence. *)
Record enriched (b b' : EvidenceBundle Card) (added : list EvidenceItem) : Prop := {
  en_items : b_items b' = b_items b ++ added;
  en_new : Forall (fun i => it_chunk_id i ∉ map it_chunk_id (b_items b)) added;
  en_once : NoDup (map it_chunk_id added);
  en_query : b_query b' = b_query b;
  en_generation : b_index_generation b' = b_index_generation b;
  en_trust : b_trust_state b' = b_trust_state b
}.

Lemma merge_enriches b repair b' : merge_bundles same_report b repair = Ok b' ->
  trusted_answer repair = true /\ b_index_generation repair = b_index_generation b /\
  exists added, enriched b b' added /\ added `sublist_of` b_items repair.
Proof.
  unfold merge_bundles. destruct (trusted_answer repair); [|done]. cbn [negb].
  repeat (case_bool_decide; cbn [negb]; [|done]). intros [= <-]. split; [done|]. split; [done|].
  destruct (new_items_fresh (map it_chunk_id (b_items b)) (b_items repair)) as (Hf & Hn & Hs). eexists. split; [|exact Hs]. by split.
Qed.

Lemma enriched_refl b : enriched b b [].
Proof. split; [by rewrite app_nil_r|constructor|constructor|done..]. Qed.

(** ** The prompt *)

Lemma escaped_safe c x : x ∈ escape_angle c -> x <> "<"%char /\ x <> ">"%char /\ x <> "&"%char.
Proof.
  unfold escape_angle. repeat case_decide; intros Hx; [..|apply list_elem_of_singleton in Hx; by subst x];
    vm_compute in Hx; repeat (apply elem_of_cons in Hx as [->|Hx]; [done|]); by apply not_elem_of_nil in Hx.
Qed.

(** Nothing inside the tags closes them, whatever the query and the evidence say. *)
Lemma prompt_delimited (b : EvidenceBundle Card) expected : exists inside,
  (render_proof_prompt json_dumps system_prompt b expected).2 = "<proof_evidence>" +:+ unchars inside +:+ "</proof_evidence>" /\
  Forall (fun c => c <> "<"%char /\ c <> ">"%char /\ c <> "&"%char) inside.
Proof.
  eexists. split; [reflexivity|]. apply Forall_concat, Forall_map, Forall_true. intros c. apply Forall_forall. intros x. apply escaped_safe.
Qed.

(** The slots shown again after a repair are read back as themselves. *)
Lemma slots_echo v s : parse_slot v = Ok s -> parse_slot (slot_payload s) = Ok s.
Proof.
  unfold parse_slot at 1. destruct (proof_mapping v "slot") as [raw|]; [|done]. cbn [mbind result_bind].
  destruct (require_keys raw _ _) as [[]|]; [|done]. cbn [mbind result_bind].
  destruct (proof_string (meta_get "slot_id" raw) _) as [id|] eqn:Hid; [|done]. cbn [mbind result_bind].
  destruct (slot_id_ok id) eqn:Hok; [|done]. cbn [negb].
  destruct (proof_string (meta_get "kind" raw) _) as [kind|] eqn:Hk; [|done]. cbn [mbind result_bind].
  destruct (decide (kind ∉ SLOT_KINDS)) as [|Hkind]; [done|].
  destruct (proof_string (meta_get "requirement" raw) _) as [requirement|] eqn:Hr; [|done]. cbn [mbind result_bind].
  destruct (MAX_TEXT_CHARS <? _) eqn:Hlen; [done|]. destruct (meta_get "required" raw); try done. intros [= <-].
  assert (Hstr : forall w lbl x lbl', proof_string w lbl = Ok x -> proof_string (VStr x) lbl' = Ok x).
  { intros w lbl x lbl'. destruct w; cbn; try done. case_decide; [done|]. intros [= ->]. by rewrite decide_False. }
  unfold parse_slot, slot_payload. cbn [proof_mapping mbind result_bind slot_id slot_kind slot_requirement slot_required].
  change (require_keys [("slot_id", VStr id); ("kind", VStr kind); ("requirement", VStr requirement); ("required", VBool b)]
    ["slot_id"; "kind"; "requirement"; "required"] "slot") with (Ok tt). cbn [mbind result_bind].
  change (meta_get "slot_id" _) with (VStr id). rewrite (Hstr _ _ _ "slot_id" Hid). cbn [mbind result_bind]. rewrite Hok. cbn [negb].
  change (meta_get "kind" _) with (VStr kind). rewrite (Hstr _ _ _ "slot.kind" Hk). cbn [mbind result_bind]. rewrite decide_False by done.
  change (meta_get "requirement" _) with (VStr requirement). rewrite (Hstr _ _ _ "slot.requirement" Hr). cbn [mbind result_bind]. by rewrite Hlen.
Qed.

(** ** Runs *)

(** What a run reports. *)
Record honest_run (b : EvidenceBundle Card) (r : ProofRun) : Prop := {
  hn_outcome : (run_decision r = "sufficient" /\ run_reason r = None /\
                  exists d, run_final r = Some d /\ proves (run_evidence r) (pd_assessment d)) \/
               (run_decision r = "abstain" /\ exists reason, run_reason r = Some reason);
  hn_calls : (run_calls r <= if run_repaired r then 2 else 1)%nat;
  hn_evidence : exists added, enriched b (run_evidence r) added;
  hn_unrepaired : run_repaired r = false -> run_evidence r = b;
  hn_repaired : run_repaired r = true -> exists initial request,
    run_initial r = Some initial /\ pa_repair (pd_assessment initial) = Some request /\ pd_missing initial <> [] /\
    (forall id, id ∈ rq_missing request <-> id ∈ pd_missing initial) /\
    (forall final, run_final r = Some final -> pa_slots (pd_assessment final) = pa_slots (pd_assessment initial))
}.

Lemma honest_early b reason initial calls : (calls <= 1)%nat -> honest_run b (abstain reason b initial false calls).
Proof.
  intros Hc. split; cbn; [right; split; [done|by eexists]|done|exists []; apply enriched_refl|done|done].
Qed.
End facts.

(** C40: a run of the proof obligations, whatever the provider and the retriever answer. It asks the
    provider at most once, or twice when a repair was tried; it says sufficient only with an
    assessment in which some slot is required and every required slot is quoted, word for word,
    from an item of a trusted bundle; otherwise it abstains with a reason. The bundle it reports is
    the one it was given, to which a repair only adds items of new ids; a repair was asked for by
    the first assessment, for exactly the slots missing there, and what follows it is judged on
    the same slots. *)
Theorem proof_run_honest {Card} json_dumps json_loads same_report system_prompt (b : EvidenceBundle Card) provider retriever :
  honest_run b (run_proof_obligations json_dumps json_loads same_report system_prompt b provider retriever).
Proof.
  unfold run_proof_obligations. destruct (negb _); [apply honest_early; lia|]. destruct provider as [provider|]; [|apply honest_early; lia].
  destruct (assess _ _ _ provider 0 b None) as [reason|initial] eqn:Ha; [apply honest_early; lia|]. apply assess_accepted in Ha.
  destruct (pd_sufficient initial) eqn:Hs.
  { split; cbn; [left; split; [done|]; split; [done|]; exists initial; split; [done|by eapply accepted_proves]|lia|exists []; apply enriched_refl|done|done]. }
  destruct (pa_repair (pd_assessment initial)) as [request|] eqn:Hr; [|apply honest_early; lia].
  destruct retriever as [retrieve|]; [|apply honest_early; lia]. destruct (ac_repair _ _ _ _ Ha request Hr) as [Hm Hreq].
  assert (Hrep : forall final : option ProofDecision, (forall d, final = Some d -> pa_slots (pd_assessment d) = pa_slots (pd_assessment initial)) ->
    exists i rq, Some initial = Some i /\ pa_repair (pd_assessment i) = Some rq /\ pd_missing i <> [] /\
      (forall id, id ∈ rq_missing rq <-> id ∈ pd_missing i) /\
      (forall d, final = Some d -> pa_slots (pd_assessment d) = pa_slots (pd_assessment i))) by (intros final Hf; by exists initial, request).
  destruct (option_map _ (retrieve request)) as [[repaired|e]|] eqn:Hmerge.
  2, 3: split; cbn; [right; split; [done|by eexists]|lia|exists []; apply enriched_refl|done|intros _; by apply Hrep].
  destruct (retrieve request) as [repair|]; [|done]. injection Hmerge as Hmerge. apply merge_enriches in Hmerge as (_ & _ & added & Hen & _).
  destruct (assess _ _ _ provider 1 repaired _) as [reason|final] eqn:Hf.
  - split; cbn; [right; split; [done|by eexists]|lia|by exists added|done|intros _; by apply Hrep].
  - apply assess_accepted in Hf. split; cbn; [|lia|by exists added|done|intros _; apply Hrep; intros d [= <-]; by apply (ac_expected _ _ _ _ Hf)].
    destruct (pd_sufficient final) eqn:Hsf; [left|right; split; [done|by eexists]].
    split; [done|]. split; [done|]. exists final. split; [done|]. by eapply accepted_proves.
Qed.

(** ** A run with a repair *)

Definition demo_item (id text : string) : EvidenceItem :=
  {| it_chunk_id := id; it_text := text; it_source := "a.md"; it_ordinal := None; it_indexed_at := None; it_valid_from := None; it_valid_until := None;
     it_cosine := one; it_confidence := one; it_verdict := "ok"; it_authority := "unknown" |}.

Definition demo_bundle (items : list EvidenceItem) : EvidenceBundle unit :=
  {| b_query := "who leads and since when"; b_decision := "answer"; b_reason_code := None; b_decision_state := Supported; b_calibrated := true;
     b_stale := false; b_embedding_profile := "p"; b_retrieval_profile := "r"; b_index_generation := "g"; b_items := items; b_trust_state := "trusted";
     b_failure_code := None; b_cards := []; b_query_support := {| qs_status := "not_checked"; qs_scope := "returned_evidence" |};
     b_coverage := unmeasured None |}.

Definition demo_slot (id kind : string) : value :=
  VDict [("slot_id", VStr id); ("kind", VStr kind); ("requirement", VStr "x"); ("required", VBool true)].

Definition demo_span (id chunk : string) (start stop : Z) (quote : string) : value :=
  VDict [("slot_id", VStr id); ("chunk_id", VStr chunk); ("start", VInt start); ("end", VInt stop); ("quote", VStr quote)].

Definition demo_reply (support : list value) (repair : value) : reply :=
  RObject [("schema_version", VInt 1); ("slots", VList [demo_slot "leader" "entity"; demo_slot "since" "time"]); ("support", VList support); ("repair", repair)].

Definition demo_provider (quote : string) (n : nat) (_ : string * string) : reply :=
  match n with
  | O => demo_reply [demo_span "leader" "c1" 0 3 "Ann"] (VDict [("query", VStr "since when"); ("missing_slot_ids", VList [VStr "since"])])
  | S _ => demo_reply [demo_span "leader" "c1" 0 3 "Ann"; demo_span "since" "c2" 6 10 quote] VNone
  end.

Definition demo_run (quote : string) : ProofRun :=
  run_proof_obligations (fun _ => "{}") (fun _ => None) (fun _ _ => true) "" (demo_bundle [demo_item "c1" "Ann leads"]) (Some (demo_provider quote))
    (Some (fun _ => Some (demo_bundle [demo_item "c1" "again"; demo_item "c2" "since 2020"]))).

Example run_proved : (run_decision (demo_run "2020"), run_calls (demo_run "2020"), map it_text (b_items (run_evidence (demo_run "2020")))) =
  ("sufficient", 2%nat, ["Ann leads"; "since 2020"]).
Proof. vm_compute. reflexivity. Qed.

Example run_misquoted : (run_decision (demo_run "2021"), run_reason (demo_run "2021")) = ("abstain", Some "proof_provider_invalid").
Proof. vm_compute. reflexivity. Qed.
